(* ===== verification/_CoqProject ===== *)
-Q . S2P
Prelude.v
Bytes.v
Str.v
Block.v
Partition.v
FatNames.v
Fat32.v
FatTable.v
FatChains.v
FatFiles.v
FatVolume.v
Initramfs.v
Vfs.v
Mem.v
Pmm.v
Heap.v
Vmm.v
VmmTables.v
VmmUser.v
VmmSpace.v
VmmDemo.v
Elf.v
ElfParse.v
ElfLoad.v
ElfDemo.v
Scheduler.v
SchedInv.v
SchedRuns.v
SchedDemo.v
Blocking.v
BlockingDemo.v
Process.v
ProcSpace.v
ProcStack.v
ProcSpawn.v
ProcDemo.v
Console.v
ConsolePix.v
ConsoleInv.v
ConsoleDemo.v
Keyboard.v
KeyQueue.v
Terminal.v
EditShow.v
EditDemo.v
Fmt.v
FsProbe.v
Syscall.v
SysFiles.v
SysInv.v
SysSafe.v
SysExec.v
SysRead.v
SysDemo.v
Hw.v
Hid.v
HidInv.v
Xhci.v
UsbRing.v
UsbInput.v
UsbStart.v
UsbDemo.v
Pci.v
Acpi.v
AcpiInv.v
AcpiDemo.v
Irq.v
IrqInv.v
IrqRoute.v
IrqDemo.v
Trap.v
TrapInv.v
Entry.v
VirtioGpu.v
GpuInv.v
GpuShow.v
Nvme.v
NvmeInv.v
NvmeRefine.v
Ahci.v
