(* ===== verification/Prelude.v ===== *)
(** * EonOS: a verification development of the kernel's core

    EonOS is an x86-64 kernel in Rust.  The sources are under [src/src]; file
    names below are relative to it.

    ** How the code is modelled

    Each component is a file with one definition per function, named as in
    the source.  A function that can fail returns a [res]: [Ok], [Err],
    [Panic] or [Diverge].  Code with state is in the monad [M S E A], which
    keeps the state also on errors.  Machine integers are [Z]; the kernel is
    taken as built with overflow checks, so an addition that overflows is a
    [Panic], and so are failed assertions, indices out of range and raw
    accesses outside of the memory an operation may use.  Wrapping operations
    wrap explicitly.  Strings are lists of bytes.

    Loops that are not structural take fuel and give [Diverge] without it.
    The searches of the heap, the bitmap allocator and FAT chains choose their
    fuel themselves, from the number of nodes, frames or clusters, and theorems
    show that this is enough.  Waits for a device take the fuel as an argument;
    the theorems ask for at least the time the device takes, a bound that is
    part of the laws of the device.

    Devices, the processor's special registers and the firmware are not code
    of the repository.  They are parameters: a block device is an instance of
    a class in [Block], a device with registers and access to memory one of
    [Hw] in [Hw], and [cpuid] and the model-specific registers are the class
    [Cpu] in [Irq].  What a theorem needs of a device is a record of laws, and
    a small concrete device in a [*Demo] file, or at the end of the file of the
    theorem, satisfies them.

    ** Parts, files and theorems

    - Foundations: [Prelude], [Bytes], [Str], [Fmt] (results, loops, slices,
      little-endian integers, UTF-8, formatted numbers), [Mem] (physical
      memory), [Hw].
    - Physical memory, [pmm.rs]: [Pmm].  Boot finds exactly the usable frames;
      frames on loan are distinct and never lost; the search for a run of
      frames is first-fit.
    - Kernel heap, [heap.rs]: [Heap].  Blocks on loan are disjoint.
    - Virtual memory, [vmm.rs]: [Vmm] the code, [VmmTables] page tables as
      trees, [VmmUser] mapping and the copies to and from user memory,
      [VmmSpace] what dropping an address space frees.
    - Programs, [elf.rs] and [process.rs]: [Elf], [ElfParse], [ElfLoad] (the
      parser accepts exactly the well-formed images; loading maps exactly
      their pages), [Process], [ProcSpace], [ProcStack], [ProcSpawn] (the
      first stack reads back; a failed start leaks nothing).
    - Threads, [scheduler.rs], [pit.rs], [blocking.rs]: [Scheduler],
      [SchedInv], [SchedRuns] (every thread is in one place; a ready thread
      runs in bounded time), [Blocking] (mutual exclusion and no lost wake-up
      under every interleaving).
    - Crossings in assembly, [gdt.rs], [idt.rs], parts of [syscall.rs] and
      [scheduler.rs]: [Trap], [TrapInv], [Entry].  Traps, system calls and
      context switches give the handler what it needs and restore the rest.
    - System calls, [syscall.rs]: [Syscall] the dispatcher, [Terminal] the line
      editor, [SysFiles], [SysInv], [SysSafe] (calls write only memory of their
      caller; descriptors of other processes stay), [SysExec], [SysRead]
      (arguments, file contents and exit codes arrive), [EditShow] (the screen
      shows the edited line).
    - Files, [block.rs], [partition.rs], [fat32.rs], [initramfs.rs], [vfs.rs],
      [fs_probe.rs]: [Block], [Partition], [Fat32] with [FatNames], [FatTable],
      [FatChains], [FatFiles], [FatVolume] (reads give what was written, growing
      a chain is atomic), [Initramfs] (archives round trip), [Vfs] (paths go to
      the longest mount), [FsProbe].
    - Disks, [drivers/nvme.rs], [drivers/ahci.rs]: [Nvme], [NvmeInv],
      [NvmeRefine] (an NVMe disk is an array of sectors), [Ahci] (definitions,
      and when a transfer is refused).
    - Console and display, [console.rs], [drivers/virtio_gpu.rs]: [Console],
      [ConsolePix], [ConsoleInv] (the pixels are those of a grid of cells),
      [VirtioGpu], [GpuInv], [GpuShow] (what [present] changes on the screen).
    - Input, [drivers/ps2.rs], [serial.rs], [drivers/usb]: [Keyboard],
      [KeyQueue], [Pci], [Hid], [HidInv], [Xhci], [UsbRing], [UsbInput],
      [UsbStart] (both keyboards are bounded queues of the characters typed).
    - Interrupt lines, [acpi.rs], [pic.rs], [ioapic.rs], [lapic.rs],
      [interrupts.rs], and the choice made in [main.rs]: [Acpi], [AcpiInv],
      [Irq], [IrqInv], [IrqRoute] (each input is as the last call left it).

    The files [*Demo] hold concrete states on which the theorems apply.

    ** How the parts meet

    [Pmm] gives frames to [Heap], [Vmm] and the drivers; [Vmm] is the state
    under [Scheduler], [Process] and [Syscall], which are composed as the code
    calls them.  [Vfs] reaches FAT32 volumes and the archive over the class of
    block devices.  [NvmeRefine] shows for NVMe disks the behaviour of an array
    of sectors that theorems about files assume of a disk; it is not an
    instance of the class of block devices.  [Entry] and [Trap] have a machine
    of their own with registers and words in memory; [syscall_dispatch] is a
    parameter there.

    ** What is not modelled

    The kernel log ([logger.rs]) and log lines, the self-tests and benchmarks,
    the panic screen ([panic_screen.rs]), and most of [framebuffer.rs] and
    [main.rs], which read the boot protocol's answer and call [init] functions
    in order.  The spinlocks of [sync.rs]: the kernel runs on one core, and a
    critical section with interrupts off is one step.  Translation caches,
    memory ordering and fences, and the loading of segment registers and
    descriptor tables. *)
From stdpp Require Import base numbers list gmap sets.
From Stdlib Require Import ZArith Lia Bool.

Open Scope Z_scope.

(** ** Results of Rust code

    A Rust function returns normally, returns an error ([Result::Err] or the
    [None] of a [?] on an [Option]), panics (an [assert!], an [expect], an
    arithmetic overflow or an index out of range; also any undefined
    behaviour of an [unsafe] block, which the model never gives a value), or
    runs out of the fuel given to one of its loops. *)
Inductive res (E A : Type) : Type :=
  | Ok (a : A)
  | Err (e : E)
  | Panic
  | Diverge.
Arguments Ok {E A} a.
Arguments Err {E A} e.
Arguments Panic {E A}.
Arguments Diverge {E A}.

#[global] Instance res_eq_dec {E A} `{EqDecision E} `{EqDecision A} :
  EqDecision (res E A).
Proof. solve_decision. Defined.

Definition res_bind {E A B} (r : res E A) (f : A → res E B) : res E B :=
  match r with
  | Ok a => f a
  | Err e => Err e
  | Panic => Panic
  | Diverge => Diverge
  end.

(** [map_err]: change the error, keep everything else. *)
Definition map_err {E E' A} (f : E → E') (r : res E A) : res E' A :=
  match r with
  | Ok a => Ok a
  | Err e => Err (f e)
  | Panic => Panic
  | Diverge => Diverge
  end.

(** [Option::ok_or]. *)
Definition ok_or {E A} (e : E) (o : option A) : res E A :=
  match o with Some a => Ok a | None => Err e end.

(** A value that the code takes for granted; [None] is a panic. *)
Definition expect {E A} (o : option A) : res E A :=
  match o with Some a => Ok a | None => Panic end.

(** *** Stateful code: state in, result and state out.  An error keeps the
    state reached so far, as an early return of Rust code does. *)
Definition M (S E A : Type) : Type := S → res E A * S.

Definition ret {S E A} (a : A) : M S E A := λ s, (Ok a, s).
Definition fail {S E A} (e : E) : M S E A := λ s, (Err e, s).
Definition panic {S E A} : M S E A := λ s, (Panic, s).
Definition get {S E} : M S E S := λ s, (Ok s, s).
Definition put {S E} (s : S) : M S E unit := λ _, (Ok tt, s).
Definition lift {S E A} (r : res E A) : M S E A := λ s, (r, s).

Definition bind {S E A B} (m : M S E A) (f : A → M S E B) : M S E B :=
  λ s, match m s with
       | (Ok a, s') => f a s'
       | (Err e, s') => (Err e, s')
       | (Panic, s') => (Panic, s')
       | (Diverge, s') => (Diverge, s')
       end.

Lemma bind_ok {S E A B} (m : M S E A) (f : A → M S E B) s a s' :
  m s = (Ok a, s') → bind m f s = f a s'.
Proof. intros H. unfold bind. by rewrite H. Qed.

(** Run [m] and hand its error to the caller as a value ([match] on a
    [Result], [let _ = ...]); a panic is not caught. *)
Definition catch {S E E' A} (m : M S E A) : M S E' (A + E) :=
  λ s, match m s with
       | (Ok a, s') => (Ok (inl a), s')
       | (Err e, s') => (Ok (inr e), s')
       | (Panic, s') => (Panic, s')
       | (Diverge, s') => (Diverge, s')
       end.

(** Change the error of a stateful computation ([map_err]). *)
Definition mmap_err {S E E' A} (f : E → E') (m : M S E A) : M S E' A :=
  λ s, let '(r, s') := m s in (map_err f r, s').

(** [let _ = m]: the result is dropped, an error too. *)
Definition ignore {S E E' A} (m : M S E A) : M S E' unit :=
  λ s, match m s with
       | (Ok _, s') | (Err _, s') => (Ok tt, s')
       | (Panic, s') => (Panic, s')
       | (Diverge, s') => (Diverge, s')
       end.

(** Out of fuel. *)
Definition diverge {S E A} : M S E A := λ s, (Diverge, s).

Declare Scope kernel_scope.
Delimit Scope kernel_scope with kernel.
Notation "'let?' x ':=' r 'in' k" := (res_bind r (λ x, k))
  (at level 10, x pattern, r at level 100, k at level 200) : kernel_scope.
Notation "'let!' x ':=' m 'in' k" := (bind m (λ x, k))
  (at level 10, x pattern, m at level 100, k at level 200) : kernel_scope.
Notation "m ';;!' k" := (bind m (λ _, k))
  (at level 100, right associativity) : kernel_scope.
Open Scope kernel_scope.

(** [for x in xs { f(x)?; }]. *)
Fixpoint mfor {S E A} (xs : list A) (f : A → M S E unit) : M S E unit :=
  match xs with
  | [] => ret tt
  | x :: xs => f x ;;! mfor xs f
  end.

(** ** Loops

    [loop fuel body s] runs the body of a Rust loop: [inl s'] goes round
    again with the loop's variables [s'], [inr r] leaves the loop with [r]. *)
Fixpoint loop {S R} (fuel : nat) (body : S → S + R) (s : S) : option R :=
  match fuel with
  | O => None
  | S fuel =>
      match body s with
      | inl s' => loop fuel body s'
      | inr r => Some r
      end
  end.

(** Total correctness of a loop: an invariant [I], a postcondition [Q] and a
    measure that decreases on every turn and is below the fuel. *)
Lemma loop_total {S R} (I : S → Prop) (Q : R → Prop) (measure : S → nat)
    (body : S → S + R) (fuel : nat) (s : S) :
  (∀ s, I s →
     match body s with
     | inl s' => I s' ∧ (measure s' < measure s)%nat
     | inr r => Q r
     end) →
  I s → (measure s < fuel)%nat →
  ∃ r, loop fuel body s = Some r ∧ Q r.
Proof.
  intros Hbody. revert s. induction fuel as [|fuel IH]; intros s HI Hm; [lia|].
  simpl. specialize (Hbody s HI). destruct (body s) as [s'|r].
  - destruct Hbody as [HI' Hlt]. apply IH; [done|lia].
  - eauto.
Qed.

(** More fuel never changes the result of a loop. *)
Lemma loop_more {S R} (body : S → S + R) (f1 f2 : nat) (s : S) (r : R) :
  (f1 ≤ f2)%nat → loop f1 body s = Some r → loop f2 body s = Some r.
Proof.
  revert f2 s. induction f1 as [|f1 IH]; intros f2 s Hle; [done|].
  destruct f2 as [|f2]; [lia|]. simpl.
  destruct (body s); [apply IH; lia|done].
Qed.

#[global] Arguments loop : simpl never.

Lemma loop_S {S R} fuel (body : S → S + R) s :
  loop (Datatypes.S fuel) body s =
  match body s with inl s' => loop fuel body s' | inr r => Some r end.
Proof. done. Qed.

(** Settle every [decide] of the goal that arithmetic settles. *)
Ltac decide_lia :=
  repeat match goal with
         | |- context [@decide ?P ?inst] =>
             first [rewrite (@decide_True _ P inst) by lia | rewrite (@decide_False _ P inst) by lia]
         end.

(** ** Machine integers *)

Notation "'u8_max'" := 255 (only parsing).
Definition u16_max : Z := 2^16 - 1.
Definition u32_max : Z := 2^32 - 1.
Definition u64_max : Z := 2^64 - 1.

Definition wrap64 (x : Z) : Z := x mod 2^64.
Definition wrap32 (x : Z) : Z := x mod 2^32.
Definition wrap16 (x : Z) : Z := x mod 2^16.
Definition wrap8 (x : Z) : Z := x mod 2^8.

(** [!x] on a [u64]. *)
Definition not64 (x : Z) : Z := Z.lxor x u64_max.

(** [u64::checked_add], [checked_sub], [checked_mul]. *)
Definition checked_add (a b : Z) : option Z :=
  if a + b <=? u64_max then Some (a + b) else None.
Definition checked_sub (a b : Z) : option Z :=
  if b <=? a then Some (a - b) else None.
Definition checked_mul (a b : Z) : option Z :=
  if a * b <=? u64_max then Some (a * b) else None.

(** Plain [+] and [-] on [u64]/[usize]: the kernel is built with the dev
    profile by default, where an overflow panics. *)
Definition add64 {E} (a b : Z) : res E Z := expect (checked_add a b).
Definition sub64 {E} (a b : Z) : res E Z := expect (checked_sub a b).
Definition mul64 {E} (a b : Z) : res E Z := expect (checked_mul a b).

(** ** Bits *)

Create HintDb kbits.
#[export] Hint Rewrite Z.land_spec Z.lor_spec Z.lxor_spec Z.ldiff_spec : kbits.

(** Prove an equality of integers bit by bit. *)
Ltac bitwise i :=
  apply Z.bits_inj'; intros i ?; autorewrite with kbits.

Lemma testbit_u64_max i : 0 ≤ i → Z.testbit u64_max i = (i <? 64).
Proof.
  intros Hi. unfold u64_max. change (2^64 - 1) with (Z.ones 64).
  destruct (Z.ltb_spec i 64).
  - by rewrite Z.ones_spec_low by lia.
  - by rewrite Z.ones_spec_high by lia.
Qed.

Lemma testbit_not64 x i : 0 ≤ i < 64 → Z.testbit (not64 x) i = negb (Z.testbit x i).
Proof.
  intros Hi. unfold not64. rewrite Z.lxor_spec, testbit_u64_max by lia.
  destruct (Z.ltb_spec i 64); [|lia]. by destruct (Z.testbit x i).
Qed.

Lemma testbit_high x n i : 0 ≤ x < 2^n → n ≤ i → Z.testbit x i = false.
Proof.
  intros Hx Hi. destruct (decide (x = 0)) as [->|]; [apply Z.bits_0|].
  apply Z.bits_above_log2; [lia|].
  apply Z.log2_lt_pow2; [lia|].
  apply Z.lt_le_trans with (2^n); [lia|]. apply Z.pow_le_mono_r; lia.
Qed.

(** A number whose bits above [n] are clear is below [2^n]. *)
Lemma bits_bounded x n :
  0 ≤ n → 0 ≤ x → (∀ i, n ≤ i → Z.testbit x i = false) → x < 2^n.
Proof.
  intros Hn Hx Hb. destruct (Z.lt_ge_cases x (2^n)) as [|Hge]; [done|exfalso].
  assert (0 < x) by (pose proof (Z.pow_pos_nonneg 2 n); lia).
  pose proof (Z.bit_log2 x ltac:(lia)) as Ht.
  rewrite Hb in Ht; [done|]. apply Z.log2_le_pow2; lia.
Qed.

Lemma not64_range x : 0 ≤ x < 2^64 → 0 ≤ not64 x < 2^64.
Proof.
  intros Hx. assert (0 ≤ not64 x).
  { unfold not64. apply Z.lxor_nonneg. unfold u64_max. lia. }
  split; [done|]. apply bits_bounded; [lia|done|]. intros i Hi.
  unfold not64. rewrite Z.lxor_spec, testbit_u64_max by lia.
  rewrite (testbit_high x 64) by lia. destruct (Z.ltb_spec i 64); [lia|done].
Qed.

Lemma lor_range x y n : 0 ≤ n → 0 ≤ x < 2^n → 0 ≤ y < 2^n → 0 ≤ Z.lor x y < 2^n.
Proof.
  intros Hn Hx Hy. assert (0 ≤ Z.lor x y) by (apply Z.lor_nonneg; lia).
  split; [done|]. apply bits_bounded; [done..|]. intros i Hi.
  by rewrite Z.lor_spec, (testbit_high x n), (testbit_high y n) by lia.
Qed.

Lemma land_range x y n : 0 ≤ n → 0 ≤ x < 2^n → 0 ≤ y → 0 ≤ Z.land x y < 2^n.
Proof.
  intros Hn Hx Hy. assert (0 ≤ Z.land x y) by (apply Z.land_nonneg; lia).
  split; [done|]. apply bits_bounded; [done..|]. intros i Hi.
  by rewrite Z.land_spec, (testbit_high x n) by lia.
Qed.

(** [1 << k]. *)
Lemma shiftl_1 k : 0 ≤ k → Z.shiftl 1 k = 2^k.
Proof. intros. by rewrite Z.shiftl_1_l. Qed.

Lemma testbit_pow2 k i : 0 ≤ k → 0 ≤ i → Z.testbit (2^k) i = (i =? k).
Proof.
  intros Hk Hi. rewrite Z.pow2_bits_eqb by lia. apply Z.eqb_sym.
Qed.

(** [x & (1 << k) != 0] tests bit [k]. *)
Lemma land_pow2_test x k :
  0 ≤ k → negb (Z.land x (2^k) =? 0) = Z.testbit x k.
Proof.
  intros Hk. destruct (Z.testbit x k) eqn:E.
  - destruct (Z.eqb_spec (Z.land x (2^k)) 0) as [H|]; [exfalso|done].
    apply (f_equal (λ z, Z.testbit z k)) in H.
    rewrite Z.land_spec, testbit_pow2, Z.eqb_refl, E, Z.bits_0 in H by lia. done.
  - replace (Z.land x (2^k)) with 0; [done|]. symmetry. bitwise i.
    rewrite testbit_pow2, Z.bits_0 by lia.
    destruct (Z.eqb_spec i k) as [->|]; [by rewrite E|by rewrite andb_false_r].
Qed.

(** [x & !(2^k - 1)] rounds down to a multiple of [2^k]. *)
Lemma land_not_mask x k :
  0 ≤ x < 2^64 → 0 ≤ k < 64 → Z.land x (not64 (2^k - 1)) = x / 2^k * 2^k.
Proof.
  intros Hx Hk.
  replace (Z.land x (not64 (2^k - 1))) with (Z.ldiff x (Z.ones k)).
  - rewrite Z.ldiff_ones_r, Z.shiftl_mul_pow2, Z.shiftr_div_pow2 by lia. done.
  - bitwise i. replace (2^k - 1) with (Z.ones k) by (rewrite Z.ones_equiv; lia).
    destruct (Z.lt_ge_cases i 64).
    + by rewrite testbit_not64 by lia.
    + by rewrite (testbit_high x 64) by lia.
Qed.

(** [x & (2^k - 1)] is the remainder. *)
Lemma land_mask x k : 0 ≤ k → Z.land x (2^k - 1) = x mod 2^k.
Proof.
  intros. replace (2^k - 1) with (Z.ones k) by (rewrite Z.ones_equiv; lia).
  by apply Z.land_ones.
Qed.

(** Joining two fields that do not overlap is adding them. *)
Lemma lor_low_high a b k : 0 ≤ k → 0 ≤ a < 2^k → Z.lor a (b * 2^k) = a + b * 2^k.
Proof.
  intros Hk Ha. assert (Hd : Z.land a (b * 2^k) = 0).
  { bitwise i. rewrite Z.bits_0. destruct (Z.lt_ge_cases i k).
    - rewrite Z.mul_pow2_bits_low by lia. apply andb_false_r.
    - by rewrite (testbit_high a k) by lia. }
  rewrite Z.add_nocarry_lxor by done. symmetry. by apply Z.lxor_lor.
Qed.

(** ** Alignment

    The kernel has one copy of these two functions per module
    ([pmm.rs], [heap.rs], [vmm.rs], [elf.rs]), all with this body. *)
Definition align_up {E} (v a : Z) : res E Z :=
  let? t := add64 v a in
  let? t := sub64 t 1 in
  Ok (Z.land t (not64 (a - 1))).

Definition align_down (v a : Z) : Z := Z.land v (not64 (a - 1)).

Lemma align_down_spec v k :
  0 ≤ v < 2^64 → 0 ≤ k < 64 → align_down v (2^k) = v / 2^k * 2^k.
Proof. intros. by apply land_not_mask. Qed.

Lemma checked_add_inv a b c : checked_add a b = Some c → c = a + b ∧ c ≤ u64_max.
Proof. unfold checked_add. destruct (Z.leb_spec (a + b) u64_max); intros [= <-]. lia. Qed.

Lemma checked_mul_inv a b c : checked_mul a b = Some c → c = a * b ∧ c ≤ u64_max.
Proof. unfold checked_mul. destruct (Z.leb_spec (a * b) u64_max); intros [= <-]. lia. Qed.

Lemma checked_add_Some a b : a + b ≤ u64_max → checked_add a b = Some (a + b).
Proof. intros. unfold checked_add. by rewrite (proj2 (Z.leb_le _ _)). Qed.
Lemma checked_sub_Some a b : b ≤ a → checked_sub a b = Some (a - b).
Proof. intros. unfold checked_sub. by rewrite (proj2 (Z.leb_le _ _)). Qed.
Lemma checked_mul_Some a b : a * b ≤ u64_max → checked_mul a b = Some (a * b).
Proof. intros. unfold checked_mul. by rewrite (proj2 (Z.leb_le _ _)). Qed.

Lemma add64_ok {E} a b : a + b ≤ u64_max → add64 (E:=E) a b = Ok (a + b).
Proof. intros. unfold add64. by rewrite checked_add_Some. Qed.
Lemma sub64_ok {E} a b : b ≤ a → sub64 (E:=E) a b = Ok (a - b).
Proof. intros. unfold sub64. by rewrite checked_sub_Some. Qed.
Lemma mul64_ok {E} a b : a * b ≤ u64_max → mul64 (E:=E) a b = Ok (a * b).
Proof. intros. unfold mul64. by rewrite checked_mul_Some. Qed.

Lemma align_up_spec {E} v k :
  0 ≤ v → 0 ≤ k < 64 → v + 2^k ≤ u64_max →
  align_up (E:=E) v (2^k) = Ok ((v + 2^k - 1) / 2^k * 2^k).
Proof.
  intros Hv Hk Hle. unfold align_up.
  pose proof (Z.pow_pos_nonneg 2 k ltac:(lia) ltac:(lia)).
  rewrite add64_ok by lia. simpl. rewrite sub64_ok by lia. simpl.
  rewrite land_not_mask; [done| |lia]. unfold u64_max in *. lia.
Qed.

(** What rounding gives: a multiple, within one unit of the argument. *)
Lemma div_round_down v a : 0 < a → v / a * a ≤ v < v / a * a + a.
Proof. intros. pose proof (Z.div_mod v a). pose proof (Z.mod_pos_bound v a). lia. Qed.

Lemma div_round_up v a : 0 < a → v ≤ (v + a - 1) / a * a < v + a.
Proof.
  intros. pose proof (Z.div_mod (v + a - 1) a).
  pose proof (Z.mod_pos_bound (v + a - 1) a). lia.
Qed.

(** ** Trailing zeros of a word *)

Fixpoint pos_trailing_zeros (p : positive) : Z :=
  match p with
  | xO q => 1 + pos_trailing_zeros q
  | _ => 0
  end.

(** [u64::trailing_zeros]. *)
Definition trailing_zeros64 (x : Z) : Z :=
  match x with Zpos p => pos_trailing_zeros p | _ => 64 end.

Lemma pos_trailing_zeros_nonneg p : 0 ≤ pos_trailing_zeros p.
Proof. induction p; simpl; lia. Qed.

Lemma pos_trailing_zeros_bit p : Z.testbit (Zpos p) (pos_trailing_zeros p) = true.
Proof.
  induction p as [p IH|p IH|]; [done| |done].
  simpl pos_trailing_zeros. pose proof (pos_trailing_zeros_nonneg p).
  replace (Zpos (xO p)) with (2 * Zpos p) by lia.
  replace (1 + pos_trailing_zeros p) with (Z.succ (pos_trailing_zeros p)) by lia.
  rewrite Z.testbit_even_succ by lia. done.
Qed.

Lemma trailing_zeros64_spec x :
  0 < x < 2^64 →
  0 ≤ trailing_zeros64 x < 64 ∧ Z.testbit x (trailing_zeros64 x) = true.
Proof.
  intros Hx. destruct x as [|p|p]; [lia| |lia]. simpl.
  pose proof (pos_trailing_zeros_nonneg p). pose proof (pos_trailing_zeros_bit p).
  split; [|done]. split; [done|].
  destruct (Z.lt_ge_cases (pos_trailing_zeros p) 64); [done|exfalso].
  rewrite (testbit_high _ 64) in * by lia. done.
Qed.
