(* ===== verification/Bytes.v ===== *)
(** * Bytes, little-endian integers and slices

    A byte is an integer between 0 and 255 and a [&[u8]] a list of them.  The
    readers of the kernel ([u16le]/[u32le] of [fat32.rs] and [partition.rs],
    [rd16]/[rd32]/[rd64] of [elf.rs], [from_le_bytes]/[to_le_bytes]) are
    instances of [le_value] and [le_bytes]. *)
From stdpp Require Import base numbers list gmap sets.
From Stdlib Require Import ZArith Lia Bool.
From S2P Require Import Prelude.

Definition is_byte (b : Z) : Prop := 0 ≤ b < 256.
Definition bytes_ok (bs : list Z) : Prop := Forall is_byte bs.

(** [from_le_bytes] on any number of bytes. *)
Fixpoint le_value (bs : list Z) : Z :=
  match bs with
  | [] => 0
  | b :: bs => b + 256 * le_value bs
  end.

(** [to_le_bytes] of an [n]-byte integer. *)
Fixpoint le_bytes (n : nat) (v : Z) : list Z :=
  match n with
  | O => []
  | S n => v mod 256 :: le_bytes n (v / 256)
  end.

Lemma length_le_bytes n v : length (le_bytes n v) = n.
Proof. revert v. induction n; intros v; simpl; auto. Qed.

Lemma bytes_okb_ok l : forallb (λ b, (0 <=? b) && (b <? 256)) l = true → bytes_ok l.
Proof.
  intros H. apply Forall_forall. intros b Hb. rewrite forallb_forall in H.
  specialize (H b (proj1 (list_elem_of_In _ _) Hb)). apply andb_true_iff in H as [H1 H2].
  unfold is_byte. lia.
Qed.

Lemma le_bytes_ok n v : bytes_ok (le_bytes n v).
Proof.
  revert v. induction n as [|n IH]; intros v; simpl; [constructor|].
  constructor; [|apply IH]. unfold is_byte. pose proof (Z.mod_pos_bound v 256). lia.
Qed.

Lemma pow256_S n : 256 ^ Z.of_nat (S n) = 256 * 256 ^ Z.of_nat n.
Proof. rewrite Nat2Z.inj_succ, Z.pow_succ_r by lia. lia. Qed.

(** Encoding then decoding gives the value back, if it fits. *)
Lemma le_value_bytes n v : 0 ≤ v < 256 ^ Z.of_nat n → le_value (le_bytes n v) = v.
Proof.
  revert v. induction n as [|n IH]; intros v Hv; [simpl in *; lia|].
  rewrite pow256_S in Hv. simpl. rewrite IH.
  - pose proof (Z.div_mod v 256). lia.
  - split; [apply Z.div_pos; lia|apply Z.div_lt_upper_bound; lia].
Qed.

Lemma le_value_range bs : bytes_ok bs → 0 ≤ le_value bs < 256 ^ Z.of_nat (length bs).
Proof.
  induction 1 as [|b bs Hb _ IH]; [simpl; lia|].
  simpl length. rewrite pow256_S. simpl. unfold is_byte in Hb. lia.
Qed.

(** Decoding then encoding gives the bytes back. *)
Lemma le_bytes_value bs : bytes_ok bs → le_bytes (length bs) (le_value bs) = bs.
Proof.
  induction 1 as [|b bs Hb _ IH]; [done|]. unfold is_byte in Hb. simpl. f_equal.
  - rewrite Z.mul_comm, Z.mod_add by lia. apply Z.mod_small. lia.
  - rewrite Z.mul_comm, Z.div_add, Z.div_small, Z.add_0_l by lia. done.
Qed.

(** ** Slices *)

(** [&b[at..at + n]]: [None] when it reaches outside the slice. *)
Definition slice (b : list Z) (at_ n : Z) : option (list Z) :=
  if (0 <=? at_) && (0 <=? n) && (at_ + n <=? Z.of_nat (length b)) then
    Some (take (Z.to_nat n) (drop (Z.to_nat at_) b))
  else None.

(** [dst[at..at + src.len()].copy_from_slice(src)]. *)
Definition splice (dst : list Z) (at_ : Z) (src : list Z) : option (list Z) :=
  if (0 <=? at_) && (at_ + Z.of_nat (length src) <=? Z.of_nat (length dst)) then
    Some (take (Z.to_nat at_) dst ++ src ++ drop (Z.to_nat at_ + length src) dst)
  else None.

(** An [n]-byte little-endian read at offset [at]. *)
Definition le_at (n : Z) (b : list Z) (at_ : Z) : option Z :=
  s ← slice b at_ n; Some (le_value s).

Lemma slice_Some b at_ n :
  0 ≤ at_ → 0 ≤ n → at_ + n ≤ Z.of_nat (length b) →
  slice b at_ n = Some (take (Z.to_nat n) (drop (Z.to_nat at_) b)).
Proof.
  intros. unfold slice.
  by rewrite !(proj2 (Z.leb_le _ _)) by lia.
Qed.

Lemma slice_inv b at_ n s :
  slice b at_ n = Some s →
  0 ≤ at_ ∧ 0 ≤ n ∧ at_ + n ≤ Z.of_nat (length b) ∧
  s = take (Z.to_nat n) (drop (Z.to_nat at_) b).
Proof.
  unfold slice. destruct (_ && _) eqn:E; [|done]. intros [= <-].
  rewrite !andb_true_iff, !Z.leb_le in E. naive_solver lia.
Qed.

Lemma length_slice b at_ n s : slice b at_ n = Some s → Z.of_nat (length s) = n.
Proof.
  intros (?&?&?&->)%slice_inv. rewrite length_take, length_drop. lia.
Qed.

Lemma bytes_ok_slice b at_ n s : bytes_ok b → slice b at_ n = Some s → bytes_ok s.
Proof. intros Hb (_&_&_&->)%slice_inv. by apply Forall_take, Forall_drop. Qed.

(** A read inside the slice succeeds, and its value fits its width. *)
Lemma le_at_spec n b at_ :
  bytes_ok b → 0 ≤ at_ → 0 ≤ n → at_ + n ≤ Z.of_nat (length b) →
  ∃ v, le_at n b at_ = Some v ∧ 0 ≤ v < 256 ^ n.
Proof.
  intros Hb ???. unfold le_at. rewrite slice_Some by done. simpl.
  eexists; split; [done|].
  pose proof (le_value_range (take (Z.to_nat n) (drop (Z.to_nat at_) b))) as Hr.
  rewrite length_take, length_drop in Hr.
  replace (Z.of_nat (Z.to_nat n `min` (length b - Z.to_nat at_))) with n in Hr by lia.
  apply Hr. by apply Forall_take, Forall_drop.
Qed.

Lemma splice_Some dst at_ src :
  0 ≤ at_ → at_ + Z.of_nat (length src) ≤ Z.of_nat (length dst) →
  splice dst at_ src =
  Some (take (Z.to_nat at_) dst ++ src ++ drop (Z.to_nat at_ + length src) dst).
Proof. intros. unfold splice. by rewrite !(proj2 (Z.leb_le _ _)) by lia. Qed.

Lemma splice_inv dst at_ src d :
  splice dst at_ src = Some d →
  0 ≤ at_ ∧ at_ + Z.of_nat (length src) ≤ Z.of_nat (length dst) ∧
  d = take (Z.to_nat at_) dst ++ src ++ drop (Z.to_nat at_ + length src) dst.
Proof.
  unfold splice. destruct (_ && _) eqn:E; [|done]. intros [= <-].
  rewrite !andb_true_iff, !Z.leb_le in E. naive_solver lia.
Qed.

Lemma length_splice dst at_ src d :
  splice dst at_ src = Some d → length d = length dst.
Proof.
  intros (?&?&->)%splice_inv. rewrite !length_app, length_take, length_drop. lia.
Qed.

Lemma bytes_ok_splice dst at_ src d :
  bytes_ok dst → bytes_ok src → splice dst at_ src = Some d → bytes_ok d.
Proof.
  intros ?? (?&?&->)%splice_inv. unfold bytes_ok. rewrite !Forall_app.
  split; [by apply Forall_take|]. split; [done|by apply Forall_drop].
Qed.

(** What was written is read back... *)
Lemma slice_splice_eq dst at_ src d :
  splice dst at_ src = Some d → slice d at_ (Z.of_nat (length src)) = Some src.
Proof.
  intros Hs. pose proof (length_splice _ _ _ _ Hs) as Hl.
  apply splice_inv in Hs as (?&?&->).
  rewrite slice_Some by (rewrite ?Hl; lia). f_equal.
  rewrite drop_app_length' by (rewrite length_take; lia).
  rewrite Nat2Z.id. by rewrite take_app_length.
Qed.

(** ... and every other byte is as it was. *)
Lemma lookup_splice dst at_ src d (i : nat) :
  splice dst at_ src = Some d →
  d !! i = if decide (at_ ≤ Z.of_nat i < at_ + Z.of_nat (length src))
           then src !! (i - Z.to_nat at_)%nat else dst !! i.
Proof.
  intros (?&?&->)%splice_inv.
  destruct (decide (Z.of_nat i < at_)).
  - rewrite decide_False by lia. rewrite lookup_app_l by (rewrite length_take; lia).
    by rewrite lookup_take_lt by lia.
  - rewrite lookup_app_r by (rewrite length_take; lia). rewrite length_take.
    replace (i - Z.to_nat at_ `min` length dst)%nat with (i - Z.to_nat at_)%nat by lia.
    case_decide.
    + by rewrite lookup_app_l by lia.
    + rewrite lookup_app_r by lia. rewrite lookup_drop. f_equal. lia.
Qed.

Lemma slice_splice_ne dst at_ src d a n :
  splice dst at_ src = Some d →
  a + n ≤ at_ ∨ at_ + Z.of_nat (length src) ≤ a →
  slice d a n = slice dst a n.
Proof.
  intros Hs Hd. pose proof (length_splice _ _ _ _ Hs) as Hl. unfold slice.
  rewrite Hl. destruct (_ && _) eqn:E; [|done]. f_equal.
  rewrite !andb_true_iff, !Z.leb_le in E.
  apply list_eq. intros i. destruct (decide (i < Z.to_nat n)%nat).
  - rewrite !lookup_take_lt, !lookup_drop by done.
    rewrite (lookup_splice _ _ _ _ _ Hs), decide_False by lia. done.
  - by rewrite !lookup_take_ge by lia.
Qed.

(** The elements of a concatenation of lists of the same length. *)
Lemma lookup_concat_uniform {A} (ls : list (list A)) (n i : nat) :
  (0 < n)%nat → Forall (λ l, length l = n) ls →
  concat ls !! i = ls !! (i / n)%nat ≫= (λ l, l !! (i mod n)%nat).
Proof.
  intros Hn Hls. revert i. induction Hls as [|l ls Hl _ IH]; intros i; [done|].
  cbn [concat]. destruct (Nat.lt_ge_cases i n) as [Hlt|Hge].
  - rewrite lookup_app_l by lia. rewrite Nat.div_small, Nat.mod_small by done. done.
  - rewrite lookup_app_r by lia. rewrite Hl, IH.
    remember (i - n)%nat as j eqn:Ej. replace i with (j + 1 * n)%nat by lia.
    by rewrite Nat.div_add, Nat.Div0.mod_add, Nat.add_1_r by lia.
Qed.

Lemma length_concat_uniform {A} (ls : list (list A)) (n : nat) :
  Forall (λ l, length l = n) ls → length (concat ls) = (length ls * n)%nat.
Proof. induction 1 as [|l ls Hl _ IH]; [done|]. cbn [concat length]. rewrite length_app. lia. Qed.

Lemma drop_concat_uniform {A} (ls : list (list A)) (n k : nat) :
  Forall (λ l, length l = n) ls → drop (k * n) (concat ls) = concat (drop k ls).
Proof.
  intros Hls. revert k. induction Hls as [|l ls Hl _ IH]; intros k; [simpl; by rewrite !drop_nil|].
  destruct k as [|k]; [done|]. cbn [concat drop]. rewrite drop_app_ge by lia.
  rewrite <- IH. f_equal. lia.
Qed.

(** A read in two parts. *)
Lemma take_drop_split {A} (l : list A) (o n m : nat) :
  (n ≤ m)%nat → take m (drop o l) = take n (drop o l) ++ take (m - n) (drop (o + n) l).
Proof.
  intros Hn. rewrite <- drop_drop. rewrite <- (take_drop n (take m (drop o l))).
  rewrite take_take, Nat.min_l by done. f_equal. rewrite skipn_firstn_comm. done.
Qed.
