(* ===== verification/Str.v ===== *)
(** * Rust strings

    A [str] is its UTF-8 bytes.  This file has the operations of [str] and
    [String] that the kernel uses, the conversions between UTF-8, UTF-16 and
    code points, and their round trips. *)
From Stdlib Require Import String Ascii List.
From stdpp Require Import base numbers list sets.
From Stdlib Require Import ZArith Lia Bool.
From S2P Require Import Prelude Bytes.

Notation str := (list Z) (only parsing).

(** A string literal of the source. *)
Fixpoint lit (s : String.string) : str :=
  match s with
  | EmptyString => []
  | String c s => Z.of_N (N_of_ascii c) :: lit s
  end.

Definition SLASH : Z := 47.
Definition DOT : Z := 46.
Definition SPACE : Z := 32.

Definition str_eqb (a b : str) : bool := bool_decide (a = b).

(** [s.split(c)]: at least one piece, and a piece on each side of every [c]. *)
Fixpoint split_on (c : Z) (s : str) : list str :=
  match s with
  | [] => [[]]
  | x :: s =>
      if x =? c then [] :: split_on c s
      else match split_on c s with
           | [] => [[x]]
           | p :: ps => (x :: p) :: ps
           end
  end.

(** [parts.join(c)]. *)
Fixpoint join (c : Z) (parts : list str) : str :=
  match parts with
  | [] => []
  | [p] => p
  | p :: ps => p ++ c :: join c ps
  end.

Fixpoint trim_start_matches (c : Z) (s : str) : str :=
  match s with
  | [] => []
  | x :: s' => if x =? c then trim_start_matches c s' else s
  end.

Definition trim_end_matches (c : Z) (s : str) : str := rev (trim_start_matches c (rev s)).
Definition trim_matches (c : Z) (s : str) : str := trim_end_matches c (trim_start_matches c s).

Fixpoint strip_prefix (p s : str) : option str :=
  match p, s with
  | [], _ => Some s
  | x :: p, y :: s => if x =? y then strip_prefix p s else None
  | _ :: _, [] => None
  end.

Definition starts_with (p s : str) : bool :=
  match strip_prefix p s with Some _ => true | None => false end.
Definition ends_with (p s : str) : bool := starts_with (rev p) (rev s).

Definition contains (c : Z) (s : str) : bool := existsb (Z.eqb c) s.

(** [s.split_once(c)] and [s.rsplit_once(c)]. *)
Fixpoint split_once (c : Z) (s : str) : option (str * str) :=
  match s with
  | [] => None
  | x :: s =>
      if x =? c then Some ([], s)
      else match split_once c s with
           | Some (a, b) => Some (x :: a, b)
           | None => None
           end
  end.

Definition rsplit_once (c : Z) (s : str) : option (str * str) :=
  match split_once c (rev s) with
  | Some (b, a) => Some (rev a, rev b)
  | None => None
  end.

(** [iter().position(p)]. *)
Fixpoint position (p : Z → bool) (s : list Z) : option nat :=
  match s with
  | [] => None
  | x :: s => if p x then Some O else S <$> position p s
  end.

Fixpoint take_while (p : Z → bool) (s : list Z) : list Z :=
  match s with
  | [] => []
  | x :: s => if p x then x :: take_while p s else []
  end.

(** ** ASCII *)
Definition is_ascii (b : Z) : bool := b <? 128.
Definition is_lower (b : Z) : bool := (97 <=? b) && (b <=? 122).
Definition is_upper (b : Z) : bool := (65 <=? b) && (b <=? 90).
Definition is_digit (b : Z) : bool := (48 <=? b) && (b <=? 57).
Definition is_ascii_alphanumeric (b : Z) : bool := is_lower b || is_upper b || is_digit b.
Definition to_ascii_uppercase (b : Z) : Z := if is_lower b then b - 32 else b.
Definition to_ascii_lowercase (b : Z) : Z := if is_upper b then b + 32 else b.

Definition eq_ignore_ascii_case (a b : str) : bool :=
  str_eqb (map to_ascii_lowercase a) (map to_ascii_lowercase b).

(** ** Code points and UTF-8 *)
Definition REPLACEMENT : Z := 0xfffd.

(** A Unicode scalar value, what a [char] can be. *)
Definition is_scalar (c : Z) : bool :=
  (0 <=? c) && (c <? 0x110000) && negb ((0xd800 <=? c) && (c <? 0xe000)).

Definition encode_char (c : Z) : str :=
  if c <? 0x80 then [c]
  else if c <? 0x800 then [0xc0 + c / 64; 0x80 + c mod 64]
  else if c <? 0x10000 then [0xe0 + c / 4096; 0x80 + c / 64 mod 64; 0x80 + c mod 64]
  else [0xf0 + c / 262144; 0x80 + c / 4096 mod 64; 0x80 + c / 64 mod 64; 0x80 + c mod 64].

Definition encode_utf8 (cs : list Z) : str := concat (map encode_char cs).

Definition in_range (lo hi b : Z) : bool := (lo <=? b) && (b <=? hi).
Definition cont (b : Z) : bool := in_range 0x80 0xbf b.

(** The second byte a three- or four-byte sequence may have. *)
Definition second_ok3 (b0 b1 : Z) : bool :=
  if b0 =? 0xe0 then in_range 0xa0 0xbf b1
  else if b0 =? 0xed then in_range 0x80 0x9f b1
  else cont b1.
Definition second_ok4 (b0 b1 : Z) : bool :=
  if b0 =? 0xf0 then in_range 0x90 0xbf b1
  else if b0 =? 0xf4 then in_range 0x80 0x8f b1
  else cont b1.

(** The first character of a byte string: how many bytes it takes and its code
    point, or [None] for an invalid sequence (whose maximal prefix is taken). *)
Definition decode_char (s : str) : nat * option Z :=
  match s with
  | [] => (1%nat, None)
  | b0 :: s1 =>
      if b0 <? 0x80 then (1%nat, Some b0)
      else if in_range 0xc2 0xdf b0 then
        match s1 with
        | b1 :: _ =>
            if cont b1 then (2%nat, Some ((b0 - 0xc0) * 64 + (b1 - 0x80))) else (1%nat, None)
        | [] => (1%nat, None)
        end
      else if in_range 0xe0 0xef b0 then
        match s1 with
        | b1 :: s2 =>
            if second_ok3 b0 b1 then
              match s2 with
              | b2 :: _ =>
                  if cont b2 then
                    (3%nat, Some ((b0 - 0xe0) * 4096 + (b1 - 0x80) * 64 + (b2 - 0x80)))
                  else (2%nat, None)
              | [] => (2%nat, None)
              end
            else (1%nat, None)
        | [] => (1%nat, None)
        end
      else if in_range 0xf0 0xf4 b0 then
        match s1 with
        | b1 :: s2 =>
            if second_ok4 b0 b1 then
              match s2 with
              | b2 :: s3 =>
                  if cont b2 then
                    match s3 with
                    | b3 :: _ =>
                        if cont b3 then
                          (4%nat, Some ((b0 - 0xf0) * 262144 + (b1 - 0x80) * 4096
                                          + (b2 - 0x80) * 64 + (b3 - 0x80)))
                        else (3%nat, None)
                    | [] => (3%nat, None)
                    end
                  else (2%nat, None)
              | [] => (2%nat, None)
              end
            else (1%nat, None)
        | [] => (1%nat, None)
        end
      else (1%nat, None)
  end.

Fixpoint decode_fuel (fuel : nat) (s : str) : list (option Z) :=
  match fuel, s with
  | _, [] | O, _ => []
  | S fuel, _ => let '(n, c) := decode_char s in c :: decode_fuel fuel (drop n s)
  end.

Definition decode_utf8 (s : str) : list (option Z) := decode_fuel (length s) s.

(** [String::from_utf8_lossy(s).chars()]. *)
Definition decode_utf8_lossy (s : str) : list Z :=
  map (default REPLACEMENT) (decode_utf8 s).

(** [String::from_utf8_lossy] and [core::str::from_utf8]. *)
Definition from_utf8_lossy (s : str) : str := encode_utf8 (decode_utf8_lossy s).
Definition from_utf8 (s : str) : option str :=
  if forallb (λ o, match o with Some _ => true | None => false end) (decode_utf8 s)
  then Some s else None.

(** ** UTF-16 *)
Definition encode_char16 (c : Z) : list Z :=
  if c <? 0x10000 then [c]
  else [0xd800 + (c - 0x10000) / 1024; 0xdc00 + (c - 0x10000) mod 1024].

(** [s.encode_utf16()], on the characters of [s]. *)
Definition encode_utf16 (s : str) : list Z :=
  concat (map encode_char16 (decode_utf8_lossy s)).

(** [char::decode_utf16], unpaired surrogates replaced. *)
Fixpoint decode_utf16_lossy (us : list Z) : list Z :=
  match us with
  | [] => []
  | u :: us1 =>
      if in_range 0xd800 0xdbff u then
        match us1 with
        | v :: us2 =>
            if in_range 0xdc00 0xdfff v then
              (0x10000 + (u - 0xd800) * 1024 + (v - 0xdc00)) :: decode_utf16_lossy us2
            else REPLACEMENT :: decode_utf16_lossy us1
        | [] => [REPLACEMENT]
        end
      else if in_range 0xdc00 0xdfff u then REPLACEMENT :: decode_utf16_lossy us1
      else u :: decode_utf16_lossy us1
  end.

Definition from_utf16_lossy (us : list Z) : str := encode_utf8 (decode_utf16_lossy us).

(** A string that is valid UTF-8, as every [str] is. *)
Definition valid_str (s : str) : Prop :=
  ∃ cs, Forall (λ c, is_scalar c = true) cs ∧ s = encode_utf8 cs.

(** ** Round trips *)

(** Decide every comparison of the goal, with divisions as equations. *)
Ltac eq_lia := Z.div_mod_to_equations; lia.
Ltac decide_cmp :=
  repeat (match goal with
          | |- context [?a <? ?b] =>
              first [rewrite (proj2 (Z.ltb_lt a b)) by eq_lia
                    |rewrite (proj2 (Z.ltb_ge a b)) by eq_lia]
          | |- context [?a <=? ?b] =>
              first [rewrite (proj2 (Z.leb_le a b)) by eq_lia
                    |rewrite (proj2 (Z.leb_gt a b)) by eq_lia]
          end; cbn [andb orb negb]).

Lemma decode_encode_char c s :
  is_scalar c = true → decode_char (encode_char c ++ s) = (length (encode_char c), Some c).
Proof.
  unfold is_scalar. intros Hc.
  assert (Hr : 0 ≤ c < 0x110000 ∧ ¬ (0xd800 ≤ c < 0xe000)) by lia. clear Hc.
  unfold encode_char. destruct (Z.ltb_spec c 0x80) as [H1|H1].
  { simpl. by decide_cmp. }
  destruct (Z.ltb_spec c 0x800) as [H2|H2].
  { cbn [app length decode_char]. unfold cont, in_range. decide_cmp.
    do 2 f_equal. eq_lia. }
  destruct (Z.ltb_spec c 0x10000) as [H3|H3].
  { cbn [app length decode_char]. unfold second_ok3, cont, in_range.
    destruct (Z.eqb_spec (0xe0 + c / 4096) 0xe0) as [E1|E1]; [|
      destruct (Z.eqb_spec (0xe0 + c / 4096) 0xed) as [E2|E2]];
      decide_cmp; do 2 f_equal; eq_lia. }
  cbn [app length decode_char]. unfold second_ok4, cont, in_range.
  destruct (Z.eqb_spec (0xf0 + c / 262144) 0xf0) as [E1|E1]; [|
    destruct (Z.eqb_spec (0xf0 + c / 262144) 0xf4) as [E2|E2]];
    decide_cmp; do 2 f_equal; eq_lia.
Qed.

Lemma encode_char_length c : (1 ≤ length (encode_char c))%nat.
Proof. unfold encode_char. repeat case_match; simpl; lia. Qed.

Lemma decode_fuel_encode fuel cs :
  Forall (λ c, is_scalar c = true) cs → (length (encode_utf8 cs) ≤ fuel)%nat →
  decode_fuel fuel (encode_utf8 cs) = Some <$> cs.
Proof.
  intros Hcs. revert fuel. induction Hcs as [|c cs Hc _ IH]; intros fuel Hf.
  { by destruct fuel. }
  unfold encode_utf8 in *. simpl in *. rewrite length_app in Hf.
  pose proof (encode_char_length c). destruct fuel as [|fuel]; [lia|].
  change (decode_fuel (S fuel) ?l) with
    (match l with [] => [] | _ => let '(n, c) := decode_char l in c :: decode_fuel fuel (drop n l) end).
  destruct (encode_char c ++ concat (map encode_char cs)) eqn:E.
  { apply (f_equal length) in E. rewrite length_app in E. simpl in E. lia. }
  rewrite <- E. rewrite decode_encode_char by done. rewrite drop_app_length. simpl.
  f_equal. apply IH. lia.
Qed.

Lemma decode_encode_utf8 cs :
  Forall (λ c, is_scalar c = true) cs → decode_utf8_lossy (encode_utf8 cs) = cs.
Proof.
  intros Hcs. unfold decode_utf8_lossy, decode_utf8. rewrite decode_fuel_encode by done.
  rewrite map_map. simpl. apply map_id.
Qed.

Lemma decode_encode_utf16 cs :
  Forall (λ c, is_scalar c = true) cs →
  decode_utf16_lossy (concat (map encode_char16 cs)) = cs.
Proof.
  induction 1 as [|c cs Hc _ IH]; [done|]. simpl. unfold is_scalar in Hc.
  unfold encode_char16 at 1. destruct (Z.ltb_spec c 0x10000) as [H1|H1].
  - simpl. unfold in_range. rewrite IH.
    destruct (Z.leb_spec 0xd800 c), (Z.leb_spec c 0xdbff), (Z.leb_spec 0xdc00 c), (Z.leb_spec c 0xdfff);
      simpl; try done; lia.
  - cbn [app decode_utf16_lossy]. unfold in_range. decide_cmp. rewrite IH. f_equal. eq_lia.
Qed.

(** Encoding a string as UTF-16 and decoding it gives it back. *)
Lemma utf16_roundtrip s : valid_str s → from_utf16_lossy (encode_utf16 s) = s.
Proof.
  intros (cs & Hcs & ->). unfold from_utf16_lossy, encode_utf16.
  by rewrite decode_encode_utf8, decode_encode_utf16.
Qed.

(** *** Splitting and joining *)
Lemma split_on_nonempty c s : split_on c s ≠ [].
Proof. destruct s as [|x s]; simpl; [done|]. repeat case_match; done. Qed.

Lemma join_split_on c s : join c (split_on c s) = s.
Proof.
  induction s as [|x s IH]; [done|]. simpl. destruct (Z.eqb_spec x c) as [->|].
  - destruct (split_on c s) eqn:E; [by apply split_on_nonempty in E|].
    simpl in *. by rewrite IH.
  - destruct (split_on c s) as [|p ps] eqn:E; [by apply split_on_nonempty in E|].
    destruct ps; simpl in *; by rewrite IH.
Qed.

Lemma split_on_pieces c s : Forall (λ p, c ∉ p) (split_on c s).
Proof.
  induction s as [|x s IH]; simpl; [repeat constructor; set_solver|].
  destruct (Z.eqb_spec x c); [constructor; [set_solver|done]|].
  destruct (split_on c s); [repeat constructor; set_solver|].
  apply Forall_cons in IH as [? ?]. constructor; [set_solver|done].
Qed.

Lemma split_on_app c p s : c ∉ p → split_on c (p ++ c :: s) = p :: split_on c s.
Proof.
  induction p as [|x p IH]; intros Hp; simpl; [by rewrite Z.eqb_refl|].
  rewrite (proj2 (Z.eqb_neq x c)), IH by set_solver. done.
Qed.

Lemma split_on_none c p : c ∉ p → split_on c p = [p].
Proof.
  induction p as [|x p IH]; intros Hp; simpl; [done|].
  rewrite (proj2 (Z.eqb_neq x c)), IH by set_solver. done.
Qed.

Lemma split_on_join c ps :
  ps ≠ [] → Forall (λ p, c ∉ p) ps → split_on c (join c ps) = ps.
Proof.
  intros Hne Hps. induction Hps as [|p ps Hp Hps IH]; [done|].
  destruct ps as [|q ps]; [by apply split_on_none|].
  change (join c (p :: q :: ps)) with (p ++ c :: join c (q :: ps)).
  rewrite split_on_app by done. by rewrite IH.
Qed.

Lemma str_eqb_eq a b : str_eqb a b = true ↔ a = b.
Proof. unfold str_eqb. by rewrite bool_decide_eq_true. Qed.

Lemma strip_prefix_Some p s r : strip_prefix p s = Some r ↔ s = p ++ r.
Proof.
  revert s. induction p as [|x p IH]; intros s; simpl.
  - split; [by intros [= ->]|by intros ->].
  - destruct s as [|y s]; [done|]. destruct (Z.eqb_spec x y) as [->|].
    + rewrite IH. split; [by intros ->|by intros [= ->]].
    + split; [done|]. intros [= ? ?]. congruence.
Qed.
