(* ===== verification/Block.v ===== *)
(** * Block devices, [src/src/block.rs]

    The trait [BlockDevice] as a type class, its two implementations in this
    file ([PartitionDevice], a window on a parent, and [MemoryBlockDevice], an
    image with a sparse overlay of written sectors), the list of registered
    devices, and the contract of a device that does not fail: a map from sector
    numbers to sectors. *)
From stdpp Require Import base numbers list gmap.
From Stdlib Require Import ZArith Lia Bool.
From S2P Require Import Prelude Bytes Str.

Definition SECTOR_SIZE : Z := 512.

Inductive BlockError := OutOfRange | BadBuffer | ReadOnly.

#[global] Instance BlockError_eq_dec : EqDecision BlockError.
Proof. solve_decision. Defined.

(** A sector's bytes. *)
Definition sector_ok (s : list Z) : Prop := length s = 512%nat ∧ bytes_ok s.

Class BlockDevice (D : Type) := {
  sector_count : D → Z;
  read_sector : Z → D → res BlockError (list Z);
  write_sector : Z → list Z → M D BlockError unit;
  flush : M D BlockError unit
}.

(** The bodies that the trait gives [write_sector] and [flush]. *)
Definition default_write_sector {D} (lba : Z) (data : list Z) : M D BlockError unit :=
  fail ReadOnly.
Definition default_flush {D} : M D BlockError unit := fail ReadOnly.

(** ** Registered devices *)
Section Registry.
Context {D : Type}.

Record RegisteredDevice := mkReg { reg_name : str; reg_device : D }.

Definition register_device (name : str) (device : D) (devices : list RegisteredDevice) :
    list RegisteredDevice :=
  if existsb (λ e, str_eqb (reg_name e) name) devices then devices
  else devices ++ [mkReg name device].

Definition find_device (name : str) (devices : list RegisteredDevice) : option D :=
  match List.find (λ e, str_eqb (reg_name e) name) devices with
  | Some e => Some (reg_device e)
  | None => None
  end.
End Registry.
Arguments RegisteredDevice : clear implicits.

(** ** A partition of a parent device *)
Section Partitions.
Context {D : Type} `{BlockDevice D}.

Record PartitionDevice := mkPart { parent : D; start_lba : Z; sectors : Z }.

Definition PartitionDevice_new (parent : D) (start_lba sectors : Z) : option PartitionDevice :=
  match checked_add start_lba sectors with
  | None => None
  | Some end_ =>
      if (sectors =? 0) || (sector_count parent <? end_) then None
      else Some (mkPart parent start_lba sectors)
  end.

(** Run an operation of the parent. *)
Definition on_parent {A} (m : M D BlockError A) : M PartitionDevice BlockError A := λ p,
  let '(r, d) := m (parent p) in (r, mkPart d (start_lba p) (sectors p)).

#[global] Instance PartitionDevice_device : BlockDevice PartitionDevice := {
  sector_count := sectors;
  read_sector lba p :=
    if sectors p <=? lba then Err OutOfRange
    else let? at_ := add64 (start_lba p) lba in read_sector at_ (parent p);
  write_sector lba data := λ p,
    if sectors p <=? lba then (Err OutOfRange, p)
    else (let! at_ := lift (add64 (start_lba p) lba) in on_parent (write_sector at_ data)) p;
  flush := on_parent flush
}.
End Partitions.
Arguments PartitionDevice : clear implicits.

(** ** An image in memory *)
Record MemoryBlockDevice := mkMemDev { image : list Z; overlay : gmap Z (list Z) }.

Definition MemoryBlockDevice_new (bytes : list Z) : option MemoryBlockDevice :=
  let len := Z.of_nat (length bytes) in
  if (len <? SECTOR_SIZE) || negb (len mod SECTOR_SIZE =? 0) then None
  else Some (mkMemDev bytes ∅).

Definition mem_sector_count (d : MemoryBlockDevice) : Z :=
  Z.of_nat (length (image d)) / SECTOR_SIZE.

Definition mem_read_sector (lba : Z) (d : MemoryBlockDevice) : res BlockError (list Z) :=
  match overlay d !! lba with
  | Some sector => Ok sector
  | None =>
      let? start := ok_or OutOfRange (checked_mul lba SECTOR_SIZE) in
      let? _ := ok_or OutOfRange (checked_add start SECTOR_SIZE) in
      ok_or OutOfRange (slice (image d) start SECTOR_SIZE)
  end.

Definition mem_write_sector (lba : Z) (data : list Z) : M MemoryBlockDevice BlockError unit := λ d,
  if mem_sector_count d <=? lba then (Err OutOfRange, d)
  else (Ok tt, mkMemDev (image d) (<[lba := data]> (overlay d))).

#[global] Instance MemoryBlockDevice_device : BlockDevice MemoryBlockDevice := {
  sector_count := mem_sector_count;
  read_sector := mem_read_sector;
  write_sector := mem_write_sector;
  flush := default_flush
}.

(** ** The contract of a device that does not fail *)
Class ReliableDevice (D : Type) `{BlockDevice D} := {
  dev_ok : D → Prop;
  dev_data : D → Z → list Z;
  dev_count d : dev_ok d → 0 ≤ sector_count d ≤ u64_max;
  dev_sector d lba : dev_ok d → 0 ≤ lba < sector_count d → sector_ok (dev_data d lba);
  dev_read d lba :
    dev_ok d → 0 ≤ lba < sector_count d → read_sector lba d = Ok (dev_data d lba);
  dev_write d lba s :
    dev_ok d → 0 ≤ lba < sector_count d → sector_ok s →
    ∃ d', write_sector lba s d = (Ok tt, d') ∧ dev_ok d' ∧
      sector_count d' = sector_count d ∧
      ∀ l, 0 ≤ l < sector_count d → dev_data d' l = if decide (l = lba) then s else dev_data d l
}.

(** *** A partition of a reliable device is reliable, and confined *)
Definition part_ok {D} `{ReliableDevice D} (p : PartitionDevice D) : Prop :=
  dev_ok (parent p) ∧ 0 ≤ start_lba p ∧ 0 ≤ sectors p ∧
  start_lba p + sectors p ≤ sector_count (parent p).

Lemma part_write {D} `{ReliableDevice D} (p : PartitionDevice D) lba s :
  part_ok p → 0 ≤ lba < sectors p → sector_ok s →
  ∃ d', write_sector lba s p = (Ok tt, mkPart d' (start_lba p) (sectors p)) ∧
    part_ok (mkPart d' (start_lba p) (sectors p)) ∧
    ∀ l, 0 ≤ l < sector_count (parent p) →
      dev_data d' l = if decide (l = start_lba p + lba) then s else dev_data (parent p) l.
Proof.
  intros (Hd & Hs & Hn & Hend) Hlba Hsec. pose proof (dev_count _ Hd) as Hc.
  destruct (dev_write (parent p) (start_lba p + lba) s Hd ltac:(lia) Hsec)
    as (d' & E & Hd' & Hcnt & Hdata).
  exists d'. split; [|split; [|done]].
  - simpl. rewrite (proj2 (Z.leb_gt _ _)) by lia. unfold bind, lift.
    rewrite add64_ok by lia. unfold on_parent. by rewrite E.
  - split; [done|]. simpl. lia.
Qed.

#[global] Instance PartitionDevice_reliable {D} `{ReliableDevice D} :
  ReliableDevice (PartitionDevice D).
Proof.
  refine {| dev_ok := part_ok; dev_data p lba := dev_data (parent p) (start_lba p + lba) |}.
  - intros p (Hd & ? & ? & ?). pose proof (dev_count _ Hd). simpl. lia.
  - intros p lba (Hd & ? & ? & ?) Hl. simpl in Hl. apply dev_sector; [done|lia].
  - intros p lba (Hd & ? & ? & ?) Hl. pose proof (dev_count _ Hd). simpl in *.
    rewrite (proj2 (Z.leb_gt _ _)) by lia. rewrite add64_ok by lia. simpl.
    apply dev_read; [done|lia].
  - intros p lba s Hp Hl Hs. destruct (part_write p lba s Hp Hl Hs) as (d' & E & Hp' & Hdata).
    eexists. split; [exact E|]. split; [done|]. split; [done|]. intros l Hl'.
    simpl in *. destruct Hp as (_ & ? & ? & ?). rewrite Hdata by lia.
    destruct (decide (l = lba)) as [->|]; [by rewrite decide_True|].
    rewrite decide_False by lia. done.
Defined.

Lemma PartitionDevice_new_ok {D} `{ReliableDevice D} (d : D) start n p :
  dev_ok d → 0 ≤ start → 0 ≤ n → PartitionDevice_new d start n = Some p →
  part_ok p ∧ p = mkPart d start n ∧ 0 < n.
Proof.
  intros Hd Hs Hn. unfold PartitionDevice_new, checked_add.
  destruct (Z.leb_spec (start + n) u64_max); [|done].
  destruct (Z.eqb_spec n 0), (Z.ltb_spec (sector_count d) (start + n)); simpl; try done.
  intros [= <-]. split; [|split; [done|lia]]. split; simpl; [done|lia].
Qed.

(** *** The memory device *)
Definition mem_dev_ok (d : MemoryBlockDevice) : Prop :=
  Z.of_nat (length (image d)) mod SECTOR_SIZE = 0 ∧ Z.of_nat (length (image d)) ≤ u64_max ∧
  bytes_ok (image d) ∧ map_Forall (λ _ s, sector_ok s) (overlay d).

(** The original contents of a sector, and its contents now. *)
Definition image_sector (d : MemoryBlockDevice) (lba : Z) : list Z :=
  take 512 (drop (Z.to_nat (lba * SECTOR_SIZE)) (image d)).
Definition mem_data (d : MemoryBlockDevice) (lba : Z) : list Z :=
  default (image_sector d lba) (overlay d !! lba).

Lemma image_sector_ok d lba :
  mem_dev_ok d → 0 ≤ lba < mem_sector_count d → sector_ok (image_sector d lba).
Proof.
  intros (Hm & _ & Hb & _) Hl. unfold mem_sector_count, SECTOR_SIZE in *. split.
  - unfold image_sector, SECTOR_SIZE. rewrite length_take, length_drop.
    Z.div_mod_to_equations. lia.
  - by apply Forall_take, Forall_drop.
Qed.

Lemma mem_read_spec d lba :
  mem_dev_ok d → 0 ≤ lba < mem_sector_count d → mem_read_sector lba d = Ok (mem_data d lba).
Proof.
  intros Hd Hl. unfold mem_read_sector, mem_data.
  destruct (overlay d !! lba) as [s|]; [done|]. simpl.
  destruct Hd as (Hm & Hu & _). unfold mem_sector_count, SECTOR_SIZE in *.
  assert (lba * 512 + 512 ≤ Z.of_nat (length (image d))) by (Z.div_mod_to_equations; lia).
  rewrite checked_mul_Some by lia. simpl. rewrite checked_add_Some by lia. simpl.
  rewrite slice_Some by lia. done.
Qed.

#[global] Instance MemoryBlockDevice_reliable : ReliableDevice MemoryBlockDevice.
Proof.
  refine {| dev_ok := mem_dev_ok; dev_data := mem_data |}.
  - intros d (_ & Hu & _). simpl. unfold mem_sector_count, SECTOR_SIZE.
    Z.div_mod_to_equations. lia.
  - intros d lba Hd Hl. unfold mem_data. destruct (overlay d !! lba) as [s|] eqn:E; simpl.
    + destruct Hd as (_ & _ & _ & Ho). by apply Ho in E.
    + by apply image_sector_ok.
  - apply mem_read_spec.
  - intros d lba s Hd Hl Hs. simpl in *. unfold mem_write_sector.
    rewrite (proj2 (Z.leb_gt _ _)) by lia. eexists. split; [reflexivity|].
    destruct Hd as (Hm & Hu & Hb & Ho). split; [|split; [done|]].
    + split_and!; try done. simpl. by apply map_Forall_insert_2.
    + intros l Hl'. unfold mem_data. simpl. case_decide as E.
      * subst. by rewrite lookup_insert_eq.
      * by rewrite lookup_insert_ne.
Defined.

Lemma MemoryBlockDevice_new_ok bytes d :
  bytes_ok bytes → Z.of_nat (length bytes) ≤ u64_max →
  MemoryBlockDevice_new bytes = Some d → mem_dev_ok d ∧ d = mkMemDev bytes ∅.
Proof.
  intros Hb Hl. unfold MemoryBlockDevice_new.
  destruct (Z.ltb_spec (Z.of_nat (length bytes)) SECTOR_SIZE); [done|]. simpl.
  destruct (Z.eqb_spec (Z.of_nat (length bytes) mod SECTOR_SIZE) 0); [|done]. simpl.
  intros [= <-]. split; [|done]. split_and!; try done.
Qed.

(** ** Sequences of writes *)
Fixpoint write_all {D} `{BlockDevice D} (ws : list (Z * list Z)) (d : D) : D :=
  match ws with
  | [] => d
  | (lba, s) :: ws => write_all ws (snd (write_sector lba s d))
  end.

(** The last sector that [ws] writes to [lba]. *)
Fixpoint last_write (ws : list (Z * list Z)) (lba : Z) : option (list Z) :=
  match ws with
  | [] => None
  | (l, s) :: ws =>
      match last_write ws lba with
      | Some s' => Some s'
      | None => if l =? lba then Some s else None
      end
  end.

Lemma mem_write_all ws d lba :
  mem_dev_ok d → Forall (λ w, 0 ≤ w.1 ∧ sector_ok w.2) ws → 0 ≤ lba < mem_sector_count d →
  let d' := write_all ws d in
  mem_dev_ok d' ∧ image d' = image d ∧
  mem_data d' lba = default (mem_data d lba) (last_write ws lba).
Proof.
  intros Hd Hws. revert d Hd. induction Hws as [|[l s] ws [Hl Hs] Hws IH]; intros d Hd Hlba;
    [done|]. simpl. simpl in Hl, Hs. unfold mem_write_sector.
  destruct (Z.leb_spec (mem_sector_count d) l) as [Hout|Hin]; simpl.
  - destruct (IH d Hd Hlba) as (H1 & H2 & H3). split; [done|]. split; [done|]. rewrite H3.
    rewrite (proj2 (Z.eqb_neq l lba)) by lia. by destruct (last_write ws lba).
  - set (d1 := mkMemDev (image d) (<[l:=s]> (overlay d))).
    assert (Hd1 : mem_dev_ok d1).
    { destruct Hd as (? & ? & ? & ?). split_and!; try done. by apply map_Forall_insert_2. }
    destruct (IH d1 Hd1 Hlba) as (H1 & H2 & H3). split; [done|]. split; [done|]. rewrite H3.
    destruct (last_write ws lba); [done|]. simpl. unfold mem_data. simpl.
    destruct (Z.eqb_spec l lba) as [->|]; [by rewrite lookup_insert_eq|by rewrite lookup_insert_ne].
Qed.

Lemma part_write_all {D} `{ReliableDevice D} ws (p : PartitionDevice D) :
  part_ok p → Forall (λ w, 0 ≤ w.1 ∧ sector_ok w.2) ws →
  let p' := write_all ws p in
  part_ok p' ∧ start_lba p' = start_lba p ∧ sectors p' = sectors p ∧
  ∀ l, 0 ≤ l < sector_count (parent p) →
    l < start_lba p ∨ start_lba p + sectors p ≤ l →
    0 ≤ l < sector_count (parent p') ∧ dev_data (parent p') l = dev_data (parent p) l.
Proof.
  intros Hp Hws. revert p Hp. induction Hws as [|[lba s] ws [Hl Hs] Hws IH]; intros p Hp; [done|].
  simpl in Hl, Hs. cbn [write_all].
  destruct (Z.lt_ge_cases lba (sectors p)) as [Hin|Hout].
  - destruct (part_write p lba s Hp ltac:(lia) Hs) as (d' & E & Hp' & Hdata). rewrite E.
    cbn [snd]. destruct (IH _ Hp') as (H1 & H2 & H3 & H4). split_and!; try done.
    simpl in *. intros l Hr Ho. destruct (H4 l) as [H5 H6]; [|done|].
    + destruct Hp as (Hd & ? & ? & ?).
      destruct (dev_write (parent p) (start_lba p + lba) s Hd ltac:(lia) Hs)
        as (d2 & E2 & _ & Hcnt & _).
      simpl in E. rewrite (proj2 (Z.leb_gt _ _)) in E by lia. unfold bind, lift in E.
      pose proof (dev_count _ Hd).
      rewrite add64_ok in E by lia. unfold on_parent in E. rewrite E2 in E. injection E as ->. lia.
    + split; [done|]. rewrite H6, Hdata by done. rewrite decide_False by lia. done.
  - assert (E : write_sector lba s p = (Err OutOfRange, p)).
    { simpl. by rewrite (proj2 (Z.leb_le _ _)) by lia. }
    rewrite E. cbn [snd]. by apply IH.
Qed.

(** The memory device is a map of sectors over an untouched image.  After
    any sequence of writes, in or out of range, reading a sector of the device
    gives the last data written to it, or the image's own bytes if it was never
    written, and the image itself is unchanged; a read past the end is refused. *)
Theorem memory_device_reads_last_write ws bytes d lba :
  bytes_ok bytes → Z.of_nat (length bytes) ≤ u64_max →
  MemoryBlockDevice_new bytes = Some d →
  Forall (λ w, 0 ≤ w.1 ∧ sector_ok w.2) ws → 0 ≤ lba →
  let d' := write_all ws d in
  image d' = bytes ∧
  read_sector lba d' =
    if lba <? Z.of_nat (length bytes) / SECTOR_SIZE then
      Ok (default (take 512 (drop (Z.to_nat (lba * SECTOR_SIZE)) bytes)) (last_write ws lba))
    else Err OutOfRange.
Proof.
  intros Hb Hu Hnew Hws Hl. destruct (MemoryBlockDevice_new_ok _ _ Hb Hu Hnew) as [Hd ->].
  intros d'. assert (Him : image d' = bytes ∧ (mem_dev_ok d') ∧
    ∀ l, mem_sector_count d' ≤ l → overlay d' !! l = None).
  { subst d'. clear lba Hl. revert Hd.
    assert (Hno : ∀ l, mem_sector_count (mkMemDev bytes ∅) ≤ l →
      overlay (mkMemDev bytes ∅) !! l = None) by (intros; apply lookup_empty).
    revert Hno. change bytes with (image (mkMemDev bytes ∅)) at 5.
    generalize (mkMemDev bytes ∅). induction Hws as [|[l s] ws [_ Hs] Hws IH]; intros d Hno Hd; [done|].
    simpl in *. unfold mem_write_sector.
    destruct (Z.leb_spec (mem_sector_count d) l); simpl; [by apply IH|].
    apply (IH (mkMemDev (image d) (<[l:=s]> (overlay d)))).
    - intros l' Hl'. unfold mem_sector_count in *. simpl in *.
      rewrite lookup_insert_ne by lia. by apply Hno.
    - destruct Hd as (? & ? & ? & ?). split_and!; try done. by apply map_Forall_insert_2. }
  destruct Him as (Him & Hd' & Hout). split; [done|].
  destruct (Z.ltb_spec lba (Z.of_nat (length bytes) / SECTOR_SIZE)) as [Hlt|Hge].
  - destruct (mem_write_all ws _ lba Hd Hws) as (_ & _ & Hdata); [unfold mem_sector_count; simpl; lia|].
    simpl. rewrite mem_read_spec; [|done|unfold mem_sector_count; rewrite Him; lia].
    f_equal. exact Hdata.
  - simpl. unfold mem_read_sector. rewrite Hout by (unfold mem_sector_count; rewrite Him; lia).
    unfold checked_mul. destruct (Z.leb_spec (lba * SECTOR_SIZE) u64_max); [|done]. simpl.
    unfold checked_add. destruct (Z.leb_spec (lba * SECTOR_SIZE + SECTOR_SIZE) u64_max); [|done]. simpl.
    unfold slice. rewrite Him. unfold SECTOR_SIZE in *.
    rewrite (proj2 (Z.leb_gt (lba * 512 + 512) _)) by (Z.div_mod_to_equations; lia).
    by rewrite andb_false_r.
Qed.

Lemma memory_device_reads_last_write_witness :
  ∃ d, MemoryBlockDevice_new (replicate 1024 7) = Some d ∧
    read_sector 1 (write_all [(1, replicate 512 9); (5, replicate 512 8)] d)
    = Ok (replicate 512 9).
Proof.
  exists (mkMemDev (replicate 1024 7) ∅). split; [reflexivity|].
  destruct (memory_device_reads_last_write [(1, replicate 512 9); (5, replicate 512 8)]
    (replicate 1024 7) (mkMemDev (replicate 1024 7) ∅) 1) as [_ E].
  - apply Forall_replicate. unfold is_byte. lia.
  - rewrite length_replicate. unfold u64_max. lia.
  - reflexivity.
  - repeat constructor; simpl; try lia; apply Forall_replicate; unfold is_byte; lia.
  - lia.
  - exact E.
Defined.

(** A partition confines its filesystem.  Whatever is written through a
    [PartitionDevice] obtained from [new], every sector of the parent outside
    the partition keeps its contents, and reads and writes past the end of the
    partition are refused. *)
Theorem partition_confines {D} `{ReliableDevice D} (d : D) start n p ws :
  dev_ok d → 0 ≤ start → 0 ≤ n → PartitionDevice_new d start n = Some p →
  Forall (λ w, 0 ≤ w.1 ∧ sector_ok w.2) ws →
  (∀ l, 0 ≤ l < sector_count d → l < start ∨ start + n ≤ l →
     dev_data (parent (write_all ws p)) l = dev_data d l) ∧
  (∀ l s, n ≤ l → read_sector l p = Err OutOfRange ∧ write_sector l s p = (Err OutOfRange, p)).
Proof.
  intros Hd Hs Hn Hnew Hws.
  destruct (PartitionDevice_new_ok d start n p Hd Hs Hn Hnew) as (Hp & -> & _). split.
  - destruct (part_write_all ws _ Hp Hws) as (_ & _ & _ & Hout).
    intros l Hl Ho. by apply Hout.
  - intros l s Hl. simpl. by rewrite (proj2 (Z.leb_le _ _)).
Qed.

Lemma partition_confines_witness :
  ∃ p, PartitionDevice_new (mkMemDev (replicate 2048 7) ∅) 1 2 = Some p ∧
    dev_data (parent (write_all [(0, replicate 512 9)] p)) 3 = replicate 512 7.
Proof.
  exists (mkPart (mkMemDev (replicate 2048 7) ∅) 1 2). split; [reflexivity|].
  destruct (partition_confines (mkMemDev (replicate 2048 7) ∅) 1 2
    (mkPart (mkMemDev (replicate 2048 7) ∅) 1 2) [(0, replicate 512 9)]) as [E _].
  - split_and!; [reflexivity|vm_compute; congruence|apply Forall_replicate; unfold is_byte; lia|].
    apply map_Forall_empty.
  - lia.
  - lia.
  - reflexivity.
  - repeat constructor; simpl; try lia; apply Forall_replicate; unfold is_byte; lia.
  - rewrite E; [reflexivity|vm_compute; split; congruence|right; lia].
Defined.
