(* ===== verification/Partition.v ===== *)
(** * Partition tables, [src/src/partition.rs]

    Discovery of MBR and GPT partitions on a block device. *)
From Stdlib Require Import String.
From stdpp Require Import base numbers list gmap.
From Stdlib Require Import ZArith Lia Bool.
From S2P Require Import Prelude Bytes Str Block.

Inductive TableKind := Mbr | Gpt.

Record Partition := mkPartition {
  index : Z;
  part_start_lba : Z;
  part_sectors : Z;
  type_tag : Z;
  table : TableKind
}.

Inductive PartitionError := Io | InvalidTable | Unsupported | Corrupt.

Definition u32le {E} (b : list Z) (at_ : Z) : res E Z := expect (le_at 4 b at_).
Definition u64le {E} (b : list Z) (at_ : Z) : res E Z := expect (le_at 8 b at_).
(** [b[at]]. *)
Definition byte_at {E} (b : list Z) (at_ : Z) : res E Z :=
  if at_ <? 0 then Panic else expect (b !! Z.to_nat at_).

(** ** CRC-32 *)
Definition crc_step (crc : Z) : Z :=
  Z.lxor (Z.shiftr crc 1) (Z.land 0xedb88320 (wrap32 (0 - Z.land crc 1))).

Definition crc_byte (crc byte : Z) : Z :=
  Nat.iter 8 crc_step (Z.lxor crc byte).

Definition crc32 (bytes : list Z) : Z :=
  Z.lxor (fold_left crc_byte bytes u32_max) u32_max.

Section Scan.
Context {D : Type} `{BlockDevice D}.

Definition read_or_io (lba : Z) (device : D) : res PartitionError (list Z) :=
  map_err (λ _, Io) (read_sector lba device).

(** The loop over the four MBR entries: whether a protective entry was seen,
    and the partitions found. *)
Fixpoint mbr_entries (device : D) (mbr : list Z) (idx : list Z)
    (protective : bool) (parts : list Partition) :
    res PartitionError (bool * list Partition) :=
  match idx with
  | [] => Ok (protective, parts)
  | i :: idx =>
      let at_ := 446 + i * 16 in
      let? kind := byte_at mbr (at_ + 4) in
      let? start := u32le mbr (at_ + 8) in
      let? sectors := u32le mbr (at_ + 12) in
      if (kind =? 0) || (sectors =? 0) then mbr_entries device mbr idx protective parts
      else if kind =? 0xee then mbr_entries device mbr idx true parts
      else if (kind =? 0x05) || (kind =? 0x0f) || (kind =? 0x85) then
        mbr_entries device mbr idx protective parts
      else
        let? end_ := ok_or Corrupt (checked_add start sectors) in
        if (start =? 0) || (sector_count device <? end_) then Err Corrupt
        else mbr_entries device mbr idx protective
               (parts ++ [mkPartition (i + 1) start sectors kind Mbr])
  end.

(** The loop that reads [n] sectors of the GPT's table into one buffer. *)
Fixpoint read_table (device : D) (lba : Z) (n : nat) : res PartitionError (list Z) :=
  match n with
  | O => Ok []
  | S n =>
      let? sector := read_or_io lba device in
      let? rest := read_table device (lba + 1) n in
      Ok (sector ++ rest)
  end.

(** The loop over the GPT's entries, from [i], [n] of them. *)
Fixpoint gpt_entries (device : D) (raw : list Z) (entry_size i : Z) (n : nat)
    (out : list Partition) : res PartitionError (list Partition) :=
  match n with
  | O => Ok out
  | S n =>
      let at_ := i * entry_size in
      let? guid := expect (slice raw at_ 16) in
      if forallb (Z.eqb 0) guid then gpt_entries device raw entry_size (i + 1) n out
      else
        let? first := u64le raw (at_ + 32) in
        let? last := u64le raw (at_ + 40) in
        if (last <? first) || (first =? 0) || (sector_count device <=? last) then Err Corrupt
        else
          let? tag := u32le raw at_ in
          gpt_entries device raw entry_size (i + 1) n
            (out ++ [mkPartition (i + 1) first (last - first + 1) tag Gpt])
  end.

Definition scan_gpt (device : D) : res PartitionError (list Partition) :=
  let? hdr := read_or_io 1 device in
  let? magic := expect (slice hdr 0 8) in
  if negb (str_eqb magic (lit "EFI PART")) then Err InvalidTable
  else
    let? header_size := u32le hdr 12 in
    if negb ((92 <=? header_size) && (header_size <=? SECTOR_SIZE)) then Err Corrupt
    else
      let? expected := u32le hdr 16 in
      let? crc_hdr := expect (splice hdr 16 [0; 0; 0; 0]) in
      let? covered := expect (slice crc_hdr 0 header_size) in
      if negb (crc32 covered =? expected) then Err Corrupt
      else
        let? table_lba := u64le hdr 72 in
        let? entries := u32le hdr 80 in
        let entries := Z.min entries 4096 in
        let? entry_size := u32le hdr 84 in
        if (entry_size <? 128) || (4096 <? entry_size) || negb (entry_size mod 8 =? 0)
           || (entries =? 0) then Err Unsupported
        else
          let? total_bytes := ok_or Corrupt (checked_mul entries entry_size) in
          let sectors := (total_bytes + SECTOR_SIZE - 1) / SECTOR_SIZE in
          match checked_add table_lba sectors with
          | None => Err Corrupt
          | Some end_ =>
              if sector_count device <? end_ then Err Corrupt
              else
                let? raw := read_table device table_lba (Z.to_nat sectors) in
                let? covered := expect (slice raw 0 total_bytes) in
                let? expected := u32le hdr 88 in
                if negb (crc32 covered =? expected) then Err Corrupt
                else gpt_entries device raw entry_size 0 (Z.to_nat entries) []
          end.

Definition scan (device : D) : res PartitionError (list Partition) :=
  if sector_count device <? 2 then Err InvalidTable
  else
    let? mbr := read_or_io 0 device in
    let? mark := expect (slice mbr 510 2) in
    if negb (str_eqb mark [0x55; 0xaa]) then Err InvalidTable
    else
      let? (protective, parts) := mbr_entries device mbr [0; 1; 2; 3] false [] in
      if (protective : bool) then scan_gpt device else Ok parts.
End Scan.

(** ** What a scan promises

    [safe r P]: [r] is a value that satisfies [P] or an error, never a panic. *)
Definition safe {E A} (r : res E A) (P : A → Prop) : Prop :=
  match r with Ok a => P a | Err _ => True | Panic | Diverge => False end.

Lemma safe_bind {E A B} (r : res E A) (f : A → res E B) (P : A → Prop) (Q : B → Prop) :
  safe r P → (∀ a, P a → safe (f a) Q) → safe (res_bind r f) Q.
Proof. destruct r; simpl; auto. Qed.

Lemma safe_expect {E A} (o : option A) (P : A → Prop) :
  (∃ a, o = Some a ∧ P a) → safe (expect (E:=E) o) P.
Proof. intros (a & -> & Ha). done. Qed.

(** A device whose successful reads give whole sectors. *)
Definition reads_sectors {D} `{BlockDevice D} (device : D) : Prop :=
  0 ≤ sector_count device ≤ u64_max ∧
  ∀ lba, safe (read_sector lba device) sector_ok.

Definition in_bounds (count : Z) (p : Partition) : Prop :=
  0 < part_start_lba p ∧ 0 < part_sectors p ∧ part_start_lba p + part_sectors p ≤ count.

Section ScanSpec.
Context {D : Type} `{BlockDevice D} (device : D) (Hdev : reads_sectors device).

Lemma read_or_io_safe lba : safe (read_or_io lba device) sector_ok.
Proof using Hdev. destruct Hdev as [_ Hr]. specialize (Hr lba). unfold read_or_io. by destruct (read_sector lba device). Qed.

Lemma le_at_safe {E} b n at_ :
  bytes_ok b → 0 ≤ at_ → 0 ≤ n → at_ + n ≤ Z.of_nat (length b) →
  safe (expect (E:=E) (le_at n b at_)) (λ v, 0 ≤ v < 256 ^ n).
Proof. intros. apply safe_expect. by apply le_at_spec. Qed.

Lemma byte_at_safe {E} b at_ :
  bytes_ok b → 0 ≤ at_ < Z.of_nat (length b) → safe (byte_at (E:=E) b at_) is_byte.
Proof.
  intros Hb Ha. unfold byte_at. rewrite (proj2 (Z.ltb_ge _ _)) by lia.
  apply safe_expect. destruct (lookup_lt_is_Some_2 b (Z.to_nat at_) ltac:(lia)) as [x Hx].
  exists x. split; [done|]. by eapply Forall_lookup_1.
Qed.

Lemma mbr_entries_safe mbr idx protective parts :
  sector_ok mbr → Forall (λ i, 0 ≤ i < 4) idx →
  Forall (in_bounds (sector_count device)) parts →
  safe (mbr_entries device mbr idx protective parts)
    (λ r, Forall (in_bounds (sector_count device)) r.2).
Proof.
  intros [Hlen Hb] Hidx. revert protective parts.
  induction Hidx as [|i idx Hi _ IH]; intros protective parts Hp; [done|].
  cbn [mbr_entries].
  apply (safe_bind _ _ is_byte); [apply byte_at_safe; [done|lia]|]. intros kind _.
  apply (safe_bind _ _ (λ v, 0 ≤ v < 256 ^ 4)); [apply le_at_safe; [done|lia..]|]. intros start Hs.
  apply (safe_bind _ _ (λ v, 0 ≤ v < 256 ^ 4)); [apply le_at_safe; [done|lia..]|]. intros n Hn.
  destruct ((kind =? 0) || (n =? 0)) eqn:E0; [by apply IH|].
  destruct (kind =? 0xee); [by apply IH|].
  destruct ((kind =? 0x05) || (kind =? 0x0f) || (kind =? 0x85)); [by apply IH|].
  destruct (checked_add start n) as [e|] eqn:Ee; [|done]. simpl.
  unfold checked_add in Ee. destruct (start + n <=? u64_max); [|done]. injection Ee as <-.
  destruct (Z.eqb_spec start 0), (Z.ltb_spec (sector_count device) (start + n)); simpl; try done.
  apply IH. apply Forall_app. split; [done|]. constructor; [|constructor].
  apply orb_false_iff in E0 as [_ En%Z.eqb_neq]. split_and!; simpl; lia.
Qed.

Lemma read_table_safe lba n :
  safe (read_table device lba n) (λ raw, length raw = (512 * n)%nat ∧ bytes_ok raw).
Proof using Hdev.
  revert lba. induction n as [|n IH]; intros lba; cbn [read_table].
  { split; [done|constructor]. }
  eapply safe_bind; [apply read_or_io_safe|]. intros s [Hs1 Hs2].
  eapply safe_bind; [apply IH|]. intros raw [Hr1 Hr2]. simpl.
  rewrite length_app. split; [lia|]. by apply Forall_app.
Qed.

Lemma gpt_entries_safe raw entry_size i n out :
  bytes_ok raw → 128 ≤ entry_size → 0 ≤ i →
  (i + Z.of_nat n) * entry_size ≤ Z.of_nat (length raw) →
  Forall (in_bounds (sector_count device)) out →
  safe (gpt_entries device raw entry_size i n out)
    (Forall (in_bounds (sector_count device))).
Proof.
  intros Hb He. revert i out. induction n as [|n IH]; intros i out Hi Hlen Hout; [done|].
  cbn [gpt_entries].
  assert (Hfit : i * entry_size + 128 ≤ Z.of_nat (length raw)) by nia.
  assert (0 ≤ i * entry_size) by nia.
  apply (safe_bind _ _ (λ _, True)).
  { apply safe_expect. rewrite slice_Some by lia. eauto. }
  intros guid _. destruct (forallb (Z.eqb 0) guid); [apply IH; try done; nia|].
  apply (safe_bind _ _ (λ v, 0 ≤ v < 256 ^ 8)); [apply le_at_safe; [done|lia..]|]. intros first Hf.
  apply (safe_bind _ _ (λ v, 0 ≤ v < 256 ^ 8)); [apply le_at_safe; [done|lia..]|]. intros last Hl.
  destruct (Z.ltb_spec last first), (Z.eqb_spec first 0), (Z.leb_spec (sector_count device) last);
    simpl; try done.
  apply (safe_bind _ _ (λ v, 0 ≤ v < 256 ^ 4)); [apply le_at_safe; [done|lia..]|]. intros tag _.
  apply IH; try nia. apply Forall_app. split; [done|]. constructor; [|constructor].
  split_and!; simpl; lia.
Qed.

Lemma scan_gpt_safe : safe (scan_gpt device) (Forall (in_bounds (sector_count device))).
Proof using Hdev.
  unfold scan_gpt. eapply safe_bind; [apply read_or_io_safe|]. intros hdr [Hlen Hb].
  apply (safe_bind _ _ (λ _, True)).
  { apply safe_expect. rewrite slice_Some by lia. eauto. }
  intros magic _. destruct (str_eqb magic (lit "EFI PART")); [|done]. cbn [negb].
  eapply safe_bind; [apply (le_at_safe hdr 4 12); [done|lia..]|]. intros header_size _.
  destruct (Z.leb_spec 92 header_size), (Z.leb_spec header_size SECTOR_SIZE); try done. cbn [andb negb].
  eapply safe_bind; [apply (le_at_safe hdr 4 16); [done|lia..]|]. intros expected _.
  apply (safe_bind _ _ (λ c, length c = 512%nat)).
  { apply safe_expect. rewrite splice_Some by (simpl; lia). eexists. split; [reflexivity|].
    rewrite !length_app, length_take, length_drop, Hlen. done. }
  intros crc_hdr Hc. apply (safe_bind _ _ (λ _, True)).
  { apply safe_expect. unfold SECTOR_SIZE in *. rewrite slice_Some by lia. eauto. }
  intros covered _. destruct (crc32 covered =? expected); [|done]. cbn [negb].
  eapply safe_bind; [apply (le_at_safe hdr 8 72); [done|lia..]|]. intros table_lba Ht.
  eapply safe_bind; [apply (le_at_safe hdr 4 80); [done|lia..]|]. intros entries He. cbv zeta.
  eapply safe_bind; [apply (le_at_safe hdr 4 84); [done|lia..]|]. intros entry_size Hes.
  cbv beta in Ht, He, Hes.
  destruct (Z.ltb_spec entry_size 128), (Z.ltb_spec 4096 entry_size); try done.
  destruct (entry_size mod 8 =? 0), (Z.eqb_spec (Z.min entries 4096) 0); try done. cbn [orb negb].
  rewrite checked_mul_Some by (unfold u64_max; nia). cbn [ok_or res_bind].
  set (total := Z.min entries 4096 * entry_size). set (sectors := (total + SECTOR_SIZE - 1) / SECTOR_SIZE).
  destruct (checked_add table_lba sectors); [|done].
  destruct (sector_count device <? z); [done|].
  eapply safe_bind; [apply read_table_safe|]. intros raw [Hr1 Hr2].
  assert (0 ≤ total) by (unfold total; apply Z.mul_nonneg_nonneg; lia).
  assert (total ≤ Z.of_nat (length raw)).
  { rewrite Hr1. unfold sectors, SECTOR_SIZE. Z.div_mod_to_equations. lia. }
  apply (safe_bind _ _ (λ _, True)).
  { apply safe_expect. rewrite slice_Some by lia. eauto. }
  intros covered2 _. eapply safe_bind; [apply (le_at_safe hdr 4 88); [done|lia..]|]. intros expected2 _.
  destruct (crc32 covered2 =? expected2); [|done]. cbn [negb].
  apply gpt_entries_safe; try done; try lia.
Qed.

Lemma scan_safe : safe (scan device) (Forall (in_bounds (sector_count device))).
Proof using Hdev.
  unfold scan. destruct (sector_count device <? 2); [done|].
  eapply safe_bind; [apply read_or_io_safe|]. intros mbr Hm. pose proof Hm as [Hlen Hb].
  apply (safe_bind _ _ (λ _, True)).
  { apply safe_expect. rewrite slice_Some by lia. eauto. }
  intros mark _. destruct (str_eqb mark [0x55; 0xaa]); [|done]. cbn [negb].
  eapply safe_bind; [apply mbr_entries_safe; [done|repeat constructor; lia|constructor]|].
  intros [[] parts] Hp; [apply scan_gpt_safe|done].
Qed.
End ScanSpec.

(** An image in memory, not written to yet. *)
Lemma image_reads bs n : bytes_ok bs → Z.of_nat (length bs) = n * 512 → 0 ≤ n → n * 512 ≤ u64_max → reads_sectors (mkMemDev bs ∅).
Proof.
  intros Hb Hl Hn Hm. unfold reads_sectors. cbn [sector_count read_sector MemoryBlockDevice_device]. split.
  { unfold mem_sector_count, SECTOR_SIZE. cbn [image]. rewrite Hl, Z.div_mul by lia. lia. }
  intros lba. unfold mem_read_sector. cbn [overlay image]. rewrite lookup_empty.
  destruct (checked_mul lba SECTOR_SIZE) as [z|]; [|done]. cbn [ok_or res_bind].
  destruct (checked_add z SECTOR_SIZE); [|done]. cbn [ok_or res_bind].
  destruct (slice bs z SECTOR_SIZE) as [s|] eqn:E; [|done]. split; [|by eapply bytes_ok_slice].
  apply length_slice in E. unfold SECTOR_SIZE in E. lia.
Qed.

(** Partition discovery trusts nothing.  On any device whose reads give
    whole sectors, whatever its contents, [scan] does not panic; every partition
    it returns, from an MBR or from a GPT, starts after sector 0, is not empty
    and ends within the device, so that a [PartitionDevice] can be made of it. *)
Theorem scan_in_bounds {D} `{BlockDevice D} (device : D) :
  reads_sectors device →
  safe (scan device) (Forall (λ p,
    0 < part_start_lba p ∧ 0 < part_sectors p ∧
    part_start_lba p + part_sectors p ≤ sector_count device ∧
    PartitionDevice_new device (part_start_lba p) (part_sectors p) =
      Some (mkPart device (part_start_lba p) (part_sectors p)))).
Proof.
  intros Hdev. pose proof (scan_safe device Hdev) as Hs. destruct Hdev as [Hc _].
  destruct (scan device) as [parts| | |]; simpl in *; try done.
  eapply Forall_impl; [exact Hs|]. intros p (H1 & H2 & H3). split_and!; try done.
  unfold PartitionDevice_new. rewrite checked_add_Some by lia.
  rewrite (proj2 (Z.eqb_neq _ _)), (proj2 (Z.ltb_ge _ _)) by lia. done.
Qed.

(** A disk with an MBR that describes one FAT32 partition. *)
Definition demo_disk : MemoryBlockDevice :=
  mkMemDev (replicate 446 0 ++ [0; 0; 0; 0; 0x0c; 0; 0; 0] ++ le_bytes 4 1 ++ le_bytes 4 3
            ++ replicate 48 0 ++ [0x55; 0xaa] ++ replicate 1536 0) ∅.

Lemma scan_in_bounds_witness :
  reads_sectors demo_disk ∧ scan demo_disk = Ok [mkPartition 1 1 3 12 Mbr] ∧
  PartitionDevice_new demo_disk 1 3 = Some (mkPart demo_disk 1 3).
Proof.
  assert (Hr : reads_sectors demo_disk).
  { apply (image_reads _ 4); [|by vm_compute..]. unfold bytes_ok. rewrite !Forall_app.
    split_and!; first [apply Forall_replicate; unfold is_byte; lia | apply le_bytes_ok
                      | repeat constructor; unfold is_byte; lia]. }
  assert (E : scan demo_disk = Ok [mkPartition 1 1 3 12 Mbr]) by (vm_compute; reflexivity).
  split; [exact Hr|]. split; [exact E|].
  pose proof (scan_in_bounds demo_disk Hr) as Hs. rewrite E in Hs. cbn [safe] in Hs.
  apply Forall_cons in Hs as [(_ & _ & _ & Hp) _]. exact Hp.
Defined.
