(* ===== verification/FatNames.v ===== *)
(** * Names in FAT directories, [src/src/fat32.rs]

    Short (8.3) names, the long-name (LFN) records that precede a short entry,
    and how a directory scan puts a name back together.  A directory slot is a
    list of 32 bytes (the chunks of [chunks_exact(32)]), a long name is a buffer
    of 260 UTF-16 units. *)
From Stdlib Require Import String.
From stdpp Require Import base numbers list sets.
From Stdlib Require Import ZArith Lia Bool.
From S2P Require Import Prelude Bytes Str Block.

Inductive FatError :=
  | FatIo | InvalidBootSector | FatUnsupported | FatCorrupt | FatNotFound | FatNotDirectory
  | FatIsDirectory | FatTooLarge | FatNoSpace | FatInvalidName | FatAlreadyExists
  | FatDirectoryNotEmpty.

#[global] Instance FatError_eq_dec : EqDecision FatError.
Proof. solve_decision. Defined.

(** [e[i]] of a fixed-size array, and [u16le]/[u32le] of one. *)
Definition byte_of (e : list Z) (i : nat) : Z := nth i e 0.
Definition u16le (e : list Z) (at_ : nat) : Z := byte_of e at_ + 256 * byte_of e (S at_).
Definition u32le (e : list Z) (at_ : nat) : Z := u16le e at_ + 65536 * u16le e (2 + at_).

Lemma byte_of_range b i : bytes_ok b → 0 ≤ byte_of b i < 256.
Proof.
  intros Hb. unfold byte_of. destruct (b !! i) as [x|] eqn:E.
  - rewrite (nth_lookup_Some _ _ _ _ E). exact (Forall_lookup_1 _ _ _ _ Hb E).
  - rewrite nth_overflow; [lia|]. by apply lookup_ge_None.
Qed.

Lemma u16le_range b i : bytes_ok b → 0 ≤ u16le b i < 65536.
Proof.
  intros Hb. unfold u16le. pose proof (byte_of_range b i Hb). pose proof (byte_of_range b (S i) Hb). lia.
Qed.

Lemma u32le_range b i : bytes_ok b → 0 ≤ u32le b i < 2^32.
Proof.
  intros Hb. unfold u32le. pose proof (u16le_range b i Hb). pose proof (u16le_range b (2 + i) Hb). lia.
Qed.

(** The characters allowed in a short name besides letters and digits. *)
Definition short_punct : list Z := lit "$%'-_@~`!(){}^#&".
Definition short_char (b : Z) : bool := is_ascii_alphanumeric b || existsb (Z.eqb b) short_punct.

(** [s] padded with spaces to [n] bytes. *)
Definition pad (n : nat) (s : list Z) : list Z := s ++ replicate (n - length s) SPACE.

Definition to_short_name (name : list Z) : res FatError (list Z) :=
  match split_on DOT name with
  | [] => Err FatInvalidName
  | base :: rest =>
      let ext := default [] (hd_error rest) in
      if (1 <? Z.of_nat (length rest)) || (Z.of_nat (length base) =? 0)
         || (8 <? Z.of_nat (length base)) || (3 <? Z.of_nat (length ext)) then Err FatInvalidName
      else if negb (forallb short_char base) || negb (forallb short_char ext) then
        Err FatInvalidName
      else Ok (pad 8 (map to_ascii_uppercase base) ++ pad 3 (map to_ascii_uppercase ext))
  end.

Definition not_space (b : Z) : bool := negb (b =? SPACE).

(** Bytes as Latin-1 characters, the [b as char] of the source. *)
Definition short_name (raw : list Z) : list Z :=
  let base := encode_utf8 (take_while not_space (take 8 raw)) in
  let ext := encode_utf8 (take_while not_space (take 3 (drop 8 raw))) in
  match ext with
  | [] => base
  | _ => base ++ DOT :: ext
  end.

(** ** Long names *)
Definition positions : list nat := [1; 3; 5; 7; 9; 14; 16; 18; 20; 22; 24; 28; 30]%nat.

Definition lfn_checksum (short : list Z) : Z :=
  fold_left (λ sum b, wrap8 (wrap8 (Z.shiftl (Z.land sum 1) 7 + Z.shiftr sum 1) + b)) short 0.

Definition lfn_bad_unit (u : Z) : bool :=
  (u <? 0x20) || existsb (Z.eqb u) (34 :: lit "*/:<>?\|").

(** The unit at [i] of a long name: the name, a terminator, then filler. *)
Definition lfn_unit (units : list Z) (i : nat) : Z :=
  if (i <? length units)%nat then nth i units 0
  else if (i =? length units)%nat then 0 else 0xffff.

(** [entry[at..at + 2].copy_from_slice(..)] of a 32-byte record. *)
Definition put16 (e : list Z) (at_ : nat) (u : Z) : list Z :=
  <[at_ := u mod 256]> (<[S at_ := u / 256]> e).

Fixpoint put_units (e : list Z) (ps : list nat) (base : nat) (units : list Z) : list Z :=
  match ps with
  | [] => e
  | p :: ps => put_units (put16 e p (lfn_unit units base)) ps (S base) units
  end.

Definition lfn_record (units : list Z) (checksum : Z) (order count : nat) : list Z :=
  let first := Z.lor (Z.of_nat order) (if (order =? count)%nat then 0x40 else 0) in
  let e := <[0%nat := first]> (<[11%nat := 0x0f]> (<[13%nat := checksum]> (replicate 32 0))) in
  put_units e positions ((order - 1) * 13) units.

(** The records for [order] down to 1. *)
Fixpoint lfn_record_list (units : list Z) (checksum : Z) (order count : nat) : list (list Z) :=
  match order with
  | O => []
  | S o => lfn_record units checksum (S o) count :: lfn_record_list units checksum o count
  end.

Definition lfn_count (units : list Z) : nat := ((length units + 1 + 12) / 13)%nat.

Definition lfn_records (name short : list Z) : res FatError (list (list Z)) :=
  let units := encode_utf16 name in
  if (Z.of_nat (length units) =? 0) || (255 <? Z.of_nat (length units)) then Err FatInvalidName
  else if existsb lfn_bad_unit units then Err FatInvalidName
  else
    let count := lfn_count units in
    Ok (lfn_record_list units (lfn_checksum short) count count).

(** ** Reading names back *)

(** The long name collected so far and whether one is under way. *)
Record LfnState := mkLfn { lfn : list Z; have_lfn : bool }.

Definition lfn_empty : list Z := replicate 260 0xffff.

Definition get_units (e : list Z) (buf : list Z) (ps : list nat) (base : nat) : list Z :=
  fold_left (λ buf (ip : nat * nat), <[(base + fst ip)%nat := u16le e (snd ip)]> buf)
    (combine (seq 0 (length ps)) ps) buf.

(** A slot with attribute 0x0f. *)
Definition lfn_slot (e : list Z) (st : LfnState) : LfnState :=
  let ord := Z.land (byte_of e 0) 0x1f in
  if (ord =? 0) || (20 <? ord) then mkLfn (lfn st) false
  else
    let st := if negb (Z.land (byte_of e 0) 0x40 =? 0) then mkLfn lfn_empty true else st in
    if negb (have_lfn st) then st
    else mkLfn (get_units e (lfn st) positions (Z.to_nat ((ord - 1) * 13))) (have_lfn st).

Definition lfn_text (buf : list Z) : list Z :=
  let n := default (length buf) (position (λ x, (x =? 0) || (x =? 0xffff)) buf) in
  from_utf16_lossy (take n buf).

(** The name of the short entry [e] after the long-name slots before it. *)
Definition slot_name (e : list Z) (st : LfnState) : list Z :=
  if have_lfn st then
    match lfn_text (lfn st) with
    | [] => short_name (take 11 e)
    | s => s
    end
  else short_name (take 11 e).

Definition slot_cluster (e : list Z) : Z := Z.lor (Z.shiftl (u16le e 20) 16) (u16le e 26).
Definition slot_size (e : list Z) : Z := u32le e 28.
Definition slot_is_dir (e : list Z) : bool := negb (Z.land (byte_of e 11) 0x10 =? 0).
Definition slot_is_label (e : list Z) : bool := negb (Z.land (byte_of e 11) 0x08 =? 0).

(** ** Long names round trip *)
Definition units_ok (units : list Z) : Prop := Forall (λ u, 0 ≤ u < 65536) units.

Lemma lfn_unit_range units i : units_ok units → 0 ≤ lfn_unit units i < 65536.
Proof.
  intros Hu. unfold lfn_unit. destruct (Nat.ltb_spec i (length units)); [|case_match; lia].
  destruct (lookup_lt_is_Some_2 units i) as [u Eu]; [done|].
  rewrite (nth_lookup_Some _ _ _ _ Eu). exact (Forall_lookup_1 _ _ _ _ Hu Eu).
Qed.

Lemma u16le_parts u : 0 ≤ u < 65536 → u mod 256 + 256 * (u / 256) = u.
Proof. intros. Z.div_mod_to_equations. lia. Qed.

(** The slots a record fills in and the units they hold. *)
Lemma lfn_record_head units ck order count :
  byte_of (lfn_record units ck order count) 0 =
  Z.lor (Z.of_nat order) (if (order =? count)%nat then 0x40 else 0).
Proof. reflexivity. Qed.

Lemma lfn_record_attr units ck order count : byte_of (lfn_record units ck order count) 11 = 0x0f.
Proof. reflexivity. Qed.

Lemma lfn_record_length units ck order count : length (lfn_record units ck order count) = 32%nat.
Proof. reflexivity. Qed.

Lemma lfn_record_units units ck order count :
  units_ok units →
  Forall2 (λ (p i : nat),
      u16le (lfn_record units ck order count) p = lfn_unit units (i + (order - 1) * 13))
    positions (seq 0 13).
Proof.
  intros Hu.
  repeat constructor;
    (etransitivity; [|apply u16le_parts, lfn_unit_range, Hu]; reflexivity).
Qed.

Lemma get_units_lookup e (f : nat → Z) ps k base buf j :
  Forall2 (λ p i, u16le e p = f (base + i)%nat) ps (seq k (length ps)) →
  (base + k + length ps ≤ length buf)%nat →
  fold_left (λ buf (ip : nat * nat), <[(base + fst ip)%nat := u16le e (snd ip)]> buf)
    (combine (seq k (length ps)) ps) buf !! j =
  if decide (base + k ≤ j < base + k + length ps)%nat then Some (f j) else buf !! j.
Proof.
  revert k buf. induction ps as [|p ps IH]; intros k buf Hf Hlen; simpl.
  { rewrite decide_False; [done|lia]. }
  simpl in Hf, Hlen. apply Forall2_cons in Hf as [Hp Hf].
  rewrite IH; [|done|rewrite length_insert; lia]. rewrite Hp.
  destruct (decide (j = base + k)%nat) as [->|Hne].
  - rewrite decide_False, decide_True by lia. rewrite list_lookup_insert_eq by lia. done.
  - rewrite list_lookup_insert_ne by lia. repeat case_decide; try lia; done.
Qed.

Lemma get_units_length e base ips buf :
  length (fold_left (λ buf (ip : nat * nat), <[(base + fst ip)%nat := u16le e (snd ip)]> buf)
    ips buf) = length buf.
Proof. revert buf. induction ips as [|ip ips IH]; intros buf; simpl; [done|]. by rewrite IH, length_insert. Qed.

(** Processing the record for [order] fills in its 13 units. *)
Lemma lfn_slot_record units ck order count st :
  units_ok units → (1 ≤ order ≤ count)%nat → (count ≤ 20)%nat →
  length (lfn st) = 260%nat → (have_lfn st = true ∨ order = count) →
  let st' := lfn_slot (lfn_record units ck order count) st in
  have_lfn st' = true ∧ length (lfn st') = 260%nat ∧
  ∀ j, (j < 260)%nat → lfn st' !! j =
    if decide ((order - 1) * 13 ≤ j < order * 13)%nat then Some (lfn_unit units j)
    else if decide (order = count) then Some 0xffff else lfn st !! j.
Proof.
  intros Hu Ho Hc Hlen Hhave. unfold lfn_slot. rewrite lfn_record_head.
  assert (Hord : Z.land (Z.lor (Z.of_nat order) (if (order =? count)%nat then 0x40 else 0)) 0x1f
    = Z.of_nat order ∧
    (Z.land (Z.lor (Z.of_nat order) (if (order =? count)%nat then 0x40 else 0)) 0x40 =? 0)
    = negb (order =? count)%nat).
  { assert (Hlt : (order < 21)%nat) by lia. clear -Hlt Ho.
    destruct (order =? count)%nat;
    (do 21 (destruct order as [|order]; [try lia; split; reflexivity|])); lia. }
  destruct Hord as [-> ->]. rewrite (proj2 (Z.eqb_neq _ _)), (proj2 (Z.ltb_ge _ _)) by lia.
  cbn [orb]. rewrite negb_involutive.
  replace (Z.to_nat ((Z.of_nat order - 1) * 13)) with ((order - 1) * 13)%nat by lia.
  set (st1 := if (order =? count)%nat then mkLfn lfn_empty true else st).
  assert (H1 : have_lfn st1 = true ∧ length (lfn st1) = 260%nat ∧
    ∀ j, (j < 260)%nat → lfn st1 !! j = if decide (order = count) then Some 0xffff else lfn st !! j).
  { unfold st1. destruct (Nat.eqb_spec order count) as [->|Hne].
    - split_and!; try done. intros j Hj. rewrite decide_True by done.
      unfold lfn_empty. cbn [lfn]. by apply lookup_replicate_2.
    - split_and!; try tauto. intros j Hj. by rewrite decide_False. }
  destruct H1 as (H1 & H2 & H3). rewrite H1. cbn [negb lfn have_lfn].
  assert (Hg : ∀ j, get_units (lfn_record units ck order count) (lfn st1) positions ((order - 1) * 13) !! j
    = if decide ((order - 1) * 13 + 0 ≤ j < (order - 1) * 13 + 0 + 13)%nat
      then Some (lfn_unit units j) else lfn st1 !! j).
  { intros j. apply (get_units_lookup _ (lfn_unit units) positions 0); [|simpl; lia].
    eapply Forall2_impl; [apply (lfn_record_units units ck order count Hu)|].
    intros p i E. rewrite E. f_equal. lia. }
  split; [done|]. split; [unfold get_units; by rewrite get_units_length|].
  intros j Hj. rewrite Hg. rewrite <- (H3 j Hj). repeat case_decide; try lia; done.
Qed.

(** Processing the records of [order] down to 1, the higher ones done. *)
Lemma lfn_records_fold units ck count order st :
  units_ok units → (order ≤ count)%nat → (count ≤ 20)%nat →
  have_lfn st = true → length (lfn st) = 260%nat → order ≠ count →
  (∀ j, (order * 13 ≤ j < 260)%nat → lfn st !! j = Some (lfn_unit units j)) →
  let st' := fold_left (λ st e, lfn_slot e st) (lfn_record_list units ck order count) st in
  have_lfn st' = true ∧ length (lfn st') = 260%nat ∧
  ∀ j, (j < 260)%nat → lfn st' !! j = Some (lfn_unit units j).
Proof.
  intros Hu Ho Hc. revert st Ho. induction order as [|order IH]; intros st Ho Hhave Hlen Hne Hst.
  { split; [done|]. split; [done|]. intros j Hj. apply Hst. lia. }
  cbn [lfn_record_list fold_left].
  destruct (lfn_slot_record units ck (S order) count st Hu ltac:(lia) Hc Hlen (or_introl Hhave))
    as (H1 & H2 & H3).
  apply IH; [lia|done|done|lia|]. intros j Hj. rewrite H3 by lia.
  rewrite (decide_False (P := S order = count)) by done.
  destruct (decide ((S order - 1) * 13 ≤ j < S order * 13)%nat); [done|]. apply Hst. lia.
Qed.

Lemma lfn_all_records units ck count st :
  units_ok units → (1 ≤ count ≤ 20)%nat → (length units < count * 13)%nat →
  length (lfn st) = 260%nat →
  let st' := fold_left (λ st e, lfn_slot e st) (lfn_record_list units ck count count) st in
  have_lfn st' = true ∧ length (lfn st') = 260%nat ∧
  ∀ j, (j < 260)%nat → lfn st' !! j = Some (lfn_unit units j).
Proof.
  intros Hu Hc Hn Hlen. destruct count as [|count]; [lia|]. cbn [lfn_record_list fold_left].
  destruct (lfn_slot_record units ck (S count) (S count) st Hu ltac:(lia) ltac:(lia) Hlen (or_intror eq_refl))
    as (H1 & H2 & H3).
  apply lfn_records_fold; try done; try lia. intros j Hj. rewrite H3 by lia.
  destruct (decide ((S count - 1) * 13 ≤ j < S count * 13)%nat); [done|].
  rewrite decide_True by done. unfold lfn_unit.
  rewrite (proj2 (Nat.ltb_ge _ _)), (proj2 (Nat.eqb_neq _ _)) by lia. done.
Qed.

Lemma position_first p l n x :
  l !! n = Some x → p x = true → (∀ i y, (i < n)%nat → l !! i = Some y → p y = false) →
  position p l = Some n.
Proof.
  revert n. induction l as [|a l IH]; intros n Hn Hx Hb; [done|]. simpl.
  destruct n as [|n]; simpl in *; [injection Hn as ->; by rewrite Hx|].
  rewrite (Hb 0%nat a) by (done || lia). rewrite (IH n Hn Hx); [done|].
  intros i y Hi Hy. apply (Hb (S i) y); [lia|done].
Qed.

(** The text of the buffer that the records of [units] fill in. *)
Lemma lfn_text_units buf units :
  length buf = 260%nat → (length units ≤ 255)%nat →
  Forall (λ u, u ≠ 0 ∧ u ≠ 0xffff) units →
  (∀ j, (j < 260)%nat → buf !! j = Some (lfn_unit units j)) →
  lfn_text buf = from_utf16_lossy units.
Proof.
  intros Hlen Hn Hok Hbuf. unfold lfn_text.
  rewrite (position_first _ buf (length units) 0).
  - simpl default. f_equal. apply list_eq. intros i.
    destruct (Nat.lt_ge_cases i (length units)) as [Hi|Hi].
    + rewrite lookup_take_lt, Hbuf by lia. unfold lfn_unit.
      rewrite (proj2 (Nat.ltb_lt _ _)) by done.
      destruct (lookup_lt_is_Some_2 units i Hi) as [u Eu]. by rewrite Eu, (nth_lookup_Some _ _ _ _ Eu).
    + rewrite lookup_take_ge by lia. symmetry. by apply lookup_ge_None.
  - rewrite Hbuf by lia. unfold lfn_unit.
    by rewrite Nat.ltb_irrefl, Nat.eqb_refl.
  - done.
  - intros i y Hi Hy. rewrite Hbuf in Hy by lia. injection Hy as <-. unfold lfn_unit.
    rewrite (proj2 (Nat.ltb_lt _ _)) by done.
    destruct (lookup_lt_is_Some_2 units i Hi) as [u Eu]. rewrite (nth_lookup_Some _ _ _ _ Eu).
    destruct (Forall_lookup_1 _ _ _ _ Hok Eu). by rewrite !(proj2 (Z.eqb_neq _ _)).
Qed.

Lemma encode_utf16_ok s : valid_str s → units_ok (encode_utf16 s).
Proof.
  intros (cs & Hcs & ->). unfold encode_utf16. rewrite decode_encode_utf8 by done.
  unfold units_ok. induction Hcs as [|c cs Hc _ IH]; [constructor|]. simpl.
  apply Forall_app. split; [|done]. unfold is_scalar in Hc. unfold encode_char16.
  destruct (Z.ltb_spec c 0x10000); repeat constructor; Z.div_mod_to_equations; lia.
Qed.

Lemma lfn_count_bounds units :
  (1 ≤ length units ≤ 255)%nat →
  (1 ≤ lfn_count units ≤ 20)%nat ∧ (length units < lfn_count units * 13)%nat.
Proof.
  intros H. unfold lfn_count. pose proof (Nat.div_mod (length units + 1 + 12) 13).
  pose proof (Nat.mod_upper_bound (length units + 1 + 12) 13). lia.
Qed.

Lemma lfn_record_list_ok units ck order count :
  (order ≤ count)%nat → (count ≤ 20)%nat →
  Forall (λ r, length r = 32%nat ∧ byte_of r 11 = 0x0f ∧ byte_of r 0 ≠ 0 ∧ byte_of r 0 ≠ 0xe5)
    (lfn_record_list units ck order count).
Proof.
  induction order as [|order IH]; intros Ho Hc; cbn [lfn_record_list]; constructor; [|apply IH; lia].
  split_and!; [apply lfn_record_length|apply lfn_record_attr|rewrite lfn_record_head..].
  - destruct (S order =? count)%nat.
    + intros E. apply Z.lor_eq_0_iff in E as [_ E]. done.
    + rewrite Z.lor_0_r. lia.
  - assert (Hlt : (S order < 21)%nat) by lia. clear -Hlt. generalize dependent (S order). intros n Hn.
    destruct (n =? count)%nat; (do 21 (destruct n as [|n]; [done|])); lia.
Qed.

(** What [lfn_records] gives when it succeeds. *)
Lemma lfn_records_inv name short records :
  lfn_records name short = Ok records →
  (1 ≤ length (encode_utf16 name) ≤ 255)%nat ∧
  Forall (λ u, 0x20 ≤ u) (encode_utf16 name) ∧
  records = lfn_record_list (encode_utf16 name) (lfn_checksum short)
    (lfn_count (encode_utf16 name)) (lfn_count (encode_utf16 name)).
Proof.
  unfold lfn_records. destruct (Z.eqb_spec (Z.of_nat (length (encode_utf16 name))) 0); [done|].
  destruct (Z.ltb_spec 255 (Z.of_nat (length (encode_utf16 name)))); [done|]. cbn [orb].
  destruct (existsb lfn_bad_unit (encode_utf16 name)) eqn:E; [done|]. intros [= <-].
  split; [lia|]. split; [|done]. apply Forall_forall. intros u Hu.
  destruct (Z.lt_ge_cases u 0x20) as [Hlt|]; [exfalso|done].
  apply not_true_iff_false in E. apply E. apply existsb_exists. exists u.
  split; [by apply list_elem_of_In|]. unfold lfn_bad_unit. by rewrite (proj2 (Z.ltb_lt _ _)).
Qed.

(** Long file names round trip.  If [lfn_records] accepts a name (without
    U+FFFF), then a directory scan that meets the records it makes, followed by
    the short entry, reads back exactly that name, whatever the scan saw before;
    and no record can be taken for a free slot or for the end of the directory. *)
Theorem long_name_roundtrip name short records e st :
  valid_str name → lfn_records name short = Ok records →
  0xffff ∉ encode_utf16 name → length (lfn st) = 260%nat →
  slot_name e (fold_left (λ st r, lfn_slot r st) records st) = name ∧
  Forall (λ r, length r = 32%nat ∧ byte_of r 11 = 0x0f ∧ byte_of r 0 ≠ 0 ∧ byte_of r 0 ≠ 0xe5)
    records.
Proof.
  intros Hv Hr Hff Hlen. destruct (lfn_records_inv _ _ _ Hr) as (Hn & Hlow & ->).
  destruct (lfn_count_bounds _ Hn) as [Hc Hc2].
  split; [|apply lfn_record_list_ok; lia].
  destruct (lfn_all_records (encode_utf16 name) (lfn_checksum short) _ st
    (encode_utf16_ok _ Hv) Hc Hc2 Hlen) as (H1 & H2 & H3).
  unfold slot_name. rewrite H1. rewrite (lfn_text_units _ (encode_utf16 name) H2 ltac:(lia)).
  - rewrite utf16_roundtrip by done. destruct name; [|done]. simpl in Hn. lia.
  - rewrite Forall_forall in Hlow |- *. intros u Hu. specialize (Hlow u Hu).
    split; [lia|]. by intros ->.
  - exact H3.
Qed.

Lemma long_name_roundtrip_witness :
  ∃ records, lfn_records (lit "A long file name.txt") (lit "ALONGF~1TXT") = Ok records ∧
    slot_name (lit "ALONGF~1TXT") (fold_left (λ st r, lfn_slot r st) records
      (mkLfn lfn_empty false)) = lit "A long file name.txt".
Proof.
  eexists. split; [vm_compute; reflexivity|].
  apply (long_name_roundtrip (lit "A long file name.txt") (lit "ALONGF~1TXT")).
  - exists (lit "A long file name.txt"). split; [repeat constructor|reflexivity].
  - vm_compute. reflexivity.
  - intros Hc%list_elem_of_In. vm_compute in Hc. intuition congruence.
  - reflexivity.
Defined.

(** the exception.  U+FFFF is accepted in a name and written as the unit
    that marks unused space, so the name read back stops before it. *)
Theorem long_name_ffff_lost :
  ∃ name records, valid_str name ∧ lfn_records name (lit "A~1        ") = Ok records ∧
    slot_name (lit "A~1        ") (fold_left (λ st r, lfn_slot r st) records
      (mkLfn lfn_empty false)) = lit "a" ∧ name ≠ lit "a".
Proof.
  exists (encode_utf8 [97; 0xffff; 98]). eexists. split_and!.
  - exists [97; 0xffff; 98]. split; [repeat constructor|done].
  - vm_compute. reflexivity.
  - vm_compute. reflexivity.
  - vm_compute. congruence.
Qed.

(** ** Short names round trip *)
Lemma short_char_props b :
  short_char b = true → 0 ≤ b → is_ascii b = true ∧ b ≠ SPACE ∧ b ≠ DOT.
Proof.
  unfold short_char. intros H H0.
  destruct (is_ascii_alphanumeric b) eqn:E.
  - unfold is_ascii_alphanumeric, is_lower, is_upper, is_digit in E.
    unfold is_ascii, SPACE, DOT. lia.
  - cbn [orb] in H. unfold short_punct in H. cbn -[Z.eqb] in H.
    rewrite !orb_true_iff, !Z.eqb_eq in H. unfold is_ascii, SPACE, DOT. lia.
Qed.

Lemma upper_short b :
  short_char b = true → 0 ≤ b → 0 ≤ to_ascii_uppercase b < 128 ∧ not_space (to_ascii_uppercase b) = true.
Proof.
  intros H H0. pose proof (short_char_props b H H0) as (Ha & Hs & _).
  unfold is_ascii, not_space, SPACE, to_ascii_uppercase in *.
  unfold is_lower. destruct (Z.leb_spec 97 b), (Z.leb_spec b 122); cbn [andb]; lia.
Qed.

Lemma encode_ascii s : Forall (λ b, 0 ≤ b < 128) s → encode_utf8 s = s.
Proof.
  induction 1 as [|b s Hb _ IH]; [done|]. unfold encode_utf8 in *. simpl. rewrite IH.
  unfold encode_char. by rewrite (proj2 (Z.ltb_lt _ _)) by lia.
Qed.

Lemma take_while_pad n s :
  Forall (λ b, not_space b = true) s → (length s ≤ n)%nat →
  take_while not_space (pad n s) = s.
Proof.
  intros Hs Hn. unfold pad. clear Hn. generalize (n - length s)%nat as k.
  induction Hs as [|b s Hb _ IH]; intros k; simpl.
  - by destruct k.
  - by rewrite Hb, IH.
Qed.

Lemma pad_length n s : (length s ≤ n)%nat → length (pad n s) = n.
Proof. intros. unfold pad. rewrite length_app, length_replicate. lia. Qed.

Lemma upper_part s :
  bytes_ok s → forallb short_char s = true →
  Forall (λ b, 0 ≤ b < 128) (map to_ascii_uppercase s) ∧
  Forall (λ b, not_space b = true) (map to_ascii_uppercase s).
Proof.
  intros Hb Hs. rewrite forallb_forall in Hs.
  split; apply Forall_forall; intros x Hx;
    apply list_elem_of_In, in_map_iff in Hx as (b & <- & Hin);
    (destruct (upper_short b); [by apply Hs|eapply Forall_forall in Hb; [apply Hb|by apply list_elem_of_In]|done]).
Qed.

(** Short names round trip, up to case.  A name without a final dot that
    [to_short_name] accepts is read back by [short_name] in upper case. *)
Theorem short_name_roundtrip name raw :
  bytes_ok name → last name ≠ Some DOT → to_short_name name = Ok raw →
  length raw = 11%nat ∧ short_name raw = map to_ascii_uppercase name.
Proof.
  intros Hb Hl. unfold to_short_name.
  pose proof (join_split_on DOT name) as Hj.
  destruct (split_on DOT name) as [|base rest]; [done|].
  destruct (Z.ltb_spec 1 (Z.of_nat (length rest))); [done|].
  destruct (Z.eqb_spec (Z.of_nat (length base)) 0); [done|].
  destruct (Z.ltb_spec 8 (Z.of_nat (length base))); [done|].
  destruct (Z.ltb_spec 3 (Z.of_nat (length (default [] (hd_error rest))))); [done|]. cbn [orb].
  destruct (forallb short_char base) eqn:Eb; [|done].
  destruct (forallb short_char (default [] (hd_error rest))) eqn:Ee; [|done]. cbn [negb orb].
  intros [= <-].
  assert (Hparts : bytes_ok base ∧ bytes_ok (default [] (hd_error rest)) ∧
    name = base ++ (match rest with [] => [] | ext :: _ => DOT :: ext end)).
  { destruct rest as [|ext [|]]; simpl in *; [| |lia]; subst name.
    - rewrite app_nil_r. split_and!; [done|constructor|done].
    - unfold bytes_ok in *. rewrite Forall_app, Forall_cons in Hb. naive_solver. }
  destruct Hparts as (Hbb & Hbe & ->).
  destruct (upper_part base Hbb Eb) as [Hu1 Hu2].
  destruct (upper_part _ Hbe Ee) as [Hv1 Hv2].
  set (ub := map to_ascii_uppercase base) in *.
  set (ue := map to_ascii_uppercase (default [] (hd_error rest))) in *.
  assert (length ub = length base) by apply length_map.
  assert (length ue = length (default [] (hd_error rest))) by apply length_map.
  split; [rewrite length_app, !pad_length by lia; done|].
  unfold short_name.
  rewrite take_app_length', drop_app_length' by (rewrite pad_length; lia).
  rewrite take_ge by (rewrite pad_length; lia).
  rewrite !take_while_pad, !encode_ascii by (done || lia).
  rewrite map_app. fold ub. destruct rest as [|ext [|]]; simpl in *; [by rewrite app_nil_r| |lia].
  unfold ue. destruct ext as [|x ext]; [|done]. exfalso. apply Hl. by rewrite last_snoc.
Qed.

Lemma short_name_roundtrip_witness :
  ∃ raw, to_short_name (lit "readme.txt") = Ok raw ∧ short_name raw = lit "README.TXT".
Proof.
  eexists. split; [vm_compute; reflexivity|].
  apply (short_name_roundtrip (lit "readme.txt")).
  - repeat constructor; unfold is_byte; simpl; lia.
  - vm_compute. congruence.
  - vm_compute. reflexivity.
Defined.
