(* ===== verification/Fat32.v ===== *)
(** * The FAT32 filesystem, [src/src/fat32.rs]

    Every method of [Fat32] over an arbitrary block device.  The fields that
    [mount] computes are the record [Fat32]; the device and the two atomics are
    the state.  [read_at] returns the bytes it copied out; the bytes of a
    caller's buffer after an error are not part of the model.

    Fuel: the loops that follow cluster chains stop by the source's own step
    counters, and their fuel is one more than the counter's limit. *)
From Stdlib Require Import String.
From stdpp Require Import base numbers list gmap sets.
From Stdlib Require Import ZArith Lia Bool.
From S2P Require Import Prelude Bytes Str Block FatNames.

Definition MAX_CHAIN_STEPS : Z := 1000000.
Definition END_OF_CHAIN : Z := 0x0fffffff.

Record DirEntry := mkDirEntry { name : str; is_dir : bool; size : Z }.

Record Fat32 := mkFat32 {
  sectors_per_cluster : Z;
  reserved_sectors : Z;
  fat_count : Z;
  sectors_per_fat : Z;
  root_cluster : Z;
  data_start : Z;
  cluster_count : Z;
  fsinfo_sector : option Z
}.

Record EntryLocation := mkLoc {
  loc_cluster : Z;
  loc_offset : Z;
  loc_first_cluster : Z;
  loc_size : Z;
  loc_is_dir : bool
}.

(** [u8::is_power_of_two]. *)
Definition is_power_of_two (x : Z) : bool := existsb (Z.eqb x) [1; 2; 4; 8; 16; 32; 64; 128].

(** [sector[at..at + 4]] as an integer, and stored. *)
Definition get32 {E} (sector : list Z) (at_ : Z) : res E Z := expect (le_at 4 sector at_).
Definition put {E} (sector : list Z) (at_ : Z) (src : list Z) : res E (list Z) :=
  expect (splice sector at_ src).

(** [[0u8; SECTOR_SIZE]]. *)
Definition zero_sector : list Z := replicate 512 0.

Section Fat.
Context {D : Type} `{BlockDevice D}.

Record FatState := mkFat {
  device : D;
  next_free_hint : Z;
  fsinfo_invalidated : bool
}.

Notation F := (M FatState FatError).

Definition mount (dev : D) : res FatError (Fat32 * FatState) :=
  let? b := map_err (λ _, FatIo) (Block.read_sector 0 dev) in
  if negb (byte_of b 510 =? 0x55) || negb (byte_of b 511 =? 0xaa) then Err InvalidBootSector
  else
    let bytes_per_sector := u16le b 11 in
    let spc := byte_of b 13 in
    let reserved := u16le b 14 in
    let fats := byte_of b 16 in
    let root_entries := u16le b 17 in
    let total := if negb (u16le b 19 =? 0) then u16le b 19 else u32le b 32 in
    let fat16_size := u16le b 22 in
    let spf := u32le b 36 in
    let root := Z.land (u32le b 44) 0x0fffffff in
    let fsinfo := u16le b 48 in
    if negb (bytes_per_sector =? SECTOR_SIZE) || (spc =? 0) || negb (is_power_of_two spc)
       || (reserved =? 0) || (fats =? 0) || (spf =? 0) || negb (root_entries =? 0)
       || negb (fat16_size =? 0) || (sector_count dev <? total) then Err FatUnsupported
    else
      let? fats_sectors := ok_or FatCorrupt (checked_mul fats spf) in
      let? data := ok_or FatCorrupt (checked_add reserved fats_sectors) in
      if total <=? data then Err InvalidBootSector
      else
        let count := wrap32 ((total - data) / spc) in
        let fat_entries := spf * SECTOR_SIZE / 4 in
        if (count <? 1) || (0x0ffffff5 <? count) || (fat_entries <? count + 2) || (root <? 2)
           || (count + 2 <=? root) then Err InvalidBootSector
        else
          Ok (mkFat32 spc reserved fats spf root data count
                (if negb (fsinfo =? 0) && (fsinfo <? reserved) then Some fsinfo else None),
              mkFat dev 2 false).

Definition f_read_sector (lba : Z) : F (list Z) := λ st,
  (map_err (λ _, FatIo) (Block.read_sector lba (device st)), st).

Definition f_write_sector (lba : Z) (data : list Z) : F unit := λ st,
  let '(r, d) := Block.write_sector lba data (device st) in
  (map_err (λ _, FatIo) r, mkFat d (next_free_hint st) (fsinfo_invalidated st)).

(** [Fat32::flush], with the device's own errors. *)
Definition f_flush : M FatState BlockError unit := λ st,
  let '(r, d) := Block.flush (device st) in
  (r, mkFat d (next_free_hint st) (fsinfo_invalidated st)).

Definition get_hint : F Z := λ st, (Ok (next_free_hint st), st).
Definition set_hint (h : Z) : F unit := λ st,
  (Ok tt, mkFat (device st) h (fsinfo_invalidated st)).
Definition get_invalidated : F bool := λ st, (Ok (fsinfo_invalidated st), st).
Definition set_invalidated : F unit := λ st,
  (Ok tt, mkFat (device st) (next_free_hint st) true).

Definition invalidate_fsinfo_hint (fs : Fat32) : F unit :=
  let! done_ := get_invalidated in
  if (done_ : bool) then ret tt
  else
    match fsinfo_sector fs with
    | None => set_invalidated
    | Some sector_no =>
        let! sector := f_read_sector sector_no in
        (if (u32le sector 0 =? 0x41615252) && (u32le sector 484 =? 0x61417272)
            && (u32le sector 508 =? 0xaa550000)
         then
           let! sector := lift (put sector 488 (le_bytes 4 u32_max)) in
           let! sector := lift (put sector 492 (le_bytes 4 u32_max)) in
           f_write_sector sector_no sector
         else ret tt) ;;!
        set_invalidated
    end.

(** ** The allocation table *)
Definition fat_entry (fs : Fat32) (cluster : Z) : F Z :=
  if cluster_count fs + 2 <=? cluster then fail FatCorrupt
  else
    let byte := cluster * 4 in
    let sector_in_fat := byte / SECTOR_SIZE in
    if sectors_per_fat fs <=? sector_in_fat then fail FatCorrupt
    else
      let! sector := f_read_sector (reserved_sectors fs + sector_in_fat) in
      let! v := lift (get32 sector (byte mod SECTOR_SIZE)) in
      ret (Z.land v 0x0fffffff).

Definition set_fat_entry (fs : Fat32) (cluster value : Z) : F unit :=
  if cluster_count fs + 2 <=? cluster then fail FatCorrupt
  else
    let byte := cluster * 4 in
    let sector_in_fat := byte / SECTOR_SIZE in
    if sectors_per_fat fs <=? sector_in_fat then fail FatCorrupt
    else
      invalidate_fsinfo_hint fs ;;!
      let at_ := byte mod SECTOR_SIZE in
      mfor (seqZ 0 (fat_count fs)) (λ fat,
        let lba := reserved_sectors fs + fat * sectors_per_fat fs + sector_in_fat in
        let! sector := f_read_sector lba in
        let! old := lift (get32 sector at_) in
        let! sector := lift (put sector at_
          (le_bytes 4 (Z.lor (Z.land old 0xf0000000) (Z.land value 0x0fffffff)))) in
        f_write_sector lba sector).

Definition cluster_lba (fs : Fat32) (cluster : Z) : res FatError Z :=
  if (cluster <? 2) || (cluster_count fs + 2 <=? cluster) then Err FatCorrupt
  else ok_or FatCorrupt
         (checked_add (data_start fs) ((cluster - 2) * sectors_per_cluster fs)).

Definition cluster_bytes (fs : Fat32) : Z := sectors_per_cluster fs * SECTOR_SIZE.

Definition zero_cluster (fs : Fat32) (cluster : Z) : F unit :=
  let! first := lift (cluster_lba fs cluster) in
  mfor (seqZ 0 (sectors_per_cluster fs)) (λ sector,
    f_write_sector (first + sector) zero_sector).

(** The search of [allocate_cluster], [n] steps left from [step]. *)
Fixpoint allocate_loop (fs : Fat32) (start step : Z) (n : nat) : F Z :=
  match n with
  | O => fail FatNoSpace
  | S n =>
      let count := cluster_count fs in
      let cluster := 2 + (start - 2 + step) mod count in
      let! entry := fat_entry fs cluster in
      if entry =? 0 then
        set_fat_entry fs cluster END_OF_CHAIN ;;!
        let! r := catch (E':=FatError) (zero_cluster fs cluster) in
        match r with
        | inr error =>
            ignore (set_fat_entry fs cluster 0) ;;!
            fail error
        | inl _ =>
            set_hint (if cluster =? count + 1 then 2 else cluster + 1) ;;!
            ret cluster
        end
      else allocate_loop fs start (step + 1) n
  end.

Definition allocate_cluster (fs : Fat32) : F Z :=
  let count := cluster_count fs in
  let! hint := get_hint in
  let start := Z.max 2 (Z.min hint (count + 1)) in
  allocate_loop fs start 0 (Z.to_nat count).

Definition next_cluster (fs : Fat32) (cluster : Z) : F (option Z) :=
  if (cluster <? 2) || (cluster_count fs + 2 <=? cluster) then fail FatCorrupt
  else
    let! next := fat_entry fs cluster in
    if 0x0ffffff8 <=? next then ret None
    else if (next =? 0) || (next =? 1) || ((0x0ffffff0 <=? next) && (next <=? 0x0ffffff7)) then
      fail FatCorrupt
    else if (next <? 2) || (cluster_count fs + 2 <=? next) then fail FatCorrupt
    else ret (Some next).

(** The sectors of a cluster from [lba], [n] of them. *)
Fixpoint read_sectors (lba : Z) (n : nat) : F (list Z) :=
  match n with
  | O => ret []
  | S n =>
      let! sector := f_read_sector lba in
      let! rest := read_sectors (lba + 1) n in
      ret (sector ++ rest)
  end.

Definition read_cluster (fs : Fat32) (cluster : Z) : F (list Z) :=
  let! first := lift (cluster_lba fs cluster) in
  read_sectors first (Z.to_nat (sectors_per_cluster fs)).

(** The loop of [collect_chain]. *)
Fixpoint collect_loop (fs : Fat32) (fuel : nat) (current : option Z) (chain : list Z) :
    F (list Z) :=
  match current with
  | None => ret chain
  | Some cluster =>
      match fuel with
      | O => diverge
      | S fuel =>
          if cluster_count fs <=? Z.of_nat (length chain) then fail FatCorrupt
          else
            let! next := next_cluster fs cluster in
            collect_loop fs fuel next (chain ++ [cluster])
      end
  end.

Definition collect_chain (fs : Fat32) (first : Z) : F (list Z) :=
  collect_loop fs (S (Z.to_nat (cluster_count fs)))
    (if first =? 0 then None else Some first) [].

Definition release_chain (fs : Fat32) (chain : list Z) : F unit :=
  mfor chain (λ cluster,
    set_fat_entry fs cluster 0 ;;!
    let! hint := get_hint in
    set_hint (Z.min hint cluster)).

(** ** Directories *)

(** [data.chunks_exact(32)]. *)
Fixpoint chunks32 (fuel : nat) (data : list Z) : list (list Z) :=
  match fuel with
  | O => []
  | S fuel =>
      if (length data <? 32)%nat then [] else take 32 data :: chunks32 fuel (drop 32 data)
  end.
Definition slots (data : list Z) : list (list Z) := chunks32 (length data) data.

(** One pass over the slots of a cluster in [directory_entries]: [inr] when the
    end marker was met. *)
Fixpoint dir_slots (es : list (list Z)) (st : LfnState) (out : list (DirEntry * Z)) :
    (LfnState * list (DirEntry * Z)) + list (DirEntry * Z) :=
  match es with
  | [] => inl (st, out)
  | e :: es =>
      if byte_of e 0 =? 0 then inr out
      else if byte_of e 0 =? 0xe5 then dir_slots es (mkLfn (lfn st) false) out
      else if byte_of e 11 =? 0x0f then dir_slots es (lfn_slot e st) out
      else if slot_is_label e then dir_slots es (mkLfn (lfn st) false) out
      else
        let nm := slot_name e st in
        let st := mkLfn (lfn st) false in
        if str_eqb nm (lit ".") || str_eqb nm (lit "..") then dir_slots es st out
        else dir_slots es st
               (out ++ [(mkDirEntry nm (slot_is_dir e) (slot_size e), slot_cluster e)])
  end.

Fixpoint directory_loop (fs : Fat32) (fuel : nat) (current : option Z) (steps : Z)
    (st : LfnState) (out : list (DirEntry * Z)) : F (list (DirEntry * Z)) :=
  match current with
  | None => ret out
  | Some c =>
      match fuel with
      | O => diverge
      | S fuel =>
          if MAX_CHAIN_STEPS <=? steps then fail FatCorrupt
          else
            let! data := read_cluster fs c in
            match dir_slots (slots data) st out with
            | inr out => ret out
            | inl (st, out) =>
                let! next := next_cluster fs c in
                directory_loop fs fuel next (steps + 1) st out
            end
      end
  end.

Definition directory_entries (fs : Fat32) (cluster : Z) : F (list (DirEntry * Z)) :=
  directory_loop fs (S (Z.to_nat MAX_CHAIN_STEPS)) (Some cluster) 0 (mkLfn lfn_empty false) [].

Definition root_entry : DirEntry := mkDirEntry (lit "/") true 0.

(** The loop over the components of a path in [resolve]. *)
Fixpoint resolve_loop (fs : Fat32) (components : list str) (cluster : Z)
    (last : option (DirEntry * Z)) : F (DirEntry * Z) :=
  match components with
  | [] => ret (default (root_entry, cluster) last)
  | component :: components =>
      if str_eqb component [] || str_eqb component (lit ".") then
        resolve_loop fs components cluster last
      else if str_eqb component (lit "..") then fail FatNotFound
      else if match last with Some (e, _) => negb (is_dir e) | None => false end then
        fail FatNotDirectory
      else
        let! entries := directory_entries fs cluster in
        match List.find (λ ec, eq_ignore_ascii_case (name (fst ec)) component) entries with
        | None => fail FatNotFound
        | Some found => resolve_loop fs components (snd found) (Some found)
        end
  end.

Definition resolve (fs : Fat32) (path : str) : F (DirEntry * Z) :=
  let clean := trim_matches SLASH path in
  if str_eqb clean [] then ret (root_entry, root_cluster fs)
  else resolve_loop fs (split_on SLASH clean) (root_cluster fs) None.

Definition stat (fs : Fat32) (path : str) : F DirEntry :=
  let! x := resolve fs path in ret (fst x).

Definition list_dir (fs : Fat32) (path : str) : F (list DirEntry) :=
  let! (entry, cluster) := resolve fs path in
  if negb (is_dir entry) then fail FatNotDirectory
  else let! entries := directory_entries fs cluster in ret (map fst entries).

(** *** Reading a file *)

(** [next_cluster(c)?.ok_or(Corrupt)?]. *)
Definition next_or_corrupt (fs : Fat32) (cluster : Z) : F Z :=
  let! next := next_cluster fs cluster in
  match next with Some c => ret c | None => fail FatCorrupt end.

(** Skip [skip] clusters; the cluster reached and the steps taken. *)
Fixpoint skip_clusters (fs : Fat32) (skip : nat) (cluster steps : Z) : F (Z * Z) :=
  match skip with
  | O => ret (cluster, steps)
  | S skip =>
      let! cluster := next_or_corrupt fs cluster in
      let steps := steps + 1 in
      if MAX_CHAIN_STEPS <? steps then fail FatCorrupt
      else skip_clusters fs skip cluster steps
  end.

(** The copying loop: [acc] is what was copied out so far. *)
Fixpoint read_loop (fs : Fat32) (fuel : nat) (cluster in_cluster steps wanted : Z)
    (acc : list Z) : F (list Z) :=
  let copied := Z.of_nat (length acc) in
  if copied <? wanted then
    match fuel with
    | O => diverge
    | S fuel =>
        if MAX_CHAIN_STEPS <=? steps then fail FatCorrupt
        else
          let! data := read_cluster fs cluster in
          let n := Z.min (wanted - copied) (cluster_bytes fs - in_cluster) in
          let! piece := lift (expect (slice data in_cluster n)) in
          let acc := acc ++ piece in
          let! cluster :=
            if Z.of_nat (length acc) <? wanted then next_or_corrupt fs cluster
            else ret cluster in
          read_loop fs fuel cluster 0 (steps + 1) wanted acc
    end
  else ret acc.

(** [wanted] bytes from [offset] of the chain that starts at [cluster]. *)
Definition read_from (fs : Fat32) (cluster offset wanted : Z) : F (list Z) :=
  let! (cluster, steps) :=
    skip_clusters fs (Z.to_nat (offset / cluster_bytes fs)) cluster 0 in
  read_loop fs (S (Z.to_nat wanted)) cluster (offset mod cluster_bytes fs) steps wanted [].

Definition read_at (fs : Fat32) (path : str) (offset out_len : Z) : F (list Z) :=
  let! (entry, cluster) := resolve fs path in
  if is_dir entry then fail FatIsDirectory
  else if (size entry <=? offset) || (out_len =? 0) then ret []
  else
    read_from fs cluster offset (Z.min out_len (size entry - offset)).

Definition read_file (fs : Fat32) (path : str) : F (list Z) :=
  let! entry := stat fs path in
  if is_dir entry then fail FatIsDirectory
  else if 64 * 1024 * 1024 <? size entry then fail FatTooLarge
  else
    let! result := read_at fs path 0 (size entry) in
    if negb (Z.of_nat (length result) =? size entry) then fail FatCorrupt else ret result.

(** *** Looking up a directory slot *)
Definition slot_loc (cluster index : Z) (e : list Z) : EntryLocation :=
  mkLoc cluster (index * 32) (slot_cluster e) (slot_size e) (slot_is_dir e).

(** One cluster of [find_short_entry]: [inr] is the method's answer. *)
Fixpoint short_slots (es : list (list Z)) (cluster index : Z) (short : list Z) :
    unit + option EntryLocation :=
  match es with
  | [] => inl tt
  | e :: es =>
      if byte_of e 0 =? 0 then inr None
      else if (byte_of e 0 =? 0xe5) || (byte_of e 11 =? 0x0f) || slot_is_label e then
        short_slots es cluster (index + 1) short
      else if str_eqb (take 11 e) short then inr (Some (slot_loc cluster index e))
      else short_slots es cluster (index + 1) short
  end.

Fixpoint find_short_loop (fs : Fat32) (fuel : nat) (current : option Z) (steps : Z)
    (short : list Z) : F (option EntryLocation) :=
  match current with
  | None => ret None
  | Some cluster =>
      match fuel with
      | O => diverge
      | S fuel =>
          if cluster_count fs <=? steps then fail FatCorrupt
          else
            let! data := read_cluster fs cluster in
            match short_slots (slots data) cluster 0 short with
            | inr r => ret r
            | inl _ =>
                let! next := next_cluster fs cluster in
                find_short_loop fs fuel next (steps + 1) short
            end
      end
  end.

Definition find_short_entry (fs : Fat32) (directory : Z) (short : list Z) :
    F (option EntryLocation) :=
  find_short_loop fs (S (Z.to_nat (cluster_count fs))) (Some directory) 0 short.

(** One cluster of [find_named_entry]. *)
Fixpoint named_slots (es : list (list Z)) (cluster index : Z) (nm : str) (st : LfnState) :
    LfnState + option EntryLocation :=
  match es with
  | [] => inl st
  | e :: es =>
      if byte_of e 0 =? 0 then inr None
      else if byte_of e 0 =? 0xe5 then
        named_slots es cluster (index + 1) nm (mkLfn (lfn st) false)
      else if byte_of e 11 =? 0x0f then named_slots es cluster (index + 1) nm (lfn_slot e st)
      else if slot_is_label e then
        named_slots es cluster (index + 1) nm (mkLfn (lfn st) false)
      else if eq_ignore_ascii_case (slot_name e st) nm then
        inr (Some (slot_loc cluster index e))
      else named_slots es cluster (index + 1) nm (mkLfn (lfn st) false)
  end.

Fixpoint find_named_loop (fs : Fat32) (fuel : nat) (current : option Z) (steps : Z)
    (nm : str) (st : LfnState) : F (option EntryLocation) :=
  match current with
  | None => ret None
  | Some cluster =>
      match fuel with
      | O => diverge
      | S fuel =>
          if cluster_count fs <=? steps then fail FatCorrupt
          else
            let! data := read_cluster fs cluster in
            match named_slots (slots data) cluster 0 nm st with
            | inr r => ret r
            | inl st =>
                let! next := next_cluster fs cluster in
                find_named_loop fs fuel next (steps + 1) nm st
            end
      end
  end.

Definition find_named_entry (fs : Fat32) (directory : Z) (nm : str) :
    F (option EntryLocation) :=
  find_named_loop fs (S (Z.to_nat (cluster_count fs))) (Some directory) 0 nm
    (mkLfn lfn_empty false).

(** The characters [parent_and_name] rejects: [\\ : * ? quote < > |]. *)
Definition bad_name_char (b : Z) : bool := existsb (Z.eqb b) (34 :: lit "\:*?<>|").

Definition parent_and_name (fs : Fat32) (path : str) : F (Z * str) :=
  let clean := trim_matches SLASH path in
  let (parent_path, nm) := default ([], clean) (rsplit_once SLASH clean) in
  if str_eqb nm [] || str_eqb nm (lit ".") || str_eqb nm (lit "..") then fail FatInvalidName
  else
    let! parent :=
      if str_eqb parent_path [] then ret (root_cluster fs)
      else
        let! (entry, cluster) := resolve fs parent_path in
        if negb (is_dir entry) then fail FatNotDirectory else ret cluster in
    if (255 <? Z.of_nat (length nm)) || ends_with [DOT] nm || ends_with [SPACE] nm
       || existsb bad_name_char nm then fail FatInvalidName
    else ret (parent, nm).

(** ** Changing directories *)
Definition write_directory_bytes (fs : Fat32) (cluster offset : Z) (bytes : list Z) : F unit :=
  let! first := lift (cluster_lba fs cluster) in
  let lba := first + offset / SECTOR_SIZE in
  let in_sector := offset mod SECTOR_SIZE in
  if SECTOR_SIZE <? in_sector + Z.of_nat (length bytes) then fail FatCorrupt
  else
    let! sector := f_read_sector lba in
    let! sector := lift (put sector in_sector bytes) in
    f_write_sector lba sector.

Definition read_entry (fs : Fat32) (loc : EntryLocation) : F (list Z) :=
  let! first := lift (cluster_lba fs (loc_cluster loc)) in
  let! sector := f_read_sector (first + loc_offset loc / SECTOR_SIZE) in
  lift (expect (slice sector (loc_offset loc mod SECTOR_SIZE) 32)).

Definition write_entry (fs : Fat32) (loc : EntryLocation) (entry : list Z) : F unit :=
  write_directory_bytes fs (loc_cluster loc) (loc_offset loc) entry.

(** The first cluster of a file in its directory entry, as two halves. *)
Definition put_cluster {E} (entry : list Z) (cluster : Z) : res E (list Z) :=
  let? entry := put entry 20 (le_bytes 2 (Z.shiftr cluster 16)) in
  put entry 26 (le_bytes 2 cluster).

Definition write_entry_metadata (fs : Fat32) (loc : EntryLocation) (first sz : Z) : F unit :=
  let! entry := read_entry fs loc in
  let! entry := lift (put_cluster entry first) in
  let! entry := lift (put entry 28 (le_bytes 4 sz)) in
  write_entry fs loc entry.

(** *** Short aliases *)
Definition sanitize_char (c : Z) : Z :=
  if negb (is_ascii c) then 95
  else
    let upper := to_ascii_uppercase c in
    if short_char upper then upper else 95.

(** The characters of a part but the dots, made fit for a short name. *)
Definition sanitize (part : str) : list Z :=
  map sanitize_char (List.filter (λ c, negb (c =? DOT)) (decode_utf8_lossy part)).

(** [format!("~{}", serial)]. *)
Fixpoint decimal (fuel : nat) (n : Z) : list Z :=
  match fuel with
  | O => []
  | S fuel => if n <? 10 then [48 + n] else decimal fuel (n / 10) ++ [48 + n mod 10]
  end.
Definition alias_suffix (serial : Z) : list Z := 126 :: decimal 20 serial.

Definition alias (stem ext : list Z) (serial : Z) : list Z :=
  let suffix := alias_suffix serial in
  let prefix := take (8 - length suffix) stem in
  pad 8 (prefix ++ suffix) ++ pad 3 ext.

(** The serials from [serial], [n] of them. *)
Fixpoint alias_loop (fs : Fat32) (directory : Z) (stem ext : list Z) (serial : Z) (n : nat) :
    F (list Z) :=
  match n with
  | O => fail FatNoSpace
  | S n =>
      let raw := alias stem ext serial in
      let! found := find_short_entry fs directory raw in
      match found with
      | None => ret raw
      | Some _ => alias_loop fs directory stem ext (serial + 1) n
      end
  end.

Definition choose_short_alias (fs : Fat32) (directory : Z) (nm : str) : F (list Z) :=
  let! direct :=
    match to_short_name nm with
    | Ok short =>
        let! found := find_short_entry fs directory short in
        ret (match found with None => Some short | Some _ => None end)
    | _ => ret None
    end in
  match direct with
  | Some short => ret short
  | None =>
      let (stem, ext) := default (nm, []) (rsplit_once DOT nm) in
      let stem := sanitize stem in
      let ext := take 3 (sanitize ext) in
      let stem := match stem with [] => lit "FILE" | _ => stem end in
      alias_loop fs directory stem ext 1 (Z.to_nat 99999)
  end.

(** *** Growing a directory *)

(** The pass that turns the slots behind the end marker of one cluster into
    deleted ones. *)
Fixpoint mark_slots (fs : Fat32) (cluster : Z) (es : list (list Z)) (index : Z)
    (after_end : bool) : F bool :=
  match es with
  | [] => ret after_end
  | e :: es =>
      let after_end := after_end || (byte_of e 0 =? 0) in
      (if after_end then write_directory_bytes fs cluster (index * 32) [0xe5] else ret tt) ;;!
      mark_slots fs cluster es (index + 1) after_end
  end.

Fixpoint mark_clusters (fs : Fat32) (chain : list Z) (after_end : bool) : F unit :=
  match chain with
  | [] => ret tt
  | cluster :: chain =>
      let! data := read_cluster fs cluster in
      let! after_end := mark_slots fs cluster (slots data) 0 after_end in
      mark_clusters fs chain after_end
  end.

(** Allocate [n] clusters; give all of them back if one is missing. *)
Fixpoint allocate_many (fs : Fat32) (n : nat) (added : list Z) : F (list Z) :=
  match n with
  | O => ret added
  | S n =>
      let! r := catch (E':=FatError) (allocate_cluster fs) in
      match r with
      | inl cluster => allocate_many fs n (added ++ [cluster])
      | inr error => ignore (release_chain fs added) ;;! fail error
      end
  end.

(** A write that on failure releases [added]. *)
Definition or_release (fs : Fat32) (added : list Z) (m : F unit) : F unit :=
  let! r := catch (E':=FatError) m in
  match r with
  | inl _ => ret tt
  | inr error => ignore (release_chain fs added) ;;! fail error
  end.

(** Link the clusters of a list to each other ([windows(2)]). *)
Fixpoint link_pairs (fs : Fat32) (added : list Z) (l : list Z) : F unit :=
  match l with
  | a :: ((b :: _) as l') => or_release fs added (set_fat_entry fs a b) ;;! link_pairs fs added l'
  | _ => ret tt
  end.

Definition div_ceil (a b : Z) : Z := (a + b - 1) / b.

(** Write the records into the added clusters, from record [i]. *)
Fixpoint write_records (fs : Fat32) (added : list Z) (records : list (list Z)) (i : Z) : F unit :=
  match records with
  | [] => ret tt
  | record :: records =>
      let byte_offset := i * 32 in
      let! cluster := lift (expect (added !! Z.to_nat (byte_offset / cluster_bytes fs))) in
      write_directory_bytes fs cluster (byte_offset mod cluster_bytes fs) record ;;!
      write_records fs added records (i + 1)
  end.

Definition append_directory_records (fs : Fat32) (directory : Z) (records : list (list Z)) :
    F unit :=
  let! chain := collect_chain fs directory in
  match last chain with
  | None => fail FatCorrupt
  | Some tail =>
      mark_clusters fs chain false ;;!
      let slots_needed := Z.of_nat (length records) + 1 in
      let clusters_needed := div_ceil (slots_needed * 32) (cluster_bytes fs) in
      let! added := allocate_many fs (Z.to_nat clusters_needed) [] in
      link_pairs fs added added ;;!
      let! first := lift (expect (hd_error added)) in
      or_release fs added (set_fat_entry fs tail first) ;;!
      write_records fs added records 0
  end.

(** ** Changing files *)
Definition rollback_chain_growth (fs : Fat32) (chain : list Z) (original_len : nat) : F unit :=
  (match original_len with
   | O => ret tt
   | S k =>
       let! c := lift (expect (chain !! k)) in
       ignore (set_fat_entry fs c END_OF_CHAIN)
   end) ;;!
  ignore (release_chain fs (drop original_len chain)).

(** The loop of [ensure_chain], [n] clusters missing. *)
Fixpoint ensure_loop (fs : Fat32) (original_len : nat) (n : nat) (chain : list Z) :
    F (list Z) :=
  match n with
  | O => ret chain
  | S n =>
      let! r := catch (E':=FatError) (allocate_cluster fs) in
      match r with
      | inr error => rollback_chain_growth fs chain original_len ;;! fail error
      | inl new_cluster =>
          (match last chain with
           | None => ret tt
           | Some previous =>
               let! r := catch (E':=FatError) (set_fat_entry fs previous new_cluster) in
               match r with
               | inl _ => ret tt
               | inr error =>
                   ignore (set_fat_entry fs new_cluster 0) ;;!
                   rollback_chain_growth fs chain original_len ;;!
                   fail error
               end
           end) ;;!
          ensure_loop fs original_len n (chain ++ [new_cluster])
      end
  end.

(** The whole chain, and the clusters added. *)
Definition ensure_chain (fs : Fat32) (chain : list Z) (needed : Z) : F (list Z * list Z) :=
  let original_len := length chain in
  let! chain := ensure_loop fs original_len (Z.to_nat needed - original_len) chain in
  ret (chain, drop original_len chain).

Fixpoint write_chain_loop (fs : Fat32) (fuel : nat) (chain : list Z) (offset : Z)
    (data : list Z) : F unit :=
  match data with
  | [] => ret tt
  | _ =>
      match fuel with
      | O => diverge
      | S fuel =>
          let ci := offset / cluster_bytes fs in
          match chain !! Z.to_nat ci with
          | None => fail FatCorrupt
          | Some cluster =>
              let in_cluster := offset mod cluster_bytes fs in
              let sector_index := in_cluster / SECTOR_SIZE in
              let in_sector := in_cluster mod SECTOR_SIZE in
              let n := Z.min (Z.of_nat (length data)) (SECTOR_SIZE - in_sector) in
              let! first := lift (cluster_lba fs cluster) in
              let lba := first + sector_index in
              let! sector := f_read_sector lba in
              let! sector := lift (put sector in_sector (take (Z.to_nat n) data)) in
              f_write_sector lba sector ;;!
              write_chain_loop fs fuel chain (offset + n) (drop (Z.to_nat n) data)
          end
      end
  end.

Definition write_chain_range (fs : Fat32) (chain : list Z) (offset : Z) (data : list Z) : F unit :=
  write_chain_loop fs (length data) chain offset data.

Fixpoint write_zero_loop (fs : Fat32) (fuel : nat) (chain : list Z) (offset len : Z) : F unit :=
  if len =? 0 then ret tt
  else
    match fuel with
    | O => diverge
    | S fuel =>
        let in_sector := offset mod SECTOR_SIZE in
        let n := Z.min len (SECTOR_SIZE - in_sector) in
        write_chain_range fs chain offset (replicate (Z.to_nat n) 0) ;;!
        write_zero_loop fs fuel chain (offset + n) (len - n)
    end.

Definition write_zero_range (fs : Fat32) (chain : list Z) (offset len : Z) : F unit :=
  write_zero_loop fs (Z.to_nat (len / SECTOR_SIZE + 2)) chain offset len.

(** A 32-byte entry with a short name and attributes. *)
Definition new_entry (short : list Z) (attr : Z) : list Z :=
  <[11%nat := attr]> (short ++ replicate 21 0).

Definition create_file (fs : Fat32) (path : str) : F unit :=
  let! (parent, nm) := parent_and_name fs path in
  let! existing := find_named_entry fs parent nm in
  match existing with
  | Some e => if loc_is_dir e then fail FatIsDirectory else ret tt
  | None =>
      let! short := choose_short_alias fs parent nm in
      let! records := lift (lfn_records nm short) in
      append_directory_records fs parent (records ++ [new_entry short 0x20])
  end.

Definition dot_name : list Z := pad 11 (lit ".").
Definition dotdot_name : list Z := pad 11 (lit "..").

(** What [create_dir] does once it has a cluster. *)
Definition fill_new_dir (fs : Fat32) (parent : Z) (nm : str) (cluster : Z) : F unit :=
  let! dot := lift (put_cluster (new_entry dot_name 0x10) cluster) in
  let! dotdot := lift (put_cluster (new_entry dotdot_name 0x10) parent) in
  write_directory_bytes fs cluster 0 dot ;;!
  write_directory_bytes fs cluster 32 dotdot ;;!
  let! short := choose_short_alias fs parent nm in
  let! records := lift (lfn_records nm short) in
  let! entry := lift (put_cluster (new_entry short 0x10) cluster) in
  append_directory_records fs parent (records ++ [entry]).

Definition create_dir (fs : Fat32) (path : str) : F unit :=
  let! (parent, nm) := parent_and_name fs path in
  let! existing := find_named_entry fs parent nm in
  match existing with
  | Some _ => fail FatAlreadyExists
  | None =>
      let! cluster := allocate_cluster fs in
      let! r := catch (E':=FatError) (fill_new_dir fs parent nm cluster) in
      match r with
      | inl _ => ret tt
      | inr error => ignore (release_chain fs [cluster]) ;;! fail error
      end
  end.

(** One directory cluster of [remove]: the slots to delete if the entry is
    here, and the long-name slots pending otherwise. *)
Fixpoint remove_slots (es : list (list Z)) (cluster index : Z) (loc : EntryLocation)
    (pending : list EntryLocation) : list EntryLocation * list EntryLocation :=
  match es with
  | [] => ([], pending)
  | e :: es =>
      if byte_of e 0 =? 0 then ([], pending)
      else if byte_of e 0 =? 0xe5 then remove_slots es cluster (index + 1) loc []
      else
        let here := mkLoc cluster (index * 32) 0 0 false in
        if byte_of e 11 =? 0x0f then
          remove_slots es cluster (index + 1) loc (pending ++ [here])
        else if (cluster =? loc_cluster loc) && (index * 32 =? loc_offset loc) then
          (pending ++ [here], [])
        else remove_slots es cluster (index + 1) loc []
  end.

Fixpoint remove_find (fs : Fat32) (dir_chain : list Z) (loc : EntryLocation)
    (pending : list EntryLocation) : F (list EntryLocation) :=
  match dir_chain with
  | [] => ret []
  | cluster :: dir_chain =>
      let! data := read_cluster fs cluster in
      let (found, pending) := remove_slots (slots data) cluster 0 loc pending in
      match found with
      | [] => remove_find fs dir_chain loc pending
      | _ => ret found
      end
  end.

Definition remove (fs : Fat32) (path : str) : F unit :=
  let! (parent, nm) := parent_and_name fs path in
  let! o := find_named_entry fs parent nm in
  match o with
  | None => fail FatNotFound
  | Some location =>
      let! nonempty :=
        if loc_is_dir location then
          let! entries := directory_entries fs (loc_first_cluster location) in
          ret (negb (Z.of_nat (length entries) =? 0))
        else ret false in
      if (nonempty : bool) then fail FatDirectoryNotEmpty
      else
        let! chain := collect_chain fs (loc_first_cluster location) in
        let! dir_chain := collect_chain fs parent in
        let! found := remove_find fs dir_chain location [] in
        match found with
        | [] => fail FatCorrupt
        | _ =>
            mfor found (λ loc,
              let! entry := read_entry fs loc in
              write_entry fs loc (<[0%nat := 0xe5]> entry)) ;;!
            release_chain fs chain
        end
  end.

Definition truncate (fs : Fat32) (path : str) : F unit :=
  let! (parent, nm) := parent_and_name fs path in
  let! o := find_named_entry fs parent nm in
  match o with
  | None => fail FatNotFound
  | Some location =>
      if loc_is_dir location then fail FatIsDirectory
      else
        let! chain := collect_chain fs (loc_first_cluster location) in
        write_entry_metadata fs location 0 0 ;;!
        release_chain fs chain
  end.

Definition write_at (fs : Fat32) (path : str) (offset : Z) (data : list Z) : F Z :=
  match data with
  | [] => ret 0
  | _ =>
      let! end_ := lift (ok_or FatTooLarge (checked_add offset (Z.of_nat (length data)))) in
      if u32_max <? end_ then fail FatTooLarge
      else
        let! (parent, nm) := parent_and_name fs path in
        let! o := find_named_entry fs parent nm in
        match o with
        | None => fail FatNotFound
        | Some location =>
            if loc_is_dir location then fail FatIsDirectory
            else
              let! chain := collect_chain fs (loc_first_cluster location) in
              let needed_bytes := Z.max (loc_size location) end_ in
              let needed_clusters := div_ceil needed_bytes (cluster_bytes fs) in
              let original_len := length chain in
              let! (chain, added) := ensure_chain fs chain needed_clusters in
              let first := default 0 (hd_error chain) in
              let! r := catch (E':=FatError) (
                (if loc_size location <? offset
                 then write_zero_range fs chain (loc_size location) (offset - loc_size location)
                 else ret tt) ;;!
                write_chain_range fs chain offset data ;;!
                write_entry_metadata fs location first needed_bytes) in
              match r with
              | inl _ => ret (Z.of_nat (length data))
              | inr error =>
                  (match added with
                   | [] => ret tt
                   | _ => rollback_chain_growth fs chain original_len
                   end) ;;!
                  fail error
              end
        end
  end.
End Fat.
Arguments FatState : clear implicits.
