(* ===== verification/FatTable.v ===== *)
(** * The allocation table of a mounted FAT32 volume

    What [mount] establishes, and the specification of the operations of
    [Fat32] on the allocation table and on clusters, over a reliable device:
    the table as a function from clusters to entries, a cluster as its bytes,
    a file as the bytes along its chain. *)
From stdpp Require Import base numbers list gmap sets.
From Stdlib Require Import ZArith Lia Bool.
From S2P Require Import Prelude Bytes Str Block FatNames Fat32.

(** The geometry of a volume of [n] sectors. *)
Record geometry (fs : Fat32) (n : Z) : Prop := {
  geo_spc : 1 ≤ sectors_per_cluster fs ≤ 128;
  geo_reserved : 1 ≤ reserved_sectors fs;
  geo_fats : 1 ≤ fat_count fs;
  geo_spf : 1 ≤ sectors_per_fat fs;
  geo_data : data_start fs = reserved_sectors fs + fat_count fs * sectors_per_fat fs;
  geo_count : 1 ≤ cluster_count fs ≤ 0x0ffffff5;
  geo_entries : (cluster_count fs + 2) * 4 ≤ sectors_per_fat fs * SECTOR_SIZE;
  geo_fits : data_start fs + cluster_count fs * sectors_per_cluster fs ≤ n;
  geo_root : 2 ≤ root_cluster fs < cluster_count fs + 2;
  geo_fsinfo : ∀ s, fsinfo_sector fs = Some s → 0 < s < reserved_sectors fs
}.

Section Table.
Context {D : Type} `{HD : BlockDevice D} `{HR : !ReliableDevice D}.

Implicit Types st : FatState D.

Definition fat_ok (fs : Fat32) st : Prop :=
  dev_ok (device st) ∧ geometry fs (sector_count (device st)).

(** The sector of a device. *)
Definition sec st (lba : Z) : list Z := dev_data (device st) lba.

(** Two states with the same sectors, but those in [P]. *)
Definition same_but (P : Z → Prop) st st' : Prop :=
  sector_count (device st') = sector_count (device st) ∧
  ∀ lba, 0 ≤ lba < sector_count (device st) → ¬ P lba → sec st' lba = sec st lba.

Lemma same_but_refl P st : same_but P st st.
Proof using. done. Qed.

Lemma same_but_trans P st1 st2 st3 :
  same_but P st1 st2 → same_but P st2 st3 → same_but P st1 st3.
Proof using.
  intros [H1 H2] [H3 H4]. split; [congruence|]. intros lba Hl HP.
  rewrite H4, H2; [done..|congruence|done].
Qed.

Lemma same_but_weaken (P Q : Z → Prop) st st' :
  (∀ l, P l → Q l) → same_but P st st' → same_but Q st st'.
Proof using. intros HPQ [H1 H2]. split; [done|]. intros lba Hl HQ. apply H2; naive_solver. Qed.

Lemma read_spec fs st lba :
  fat_ok fs st → 0 ≤ lba < sector_count (device st) →
  f_read_sector lba st = (Ok (sec st lba), st) ∧ sector_ok (sec st lba).
Proof using.
  intros [Hd _] Hl. unfold f_read_sector. rewrite dev_read by done.
  split; [done|by apply dev_sector].
Qed.

Lemma write_spec fs st lba s :
  fat_ok fs st → 0 ≤ lba < sector_count (device st) → sector_ok s →
  ∃ st', f_write_sector lba s st = (Ok tt, st') ∧ fat_ok fs st' ∧
    same_but (λ l, l = lba) st st' ∧ sec st' lba = s ∧
    next_free_hint st' = next_free_hint st ∧
    fsinfo_invalidated st' = fsinfo_invalidated st.
Proof using.
  intros [Hd Hg] Hl Hs. destruct (dev_write (device st) lba s Hd Hl Hs) as (d' & E & Hd' & Hc & Hdata).
  unfold f_write_sector. rewrite E. eexists. split; [reflexivity|].
  split; [split; [done|simpl; by rewrite Hc]|].
  split; [split; [done|]|].
  - intros l Hl' Hne. unfold sec. simpl. rewrite Hdata by done. by rewrite decide_False.
  - unfold sec. simpl. rewrite Hdata by done. by rewrite decide_True.
Qed.

(** A little-endian word of a sector. *)
Definition word_of (s : list Z) (at_ : Z) : Z := default 0 (le_at 4 s at_).

Lemma get32_spec {E} s at_ :
  sector_ok s → 0 ≤ at_ ≤ 508 → get32 (E:=E) s at_ = Ok (word_of s at_) ∧ 0 ≤ word_of s at_ < 2^32.
Proof using.
  intros [Hlen Hb] Ha. unfold get32, word_of.
  destruct (le_at_spec 4 s at_ Hb ltac:(lia) ltac:(lia) ltac:(lia)) as (v & -> & Hv).
  split; [done|]. simpl. lia.
Qed.

(** [put] of bytes inside a sector. *)
Lemma put_spec {E} s at_ src :
  sector_ok s → bytes_ok src → 0 ≤ at_ → at_ + Z.of_nat (length src) ≤ 512 →
  ∃ s', put (E:=E) s at_ src = Ok s' ∧ sector_ok s' ∧ splice s at_ src = Some s'.
Proof using.
  intros [Hlen Hb] Hsrc Ha Hle. unfold put.
  destruct (splice s at_ src) as [s'|] eqn:E'.
  - exists s'. split; [done|]. split; [|done].
    split; [rewrite (length_splice _ _ _ _ E'); done|exact (bytes_ok_splice _ _ _ _ Hb Hsrc E')].
  - rewrite splice_Some in E' by lia. done.
Qed.

(** *** Where entries live *)
Definition fat_lba (fs : Fat32) (k c : Z) : Z :=
  reserved_sectors fs + k * sectors_per_fat fs + c * 4 / SECTOR_SIZE.
Definition fat_at (c : Z) : Z := c * 4 mod SECTOR_SIZE.

(** The entry of cluster [c] in copy [k] of the table, and in the copy that is
    read. *)
Definition fat_raw (fs : Fat32) st (k c : Z) : Z := word_of (sec st (fat_lba fs k c)) (fat_at c).
Definition fat_val (fs : Fat32) st (c : Z) : Z := Z.land (fat_raw fs st 0 c) 0x0fffffff.

Definition is_cluster (fs : Fat32) (c : Z) : Prop := 0 ≤ c < cluster_count fs + 2.

Lemma fat_at_bounds c : 0 ≤ fat_at c ≤ 508 ∧ fat_at c mod 4 = 0.
Proof using. unfold fat_at, SECTOR_SIZE. Z.div_mod_to_equations. lia. Qed.

Lemma fat_sector_bounds fs n c :
  geometry fs n → is_cluster fs c → 0 ≤ c * 4 / SECTOR_SIZE < sectors_per_fat fs.
Proof using.
  intros [] Hc. unfold is_cluster, SECTOR_SIZE in *. Z.div_mod_to_equations. lia.
Qed.

Lemma fat_lba_bounds fs n k c :
  geometry fs n → is_cluster fs c → 0 ≤ k < fat_count fs →
  reserved_sectors fs ≤ fat_lba fs k c < data_start fs.
Proof using.
  intros Hg Hc Hk. pose proof (fat_sector_bounds fs n c Hg Hc). destruct Hg.
  unfold fat_lba. rewrite geo_data0. nia.
Qed.

(** Entries of different clusters or copies do not overlap. *)
Lemma fat_apart fs n k c k' c' :
  geometry fs n → is_cluster fs c → is_cluster fs c' →
  fat_lba fs k c = fat_lba fs k' c' →
  (k, c) = (k', c') ∨ fat_at c + 4 ≤ fat_at c' ∨ fat_at c' + 4 ≤ fat_at c.
Proof using.
  intros Hg Hc Hc' E.
  pose proof (fat_sector_bounds fs n c Hg Hc) as B1.
  pose proof (fat_sector_bounds fs n c' Hg Hc') as B2.
  unfold fat_lba in E. assert (k = k') as <- by nia.
  assert (Es : c * 4 / SECTOR_SIZE = c' * 4 / SECTOR_SIZE) by lia.
  destruct (decide (c = c')) as [->|Hne]; [by left|right].
  unfold fat_at. unfold SECTOR_SIZE in *. Z.div_mod_to_equations. lia.
Qed.

Lemma geometry_data_le fs n : geometry fs n → data_start fs < n ∧ 0 < data_start fs.
Proof using. intros []. nia. Qed.

(** ** Mounting *)
Lemma is_power_of_two_le x : is_power_of_two x = true → 1 ≤ x ≤ 128.
Proof using.
  unfold is_power_of_two. cbn -[Z.eqb]. rewrite !orb_true_iff, !Z.eqb_eq. lia.
Qed.

Lemma mount_spec (dev : D) :
  dev_ok dev → 1 ≤ sector_count dev →
  (∃ e, mount dev = Err e) ∨
  ∃ fs st, mount dev = Ok (fs, st) ∧ fat_ok fs st ∧ st = mkFat dev 2 false.
Proof using.
  intros Hd Hn. unfold mount. rewrite dev_read by (done || lia). simpl.
  destruct (dev_sector dev 0 Hd ltac:(lia)) as [_ Hb]. set (b := dev_data dev 0) in *.
  destruct (negb (byte_of b 510 =? 0x55) || negb (byte_of b 511 =? 0xaa)); [eauto|].
  pose proof (u16le_range b 14 Hb) as R14. pose proof (byte_of_range b 16 Hb) as R16.
  pose proof (u16le_range b 19 Hb) as R19. pose proof (u32le_range b 32 Hb) as R32.
  pose proof (u32le_range b 36 Hb) as R36. pose proof (u32le_range b 44 Hb) as R44.
  pose proof (u16le_range b 48 Hb) as R48. pose proof (byte_of_range b 13 Hb) as R13.
  set (total := if negb (u16le b 19 =? 0) then u16le b 19 else u32le b 32).
  assert (Rt : 0 ≤ total < 2^32) by (unfold total; case_match; lia).
  destruct (u16le b 11 =? SECTOR_SIZE); [|eauto]. cbn [negb orb].
  destruct (Z.eqb_spec (byte_of b 13) 0); [eauto|]. cbn [orb].
  destruct (is_power_of_two (byte_of b 13)) eqn:Ep; [|eauto]. apply is_power_of_two_le in Ep. cbn [negb orb].
  destruct (Z.eqb_spec (u16le b 14) 0); [eauto|]. cbn [orb].
  destruct (Z.eqb_spec (byte_of b 16) 0); [eauto|]. cbn [orb].
  destruct (Z.eqb_spec (u32le b 36) 0); [eauto|]. cbn [orb].
  destruct (u16le b 17 =? 0); [|eauto]. destruct (u16le b 22 =? 0); [|eauto]. cbn [negb orb].
  destruct (Z.ltb_spec (sector_count dev) total); [eauto|].
  rewrite checked_mul_Some by (unfold u64_max; nia). cbn [ok_or res_bind].
  rewrite checked_add_Some by (unfold u64_max; nia). cbn [ok_or res_bind].
  set (data := u16le b 14 + byte_of b 16 * u32le b 36).
  destruct (Z.leb_spec total data); [eauto|].
  assert (Hdata : 0 < data) by (unfold data; nia).
  assert (Hdiv : 0 ≤ (total - data) / byte_of b 13 < 2^32).
  { split; [apply Z.div_pos; lia|]. apply Z.le_lt_trans with (total - data); [|lia].
    apply Z.div_le_upper_bound; nia. }
  unfold wrap32. rewrite Z.mod_small by done.
  set (count := (total - data) / byte_of b 13) in *.
  assert (Hcount : count * byte_of b 13 ≤ total - data).
  { unfold count. rewrite Z.mul_comm. apply Z.mul_div_le. lia. }
  destruct (Z.ltb_spec count 1), (Z.ltb_spec 0x0ffffff5 count); try (left; eauto; fail).
  destruct (Z.ltb_spec (u32le b 36 * SECTOR_SIZE / 4) (count + 2)); [eauto|].
  destruct (Z.ltb_spec (Z.land (u32le b 44) 0x0fffffff) 2); [eauto|].
  destruct (Z.leb_spec (count + 2) (Z.land (u32le b 44) 0x0fffffff)); [eauto|]. cbn [orb].
  right. eexists _, _. split; [reflexivity|]. split; [|done]. split; [done|].
  split; cbn -[Z.land SECTOR_SIZE]; fold data; try lia.
  - unfold SECTOR_SIZE in *. Z.div_mod_to_equations. lia.
  - intros s0. destruct (Z.eqb_spec (u16le b 48) 0), (Z.ltb_spec (u16le b 48) (u16le b 14));
      cbn [negb andb]; try done. intros [= <-]. lia.
Qed.

(** ** Entries *)
Lemma fat_entry_spec fs st c :
  fat_ok fs st → is_cluster fs c → fat_entry fs c st = (Ok (fat_val fs st c), st).
Proof using.
  intros Hok Hc. pose proof Hok as [_ Hg].
  pose proof (fat_sector_bounds fs _ c Hg Hc) as Hs.
  pose proof (fat_lba_bounds fs _ 0 c Hg Hc) as Hl. pose proof (geometry_data_le _ _ Hg).
  pose proof Hg as []. specialize (Hl ltac:(lia)). unfold fat_lba in Hl.
  unfold fat_entry. rewrite !(proj2 (Z.leb_gt _ _)) by (unfold is_cluster in Hc; lia).
  destruct (read_spec fs st (reserved_sectors fs + c * 4 / SECTOR_SIZE) Hok ltac:(lia)) as [E Hsec].
  rewrite (bind_ok _ _ _ _ _ E). unfold bind, lift.
  destruct (fat_at_bounds c) as [Ha _]. unfold fat_at in Ha.
  rewrite (proj1 (get32_spec _ _ Hsec Ha)). unfold ret, fat_val, fat_raw, fat_lba, fat_at.
  do 4 f_equal. f_equal. lia.
Qed.

(** The new contents of an entry: the top four bits are kept. *)
Definition merge_entry (old value : Z) : Z :=
  Z.lor (Z.land old 0xf0000000) (Z.land value 0x0fffffff).

Lemma merge_entry_range old value : 0 ≤ old < 2^32 → 0 ≤ value → 0 ≤ merge_entry old value < 2^32.
Proof using.
  intros Ho Hv. apply lor_range; [lia| |].
  - apply land_range; lia.
  - rewrite Z.land_comm. apply land_range; lia.
Qed.

Lemma merge_entry_low old value :
  Z.land (merge_entry old value) 0x0fffffff = Z.land value 0x0fffffff.
Proof using.
  unfold merge_entry. rewrite Z.land_lor_distr_l, <- !Z.land_assoc.
  change (Z.land 0xf0000000 0x0fffffff) with 0. by rewrite Z.land_0_r.
Qed.

(** One copy of the table in [set_fat_entry]. *)
Definition set_copy (fs : Fat32) (c value k : Z) : M (FatState D) FatError unit :=
  let lba := reserved_sectors fs + k * sectors_per_fat fs + c * 4 / SECTOR_SIZE in
  let! sector := f_read_sector lba in
  let! old := lift (get32 sector (c * 4 mod SECTOR_SIZE)) in
  let! sector := lift (put sector (c * 4 mod SECTOR_SIZE) (le_bytes 4 (merge_entry old value))) in
  f_write_sector lba sector.

(** States that differ in the sectors [P] only, and in nothing else. *)
Definition quiet (fs : Fat32) (P : Z → Prop) st st' : Prop :=
  fat_ok fs st' ∧ same_but P st st' ∧ next_free_hint st' = next_free_hint st.

Lemma quiet_refl fs P st : fat_ok fs st → quiet fs P st st.
Proof using. intros. split; [done|]. split; [apply same_but_refl|done]. Qed.

Lemma quiet_trans fs P st1 st2 st3 : quiet fs P st1 st2 → quiet fs P st2 st3 → quiet fs P st1 st3.
Proof using.
  intros (_ & H1 & H2) (H3 & H4 & H5). split; [done|]. split; [by eapply same_but_trans|congruence].
Qed.

Lemma quiet_weaken fs (P Q : Z → Prop) st st' :
  (∀ l, P l → Q l) → quiet fs P st st' → quiet fs Q st st'.
Proof using. intros HPQ (H1 & H2 & H3). split; [done|]. split; [by eapply same_but_weaken|done]. Qed.

(** A state that agrees on the sector of an entry agrees on the entry. *)
Lemma fat_raw_same fs st st' P k c :
  geometry fs (sector_count (device st)) → same_but P st st' → is_cluster fs c →
  0 ≤ k < fat_count fs → ¬ P (fat_lba fs k c) → fat_raw fs st' k c = fat_raw fs st k c.
Proof using.
  intros Hg [Hn Hs] Hc Hk HP. pose proof (fat_lba_bounds fs _ k c Hg Hc Hk).
  pose proof (geometry_data_le _ _ Hg). destruct Hg. unfold fat_raw. rewrite Hs; [done|lia|done].
Qed.

Lemma word_splice_eq s at_ v s' :
  0 ≤ v < 2^32 → splice s at_ (le_bytes 4 v) = Some s' → word_of s' at_ = v.
Proof using.
  intros Hv E. unfold word_of, le_at. pose proof (slice_splice_eq _ _ _ _ E) as Es.
  rewrite length_le_bytes in Es. change (Z.of_nat 4) with 4 in Es. rewrite Es. cbn -[le_bytes le_value].
  apply le_value_bytes. change (256 ^ Z.of_nat 4) with (2^32). lia.
Qed.

Lemma word_splice_ne s at_ v s' at' :
  at' + 4 ≤ at_ ∨ at_ + 4 ≤ at' → splice s at_ (le_bytes 4 v) = Some s' →
  word_of s' at' = word_of s at'.
Proof using.
  intros Ha E. unfold word_of, le_at. rewrite (slice_splice_ne _ _ _ _ at' 4 E); [done|].
  rewrite length_le_bytes. lia.
Qed.

Lemma set_copy_spec fs st c value k :
  fat_ok fs st → is_cluster fs c → 0 ≤ k < fat_count fs → 0 ≤ value →
  ∃ st', set_copy fs c value k st = (Ok tt, st') ∧ quiet fs (λ l, l = fat_lba fs k c) st st' ∧
    ∀ k' c', 0 ≤ k' < fat_count fs → is_cluster fs c' →
      fat_raw fs st' k' c' =
      if decide ((k', c') = (k, c)) then merge_entry (fat_raw fs st k c) value else fat_raw fs st k' c'.
Proof using.
  intros Hok Hc Hk Hv. pose proof Hok as [_ Hg].
  pose proof (fat_lba_bounds fs _ k c Hg Hc Hk) as Hl. pose proof (geometry_data_le _ _ Hg) as Hd.
  destruct (fat_at_bounds c) as [Ha _].
  destruct (read_spec fs st (fat_lba fs k c) Hok) as [E1 Hsec]; [destruct Hg; lia|].
  destruct (get32_spec (E:=FatError) _ _ Hsec Ha) as [E2 Hold].
  pose proof (merge_entry_range _ value Hold Hv) as Hnew.
  destruct (put_spec (E:=FatError) (sec st (fat_lba fs k c)) (fat_at c)
    (le_bytes 4 (merge_entry (word_of (sec st (fat_lba fs k c)) (fat_at c)) value))
    Hsec (le_bytes_ok _ _) ltac:(lia)) as (s' & E3 & Hs' & Hsp); [rewrite length_le_bytes; lia|].
  destruct (write_spec fs st (fat_lba fs k c) s' Hok) as (st' & E4 & Hok' & Hsame & Hs4 & Hh & _);
    [destruct Hg; lia|done|].
  exists st'. split; [|split; [split; [done|by split]|]].
  - unfold set_copy. fold (fat_lba fs k c) (fat_at c). rewrite (bind_ok _ _ _ _ _ E1).
    unfold bind, lift. rewrite E2, E3. exact E4.
  - intros k' c' Hk' Hc'. destruct (decide (fat_lba fs k' c' = fat_lba fs k c)) as [El|El].
    + unfold fat_raw. rewrite El, Hs4.
      destruct (fat_apart fs _ k' c' k c Hg Hc' Hc El) as [[= -> ->]|Hap].
      * rewrite decide_True by done. exact (word_splice_eq _ _ _ _ Hnew Hsp).
      * rewrite decide_False by (intros [= -> ->]; lia).
        apply (word_splice_ne _ _ _ _ _ Hap Hsp).
    + rewrite decide_False by (intros [= -> ->]; done). by eapply fat_raw_same.
Qed.

(** All copies. *)
Lemma set_copies_spec fs c value ks st :
  fat_ok fs st → is_cluster fs c → 0 ≤ value → NoDup ks → Forall (λ k, 0 ≤ k < fat_count fs) ks →
  ∃ st', mfor ks (set_copy fs c value) st = (Ok tt, st') ∧
    quiet fs (λ l, ∃ k, 0 ≤ k < fat_count fs ∧ l = fat_lba fs k c) st st' ∧
    ∀ k' c', 0 ≤ k' < fat_count fs → is_cluster fs c' →
      fat_raw fs st' k' c' =
      if decide (k' ∈ ks ∧ c' = c) then merge_entry (fat_raw fs st k' c) value
      else fat_raw fs st k' c'.
Proof using.
  intros Hok Hc Hv Hnd Hks. revert st Hok. induction Hks as [|k ks Hk Hks IH]; intros st Hok.
  { exists st. split; [done|]. split; [by apply quiet_refl|]. intros. rewrite decide_False; set_solver. }
  apply NoDup_cons in Hnd as [Hnot Hnd].
  destruct (set_copy_spec fs st c value k Hok Hc Hk Hv) as (st1 & E1 & Hq1 & Hr1).
  destruct (IH Hnd st1 (proj1 Hq1)) as (st2 & E2 & Hq2 & Hr2).
  exists st2. split; [simpl; by rewrite (bind_ok _ _ _ _ _ E1)|]. split.
  - eapply quiet_trans; [|done]. eapply quiet_weaken; [|exact Hq1]. intros l ->. eauto.
  - intros k' c' Hk' Hc'. rewrite Hr2, !Hr1 by done.
    destruct (decide (c' = c)) as [->|]; [|rewrite !decide_False by naive_solver; done].
    destruct (decide (k' = k)) as [->|].
    + rewrite (decide_False (P := k ∈ ks ∧ _)) by tauto.
      by rewrite decide_True, decide_True by set_solver.
    + rewrite (decide_False (P := (k', c) = (k, c))) by congruence.
      destruct (decide (k' ∈ ks)); [rewrite !decide_True by set_solver|rewrite !decide_False by set_solver]; done.
Qed.

Lemma bytes_max : bytes_ok (le_bytes 4 u32_max).
Proof using. apply le_bytes_ok. Qed.

Lemma invalidate_spec fs st :
  fat_ok fs st →
  ∃ st', invalidate_fsinfo_hint fs st = (Ok tt, st') ∧
    quiet fs (λ l, 0 < l < reserved_sectors fs) st st'.
Proof using.
  intros Hok. unfold invalidate_fsinfo_hint. unfold bind at 1, get_invalidated.
  destruct (fsinfo_invalidated st); [exists st; split; [done|by apply quiet_refl]|].
  assert (Hfin : ∀ st', quiet fs (λ l, 0 < l < reserved_sectors fs) st st' →
    ∃ st'', set_invalidated st' = (Ok tt, st'') ∧ quiet fs (λ l, 0 < l < reserved_sectors fs) st st'').
  { intros st' (H1 & H2 & H3). eexists. split; [reflexivity|]. split; [exact H1|]. split; [exact H2|exact H3]. }
  destruct (fsinfo_sector fs) as [n|] eqn:En; [|apply Hfin, quiet_refl, Hok].
  pose proof Hok as [_ Hg]. pose proof (geometry_data_le _ _ Hg) as Hd.
  pose proof (geo_fsinfo _ _ Hg n En) as Hn.
  assert (Hin : 0 ≤ n < sector_count (device st)) by (destruct Hg; nia).
  destruct (read_spec fs st n Hok Hin) as [E1 Hsec]. rewrite (bind_ok _ _ _ _ _ E1).
  destruct ((u32le (sec st n) 0 =? 0x41615252) && _ && _).
  - destruct (put_spec (E:=FatError) (sec st n) 488 (le_bytes 4 u32_max) Hsec bytes_max ltac:(lia))
      as (s1 & P1 & Hs1 & _); [rewrite length_le_bytes; lia|].
    destruct (put_spec (E:=FatError) s1 492 (le_bytes 4 u32_max) Hs1 bytes_max ltac:(lia))
      as (s2 & P2 & Hs2 & _); [rewrite length_le_bytes; lia|].
    destruct (write_spec fs st n s2 Hok Hin Hs2) as (st1 & E2 & Hok1 & Hsame & _ & Hh & _).
    unfold bind, lift. rewrite P1, P2, E2. apply Hfin. split; [done|]. split; [|done].
    eapply same_but_weaken; [|exact Hsame]. intros l ->. done.
  - unfold bind, ret. apply Hfin. by apply quiet_refl.
Qed.

Lemma seqZ_NoDup_range n : NoDup (seqZ 0 n) ∧ Forall (λ k, 0 ≤ k < n) (seqZ 0 n).
Proof using.
  split; [apply NoDup_seqZ|]. apply Forall_forall. intros k. rewrite elem_of_seqZ. lia.
Qed.

(** What writing one entry does: every copy of it changes, no other entry does,
    and only sectors before the data area are written. *)
Lemma set_fat_entry_spec fs st c value :
  fat_ok fs st → is_cluster fs c → 0 ≤ value →
  ∃ st', set_fat_entry fs c value st = (Ok tt, st') ∧
    quiet fs (λ l, l < data_start fs) st st' ∧
    (∀ k' c', 0 ≤ k' < fat_count fs → is_cluster fs c' →
      fat_raw fs st' k' c' =
      if decide (c' = c) then merge_entry (fat_raw fs st k' c) value else fat_raw fs st k' c') ∧
    ∀ c', is_cluster fs c' →
      fat_val fs st' c' = if decide (c' = c) then Z.land value 0x0fffffff else fat_val fs st c'.
Proof using.
  intros Hok Hc Hv. pose proof Hok as [_ Hg].
  pose proof (fat_sector_bounds fs _ c Hg Hc) as Hs.
  destruct (invalidate_spec fs st Hok) as (st1 & E1 & Hq1).
  destruct (seqZ_NoDup_range (fat_count fs)) as [Hnd Hr].
  destruct (set_copies_spec fs c value _ st1 (proj1 Hq1) Hc Hv Hnd Hr) as (st2 & E2 & Hq2 & Hr2).
  assert (Hraw1 : ∀ k' c', 0 ≤ k' < fat_count fs → is_cluster fs c' → fat_raw fs st1 k' c' = fat_raw fs st k' c').
  { intros k' c' Hk' Hc'. destruct Hq1 as (_ & Hsame & _).
    eapply fat_raw_same; [done|exact Hsame|done|done|].
    pose proof (fat_lba_bounds fs _ k' c' Hg Hc' Hk'). simpl. lia. }
  assert (Hraw : ∀ k' c', 0 ≤ k' < fat_count fs → is_cluster fs c' → fat_raw fs st2 k' c' =
    if decide (c' = c) then merge_entry (fat_raw fs st k' c) value else fat_raw fs st k' c').
  { intros k' c' Hk' Hc'. rewrite Hr2, !Hraw1 by done.
    assert (k' ∈ seqZ 0 (fat_count fs)) by (apply elem_of_seqZ; lia).
    destruct (decide (c' = c)); [rewrite decide_True by done|rewrite decide_False by tauto]; done. }
  exists st2. split_and!.
  - unfold set_fat_entry. rewrite !(proj2 (Z.leb_gt _ _)) by (unfold is_cluster in Hc; lia).
    rewrite (bind_ok _ _ _ _ _ E1). exact E2.
  - eapply quiet_trans.
    + eapply quiet_weaken; [|exact Hq1]. intros l Hl. simpl in *. destruct Hg. nia.
    + eapply quiet_weaken; [|exact Hq2]. intros l (k & Hk & ->).
      apply (fat_lba_bounds fs _ k c Hg Hc Hk).
  - exact Hraw.
  - intros c' Hc'. unfold fat_val. destruct Hg. rewrite Hraw by (done || lia).
    case_decide; [apply merge_entry_low|done].
Qed.

(** ** Clusters *)
Definition data_cluster (fs : Fat32) (c : Z) : Prop := 2 ≤ c < cluster_count fs + 2.

#[global] Instance data_cluster_dec fs c : Decision (data_cluster fs c).
Proof using. unfold data_cluster. apply _. Defined.

Definition cluster_first (fs : Fat32) (c : Z) : Z :=
  data_start fs + (c - 2) * sectors_per_cluster fs.

Definition in_cluster (fs : Fat32) (c l : Z) : Prop :=
  cluster_first fs c ≤ l < cluster_first fs c + sectors_per_cluster fs.

Definition cluster_data (fs : Fat32) st (c : Z) : list Z :=
  concat (map (sec st) (seqZ (cluster_first fs c) (sectors_per_cluster fs))).

Lemma data_is_cluster fs c : data_cluster fs c → is_cluster fs c.
Proof using. unfold data_cluster, is_cluster. lia. Qed.

Lemma cluster_in_device fs n c l :
  geometry fs n → data_cluster fs c → in_cluster fs c l → data_start fs ≤ l < n.
Proof using.
  intros [] Hc Hl. unfold data_cluster, in_cluster, cluster_first in *. nia.
Qed.

Lemma clusters_disjoint fs n c c' l :
  geometry fs n → in_cluster fs c l → in_cluster fs c' l → c = c'.
Proof using. intros [] H1 H2. unfold in_cluster, cluster_first in *. nia. Qed.

Lemma cluster_lba_spec fs st c :
  fat_ok fs st → data_cluster fs c → cluster_lba fs c = Ok (cluster_first fs c).
Proof using.
  intros [Hd Hg] Hc. unfold cluster_lba. pose proof (dev_count _ Hd).
  pose proof (cluster_in_device fs _ c (cluster_first fs c) Hg Hc).
  pose proof Hg as []. unfold data_cluster, in_cluster, cluster_first in *.
  rewrite (proj2 (Z.ltb_ge _ _)), (proj2 (Z.leb_gt _ _)) by lia. cbn [orb].
  rewrite checked_add_Some by lia. done.
Qed.

Lemma cluster_lba_bad fs c : ¬ data_cluster fs c → cluster_lba fs c = Err FatCorrupt.
Proof using.
  intros Hc. unfold cluster_lba, data_cluster in *.
  destruct (Z.ltb_spec c 2), (Z.leb_spec (cluster_count fs + 2) c); try done. lia.
Qed.

Lemma read_sectors_spec fs st lba n :
  fat_ok fs st → 0 ≤ lba → lba + Z.of_nat n ≤ sector_count (device st) →
  read_sectors lba n st = (Ok (concat (map (sec st) (seqZ lba (Z.of_nat n)))), st).
Proof using.
  intros Hok. revert lba. induction n as [|n IH]; intros lba Hl Hn; [done|].
  cbn [read_sectors]. destruct (read_spec fs st lba Hok ltac:(lia)) as [E _].
  rewrite (bind_ok _ _ _ _ _ E). rewrite (bind_ok _ _ _ _ _ (IH (lba + 1) ltac:(lia) ltac:(lia))).
  rewrite (seqZ_cons lba) by lia. cbn [map concat]. unfold ret.
  replace (Z.succ lba) with (lba + 1) by lia. by replace (Z.pred (Z.of_nat (S n))) with (Z.of_nat n) by lia.
Qed.

Lemma read_cluster_spec fs st c :
  fat_ok fs st → data_cluster fs c → read_cluster fs c st = (Ok (cluster_data fs st c), st).
Proof using.
  intros Hok Hc. unfold read_cluster. unfold bind, lift. rewrite (cluster_lba_spec fs st c Hok Hc).
  pose proof Hok as [_ Hg].
  pose proof (cluster_in_device fs _ c (cluster_first fs c + sectors_per_cluster fs - 1) Hg Hc).
  pose proof (geometry_data_le _ _ Hg). pose proof Hg as [].
  rewrite (read_sectors_spec fs); [|done|unfold in_cluster, cluster_first, data_cluster in *; nia..].
  unfold cluster_data. by rewrite Z2Nat.id by lia.
Qed.

Lemma zero_sector_ok : sector_ok zero_sector.
Proof using.
  split; [apply length_replicate|]. apply Forall_replicate. unfold is_byte. lia.
Qed.

(** Sectors of zeros at [first + l] for [l] in [ls]. *)
Lemma zero_sectors_spec fs ls st first :
  fat_ok fs st → 0 ≤ first → Forall (λ l, 0 ≤ l ∧ first + l < sector_count (device st)) ls →
  ∃ st', mfor ls (λ l, f_write_sector (first + l) zero_sector) st = (Ok tt, st') ∧
    quiet fs (λ l, l - first ∈ ls) st st' ∧ ∀ l, l ∈ ls → sec st' (first + l) = zero_sector.
Proof using.
  intros Hok H0 Hls. revert st Hok Hls. induction ls as [|l ls IH]; intros st Hok Hls.
  { exists st. split; [done|]. split; [by apply quiet_refl|]. set_solver. }
  apply Forall_cons in Hls as [[Hl1 Hl2] Hls].
  pose proof zero_sector_ok as Hz.
  destruct (write_spec fs st (first + l) zero_sector Hok ltac:(lia) Hz)
    as (st1 & E1 & Hok1 & Hs1 & Hd1 & Hh1 & _).
  destruct (IH st1 Hok1) as (st2 & E2 & Hq2 & Hz2).
  { destruct Hs1 as [-> _]. done. }
  exists st2. split; [simpl; by rewrite (bind_ok _ _ _ _ _ E1)|]. split.
  - eapply quiet_trans; [split; [exact Hok1|split; [|exact Hh1]]|].
    + eapply same_but_weaken; [|exact Hs1]. intros x ->. replace (first + l - first) with l by lia. set_solver.
    + eapply quiet_weaken; [|exact Hq2]. set_solver.
  - intros x [->|Hx]%elem_of_cons; [|auto].
    destruct (decide (l ∈ ls)) as [|Hnot]; [auto|]. destruct Hq2 as (_ & [Hn2 Hs2] & _).
    rewrite Hs2; [done| |].
    + destruct Hs1 as [-> _]. lia.
    + replace (first + l - first) with l by lia. done.
Qed.

Lemma concat_zeros {A} (f : A → list Z) ls :
  (∀ l, l ∈ ls → f l = zero_sector) → concat (map f ls) = replicate (512 * length ls) 0.
Proof using.
  induction ls as [|l ls IH]; intros Hf; [done|]. cbn [map concat].
  rewrite Hf by left. rewrite IH by (intros; apply Hf; by right).
  unfold zero_sector. rewrite <- replicate_add. f_equal. cbn [length]. lia.
Qed.

Lemma zero_cluster_spec fs st c :
  fat_ok fs st → data_cluster fs c →
  ∃ st', zero_cluster fs c st = (Ok tt, st') ∧ quiet fs (in_cluster fs c) st st' ∧
    cluster_data fs st' c = replicate (Z.to_nat (cluster_bytes fs)) 0.
Proof using.
  intros Hok Hc. pose proof Hok as [_ Hg]. pose proof (geometry_data_le _ _ Hg) as Hd.
  pose proof (cluster_in_device fs _ c (cluster_first fs c) Hg Hc) as Hlo.
  pose proof (cluster_in_device fs _ c (cluster_first fs c + sectors_per_cluster fs - 1) Hg Hc) as Hhi.
  pose proof (geo_spc _ _ Hg). unfold in_cluster in Hlo, Hhi.
  destruct (zero_sectors_spec fs (seqZ 0 (sectors_per_cluster fs)) st (cluster_first fs c) Hok)
    as (st' & E & Hq & Hz); [lia| |].
  { apply Forall_forall. intros l. rewrite elem_of_seqZ. lia. }
  exists st'. split; [|split].
  - unfold zero_cluster, bind, lift. by rewrite (cluster_lba_spec fs st c Hok Hc).
  - eapply quiet_weaken; [|exact Hq]. intros l. simpl. rewrite elem_of_seqZ. unfold in_cluster. lia.
  - unfold cluster_data. rewrite concat_zeros.
    + rewrite length_seqZ. f_equal. unfold cluster_bytes, SECTOR_SIZE. lia.
    + intros l Hl%elem_of_seqZ. replace l with (cluster_first fs c + (l - cluster_first fs c)) by lia.
      apply Hz. apply elem_of_seqZ. lia.
Qed.

(** Clusters that keep their bytes. *)
Lemma cluster_data_same fs st st' P c :
  geometry fs (sector_count (device st)) → same_but P st st' → data_cluster fs c →
  (∀ l, in_cluster fs c l → ¬ P l) → cluster_data fs st' c = cluster_data fs st c.
Proof using.
  intros Hg [_ Hs] Hc HP. unfold cluster_data. f_equal. apply map_ext_in. intros l Hl.
  apply list_elem_of_In, elem_of_seqZ in Hl.
  pose proof (cluster_in_device fs _ c l Hg Hc Hl). pose proof (geometry_data_le _ _ Hg).
  apply Hs; [lia|]. by apply HP.
Qed.

Lemma fat_val_same fs st st' P c :
  geometry fs (sector_count (device st)) → same_but P st st' → is_cluster fs c →
  (∀ l, P l → data_start fs ≤ l) → fat_val fs st' c = fat_val fs st c.
Proof using.
  intros Hg Hs Hc HP. unfold fat_val. pose proof (geo_fats _ _ Hg).
  rewrite (fat_raw_same fs st st' P 0 c Hg Hs Hc); [done|lia|].
  intros Hl%HP. pose proof (fat_lba_bounds fs _ 0 c Hg Hc). lia.
Qed.

(** ** Allocation *)

(** What a successful allocation of [c] did. *)
Record allocated_cluster (fs : Fat32) st st' (c : Z) : Prop := {
  al_ok : fat_ok fs st';
  al_data : data_cluster fs c;
  al_free : fat_val fs st c = 0;
  al_table : ∀ c', is_cluster fs c' →
    fat_val fs st' c' = if decide (c' = c) then END_OF_CHAIN else fat_val fs st c';
  al_zero : cluster_data fs st' c = replicate (Z.to_nat (cluster_bytes fs)) 0;
  al_others : ∀ c', data_cluster fs c' → c' ≠ c → cluster_data fs st' c' = cluster_data fs st c';
  al_hint : 2 ≤ next_free_hint st';
  al_count : sector_count (device st') = sector_count (device st)
}.

Lemma set_hint_ok fs st h :
  fat_ok fs st → fat_ok fs (mkFat (device st) h (fsinfo_invalidated st)).
Proof using. done. Qed.

(** The state after the entry is set and the cluster is cleared. *)
Lemma take_cluster_spec fs st c h :
  fat_ok fs st → data_cluster fs c → fat_val fs st c = 0 → 2 ≤ h →
  ∃ st', (set_fat_entry fs c END_OF_CHAIN ;;!
          let! r := catch (E':=FatError) (zero_cluster fs c) in
          match r with
          | inr error => ignore (set_fat_entry fs c 0) ;;! fail error
          | inl _ => set_hint h ;;! ret c
          end) st = (Ok c, st') ∧ allocated_cluster fs st st' c.
Proof using.
  intros Hok Hc Hfree Hh. pose proof Hok as [_ Hg].
  destruct (set_fat_entry_spec fs st c END_OF_CHAIN Hok (data_is_cluster _ _ Hc)) as (st1 & E1 & Hq1 & _ & Hv1);
    [done|].
  pose proof Hq1 as (Hok1 & Hs1 & _).
  destruct (zero_cluster_spec fs st1 c Hok1 Hc) as (st2 & E2 & Hq2 & Hz2).
  pose proof Hq2 as (Hok2 & Hs2 & _). pose proof Hok1 as [_ Hg1].
  set (st3 := mkFat (device st2) h (fsinfo_invalidated st2)).
  exists st3. split.
  { rewrite (bind_ok _ _ _ _ _ E1). unfold bind, catch. rewrite E2. reflexivity. }
  split; try done.
  - intros c' Hc'. change (fat_val fs st3 c') with (fat_val fs st2 c').
    rewrite (fat_val_same fs st1 st2 _ c' Hg1 Hs2 Hc'); [rewrite Hv1 by done; by case_decide|].
    intros l Hl. apply (cluster_in_device fs _ c l Hg1 Hc Hl).
  - intros c' Hc' Hne. change (cluster_data fs st3 c') with (cluster_data fs st2 c').
    rewrite (cluster_data_same fs st1 st2 _ c' Hg1 Hs2 Hc').
    + apply (cluster_data_same fs st st1 _ c' Hg Hs1 Hc').
      intros l Hl. pose proof (cluster_in_device fs _ c' l Hg Hc' Hl). lia.
    + intros l Hl Hl'. apply Hne. by eapply clusters_disjoint.
  - simpl. destruct Hs1 as [Hs1 _], Hs2 as [-> _]. done.
Qed.

Lemma allocate_loop_spec fs st start n step :
  fat_ok fs st → 2 ≤ start → 0 ≤ step →
  (∃ c st', allocate_loop fs start step n st = (Ok c, st') ∧ allocated_cluster fs st st' c) ∨
  (allocate_loop fs start step n st = (Err FatNoSpace, st) ∧
   ∀ i, step ≤ i < step + Z.of_nat n → fat_val fs st (2 + (start - 2 + i) mod cluster_count fs) ≠ 0).
Proof using.
  intros Hok Hs. revert step. induction n as [|n IH]; intros step Hstep.
  { right. split; [done|]. intros. lia. }
  cbn [allocate_loop]. pose proof Hok as [_ Hg]. pose proof (geo_count _ _ Hg).
  set (c := 2 + (start - 2 + step) mod cluster_count fs).
  assert (Hc : data_cluster fs c).
  { unfold data_cluster, c. pose proof (Z.mod_pos_bound (start - 2 + step) (cluster_count fs)). lia. }
  rewrite (bind_ok _ _ _ _ _ (fat_entry_spec fs st c Hok (data_is_cluster _ _ Hc))).
  destruct (Z.eqb_spec (fat_val fs st c) 0) as [E0|Hne].
  - left. destruct (take_cluster_spec fs st c (if c =? cluster_count fs + 1 then 2 else c + 1) Hok Hc E0)
      as (st' & E & Ha); [unfold data_cluster in Hc; case_match; lia|].
    exists c, st'. split; [exact E|done].
  - destruct (IH (step + 1) ltac:(lia)) as [?|[E Hall]]; [by left|right].
    split; [done|]. intros i Hi. destruct (decide (i = step)) as [->|]; [done|].
    apply Hall. lia.
Qed.

Lemma allocate_cluster_spec fs st :
  fat_ok fs st →
  (∃ c st', allocate_cluster fs st = (Ok c, st') ∧ allocated_cluster fs st st' c) ∨
  (allocate_cluster fs st = (Err FatNoSpace, st) ∧
   ∀ c, data_cluster fs c → fat_val fs st c ≠ 0).
Proof using.
  intros Hok. pose proof Hok as [_ Hg]. pose proof (geo_count _ _ Hg).
  unfold allocate_cluster. unfold bind at 1 2, get_hint.
  set (start := Z.max 2 (Z.min (next_free_hint st) (cluster_count fs + 1))).
  destruct (allocate_loop_spec fs st start (Z.to_nat (cluster_count fs)) 0 Hok) as [?|[E Hall]];
    [lia|lia|by left|right].
  split; [done|]. intros c Hc. unfold data_cluster in Hc.
  set (n := cluster_count fs) in *.
  specialize (Hall ((c - start) mod n)). rewrite Z2Nat.id in Hall by lia.
  pose proof (Z.mod_pos_bound (c - start) n).
  replace (2 + (start - 2 + (c - start) mod n) mod n) with c in Hall; [apply Hall; lia|].
  rewrite Z.add_mod_idemp_r by lia. replace (start - 2 + (c - start)) with (c - 2) by lia.
  rewrite Z.mod_small by lia. lia.
Qed.
End Table.
