(* ===== verification/FatChains.v ===== *)
(** * Cluster chains of a FAT32 volume

    Chains as lists of clusters: [collect_chain] finds exactly the chains of the
    table and terminates on any table, releasing and growing a chain change only
    its entries, a growth that fails is rolled back, and reading and writing
    along a chain act on the bytes of its clusters as on one array. *)
From stdpp Require Import base numbers list gmap sets.
From Stdlib Require Import ZArith Lia Bool.
From S2P Require Import Prelude Bytes Str Block FatNames Fat32 FatTable.

(** What [next_cluster] makes of an entry. *)
Definition next_of (fs : Fat32) (v : Z) : res FatError (option Z) :=
  if 0x0ffffff8 <=? v then Ok None
  else if (v =? 0) || (v =? 1) || ((0x0ffffff0 <=? v) && (v <=? 0x0ffffff7)) then Err FatCorrupt
  else if (v <? 2) || (cluster_count fs + 2 <=? v) then Err FatCorrupt
  else Ok (Some v).

Lemma next_of_Some fs v c : next_of fs v = Ok (Some c) → c = v ∧ data_cluster fs v.
Proof.
  unfold next_of, data_cluster. intros E.
  destruct (Z.leb_spec 0x0ffffff8 v); [done|]. case_match; [done|].
  destruct (Z.ltb_spec v 2), (Z.leb_spec (cluster_count fs + 2) v); simplify_eq/=. lia.
Qed.

Lemma next_of_end fs v : next_of fs v = Ok None ↔ 0x0ffffff8 ≤ v.
Proof.
  unfold next_of. destruct (Z.leb_spec 0x0ffffff8 v); [done|].
  split; [|lia]. repeat case_match; done.
Qed.

(** Clusters from 0x0ffffff0 up cannot be linked to, although [mount] accepts
    volumes that have some. *)
Lemma next_of_link fs c :
  cluster_count fs ≤ 0x0fffffee → data_cluster fs c → next_of fs c = Ok (Some c).
Proof.
  intros Hn Hc. unfold next_of, data_cluster in *.
  rewrite (proj2 (Z.leb_gt 0x0ffffff8 c)) by lia.
  rewrite !(proj2 (Z.eqb_neq _ _)), (proj2 (Z.leb_gt 0x0ffffff0 c)) by lia. cbn [orb andb].
  rewrite (proj2 (Z.ltb_ge _ _)), (proj2 (Z.leb_gt _ _)) by lia. done.
Qed.

Section Chains.
Context {D : Type} `{HD : BlockDevice D} `{HR : !ReliableDevice D}.
Implicit Types st : FatState D.

Lemma next_cluster_spec fs st c :
  fat_ok fs st → data_cluster fs c →
  next_cluster fs c st = (next_of fs (fat_val fs st c), st).
Proof using.
  intros Hok Hc. unfold next_cluster, data_cluster in *.
  rewrite (proj2 (Z.ltb_ge _ _)), (proj2 (Z.leb_gt _ _)) by lia. cbn [orb].
  rewrite (bind_ok _ _ _ _ _ (fat_entry_spec fs st c Hok (data_is_cluster fs c Hc))).
  unfold next_of. by repeat case_match.
Qed.

Lemma next_cluster_bad fs st c : ¬ data_cluster fs c → next_cluster fs c st = (Err FatCorrupt, st).
Proof using.
  intros Hc. unfold next_cluster, data_cluster in *.
  destruct (Z.ltb_spec c 2), (Z.leb_spec (cluster_count fs + 2) c); try done. lia.
Qed.

(** [l] is a chain of the table: each cluster's entry is the next one, the
    last one's is an end mark. *)
Fixpoint chain_ok (fs : Fat32) st (l : list Z) : Prop :=
  match l with
  | [] => False
  | c :: l' =>
      data_cluster fs c ∧
      match l' with
      | [] => next_of fs (fat_val fs st c) = Ok None
      | d :: _ => next_of fs (fat_val fs st c) = Ok (Some d) ∧ chain_ok fs st l'
      end
  end.

(** The chain of a file whose first cluster is [first] (0: no clusters). *)
Definition chain_of (fs : Fat32) st (first : Z) (l : list Z) : Prop :=
  (first = 0 ∧ l = []) ∨ (first ≠ 0 ∧ hd_error l = Some first ∧ chain_ok fs st l).

Lemma chain_ok_cons fs st c d l :
  chain_ok fs st (c :: d :: l) ↔
  data_cluster fs c ∧ next_of fs (fat_val fs st c) = Ok (Some d) ∧ chain_ok fs st (d :: l).
Proof using. done. Qed.

Lemma chain_data fs st l : chain_ok fs st l → Forall (data_cluster fs) l.
Proof using.
  induction l as [|c [|d l] IH]; [done|intros [Hc _]; by apply Forall_singleton|].
  intros (Hc & _ & Hl)%chain_ok_cons. constructor; auto.
Qed.

(** A chain is determined by its first cluster. *)
Lemma chain_det fs st l1 l2 :
  chain_ok fs st l1 → chain_ok fs st l2 → hd_error l1 = hd_error l2 → l1 = l2.
Proof using.
  revert l2. induction l1 as [|c [|d l1] IH]; intros l2 H1 H2 Eh; [done| |].
  - destruct l2 as [|c2 [|d2 l2]]; simplify_eq/=; [done|].
    destruct H1 as [_ H1], H2 as (_ & H2 & _). rewrite H1 in H2. done.
  - destruct l2 as [|c2 [|d2 l2]]; simplify_eq/=; destruct H1 as (_ & Hn1 & H1).
    + destruct H2 as [_ H2]. rewrite Hn1 in H2. done.
    + destruct H2 as (_ & Hn2 & H2). rewrite Hn1 in Hn2. injection Hn2 as <-.
      f_equal. by apply IH.
Qed.

Lemma chain_suffix fs st l1 c l2 : chain_ok fs st (l1 ++ c :: l2) → chain_ok fs st (c :: l2).
Proof using.
  induction l1 as [|x l1 IH]; [done|]. intros H. apply IH.
  destruct l1 as [|y l1]; destruct H as (_ & _ & H); done.
Qed.

Lemma chain_NoDup fs st l : chain_ok fs st l → NoDup l.
Proof using.
  induction l as [|c l IH]; intros H; [constructor|]. constructor.
  - intros (l1 & l2 & ->)%list_elem_of_split.
    pose proof (chain_suffix fs st (c :: l1) c l2 H) as H2.
    assert (E : c :: l1 ++ c :: l2 = c :: l2) by (by eapply chain_det).
    apply (f_equal length) in E. simpl in E. rewrite length_app in E. simpl in E. lia.
  - destruct l as [|d l]; [constructor|]. apply IH. by apply chain_ok_cons in H as (_ & _ & H).
Qed.

(** Distinct data clusters: no more than the volume has. *)
Lemma clusters_length fs l :
  NoDup l → Forall (data_cluster fs) l → 0 ≤ cluster_count fs →
  Z.of_nat (length l) ≤ cluster_count fs.
Proof using.
  intros Hnd Hl Hn.
  assert (Hsub : l ⊆ seqZ 2 (cluster_count fs)).
  { intros c Hc. rewrite Forall_forall in Hl. specialize (Hl c Hc).
    apply elem_of_seqZ. unfold data_cluster in Hl. lia. }
  assert (length l ≤ length (seqZ 2 (cluster_count fs)))%nat as Hle.
  { apply submseteq_length. apply NoDup_submseteq; [done|]. intros c Hc. by apply Hsub. }
  rewrite length_seqZ in Hle. lia.
Qed.

Lemma chain_length fs st l :
  fat_ok fs st → chain_ok fs st l → Z.of_nat (length l) ≤ cluster_count fs.
Proof using.
  intros [_ Hg] H. pose proof (geo_count _ _ Hg).
  apply clusters_length; [by eapply chain_NoDup|by eapply chain_data|lia].
Qed.

(** *** [collect_chain] *)

(** Sound: what the loop returns extends [acc] by a chain from [current]. *)
Lemma collect_loop_sound fs st fuel current acc :
  fat_ok fs st → Z.of_nat (length acc) ≤ cluster_count fs →
  (Z.to_nat (cluster_count fs) < fuel + length acc)%nat →
  ∃ r, collect_loop fs fuel current acc st = (r, st) ∧
    match r with
    | Ok l => ∃ rest, l = acc ++ rest ∧
        match current with
        | None => rest = []
        | Some c => hd_error rest = Some c ∧ chain_ok fs st rest
        end
    | Err e => e = FatCorrupt
    | _ => False
    end.
Proof using.
  intros Hok. revert current acc. induction fuel as [|fuel IH]; intros current acc Hlen Hfuel;
    (destruct current as [c|]; [|exists (Ok acc); split; [done|]; exists []; by rewrite app_nil_r]).
  { cbn [collect_loop]. lia. }
  cbn [collect_loop]. destruct (Z.leb_spec (cluster_count fs) (Z.of_nat (length acc))) as [|Hlt];
    [by exists (Err FatCorrupt)|].
  destruct (decide (data_cluster fs c)) as [Hc|Hc].
  2:{ exists (Err FatCorrupt). unfold bind. by rewrite next_cluster_bad. }
  unfold bind. rewrite next_cluster_spec by done.
  destruct (next_of fs (fat_val fs st c)) as [next|e| |] eqn:En.
  - destruct (IH next (acc ++ [c])) as (r & E & Hr); [rewrite length_app; simpl; lia..|].
    exists r. split; [done|]. destruct r as [l|e| |]; try done.
    destruct Hr as (rest & -> & Hrest). exists (c :: rest). split; [by rewrite <- app_assoc|].
    split; [done|]. destruct next as [d|].
    + destruct Hrest as [Hh Hrest]. destruct rest as [|d' rest]; [done|]. injection Hh as ->.
      by apply chain_ok_cons.
    + by subst rest.
  - exists (Err FatCorrupt). split; [|done]. do 2 f_equal.
    unfold next_of in En. repeat case_match; congruence.
  - unfold next_of in En. repeat case_match; discriminate.
  - unfold next_of in En. repeat case_match; discriminate.
Qed.

(** Complete: an existing chain is found. *)
Lemma collect_loop_complete fs st fuel rest acc :
  fat_ok fs st → chain_ok fs st rest →
  Z.of_nat (length (acc ++ rest)) ≤ cluster_count fs → (length rest < fuel)%nat →
  collect_loop fs fuel (hd_error rest) acc st = (Ok (acc ++ rest), st).
Proof using.
  intros Hok. revert rest acc. induction fuel as [|fuel IH]; intros rest acc Hch Hlen Hf; [lia|].
  destruct rest as [|c rest]; [done|]. cbn [collect_loop hd_error].
  rewrite length_app in Hlen. simpl in Hlen.
  rewrite (proj2 (Z.leb_gt _ _)) by lia.
  assert (Hc : data_cluster fs c) by (by destruct Hch).
  unfold bind. rewrite next_cluster_spec by done. simpl in Hf.
  destruct rest as [|d rest].
  - destruct Hch as [_ ->]. by destruct fuel.
  - apply chain_ok_cons in Hch as (_ & -> & Hch).
    specialize (IH (d :: rest) (acc ++ [c]) Hch). cbn [hd_error] in IH.
    rewrite IH; [by rewrite <- app_assoc| |simpl in *; lia].
    rewrite !length_app. simpl in *. lia.
Qed.

Lemma collect_chain_spec fs st first :
  fat_ok fs st →
  ∃ r, collect_chain fs first st = (r, st) ∧
    match r with
    | Ok l => chain_of fs st first l
    | Err e => e = FatCorrupt ∧ ∀ l, ¬ chain_of fs st first l
    | _ => False
    end.
Proof using.
  intros Hok. pose proof Hok as [_ Hg]. pose proof (geo_count _ _ Hg).
  unfold collect_chain. destruct (Z.eqb_spec first 0) as [->|Hne].
  { exists (Ok []). split; [done|]. by left. }
  destruct (collect_loop_sound fs st (S (Z.to_nat (cluster_count fs))) (Some first) [] Hok)
    as (r & E & Hr); [simpl; lia..|].
  exists r. split; [done|]. destruct r as [l|e| |]; try done.
  - destruct Hr as (rest & -> & Hh & Hch). right. done.
  - split; [done|]. intros l [[? _]|(_ & Hh & Hch)]; [done|].
    pose proof (chain_length fs st l Hok Hch) as Hlen.
    pose proof (collect_loop_complete fs st (S (Z.to_nat (cluster_count fs))) l [] Hok Hch) as Hcomp.
    rewrite Hh in Hcomp. rewrite Hcomp in E; [done|simpl; lia|lia].
Qed.

(** ** Releasing and growing a chain *)

(** Only the sectors before the data area were written. *)
Definition table_only (fs : Fat32) st st' : Prop :=
  fat_ok fs st' ∧ same_but (λ l, l < data_start fs) st st'.

Lemma table_only_refl fs st : fat_ok fs st → table_only fs st st.
Proof using. intros. split; [done|apply same_but_refl]. Qed.

Lemma table_only_trans fs st1 st2 st3 :
  table_only fs st1 st2 → table_only fs st2 st3 → table_only fs st1 st3.
Proof using. intros [_ H1] [H2 H3]. split; [done|by eapply same_but_trans]. Qed.

Lemma table_only_data fs st st' c :
  fat_ok fs st → table_only fs st st' → data_cluster fs c →
  cluster_data fs st' c = cluster_data fs st c.
Proof using.
  intros [_ Hg] [_ Hs] Hc. eapply cluster_data_same; [done|exact Hs|done|].
  intros l Hl. pose proof (cluster_in_device fs _ c l Hg Hc Hl). simpl. lia.
Qed.

Lemma set_entry fs st c value :
  fat_ok fs st → is_cluster fs c → 0 ≤ value < 2^28 →
  ∃ st', set_fat_entry fs c value st = (Ok tt, st') ∧ table_only fs st st' ∧
    next_free_hint st' = next_free_hint st ∧
    ∀ c', is_cluster fs c' → fat_val fs st' c' = if decide (c' = c) then value else fat_val fs st c'.
Proof using.
  intros Hok Hc Hv. destruct (set_fat_entry_spec fs st c value Hok Hc ltac:(lia))
    as (st' & E & (Hok' & Hs & Hh) & _ & Hval).
  exists st'. split_and!; try done. intros c' Hc'. rewrite Hval by done.
  case_decide; [|done]. change 0x0fffffff with (2^28 - 1). rewrite land_mask by lia.
  by rewrite Z.mod_small.
Qed.

Lemma release_chain_spec fs st l :
  fat_ok fs st → Forall (is_cluster fs) l →
  ∃ st', release_chain fs l st = (Ok tt, st') ∧ table_only fs st st' ∧
    ∀ c, is_cluster fs c → fat_val fs st' c = if decide (c ∈ l) then 0 else fat_val fs st c.
Proof using.
  intros Hok Hl. revert st Hok. induction Hl as [|c l Hc Hl IH]; intros st Hok.
  { exists st. split; [done|]. split; [by apply table_only_refl|]. intros. rewrite decide_False; set_solver. }
  destruct (set_entry fs st c 0 Hok Hc ltac:(lia)) as (st1 & E1 & H1 & _ & Hv1).
  set (st2 := mkFat (device st1) (Z.min (next_free_hint st1) c) (fsinfo_invalidated st1)).
  destruct (IH st2 (proj1 H1)) as (st3 & E3 & H3 & Hv3).
  exists st3. split_and!.
  - unfold release_chain in *. cbn [mfor]. rewrite <- E3. unfold bind at 1. unfold bind at 1. rewrite E1.
    reflexivity.
  - eapply table_only_trans; [exact H1|exact H3].
  - intros c' Hc'. rewrite Hv3 by done. change (fat_val fs st2 c') with (fat_val fs st1 c').
    rewrite Hv1 by done. destruct (decide (c' = c)) as [->|].
    + rewrite (decide_True (P := c ∈ c :: l)) by set_solver. by case_decide.
    + destruct (decide (c' ∈ l)); [rewrite decide_True by set_solver|rewrite decide_False by set_solver]; done.
Qed.

Lemma ignore_ok {E E' A} (m : M (FatState D) E A) st a st' :
  m st = (Ok a, st') → ignore (E':=E') m st = (Ok tt, st').
Proof using. unfold ignore. by intros ->. Qed.

(** *** Links *)
Definition links (fs : Fat32) st (l : list Z) : Prop :=
  ∀ i c d, l !! i = Some c → l !! S i = Some d → next_of fs (fat_val fs st c) = Ok (Some d).

Definition ends (fs : Fat32) st (l : list Z) : Prop :=
  ∀ c, last l = Some c → next_of fs (fat_val fs st c) = Ok None.

Lemma chain_ok_alt fs st l :
  chain_ok fs st l ↔ l ≠ [] ∧ Forall (data_cluster fs) l ∧ links fs st l ∧ ends fs st l.
Proof using.
  induction l as [|c [|d l] IH]; [naive_solver| |].
  - unfold links, ends. simpl. split.
    + intros [Hc He]. split_and!; [done|by apply Forall_singleton| |naive_solver].
      intros [|i] x y; simpl; [done|]. by destruct i.
    + intros (_ & Hc & _ & He). rewrite Forall_singleton in Hc.
      split; [done|by apply He].
  - rewrite chain_ok_cons, IH. unfold links, ends. rewrite (Forall_cons _ c). split.
    + intros (Hc & Hn & _ & Hl & Hk & He). split; [done|]. split; [done|]. split; [|done].
      intros [|i] x y; simpl; [naive_solver|]. intros. by eapply (Hk i).
    + intros (_ & [Hc Hl] & Hk & He). split; [done|]. split; [by apply (Hk 0%nat)|].
      split; [done|]. split; [done|]. split; [|done]. intros i x y Hx Hy. by apply (Hk (S i)).
Qed.

(** Every member of a chain has an entry in use. *)
Lemma chain_used fs st l c : chain_ok fs st l → c ∈ l → fat_val fs st c ≠ 0.
Proof using.
  intros Hch (l1 & l2 & ->)%list_elem_of_split. apply chain_suffix in Hch.
  intros E. destruct l2 as [|d l2]; [destruct Hch as [_ Hn]|destruct Hch as (_ & Hn & _)];
    rewrite E in Hn; done.
Qed.

(** *** [ensure_chain] *)

(** [st] is [st0] with the clusters [added] appended to the chain [orig]. *)
Record grown (fs : Fat32) st0 st (orig added : list Z) : Prop := {
  gr_ok : fat_ok fs st;
  gr_chain : orig ++ added ≠ [] → chain_ok fs st (orig ++ added);
  gr_added : Forall (data_cluster fs) added;
  gr_free : ∀ c, c ∈ added → fat_val fs st0 c = 0;
  gr_table : ∀ c, is_cluster fs c → c ∉ added → last orig ≠ Some c → fat_val fs st c = fat_val fs st0 c;
  gr_zero : ∀ c, c ∈ added → cluster_data fs st c = replicate (Z.to_nat (cluster_bytes fs)) 0;
  gr_data : ∀ c, data_cluster fs c → c ∉ added → cluster_data fs st c = cluster_data fs st0 c
}.

(** The same entries, end marks being as good as each other. *)
Definition same_entry (v v' : Z) : Prop := v = v' ∨ (0x0ffffff8 ≤ v ∧ 0x0ffffff8 ≤ v').

Lemma last_app_some {A} (l1 l2 : list A) x :
  last l2 = Some x → last (l1 ++ l2) = Some x.
Proof using. intros E. rewrite last_app, E. done. Qed.

(** Appending [c] to a chain, given what the entries became. *)
Lemma chain_append fs st st' l c :
  chain_ok fs st l → data_cluster fs c → cluster_count fs ≤ 0x0fffffee → c ∉ l →
  (∀ x, is_cluster fs x → fat_val fs st' x =
     if decide (Some x = last l) then c else if decide (x = c) then END_OF_CHAIN else fat_val fs st x) →
  chain_ok fs st' (l ++ [c]).
Proof using.
  intros Hch Hc Hn Hnot Hval. pose proof (chain_NoDup _ _ _ Hch) as Hnd.
  apply chain_ok_alt in Hch as (Hne & Hdata & Hk & He). apply chain_ok_alt.
  assert (Hin : ∀ x, x ∈ l → is_cluster fs x).
  { intros x Hx. rewrite Forall_forall in Hdata. by apply data_is_cluster, Hdata. }
  split_and!.
  - by destruct l.
  - apply Forall_app. split; [done|by apply Forall_singleton].
  - intros i x y Hx Hy. destruct (decide (S i < length l)%nat) as [Hlt|Hge].
    + rewrite lookup_app_l in Hx, Hy by lia.
      assert (Hx2 : x ∈ l) by (by eapply list_elem_of_lookup_2).
      rewrite Hval by auto. rewrite decide_False.
      * rewrite decide_False by (intros ->; done). by eapply Hk.
      * intros Hl. symmetry in Hl. rewrite last_lookup in Hl.
        pose proof (NoDup_lookup _ _ _ _ Hnd Hx Hl). lia.
    + apply lookup_lt_Some in Hy as Hy2. rewrite length_app in Hy2. simpl in Hy2.
      rewrite lookup_app_l in Hx by lia. rewrite lookup_app_r in Hy by lia.
      replace (S i - length l)%nat with 0%nat in Hy by lia. injection Hy as <-.
      assert (Hx2 : x ∈ l) by (by eapply list_elem_of_lookup_2).
      rewrite Hval by auto. rewrite decide_True; [by apply next_of_link|].
      rewrite last_lookup. replace (pred (length l)) with i by lia. done.
  - intros x Hx. rewrite last_snoc in Hx. injection Hx as <-.
    rewrite Hval by (by apply data_is_cluster). rewrite decide_False.
    + by rewrite decide_True.
    + intros Hl. symmetry in Hl. apply last_Some_elem_of in Hl. done.
Qed.

Lemma next_of_eoc fs : next_of fs END_OF_CHAIN = Ok None.
Proof using. done. Qed.

Lemma grown_start fs st orig :
  fat_ok fs st → (orig ≠ [] → chain_ok fs st orig) → grown fs st st orig [].
Proof using. intros Hok Hch. split; try done; try (by intros ? ?%elem_of_nil). by rewrite app_nil_r. Qed.

(** One turn of the loop. *)
Lemma grown_step fs st0 st st1 orig added c :
  grown fs st0 st orig added → cluster_count fs ≤ 0x0fffffee → allocated_cluster fs st st1 c →
  ∃ st2, (match last (orig ++ added) with
          | None => ret tt
          | Some previous =>
              let! r := catch (E':=FatError) (set_fat_entry fs previous c) in
              match r with
              | inl _ => ret tt
              | inr error =>
                  ignore (set_fat_entry fs c 0) ;;!
                  rollback_chain_growth fs (orig ++ added) (length orig) ;;!
                  fail error
              end
          end) st1 = (Ok tt, st2) ∧ grown fs st0 st2 orig (added ++ [c]).
Proof using.
  intros [Hok Hch Hadd Hfree Htab Hzero Hdat] Hn [Hok1 Hc Hfc Ht1 Hz1 Ho1 _ Hcnt].
  assert (Hnot : c ∉ orig ++ added).
  { intros Hin. destruct (decide (orig ++ added = [])) as [E|E]; [rewrite E in Hin; set_solver|].
    by apply (chain_used _ _ _ _ (Hch E) Hin). }
  assert (Hfree0 : fat_val fs st0 c = 0).
  { rewrite <- Htab; [done|by apply data_is_cluster|set_solver|].
    intros Hl%last_Some_elem_of. set_solver. }
  assert (Hfin : ∀ st2, table_only fs st1 st2 →
    (∀ x, is_cluster fs x → fat_val fs st2 x =
       if decide (Some x = last (orig ++ added)) then c else fat_val fs st1 x) →
    grown fs st0 st2 orig (added ++ [c])).
  { intros st2 Hto Hval. split.
    - apply Hto.
    - intros _. rewrite app_assoc. destruct (decide (orig ++ added = [])) as [E|E].
      + rewrite E. simpl. split; [done|]. rewrite Hval by (by apply data_is_cluster).
        rewrite E. rewrite decide_False by done. rewrite Ht1 by (by apply data_is_cluster).
        by rewrite decide_True.
      + apply (chain_append fs st); [auto|done|done|done|]. intros x Hx. rewrite Hval, Ht1 by done. done.
    - apply Forall_app. split; [done|by apply Forall_singleton].
    - intros x [Hx|Hx]%elem_of_app; [auto|]. apply list_elem_of_singleton in Hx as ->. done.
    - intros x Hx Hnx Hlx. rewrite not_elem_of_app, list_elem_of_singleton in Hnx. destruct Hnx as [Hn1 Hn2].
      rewrite Hval, Ht1 by done. rewrite (decide_False (P := x = c)) by done.
      rewrite decide_False; [by apply Htab|]. intros E. symmetry in E. rewrite last_app in E.
      destruct (last added) as [y|] eqn:Ey; [|done]. injection E as ->.
      apply Hn1. by apply last_Some_elem_of.
    - intros x Hx. rewrite (table_only_data fs st1 st2 x Hok1 Hto).
      + apply elem_of_app in Hx as [Hx|Hx%list_elem_of_singleton]; [|by subst].
        rewrite Ho1; [auto| |set_solver]. rewrite Forall_forall in Hadd. auto.
      + apply elem_of_app in Hx as [Hx|Hx%list_elem_of_singleton]; [|by subst].
        rewrite Forall_forall in Hadd. auto.
    - intros x Hx Hnx. rewrite (table_only_data fs st1 st2 x Hok1 Hto Hx). rewrite Ho1 by (done || set_solver).
      apply Hdat; [done|set_solver]. }
  destruct (last (orig ++ added)) as [p|] eqn:El.
  - assert (Hp : data_cluster fs p).
    { pose proof (last_Some_elem_of _ _ El) as Hp.
      destruct (decide (orig ++ added = [])) as [E|E]; [rewrite E in Hp; set_solver|].
      pose proof (chain_data _ _ _ (Hch E)) as Hd. rewrite Forall_forall in Hd. auto. }
    destruct (set_entry fs st1 p c Hok1 (data_is_cluster _ _ Hp)) as (st2 & E2 & Hto & _ & Hv2);
      [unfold data_cluster in Hc; lia|].
    exists st2. split; [unfold bind, catch; by rewrite E2|]. apply Hfin; [done|].
    intros x Hx. rewrite Hv2 by done.
    destruct (decide (x = p)); [rewrite decide_True by congruence|rewrite decide_False by congruence]; done.
  - exists st1. split; [done|]. apply Hfin; [by apply table_only_refl|].
    intros x Hx. by rewrite decide_False.
Qed.

(** Rolling back a growth restores every chain of [st0]. *)
Record restored (fs : Fat32) st0 st : Prop := {
  rs_ok : fat_ok fs st;
  rs_table : ∀ c, is_cluster fs c → same_entry (fat_val fs st c) (fat_val fs st0 c);
  rs_data : ∀ c, data_cluster fs c → fat_val fs st0 c ≠ 0 →
    cluster_data fs st c = cluster_data fs st0 c
}.

Lemma rollback_spec fs st0 st orig added :
  fat_ok fs st0 → (orig ≠ [] → chain_ok fs st0 orig) → grown fs st0 st orig added →
  ∃ st', rollback_chain_growth fs (orig ++ added) (length orig) st = (Ok tt, st') ∧
    restored fs st0 st'.
Proof using.
  intros Hok0 Horig Hgr. pose proof Hgr as [Hok Hch Hadd Hfree Htab Hzero Hdat].
  assert (Hmark : ∃ st1, (match length orig with
     | O => ret tt
     | S k => let! c := lift (expect ((orig ++ added) !! k)) in ignore (set_fat_entry fs c END_OF_CHAIN)
     end) st = (Ok (E:=FatError) tt, st1) ∧ table_only fs st st1 ∧
     ∀ c, is_cluster fs c → fat_val fs st1 c =
       if decide (last orig = Some c) then END_OF_CHAIN else fat_val fs st c).
  { destruct (length orig) as [|k] eqn:El.
    - apply nil_length_inv in El as ->. exists st. split; [done|].
      split; [by apply table_only_refl|]. intros. by rewrite decide_False.
    - destruct (lookup_lt_is_Some_2 orig k ltac:(lia)) as [p Hp].
      rewrite lookup_app_l by lia. rewrite Hp.
      assert (Hlp : last orig = Some p) by (rewrite last_lookup, El; done).
      assert (Hpd : data_cluster fs p).
      { assert (orig ≠ []) as Hne by (intros ->; done).
        pose proof (chain_data _ _ _ (Horig Hne)) as Hd. rewrite Forall_forall in Hd.
        apply Hd. by apply last_Some_elem_of. }
      destruct (set_entry fs st p END_OF_CHAIN Hok (data_is_cluster _ _ Hpd)) as (st1 & E1 & Hto & _ & Hv1);
        [unfold END_OF_CHAIN; lia|].
      exists st1. split; [unfold bind, lift; cbn [expect]; by apply (ignore_ok _ _ _ _ E1)|].
      split; [done|]. intros c Hc. rewrite Hv1 by done. rewrite Hlp.
      destruct (decide (c = p)); [rewrite decide_True by congruence|rewrite decide_False by congruence]; done. }
  destruct Hmark as (st1 & E1 & Hto1 & Hv1).
  assert (Haddc : Forall (is_cluster fs) added).
  { eapply Forall_impl; [exact Hadd|]. intros c. apply data_is_cluster. }
  destruct (release_chain_spec fs st1 added (proj1 Hto1) Haddc) as (st2 & E2 & Hto2 & Hv2).
  exists st2. split.
  - unfold rollback_chain_growth. rewrite (bind_ok _ _ _ _ _ E1). rewrite drop_app_length.
    by apply (ignore_ok _ _ _ _ E2).
  - split; [apply Hto2| |].
    + intros c Hc. rewrite Hv2 by done. destruct (decide (c ∈ added)) as [Hin|Hin].
      { left. symmetry. auto. }
      rewrite Hv1 by done. destruct (decide (last orig = Some c)) as [El|El].
      * right. split; [done|].
        assert (orig ≠ []) as Hne by (intros ->; done).
        destruct (proj1 (chain_ok_alt _ _ _) (Horig Hne)) as (_ & _ & _ & He).
        by apply (next_of_end fs), He.
      * left. by apply Htab.
    + intros c Hc Hused. assert (c ∉ added) by (intros Hin; by apply Hused, Hfree).
      rewrite (table_only_data fs st1 st2 c (proj1 Hto1) Hto2 Hc).
      rewrite (table_only_data fs st st1 c Hok Hto1 Hc). by apply Hdat.
Qed.

Lemma ensure_loop_spec fs st0 orig n st added :
  fat_ok fs st0 → (orig ≠ [] → chain_ok fs st0 orig) → cluster_count fs ≤ 0x0fffffee →
  grown fs st0 st orig added →
  (∃ more st', ensure_loop fs (length orig) n (orig ++ added) st = (Ok (orig ++ added ++ more), st') ∧
     length more = n ∧ grown fs st0 st' orig (added ++ more)) ∨
  (∃ st', ensure_loop fs (length orig) n (orig ++ added) st = (Err FatNoSpace, st') ∧
     restored fs st0 st').
Proof using.
  intros Hok0 Horig Hn. revert st added. induction n as [|n IH]; intros st added Hgr.
  { left. exists [], st. rewrite app_nil_r. split; [done|]. done. }
  cbn [ensure_loop].
  destruct (allocate_cluster_spec fs st (gr_ok _ _ _ _ _ Hgr)) as [(c & st1 & E1 & Ha)|[E1 _]].
  - destruct (grown_step fs st0 st st1 orig added c Hgr Hn Ha) as (st2 & E2 & Hgr2).
    assert (Ec : catch (E':=FatError) (allocate_cluster fs) st = (Ok (inl c), st1))
      by (unfold catch; by rewrite E1).
    rewrite (bind_ok _ _ _ _ _ Ec). rewrite (bind_ok _ _ _ _ _ E2).
    rewrite <- app_assoc.
    destruct (IH st2 (added ++ [c]) Hgr2) as [(more & st3 & E3 & Hl & Hgr3)|(st3 & E3 & Hr)].
    + left. exists (c :: more), st3. rewrite E3, <- !app_assoc in *. split; [done|].
      split; [simpl; lia|done].
    + right. exists st3. done.
  - right. destruct (rollback_spec fs st0 st orig added Hok0 Horig Hgr) as (st' & E2 & Hr).
    assert (Ec : catch (E':=FatError) (allocate_cluster fs) st = (Ok (inr FatNoSpace), st))
      by (unfold catch; by rewrite E1).
    exists st'. rewrite (bind_ok _ _ _ _ _ Ec). by rewrite (bind_ok _ _ _ _ _ E2).
Qed.

Lemma ensure_chain_spec fs st chain needed :
  fat_ok fs st → (chain ≠ [] → chain_ok fs st chain) → cluster_count fs ≤ 0x0fffffee →
  (∃ added st', ensure_chain fs chain needed st = (Ok (chain ++ added, added), st') ∧
     length added = (Z.to_nat needed - length chain)%nat ∧ grown fs st st' chain added) ∨
  (∃ st', ensure_chain fs chain needed st = (Err FatNoSpace, st') ∧ restored fs st st').
Proof using.
  intros Hok Hch Hn. unfold ensure_chain.
  destruct (ensure_loop_spec fs st chain (Z.to_nat needed - length chain) st [] Hok Hch Hn
    (grown_start fs st chain Hok Hch)) as [(more & st' & E & Hl & Hgr)|(st' & E & Hr)];
    rewrite app_nil_r in E.
  - left. exists more, st'. rewrite (bind_ok _ _ _ _ _ E). simpl. rewrite drop_app_length. done.
  - right. exists st'. split; [|done]. unfold bind. by rewrite E.
Qed.

(** ** The bytes along a chain *)
Definition chain_bytes (fs : Fat32) st (l : list Z) : list Z :=
  concat (map (cluster_data fs st) l).

Definition in_chain (fs : Fat32) (l : list Z) (lba : Z) : Prop :=
  ∃ c, c ∈ l ∧ in_cluster fs c lba.

Definition bytes_n (fs : Fat32) : nat := Z.to_nat (cluster_bytes fs).

Lemma bytes_n_eq fs n : geometry fs n → bytes_n fs = (Z.to_nat (sectors_per_cluster fs) * 512)%nat ∧
  (0 < bytes_n fs)%nat ∧ Z.of_nat (bytes_n fs) = cluster_bytes fs.
Proof using. intros []. unfold bytes_n, cluster_bytes, SECTOR_SIZE. lia. Qed.

Lemma cluster_sectors_ok fs st c :
  fat_ok fs st → data_cluster fs c →
  Forall (λ s, length s = 512%nat) (map (sec st) (seqZ (cluster_first fs c) (sectors_per_cluster fs))).
Proof using.
  intros [Hd Hg] Hc. apply Forall_map, Forall_forall. intros l Hl%elem_of_seqZ.
  pose proof (cluster_in_device fs _ c l Hg Hc). pose proof (geometry_data_le _ _ Hg).
  apply dev_sector; [done|]. unfold in_cluster in *. lia.
Qed.

Lemma cluster_data_length fs st c :
  fat_ok fs st → data_cluster fs c → length (cluster_data fs st c) = bytes_n fs.
Proof using.
  intros Hok Hc. pose proof Hok as [_ Hg]. unfold cluster_data.
  rewrite (length_concat_uniform _ 512) by (by apply cluster_sectors_ok).
  rewrite length_map, length_seqZ. destruct (bytes_n_eq _ _ Hg) as [-> _]. done.
Qed.

Lemma chain_bytes_length fs st l :
  fat_ok fs st → Forall (data_cluster fs) l → length (chain_bytes fs st l) = (length l * bytes_n fs)%nat.
Proof using.
  intros Hok Hl. unfold chain_bytes. rewrite (length_concat_uniform _ (bytes_n fs)).
  - by rewrite length_map.
  - apply Forall_map. eapply Forall_impl; [exact Hl|]. intros c Hc. by apply cluster_data_length.
Qed.

(** Byte [i] of a chain: its cluster, its sector and its place there. *)
Lemma chain_lookup fs st l i :
  fat_ok fs st → Forall (data_cluster fs) l →
  chain_bytes fs st l !! i =
  c ← l !! (i / bytes_n fs)%nat;
  sec st (cluster_first fs c + Z.of_nat (i mod bytes_n fs / 512)) !! (i mod bytes_n fs mod 512)%nat.
Proof using.
  intros Hok Hl. pose proof Hok as [_ Hg]. destruct (bytes_n_eq _ _ Hg) as (En & Hpos & _).
  unfold chain_bytes. rewrite (lookup_concat_uniform _ (bytes_n fs)); [|done|].
  2:{ apply Forall_map. eapply Forall_impl; [exact Hl|]. intros c Hc. by apply cluster_data_length. }
  rewrite list_lookup_fmap. destruct (l !! (i / bytes_n fs)%nat) as [c|] eqn:Ec; [|done]. simpl.
  assert (Hc : data_cluster fs c) by (exact (Forall_lookup_1 _ _ _ _ Hl Ec)).
  unfold cluster_data. rewrite (lookup_concat_uniform _ 512); [|lia|by apply cluster_sectors_ok].
  rewrite list_lookup_fmap.
  assert (Hlt : (i mod bytes_n fs / 512 < Z.to_nat (sectors_per_cluster fs))%nat).
  { apply Nat.Div0.div_lt_upper_bound. pose proof (Nat.mod_upper_bound i (bytes_n fs)). lia. }
  rewrite lookup_seqZ_lt by lia. done.
Qed.

Lemma sectors_index fs n i :
  geometry fs n → (i mod bytes_n fs / 512 < Z.to_nat (sectors_per_cluster fs))%nat.
Proof using.
  intros Hg. destruct (bytes_n_eq _ _ Hg) as (En & Hpos & _).
  apply Nat.Div0.div_lt_upper_bound. pose proof (Nat.mod_upper_bound i (bytes_n fs)). lia.
Qed.

(** Two bytes of a chain live in the same sector only if they are in the same
    512-byte piece of the file. *)
Lemma same_sector fs n l i j c d :
  geometry fs n → NoDup l →
  l !! (i / bytes_n fs)%nat = Some c → l !! (j / bytes_n fs)%nat = Some d →
  cluster_first fs c + Z.of_nat (i mod bytes_n fs / 512) =
  cluster_first fs d + Z.of_nat (j mod bytes_n fs / 512) →
  (i / 512 = j / 512)%nat.
Proof using.
  intros Hg Hnd Hc Hd E.
  pose proof (sectors_index fs n i Hg). pose proof (sectors_index fs n j Hg).
  assert (c = d) as <-.
  { apply (clusters_disjoint fs n c d (cluster_first fs c + Z.of_nat (i mod bytes_n fs / 512)) Hg);
      unfold in_cluster; lia. }
  pose proof (NoDup_lookup _ _ _ _ Hnd Hc Hd) as Ei.
  assert (Em : (i mod bytes_n fs / 512 = j mod bytes_n fs / 512)%nat) by lia.
  destruct (bytes_n_eq _ _ Hg) as (En & Hpos & _).
  pose proof (Nat.div_mod_eq i (bytes_n fs)) as Di. pose proof (Nat.div_mod_eq j (bytes_n fs)) as Dj.
  rewrite Di, Dj, Ei. rewrite En in *. set (k := Z.to_nat (sectors_per_cluster fs)) in *.
  rewrite !(Nat.mul_comm (k * 512)), !Nat.mul_assoc, !Nat.div_add_l by lia. rewrite <- En in *. congruence.
Qed.

Lemma mod_512 fs n i : geometry fs n → (i mod bytes_n fs mod 512 = i mod 512)%nat.
Proof using.
  intros Hg. destruct (bytes_n_eq _ _ Hg) as (-> & _). rewrite Nat.mul_comm.
  rewrite Nat.Div0.mod_mul_r. rewrite Nat.mul_comm, Nat.Div0.mod_add, Nat.Div0.mod_mod. done.
Qed.

(** The bytes of a piece inside one sector share their cluster and sector. *)
Lemma piece_place fs n o i len :
  geometry fs n → (o mod 512 + len ≤ 512)%nat → (o ≤ i < o + len)%nat →
  (i / bytes_n fs = o / bytes_n fs ∧ i mod bytes_n fs / 512 = o mod bytes_n fs / 512)%nat.
Proof using.
  intros Hg Hfit Hi. destruct (bytes_n_eq _ _ Hg) as (En & Hpos & _).
  assert (Eq : (i / 512 = o / 512)%nat).
  { pose proof (Nat.div_mod_eq i 512). pose proof (Nat.div_mod_eq o 512).
    pose proof (Nat.mod_upper_bound i 512). lia. }
  rewrite En, (Nat.mul_comm _ 512). split.
  - by rewrite <- !Nat.Div0.div_div, Eq.
  - rewrite !Nat.Div0.mod_mul_r. rewrite !(Nat.mul_comm 512), !Nat.div_add by lia.
    rewrite !(Nat.div_small (_ mod 512)) by (apply Nat.mod_upper_bound; lia). by rewrite Eq.
Qed.

(** Writing [piece] inside one sector of the chain. *)
Lemma write_piece fs st l (o : nat) c piece :
  fat_ok fs st → Forall (data_cluster fs) l → NoDup l → l !! (o / bytes_n fs)%nat = Some c →
  bytes_ok piece → (o mod 512 + length piece ≤ 512)%nat →
  let lba := cluster_first fs c + Z.of_nat (o mod bytes_n fs / 512) in
  ∃ st', (let! sector := f_read_sector lba in
          let! sector := lift (put sector (Z.of_nat (o mod 512)) piece) in
          f_write_sector lba sector) st = (Ok tt, st') ∧
    quiet fs (in_chain fs l) st st' ∧
    ∀ i, chain_bytes fs st' l !! i =
      if decide (o ≤ i < o + length piece)%nat then piece !! (i - o)%nat
      else chain_bytes fs st l !! i.
Proof using.
  intros Hok Hl Hnd Hc Hp Hfit lba. pose proof Hok as [_ Hg].
  assert (Hcd : data_cluster fs c) by (exact (Forall_lookup_1 _ _ _ _ Hl Hc)).
  pose proof (sectors_index fs _ o Hg) as Hidx.
  assert (Hin : in_cluster fs c lba) by (unfold in_cluster, lba; lia).
  pose proof (cluster_in_device fs _ c lba Hg Hcd Hin) as Hdev. pose proof (geometry_data_le _ _ Hg).
  destruct (read_spec fs st lba Hok ltac:(lia)) as [E1 Hs1].
  destruct (put_spec (E:=FatError) (sec st lba) (Z.of_nat (o mod 512)) piece Hs1 Hp)
    as (s' & E2 & Hs2 & Hsp); [lia..|].
  destruct (write_spec fs st lba s' Hok ltac:(lia) Hs2) as (st' & E3 & Hok' & Hsame & Hs' & Hh & _).
  exists st'. split; [rewrite (bind_ok _ _ _ _ _ E1); unfold bind, lift; by rewrite E2|].
  split.
  { split; [done|]. split; [|done]. eapply same_but_weaken; [|exact Hsame].
    intros x ->. exists c. split; [by eapply list_elem_of_lookup_2|done]. }
  intros i. rewrite !chain_lookup, (mod_512 fs _ i Hg) by done.
  destruct (l !! (i / bytes_n fs)%nat) as [d|] eqn:Ed; cbn [mbind option_bind].
  2:{ rewrite decide_False; [done|]. intros Hi.
      destruct (piece_place fs _ o i _ Hg Hfit Hi) as [Eb _]. by rewrite Eb, Hc in Ed. }
  assert (Hdd : data_cluster fs d) by (exact (Forall_lookup_1 _ _ _ _ Hl Ed)).
  pose proof (sectors_index fs _ i Hg) as Hidx2.
  set (lba2 := cluster_first fs d + Z.of_nat (i mod bytes_n fs / 512)).
  assert (Hin2 : in_cluster fs d lba2) by (unfold in_cluster, lba2; lia).
  pose proof (cluster_in_device fs _ d lba2 Hg Hdd Hin2) as Hdev2.
  destruct (decide (lba2 = lba)) as [El|Hne].
  - pose proof (same_sector fs _ l i o d c Hg Hnd Ed Hc El) as Eq.
    rewrite El, Hs'. rewrite (lookup_splice _ _ _ _ _ Hsp). rewrite Nat2Z.id.
    pose proof (Nat.div_mod_eq i 512). pose proof (Nat.div_mod_eq o 512).
    destruct (decide (o ≤ i < o + length piece)%nat).
    + rewrite decide_True by lia. f_equal. lia.
    + rewrite decide_False by lia. done.
  - rewrite decide_False.
    + destruct Hsame as [_ Hsame]. by rewrite Hsame by (done || lia).
    + intros Hi. apply Hne. unfold lba2, lba.
      destruct (piece_place fs _ o i _ Hg Hfit Hi) as [Eb ->].
      rewrite Eb, Hc in Ed. by injection Ed as <-.
Qed.

Lemma offset_parts fs n (o : nat) :
  geometry fs n →
  Z.of_nat o / cluster_bytes fs = Z.of_nat (o / bytes_n fs) ∧
  Z.of_nat o mod cluster_bytes fs = Z.of_nat (o mod bytes_n fs) ∧
  Z.of_nat o mod cluster_bytes fs / SECTOR_SIZE = Z.of_nat (o mod bytes_n fs / 512) ∧
  (Z.of_nat o mod cluster_bytes fs) mod SECTOR_SIZE = Z.of_nat (o mod 512).
Proof using.
  intros Hg. destruct (bytes_n_eq _ _ Hg) as (_ & _ & <-).
  rewrite <- Nat2Z.inj_div, <- Nat2Z.inj_mod. change SECTOR_SIZE with (Z.of_nat 512).
  rewrite <- Nat2Z.inj_div, <- Nat2Z.inj_mod. by rewrite (mod_512 fs _ o Hg).
Qed.

Lemma write_chain_loop_spec fs l fuel st (o : nat) data :
  fat_ok fs st → Forall (data_cluster fs) l → NoDup l → bytes_ok data →
  (o + length data ≤ length l * bytes_n fs)%nat → (length data ≤ fuel)%nat →
  ∃ st', write_chain_loop fs fuel l (Z.of_nat o) data st = (Ok tt, st') ∧
    quiet fs (in_chain fs l) st st' ∧
    ∀ i, chain_bytes fs st' l !! i =
      if decide (o ≤ i < o + length data)%nat then data !! (i - o)%nat else chain_bytes fs st l !! i.
Proof using.
  intros Hok Hl Hnd. revert st o data Hok. induction fuel as [|fuel IH]; intros st o data Hok Hb Hfit Hf.
  { destruct data; [|simpl in Hf; lia]. exists st. split; [done|]. split; [by apply quiet_refl|].
    intros i. rewrite decide_False; [done|simpl; lia]. }
  destruct data as [|b data].
  { exists st. split; [done|]. split; [by apply quiet_refl|].
    intros i. rewrite decide_False; [done|simpl; lia]. }
  remember (b :: data) as bs eqn:Ebs. assert (Hne : (0 < length bs)%nat) by (subst; simpl; lia).
  pose proof Hok as [_ Hg]. destruct (bytes_n_eq _ _ Hg) as (En & Hpos & Ecb).
  destruct (offset_parts fs _ o Hg) as (P1 & P2 & P3 & P4).
  destruct (lookup_lt_is_Some_2 l (o / bytes_n fs)) as [c Hc].
  { apply Nat.Div0.div_lt_upper_bound. lia. }
  assert (Hcd : data_cluster fs c) by (exact (Forall_lookup_1 _ _ _ _ Hl Hc)).
  pose proof (Nat.mod_upper_bound o 512 ltac:(lia)) as Hm.
  set (n := Nat.min (length bs) (512 - o mod 512)).
  assert (Hn : (0 < n ≤ length bs)%nat) by lia.
  assert (Htk : length (take n bs) = n) by (rewrite length_take; lia).
  destruct (write_piece fs st l o c (take n bs) Hok Hl Hnd Hc) as (st1 & E1 & Hq1 & Hv1);
    [by apply Forall_take|lia|].
  destruct (IH st1 (o + n)%nat (drop n bs) (proj1 Hq1)) as (st2 & E2 & Hq2 & Hv2);
    [by apply Forall_drop|rewrite length_drop; lia|rewrite length_drop; lia|].
  exists st2. split; [|split; [by eapply quiet_trans|]].
  - rewrite Ebs. cbn [write_chain_loop]. rewrite <- Ebs. rewrite P1, P3, P4, Nat2Z.id, Hc.
    unfold bind at 1, lift at 1. rewrite (cluster_lba_spec fs st c Hok Hcd).
    replace (Z.min (Z.of_nat (length bs)) (SECTOR_SIZE - Z.of_nat (o mod 512))) with (Z.of_nat n)
      by (unfold SECTOR_SIZE; lia).
    rewrite Nat2Z.id, <- Nat2Z.inj_add.
    revert E1. unfold bind, lift. cbv zeta.
    destruct (f_read_sector _ st) as [[sector|e| |] sx]; try done.
    destruct (put sector (Z.of_nat (o mod 512)) (take n bs)) as [s'|e| |]; try done.
    intros ->. exact E2.
  - intros i. rewrite Hv2, Hv1, Htk, length_drop.
    destruct (decide (o + n ≤ i < o + n + (length bs - n))%nat).
    + rewrite decide_True by lia. rewrite lookup_drop. f_equal. lia.
    + destruct (decide (o ≤ i < o + n)%nat).
      * rewrite decide_True by lia. rewrite lookup_take_lt by lia. done.
      * rewrite decide_False by lia. done.
Qed.

(** [write_chain_range] is an array write on the bytes of the chain. *)
Lemma write_chain_range_spec fs l st (o : nat) data :
  fat_ok fs st → Forall (data_cluster fs) l → NoDup l → bytes_ok data →
  (o + length data ≤ length l * bytes_n fs)%nat →
  ∃ st', write_chain_range fs l (Z.of_nat o) data st = (Ok tt, st') ∧
    quiet fs (in_chain fs l) st st' ∧
    splice (chain_bytes fs st l) (Z.of_nat o) data = Some (chain_bytes fs st' l).
Proof using.
  intros Hok Hl Hnd Hb Hfit.
  destruct (write_chain_loop_spec fs l (length data) st o data Hok Hl Hnd Hb Hfit ltac:(lia))
    as (st' & E & Hq & Hv).
  exists st'. split; [done|]. split; [done|].
  destruct (splice (chain_bytes fs st l) (Z.of_nat o) data) as [d|] eqn:Es.
  - f_equal. apply list_eq. intros i. rewrite Hv, (lookup_splice _ _ _ _ _ Es), Nat2Z.id.
    destruct (decide (o ≤ i < o + length data)%nat);
      [rewrite decide_True by lia|rewrite decide_False by lia]; done.
  - rewrite splice_Some in Es; [done|lia|]. rewrite chain_bytes_length by done. lia.
Qed.

(** [write_zero_range] writes zeros in pieces that end at sector boundaries. *)
Lemma write_zero_loop_spec fs l fuel st (o len : nat) :
  fat_ok fs st → Forall (data_cluster fs) l → NoDup l →
  (o + len ≤ length l * bytes_n fs)%nat → (len ≤ 512 * fuel - o mod 512)%nat → (0 < fuel)%nat →
  ∃ st', write_zero_loop fs fuel l (Z.of_nat o) (Z.of_nat len) st = (Ok tt, st') ∧
    quiet fs (in_chain fs l) st st' ∧
    ∀ i, chain_bytes fs st' l !! i =
      if decide (o ≤ i < o + len)%nat then Some 0 else chain_bytes fs st l !! i.
Proof using.
  intros Hok Hl Hnd. revert st o len Hok. induction fuel as [|fuel IH]; intros st o len Hok Hfit Hf Hf0; [lia|].
  cbn [write_zero_loop]. destruct (Z.eqb_spec (Z.of_nat len) 0) as [E0|Hne].
  { exists st. split; [done|]. split; [by apply quiet_refl|]. intros i. rewrite decide_False by lia. done. }
  change SECTOR_SIZE with (Z.of_nat 512). rewrite <- Nat2Z.inj_mod.
  pose proof (Nat.mod_upper_bound o 512 ltac:(lia)) as Hm.
  set (n := Nat.min len (512 - o mod 512)).
  replace (Z.min (Z.of_nat len) (Z.of_nat 512 - Z.of_nat (o mod 512))) with (Z.of_nat n) by lia.
  rewrite Nat2Z.id.
  assert (Hz : bytes_ok (replicate n 0)) by (apply Forall_replicate; unfold is_byte; lia).
  destruct (write_chain_loop_spec fs l (length (replicate n 0)) st o (replicate n 0) Hok Hl Hnd Hz)
    as (st1 & E1 & Hq1 & Hv1); [rewrite length_replicate; lia|lia|].
  rewrite length_replicate in Hv1.
  unfold write_chain_range. rewrite (bind_ok _ _ _ _ _ E1).
  replace (Z.of_nat o + Z.of_nat n) with (Z.of_nat (o + n)) by lia.
  replace (Z.of_nat len - Z.of_nat n) with (Z.of_nat (len - n)) by lia.
  destruct (decide (len = n)) as [Hln|Hln].
  { replace (len - n)%nat with 0%nat by lia. exists st1. split; [by destruct fuel|]. split; [done|].
    intros i. rewrite Hv1, Hln. case_decide; [|done]. rewrite lookup_replicate_2 by lia. done. }
  assert (Hno : ((o + n) mod 512 = 0)%nat).
  { pose proof (Nat.div_mod_eq o 512) as Ho. assert (En : n = (512 - o mod 512)%nat) by lia.
    replace (o + n)%nat with (0 + (o / 512 + 1) * 512)%nat by lia. by rewrite Nat.Div0.mod_add. }
  destruct (IH st1 (o + n)%nat (len - n)%nat (proj1 Hq1)) as (st2 & E2 & Hq2 & Hv2); [lia..|].
  exists st2. split; [done|]. split; [by eapply quiet_trans|].
  intros i. rewrite Hv2, Hv1. repeat case_decide; try lia; try done.
  rewrite lookup_replicate_2 by lia. done.
Qed.

Lemma write_zero_range_spec fs l st (o len : nat) :
  fat_ok fs st → Forall (data_cluster fs) l → NoDup l →
  (o + len ≤ length l * bytes_n fs)%nat →
  ∃ st', write_zero_range fs l (Z.of_nat o) (Z.of_nat len) st = (Ok tt, st') ∧
    quiet fs (in_chain fs l) st st' ∧
    ∀ i, chain_bytes fs st' l !! i =
      if decide (o ≤ i < o + len)%nat then Some 0 else chain_bytes fs st l !! i.
Proof using.
  intros Hok Hl Hnd Hfit. unfold write_zero_range. apply write_zero_loop_spec; try done.
  - change SECTOR_SIZE with (Z.of_nat 512). rewrite <- Nat2Z.inj_div.
    pose proof (Nat.mod_upper_bound o 512). pose proof (Nat.div_mod_eq len 512).
    pose proof (Nat.mod_upper_bound len 512). lia.
  - change SECTOR_SIZE with (Z.of_nat 512). rewrite <- Nat2Z.inj_div. lia.
Qed.

(** *** Reading along a chain *)
Lemma chain_next fs st l k c :
  fat_ok fs st → chain_ok fs st l → l !! k = Some c →
  next_cluster fs c st = (Ok (l !! S k), st).
Proof using.
  intros Hok Hch Hk. pose proof (chain_data _ _ _ Hch) as Hd.
  rewrite next_cluster_spec by (done || exact (Forall_lookup_1 _ _ _ _ Hd Hk)).
  apply chain_ok_alt in Hch as (_ & _ & Hlk & He).
  destruct (l !! S k) as [d|] eqn:Ed; [by rewrite (Hlk k c d Hk Ed)|].
  rewrite (He c); [done|]. rewrite last_lookup.
  apply lookup_lt_Some in Hk as Hlt. apply lookup_ge_None in Ed.
  replace (pred (length l)) with k by lia. done.
Qed.

Lemma skip_clusters_spec fs st l k j c :
  fat_ok fs st → chain_ok fs st l → l !! j = Some c → (j + k < length l)%nat →
  Z.of_nat (length l) ≤ MAX_CHAIN_STEPS →
  ∃ d, l !! (j + k)%nat = Some d ∧
    skip_clusters fs k c (Z.of_nat j) st = (Ok (d, Z.of_nat (j + k)), st).
Proof using.
  intros Hok Hch. revert j c. induction k as [|k IH]; intros j c Hj Hlt Hmax.
  { exists c. rewrite Nat.add_0_r. done. }
  destruct (lookup_lt_is_Some_2 l (S j) ltac:(lia)) as [c' Hc'].
  destruct (IH (S j) c' Hc' ltac:(lia) Hmax) as (d & Hd & E).
  exists d. replace (j + S k)%nat with (S j + k)%nat by lia. split; [done|].
  cbn [skip_clusters]. unfold next_or_corrupt, bind.
  rewrite (chain_next fs st l j c Hok Hch Hj), Hc'. cbn [ret].
  replace (Z.of_nat j + 1) with (Z.of_nat (S j)) by lia.
  rewrite (proj2 (Z.ltb_ge _ _)) by lia. exact E.
Qed.

Lemma cluster_slice fs st l k c inc n :
  fat_ok fs st → Forall (data_cluster fs) l → l !! k = Some c → (inc + n ≤ bytes_n fs)%nat →
  slice (cluster_data fs st c) (Z.of_nat inc) (Z.of_nat n) =
  Some (take n (drop (k * bytes_n fs + inc) (chain_bytes fs st l))).
Proof using.
  intros Hok Hl Hk Hle.
  assert (Hc : data_cluster fs c) by (exact (Forall_lookup_1 _ _ _ _ Hl Hk)).
  rewrite slice_Some by (rewrite ?cluster_data_length by done; lia). rewrite !Nat2Z.id. f_equal.
  rewrite <- drop_drop. unfold chain_bytes. rewrite drop_concat_uniform.
  - rewrite skipn_map. rewrite (drop_S l c k) by done. cbn [map concat].
    rewrite drop_app_le by (rewrite cluster_data_length by done; lia).
    rewrite take_app_le; [done|]. rewrite length_drop, cluster_data_length by done. lia.
  - apply Forall_map. eapply Forall_impl; [exact Hl|]. intros x Hx. by apply cluster_data_length.
Qed.

Lemma read_loop_spec fs st l fuel k c inc (wanted : nat) acc :
  fat_ok fs st → chain_ok fs st l → Z.of_nat (length l) ≤ MAX_CHAIN_STEPS →
  l !! k = Some c → (inc < bytes_n fs)%nat → (length acc ≤ wanted)%nat →
  (wanted - length acc + (k * bytes_n fs + inc) ≤ length l * bytes_n fs)%nat →
  (wanted - length acc < fuel)%nat →
  read_loop fs fuel c (Z.of_nat inc) (Z.of_nat k) (Z.of_nat wanted) acc st =
  (Ok (acc ++ take (wanted - length acc) (drop (k * bytes_n fs + inc) (chain_bytes fs st l))), st).
Proof using.
  intros Hok Hch Hmax. pose proof (chain_data _ _ _ Hch) as Hd. pose proof Hok as [_ Hg].
  destruct (bytes_n_eq _ _ Hg) as (_ & Hpos & Ecb).
  revert k c inc acc. induction fuel as [|fuel IH]; intros k c inc acc Hk Hinc Hacc Hfit Hf; [lia|].
  cbn [read_loop]. destruct (Z.ltb_spec (Z.of_nat (length acc)) (Z.of_nat wanted)) as [Hlt|Hge].
  2:{ replace (wanted - length acc)%nat with 0%nat by lia. rewrite take_0, app_nil_r. done. }
  apply lookup_lt_Some in Hk as Hkl. rewrite (proj2 (Z.leb_gt _ _)) by lia.
  rewrite (bind_ok _ _ _ _ _ (read_cluster_spec fs st c Hok (Forall_lookup_1 _ _ _ _ Hd Hk))).
  set (rem := (wanted - length acc)%nat) in *. set (n := Nat.min rem (bytes_n fs - inc)).
  replace (Z.min (Z.of_nat wanted - Z.of_nat (length acc)) (cluster_bytes fs - Z.of_nat inc))
    with (Z.of_nat n) by lia.
  rewrite (cluster_slice fs st l k c inc n Hok Hd Hk ltac:(lia)).
  set (piece := take n (drop (k * bytes_n fs + inc) (chain_bytes fs st l))).
  assert (Hpl : length piece = n).
  { unfold piece. rewrite length_take, length_drop, chain_bytes_length by done. lia. }
  unfold bind at 1, lift at 1. cbn [expect]. rewrite length_app, Hpl.
  destruct (Z.ltb_spec (Z.of_nat (length acc + n)) (Z.of_nat wanted)) as [Hmore|Hdone].
  - assert (En : n = (bytes_n fs - inc)%nat) by lia.
    destruct (lookup_lt_is_Some_2 l (S k)) as [c' Hc']; [nia|].
    assert (Enext : next_or_corrupt fs c st = (Ok c', st)).
    { unfold next_or_corrupt, bind. by rewrite (chain_next fs st l k c Hok Hch Hk), Hc'. }
    rewrite (bind_ok _ _ _ _ _ Enext). change 0 with (Z.of_nat 0).
    replace (Z.of_nat k + 1) with (Z.of_nat (S k)) by lia.
    rewrite (IH (S k) c' 0%nat (acc ++ piece) Hc');
      [|lia|rewrite length_app; lia|rewrite length_app, Hpl; nia|rewrite length_app; lia].
    rewrite length_app, Hpl, <- app_assoc. do 3 f_equal.
    rewrite (take_drop_split _ (k * bytes_n fs + inc) n rem) by lia. fold piece. f_equal.
    f_equal; [lia|]. f_equal. nia.
  - unfold bind at 1, ret at 1. assert (En : n = rem) by lia.
    assert (Efin : ∀ fuel s c0, (read_loop fs fuel c0 0 s (Z.of_nat wanted) (acc ++ piece)) st
      = (Ok (acc ++ piece), st)).
    { intros fuel' s c0. destruct fuel'; cbn [read_loop]; rewrite length_app, Hpl;
        rewrite (proj2 (Z.ltb_ge _ _)) by lia; done. }
    rewrite Efin. unfold piece. by rewrite En.
Qed.

(** Reading part of a file: the bytes of its chain. *)
Lemma read_from_spec fs st l first (o n : nat) :
  fat_ok fs st → chain_ok fs st l → hd_error l = Some first →
  Z.of_nat (length l) ≤ MAX_CHAIN_STEPS → (0 < n)%nat → (o + n ≤ length l * bytes_n fs)%nat →
  read_from fs first (Z.of_nat o) (Z.of_nat n) st =
  (Ok (take n (drop o (chain_bytes fs st l))), st).
Proof using.
  intros Hok Hch Hh Hmax Hn Hfit. pose proof Hok as [_ Hg].
  destruct (bytes_n_eq _ _ Hg) as (_ & Hpos & _).
  destruct (offset_parts fs _ o Hg) as (P1 & P2 & _).
  assert (H0 : l !! 0%nat = Some first) by (by destruct l).
  assert (Hk : (0 + o / bytes_n fs < length l)%nat).
  { apply Nat.Div0.div_lt_upper_bound. lia. }
  destruct (skip_clusters_spec fs st l (o / bytes_n fs) 0 first Hok Hch H0 Hk Hmax) as (c & Hc & E).
  rewrite Nat.add_0_l in Hc, E. change (Z.of_nat 0) with 0 in E.
  unfold read_from. rewrite P1, P2, !Nat2Z.id. rewrite (bind_ok _ _ _ _ _ E).
  pose proof (Nat.div_mod_eq o (bytes_n fs)) as Do.
  pose proof (Nat.mod_upper_bound o (bytes_n fs) ltac:(lia)).
  rewrite (read_loop_spec fs st l (S n) (o / bytes_n fs) c (o mod bytes_n fs) n []);
    try done; simpl; try lia.
  rewrite Nat.sub_0_r. do 3 f_equal. f_equal. lia.
Qed.
End Chains.
