(* ===== verification/FatFiles.v ===== *)
(** * Files of a FAT32 volume

    The directory entry of a file and [write_at] on it: the bytes of the file
    after a write, its new entry, and what stays the same.  The properties of
    the filesystem are at the end, with a small volume they are tried on. *)
From Stdlib Require Import String.
From stdpp Require Import base numbers list gmap sets.
From Stdlib Require Import ZArith Lia Bool.
From S2P Require Import Prelude Bytes Str Block FatNames Fat32 FatTable FatChains.

Lemma byte_of_splice s at_ src s' i :
  splice s at_ src = Some s' →
  byte_of s' i = if decide (at_ ≤ Z.of_nat i < at_ + Z.of_nat (length src))
                 then byte_of src (i - Z.to_nat at_) else byte_of s i.
Proof.
  intros E. unfold byte_of. rewrite !nth_lookup, (lookup_splice _ _ _ _ i E).
  by case_decide.
Qed.

Section Files.
Context {D : Type} `{HD : BlockDevice D} `{HR : !ReliableDevice D}.
Implicit Types st : FatState D.

(** ** A directory slot *)

(** A slot of a directory cluster. *)
Definition loc_ok (fs : Fat32) (loc : EntryLocation) : Prop :=
  data_cluster fs (loc_cluster loc) ∧ 0 ≤ loc_offset loc < cluster_bytes fs ∧
  loc_offset loc mod 32 = 0.

Definition loc_lba (fs : Fat32) (loc : EntryLocation) : Z :=
  cluster_first fs (loc_cluster loc) + loc_offset loc / SECTOR_SIZE.

Definition slot_at (fs : Fat32) st (loc : EntryLocation) : list Z :=
  take 32 (drop (Z.to_nat (loc_offset loc mod SECTOR_SIZE)) (sec st (loc_lba fs loc))).

Lemma loc_place fs n loc :
  geometry fs n → loc_ok fs loc →
  in_cluster fs (loc_cluster loc) (loc_lba fs loc) ∧
  0 ≤ loc_offset loc mod SECTOR_SIZE ∧ loc_offset loc mod SECTOR_SIZE + 32 ≤ 512.
Proof using.
  intros Hg (_ & Ho & Hm). destruct Hg. unfold loc_lba, in_cluster, cluster_bytes, SECTOR_SIZE in *.
  Z.div_mod_to_equations. nia.
Qed.

Lemma slot_ok fs st loc :
  fat_ok fs st → loc_ok fs loc →
  sector_ok (sec st (loc_lba fs loc)) ∧ 0 ≤ loc_lba fs loc < sector_count (device st) ∧
  data_start fs ≤ loc_lba fs loc ∧
  length (slot_at fs st loc) = 32%nat ∧ bytes_ok (slot_at fs st loc).
Proof using.
  intros Hok Hloc. pose proof Hok as [Hd Hg]. destruct (loc_place fs _ loc Hg Hloc) as (Hin & H0 & H32).
  pose proof (cluster_in_device fs _ _ _ Hg (proj1 Hloc) Hin). pose proof (geometry_data_le _ _ Hg).
  assert (Hs : sector_ok (sec st (loc_lba fs loc))) by (apply dev_sector; [done|lia]).
  split_and!; try lia; try apply Hs.
  - unfold slot_at. destruct Hs as [Hl _]. rewrite length_take, length_drop, Hl. lia.
  - apply Forall_take, Forall_drop. apply Hs.
Qed.

Lemma read_entry_spec fs st loc :
  fat_ok fs st → loc_ok fs loc → read_entry fs loc st = (Ok (slot_at fs st loc), st).
Proof using.
  intros Hok Hloc. pose proof Hok as [_ Hg]. destruct (loc_place fs _ loc Hg Hloc) as (Hin & H0 & H32).
  destruct (slot_ok fs st loc Hok Hloc) as (Hs & Hl & _).
  unfold read_entry. unfold bind at 1, lift at 1. rewrite (cluster_lba_spec fs st _ Hok (proj1 Hloc)).
  destruct (read_spec fs st (loc_lba fs loc) Hok Hl) as [E _]. unfold loc_lba in E.
  rewrite (bind_ok _ _ _ _ _ E). unfold lift. destruct Hs as [Hlen _].
  rewrite slice_Some by (fold (loc_lba fs loc); rewrite ?Hlen; lia). done.
Qed.

Lemma write_entry_spec fs st loc entry :
  fat_ok fs st → loc_ok fs loc → length entry = 32%nat → bytes_ok entry →
  ∃ st', write_entry fs loc entry st = (Ok tt, st') ∧
    quiet fs (in_cluster fs (loc_cluster loc)) st st' ∧ slot_at fs st' loc = entry.
Proof using.
  intros Hok Hloc Hlen Hb. pose proof Hok as [_ Hg].
  destruct (loc_place fs _ loc Hg Hloc) as (Hin & H0 & H32).
  destruct (slot_ok fs st loc Hok Hloc) as (Hs & Hl & _).
  destruct (read_spec fs st (loc_lba fs loc) Hok Hl) as [E1 _].
  destruct (put_spec (E:=FatError) _ (loc_offset loc mod SECTOR_SIZE) entry Hs Hb H0 ltac:(lia))
    as (s' & E2 & Hs' & Hsp).
  destruct (write_spec fs st (loc_lba fs loc) s' Hok Hl Hs') as (st' & E3 & Hok' & Hsame & Hsec & Hh & _).
  exists st'. split_and!.
  - unfold write_entry, write_directory_bytes. unfold bind at 1, lift at 1.
    rewrite (cluster_lba_spec fs st _ Hok (proj1 Hloc)).
    rewrite (proj2 (Z.ltb_ge _ _)) by (unfold SECTOR_SIZE in *; lia).
    fold (loc_lba fs loc). rewrite (bind_ok _ _ _ _ _ E1). unfold bind, lift. rewrite E2. exact E3.
  - split; [done|]. split; [|done]. eapply same_but_weaken; [|exact Hsame]. by intros l ->.
  - unfold slot_at. rewrite Hsec. pose proof (slice_splice_eq _ _ _ _ Hsp) as Esl.
    destruct Hs' as [Hl' _]. rewrite slice_Some in Esl by lia. injection Esl as Esl.
    rewrite Hlen in Esl. exact Esl.
Qed.

(** The entry that [write_entry_metadata] stores. *)
Lemma metadata_entry (e : list Z) first sz :
  length e = 32%nat → bytes_ok e → 0 ≤ first < 2^32 → 0 ≤ sz < 2^32 →
  ∃ e1 e2, put_cluster (E:=FatError) e first = Ok e1 ∧
    put (E:=FatError) e1 28 (le_bytes 4 sz) = Ok e2 ∧
    length e2 = 32%nat ∧ bytes_ok e2 ∧
    slot_cluster e2 = first ∧ slot_size e2 = sz ∧
    ∀ i, (i < 20)%nat → byte_of e2 i = byte_of e i.
Proof using.
  intros Hlen Hb Hf Hsz.
  assert (Hput : ∀ x at_ src, length x = 32%nat → bytes_ok x → bytes_ok src → 0 ≤ at_ →
    at_ + Z.of_nat (length src) ≤ 32 →
    ∃ y, put (E:=FatError) x at_ src = Ok y ∧ splice x at_ src = Some y ∧ length y = 32%nat ∧ bytes_ok y).
  { intros x at_ src Hx Hbx Hs Ha Hle. unfold put.
    destruct (splice x at_ src) as [y|] eqn:E; [|rewrite splice_Some in E by lia; done].
    exists y. split_and!; try done; [rewrite (length_splice _ _ _ _ E); done|].
    exact (bytes_ok_splice _ _ _ _ Hbx Hs E). }
  destruct (Hput e 20 (le_bytes 2 (Z.shiftr first 16))) as (e0 & P0 & S0 & L0 & B0);
    [done|done|apply le_bytes_ok|lia|rewrite length_le_bytes; lia|].
  destruct (Hput e0 26 (le_bytes 2 first)) as (e1 & P1 & S1 & L1 & B1);
    [done|done|apply le_bytes_ok|lia|rewrite length_le_bytes; lia|].
  destruct (Hput e1 28 (le_bytes 4 sz)) as (e2 & P2 & S2 & L2 & B2);
    [done|done|apply le_bytes_ok|lia|rewrite length_le_bytes; lia|].
  exists e1, e2. split; [unfold put_cluster; by rewrite P0|]. split_and!; try done.
  - unfold slot_cluster, u16le.
    rewrite !(byte_of_splice _ _ _ _ _ S2), !(byte_of_splice _ _ _ _ _ S1), !(byte_of_splice _ _ _ _ _ S0).
    cbn [length le_bytes]. decide_lia.
    change (S 20 - Z.to_nat 20)%nat with 1%nat. change (20 - Z.to_nat 20)%nat with 0%nat.
    change (S 26 - Z.to_nat 26)%nat with 1%nat. change (26 - Z.to_nat 26)%nat with 0%nat.
    unfold byte_of. cbn [nth]. rewrite !Z.shiftr_div_pow2, Z.shiftl_mul_pow2 by lia.
    rewrite Z.lor_comm, lor_low_high; [|lia|]; change (2^16) with 65536 in *; change (2^32) with 4294967296 in *; Z.div_mod_to_equations; lia.
  - unfold slot_size, u32le, u16le. rewrite !(byte_of_splice _ _ _ _ _ S2).
    cbn [length le_bytes]. decide_lia.
    change (S (2 + 28) - Z.to_nat 28)%nat with 3%nat. change (2 + 28 - Z.to_nat 28)%nat with 2%nat.
    change (S 28 - Z.to_nat 28)%nat with 1%nat. change (28 - Z.to_nat 28)%nat with 0%nat.
    unfold byte_of. cbn [nth]. Z.div_mod_to_equations. lia.
  - intros i Hi. rewrite !(byte_of_splice _ _ _ _ _ S2), !(byte_of_splice _ _ _ _ _ S1), !(byte_of_splice _ _ _ _ _ S0).
    rewrite !length_le_bytes, !decide_False by lia. done.
Qed.

Lemma write_entry_metadata_spec fs st loc first sz :
  fat_ok fs st → loc_ok fs loc → 0 ≤ first < 2^32 → 0 ≤ sz < 2^32 →
  ∃ st', write_entry_metadata fs loc first sz st = (Ok tt, st') ∧
    quiet fs (in_cluster fs (loc_cluster loc)) st st' ∧
    slot_cluster (slot_at fs st' loc) = first ∧ slot_size (slot_at fs st' loc) = sz ∧
    ∀ i, (i < 20)%nat → byte_of (slot_at fs st' loc) i = byte_of (slot_at fs st loc) i.
Proof using.
  intros Hok Hloc Hf Hsz. destruct (slot_ok fs st loc Hok Hloc) as (_ & _ & _ & Hlen & Hb).
  destruct (metadata_entry _ first sz Hlen Hb Hf Hsz) as (e1 & e2 & E1 & E2 & L2 & B2 & Hc & Hs & Hi).
  destruct (write_entry_spec fs st loc e2 Hok Hloc L2 B2) as (st' & E3 & Hq & Hslot).
  exists st'. rewrite Hslot. split_and!; try done; try apply Hq.
  unfold write_entry_metadata. rewrite (bind_ok _ _ _ _ _ (read_entry_spec fs st loc Hok Hloc)).
  unfold bind, lift. rewrite E1, E2. exact E3.
Qed.

(** ** Frames *)

(** Writes to data sectors leave the table and the chains alone. *)
Lemma quiet_table fs P st st' c :
  fat_ok fs st → quiet fs P st st' → (∀ l, P l → data_start fs ≤ l) → is_cluster fs c →
  fat_val fs st' c = fat_val fs st c.
Proof using.
  intros [_ Hg] (_ & Hs & _) HP Hc. by eapply fat_val_same.
Qed.

Lemma chain_ok_same fs st st' l :
  (∀ c, is_cluster fs c → fat_val fs st' c = fat_val fs st c) →
  chain_ok fs st l → chain_ok fs st' l.
Proof using.
  intros Hv Hch. pose proof (chain_data _ _ _ Hch) as Hd. rewrite Forall_forall in Hd.
  apply chain_ok_alt in Hch as (Hne & Hall & Hk & He). apply chain_ok_alt. split_and!; try done.
  - intros i c d Hc Hdd. rewrite Hv; [by eapply Hk|].
    apply data_is_cluster, Hd. by eapply list_elem_of_lookup_2.
  - intros c Hc. rewrite Hv; [by apply He|]. apply data_is_cluster, Hd. by apply last_Some_elem_of.
Qed.

Lemma in_chain_data fs n l x : geometry fs n → Forall (data_cluster fs) l → in_chain fs l x → data_start fs ≤ x.
Proof using.
  intros Hg Hl (c & Hc & Hx). rewrite Forall_forall in Hl.
  apply (cluster_in_device fs n c x Hg (Hl c Hc) Hx).
Qed.

Lemma quiet_cluster fs P st st' c :
  fat_ok fs st → quiet fs P st st' → data_cluster fs c → (∀ l, in_cluster fs c l → ¬ P l) →
  cluster_data fs st' c = cluster_data fs st c.
Proof using. intros [_ Hg] (_ & Hs & _) Hc HP. by eapply cluster_data_same. Qed.

Lemma not_in_chain fs n l c x :
  geometry fs n → c ∉ l → in_cluster fs c x → ¬ in_chain fs l x.
Proof using.
  intros Hg Hc Hx (d & Hd & Hxd). apply Hc. by rewrite (clusters_disjoint fs n c d x Hg Hx Hxd).
Qed.

Lemma slot_at_same fs st st' loc :
  fat_ok fs st → fat_ok fs st' → loc_ok fs loc →
  cluster_data fs st' (loc_cluster loc) = cluster_data fs st (loc_cluster loc) →
  slot_at fs st' loc = slot_at fs st loc.
Proof using.
  intros Hok Hok' Hloc E. unfold slot_at. do 2 f_equal.
  pose proof Hok as [_ Hg]. destruct (loc_place fs _ loc Hg Hloc) as [Hin _].
  pose proof (cluster_in_device fs _ _ _ Hg (proj1 Hloc) Hin).
  assert (Hx : ∀ s : FatState D, fat_ok fs s → ∀ j, (j < 512)%nat → sec s (loc_lba fs loc) !! j =
    cluster_data fs s (loc_cluster loc) !! (Z.to_nat (loc_lba fs loc - cluster_first fs (loc_cluster loc)) * 512 + j)%nat).
  { intros s Hs j Hj. unfold cluster_data. rewrite (lookup_concat_uniform _ 512); [|lia|apply cluster_sectors_ok; [done|apply Hloc]].
    rewrite Nat.div_add_l, Nat.div_small, Nat.add_0_r by lia.
    rewrite Nat.add_comm, Nat.Div0.mod_add, Nat.mod_small by lia.
    rewrite list_lookup_fmap, lookup_seqZ_lt by (unfold in_cluster in Hin; lia). simpl.
    f_equal. f_equal. unfold in_cluster in Hin. lia. }
  destruct (slot_ok fs st loc Hok Hloc) as ([Hl _] & _). destruct (slot_ok fs st' loc Hok' Hloc) as ([Hl' _] & _).
  apply list_eq. intros j. destruct (decide (j < 512)%nat); [by rewrite !Hx, E|].
  rewrite !lookup_ge_None_2 by lia. done.
Qed.

(** The bytes of a grown chain: the old ones, then zeros. *)
Lemma grown_bytes fs st0 st orig added :
  grown fs st0 st orig added → Forall (data_cluster fs) orig → (∀ c, c ∈ orig → c ∉ added) →
  chain_bytes fs st (orig ++ added) =
  chain_bytes fs st0 orig ++ replicate (length added * bytes_n fs) 0.
Proof using.
  intros [_ _ Hadd _ _ Hz Hd] Horig Hdis. unfold chain_bytes. rewrite map_app, concat_app. f_equal.
  - f_equal. apply map_ext_in. intros c Hc%list_elem_of_In. rewrite Forall_forall in Horig. auto.
  - clear Hadd Hd Hdis. induction added as [|c added IH]; [done|]. cbn [map concat length].
    rewrite Hz by left. rewrite IH by (intros; apply Hz; by right).
    rewrite <- replicate_add. done.
Qed.

(** ** Writing to a file *)

(** [path] names the file whose entry is [loc] and whose clusters are [chain]. *)
Record names_file (fs : Fat32) st (path : list Z) (loc : EntryLocation) (chain : list Z) : Prop := {
  nf_found : ∃ parent nm, parent_and_name fs path st = (Ok (parent, nm), st) ∧
               find_named_entry fs parent nm st = (Ok (Some loc), st);
  nf_file : loc_is_dir loc = false;
  nf_loc : loc_ok fs loc;
  nf_chain : chain_of fs st (loc_first_cluster loc) chain;
  nf_size : 0 ≤ loc_size loc ≤ Z.of_nat (length chain * bytes_n fs);
  nf_size32 : loc_size loc ≤ u32_max;
  nf_apart : loc_cluster loc ∉ chain;
  nf_used : fat_val fs st (loc_cluster loc) ≠ 0
}.

(** The bytes of a file of old contents [old] (its first [size] bytes count)
    after writing [data] at [o]. *)
Definition file_after (old : list Z) (size o : nat) (data : list Z) (i : nat) : option Z :=
  if decide (o ≤ i < o + length data)%nat then data !! (i - o)%nat
  else if decide (i < size)%nat then old !! i else Some 0.

(** The three writes of [write_at] once the chain is long enough. *)
Lemma write_body_spec fs st chain loc (o : nat) data (size : nat) need :
  fat_ok fs st → chain_ok fs st chain → loc_ok fs loc → loc_cluster loc ∉ chain →
  bytes_ok data → (0 < length data)%nat → loc_size loc = Z.of_nat size →
  need = Nat.max size (o + length data) → Z.of_nat need < 2^32 →
  (need ≤ length chain * bytes_n fs)%nat →
  ∃ st', ((if loc_size loc <? Z.of_nat o
           then write_zero_range fs chain (loc_size loc) (Z.of_nat o - loc_size loc) else ret tt) ;;!
          write_chain_range fs chain (Z.of_nat o) data ;;!
          write_entry_metadata fs loc (default 0 (hd_error chain)) (Z.of_nat need)) st = (Ok tt, st') ∧
    fat_ok fs st' ∧ (∀ c, is_cluster fs c → fat_val fs st' c = fat_val fs st c) ∧
    slot_cluster (slot_at fs st' loc) = default 0 (hd_error chain) ∧
    slot_size (slot_at fs st' loc) = Z.of_nat need ∧
    (∀ i, (i < 20)%nat → byte_of (slot_at fs st' loc) i = byte_of (slot_at fs st loc) i) ∧
    (∀ c, data_cluster fs c → c ∉ chain → c ≠ loc_cluster loc → cluster_data fs st' c = cluster_data fs st c) ∧
    ∀ i, chain_bytes fs st' chain !! i =
      if decide (o ≤ i < o + length data)%nat then data !! (i - o)%nat
      else if decide (size ≤ i < o)%nat then Some 0 else chain_bytes fs st chain !! i.
Proof using.
  intros Hok Hch Hloc Hap Hb Hne Hsz Hneed H32 Hfit. pose proof Hok as [_ Hg].
  pose proof (chain_data _ _ _ Hch) as Hd. pose proof (chain_NoDup _ _ _ Hch) as Hnd.
  assert (Hz : ∃ st1, (if loc_size loc <? Z.of_nat o
      then write_zero_range fs chain (loc_size loc) (Z.of_nat o - loc_size loc) else ret tt) st
      = (Ok tt, st1) ∧ quiet fs (in_chain fs chain) st st1 ∧
      ∀ i, chain_bytes fs st1 chain !! i = if decide (size ≤ i < o)%nat then Some 0 else chain_bytes fs st chain !! i).
  { rewrite Hsz. destruct (Z.ltb_spec (Z.of_nat size) (Z.of_nat o)).
    - replace (Z.of_nat o - Z.of_nat size) with (Z.of_nat (o - size)) by lia.
      destruct (write_zero_range_spec fs chain st size (o - size) Hok Hd Hnd ltac:(lia)) as (st1 & E & Hq & Hv).
      exists st1. split; [done|]. split; [done|]. intros i. rewrite Hv.
      destruct (decide (size ≤ i < o)%nat); [rewrite decide_True by lia|rewrite decide_False by lia]; done.
    - exists st. split; [done|]. split; [by apply quiet_refl|]. intros i. rewrite decide_False by lia. done. }
  destruct Hz as (st1 & E1 & Hq1 & Hv1). pose proof Hq1 as (Hok1 & _).
  destruct (write_chain_loop_spec fs chain (length data) st1 o data Hok1 Hd Hnd Hb ltac:(lia) ltac:(lia))
    as (st2 & E2 & Hq2 & Hv2). pose proof Hq2 as (Hok2 & _).
  assert (Hf : 0 ≤ default 0 (hd_error chain) < 2^32).
  { destruct chain as [|c l]; [done|]. simpl. rewrite Forall_forall in Hd.
    pose proof (Hd c ltac:(left)) as Hc. destruct Hg. unfold data_cluster in Hc. lia. }
  destruct (write_entry_metadata_spec fs st2 loc (default 0 (hd_error chain)) (Z.of_nat need) Hok2 Hloc Hf ltac:(lia))
    as (st3 & E3 & Hq3 & Hsc & Hss & Hsi). pose proof Hok2 as [_ Hg2]. pose proof Hok1 as [_ Hg1].
  exists st3. split; [rewrite (bind_ok _ _ _ _ _ E1); unfold write_chain_range; rewrite (bind_ok _ _ _ _ _ E2); exact E3|].
  assert (Hin3 : ∀ l, in_cluster fs (loc_cluster loc) l → data_start fs ≤ l).
  { intros l Hl. apply (cluster_in_device fs _ _ l Hg2 (proj1 Hloc) Hl). }
  split_and!; try done; [apply Hq3| | | |].
  - intros c Hc. rewrite (quiet_table fs _ st2 st3 c Hok2 Hq3 Hin3 Hc).
    rewrite (quiet_table fs _ st1 st2 c Hok1 Hq2 (λ l, in_chain_data fs _ chain l Hg1 Hd) Hc).
    exact (quiet_table fs _ st st1 c Hok Hq1 (λ l, in_chain_data fs _ chain l Hg Hd) Hc).
  - intros i Hi. rewrite Hsi by done. f_equal. unfold slot_at. do 2 f_equal.
    destruct (loc_place fs _ loc Hg Hloc) as [Hin _].
    destruct (slot_ok fs st loc Hok Hloc) as (_ & Hl & _).
    destruct (slot_ok fs st1 loc Hok1 Hloc) as (_ & Hl1 & _).
    destruct Hq2 as (_ & [_ Hs2] & _), Hq1 as (_ & [_ Hs1] & _).
    rewrite Hs2, Hs1; [done|done| |done|]; by eapply not_in_chain.
  - intros c Hc Hnc Hnl.
    rewrite (quiet_cluster fs _ st2 st3 c Hok2 Hq3 Hc).
    + rewrite (quiet_cluster fs _ st1 st2 c Hok1 Hq2 Hc) by (intros l Hl; by eapply not_in_chain).
      apply (quiet_cluster fs _ st st1 c Hok Hq1 Hc). intros l Hl. by eapply not_in_chain.
    + intros l Hl Hl'. apply Hnl. by eapply clusters_disjoint.
  - intros i. assert (Eb : chain_bytes fs st3 chain = chain_bytes fs st2 chain).
    { unfold chain_bytes. f_equal. apply map_ext_in. intros c Hc%list_elem_of_In.
      rewrite Forall_forall in Hd. apply (quiet_cluster fs _ st2 st3 c Hok2 Hq3 (Hd c Hc)).
      intros l Hl Hl'. apply Hap. by rewrite (clusters_disjoint fs _ (loc_cluster loc) c l Hg2 Hl' Hl). }
    rewrite Eb, Hv2, Hv1. done.
Qed.

(** The volume [st'] after [write_at] wrote [data] at [o] to a file of [st]. *)
Record written (fs : Fat32) st st' (loc : EntryLocation) (chain chain' : list Z) (o : nat) (data : list Z) : Prop := {
  wr_ok : fat_ok fs st';
  wr_prefix : chain `prefix_of` chain';
  wr_chain : chain_of fs st' (slot_cluster (slot_at fs st' loc)) chain';
  wr_size : slot_size (slot_at fs st' loc) = Z.max (loc_size loc) (Z.of_nat (o + length data));
  wr_entry : ∀ i, (i < 20)%nat → byte_of (slot_at fs st' loc) i = byte_of (slot_at fs st loc) i;
  wr_bytes : ∀ i, (Z.of_nat i < slot_size (slot_at fs st' loc)) →
    chain_bytes fs st' chain' !! i = file_after (chain_bytes fs st chain) (Z.to_nat (loc_size loc)) o data i;
  wr_table : ∀ c, is_cluster fs c → c ∉ chain → fat_val fs st c ≠ 0 → fat_val fs st' c = fat_val fs st c;
  wr_data : ∀ c, data_cluster fs c → c ∉ chain → c ≠ loc_cluster loc → fat_val fs st c ≠ 0 →
    cluster_data fs st' c = cluster_data fs st c
}.

Lemma chain_of_ok fs st first l : chain_of fs st first l → l ≠ [] → chain_ok fs st l.
Proof using. intros [[_ ->]|(_ & _ & H)] Hne; done. Qed.

Lemma chain_of_first fs st l :
  l ≠ [] → chain_ok fs st l → chain_of fs st (default 0 (hd_error l)) l.
Proof using.
  intros Hne Hl. right. destruct l as [|c l]; [done|]. cbn [hd_error default].
  split; [|by split]. apply chain_data in Hl. apply Forall_cons in Hl as [Hc _]. unfold data_cluster in Hc. simpl. lia.
Qed.

Lemma chain_of_det fs st first l1 l2 :
  chain_of fs st first l1 → chain_of fs st first l2 → l1 = l2.
Proof using.
  intros [[H1 ->]|(H1 & E1 & C1)] [[H2 ->]|(H2 & E2 & C2)]; try done.
  eapply chain_det; [done..|]. congruence.
Qed.

(** The volume after growing the chain and after the three writes, put together. *)
Lemma written_intro fs st st1 st' loc chain added (o size : nat) data need :
  fat_ok fs st → (chain ≠ [] → chain_ok fs st chain) → grown fs st st1 chain added →
  loc_ok fs loc → fat_val fs st (loc_cluster loc) ≠ 0 → chain ++ added ≠ [] →
  loc_size loc = Z.of_nat size → (size ≤ length chain * bytes_n fs)%nat →
  need = Nat.max size (o + length data) → (need ≤ length (chain ++ added) * bytes_n fs)%nat →
  fat_ok fs st' → (∀ c, is_cluster fs c → fat_val fs st' c = fat_val fs st1 c) →
  slot_cluster (slot_at fs st' loc) = default 0 (hd_error (chain ++ added)) →
  slot_size (slot_at fs st' loc) = Z.of_nat need →
  (∀ i, (i < 20)%nat → byte_of (slot_at fs st' loc) i = byte_of (slot_at fs st1 loc) i) →
  (∀ c, data_cluster fs c → c ∉ chain ++ added → c ≠ loc_cluster loc → cluster_data fs st' c = cluster_data fs st1 c) →
  (∀ i, chain_bytes fs st' (chain ++ added) !! i =
      if decide (o ≤ i < o + length data)%nat then data !! (i - o)%nat
      else if decide (size ≤ i < o)%nat then Some 0 else chain_bytes fs st1 (chain ++ added) !! i) →
  slot_at fs st1 loc = slot_at fs st loc →
  written fs st st' loc chain (chain ++ added) o data.
Proof using.
  intros Hok Hch Hgr Hloc Hused Hne Hsz Hfit Hneed Hlong Hok' Htab Hfc Hss Hent Hdat Hby Hslot.
  pose proof Hgr as [Hok1 Hch1 Hadd Hfree Htb Hz Hd].
  assert (Hdis : ∀ c, c ∈ chain → c ∉ added).
  { intros c Hc Ha. apply Hfree in Ha. eapply chain_used; [|exact Hc|exact Ha].
    apply Hch. by intros ->; apply elem_of_nil in Hc. }
  assert (Hdc : Forall (data_cluster fs) chain).
  { destruct chain; [done|]. eapply chain_data. by apply Hch. }
  split; try done.
  - by apply prefix_app_r.
  - rewrite Hfc. apply chain_of_first; [done|]. apply (chain_ok_same fs st1); [done|]. by apply Hch1.
  - rewrite Hss, Hsz. lia.
  - intros i Hi. rewrite Hent, Hslot by done. done.
  - intros i Hi. rewrite Hby. unfold file_after. rewrite Hss in Hi. rewrite Hsz, Nat2Z.id.
    repeat case_decide; try done; try lia.
    all: rewrite (grown_bytes fs st st1) by done.
    apply lookup_app_l. rewrite chain_bytes_length; [lia|done..].
  - intros c Hc Hnc Hu. rewrite Htab by done. apply Htb; [done| |].
    + intros Ha. by apply Hfree in Ha.
    + intros Hl. by apply Hnc, last_Some_elem_of.
  - intros c Hc Hnc Hnl Hu.
    assert (c ∉ added) by (intros Ha; by apply Hfree in Ha).
    rewrite Hdat; [by apply Hd|done| |done]. rewrite not_elem_of_app. done.
Qed.

(** [write_at] on an existing file: out of clusters it restores the volume,
    otherwise the bytes written are the file's. *)
Lemma write_at_spec fs st path loc chain (o : nat) data :
  fat_ok fs st → cluster_count fs ≤ 0x0fffffee → names_file fs st path loc chain →
  bytes_ok data → data ≠ [] → Z.of_nat (o + length data) ≤ u32_max →
  (∃ st', write_at fs path (Z.of_nat o) data st = (Err FatNoSpace, st') ∧ restored fs st st') ∨
  (∃ chain' st', write_at fs path (Z.of_nat o) data st = (Ok (Z.of_nat (length data)), st') ∧
     written fs st st' loc chain chain' o data).
Proof using.
  intros Hok Hcnt [(parent & nm & Ep & Ef) Hfile Hloc Hch Hsz Hsz32 Hap Hused] Hb Hne Hend.
  pose proof Hok as [_ Hg]. destruct (bytes_n_eq fs _ Hg) as (_ & Hbn & Hbz).
  destruct (collect_chain_spec fs st (loc_first_cluster loc) Hok) as (r & Ec & Hr).
  destruct r as [l|e| |]; [|destruct Hr as [_ Hno]; by destruct (Hno chain)|done..].
  assert (l = chain) as -> by (by eapply chain_of_det).
  set (size := Z.to_nat (loc_size loc)). set (need := Nat.max size (o + length data)).
  assert (Esz : loc_size loc = Z.of_nat size) by lia.
  assert (Eneed : Z.max (loc_size loc) (Z.of_nat o + Z.of_nat (length data)) = Z.of_nat need) by lia.
  set (nc := div_ceil (Z.of_nat need) (cluster_bytes fs)).
  assert (Hnc : Z.of_nat need ≤ nc * cluster_bytes fs ∧ 0 < nc).
  { assert (0 < length data)%nat by (destruct data; [done|simpl; lia]).
    subst nc. unfold div_ceil. rewrite <- Hbz. Z.div_mod_to_equations. nia. }
  assert (Hlen : (0 < length data)%nat) by (destruct data; [done|simpl; lia]).
  unfold write_at. destruct data as [|b0 d0]; [done|]. set (data := b0 :: d0) in *.
  unfold checked_add. rewrite (proj2 (Z.leb_le _ _)) by (unfold u32_max, u64_max in *; lia).
  cbn [ok_or]. rewrite !(bind_ok (lift (Ok _)) _ _ _ _ eq_refl).
  rewrite (proj2 (Z.ltb_ge _ _)) by lia.
  rewrite !(bind_ok _ _ _ _ _ Ep), !(bind_ok _ _ _ _ _ Ef), Hfile, !(bind_ok _ _ _ _ _ Ec), Eneed.
  fold nc.
  assert (Hchk : chain ≠ [] → chain_ok fs st chain) by (by eapply chain_of_ok).
  destruct (ensure_chain_spec fs st chain nc Hok Hchk Hcnt) as [(added & st1 & Ee & Hla & Hgr)|(st' & Ee & Hrs)].
  2:{ left. exists st'. split; [|done]. unfold bind. by rewrite Ee. }
  right. pose proof Hgr as [Hok1 Hch1 Hadd Hfree _ _ Hd1].
  assert (Hall : Z.of_nat need ≤ Z.of_nat (length (chain ++ added)) * cluster_bytes fs).
  { rewrite length_app, Hla. nia. }
  assert (Hne' : chain ++ added ≠ []).
  { intros E. rewrite E in Hall. simpl in Hall. lia. }
  assert (Hapx : loc_cluster loc ∉ chain ++ added).
  { rewrite not_elem_of_app. split; [done|]. intros Ha. by apply Hfree in Ha. }
  destruct (write_body_spec fs st1 (chain ++ added) loc o data size need Hok1 (Hch1 Hne') Hloc Hapx Hb Hlen Esz eq_refl)
    as (st' & Eb & Hok' & Htab & Hfc & Hss & Hent & Hdat & Hby); [unfold u32_max in *; lia|rewrite <- Hbz in Hall; lia|].
  exists (chain ++ added), st'. split.
  - rewrite (bind_ok _ _ _ _ _ Ee). unfold bind at 1, catch. rewrite Eb. done.
  - apply (written_intro fs st st1 st' loc chain added o size data need); try done; [lia|lia|].
    by apply slot_at_same; [..|apply Hd1; [apply Hloc|intros Ha; by apply Hfree in Ha]].
Qed.
End Files.
