(* ===== verification/FatVolume.v ===== *)
(** * Properties of the FAT32 filesystem

    What the lemmas on the table, the chains and the files give together, on
    any reliable device, and a small volume they are tried on. *)
From Stdlib Require Import String.
From stdpp Require Import base numbers list gmap sets.
From Stdlib Require Import ZArith Lia Bool.
From S2P Require Import Prelude Bytes Str Block FatNames Fat32 FatTable FatChains FatFiles.

Section Volume.
Context {D : Type} `{HD : BlockDevice D} `{HR : !ReliableDevice D}.
Implicit Types st : FatState D.

(** C39: [mount] on a reliable device either refuses the boot sector with an
    error or gives a volume whose geometry is sound: the copies of the table
    hold an entry for every cluster, and the table and every data cluster lie
    inside the device.  It never panics. *)
Theorem mount_establishes (dev : D) :
  dev_ok dev → 1 ≤ sector_count dev →
  (∃ e, mount dev = Err e) ∨
  ∃ fs st, mount dev = Ok (fs, st) ∧ device st = dev ∧ fat_ok fs st ∧
    (∀ k c, 0 ≤ k < fat_count fs → is_cluster fs c → 0 ≤ fat_lba fs k c < data_start fs) ∧
    ∀ c lba, data_cluster fs c → in_cluster fs c lba → data_start fs ≤ lba < sector_count dev.
Proof using.
  intros Hd Hn. destruct (mount_spec dev Hd Hn) as [?|(fs & st & E & Hok & ->)]; [by left|right].
  exists fs, (mkFat dev 2 false). pose proof Hok as [_ Hg]. simpl in Hg.
  split_and!; try done.
  - intros k c Hk Hc. pose proof (fat_lba_bounds fs _ k c Hg Hc Hk). destruct Hg. lia.
  - intros c lba Hc Hl. by apply (cluster_in_device fs _ c).
Qed.

(** Storing a link in the table stores it for good: the entry reads back
    as stored, every copy of the table has it with the reserved top four bits
    of the old entry kept, and neither another entry nor a sector of the data
    area changes. *)
Theorem fat_entry_roundtrip fs st c value :
  fat_ok fs st → is_cluster fs c → 0 ≤ value < 2^28 →
  ∃ st', set_fat_entry fs c value st = (Ok tt, st') ∧ fat_ok fs st' ∧
    fat_entry fs c st' = (Ok value, st') ∧
    (∀ k, 0 ≤ k < fat_count fs → Z.land (fat_raw fs st' k c) 0x0fffffff = value ∧
       Z.land (fat_raw fs st' k c) 0xf0000000 = Z.land (fat_raw fs st k c) 0xf0000000) ∧
    (∀ k c', 0 ≤ k < fat_count fs → is_cluster fs c' → c' ≠ c → fat_raw fs st' k c' = fat_raw fs st k c') ∧
    ∀ lba, data_start fs ≤ lba < sector_count (device st) → sec st' lba = sec st lba.
Proof using.
  intros Hok Hc Hv.
  destruct (set_fat_entry_spec fs st c value Hok Hc ltac:(lia)) as (st' & E & (Hok' & [_ Hs] & _) & Hr & Hf).
  assert (Hland : Z.land value 0x0fffffff = value).
  { change 0x0fffffff with (Z.ones 28). rewrite Z.land_ones by lia. by apply Z.mod_small. }
  exists st'. split_and!; try done.
  - rewrite fat_entry_spec, Hf, decide_True, Hland by done. done.
  - intros k Hk. rewrite Hr, decide_True by done. 
    split; [by rewrite merge_entry_low, Hland|].
    unfold merge_entry. rewrite Z.land_lor_distr_l, <- !Z.land_assoc, Z.land_diag.
    change (Z.land 0x0fffffff 0xf0000000) with 0. rewrite Z.land_0_r, Z.lor_0_r. done.
  - intros k c' Hk Hc' Hne. rewrite Hr, decide_False by done. done.
  - intros lba Hl. destruct Hok as [_ []]. apply Hs; [nia|lia].
Qed.

(** [allocate_cluster] takes a cluster that was free, marks it as the end
    of a chain and clears its bytes, and leaves every other entry and every
    other cluster as it was; it reports [FatNoSpace] exactly when no cluster is
    free, wherever the search starts. *)
Theorem allocate_cluster_correct fs st :
  fat_ok fs st →
  (∃ c st', allocate_cluster fs st = (Ok c, st') ∧ fat_ok fs st' ∧
     data_cluster fs c ∧ fat_val fs st c = 0 ∧ fat_val fs st' c = END_OF_CHAIN ∧
     cluster_data fs st' c = replicate (Z.to_nat (cluster_bytes fs)) 0 ∧
     (∀ c', is_cluster fs c' → c' ≠ c → fat_val fs st' c' = fat_val fs st c') ∧
     ∀ c', data_cluster fs c' → c' ≠ c → cluster_data fs st' c' = cluster_data fs st c') ∨
  (allocate_cluster fs st = (Err FatNoSpace, st) ∧
   ∀ c, data_cluster fs c → fat_val fs st c ≠ 0).
Proof using.
  intros Hok. destruct (allocate_cluster_spec fs st Hok) as [(c & st' & E & [])|?]; [left|by right].
  exists c, st'. split_and!; try done.
  - rewrite al_table, decide_True by (by try apply data_is_cluster). done.
  - intros c' Hc' Hne. rewrite al_table, decide_False by done. done.
Qed.

(** C17: [collect_chain] is exact on any table, however corrupt: it returns the
    clusters of the chain, which are distinct and inside the data area, when
    the links from [first] reach an end mark, and [FatCorrupt] when they do
    not (a cycle, a free, reserved or out-of-range link); it always returns. *)
Theorem collect_chain_exact fs st first :
  fat_ok fs st →
  (∃ l, collect_chain fs first st = (Ok l, st) ∧ chain_of fs st first l ∧
     NoDup l ∧ Forall (data_cluster fs) l) ∨
  (collect_chain fs first st = (Err FatCorrupt, st) ∧ ∀ l, ¬ chain_of fs st first l).
Proof using.
  intros Hok. destruct (collect_chain_spec fs st first Hok) as (r & E & Hr).
  destruct r as [l|e| |]; [left|right; by destruct Hr as [-> ?]|done..].
  exists l. split; [done|]. split; [done|].
  destruct Hr as [[_ ->]|(_ & _ & Hl)]; [split; constructor|].
  split; [by eapply chain_NoDup|by eapply chain_data].
Qed.


End Volume.

(** ** A small volume

    Twenty clusters of one sector, two copies of the table, and a root
    directory with one empty file, A.TXT. *)
Definition demo_boot : list Z :=
  replicate 11 0 ++ le_bytes 2 512 ++ [1] ++ le_bytes 2 2 ++ [2] ++ le_bytes 2 0 ++ le_bytes 2 24 ++
  [0] ++ le_bytes 2 0 ++ replicate 12 0 ++ le_bytes 4 1 ++ replicate 4 0 ++ le_bytes 4 2 ++
  replicate 462 0 ++ [0x55; 0xaa].
Definition demo_table : list Z :=
  le_bytes 4 0x0ffffff8 ++ le_bytes 4 0x0fffffff ++ le_bytes 4 0x0fffffff ++ replicate 500 0.
Definition demo_entry : list Z := lit "A       TXT" ++ [0x20] ++ replicate 20 0.
Definition demo_image : list Z :=
  demo_boot ++ replicate 512 0 ++ demo_table ++ demo_table ++ demo_entry ++ replicate (480 + 512 * 19) 0.
Definition demo_dev : MemoryBlockDevice := mkMemDev demo_image ∅.
Definition demo_st : FatState MemoryBlockDevice := mkFat demo_dev 2 false.
Definition demo_fs : Fat32 :=
  match mount demo_dev with Ok (fs, _) => fs | _ => mkFat32 0 0 0 0 0 0 0 None end.
Definition demo_loc : EntryLocation := mkLoc 2 0 0 0 false.

Lemma demo_dev_ok : dev_ok demo_dev ∧ sector_count demo_dev = 24.
Proof.
  split; [|vm_compute; reflexivity].
  refine (conj _ (conj _ (conj _ _))); [vm_compute; reflexivity|vm_compute; discriminate| |].
  - apply bytes_okb_ok. vm_compute. reflexivity.
  - apply map_Forall_empty.
Qed.

Lemma demo_mounts : mount demo_dev = Ok (demo_fs, demo_st).
Proof. vm_compute. reflexivity. Qed.

Lemma demo_ok : fat_ok demo_fs demo_st.
Proof.
  destruct demo_dev_ok as [Hd Hn].
  destruct (mount_spec demo_dev Hd ltac:(rewrite Hn; lia)) as [[e E]|(fs & st & E & Hok & ->)];
    rewrite demo_mounts in E; [discriminate E|]. injection E as <-. exact Hok.
Qed.

Lemma demo_cluster c : 2 ≤ c < 22 → is_cluster demo_fs c ∧ data_cluster demo_fs c.
Proof.
  intros Hc. unfold is_cluster, data_cluster. change (cluster_count demo_fs) with (20).
  lia.
Qed.

Lemma demo_names_file : names_file demo_fs demo_st (lit "/A.TXT") demo_loc [].
Proof.
  split.
  - exists 2, (lit "A.TXT"). split; vm_compute; reflexivity.
  - reflexivity.
  - split; [apply demo_cluster; unfold demo_loc; cbn; lia|]. vm_compute. split; [split; [discriminate|reflexivity]|reflexivity].
  - left. split; reflexivity.
  - vm_compute. split; discriminate.
  - vm_compute. discriminate.
  - apply not_elem_of_nil.
  - vm_compute. discriminate.
Qed.

Lemma mount_establishes_witness :
  ∃ fs st, mount demo_dev = Ok (fs, st) ∧ fat_ok fs st.
Proof.
  destruct (mount_establishes demo_dev (proj1 demo_dev_ok)) as [[e E]|(fs & st & E & _ & Hok & _)].
  - rewrite (proj2 demo_dev_ok). lia.
  - rewrite demo_mounts in E. discriminate E.
  - exists fs, st. exact (conj E Hok).
Defined.

Lemma fat_entry_roundtrip_witness :
  ∃ st', set_fat_entry demo_fs 5 6 demo_st = (Ok tt, st') ∧ fat_entry demo_fs 5 st' = (Ok 6, st').
Proof.
  destruct (fat_entry_roundtrip demo_fs demo_st 5 6 demo_ok) as (st' & E & _ & E' & _).
  - apply demo_cluster. lia.
  - lia.
  - exists st'. exact (conj E E').
Defined.

Lemma allocate_cluster_correct_witness :
  ∃ c st', allocate_cluster demo_fs demo_st = (Ok c, st') ∧ fat_val demo_fs demo_st c = 0.
Proof.
  destruct (allocate_cluster_correct demo_fs demo_st demo_ok) as [(c & st' & E & _ & _ & H & _)|[_ H]].
  - exists c, st'. exact (conj E H).
  - exfalso. refine (H 3 _ _); [apply demo_cluster; lia|vm_compute; reflexivity].
Defined.

Lemma demo_root_chain : chain_ok demo_fs demo_st [2].
Proof. split; [apply demo_cluster; lia|vm_compute; reflexivity]. Qed.

Lemma collect_chain_exact_witness : collect_chain demo_fs 2 demo_st = (Ok [2], demo_st).
Proof.
  assert (Hc : chain_of demo_fs demo_st 2 [2]).
  { right. split; [lia|]. split; [reflexivity|exact demo_root_chain]. }
  destruct (collect_chain_exact demo_fs demo_st 2 demo_ok) as [(l & E & Hl & _)|[_ H]].
  - rewrite E. rewrite (chain_of_det _ _ _ _ _ Hl Hc). reflexivity.
  - exfalso. exact (H _ Hc).
Defined.


