(* ===== verification/Initramfs.v ===== *)
(** * The initial RAM filesystem (src/src/initramfs.rs)

    Reading a ustar archive in place: header fields, the iterator over the
    regular files, lookup by path, and finding the module at boot.  The
    reference is a writer of archives, which the reader inverts. *)
From Stdlib Require Import String.
From stdpp Require Import base numbers list option.
From Stdlib Require Import ZArith Lia Bool.
From S2P Require Import Prelude Bytes Str.

Module Initramfs.

Definition BLOCK : Z := 512.

(** The bytes [a..b] of a header; every use has constant bounds inside it. *)
Definition field (hdr : list Z) (a b : nat) : list Z := take (b - a) (drop a hdr).

Record Entry := mkEntry { e_name : str; e_data : list Z }.
Record Entries := mkEntries { en_data : list Z; en_off : Z }.

Definition cstr (f : list Z) : list Z :=
  take (default (length f) (position (Z.eqb 0) f)) f.

Fixpoint parse_octal_loop (f : list Z) (value : Z) (seen : bool) : option Z :=
  match f with
  | [] => if seen then Some value else None
  | b :: f =>
      if (48 <=? b) && (b <=? 55) then
        v ← checked_mul value 8;
        v ← checked_add v (b - 48);
        parse_octal_loop f v true
      else if (b =? 32) || (b =? 0) then
        if seen then Some value else parse_octal_loop f value seen
      else None
  end.

Definition parse_octal (f : list Z) : option Z := parse_octal_loop f 0 false.

Fixpoint sum_bytes (i : nat) (hdr : list Z) : Z :=
  match hdr with
  | [] => 0
  | b :: hdr => (if (148 <=? i)%nat && (i <? 156)%nat then 32 else b) + sum_bytes (S i) hdr
  end.

Definition checksum_ok (hdr : list Z) : bool :=
  bool_decide (parse_octal (field hdr 148 156) = Some (sum_bytes 0 hdr)).

(** The loop of [normalize]: each round drops a byte at least. *)
Fixpoint normalize_loop (fuel : nat) (s : str) : str :=
  match fuel with
  | O => s
  | S fuel =>
      match strip_prefix (lit "./") s with
      | Some rest => normalize_loop fuel rest
      | None =>
          match strip_prefix (lit "/") s with
          | Some rest => normalize_loop fuel rest
          | None => s
          end
      end
  end.

Definition normalize (s : str) : str := normalize_loop (length s) s.

Definition entry_name (hdr : list Z) : str :=
  let name := cstr (field hdr 0 100) in
  let is_ustar := str_eqb (field hdr 257 262) (lit "ustar") in
  let prefix := if is_ustar then cstr (field hdr 345 500) else [] in
  let full := match prefix with
              | [] => []
              | _ => from_utf8_lossy prefix ++ [SLASH]
              end in
  normalize (full ++ from_utf8_lossy name).

(** One round of the loop of [Entries::next]: [None] returns none and leaves
    the iterator as it is; otherwise the iterator moves past the member, and
    the member is returned when it is a regular file. *)
Definition next_body (s : Entries) : option (option Entry * Entries) :=
  let data := en_data s in
  let len := Z.of_nat (length data) in
  hdr_end ← checked_add (en_off s) BLOCK;
  if len <? hdr_end then None
  else
    let hdr := take 512 (drop (Z.to_nat (en_off s)) data) in
    if forallb (Z.eqb 0) hdr then None
    else if negb (checksum_ok hdr) then None
    else
      size ← parse_octal (field hdr 124 136);
      data_end ← checked_add hdr_end size;
      if len <? data_end then None
      else
        padded ← checked_add size (BLOCK - 1);
        off ← checked_add hdr_end (padded / BLOCK * BLOCK);
        let typeflag := nth 156 hdr 0 in
        Some (if (typeflag =? 48) || (typeflag =? 0)
              then Some (mkEntry (entry_name hdr)
                           (take (Z.to_nat size) (drop (Z.to_nat hdr_end) data)))
              else None,
              mkEntries data off).

Fixpoint next (fuel : nat) (s : Entries) : res unit (option Entry) * Entries :=
  match fuel with
  | O => (Diverge, s)
  | S fuel =>
      match next_body s with
      | None => (Ok None, s)
      | Some (Some e, s') => (Ok (Some e), s')
      | Some (None, s') => next fuel s'
      end
  end.

(** Enough rounds: every round moves on by a block. *)
Definition rounds (s : Entries) : nat := S (length (en_data s)).

(** [for e in entries()], collecting the files. *)
Fixpoint drain (fuel : nat) (s : Entries) : res unit (list Entry) :=
  match fuel with
  | O => Diverge
  | S fuel =>
      match next (rounds s) s with
      | (Ok (Some e), s') => let? es := drain fuel s' in Ok (e :: es)
      | (Ok None, _) => Ok []
      | _ => Diverge
      end
  end.

(** The mutable state: the archive [init] found, and its file count. *)
Record RamState := mkRam { ARCHIVE : option (list Z); FILE_COUNT : Z }.

Definition entries (st : RamState) : Entries := mkEntries (default [] (ARCHIVE st)) 0.

Definition all_entries (st : RamState) : res unit (list Entry) :=
  drain (rounds (entries st)) (entries st).

(** [entries().find(|e| e.name == want)]. *)
Fixpoint find_loop (fuel : nat) (want : str) (s : Entries) : res unit (option Entry) :=
  match fuel with
  | O => Diverge
  | S fuel =>
      match next (rounds s) s with
      | (Ok (Some e), s') => if str_eqb (e_name e) want then Ok (Some e) else find_loop fuel want s'
      | (Ok None, _) => Ok None
      | _ => Diverge
      end
  end.

Definition find (st : RamState) (path : str) : res unit (option (list Z)) :=
  let want := normalize path in
  let? o := find_loop (rounds (entries st)) want (entries st) in
  Ok (e_data <$> o).

(** ** Boot modules

    The response of the boot loader, the translation of the running page
    tables and the memory it maps are arguments. *)
Record BootModule := mkModule { m_path : list Z; m_addr : Z; m_size : Z }.

Section Modules.
Variable translate : Z → option Z.
Variable memory : Z → Z.

Definition from_raw_parts (base size : Z) : list Z := map memory (seqZ base size).

Definition module_named (suffix : str) (m : BootModule) : bool :=
  ends_with suffix (default [] (from_utf8 (m_path m))).

Definition is_mapped (addr : Z) : bool :=
  match translate addr with Some _ => true | None => false end.

Definition module_bytes (response : option (list BootModule)) (suffix : str) : option (list Z) :=
  modules ← response;
  file ← List.find (module_named suffix) modules;
  let base := m_addr file in
  let size := m_size file in
  if size =? 0 then None
  else
    last ← checked_add base (size - 1);
    if negb (is_mapped base) || negb (is_mapped last) then None
    else Some (from_raw_parts base size).

(** [init] changes the archive only once it has checked the module; the log
    lines are left out. *)
Definition init (response : option (list BootModule)) (st : RamState) : res unit RamState :=
  match response with
  | None => Ok st
  | Some modules =>
      match List.find (module_named (lit "initramfs.tar")) modules with
      | None => Ok st
      | Some file =>
          let size := m_size file in
          if size <? BLOCK then Ok st
          else
            let first := m_addr file in
            let? last := add64 first (size - 1) in
            if negb (is_mapped first) || negb (is_mapped last) then Ok st
            else
              let st := mkRam (Some (from_raw_parts first size)) (FILE_COUNT st) in
              let? es := all_entries st in
              Ok (mkRam (ARCHIVE st) (Z.of_nat (length es)))
      end
  end.
End Modules.

(** ** The iterator always ends *)
Definition remaining (s : Entries) : Z := Z.of_nat (length (en_data s)) - en_off s.

(** An entry whose data is a piece of the archive, under a normalized name. *)
Definition entry_of (data : list Z) (e : Entry) : Prop :=
  normalize (e_name e) = e_name e ∧
  ∃ at_ : nat, (at_ + length (e_data e) ≤ length data)%nat ∧
    e_data e = take (length (e_data e)) (drop at_ data).

Lemma normalize_loop_fix fuel s :
  (length s ≤ fuel)%nat →
  strip_prefix (lit "./") (normalize_loop fuel s) = None ∧
  strip_prefix (lit "/") (normalize_loop fuel s) = None.
Proof.
  revert s. induction fuel as [|fuel IH]; intros s Hf.
  { destruct s; [done|simpl in Hf; lia]. }
  cbn [normalize_loop]. destruct (strip_prefix (lit "./") s) as [r|] eqn:E1.
  { apply strip_prefix_Some in E1 as ->. apply IH. simpl in Hf. lia. }
  destruct (strip_prefix (lit "/") s) as [r|] eqn:E2; [|done].
  apply strip_prefix_Some in E2 as ->. apply IH. simpl in Hf. lia.
Qed.

Lemma normalize_idem s : normalize (normalize s) = normalize s.
Proof.
  unfold normalize at 2. destruct (normalize_loop_fix (length s) s ltac:(done)) as [E1 E2].
  unfold normalize. destruct (length (normalize_loop (length s) s)) eqn:El; [by destruct (normalize_loop _ s)|].
  cbn [normalize_loop]. by rewrite E1, E2.
Qed.

Lemma parse_octal_nonneg f v seen x :
  0 ≤ v → parse_octal_loop f v seen = Some x → 0 ≤ x.
Proof.
  revert v seen. induction f as [|b f IH]; intros v seen Hv; simpl; [case_match; intros [= <-]; lia|].
  destruct (Z.leb_spec 48 b), (Z.leb_spec b 55); simpl; try (repeat case_match; naive_solver lia).
  destruct (checked_mul v 8) as [w|] eqn:E1; [|done]. apply checked_mul_inv in E1 as [-> _]. simpl.
  destruct (checked_add (v * 8) (b - 48)) as [w|] eqn:E2; [|done]. apply checked_add_inv in E2 as [-> _].
  apply IH. lia.
Qed.

Lemma next_body_step s o s' :
  0 ≤ en_off s → next_body s = Some (o, s') →
  en_data s' = en_data s ∧ 512 ≤ remaining s ∧ en_off s + 512 ≤ en_off s' ∧
  match o with Some e => entry_of (en_data s) e | None => True end.
Proof.
  intros Hoff. unfold next_body, remaining. set (data := en_data s).
  destruct (checked_add (en_off s) BLOCK) as [he|] eqn:E1; [|done]. simpl.
  apply checked_add_inv in E1 as [-> _]. unfold BLOCK in *.
  destruct (Z.ltb_spec (Z.of_nat (length data)) (en_off s + 512)); [done|].
  set (hdr := take 512 _). destruct (forallb _ hdr); [done|]. destruct (checksum_ok hdr); [simpl|done].
  destruct (parse_octal (field hdr 124 136)) as [size|] eqn:E2; [|done]. simpl.
  apply parse_octal_nonneg in E2; [|lia].
  destruct (checked_add (en_off s + 512) size) as [de|] eqn:E3; [|done]. simpl.
  apply checked_add_inv in E3 as [-> _].
  destruct (Z.ltb_spec (Z.of_nat (length data)) (en_off s + 512 + size)); [done|].
  destruct (checked_add size _) as [p|] eqn:E4; [|done]. simpl.
  apply checked_add_inv in E4 as [-> _].
  destruct (checked_add (en_off s + 512) _) as [off|] eqn:E5; [|done]. simpl.
  apply checked_add_inv in E5 as [-> _]. intros [= <- <-]. simpl.
  split; [done|]. split; [lia|]. split; [Z.div_mod_to_equations; lia|].
  destruct (_ || _); [|done]. split; [apply normalize_idem|]. simpl.
  exists (Z.to_nat (en_off s + 512)). rewrite length_take, length_drop.
  split; [lia|]. f_equal. lia.
Qed.

Lemma next_total fuel s :
  0 ≤ en_off s → remaining s < 512 * Z.of_nat fuel → (1 ≤ fuel)%nat →
  ∃ o s', next fuel s = (Ok o, s') ∧ en_data s' = en_data s ∧ 0 ≤ en_off s' ∧
    match o with
    | Some e => 512 ≤ remaining s ∧ remaining s' ≤ remaining s - 512 ∧ entry_of (en_data s) e
    | None => True
    end.
Proof.
  revert s. induction fuel as [|fuel IH]; intros s Hoff Hr Hf; [lia|]. cbn [next].
  destruct (next_body s) as [[[e|] s1]|] eqn:E; [..|by exists None, s].
  all: destruct (next_body_step s _ _ Hoff E) as (Ed & H1 & H2 & He).
  all: assert (Er : remaining s1 ≤ remaining s - 512) by (unfold remaining; rewrite Ed; lia).
  - exists (Some e), s1. split_and!; try done; lia.
  - destruct (IH s1) as (o & s' & En & Ed' & Ho' & He'); [lia..|].
    exists o, s'. split; [done|]. split; [congruence|]. split; [done|].
    destruct o; [|done]. rewrite Ed in He'. destruct He' as (? & ? & ?). split_and!; try done; lia.
Qed.

Lemma rounds_enough s : 0 ≤ en_off s → remaining s < 512 * Z.of_nat (rounds s).
Proof. unfold remaining, rounds. lia. Qed.

Lemma drain_total fuel s :
  0 ≤ en_off s → remaining s < 512 * Z.of_nat fuel → (1 ≤ fuel)%nat →
  ∃ es, drain fuel s = Ok es ∧ Forall (entry_of (en_data s)) es ∧
    ∀ want, find_loop fuel want s = Ok (List.find (λ e, str_eqb (e_name e) want) es).
Proof.
  revert s. induction fuel as [|fuel IH]; intros s Hoff Hr Hf; [lia|]. cbn [drain find_loop].
  destruct (next_total (rounds s) s Hoff (rounds_enough s Hoff)) as (o & s' & E & Ed & Ho & He);
    [unfold rounds; lia|]. rewrite E. destruct o as [e|]; [|by exists []].
  destruct He as (? & ? & He).
  destruct (IH s' Ho) as (es & Ees & Hes & Hfind); [lia|lia|].
  exists (e :: es). rewrite Ees, Ed in *. split; [done|]. split; [by constructor|].
  intros want. simpl. case_match; [done|]. apply Hfind.
Qed.

(** ** A writer of ustar archives *)
Fixpoint octal (k : nat) (v : Z) : list Z :=
  match k with
  | O => []
  | S k => octal k (v / 8) ++ [48 + v mod 8]
  end.

Definition nul_pad (n : nat) (s : list Z) : list Z := s ++ replicate (n - length s) 0.

(** A member of an archive; the fields the reader ignores are free. *)
Record Member := mkMember {
  t_name : str; t_owner : list Z; t_mtime : list Z; t_type : Z; t_link : list Z;
  t_rest : list Z; t_prefix : str; t_content : list Z
}.

Definition header_front (m : Member) : list Z :=
  nul_pad 100 (t_name m) ++ t_owner m ++ octal 11 (Z.of_nat (length (t_content m))) ++ [0] ++ t_mtime m.
Definition header_back (m : Member) : list Z :=
  [t_type m] ++ t_link m ++ lit "ustar" ++ t_rest m ++ nul_pad 155 (t_prefix m) ++ replicate 12 0.

Definition sum_list (l : list Z) : Z := foldr Z.add 0 l.

Definition header (m : Member) : list Z :=
  header_front m ++
  octal 6 (sum_list (header_front m) + 256 + sum_list (header_back m)) ++ [0; 32] ++ header_back m.

Definition padding (n : nat) : nat := ((n + 511) / 512 * 512 - n)%nat.

Definition member_bytes (m : Member) : list Z :=
  header m ++ t_content m ++ replicate (padding (length (t_content m))) 0.

Definition is_regular (m : Member) : bool := (t_type m =? 48) || (t_type m =? 0).

Definition member_path (m : Member) : str :=
  normalize (match t_prefix m with [] => [] | p => p ++ [SLASH] end ++ t_name m).

Definition member_entries (m : Member) : list Entry :=
  if is_regular m then [mkEntry (member_path m) (t_content m)] else [].

Record member_ok (m : Member) : Prop := {
  mk_name : valid_str (t_name m) ∧ (length (t_name m) ≤ 100)%nat ∧ 0 ∉ t_name m;
  mk_prefix : valid_str (t_prefix m) ∧ (length (t_prefix m) ≤ 155)%nat ∧ 0 ∉ t_prefix m;
  mk_owner : length (t_owner m) = 24%nat;
  mk_mtime : length (t_mtime m) = 12%nat;
  mk_link : length (t_link m) = 100%nat;
  mk_rest : length (t_rest m) = 83%nat;
  mk_bytes : bytes_ok (t_name m ++ t_owner m ++ t_mtime m ++ [t_type m] ++ t_link m ++ t_rest m ++ t_prefix m);
  mk_size : Z.of_nat (length (t_content m)) < 8 ^ 11
}.

(** The bytes after the last member: a zero block, or too few for a header. *)
Definition end_mark (tail : list Z) : Prop :=
  (length tail < 512)%nat ∨ take 512 tail = replicate 512 0.

Lemma length_octal k v : length (octal k v) = k.
Proof. revert v. induction k as [|k IH]; intros v; [done|]. simpl. rewrite length_app, IH. simpl. lia. Qed.

Lemma octal_bytes k v : bytes_ok (octal k v).
Proof.
  revert v. induction k as [|k IH]; intros v; [constructor|]. simpl. apply Forall_app. split; [apply IH|].
  apply Forall_singleton. unfold is_byte. Z.div_mod_to_equations. lia.
Qed.

Lemma parse_octal_digits k v acc seen r :
  0 ≤ v < 8 ^ Z.of_nat k → 0 ≤ acc → acc * 8 ^ Z.of_nat k + v ≤ u64_max →
  parse_octal_loop (octal k v ++ r) acc seen =
  parse_octal_loop r (acc * 8 ^ Z.of_nat k + v) (match k with O => seen | _ => true end).
Proof.
  revert v r. induction k as [|k IH]; intros v r Hv Hacc Hmax.
  { simpl. change (8 ^ Z.of_nat 0) with 1 in *. f_equal. lia. }
  rewrite Nat2Z.inj_succ, Z.pow_succ_r in * by lia.
  pose proof (Z.div_mod v 8 ltac:(lia)) as Ev. pose proof (Z.mod_pos_bound v 8 ltac:(lia)) as Hm.
  assert (Hd : 0 ≤ v / 8 < 8 ^ Z.of_nat k) by (Z.div_mod_to_equations; nia).
  assert (0 < 8 ^ Z.of_nat k) by lia.
  cbn [octal]. rewrite <- app_assoc, IH by nia. cbn [app parse_octal_loop].
  rewrite (proj2 (Z.leb_le 48 _)), (proj2 (Z.leb_le _ 55)) by lia. cbn [andb].
  unfold checked_mul, checked_add. rewrite (proj2 (Z.leb_le _ _)) by nia. cbn [mbind option_bind].
  rewrite (proj2 (Z.leb_le _ _)) by nia. cbn [mbind option_bind]. f_equal. nia.
Qed.

Lemma parse_octal_field k v t r :
  (0 < k)%nat → 0 ≤ v < 8 ^ Z.of_nat k → v ≤ u64_max → t = 0 ∨ t = 32 →
  parse_octal (octal k v ++ t :: r) = Some v.
Proof.
  intros Hk Hv Hm Ht. unfold parse_octal. rewrite parse_octal_digits by lia.
  destruct k; [lia|]. rewrite Z.mul_0_l. by destruct Ht as [-> | ->].
Qed.

Lemma sum_bytes_app i a b : sum_bytes i (a ++ b) = sum_bytes i a + sum_bytes (i + length a) b.
Proof.
  revert i. induction a as [|x a IH]; intros i; cbn [app sum_bytes length]; [by rewrite Nat.add_0_r|].
  rewrite IH. replace (S i + length a)%nat with (i + S (length a))%nat by lia. lia.
Qed.

Lemma sum_bytes_plain i l :
  (i + length l ≤ 148)%nat ∨ (156 ≤ i)%nat → sum_bytes i l = sum_list l.
Proof.
  revert i. induction l as [|x l IH]; intros i Hi; [done|]. cbn [sum_bytes sum_list foldr length] in *.
  rewrite IH by lia. destruct (Nat.leb_spec 148 i), (Nat.ltb_spec i 156); simpl; unfold sum_list; lia.
Qed.

Lemma sum_list_bound l : bytes_ok l → 0 ≤ sum_list l ≤ 255 * Z.of_nat (length l).
Proof.
  induction 1 as [|x l Hx _ IH]; [simpl; lia|]. unfold is_byte in Hx. cbn [sum_list foldr length] in *.
  unfold sum_list in IH. lia.
Qed.

Lemma field_piece a x b i j :
  length a = i → length x = (j - i)%nat → field (a ++ x ++ b) i j = x.
Proof. intros <- Hx. unfold field. rewrite drop_app_length, <- Hx. by rewrite take_app_length. Qed.

Lemma length_nul_pad n s : (length s ≤ n)%nat → length (nul_pad n s) = n.
Proof. intros H. unfold nul_pad. rewrite length_app, length_replicate. lia. Qed.

Lemma cstr_nul_pad n s : 0 ∉ s → cstr (nul_pad n s) = s.
Proof.
  intros Hs. unfold cstr, nul_pad. set (r := replicate (n - length s) 0).
  assert (Hp : position (Z.eqb 0) (s ++ r) =
    match r with [] => None | _ => Some (length s) end).
  { clear -Hs. assert (Hr : position (Z.eqb 0) r = match r with [] => None | _ => Some 0%nat end).
    { subst r. by destruct (n - length s)%nat. }
    revert Hr. generalize r. clear r. intros r Hr.
    induction s as [|x s IH]; [done|]. apply not_elem_of_cons in Hs as [Hx Hs].
    cbn [app position]. rewrite (proj2 (Z.eqb_neq 0 x)) by done. rewrite IH by done.
    by destruct r. }
  rewrite Hp. destruct r; simpl; [by rewrite app_nil_r, firstn_all|by rewrite take_app_length].
Qed.

Lemma from_utf8_lossy_valid s : valid_str s → from_utf8_lossy s = s.
Proof. intros (cs & Hcs & ->). unfold from_utf8_lossy. by rewrite decode_encode_utf8. Qed.

Section Header.
Context (m : Member) (Hm : member_ok m).

Lemma front_length : length (header_front m) = 148%nat.
Proof using Hm.
  destruct Hm as [(_ & Hn & _) _ Ho Ht _ _ _ _]. unfold header_front.
  rewrite !length_app, length_nul_pad, length_octal, Ho, Ht by done. done.
Qed.

Lemma back_length : length (header_back m) = 356%nat.
Proof using Hm.
  destruct Hm as [_ (_ & Hp & _) _ _ Hl Hr _ _]. unfold header_back.
  rewrite !length_app, length_nul_pad, length_replicate, Hl, Hr by done. done.
Qed.

Lemma header_length : length (header m) = 512%nat.
Proof using Hm. unfold header. rewrite !length_app, length_octal, front_length, back_length. done. Qed.

Lemma header_bytes : bytes_ok (header_front m) ∧ bytes_ok (header_back m).
Proof using Hm.
  destruct Hm as [_ _ _ _ _ _ Hb _]. unfold bytes_ok, header_front, header_back, nul_pad in *.
  rewrite !Forall_app in *. destruct Hb as (? & ? & ? & ? & ? & ? & ?).
  assert (Hz : ∀ n, Forall is_byte (replicate n 0)).
  { intros n. apply Forall_replicate. unfold is_byte. lia. }
  split_and!; try done; try apply octal_bytes.
  - repeat constructor; unfold is_byte; lia.
  - apply bytes_okb_ok. reflexivity.
Qed.

Lemma header_checksum : checksum_ok (header m) = true.
Proof using Hm.
  destruct header_bytes as [Hf Hb]. apply sum_list_bound in Hf, Hb.
  rewrite front_length in Hf. rewrite back_length in Hb.
  set (sum := sum_list (header_front m) + 256 + sum_list (header_back m)).
  assert (Es : sum_bytes 0 (header m) = sum).
  { unfold header. fold sum. rewrite !sum_bytes_app, length_octal, front_length.
    rewrite (sum_bytes_plain 0) by (rewrite front_length; lia).
    rewrite (sum_bytes_plain _ (header_back m)) by (simpl; lia).
    assert (E8 : ∀ l i, (148 ≤ i)%nat → (i + length l ≤ 156)%nat → sum_bytes i l = 32 * Z.of_nat (length l)).
    { clear. induction l as [|x l IH]; intros i H1 H2; cbn [sum_bytes length] in *; [done|].
      rewrite IH by lia. destruct (Nat.leb_spec 148 i), (Nat.ltb_spec i 156); simpl; lia. }
    rewrite (E8 (octal 6 sum)), (E8 [0; 32]) by (rewrite ?length_octal; simpl; lia).
    rewrite length_octal. change (Z.of_nat (length [0; 32])) with 2. lia. }
  unfold checksum_ok. apply bool_decide_eq_true. rewrite Es. unfold header. fold sum.
  rewrite app_assoc, app_assoc, <- (app_assoc (header_front m)), <- app_assoc.
  rewrite field_piece by (rewrite ?length_app, ?length_octal, ?front_length; done).
  apply parse_octal_field; [lia| |unfold u64_max; lia|by left].
  change (8 ^ Z.of_nat 6) with 262144. lia.
Qed.

(** The header as the pieces before, in and after the field at [i]. *)
Lemma header_pieces a x b i j :
  header m = a ++ x ++ b → length a = i → length x = (j - i)%nat → field (header m) i j = x.
Proof using. intros ->. apply field_piece. Qed.

Lemma header_size :
  parse_octal (field (header m) 124 136) = Some (Z.of_nat (length (t_content m))).
Proof using Hm.
  destruct Hm as [(_ & Hn & _) _ Ho Ht _ _ _ Hs].
  erewrite (header_pieces (nul_pad 100 (t_name m) ++ t_owner m)
    (octal 11 (Z.of_nat (length (t_content m))) ++ [0])).
  - apply parse_octal_field; [lia|lia|unfold u64_max; lia|by left].
  - unfold header, header_front. rewrite <- !app_assoc. reflexivity.
  - by rewrite length_app, length_nul_pad, Ho.
  - by rewrite length_app, length_octal.
Qed.

Lemma header_name : entry_name (header m) = member_path m.
Proof using Hm.
  pose proof front_length as Hfl.
  destruct Hm as [(Hv & Hn & Hz) (Hpv & Hp & Hpz) Ho Ht Hl Hr _ _]. unfold entry_name.
  erewrite (header_pieces [] (nul_pad 100 (t_name m)) _ 0 100);
    [|unfold header, header_front; rewrite <- !app_assoc; reflexivity|done|by rewrite length_nul_pad].
  set (sum := octal 6 (sum_list (header_front m) + 256 + sum_list (header_back m))).
  assert (Hsum : length sum = 6%nat) by apply length_octal.
  assert (Eh : header m = (header_front m ++ sum ++ [0; 32] ++ [t_type m] ++ t_link m) ++ lit "ustar" ++
    t_rest m ++ nul_pad 155 (t_prefix m) ++ replicate 12 0).
  { unfold header, header_back. rewrite <- !app_assoc. reflexivity. }
  erewrite (header_pieces _ (lit "ustar") _ 257 262);
    [|exact Eh|rewrite !length_app, Hfl, Hsum, Hl; done|done].
  rewrite (proj2 (str_eqb_eq _ _) eq_refl).
  erewrite (header_pieces ((header_front m ++ sum ++ [0; 32] ++ [t_type m] ++ t_link m) ++ lit "ustar" ++ t_rest m)
    (nul_pad 155 (t_prefix m)) _ 345 500);
    [|rewrite Eh, <- !app_assoc; reflexivity|rewrite !length_app, Hfl, Hsum, Hl, Hr; done
     |by rewrite length_nul_pad].
  rewrite !cstr_nul_pad, !from_utf8_lossy_valid by done. unfold member_path.
  by destruct (t_prefix m).
Qed.

Lemma header_type : nth 156 (header m) 0 = t_type m.
Proof using Hm.
  unfold header. rewrite app_assoc, app_assoc, app_nth2;
    rewrite !length_app, front_length, length_octal; [|simpl; lia].
  reflexivity.
Qed.

Lemma header_nonzero : forallb (Z.eqb 0) (header m) = false.
Proof using.
  apply not_true_iff_false. intros H. rewrite forallb_forall in H.
  assert (Hin : In 117 (header m)).
  { apply list_elem_of_In. unfold header, header_back.
    do 4 (rewrite elem_of_app; right). rewrite elem_of_app; right. rewrite elem_of_app; left.
    apply list_elem_of_In. by left. }
  by apply H in Hin.
Qed.

Lemma padding_block n : Z.of_nat (n + padding n) = (Z.of_nat n + 511) / 512 * 512.
Proof using.
  unfold padding. pose proof (Nat.div_mod_eq (n + 511) 512). pose proof (Nat.mod_upper_bound (n + 511) 512).
  replace (n + ((n + 511) / 512 * 512 - n))%nat with ((n + 511) / 512 * 512)%nat by lia.
  by rewrite Nat2Z.inj_mul, Nat2Z.inj_div, Nat2Z.inj_add.
Qed.

(** The iterator at a member. *)
Lemma next_member pre rest :
  Z.of_nat (length (pre ++ member_bytes m ++ rest)) ≤ u64_max →
  next_body (mkEntries (pre ++ member_bytes m ++ rest) (Z.of_nat (length pre))) =
  Some (head (member_entries m),
        mkEntries (pre ++ member_bytes m ++ rest) (Z.of_nat (length (pre ++ member_bytes m)))).
Proof using Hm.
  set (data := pre ++ member_bytes m ++ rest). intros Hmax.
  assert (Hlen : length (member_bytes m) = (512 + (length (t_content m) + padding (length (t_content m))))%nat).
  { unfold member_bytes. rewrite !length_app, header_length, length_replicate. done. }
  pose proof (padding_block (length (t_content m))) as Hpad.
  assert (Hd : length data = (length pre + length (member_bytes m) + length rest)%nat).
  { unfold data. rewrite !length_app. lia. }
  unfold next_body. cbn [en_off en_data]. unfold BLOCK.
  rewrite checked_add_Some by lia. cbn [mbind option_bind].
  rewrite (proj2 (Z.ltb_ge _ _)) by lia.
  rewrite Nat2Z.id.
  assert (Eh : take 512 (drop (length pre) data) = header m).
  { unfold data. rewrite drop_app_length. unfold member_bytes. rewrite <- !app_assoc. apply take_app_length'. by rewrite header_length. }
  rewrite Eh, header_nonzero, header_checksum, header_size. cbn [negb mbind option_bind].
  rewrite (checked_add_Some (Z.of_nat (length pre) + 512)) by lia. cbn [mbind option_bind].
  rewrite (proj2 (Z.ltb_ge _ _)) by lia. change (512 - 1) with 511.
  rewrite (checked_add_Some _ 511) by lia. cbn [mbind option_bind].
  rewrite checked_add_Some by lia. cbn [mbind option_bind].
  rewrite header_type, header_name. unfold member_entries, is_regular. do 2 f_equal.
  - destruct (_ || _); [|done]. cbn [head]. do 2 f_equal. rewrite Nat2Z.id.
    replace (Z.to_nat (Z.of_nat (length pre) + 512)) with (length pre + 512)%nat by lia.
    unfold data. rewrite <- drop_drop, drop_app_length. unfold member_bytes. rewrite <- !app_assoc.
    rewrite drop_app_length' by (by rewrite header_length). by rewrite take_app_length.
  - f_equal. rewrite length_app. lia.
Qed.
End Header.

Lemma next_more fuel s o s' : next fuel s = (Ok o, s') → next (S fuel) s = (Ok o, s').
Proof.
  revert s. induction fuel as [|fuel IH]; intros s E; [done|].
  cbn [next] in E. change (next (S (S fuel)) s) with
    (match next_body s with None => (Ok None, s) | Some (Some e, s') => (Ok (Some e), s')
     | Some (None, s') => next (S fuel) s' end).
  destruct (next_body s) as [[[e|] s1]|]; [done| |done]. by apply IH.
Qed.

(** The rounds of an iterator past a member that is skipped. *)
Lemma next_skip s s1 :
  0 ≤ en_off s → next_body s = Some (None, s1) → next (rounds s) s = next (rounds s1) s1.
Proof.
  intros Hoff E. destruct (next_body_step s _ _ Hoff E) as (Ed & H1 & H2 & _).
  unfold rounds. rewrite Ed. cbn [next]. rewrite E.
  destruct (next_total (length (en_data s)) s1) as (o & s' & En & _); [lia|..].
  1,2: unfold remaining in *; rewrite ?Ed; lia.
  change (match next_body s1 with None => _ | _ => _ end) with (next (S (length (en_data s))) s1).
  by rewrite (next_more _ _ _ _ En).
Qed.

Lemma end_mark_stops pre tail :
  end_mark tail → Z.of_nat (length (pre ++ tail)) ≤ u64_max →
  next_body (mkEntries (pre ++ tail) (Z.of_nat (length pre))) = None.
Proof.
  intros Ht Hmax. unfold next_body. cbn [en_off en_data]. unfold BLOCK.
  destruct (checked_add _ _) as [he|] eqn:E; [|done]. apply checked_add_inv in E as [-> _]. simpl.
  rewrite length_app. destruct (Z.ltb_spec (Z.of_nat (length pre + length tail)) (Z.of_nat (length pre) + 512)); [done|].
  rewrite Nat2Z.id, drop_app_length. destruct Ht as [Ht|Ht]; [lia|]. by rewrite Ht.
Qed.

Definition archive (ms : list Member) (tail : list Z) : list Z := concat (map member_bytes ms) ++ tail.

Lemma drain_archive ms tail pre fuel :
  Forall member_ok ms → end_mark tail → Z.of_nat (length (pre ++ archive ms tail)) ≤ u64_max →
  (length ms < fuel)%nat →
  drain fuel (mkEntries (pre ++ archive ms tail) (Z.of_nat (length pre))) = Ok (concat (map member_entries ms)).
Proof.
  intros Hms Ht. revert pre fuel. induction Hms as [|m ms Hm Hms IH]; intros pre fuel Hmax Hf;
    (destruct fuel as [|fuel]; [lia|]).
  { cbn [drain archive concat map app] in *. unfold rounds. cbn [next].
    unfold archive in *. cbn [concat map app] in *. by rewrite end_mark_stops. }
  assert (Ea : archive (m :: ms) tail = member_bytes m ++ archive ms tail).
  { unfold archive. cbn [map concat]. by rewrite <- app_assoc. }
  rewrite Ea in *. pose proof (next_member m Hm pre (archive ms tail) Hmax) as En.
  rewrite app_assoc in Hmax. specialize (IH (pre ++ member_bytes m)). rewrite <- app_assoc in IH, Hmax.
  set (s1 := mkEntries _ (Z.of_nat (length (pre ++ member_bytes m)))) in *.
  cbn [map concat]. unfold member_entries in *. destruct (is_regular m); cbn [head app] in *.
  - cbn [drain]. unfold rounds at 1. cbn [next]. rewrite En, IH by (simpl in Hf; lia || done). done.
  - cbn [drain]. rewrite (next_skip _ s1) by (done || simpl; lia).
    specialize (IH (S fuel) Hmax ltac:(simpl in Hf; lia)). cbn [drain] in IH. exact IH.
Qed.

Lemma archive_members ms tail :
  Forall member_ok ms → (length ms ≤ length (archive ms tail))%nat.
Proof.
  unfold archive. rewrite length_app. induction 1 as [|m ms Hm _ IH]; [simpl; lia|].
  cbn [map concat length]. rewrite length_app. unfold member_bytes at 1.
  rewrite length_app, header_length by done. lia.
Qed.

(** ** Properties *)

(** C19: The reader inverts the writer of ustar archives: of any archive of
    members with names (and prefixes) of the ustar lengths, iterating gives
    exactly the regular files, in order, under their normalized paths and with
    their contents, whatever the fields it ignores, the members it skips and
    the bytes after the end mark; and [find] gives the first file whose path is
    the one asked for, leading dots and slashes aside. *)
Theorem archive_roundtrip ms tail count :
  Forall member_ok ms → end_mark tail → Z.of_nat (length (archive ms tail)) ≤ u64_max →
  let st := mkRam (Some (archive ms tail)) count in
  let files := concat (map member_entries ms) in
  all_entries st = Ok files ∧
  ∀ path, find st path = Ok (e_data <$> List.find (λ e, str_eqb (e_name e) (normalize path)) files).
Proof.
  intros Hms Ht Hmax st files.
  assert (Ed : all_entries st = Ok files).
  { unfold all_entries, entries. apply (drain_archive ms tail [] _ Hms Ht Hmax).
    pose proof (archive_members ms tail Hms). unfold rounds. simpl. lia. }
  split; [done|]. intros path. unfold find.
  destruct (drain_total (rounds (entries st)) (entries st)) as (es & Ees & _ & Hfind);
    [simpl; lia|apply rounds_enough; simpl; lia|unfold rounds; lia|].
  unfold all_entries in Ed. rewrite Ed in Ees. injection Ees as <-. by rewrite Hfind.
Qed.

(** On any bytes whatever, the iterator ends, without a panic; every file
    it gives lies inside the archive and has a normalized name; and [find]
    agrees with it. *)
Theorem entries_total st :
  ∃ es, all_entries st = Ok es ∧ Forall (entry_of (default [] (ARCHIVE st))) es ∧
    ∀ path, find st path = Ok (e_data <$> List.find (λ e, str_eqb (e_name e) (normalize path)) es).
Proof.
  destruct (drain_total (rounds (entries st)) (entries st)) as (es & Ees & Hes & Hfind);
    [simpl; lia|apply rounds_enough; simpl; lia|unfold rounds; lia|].
  exists es. split; [done|]. split; [done|]. intros path. unfold find. by rewrite Hfind.
Qed.

Definition demo_member (name : str) (ty : Z) (content : list Z) : Member :=
  mkMember name (replicate 24 48) (replicate 12 48) ty (replicate 100 0) (replicate 83 0) (lit "usr") content.

Lemma lit_valid s : forallb (λ c, (0 <=? c) && (c <? 128)) (lit s) = true → valid_str (lit s).
Proof.
  intros H. exists (lit s). rewrite forallb_forall in H. split.
  - apply Forall_forall. intros c Hc. apply H in Hc. unfold is_scalar. lia.
  - revert H. generalize (lit s). intros l. induction l as [|c l IH]; intros H; [done|].
    pose proof (H c ltac:(by left)). unfold encode_utf8 in *. cbn [map concat].
    rewrite <- IH by (intros x Hx; apply H; by right).
    unfold encode_char. rewrite (proj2 (Z.ltb_lt _ _)) by lia. done.
Qed.

Lemma demo_member_ok name ty content :
  forallb (λ c, (1 <=? c) && (c <? 128)) (lit name) = true → (length (lit name) ≤ 100)%nat →
  is_byte ty → Z.of_nat (length content) < 8 ^ 11 → member_ok (demo_member (lit name) ty content).
Proof.
  intros Hn Hl Ht Hc.
  assert (Hb : Forall (λ c, 1 ≤ c < 128) (lit name)).
  { apply Forall_forall. intros c Hin. rewrite forallb_forall in Hn. apply Hn in Hin. lia. }
  split; try done; cbn [demo_member t_name t_owner t_mtime t_type t_link t_rest t_prefix].
  - split_and!; [|done|].
    + apply lit_valid. apply forallb_forall. intros c Hin. rewrite Forall_forall in Hb. apply Hb in Hin. lia.
    + intros Hz. rewrite Forall_forall in Hb. apply list_elem_of_In, Hb in Hz. lia.
  - split_and!; [by apply lit_valid|simpl; lia|]. intros Hz%list_elem_of_In.
    vm_compute in Hz. naive_solver.
  - unfold bytes_ok. rewrite !Forall_app. split_and!; try (apply bytes_okb_ok; reflexivity).
    + eapply Forall_impl; [|exact Hb]. unfold is_byte. simpl. lia.
    + by apply Forall_singleton.
Qed.

Lemma archive_roundtrip_witness :
  let ms := [demo_member (lit "bin") 53 []; demo_member (lit "bin/sh") 48 [1; 2; 3]] in
  let st := mkRam (Some (archive ms (replicate 1024 0))) 0 in
  find st (lit "/usr/bin/sh") = Ok (Some [1; 2; 3]).
Proof.
  intros ms st.
  destruct (archive_roundtrip ms (replicate 1024 0) 0) as [_ Hf].
  - apply Forall_cons; [apply demo_member_ok|apply Forall_cons; [apply demo_member_ok|constructor]];
      try reflexivity; try (vm_compute; lia); unfold is_byte; lia.
  - right. reflexivity.
  - vm_compute. discriminate.
  - unfold st. rewrite (Hf (lit "/usr/bin/sh")). vm_compute. reflexivity.
Defined.
End Initramfs.
