(* ===== verification/Vfs.v ===== *)
(** * The path-based VFS (src/src/vfs.rs)

    Mounts at path prefixes over the boot archive and FAT32 volumes: path
    normalization, routing to the mount with the longest prefix, every
    operation on the routed filesystem, and the recursive listing. *)
From Stdlib Require Import String.
From stdpp Require Import base numbers list gmap sets.
From Stdlib Require Import ZArith Lia Bool.
From S2P Require Import Prelude Bytes Str Block FatNames Fat32 Initramfs.

Module Vfs.

Inductive FsError :=
  | NotFound | NotDirectory | IsDirectory | Io | InvalidPath | TooLarge | ReadOnly
  | NoSpace | InvalidName | AlreadyExists | DirectoryNotEmpty.

#[global] Instance FsError_eq_dec : EqDecision FsError.
Proof. solve_decision. Defined.

Definition MAX_READ_ALL : Z := 16 * 1024 * 1024.

Definition map_fat_error (e : FatError) : FsError :=
  match e with
  | FatNotFound => NotFound
  | FatNotDirectory => NotDirectory
  | FatIsDirectory => IsDirectory
  | FatIo => Io
  | FatTooLarge => TooLarge
  | FatNoSpace => NoSpace
  | FatInvalidName => InvalidName
  | FatAlreadyExists => AlreadyExists
  | FatDirectoryNotEmpty => DirectoryNotEmpty
  | _ => Io
  end.

Definition map_flush_error (e : BlockError) : FsError :=
  match e with
  | Block.ReadOnly => ReadOnly
  | _ => Io
  end.

(** ** Paths *)

(** The components left after the pieces [ps], [parts] being those so far in
    reverse order. *)
Fixpoint normalize_parts (ps : list str) (parts : list str) : res FsError (list str) :=
  match ps with
  | [] => Ok (rev parts)
  | p :: ps =>
      if str_eqb p [] || str_eqb p (lit ".") then normalize_parts ps parts
      else if str_eqb p (lit "..") then
        match parts with
        | [] => Err InvalidPath
        | _ :: parts => normalize_parts ps parts
        end
      else normalize_parts ps (p :: parts)
  end.

Definition normalize (path : str) : res FsError str :=
  let? parts := normalize_parts (split_on SLASH path) [] in
  Ok (SLASH :: join SLASH parts).

(** ** State

    A device behind a [&'static dyn BlockDevice]: one of the machine's, or a
    partition of one.  Two mounts may share a device. *)
Inductive Handle :=
  | Whole (i : nat)
  | Part (i : nat) (start_lba sectors : Z).

Inductive Filesystem :=
  | Initramfs
  | FatFs (fs : Fat32) (dev : Handle) (hint : Z) (invalidated : bool).

Record Mount := mkMount { prefix : str; fs : Filesystem; source_device : option str }.

Section Ops.
Context {D : Type} `{BlockDevice D}.

Record VfsState := mkVfs { MOUNTS : list Mount; store : nat → D; ram : Initramfs.RamState }.

Notation V := (M VfsState FsError).

(** [dyn BlockDevice]. *)
Inductive Dyn :=
  | DynWhole (d : D)
  | DynPart (p : PartitionDevice D).

#[global] Instance Dyn_device : BlockDevice Dyn := {
  sector_count d := match d with DynWhole d => sector_count d | DynPart p => sector_count p end;
  read_sector lba d :=
    match d with DynWhole d => read_sector lba d | DynPart p => read_sector lba p end;
  write_sector lba data := λ d,
    match d with
    | DynWhole d => let '(r, d) := write_sector lba data d in (r, DynWhole d)
    | DynPart p => let '(r, p) := write_sector lba data p in (r, DynPart p)
    end;
  flush := λ d,
    match d with
    | DynWhole d => let '(r, d) := flush d in (r, DynWhole d)
    | DynPart p => let '(r, p) := flush p in (r, DynPart p)
    end
}.

Definition get_device (h : Handle) (st : nat → D) : Dyn :=
  match h with
  | Whole i => DynWhole (st i)
  | Part i start n => DynPart (mkPart (st i) start n)
  end.

Definition put_device (h : Handle) (d : Dyn) (st : nat → D) : nat → D :=
  let i := match h with Whole i | Part i _ _ => i end in
  let d := match d with DynWhole d => d | DynPart p => parent p end in
  λ j, if decide (j = i) then d else st j.

(** [path.strip_prefix(&m.prefix)] and its tail, as [route] looks at a mount. *)
Definition route_one (m : Mount) (path : str) : option str :=
  if str_eqb (prefix m) (lit "/") then Some (trim_start_matches SLASH path)
  else if str_eqb path (prefix m) then Some []
  else
    match strip_prefix (prefix m) path with
    | Some tail =>
        if starts_with (lit "/") tail then Some (trim_start_matches SLASH tail) else None
    | None => None
    end.

(** [filter_map] and [max_by_key] in one pass, with the mount's index: of
    prefixes of the same length the later wins. *)
Fixpoint route_from (i : nat) (mounts : list Mount) (path : str) (best : option (nat * Mount * str)) :
    option (nat * Mount * str) :=
  match mounts with
  | [] => best
  | m :: mounts =>
      route_from (S i) mounts path
        (match route_one m path with
         | None => best
         | Some inner =>
             match best with
             | None => Some (i, m, inner)
             | Some (j, b, binner) =>
                 if (length (prefix b) <=? length (prefix m))%nat then Some (i, m, inner)
                 else Some (j, b, binner)
             end
         end)
  end.

Definition route (mounts : list Mount) (path : str) : option (nat * Mount * str) :=
  route_from 0 mounts path None.

Definition routed (path : str) : V (nat * Mount * str) := λ st,
  (ok_or NotFound (route (MOUNTS st) path), st).

(** Run an operation of the volume mounted as mount [i], and keep what it does
    to the device and to the volume's two flags. *)
Definition on_fat {E A} (i : nat) (m : Fat32 → M (FatState Dyn) E A) : M VfsState E A := λ st,
  match MOUNTS st !! i with
  | Some (mkMount p (FatFs fat h hint inv) src) =>
      let '(r, f) := m fat (mkFat (get_device h (store st)) hint inv) in
      (r, mkVfs (<[i := mkMount p (FatFs fat h (next_free_hint f) (fsinfo_invalidated f)) src]> (MOUNTS st))
            (put_device h (device f) (store st)) (ram st))
  | _ => (Panic, st)
  end.

Definition flush_filesystem (i : nat) : V unit :=
  mmap_err map_flush_error (on_fat i (λ _, f_flush)).

(** ** Mounting *)
Definition init : V unit := λ st,
  (Ok tt, mkVfs [mkMount (lit "/") Initramfs None] (store st) (ram st)).

Definition mount_fat32_inner (pre : str) (source : option str) (dev : Handle) : V unit := λ st,
  if negb (starts_with (lit "/") pre) then (Err InvalidPath, st)
  else
    match normalize pre with
    | Ok pre =>
        if str_eqb pre (lit "/") then (Err InvalidPath, st)
        else
          match Fat32.mount (get_device dev (store st)) with
          | Ok (fat, f) =>
              if existsb (λ m, str_eqb (prefix m) pre ||
                   match source with
                   | None => false
                   | Some d => bool_decide (source_device m = Some d)
                   end) (MOUNTS st)
              then (Err InvalidPath, st)
              else (Ok tt, mkVfs (MOUNTS st ++ [mkMount pre (FatFs fat dev (next_free_hint f) (fsinfo_invalidated f)) source])
                            (store st) (ram st))
          | Err _ => (Err Io, st)
          | Panic => (Panic, st)
          | Diverge => (Diverge, st)
          end
    | Err e => (Err e, st)
    | Panic => (Panic, st)
    | Diverge => (Diverge, st)
    end.

Definition mount_fat32 (pre : str) (dev : Handle) : V unit := mount_fat32_inner pre None dev.

Definition mount_fat32_device (pre name : str) (dev : Handle) : V unit :=
  mount_fat32_inner pre (Some name) dev.

Definition mountpoint_for_device (name : str) (st : VfsState) : option str :=
  prefix <$> List.find (λ m, bool_decide (source_device m = Some name)) (MOUNTS st).

(** The parent is device [i] of the machine. *)
Definition mount_fat32_partition (pre : str) (i : nat) (start_lba sectors : Z) : V unit := λ st,
  match PartitionDevice_new (store st i) start_lba sectors with
  | None => (Err InvalidPath, st)
  | Some _ => mount_fat32 pre (Part i start_lba sectors) st
  end.

(** ** Operations *)
Definition from_ram {A} (r : Initramfs.RamState → res unit A) : V A := λ st,
  match r (ram st) with
  | Ok a => (Ok a, st)
  | Diverge => (Diverge, st)
  | _ => (Panic, st)
  end.

(** The bytes read, at most [out_len]. *)
Definition read_at (path : str) (offset out_len : Z) : V (list Z) :=
  let! path := lift (normalize path) in
  let! (i, mount, inner) := routed path in
  match fs mount with
  | Initramfs =>
      let! o := from_ram (λ r, Initramfs.find r inner) in
      let! data := lift (ok_or NotFound o) in
      if Z.of_nat (length data) <=? offset then ret []
      else
        let n := Z.min out_len (Z.of_nat (length data) - offset) in
        ret (take (Z.to_nat n) (drop (Z.to_nat offset) data))
  | FatFs _ _ _ _ => mmap_err map_fat_error (on_fat i (λ f, Fat32.read_at f inner offset out_len))
  end.

(** The shape of the operations that change a volume. *)
Definition update_at {A} (path : str) (op : Fat32 → str → M (FatState Dyn) FatError A) : V A :=
  let! path := lift (normalize path) in
  let! (i, mount, inner) := routed path in
  match fs mount with
  | Initramfs => fail ReadOnly
  | FatFs _ _ _ _ =>
      let! r := mmap_err map_fat_error (on_fat i (λ f, op f inner)) in
      flush_filesystem i ;;!
      ret r
  end.

Definition create_file (path : str) : V unit := update_at path Fat32.create_file.
Definition create_dir (path : str) : V unit := update_at path Fat32.create_dir.
Definition remove (path : str) : V unit := update_at path Fat32.remove.
Definition truncate (path : str) : V unit := update_at path Fat32.truncate.
Definition write_at (path : str) (offset : Z) (data : list Z) : V Z :=
  update_at path (λ f inner, Fat32.write_at f inner offset data).

Definition file_size (path : str) : V Z :=
  let! path := lift (normalize path) in
  let! (i, mount, inner) := routed path in
  match fs mount with
  | Initramfs =>
      let! o := from_ram (λ r, Initramfs.find r inner) in
      lift (ok_or NotFound ((λ b, Z.of_nat (length b)) <$> o))
  | FatFs _ _ _ _ =>
      let! e := mmap_err map_fat_error (on_fat i (λ f, stat f inner)) in
      if is_dir e then fail IsDirectory else ret (size e)
  end.

Definition read_all (path : str) : V (list Z) :=
  let! size := file_size path in
  if MAX_READ_ALL <? size then fail TooLarge
  else
    let! data := read_at path 0 size in
    if negb (Z.of_nat (length data) =? size) then fail Io else ret data.

(** The volumes of the mounts, first to last. *)
Fixpoint sync_loop (i : nat) (mounts : list Mount) (found : bool) : V bool :=
  match mounts with
  | [] => ret found
  | m :: mounts =>
      match fs m with
      | Initramfs => sync_loop (S i) mounts found
      | FatFs _ _ _ _ => flush_filesystem i ;;! sync_loop (S i) mounts true
      end
  end.

Definition sync : V unit := λ st,
  (let! found := sync_loop 0 (MOUNTS st) false in
   if (found : bool) then ret tt else fail ReadOnly) st.

(** ** Listing *)
Definition first_piece (s : str) : str := default s (head (split_on SLASH s)).

Definition has_entry (nm : str) (out : list DirEntry) : bool :=
  existsb (λ e, str_eqb (name e) nm) out.

Fixpoint list_archive (pre : str) (es : list Initramfs.Entry) (out : list DirEntry) : list DirEntry :=
  match es with
  | [] => out
  | e :: es =>
      match strip_prefix pre (Initramfs.e_name e) with
      | None | Some [] => list_archive pre es out
      | Some rest =>
          let nm := first_piece rest in
          if has_entry nm out then list_archive pre es out
          else
            let dir := contains SLASH rest in
            list_archive pre es
              (out ++ [mkDirEntry nm dir (if dir then 0 else wrap32 (Z.of_nat (length (Initramfs.e_data e))))])
      end
  end.

(** What a mount adds to the listing of [path]. *)
Definition child_name (path : str) (m : Mount) : option str :=
  if str_eqb (prefix m) path then None
  else
    rest ← (if str_eqb path (lit "/") then Some (trim_start_matches SLASH (prefix m))
            else trim_start_matches SLASH <$> strip_prefix (trim_end_matches SLASH path) (prefix m));
    match first_piece rest with [] => None | nm => Some nm end.

Fixpoint list_mounts (path : str) (mounts : list Mount) (out : list DirEntry) : list DirEntry :=
  match mounts with
  | [] => out
  | m :: mounts =>
      list_mounts path mounts
        (match child_name path m with
         | None => out
         | Some nm => if has_entry nm out then out else out ++ [mkDirEntry nm true 0]
         end)
  end.

Definition list_path (path : str) : V (list DirEntry) :=
  let! path := lift (normalize path) in
  let! (i, mount, inner) := routed path in
  let! out :=
    match fs mount with
    | FatFs _ _ _ _ => mmap_err map_fat_error (on_fat i (λ f, list_dir f inner))
    | Initramfs =>
        let pre := match inner with [] => [] | _ => trim_end_matches SLASH inner ++ [SLASH] end in
        let! es := from_ram Initramfs.all_entries in
        let out := list_archive pre es [] in
        let! o := from_ram (λ r, Initramfs.find r inner) in
        match inner, o, out with
        | _ :: _, Some _, _ => fail NotDirectory
        | _ :: _, None, [] => fail NotFound
        | _, _, _ => ret out
        end
    end in
  λ st, (Ok (list_mounts path (MOUNTS st) out), st).

Definition child_path (path nm : str) : str :=
  if str_eqb path (lit "/") then SLASH :: nm
  else trim_end_matches SLASH path ++ SLASH :: nm.

(** [walk], [depth] being how many levels are left of the 32. *)
Fixpoint walk (depth : nat) (path : str) (out : list str) : V (list str) :=
  match depth with
  | O => ret out
  | S depth =>
      if (4096 <=? length out)%nat then ret out
      else
        let! r := catch (E':=FsError) (list_path path) in
        match r with
        | inr _ => ret out
        | inl es =>
            (fix go (es : list DirEntry) (out : list str) : V (list str) :=
               match es with
               | [] => ret out
               | e :: es =>
                   let child := child_path path (name e) in
                   if is_dir e then
                     let! out := walk depth child out in go es out
                   else
                     let out := out ++ [child] in
                     if (4096 <=? length out)%nat then ret out else go es out
               end) es out
        end
  end.

Definition list_files : V (list str) := walk 32 (lit "/") [].
End Ops.
Arguments VfsState : clear implicits.
Arguments Dyn : clear implicits.

(** ** Clean paths *)
Definition clean (p : str) : Prop := p ≠ [] ∧ p ≠ lit "." ∧ p ≠ lit ".." ∧ SLASH ∉ p.

(** The absolute path of components. *)
Definition abs (cs : list str) : str := SLASH :: join SLASH cs.

Lemma normalize_parts_clean_out ps acc cs :
  Forall (λ p, SLASH ∉ p) ps → Forall clean acc → normalize_parts ps acc = Ok cs → Forall clean cs.
Proof.
  intros Hps. revert acc. induction Hps as [|p ps Hp Hps IH]; intros acc Hacc; cbn [normalize_parts].
  { intros [= <-]. by apply Forall_rev. }
  destruct (str_eqb p []) eqn:E0; [by apply IH|]. destruct (str_eqb p (lit ".")) eqn:E1; [by apply IH|].
  cbn [orb]. destruct (str_eqb p (lit "..")) eqn:E2.
  - destruct acc as [|a acc]; [done|]. apply Forall_cons in Hacc as [_ Hacc]. by apply IH.
  - apply IH. apply Forall_cons. split; [|done]. unfold clean. rewrite <- !str_eqb_eq, E0, E1, E2. done.
Qed.

Lemma normalize_parts_clean_in cs acc :
  Forall clean cs → normalize_parts cs acc = Ok (rev acc ++ cs).
Proof.
  intros Hcs. revert acc. induction Hcs as [|c cs (H0 & H1 & H2 & _) _ IH]; intros acc; cbn [normalize_parts].
  { by rewrite app_nil_r. }
  rewrite <- str_eqb_eq in H0, H1, H2. rewrite not_true_iff_false in H0, H1, H2.
  rewrite H0, H1, H2. cbn [orb]. rewrite IH. simpl. by rewrite <- app_assoc.
Qed.

Lemma clean_no_slash cs : Forall clean cs → Forall (λ p, SLASH ∉ p) cs.
Proof. intros H. eapply Forall_impl; [exact H|]. by intros p (_ & _ & _ & ?). Qed.

Lemma split_abs cs : Forall clean cs → split_on SLASH (abs cs) = [] :: match cs with [] => [[]] | _ => cs end.
Proof.
  intros Hcs. unfold abs. cbn [split_on]. rewrite Z.eqb_refl. f_equal. destruct cs as [|c cs]; [done|].
  apply split_on_join; [done|by apply clean_no_slash].
Qed.

Lemma normalize_abs cs : Forall clean cs → normalize (abs cs) = Ok (abs cs).
Proof.
  intros Hcs. unfold normalize. rewrite split_abs by done. cbn [normalize_parts str_eqb].
  destruct cs as [|c cs]; [done|].
  replace (str_eqb [] [] || str_eqb [] (lit ".")) with true by done.
  by rewrite normalize_parts_clean_in.
Qed.

(** How far a list of pieces goes down: names less double dots. *)
Fixpoint descent (ps : list str) : Z :=
  match ps with
  | [] => 0
  | p :: ps =>
      (if str_eqb p [] || str_eqb p (lit ".") then 0
       else if str_eqb p (lit "..") then -1 else 1) + descent ps
  end.

Lemma normalize_parts_result ps acc :
  (∃ cs, normalize_parts ps acc = Ok cs ∧ ∀ n, 0 ≤ Z.of_nat (length acc) + descent (take n ps)) ∨
  (normalize_parts ps acc = Err InvalidPath ∧ ∃ n, Z.of_nat (length acc) + descent (take n ps) < 0).
Proof.
  revert acc. induction ps as [|p ps IH]; intros acc; cbn [normalize_parts].
  { left. exists (rev acc). split; [done|]. intros n. rewrite take_nil. simpl. lia. }
  assert (Hstep : ∀ acc' d,
    d = (if str_eqb p [] || str_eqb p (lit ".") then 0 else if str_eqb p (lit "..") then -1 else 1) →
    Z.of_nat (length acc') = Z.of_nat (length acc) + d →
    (∃ cs, normalize_parts ps acc' = Ok cs ∧ ∀ n, 0 ≤ Z.of_nat (length acc) + descent (take n (p :: ps))) ∨
    (normalize_parts ps acc' = Err InvalidPath ∧ ∃ n, Z.of_nat (length acc) + descent (take n (p :: ps)) < 0)).
  { intros acc' d Hd Hl. destruct (IH acc') as [(cs & E & Hn)|[E [n Hn]]].
    - left. exists cs. split; [done|]. intros [|n]; [simpl; lia|].
      specialize (Hn n). cbn [take descent]. rewrite <- Hd. lia.
    - right. split; [done|]. exists (S n). cbn [take descent]. rewrite <- Hd. lia. }
  destruct (str_eqb p [] || str_eqb p (lit ".")) eqn:E1; [by apply (Hstep acc 0); [|lia]|].
  destruct (str_eqb p (lit "..")) eqn:E2.
  - destruct acc as [|a acc]; [|apply (Hstep acc (-1)); simpl; lia].
    right. split; [done|]. exists 1%nat. change (take 1 (p :: ps)) with [p]. cbn [descent length]. rewrite E1, E2. lia.
  - apply (Hstep (p :: acc) 1); simpl; lia.
Qed.

(** ** Routing *)
Lemma split_on_app_gen c a b : split_on c (a ++ c :: b) = split_on c a ++ split_on c b.
Proof.
  induction a as [|x a IH]; [simpl; by rewrite Z.eqb_refl|]. cbn [app split_on]. rewrite IH.
  destruct (x =? c); [done|]. destruct (split_on c a) eqn:E; [by apply split_on_nonempty in E|done].
Qed.

Lemma join_app c a b : a ≠ [] → b ≠ [] → join c (a ++ b) = join c a ++ c :: join c b.
Proof.
  intros Ha Hb. induction a as [|x a IH]; [done|]. destruct a as [|y a].
  - destruct b as [|z b]; [done|]. done.
  - change (join c ((x :: y :: a) ++ b)) with (x ++ c :: join c ((y :: a) ++ b)).
    rewrite IH by done. cbn [join]. by rewrite <- app_assoc.
Qed.

Lemma join_no_slash cs : Forall clean cs → trim_start_matches SLASH (join SLASH cs) = join SLASH cs.
Proof.
  intros [|c cs' (H0 & _ & _ & Hs) _]; [done|]. destruct c as [|x c]; [done|].
  assert (Hx : x =? SLASH = false) by (apply Z.eqb_neq; intros ->; apply Hs; left).
  destruct cs' as [|d cs']; cbn [join app trim_start_matches]; by rewrite Hx.
Qed.

Lemma abs_inj a b : Forall clean a → Forall clean b → abs a = abs b → a = b.
Proof.
  intros Ha Hb E. apply (f_equal (split_on SLASH)) in E. rewrite !split_abs in E by done.
  injection E as E. destruct a as [|x a], b as [|y b]; try done.
  - injection E as <- <-. by apply Forall_cons in Hb as [[? _] _].
  - injection E as -> ->. by apply Forall_cons in Ha as [[? _] _].
Qed.

(** A mount is a candidate exactly when its components begin those of the
    path; the filesystem gets the components that are left. *)
Lemma route_one_spec m ps cs :
  prefix m = abs ps → Forall clean ps → Forall clean cs →
  route_one m (abs cs) = if decide (ps `prefix_of` cs) then Some (join SLASH (drop (length ps) cs)) else None.
Proof.
  intros Hp Hps Hcs. unfold route_one. rewrite Hp.
  destruct (str_eqb (abs ps) (lit "/")) eqn:E0.
  { apply str_eqb_eq in E0. change (lit "/") with (abs []) in E0.
    apply abs_inj in E0 as ->; [|done|constructor]. rewrite decide_True by apply prefix_nil.
    unfold abs. cbn [trim_start_matches]. rewrite Z.eqb_refl, join_no_slash by done. done. }
  assert (Hne : ps ≠ []) by (by intros ->).
  destruct (str_eqb (abs cs) (abs ps)) eqn:E1.
  { apply str_eqb_eq, abs_inj in E1 as ->; [|done..]. by rewrite decide_True, drop_all. }
  destruct (decide (ps `prefix_of` cs)) as [[r ->]|Hno].
  - destruct r as [|x r]; [by rewrite app_nil_r, (proj2 (str_eqb_eq _ _) eq_refl) in E1|].
    assert (E : strip_prefix (abs ps) (abs (ps ++ x :: r)) = Some (SLASH :: join SLASH (x :: r))).
    { apply strip_prefix_Some. unfold abs. by rewrite join_app. }
    rewrite E. cbn [starts_with strip_prefix lit]. rewrite drop_app_length.
    apply Forall_app in Hcs as [_ Hr].
    change (trim_start_matches SLASH (SLASH :: ?s)) with (trim_start_matches SLASH s).
    by rewrite join_no_slash.
  - destruct (strip_prefix (abs ps) (abs cs)) as [t|] eqn:E; [|done].
    destruct (starts_with (lit "/") t) eqn:Et; [|done]. exfalso. apply Hno.
    unfold starts_with in Et. destruct (strip_prefix (lit "/") t) as [t'|] eqn:Et'; [|done].
    apply strip_prefix_Some in E, Et' as ->.
    assert (E2 : split_on SLASH (abs cs) = split_on SLASH (abs ps) ++ split_on SLASH t').
    { rewrite E. apply split_on_app_gen. }
    rewrite !split_abs in E2 by done. destruct ps as [|p ps]; [done|]. injection E2 as E2.
    destruct cs as [|c cs]; [|exists (split_on SLASH t'); exact E2].
    injection E2 as <- _. by apply Forall_cons in Hps as [[? _] _].
Qed.

(** A mount of [mounts] that takes [path]. *)
Definition candidate (k : nat) (mounts : list Mount) (path : str) (x : nat * Mount * str) : Prop :=
  let '(i, m, inner) := x in (k ≤ i)%nat ∧ mounts !! (i - k)%nat = Some m ∧ route_one m path = Some inner.

Definition prefix_len (x : nat * Mount * str) : nat := length (prefix x.1.2).

Lemma candidate_S k m mounts path x :
  candidate k (m :: mounts) path x ↔
  (∃ inner, x = (k, m, inner) ∧ route_one m path = Some inner) ∨ candidate (S k) mounts path x.
Proof.
  destruct x as [[i m'] inner]. unfold candidate. split.
  - intros (Hi & Hm & Hr). destruct (decide (i = k)) as [->|Hne].
    + rewrite Nat.sub_diag in Hm. injection Hm as ->. left. eauto.
    + right. replace (i - k)%nat with (S (i - S k)) in Hm by lia. split; [lia|done].
  - intros [(inner' & [= -> -> ->] & Hr)|(Hi & Hm & Hr)].
    + rewrite Nat.sub_diag. done.
    + split; [lia|]. replace (i - k)%nat with (S (i - S k)) by lia. done.
Qed.

Lemma route_from_spec k mounts path best :
  match route_from k mounts path best with
  | None => best = None ∧ ∀ x, ¬ candidate k mounts path x
  | Some r =>
      (best = Some r ∨ candidate k mounts path r) ∧
      (∀ b, best = Some b → (prefix_len b ≤ prefix_len r)%nat) ∧
      ∀ x, candidate k mounts path x → (prefix_len x ≤ prefix_len r)%nat
  end.
Proof.
  revert k best. induction mounts as [|m mounts IH]; intros k best; cbn [route_from].
  { destruct best as [b|].
    - split; [by left|]. split; [by intros ? [= ->]|]. intros [[i m'] inner] (_ & Hm & _). done.
    - split; [done|]. intros [[i m'] inner] (_ & Hm & _). done. }
  set (best' := match route_one m path with None => best | Some _ => _ end).
  assert (Hb : match best' with
    | None => best = None ∧ route_one m path = None
    | Some b' => (best = Some b' ∨ ∃ inner, b' = (k, m, inner) ∧ route_one m path = Some inner) ∧
        (∀ b, best = Some b → (prefix_len b ≤ prefix_len b')%nat) ∧
        (∀ inner, route_one m path = Some inner → (length (prefix m) ≤ prefix_len b')%nat)
    end).
  { subst best'. destruct (route_one m path) as [inner|]; [|destruct best; naive_solver].
    destruct best as [[[j b] bi]|]; [|naive_solver].
    destruct (Nat.leb_spec (length (prefix b)) (length (prefix m))); unfold prefix_len; simpl;
      split_and!; naive_solver lia. }
  clearbody best'. specialize (IH (S k) best'). destruct (route_from (S k) mounts path best') as [r|].
  - destruct IH as (H1 & H2 & H3). split_and!.
    + rewrite candidate_S. destruct H1 as [->|?]; [|naive_solver]. destruct Hb as ([?|?] & _); naive_solver.
    + intros b ->. destruct best' as [b'|]; [|by destruct Hb].
      destruct Hb as (_ & Hb & _). specialize (Hb b eq_refl). specialize (H2 b' eq_refl). lia.
    + intros x [(inner & -> & Hr)|Hx]%candidate_S; [|by apply H3].
      destruct best' as [b'|]; [|destruct Hb; congruence].
      destruct Hb as (_ & _ & Hb). specialize (Hb inner Hr). specialize (H2 b' eq_refl).
      unfold prefix_len in *. simpl. lia.
  - destruct IH as [-> H2]. destruct Hb as [-> Hr]. split; [done|].
    intros x [(inner & _ & ?)|Hx]%candidate_S; [congruence|by eapply H2].
Qed.

(** The shape of a mount table: the archive at the root, FAT volumes at
    clean prefixes of their own. *)
Definition row (m : Mount) : str * option str * bool :=
  (prefix m, source_device m, match fs m with Initramfs => false | _ => true end).

Record table_ok (rows : list (str * option str * bool)) : Prop := {
  tb_clean : Forall (λ r, ∃ ps, Forall clean ps ∧ r.1.1 = abs ps) rows;
  tb_nodup : NoDup (map (λ r, r.1.1) rows);
  tb_root : head rows = Some (lit "/", None, false);
  tb_fat : Forall (λ r, r.2 = true) (tail rows);
  tb_devices : ∀ i j r r' d, rows !! i = Some r → rows !! j = Some r' →
    r.1.2 = Some d → r'.1.2 = Some d → i = j
}.

Lemma abs_length ps qs :
  Forall clean qs → ps `prefix_of` qs → (length (abs ps) ≤ length (abs qs))%nat ∧
  (ps ≠ qs → (length (abs ps) < length (abs qs))%nat).
Proof.
  intros Hq [r ->]. destruct r as [|x r]; [rewrite app_nil_r; naive_solver lia|].
  apply Forall_app in Hq as [_ Hr]. apply Forall_cons in Hr as [[Hx _] _].
  assert (1 ≤ length (join SLASH (x :: r)))%nat.
  { destruct x as [|a x]; [done|]. destruct r; cbn [join]; rewrite ?length_app; simpl; lia. }
  unfold abs. destruct ps as [|p ps]; [simpl in *; lia|].
  rewrite join_app by done. cbn [length]. rewrite length_app. cbn [length]. lia.
Qed.

(** The routed mount, for a clean path over a sound table. *)
Lemma route_spec mounts cs :
  table_ok (map row mounts) → Forall clean cs →
  ∃ i m ps rest, route mounts (abs cs) = Some (i, m, join SLASH rest) ∧ mounts !! i = Some m ∧
    prefix m = abs ps ∧ Forall clean ps ∧ cs = ps ++ rest ∧
    ∀ j m' ps', mounts !! j = Some m' → prefix m' = abs ps' → Forall clean ps' →
      ps' `prefix_of` cs → ps' `prefix_of` ps ∧ (ps' = ps → j = i).
Proof.
  intros [Hcl Hnd Hroot _ _] Hcs. pose proof (route_from_spec 0 mounts (abs cs) None) as Hr.
  rewrite Forall_fmap in Hcl. fold (route mounts (abs cs)) in Hr.
  assert (Hcand : ∀ j m' ps', mounts !! j = Some m' → prefix m' = abs ps' → Forall clean ps' →
    ps' `prefix_of` cs → candidate 0 mounts (abs cs) (j, m', join SLASH (drop (length ps') cs))).
  { intros j m' ps' Hj Hp Hps Hpre. split; [lia|]. rewrite Nat.sub_0_r. split; [done|].
    rewrite (route_one_spec m' ps') by done. by rewrite decide_True. }
  destruct mounts as [|m0 mounts]; [done|]. injection Hroot as H0 _ _.
  destruct (route (m0 :: mounts) (abs cs)) as [[[i m] inner]|].
  2:{ destruct Hr as [_ Hr]. destruct (Hr (0%nat, m0, join SLASH (drop 0 cs))).
      apply (Hcand 0%nat m0 []); [done|done|constructor|apply prefix_nil]. }
  destruct Hr as ([?|(_ & Hm & Hone)] & _ & Hmax); [done|]. rewrite Nat.sub_0_r in Hm.
  rewrite Forall_forall in Hcl. destruct (Hcl m) as (ps & Hps & Hp); [by eapply list_elem_of_lookup_2|].
  simpl in Hp. rewrite (route_one_spec m ps) in Hone by done.
  destruct (decide (ps `prefix_of` cs)) as [[rest Hrest]|]; [|done]. injection Hone as <-.
  exists i, m, ps, rest. split; [by rewrite Hrest, drop_app_length|]. split_and!; try done.
  intros j m' ps' Hj Hp' Hps' Hpre'. specialize (Hcand j m' ps' Hj Hp' Hps' Hpre').
  specialize (Hmax _ Hcand). unfold prefix_len in Hmax. simpl in Hmax. rewrite Hp, Hp' in Hmax.
  assert (Hpre : ps `prefix_of` cs) by (by exists rest).
  split.
  - destruct (prefix_weak_total ps' ps cs Hpre' Hpre) as [?|Hq]; [done|].
    destruct (decide (ps = ps')) as [->|Hne]; [done|].
    destruct (abs_length ps ps' Hps' Hq) as [_ Hlt]. specialize (Hlt Hne). lia.
  - intros ->. eapply (NoDup_lookup (map (λ r, r.1.1) (map row (m0 :: mounts))));
      [exact Hnd|rewrite !list_lookup_fmap, Hj; simpl; by rewrite Hp'|
       rewrite !list_lookup_fmap, Hm; simpl; by rewrite Hp].
Qed.

Section Frames.
Context {D : Type} `{BlockDevice D}.
Implicit Types st : VfsState D.

(** What the operations on files never change: the table of mounts, but for
    the volumes' flags, and the archive. *)
Definition table st : list (str * option str * bool) * Initramfs.RamState := (map row (MOUNTS st), ram st).

Definition keeps {E A} (m : M (VfsState D) E A) : Prop := ∀ st, table (m st).2 = table st.

Lemma keeps_bind {E A B} (m : M (VfsState D) E A) (f : A → M (VfsState D) E B) :
  keeps m → (∀ a, keeps (f a)) → keeps (bind m f).
Proof.
  intros Hm Hf st. specialize (Hm st). unfold bind. destruct (m st) as [[a|e| |] st']; try done.
  simpl in Hm. by rewrite Hf.
Qed.

Lemma keeps_catch {E E' A} (m : M (VfsState D) E A) : keeps m → keeps (catch (E':=E') m).
Proof. intros Hm st. specialize (Hm st). unfold catch. by destruct (m st) as [[] ?]. Qed.

Lemma keeps_map_err {E E' A} (f : E → E') (m : M (VfsState D) E A) : keeps m → keeps (mmap_err f m).
Proof. intros Hm st. specialize (Hm st). unfold mmap_err. by destruct (m st) as [[] ?]. Qed.

Lemma keeps_ret {E A} (a : A) : keeps (E:=E) (ret a).
Proof. done. Qed.
Lemma keeps_fail {E A} (e : E) : keeps (A:=A) (fail e).
Proof. done. Qed.
Lemma keeps_lift {E A} (r : res E A) : keeps (lift r).
Proof. done. Qed.
Lemma keeps_routed path : keeps (routed path).
Proof. done. Qed.
Lemma keeps_ram {A} (r : Initramfs.RamState → res unit A) : keeps (from_ram r).
Proof. intros st. unfold from_ram. by destruct (r (ram st)). Qed.

Lemma keeps_on_fat {E A} i (m : Fat32 → M (FatState (Dyn D)) E A) : keeps (on_fat i m).
Proof.
  intros st. unfold on_fat. destruct (MOUNTS st !! i) as [[p [|fat h hint inv] src]|] eqn:Ei; try done.
  destruct (m fat _) as [r f]. unfold table. simpl. f_equal.
  rewrite list_fmap_insert. apply list_insert_id. rewrite list_lookup_fmap, Ei. done.
Qed.
End Frames.

Create HintDb vfs.
#[export] Hint Resolve keeps_catch keeps_map_err keeps_ret keeps_fail keeps_lift keeps_routed
  keeps_ram keeps_on_fat : vfs.

Ltac keeps_step :=
  match goal with
  | |- keeps (bind _ _) => apply keeps_bind; [|intros ?]
  | |- keeps (match ?x with _ => _ end) => destruct x
  | |- keeps _ => solve [eauto with vfs]
  end.
Ltac solve_keeps := repeat keeps_step.

Section Invariant.
Context {D : Type} `{BlockDevice D}.
Implicit Types st : VfsState D.

Lemma keeps_flush i : keeps (D:=D) (flush_filesystem i).
Proof. unfold flush_filesystem. eauto with vfs. Qed.
#[local] Hint Resolve keeps_flush : vfs.

Lemma keeps_update {A} path (op : Fat32 → str → M (FatState (Dyn D)) FatError A) : keeps (update_at path op).
Proof. unfold update_at. solve_keeps. Qed.

Lemma keeps_read_at path o n : keeps (D:=D) (read_at path o n).
Proof. unfold read_at. solve_keeps. Qed.

Lemma keeps_file_size path : keeps (D:=D) (file_size path).
Proof. unfold file_size. solve_keeps. Qed.
#[local] Hint Resolve keeps_read_at keeps_file_size : vfs.

Lemma keeps_read_all path : keeps (D:=D) (read_all path).
Proof. unfold read_all. solve_keeps. Qed.

Lemma keeps_sync_loop i ms found : keeps (D:=D) (sync_loop i ms found).
Proof. revert i found. induction ms as [|m ms IH]; intros i found; cbn [sync_loop]; solve_keeps; apply IH. Qed.

Lemma keeps_sync : keeps (D:=D) sync.
Proof.
  intros st. unfold sync. apply keeps_bind; [apply keeps_sync_loop|]. intros found. solve_keeps.
Qed.

Lemma keeps_list path : keeps (D:=D) (list_path path).
Proof. unfold list_path. solve_keeps. all: done. Qed.
#[local] Hint Resolve keeps_list : vfs.

Lemma keeps_walk depth path out : keeps (D:=D) (walk depth path out).
Proof.
  revert path out. induction depth as [|depth IH]; intros path out; cbn [walk]; [solve_keeps|].
  destruct (4096 <=? length out)%nat; [solve_keeps|]. apply keeps_bind; [eauto with vfs|]. intros [es|e]; [|solve_keeps].
  revert out. induction es as [|e es IHes]; intros out; [solve_keeps|].
  destruct (is_dir e).
  - apply keeps_bind; [apply IH|]. intros. apply IHes.
  - case_match; [solve_keeps|apply IHes].
Qed.

Lemma table_extend rows pre src :
  table_ok rows → (∃ ps, Forall clean ps ∧ pre = abs ps) →
  Forall (λ r, r.1.1 ≠ pre ∧ (src ≠ None → r.1.2 ≠ src)) rows →
  table_ok (rows ++ [(pre, src, true)]).
Proof using.
  intros [Hcl Hnd Hroot Hfat Hdev] Hpre Hnew. destruct rows as [|r0 rows]; [done|]. split.
  - apply Forall_app. split; [done|]. by apply Forall_singleton.
  - rewrite map_app. apply NoDup_app. split_and!; [done| |apply NoDup_singleton].
    intros x Hx ->%list_elem_of_singleton. apply list_elem_of_fmap in Hx as (r & Hr & Hin).
    rewrite Forall_forall in Hnew. destruct (Hnew r Hin). done.
  - done.
  - simpl in *. apply Forall_app. split; [done|]. by apply Forall_singleton.
  - intros i j r r' d Hi Hj Hr Hr'. rewrite Forall_forall in Hnew.
    apply lookup_snoc_Some in Hi as [[_ Hi]|[-> <-]], Hj as [[_ Hj]|[-> <-]]; [by eapply Hdev| | |done];
      simpl in *; subst src.
    + destruct (Hnew r) as [_ Hne]; [by eapply list_elem_of_lookup_2|]. by destruct Hne.
    + destruct (Hnew r') as [_ Hne]; [by eapply list_elem_of_lookup_2|]. by destruct Hne.
Qed.

Lemma normalize_Ok path p : normalize path = Ok p → ∃ ps, Forall clean ps ∧ p = abs ps.
Proof using.
  unfold normalize. destruct (normalize_parts (split_on SLASH path) []) as [ps|e| |] eqn:E; try done.
  intros [= <-]. exists ps. split; [|done].
  eapply normalize_parts_clean_out; [apply split_on_pieces|constructor|exact E].
Qed.

Lemma mount_inner_table pre source dev st :
  table_ok (map row (MOUNTS st)) → table_ok (map row (MOUNTS (mount_fat32_inner pre source dev st).2)).
Proof using.
  intros Hok. unfold mount_fat32_inner. destruct (negb _); [done|].
  destruct (normalize pre) as [p|e| |] eqn:Ep; try done. destruct (str_eqb p (lit "/")); [done|].
  destruct (Fat32.mount _) as [[fat f]|e| |]; try done.
  destruct (existsb _ (MOUNTS st)) eqn:Ex; [done|]. simpl. rewrite map_app.
  apply table_extend; [done|by eapply normalize_Ok|].
  apply Forall_fmap, Forall_forall. intros m Hm.
  rewrite <- not_true_iff_false, existsb_exists in Ex. simpl. split.
  - intros Hp. apply Ex. exists m. split; [by apply list_elem_of_In|]. by rewrite (proj2 (str_eqb_eq _ _) Hp).
  - intros Hs Hd. apply Ex. exists m. split; [by apply list_elem_of_In|]. destruct source; [|done].
    rewrite bool_decide_true by done. apply orb_true_r.
Qed.
End Invariant.

(** ** Sequences of operations *)
Inductive VfsOp :=
  | OpMountDevice (pre name : str) (dev : nat)
  | OpMountPartition (pre : str) (dev : nat) (start_lba sectors : Z)
  | OpCreateFile (path : str)
  | OpCreateDir (path : str)
  | OpRemove (path : str)
  | OpTruncate (path : str)
  | OpWrite (path : str) (offset : Z) (data : list Z)
  | OpRead (path : str) (offset len : Z)
  | OpReadAll (path : str)
  | OpSize (path : str)
  | OpList (path : str)
  | OpSync
  | OpListFiles.

Section Runs.
Context {D : Type} `{BlockDevice D}.
Implicit Types st : VfsState D.

Definition run_op (op : VfsOp) (st : VfsState D) : VfsState D :=
  match op with
  | OpMountDevice pre name dev => (mount_fat32_device pre name (Whole dev) st).2
  | OpMountPartition pre dev start n => (mount_fat32_partition pre dev start n st).2
  | OpCreateFile path => (create_file path st).2
  | OpCreateDir path => (create_dir path st).2
  | OpRemove path => (remove path st).2
  | OpTruncate path => (truncate path st).2
  | OpWrite path o data => (write_at path o data st).2
  | OpRead path o n => (read_at path o n st).2
  | OpReadAll path => (read_all path st).2
  | OpSize path => (file_size path st).2
  | OpList path => (list_path path st).2
  | OpSync => (sync st).2
  | OpListFiles => (list_files st).2
  end.

Definition run (ops : list VfsOp) (st : VfsState D) : VfsState D := foldl (λ st op, run_op op st) st ops.

Lemma run_op_table op st :
  table_ok (map row (MOUNTS st)) → table_ok (map row (MOUNTS (run_op op st))).
Proof using.
  intros Hok.
  assert (Hk : ∀ E A (m : M (VfsState D) E A), keeps m → table_ok (map row (MOUNTS (m st).2))).
  { intros E A m Hm. specialize (Hm st). unfold table in Hm. injection Hm as -> _. done. }
  destruct op; cbn [run_op]; try (eapply Hk; first [apply keeps_update|apply keeps_read_at|
    apply keeps_read_all|apply keeps_file_size|apply keeps_list|apply keeps_sync|apply keeps_walk]).
  - by apply mount_inner_table.
  - unfold mount_fat32_partition. destruct (PartitionDevice_new _ _ _); [|done]. by apply mount_inner_table.
Qed.

Lemma run_table ops st : table_ok (map row (MOUNTS st)) → table_ok (map row (MOUNTS (run ops st))).
Proof using.
  revert st. induction ops as [|op ops IH]; intros st Hok; [done|]. cbn. apply IH. by apply run_op_table.
Qed.

Lemma init_table st : table_ok (map row (MOUNTS (init st).2)).
Proof using.
  split; simpl.
  - apply Forall_singleton. exists []. split; [constructor|done].
  - apply NoDup_singleton.
  - done.
  - constructor.
  - intros [|i] [|j]; simpl; naive_solver.
Qed.
End Runs.

(** ** Properties *)

(** Every path normalizes to the absolute path of its clean components
    (none empty, [.], [..] or with a slash), which normalizes to itself, unless
    following it from the left goes above the root at some point; then, and
    only then, it is refused as [InvalidPath]. *)
Theorem normalize_correct path :
  match normalize path with
  | Ok p => (∃ cs, Forall clean cs ∧ p = abs cs) ∧ normalize p = Ok p ∧
            ∀ n, 0 ≤ descent (take n (split_on SLASH path))
  | Err e => e = InvalidPath ∧ ∃ n, descent (take n (split_on SLASH path)) < 0
  | _ => False
  end.
Proof.
  destruct (normalize path) as [p|e| |] eqn:E.
  1: destruct (normalize_Ok path p E) as (cs & Hcs & ->).
  all: unfold normalize in E;
    destruct (normalize_parts_result (split_on SLASH path) []) as [(ps & E' & Hn)|[E' Hn]];
    rewrite E' in E; try done.
  - split; [by eauto|]. split; [by apply normalize_abs|]. exact Hn.
  - by injection E as <-.
Qed.

(** C22: After boot, whatever sequence of mounts and file operations has run,
    every normalized path has exactly one filesystem: the mount whose
    components are the longest beginning of the path's, and that filesystem is
    given exactly the components left. *)
Theorem routing_longest_prefix {D} `{BlockDevice D} (ops : list VfsOp) (st0 : VfsState D) cs :
  Forall clean cs →
  let mounts := MOUNTS (run ops (init st0).2) in
  ∃ i m ps rest, route mounts (abs cs) = Some (i, m, join SLASH rest) ∧ mounts !! i = Some m ∧
    prefix m = abs ps ∧ cs = ps ++ rest ∧
    ∀ j m' ps', mounts !! j = Some m' → prefix m' = abs ps' → Forall clean ps' →
      ps' `prefix_of` cs → ps' `prefix_of` ps ∧ (ps' = ps → j = i).
Proof.
  intros Hcs mounts. destruct (route_spec mounts cs) as (i & m & ps & rest & H1 & H2 & H3 & _ & H4 & H5).
  - apply run_table, init_table.
  - done.
  - exists i, m, ps, rest. done.
Qed.

(** The machine's device that the volume of a path lives on. *)
Definition device_of {D} (st : VfsState D) (path : str) : option nat :=
  match normalize path with
  | Ok p =>
      match route (MOUNTS st) p with
      | Some (_, mkMount _ (FatFs _ h _ _) _, _) => Some (match h with Whole i | Part i _ _ => i end)
      | _ => None
      end
  | _ => None
  end.

Lemma on_fat_store {D} `{BlockDevice D} {E A} i (m : Fat32 → M (FatState (Dyn D)) E A) (st : VfsState D) p fat h hint inv src j :
  MOUNTS st !! i = Some (mkMount p (FatFs fat h hint inv) src) →
  j ≠ (match h with Whole i | Part i _ _ => i end) →
  store (on_fat i m st).2 j = store st j ∧
  ∃ hint' inv', MOUNTS (on_fat i m st).2 !! i = Some (mkMount p (FatFs fat h hint' inv') src).
Proof.
  intros Hi Hj. unfold on_fat. rewrite Hi. destruct (m fat _) as [r f]. simpl. split.
  - unfold put_device. by rewrite decide_False.
  - eexists _, _. apply list_lookup_insert_eq. by eapply lookup_lt_Some.
Qed.

Lemma route_lookup mounts path i m inner : route mounts path = Some (i, m, inner) → mounts !! i = Some m.
Proof.
  intros E. pose proof (route_from_spec 0 mounts path None) as Hr. fold (route mounts path) in Hr.
  rewrite E in Hr. destruct Hr as ([?|(_ & Hm & _)] & _); [done|]. by rewrite Nat.sub_0_r in Hm.
Qed.

Lemma normalize_total path : match normalize path with Ok _ | Err _ => True | _ => False end.
Proof.
  unfold normalize. by destruct (normalize_parts_result (split_on SLASH path) []) as [(ps & -> & _)|[-> _]].
Qed.

(** The operations that change files, with the path taken apart. *)
Section Update.
Context {D : Type} `{BlockDevice D} {A : Type}.
Context (path : str) (op : Fat32 → str → M (FatState (Dyn D)) FatError A) (st : VfsState D).

Lemma update_err e : normalize path = Err e → update_at path op st = (Err e, st).
Proof using. intros E. unfold update_at, bind, lift. by rewrite E. Qed.

Lemma update_unrouted p :
  normalize path = Ok p → route (MOUNTS st) p = None → update_at path op st = (Err NotFound, st).
Proof using. intros E Er. unfold update_at, bind, lift, routed. by rewrite E, Er. Qed.

Lemma update_routed p i m inner :
  normalize path = Ok p → route (MOUNTS st) p = Some (i, m, inner) →
  update_at path op st =
  (match fs m with
   | Initramfs => fail ReadOnly
   | FatFs _ _ _ _ =>
       let! r := mmap_err map_fat_error (on_fat i (λ f, op f inner)) in flush_filesystem i ;;! ret r
   end) st.
Proof using.
  intros E Er. unfold update_at. unfold bind at 1, lift. rewrite E. unfold bind at 1, routed. by rewrite Er.
Qed.
End Update.


(** [read_all] of a path of the boot archive is the contents of the first
    file of the archive under the path that is left for it, refused when no
    file has it ([NotFound]) or when it is over the limit ([TooLarge]); the
    state does not change. *)
Theorem read_all_archive {D} `{BlockDevice D} (st : VfsState D) path p i m inner es :
  normalize path = Ok p → route (MOUNTS st) p = Some (i, m, inner) → fs m = Initramfs →
  Initramfs.all_entries (ram st) = Ok es →
  read_all path st =
  (match List.find (λ e, str_eqb (Initramfs.e_name e) (Initramfs.normalize inner)) es with
   | None => Err NotFound
   | Some e =>
       if MAX_READ_ALL <? Z.of_nat (length (Initramfs.e_data e)) then Err TooLarge
       else Ok (Initramfs.e_data e)
   end, st).
Proof.
  intros Ep Er Hm Hes.
  assert (Hfind : Initramfs.find (ram st) inner =
    Ok (Initramfs.e_data <$> List.find (λ e, str_eqb (Initramfs.e_name e) (Initramfs.normalize inner)) es)).
  { destruct (Initramfs.drain_total (Initramfs.rounds (Initramfs.entries (ram st))) (Initramfs.entries (ram st)))
      as (es' & Ees & _ & Hf);
      [simpl; lia|apply Initramfs.rounds_enough; simpl; lia|unfold Initramfs.rounds; lia|].
    unfold Initramfs.all_entries in Hes. rewrite Hes in Ees. injection Ees as <-.
    unfold Initramfs.find. by rewrite Hf. }
  assert (Hsize : file_size path st =
    (ok_or NotFound ((λ b, Z.of_nat (length b)) <$> (Initramfs.e_data <$>
       List.find (λ e, str_eqb (Initramfs.e_name e) (Initramfs.normalize inner)) es)), st)).
  { unfold file_size. unfold bind at 1, lift. rewrite Ep. unfold bind at 1, routed. rewrite Er. simpl.
    rewrite Hm. unfold bind, from_ram. by rewrite Hfind. }
  unfold read_all. unfold bind at 1. rewrite Hsize.
  destruct (List.find _ es) as [e|] eqn:Ef; [|done]. simpl.
  destruct (MAX_READ_ALL <? _) eqn:El; [done|].
  assert (Hread : read_at path 0 (Z.of_nat (length (Initramfs.e_data e))) st = (Ok (Initramfs.e_data e), st)).
  { unfold read_at. unfold bind at 1, lift. rewrite Ep. unfold bind at 1, routed. rewrite Er. simpl.
    rewrite Hm. unfold bind at 1, from_ram. rewrite Hfind. simpl. unfold bind, lift. simpl.
    destruct (Z.leb_spec (Z.of_nat (length (Initramfs.e_data e))) 0) as [Hz|Hz].
    - destruct (Initramfs.e_data e); [done|simpl in Hz; lia].
    - unfold ret. do 2 f_equal. rewrite drop_0, Z.min_l, Nat2Z.id, firstn_all by lia. done. }
  rewrite (bind_ok _ _ _ _ _ Hread). by rewrite Z.eqb_refl.
Qed.

(** The listing of a directory can show a name that is no child of it: a
    mount whose last component only begins with the directory's, as [/disk2]
    does with [/disk], is listed under what is left of its name. *)
Theorem list_shows_phantom_mount fat h hint inv src out :
  let m := mkMount (lit "/disk2") (FatFs fat h hint inv) src in
  list_mounts (lit "/disk") [m] out =
  if has_entry (lit "2") out then out else out ++ [mkDirEntry (lit "2") true 0].
Proof. reflexivity. Qed.

Lemma memory_flush (h : Handle) (st : nat → MemoryBlockDevice) :
  flush (get_device h st) = (Err Block.ReadOnly, get_device h st).
Proof. by destruct h. Qed.

(** On volumes kept in memory no operation that changes files ever reports
    success: the device keeps the trait's default flush, which fails as
    read-only, and the flush after the change turns its success into
    [ReadOnly]. *)
Theorem memory_updates_never_succeed {A} path
    (op : Fat32 → str → M (FatState (Dyn MemoryBlockDevice)) FatError A)
    (st : VfsState MemoryBlockDevice) a :
  (update_at path op st).1 ≠ Ok a.
Proof.
  destruct (normalize path) as [p|e| |] eqn:Ep.
  2: by rewrite (update_err path op st e Ep).
  2,3: pose proof (normalize_total path) as Ht; by rewrite Ep in Ht.
  destruct (route (MOUNTS st) p) as [[[i m] inner]|] eqn:Er;
    [|by rewrite (update_unrouted path op st p Ep Er)].
  rewrite (update_routed path op st p i m inner Ep Er).
  destruct (fs m); [done|].
  assert (Hf : ∀ st1 : VfsState MemoryBlockDevice, ∀ u, (flush_filesystem i st1).1 ≠ Ok u).
  { intros st1 u. unfold flush_filesystem, mmap_err, on_fat.
    destruct (MOUNTS st1 !! i) as [[q [|fat h hint' inv'] src]|]; try done.
    unfold f_flush. cbn [device]. by rewrite memory_flush. }
  unfold bind at 1. destruct (mmap_err _ _ st) as [[b|e| |] st1]; try done.
  unfold bind. specialize (Hf st1). destruct (flush_filesystem i st1) as [[u|e| |] st2]; try done.
  by specialize (Hf u).
Qed.

Definition demo_ms : list Initramfs.Member :=
  [Initramfs.demo_member (lit "bin/sh") 48 [1; 2; 3]].
Definition demo_vfs : VfsState MemoryBlockDevice :=
  mkVfs [mkMount (lit "/") Initramfs None] (λ _, mkMemDev [] ∅)
    (Initramfs.mkRam (Some (Initramfs.archive demo_ms (replicate 512 0))) 1).

Lemma routing_longest_prefix_witness :
  ∃ i m ps rest, route (MOUNTS (run [OpSync; OpMountDevice (lit "/disk") (lit "sda") 0] (init demo_vfs).2))
      (abs [lit "bin"; lit "sh"]) = Some (i, m, join SLASH rest) ∧ [lit "bin"; lit "sh"] = ps ++ rest.
Proof.
  destruct (routing_longest_prefix [OpSync; OpMountDevice (lit "/disk") (lit "sda") 0] demo_vfs [lit "bin"; lit "sh"])
    as (i & m & ps & rest & H1 & _ & _ & H4 & _).
  - apply Forall_cons; split; [|apply Forall_singleton]; (split_and!; [discriminate..|]);
      intros Hin; apply list_elem_of_In in Hin; vm_compute in Hin; intuition discriminate.
  - exists i, m, ps, rest. exact (conj H1 H4).
Defined.

Lemma read_all_archive_witness :
  read_all (lit "/usr/./bin//sh") demo_vfs = (Ok [1; 2; 3], demo_vfs).
Proof.
  refine (read_all_archive demo_vfs (lit "/usr/./bin//sh") (lit "/usr/bin/sh") 0
    (mkMount (lit "/") Initramfs None) (lit "usr/bin/sh")
    [Initramfs.mkEntry (lit "usr/bin/sh") [1; 2; 3]] _ _ _ _); vm_compute; reflexivity.
Defined.
End Vfs.
