(* ===== verification/Mem.v ===== *)
(** * Physical memory

    Memory is a map from physical byte addresses to bytes; a byte never
    written is 0.  The kernel reaches all of it through the direct map
    ([pmm::phys_to_virt]), so the model addresses it physically. *)
From stdpp Require Import base numbers list gmap sets.
From Stdlib Require Import ZArith Lia Bool.
From S2P Require Import Prelude Bytes.

Abbreviation memory := (gmap Z Z).

Definition read8 (m : memory) (a : Z) : Z := default 0 (m !! a).

(** [copy_nonoverlapping] into memory. *)
Fixpoint write_bytes (m : memory) (a : Z) (bs : list Z) : memory :=
  match bs with
  | [] => m
  | b :: bs => write_bytes (<[a := b]> m) (a + 1) bs
  end.

(** [ptr::write_bytes(a, v, n)]. *)
Definition fill_bytes (m : memory) (a v n : Z) : memory :=
  write_bytes m a (replicate (Z.to_nat n) v).

Fixpoint read_bytes (m : memory) (a : Z) (n : nat) : list Z :=
  match n with
  | O => []
  | S n => read8 m a :: read_bytes m (a + 1) n
  end.

Definition read64 (m : memory) (a : Z) : Z := le_value (read_bytes m a 8).
Definition write64 (m : memory) (a v : Z) : memory := write_bytes m a (le_bytes 8 v).

Definition mem_ok (m : memory) : Prop := ∀ a, is_byte (read8 m a).

Lemma read8_insert m a b x : read8 (<[a := b]> m) x = if decide (a = x) then b else read8 m x.
Proof. unfold read8. rewrite lookup_insert. by case_decide. Qed.

Lemma read8_write_bytes m a bs x :
  read8 (write_bytes m a bs) x =
  if decide (a ≤ x < a + Z.of_nat (length bs)) then bs !!! Z.to_nat (x - a) else read8 m x.
Proof.
  revert m a. induction bs as [|b bs IH]; intros m a; simpl.
  - by rewrite decide_False by lia.
  - rewrite IH, read8_insert.
    destruct (decide (a = x)) as [->|].
    + rewrite decide_False by lia. rewrite decide_True by lia.
      by rewrite Z.sub_diag.
    + destruct (decide (a + 1 ≤ x < a + 1 + Z.of_nat (length bs))).
      * rewrite decide_True by lia.
        by replace (Z.to_nat (x - a)) with (S (Z.to_nat (x - (a + 1)))) by lia.
      * by rewrite decide_False by lia.
Qed.

Lemma read8_fill m a v n x :
  0 ≤ n → read8 (fill_bytes m a v n) x = if decide (a ≤ x < a + n) then v else read8 m x.
Proof.
  intros. unfold fill_bytes. rewrite read8_write_bytes, length_replicate.
  rewrite Z2Nat.id by lia. case_decide; [|done].
  apply lookup_total_replicate_2. lia.
Qed.

Lemma length_read_bytes m a n : length (read_bytes m a n) = n.
Proof. revert a. induction n; intros; simpl; auto. Qed.

Lemma lookup_read_bytes m a n i :
  (i < n)%nat → read_bytes m a n !! i = Some (read8 m (a + Z.of_nat i)).
Proof.
  revert a i. induction n as [|n IH]; intros a i Hi; [lia|].
  destruct i as [|i]; simpl; [by rewrite Z.add_0_r|].
  rewrite IH by lia. do 2 f_equal. lia.
Qed.

(** Two memories that agree on a range give the same bytes there. *)
Lemma read_bytes_ext m m' a n :
  (∀ x, a ≤ x < a + Z.of_nat n → read8 m x = read8 m' x) →
  read_bytes m a n = read_bytes m' a n.
Proof.
  revert a. induction n as [|n IH]; intros a Hx; [done|]. simpl. f_equal.
  - apply Hx. lia.
  - apply IH. intros x ?. apply Hx. lia.
Qed.

Lemma read_bytes_ok m a n : mem_ok m → bytes_ok (read_bytes m a n).
Proof.
  intros Hm. revert a. induction n as [|n IH]; intros a; simpl; constructor; [apply Hm|].
  apply IH.
Qed.

Lemma read_write_bytes_eq m a bs : read_bytes (write_bytes m a bs) a (length bs) = bs.
Proof.
  apply list_eq. intros i. destruct (decide (i < length bs)%nat).
  - rewrite lookup_read_bytes, read8_write_bytes by done.
    rewrite decide_True by lia.
    replace (Z.to_nat (a + Z.of_nat i - a)) with i by lia.
    symmetry. by apply list_lookup_lookup_total_lt.
  - rewrite !lookup_ge_None_2; [done|lia|rewrite length_read_bytes; lia].
Qed.

Lemma read_write_bytes_ne m a bs b n :
  b + Z.of_nat n ≤ a ∨ a + Z.of_nat (length bs) ≤ b →
  read_bytes (write_bytes m a bs) b n = read_bytes m b n.
Proof.
  intros Hd. apply read_bytes_ext. intros x ?.
  rewrite read8_write_bytes. by rewrite decide_False by lia.
Qed.

Lemma read64_range m a : mem_ok m → 0 ≤ read64 m a < 2^64.
Proof.
  intros Hm. pose proof (le_value_range (read_bytes m a 8) (read_bytes_ok m a 8 Hm)) as H.
  rewrite length_read_bytes in H. exact H.
Qed.

Lemma read64_write64_eq m a v : 0 ≤ v < 2^64 → read64 (write64 m a v) a = v.
Proof.
  intros Hv. unfold read64, write64.
  pose proof (read_write_bytes_eq m a (le_bytes 8 v)) as E.
  rewrite length_le_bytes in E. rewrite E. apply le_value_bytes. exact Hv.
Qed.

Lemma read64_write64_ne m a b v :
  b + 8 ≤ a ∨ a + 8 ≤ b → read64 (write64 m a v) b = read64 m b.
Proof.
  intros Hd. unfold read64, write64. rewrite read_write_bytes_ne; [done|].
  rewrite length_le_bytes. lia.
Qed.

Lemma le_value_zeros n : le_value (replicate n 0) = 0.
Proof. induction n as [|n IH]; [done|]. cbn [replicate le_value]. lia. Qed.

(** A word inside a zeroed range is zero, one outside it is as before. *)
Lemma read64_fill_0_in m a n b :
  a ≤ b → b + 8 ≤ a + n → read64 (fill_bytes m a 0 n) b = 0.
Proof.
  intros. unfold read64. replace (read_bytes (fill_bytes m a 0 n) b 8) with (replicate 8 0).
  - apply le_value_zeros.
  - apply list_eq. intros i. destruct (decide (i < 8)%nat).
    + rewrite lookup_read_bytes, lookup_replicate_2 by done.
      rewrite read8_fill by lia. by rewrite decide_True by lia.
    + rewrite !lookup_ge_None_2; [done|rewrite length_read_bytes; lia|rewrite length_replicate; lia].
Qed.

Lemma read64_fill_out m a v n b :
  0 ≤ n → b + 8 ≤ a ∨ a + n ≤ b → read64 (fill_bytes m a v n) b = read64 m b.
Proof.
  intros. unfold read64. f_equal. apply read_bytes_ext. intros x ?.
  rewrite read8_fill by lia. by rewrite decide_False by lia.
Qed.

Lemma mem_ok_write m a bs : mem_ok m → bytes_ok bs → mem_ok (write_bytes m a bs).
Proof.
  intros Hm Hb x. rewrite read8_write_bytes. case_decide as Hx; [|apply Hm].
  destruct (lookup_lt_is_Some_2 bs (Z.to_nat (x - a))) as [b Hb']; [lia|].
  rewrite (list_lookup_total_correct _ _ _ Hb'). by eapply Forall_lookup_1 in Hb.
Qed.

Lemma mem_ok_fill m a v n : mem_ok m → is_byte v → mem_ok (fill_bytes m a v n).
Proof. intros. apply mem_ok_write; [done|]. by apply Forall_replicate. Qed.

Lemma mem_ok_write64 m a v : mem_ok m → mem_ok (write64 m a v).
Proof. intros. apply mem_ok_write; [done|]. apply le_bytes_ok. Qed.
