(* ===== verification/Pmm.v ===== *)
(** * The physical memory manager, [src/src/pmm.rs]

    A bitmap allocator of 4 KiB frames: one bit per frame, set when the frame
    is in use.  The memory behind the raw pointer [bitmap] is the list of its
    64-bit words; an access outside it is undefined behaviour in the source
    and is no value ([None], turned into [Panic]) here. *)
From stdpp Require Import base numbers list gmap sets.
From Stdlib Require Import ZArith Lia Bool.
From S2P Require Import Prelude Bytes Mem.

Definition PAGE_SIZE : Z := 4096.
Definition MIN_ALLOC_ADDR : Z := 0x100000.
Definition MAX_REGIONS : Z := 128.

(** The memory types of the Limine protocol that the kernel names. *)
Inductive EntryType :=
  | USABLE | RESERVED | ACPI_RECLAIMABLE | ACPI_NVS | BAD_MEMORY
  | BOOTLOADER_RECLAIMABLE | KERNEL_AND_MODULES | FRAMEBUFFER | OTHER_TYPE.

Inductive Kind :=
  | Usable | Reserved | AcpiReclaimable | AcpiNvs | BadMemory
  | BootloaderReclaimable | KernelAndModules | Framebuffer | Unknown.

#[global] Instance Kind_eq_dec : EqDecision Kind.
Proof. solve_decision. Defined.

Definition kind_of (t : EntryType) : Kind :=
  match t with
  | USABLE => Usable
  | RESERVED => Reserved
  | ACPI_RECLAIMABLE => AcpiReclaimable
  | ACPI_NVS => AcpiNvs
  | BAD_MEMORY => BadMemory
  | BOOTLOADER_RECLAIMABLE => BootloaderReclaimable
  | KERNEL_AND_MODULES => KernelAndModules
  | FRAMEBUFFER => Framebuffer
  | OTHER_TYPE => Unknown
  end.

Record Region := mkRegion { base : Z; len : Z; kind : Kind }.
Definition Region_EMPTY : Region := mkRegion 0 0 Unknown.

(** ** Bits of the bitmap *)

Definition test_bit (bm : list Z) (i : Z) : option bool :=
  w ← bm !! Z.to_nat (i / 64);
  Some (negb (Z.land w (Z.shiftl 1 (i mod 64)) =? 0)).

Definition set_bit (bm : list Z) (i : Z) : option (list Z) :=
  w ← bm !! Z.to_nat (i / 64);
  Some (<[Z.to_nat (i / 64) := Z.lor w (Z.shiftl 1 (i mod 64))]> bm).

Definition clear_bit (bm : list Z) (i : Z) : option (list Z) :=
  w ← bm !! Z.to_nat (i / 64);
  Some (<[Z.to_nat (i / 64) := Z.land w (not64 (Z.shiftl 1 (i mod 64)))]> bm).

Definition write_bit (bm : list Z) (i : Z) (used : bool) : option (list Z) :=
  if used then set_bit bm i else clear_bit bm i.

(** The three loops of [fill_range]: single bits up to a word boundary, whole
    words, single bits again.  A loop leaves with [None] on an access outside
    the bitmap and with its variables [(bm, first, count)] otherwise. *)
Definition fill_state : Type := list Z * Z * Z.

Definition fill_head_body (used : bool) (st : fill_state) :
    fill_state + option fill_state :=
  let '(bm, first, count) := st in
  if (0 <? count) && negb (first mod 64 =? 0) then
    match write_bit bm first used with
    | Some bm => inl (bm, first + 1, count - 1)
    | None => inr None
    end
  else inr (Some st).

Definition fill_words_body (used : bool) (st : fill_state) :
    fill_state + option fill_state :=
  let '(bm, first, count) := st in
  if 64 <=? count then
    match bm !! Z.to_nat (first / 64) with
    | Some _ =>
        inl (<[Z.to_nat (first / 64) := if used then not64 0 else 0]> bm,
             first + 64, count - 64)
    | None => inr None
    end
  else inr (Some st).

Definition fill_tail_body (used : bool) (st : fill_state) :
    fill_state + option fill_state :=
  let '(bm, first, count) := st in
  if 0 <? count then
    match write_bit bm first used with
    | Some bm => inl (bm, first + 1, count - 1)
    | None => inr None
    end
  else inr (Some st).

(** [fill_range(bm, first, count, used)].  Every loop turn lowers [count], so
    [count + 1] units of fuel are enough for each. *)
Definition fill_range (bm : list Z) (first count : Z) (used : bool) :
    option (list Z) :=
  let fuel := S (Z.to_nat count) in
  st ← mjoin (loop fuel (fill_head_body used) (bm, first, count));
  st ← mjoin (loop fuel (fill_words_body used) st);
  st ← mjoin (loop fuel (fill_tail_body used) st);
  Some st.1.1.

(** ** The allocator *)

Inductive FreeError := NotInitialized | Unaligned | OutOfRange | NotAllocated.

#[global] Instance FreeError_eq_dec : EqDecision FreeError.
Proof. solve_decision. Defined.

Record Pmm := mkPmm {
  bitmap_ptr : Z;         (* the pointer [bitmap] *)
  bitmap : list Z;        (* the words behind it *)
  bitmap_words : Z;
  total_frames : Z;
  free_frames : Z;
  usable_frames : Z;
  next_hint : Z;
  regions : list Region;
  region_count : Z
}.

(** The fields an allocation or a free changes. *)
Definition update_pmm (p : Pmm) (bm : list Z) (free hint : Z) : Pmm :=
  mkPmm (bitmap_ptr p) bm (bitmap_words p) (total_frames p) free
        (usable_frames p) hint (regions p) (region_count p).

(** One turn of the loop of [alloc_one]; the loop variable is [n]. *)
Definition alloc_one_body (p : Pmm) (n : Z) : Z + res Empty_set (option Z * Pmm) :=
  let words := bitmap_words p in
  if n <? words then
    let w := (next_hint p + n) mod words in
    match bitmap p !! Z.to_nat w with
    | None => inr Panic
    | Some word =>
        if negb (word =? not64 0) then
          let bit := trailing_zeros64 (not64 word) in
          let frame := w * 64 + bit in
          inr (let? free := sub64 (free_frames p) 1 in
               let? addr := mul64 frame PAGE_SIZE in
               Ok (Some addr,
                   update_pmm p
                     (<[Z.to_nat w := Z.lor word (Z.shiftl 1 bit)]> (bitmap p))
                     free w))
        else inl (n + 1)
    end
  else inr (Ok (None, p)).

(** Run a loop inside a stateful function: its result carries the new state. *)
Definition run_loop {S A} (o : option (res Empty_set (A * S))) (s : S) :
    res Empty_set A * S :=
  match o with
  | Some (Ok (a, s')) => (Ok a, s')
  | Some (Err e) => match e with end
  | Some Panic => (Panic, s)
  | Some Diverge | None => (Diverge, s)
  end.

Definition alloc_one : M Pmm Empty_set (option Z) := λ p,
  if free_frames p =? 0 then (Ok None, p)
  else run_loop (loop (S (Z.to_nat (bitmap_words p))) (alloc_one_body p) 0) p.

(** One turn of the loop of [Pmm::alloc_contiguous], on [(run, start, frame)]. *)
Definition alloc_contiguous_body (p : Pmm) (count : Z) (st : Z * Z * Z) :
    (Z * Z * Z) + res Empty_set (option Z * Pmm) :=
  let '(run, start, frame) := st in
  if frame <? total_frames p then
    match bitmap p !! Z.to_nat (frame / 64), test_bit (bitmap p) frame with
    | Some word, Some used =>
        if (frame mod 64 =? 0) && (word =? not64 0) then
          inl (0, start, frame + 64)
        else if used then inl (0, start, frame + 1)
        else
          let start := if run =? 0 then frame else start in
          let run := run + 1 in
          if run =? count then
            inr (let? bm := expect (fill_range (bitmap p) start count true) in
                 let? free := sub64 (free_frames p) count in
                 let? addr := mul64 start PAGE_SIZE in
                 Ok (Some addr, update_pmm p bm free (next_hint p)))
          else inl (run, start, frame + 1)
    | _, _ => inr Panic
    end
  else inr (Ok (None, p)).

Definition Pmm_alloc_contiguous (count : Z) : M Pmm Empty_set (option Z) := λ p,
  if (count =? 0) || (free_frames p <? count) then (Ok None, p)
  else run_loop (loop (S (Z.to_nat (total_frames p)))
                      (alloc_contiguous_body p count) (0, 0, 0)) p.

(** The loop of [free] that checks that every frame is in use: [f] runs from
    [first] to [end]. *)
Definition free_check_body (p : Pmm) (last : Z) (f : Z) : Z + res FreeError unit :=
  if f <? last then
    match test_bit (bitmap p) f with
    | None => inr Panic
    | Some false => inr (Err NotAllocated)
    | Some true => inl (f + 1)
    end
  else inr (Ok tt).

Definition Pmm_free (phys count : Z) : M Pmm FreeError unit := λ p,
  if count =? 0 then (Ok tt, p)
  else if negb (phys mod PAGE_SIZE =? 0) then (Err Unaligned, p)
  else
    let first := phys / PAGE_SIZE in
    match checked_add first count with
    | None => (Err OutOfRange, p)
    | Some last =>
        if total_frames p <? last then (Err OutOfRange, p)
        else
          match loop (S (Z.to_nat count)) (free_check_body p last) first with
          | None | Some Diverge => (Diverge, p)
          | Some Panic => (Panic, p)
          | Some (Err e) => (Err e, p)
          | Some (Ok tt) =>
              match fill_range (bitmap p) first count false,
                    checked_add (free_frames p) count with
              | Some bm, Some free =>
                  (Ok tt, update_pmm p bm free (Z.min (next_hint p) (first / 64)))
              | _, _ => (Panic, p)
              end
          end
    end.

(** ** The global allocator

    The statics [PMM] and [HHDM_OFFSET], with the physical memory that
    [alloc_frame_zeroed] clears.  [IrqMutex] serialises the operations; each
    is one atomic step on this state. *)
Record PState := mkPState {
  phys_mem : memory;
  PMM : option Pmm;
  HHDM_OFFSET : Z
}.

Definition set_PMM (s : PState) (p : Pmm) : PState :=
  mkPState (phys_mem s) (Some p) (HHDM_OFFSET s).
Definition set_phys_mem (s : PState) (m : memory) : PState :=
  mkPState m (PMM s) (HHDM_OFFSET s).

(** [PMM.lock().as_mut()?] followed by a method of [Pmm]. *)
Definition with_pmm {A} (m : M Pmm Empty_set (option A)) : M PState Empty_set (option A) :=
  λ s, match PMM s with
       | None => (Ok None, s)
       | Some p => let '(r, p') := m p in (r, set_PMM s p')
       end.

Definition alloc_frame : M PState Empty_set (option Z) := with_pmm alloc_one.

Definition alloc_frame_zeroed : M PState Empty_set (option Z) :=
  let! o := alloc_frame in
  match o with
  | None => ret None
  | Some phys => λ s, (Ok (Some phys),
                       set_phys_mem s (fill_bytes (phys_mem s) phys 0 PAGE_SIZE))
  end.

Definition alloc_contiguous (count : Z) : M PState Empty_set (option Z) :=
  with_pmm (if count =? 1 then alloc_one else Pmm_alloc_contiguous count).

(** [free_frames]: a rejected free is logged and otherwise has no effect. *)
Definition free_frames_at (phys count : Z) : M PState Empty_set unit := λ s,
  match PMM s with
  | None => (Ok tt, s)
  | Some p =>
      match Pmm_free phys count p with
      | (Ok tt, p') | (Err _, p') => (Ok tt, set_PMM s p')
      | (Panic, p') => (Panic, set_PMM s p')
      | (Diverge, p') => (Diverge, set_PMM s p')
      end
  end.

Definition free_frame (phys : Z) : M PState Empty_set unit := free_frames_at phys 1.

Definition free_frame_count (s : PState) : Z :=
  match PMM s with Some p => free_frames p | None => 0 end.
Definition usable_frame_count (s : PState) : Z :=
  match PMM s with Some p => usable_frames p | None => 0 end.
Definition phys_top (s : PState) : res Empty_set Z :=
  match PMM s with Some p => mul64 (total_frames p) PAGE_SIZE | None => Ok 0 end.

(** The regions [pmm.regions[..pmm.region_count]]. *)
Definition live_regions (p : Pmm) : list Region :=
  take (Z.to_nat (region_count p)) (regions p).

Definition in_direct_map (k : Kind) : bool :=
  match k with
  | Usable | BootloaderReclaimable | KernelAndModules | AcpiReclaimable | AcpiNvs => true
  | _ => false
  end.

(** [hhdm_ranges]: the prefix [out[..n]] of the array it returns. *)
Fixpoint collect_ranges (rs : list Region) : res Empty_set (list (Z * Z)) :=
  match rs with
  | [] => Ok []
  | r :: rs =>
      if in_direct_map (kind r) then
        let start := align_down (base r) PAGE_SIZE in
        let? e := add64 (base r) (len r) in
        let? end_ := align_up e PAGE_SIZE in
        let? out := collect_ranges rs in
        Ok (if start <? end_ then (start, end_) :: out else out)
      else collect_ranges rs
  end.

Definition hhdm_ranges (s : PState) : res Empty_set (list (Z * Z)) :=
  match PMM s with
  | None => Ok []
  | Some p => collect_ranges (live_regions p)
  end.

(** The page range of a region above [MIN_ALLOC_ADDR], as first frame and
    number of frames; nothing when it holds no whole page. *)
Definition region_frames (r : Region) : res Empty_set (option (Z * Z)) :=
  let? start := align_up (Z.max (base r) MIN_ALLOC_ADDR) PAGE_SIZE in
  let? e := add64 (base r) (len r) in
  let end_ := align_down e PAGE_SIZE in
  Ok (if start <? end_ then Some (start / PAGE_SIZE, (end_ - start) / PAGE_SIZE) else None).

(** Mark the page ranges of the regions of kind [k] free, counting them: the
    loops of [init] and of [reclaim_bootloader_memory]. *)
Fixpoint free_regions (k : Kind) (rs : list Region) (bm : list Z) (n : Z) :
    res Empty_set (list Z * Z) :=
  match rs with
  | [] => Ok (bm, n)
  | r :: rs =>
      if decide (kind r = k) then
        let? o := region_frames r in
        match o with
        | None => free_regions k rs bm n
        | Some (first, count) =>
            let? bm := expect (fill_range bm first count false) in
            let? n := add64 n count in
            free_regions k rs bm n
        end
      else free_regions k rs bm n
  end.

Definition reclaim_bootloader_memory : M PState Empty_set Z := λ s,
  match PMM s with
  | None => (Ok 0, s)
  | Some p =>
      match free_regions BootloaderReclaimable (live_regions p) (bitmap p) 0 with
      | Ok (bm, frames) =>
          match checked_add (free_frames p) frames, checked_add (usable_frames p) frames with
          | Some free, Some usable =>
              (Ok frames,
               set_PMM s (mkPmm (bitmap_ptr p) bm (bitmap_words p) (total_frames p)
                            free usable 0 (regions p) (region_count p)))
          | _, _ => (Panic, s)
          end
      | Err e => match e with end
      | Panic => (Panic, s)
      | Diverge => (Diverge, s)
      end
  end.

(** *** [init] *)

(** Copy the memory map into the fixed array, dropping what does not fit. *)
Fixpoint collect_regions (entries : list (Z * Z * EntryType)) (rs : list Region) (count : Z) :
    list Region * Z :=
  match entries with
  | [] => (rs, count)
  | (b, l, t) :: entries =>
      if count =? MAX_REGIONS then (rs, count)
      else collect_regions entries
             (<[Z.to_nat count := mkRegion b l (kind_of t)]> rs) (count + 1)
  end.

(** The highest end of allocatable memory, and the reclaimable bytes. *)
Fixpoint scan_highest (rs : list Region) (highest reclaim : Z) : res Empty_set (Z * Z) :=
  match rs with
  | [] => Ok (highest, reclaim)
  | r :: rs =>
      match kind r with
      | Usable =>
          let? e := add64 (base r) (len r) in
          scan_highest rs (Z.max highest e) reclaim
      | BootloaderReclaimable =>
          let? e := add64 (base r) (len r) in
          let? reclaim := add64 reclaim (len r) in
          scan_highest rs (Z.max highest e) reclaim
      | _ => scan_highest rs highest reclaim
      end
  end.

(** The first usable region with room for the bitmap; 0 when there is none. *)
Fixpoint place_bitmap (rs : list Region) (bitmap_frames : Z) : res Empty_set Z :=
  match rs with
  | [] => Ok 0
  | r :: rs =>
      if decide (kind r = Usable) then
        let? start := align_up (Z.max (base r) MIN_ALLOC_ADDR) PAGE_SIZE in
        let? e := add64 (base r) (len r) in
        let end_ := align_down e PAGE_SIZE in
        if (start <? end_) && (bitmap_frames * PAGE_SIZE <=? end_ - start) then Ok start
        else place_bitmap rs bitmap_frames
      else place_bitmap rs bitmap_frames
  end.

(** [init] once both boot responses are there: the allocator it publishes, or
    nothing when it gives up with a log line. *)
Definition init_pmm (entries : list (Z * Z * EntryType)) (hhdm : Z) :
    res Empty_set (option Pmm) :=
  let '(rs, count) :=
    collect_regions entries (replicate (Z.to_nat MAX_REGIONS) Region_EMPTY) 0 in
  let live := take (Z.to_nat count) rs in
  let? (highest, _) := scan_highest live 0 0 in
  if highest =? 0 then Ok None
  else
    let total := highest / PAGE_SIZE in
    let words := (total + 63) / 64 in
    let bitmap_bytes := words * 8 in
    let? up := align_up bitmap_bytes PAGE_SIZE in
    let bitmap_frames := up / PAGE_SIZE in
    let? bitmap_phys := place_bitmap live bitmap_frames in
    if bitmap_phys =? 0 then Ok None
    else
      let? ptr := add64 bitmap_phys hhdm in
      let bm := replicate (Z.to_nat words) (not64 0) in
      let? (bm, free) := free_regions Usable live bm 0 in
      let? bm := expect (fill_range bm (bitmap_phys / PAGE_SIZE) bitmap_frames true) in
      let? free := sub64 free bitmap_frames in
      Ok (Some (mkPmm ptr bm words total free free 0 rs count)).

(** [init], with the answers of the bootloader to the two requests. *)
Definition init (mm : option (list (Z * Z * EntryType))) (hhdm : option Z) :
    M PState Empty_set unit := λ s,
  match mm, hhdm with
  | Some entries, Some off =>
      let s := mkPState (phys_mem s) (PMM s) off in
      match init_pmm entries off with
      | Ok (Some p) => (Ok tt, set_PMM s p)
      | Ok None => (Ok tt, s)
      | Err e => match e with end
      | Panic => (Panic, s)
      | Diverge => (Diverge, s)
      end
  | _, _ => (Ok tt, s)
  end.

(** ** What a bitmap says

    [bit bm i] is the state of frame [i]: [true] when in use.  A frame without
    a bit counts as in use. *)
Definition bit (bm : list Z) (i : Z) : bool :=
  match bm !! Z.to_nat (i / 64) with
  | Some w => Z.testbit w (i mod 64)
  | None => true
  end.

Definition words_ok (bm : list Z) : Prop := Forall (λ w, 0 ≤ w < 2^64) bm.

Lemma words_ok_lookup bm i w : words_ok bm → bm !! i = Some w → 0 ≤ w < 2^64.
Proof. intros Hbm Hi. exact (Forall_lookup_1 _ _ _ _ Hbm Hi). Qed.

Lemma words_ok_insert bm i w :
  words_ok bm → 0 ≤ w < 2^64 → words_ok (<[i := w]> bm).
Proof. intros. by apply Forall_insert. Qed.

(** The word of a frame inside the bitmap exists. *)
Lemma word_exists (bm : list Z) i :
  0 ≤ i < 64 * Z.of_nat (length bm) → ∃ w, bm !! Z.to_nat (i / 64) = Some w.
Proof.
  intros Hi. apply lookup_lt_is_Some_2.
  assert (0 ≤ i / 64 < Z.of_nat (length bm)); [|lia].
  split; [apply Z.div_pos; lia|apply Z.div_lt_upper_bound; lia].
Qed.

Lemma test_bit_spec bm i :
  0 ≤ i < 64 * Z.of_nat (length bm) → test_bit bm i = Some (bit bm i).
Proof.
  intros Hi. destruct (word_exists bm i Hi) as [w Hw].
  unfold test_bit, bit. rewrite Hw. simpl.
  pose proof (Z.mod_pos_bound i 64).
  by rewrite shiftl_1, land_pow2_test by lia.
Qed.

(** Replacing one word changes the bits of that word only. *)
Lemma bit_insert bm k w i :
  0 ≤ k < Z.of_nat (length bm) → 0 ≤ i →
  bit (<[Z.to_nat k := w]> bm) i =
  if i / 64 =? k then Z.testbit w (i mod 64) else bit bm i.
Proof.
  intros Hk Hi. unfold bit. destruct (Z.eqb_spec (i / 64) k) as [<-|Hne].
  - by rewrite list_lookup_insert_eq by lia.
  - pose proof (Z.div_pos i 64 Hi). by rewrite list_lookup_insert_ne by lia.
Qed.

(** Two frames are the same when word and position agree. *)
Lemma same_bit i j : (i =? j) = (i / 64 =? j / 64) && (i mod 64 =? j mod 64).
Proof.
  pose proof (Z.div_mod i 64). pose proof (Z.div_mod j 64).
  destruct (Z.eqb_spec i j) as [->|]; [by rewrite !Z.eqb_refl|].
  destruct (Z.eqb_spec (i / 64) (j / 64)), (Z.eqb_spec (i mod 64) (j mod 64));
    simpl; lia.
Qed.

Lemma pow2_word k : 0 ≤ k < 64 → 0 ≤ 2^k < 2^64.
Proof. intros. split; [lia|]. apply Z.pow_lt_mono_r; lia. Qed.

Lemma write_bit_spec bm i used :
  words_ok bm → 0 ≤ i < 64 * Z.of_nat (length bm) →
  ∃ bm', write_bit bm i used = Some bm' ∧ words_ok bm' ∧ length bm' = length bm ∧
         ∀ j, 0 ≤ j → bit bm' j = if j =? i then used else bit bm j.
Proof.
  intros Hok Hi. destruct (word_exists bm i Hi) as [w Hw].
  pose proof (words_ok_lookup _ _ _ Hok Hw) as Hwr.
  pose proof (Z.mod_pos_bound i 64 ltac:(lia)) as Hm.
  pose proof (pow2_word _ Hm) as Hp. pose proof (lookup_lt_Some _ _ _ Hw).
  assert (Hk : 0 ≤ i / 64) by (apply Z.div_pos; lia).
  assert (Hlt : 0 ≤ i / 64 < Z.of_nat (length bm)) by lia.
  assert (Hbj : ∀ j, i / 64 = j / 64 → bit bm j = Z.testbit w (j mod 64)).
  { intros j Hj. unfold bit. by rewrite <- Hj, Hw. }
  destruct used; simpl; unfold set_bit, clear_bit; rewrite Hw; simpl;
    (eexists; split; [done|]; split; [|split; [apply length_insert|]]).
  - apply words_ok_insert; [done|]. rewrite shiftl_1 by lia.
    by apply lor_range.
  - intros j Hj. rewrite bit_insert by done. rewrite (same_bit j i).
    pose proof (Z.mod_pos_bound j 64 ltac:(lia)).
    destruct (Z.eqb_spec (j / 64) (i / 64)) as [Hd|]; simpl; [|done].
    rewrite Z.lor_spec, shiftl_1, testbit_pow2, (Hbj j) by lia.
    by destruct (j mod 64 =? i mod 64); rewrite ?orb_true_r, ?orb_false_r.
  - apply words_ok_insert; [done|]. rewrite shiftl_1 by lia.
    apply land_range; [lia|done|]. by apply not64_range.
  - intros j Hj. rewrite bit_insert by done. rewrite (same_bit j i).
    pose proof (Z.mod_pos_bound j 64 ltac:(lia)).
    destruct (Z.eqb_spec (j / 64) (i / 64)) as [Hd|]; simpl; [|done].
    rewrite Z.land_spec, testbit_not64, shiftl_1, testbit_pow2, (Hbj j) by lia.
    by destruct (j mod 64 =? i mod 64); rewrite ?andb_false_r, ?andb_true_r.
Qed.

(** ** [fill_range]

    [filled bm0 a n used st]: the loop has written the frames from [a] up to
    its variable [first], and [count] are left of [n]. *)
Definition filled (bm0 : list Z) (a n : Z) (used : bool) (st : fill_state) : Prop :=
  let '(bm, first, count) := st in
  words_ok bm ∧ length bm = length bm0 ∧ 0 ≤ count ∧ a ≤ first ∧
  first + count = a + n ∧
  ∀ j, 0 ≤ j → bit bm j = if (a <=? j) && (j <? first) then used else bit bm0 j.

Lemma filled_step bm0 a n used bm first count :
  0 ≤ a → a + n ≤ 64 * Z.of_nat (length bm0) →
  filled bm0 a n used (bm, first, count) → 0 < count →
  ∃ bm', write_bit bm first used = Some bm' ∧
         filled bm0 a n used (bm', first + 1, count - 1).
Proof.
  intros Ha Hn (Hok & Hlen & Hc & Haf & Hsum & Hbits) Hpos.
  destruct (write_bit_spec bm first used Hok ltac:(lia)) as (bm' & Hw & Hok' & Hlen' & Hb).
  exists bm'. split; [done|].
  split; [done|]. split; [lia|]. split; [lia|]. split; [lia|]. split; [lia|].
  intros j Hj. rewrite Hb, Hbits by lia.
  destruct (Z.eqb_spec j first), (Z.leb_spec a j), (Z.ltb_spec j first),
    (Z.ltb_spec j (first + 1)); simpl; try lia; done.
Qed.

Lemma filled_word bm0 a n used bm first count :
  0 ≤ a → a + n ≤ 64 * Z.of_nat (length bm0) →
  filled bm0 a n used (bm, first, count) → first mod 64 = 0 → 64 ≤ count →
  (∃ w, bm !! Z.to_nat (first / 64) = Some w) ∧
  filled bm0 a n used
    (<[Z.to_nat (first / 64) := if used then not64 0 else 0]> bm, first + 64, count - 64).
Proof.
  intros Ha Hn (Hok & Hlen & Hc & Haf & Hsum & Hbits) Hal Hpos.
  split; [apply word_exists; lia|].
  pose proof (Z.div_mod first 64 ltac:(lia)).
  split; [by apply words_ok_insert; [|destruct used]|].
  split; [by rewrite length_insert|]. split; [lia|]. split; [lia|]. split; [lia|].
  intros j Hj. rewrite bit_insert by lia. rewrite Hbits by lia.
  pose proof (Z.div_mod j 64 ltac:(lia)).
  pose proof (Z.mod_pos_bound j 64 ltac:(lia)).
  destruct (Z.eqb_spec (j / 64) (first / 64)).
  - replace (a <=? j) with true by lia. replace (j <? first + 64) with true by lia.
    simpl. destruct used; [|by rewrite Z.bits_0].
    by rewrite testbit_not64, Z.bits_0 by lia.
  - destruct (Z.leb_spec a j), (Z.ltb_spec j first), (Z.ltb_spec j (first + 64));
      simpl; try lia; done.
Qed.

(** The three loops, each with the facts it needs and leaves. *)
Section FillLoops.
Context (bm0 : list Z) (a n : Z) (used : bool).
Context (Ha : 0 ≤ a) (Hn : a + n ≤ 64 * Z.of_nat (length bm0)).

Lemma fill_head_total st fuel :
  filled bm0 a n used st → (Z.to_nat st.2 < fuel)%nat →
  ∃ st', loop fuel (fill_head_body used) st = Some (Some st') ∧
         filled bm0 a n used st' ∧ (st'.1.2 mod 64 = 0 ∨ st'.2 = 0).
Proof using Ha Hn.
  intros HF Hfuel.
  destruct (loop_total (filled bm0 a n used)
    (λ o, ∃ st, o = Some st ∧ filled bm0 a n used st ∧ (st.1.2 mod 64 = 0 ∨ st.2 = 0))
    (λ st, Z.to_nat st.2) (fill_head_body used) fuel st) as (o & -> & (st' & -> & ?));
    [|done..|eauto].
  intros [[bm1 f1] c1] HF1. simpl.
  destruct (Z.ltb_spec 0 c1), (Z.eqb_spec (f1 mod 64) 0); simpl; [eauto| |eauto|].
  - destruct (filled_step _ _ _ _ _ _ _ Ha Hn HF1 ltac:(done)) as (bm2 & -> & HF2).
    split; [done|simpl; lia].
  - eexists; split; [done|]. split; [done|]. right. destruct HF1 as (_&_&?&_).
    simpl. lia.
Qed.

Lemma fill_words_total st fuel :
  filled bm0 a n used st → (st.1.2 mod 64 = 0 ∨ st.2 = 0) → (Z.to_nat st.2 < fuel)%nat →
  ∃ st', loop fuel (fill_words_body used) st = Some (Some st') ∧
         filled bm0 a n used st'.
Proof using Ha Hn.
  intros HF Hal Hfuel.
  destruct (loop_total
    (λ st, filled bm0 a n used st ∧ (st.1.2 mod 64 = 0 ∨ st.2 = 0))
    (λ o, ∃ st, o = Some st ∧ filled bm0 a n used st)
    (λ st, Z.to_nat st.2) (fill_words_body used) fuel st) as (o & -> & (st' & -> & ?));
    [|done..|eauto].
  intros [[bm2 f2] c2] (HF2 & Hd). simpl in *.
  destruct (Z.leb_spec 64 c2); [|by eauto].
  destruct (filled_word _ _ _ _ _ _ _ Ha Hn HF2 ltac:(lia) ltac:(done))
    as ([w ->] & HF').
  split; [|simpl; lia]. split; [done|]. left. simpl.
  replace (f2 + 64) with (f2 + 1 * 64) by lia. rewrite Z.mod_add by lia. lia.
Qed.

Lemma fill_tail_total st fuel :
  filled bm0 a n used st → (Z.to_nat st.2 < fuel)%nat →
  ∃ st', loop fuel (fill_tail_body used) st = Some (Some st') ∧
         filled bm0 a n used st' ∧ st'.2 = 0.
Proof using Ha Hn.
  intros HF Hfuel.
  destruct (loop_total (filled bm0 a n used)
    (λ o, ∃ st, o = Some st ∧ filled bm0 a n used st ∧ st.2 = 0)
    (λ st, Z.to_nat st.2) (fill_tail_body used) fuel st) as (o & -> & (st' & -> & ?));
    [|done..|eauto].
  intros [[bm3 f3] c3] HF3. simpl. destruct (Z.ltb_spec 0 c3).
  - destruct (filled_step _ _ _ _ _ _ _ Ha Hn HF3 ltac:(done)) as (bm4 & -> & HF4).
    split; [done|simpl; lia].
  - eexists; split; [done|]. split; [done|]. destruct HF3 as (_&_&?&_). simpl. lia.
Qed.
End FillLoops.

(** The variable [count] never exceeds the number of frames to fill. *)
Lemma filled_fuel bm a n used st :
  filled bm a n used st → (Z.to_nat st.2 < S (Z.to_nat n))%nat.
Proof. destruct st as [[b f] c]. intros (_ & _ & ? & ? & ? & _). simpl. lia. Qed.

(** [fill_range] writes exactly the frames [first .. first + count) and
    terminates. *)
Lemma fill_range_spec bm first count used :
  words_ok bm → 0 ≤ first → 0 ≤ count →
  first + count ≤ 64 * Z.of_nat (length bm) →
  ∃ bm', fill_range bm first count used = Some bm' ∧ words_ok bm' ∧
         length bm' = length bm ∧
         ∀ j, 0 ≤ j →
           bit bm' j = if (first <=? j) && (j <? first + count) then used else bit bm j.
Proof.
  intros Hok Hf Hc Hle. unfold fill_range.
  assert (HF : filled bm first count used (bm, first, count)).
  { repeat split; simpl; try lia; try done. intros j _.
    destruct (Z.leb_spec first j), (Z.ltb_spec j first); simpl; try lia; done. }
  destruct (fill_head_total _ _ _ _ Hf Hle _ _ HF (filled_fuel _ _ _ _ _ HF))
    as (st1 & -> & HF1 & Hal). simpl.
  destruct (fill_words_total _ _ _ _ Hf Hle _ _ HF1 Hal (filled_fuel _ _ _ _ _ HF1))
    as (st2 & -> & HF2). simpl.
  destruct (fill_tail_total _ _ _ _ Hf Hle _ _ HF2 (filled_fuel _ _ _ _ _ HF2))
    as ([[bm3 f3] c3] & -> & HF3 & Hz). simpl in *.
  subst c3. destruct HF3 as (? & ? & _ & ? & Hs & Hb).
  eexists; split; [done|]. split; [done|]. split; [done|].
  replace f3 with (first + count) in Hb by lia. exact Hb.
Qed.

(** ** The abstract allocator: a set of free frames *)

(** The frames [a .. a + n). *)
Definition frames (a n : Z) : gset Z := list_to_set (seqZ a n).

Lemma elem_of_frames f a n : f ∈ frames a n ↔ a ≤ f < a + n.
Proof. unfold frames. rewrite elem_of_list_to_set, elem_of_seqZ. lia. Qed.

Lemma size_frames a n : 0 ≤ n → Z.of_nat (size (frames a n)) = n.
Proof.
  intros. unfold frames. rewrite size_list_to_set by apply NoDup_seqZ.
  rewrite length_seqZ. lia.
Qed.

(** The frames below [total] that the bitmap says are free. *)
Definition free_of (bm : list Z) (total : Z) : gset Z :=
  filter (λ f, bit bm f = false) (frames 0 total).

Lemma elem_of_free_of f bm total :
  f ∈ free_of bm total ↔ 0 ≤ f < total ∧ bit bm f = false.
Proof. unfold free_of. rewrite elem_of_filter, elem_of_frames. naive_solver lia. Qed.

Definition free_set (p : Pmm) : gset Z := free_of (bitmap p) (total_frames p).

Lemma elem_of_free_set f p :
  f ∈ free_set p ↔ 0 ≤ f < total_frames p ∧ bit (bitmap p) f = false.
Proof. apply elem_of_free_of. Qed.

(** The invariant of [Pmm]: the words are words, there are exactly enough of
    them, the bits past the last frame are set, the hint is a word index, and
    [free_frames] counts the clear bits. *)
Record pmm_inv (p : Pmm) : Prop := {
  inv_words : words_ok (bitmap p);
  inv_len : Z.of_nat (length (bitmap p)) = bitmap_words p;
  inv_enough : bitmap_words p = (total_frames p + 63) / 64;
  inv_total : 0 ≤ total_frames p;
  inv_addr : total_frames p * PAGE_SIZE ≤ u64_max;
  inv_past : ∀ i, total_frames p ≤ i → bit (bitmap p) i = true;
  inv_hint : 0 ≤ next_hint p;
  inv_count : free_frames p = Z.of_nat (size (free_set p))
}.

Lemma inv_fits p : pmm_inv p → total_frames p ≤ 64 * Z.of_nat (length (bitmap p)).
Proof.
  intros H. rewrite (inv_len p H), (inv_enough p H).
  pose proof (Z.div_mod (total_frames p + 63) 64 ltac:(lia)).
  pose proof (Z.mod_pos_bound (total_frames p + 63) 64 ltac:(lia)). lia.
Qed.

Lemma inv_free_bound p : pmm_inv p → 0 ≤ free_frames p ≤ total_frames p.
Proof.
  intros H. rewrite (inv_count p H). split; [lia|].
  rewrite <- (size_frames 0 (total_frames p)) by apply (inv_total p H).
  apply inj_le, subseteq_size. unfold free_set, free_of. set_solver.
Qed.

(** A bitmap that differs from [p]'s by one filled range gives [p] with that
    range added to or removed from the free set. *)
Lemma free_of_fill bm bm' total a n used :
  0 ≤ a → (∀ j, 0 ≤ j →
    bit bm' j = if (a <=? j) && (j <? a + n) then used else bit bm j) →
  a + n ≤ total →
  free_of bm' total =
  if used then free_of bm total ∖ frames a n else free_of bm total ∪ frames a n.
Proof.
  intros Ha Hb Hle. apply set_eq. intros f. rewrite elem_of_free_of.
  destruct used; rewrite ?elem_of_difference, ?elem_of_union, elem_of_free_of, elem_of_frames;
    (split; intros H;
     [assert (Hf : 0 ≤ f) by lia|assert (Hf : 0 ≤ f) by lia];
     specialize (Hb f Hf); rewrite Hb in *;
     destruct (Z.leb_spec a f), (Z.ltb_spec f (a + n)); simpl in *; try naive_solver lia).
Qed.

(** Taking a free range out of the free set keeps the invariant. *)
Lemma inv_take p bm a n hint :
  pmm_inv p → 0 ≤ a → 0 ≤ n → frames a n ⊆ free_set p →
  words_ok bm → length bm = length (bitmap p) →
  (∀ j, 0 ≤ j →
     bit bm j = if (a <=? j) && (j <? a + n) then true else bit (bitmap p) j) →
  0 ≤ hint →
  let p' := update_pmm p bm (free_frames p - n) hint in
  pmm_inv p' ∧ free_set p' = free_set p ∖ frames a n.
Proof.
  intros H Ha Hn Hsub Hok Hlen Hb Hh p'.
  assert (n = 0 ∨ a + n ≤ total_frames p) as Hle.
  { destruct (decide (n = 0)); [by left|right].
    assert (Hin : a + n - 1 ∈ free_set p) by (apply Hsub, elem_of_frames; lia).
    apply elem_of_free_of in Hin. lia. }
  assert (Hfs : free_set p' = free_set p ∖ frames a n).
  { destruct Hle as [->|Hle]; [|by apply (free_of_fill _ _ _ _ _ true)].
    replace (frames a 0) with (∅ : gset Z) by done. rewrite difference_empty_L.
    apply set_eq. intros f. unfold free_set, p'. simpl. rewrite !elem_of_free_of.
    split; intros [? Hf]; (split; [done|]); rewrite Hb in * by lia;
      destruct (Z.leb_spec a f), (Z.ltb_spec f (a + 0)); simpl in *; try lia; done. }
  split; [|done]. destruct H. split; simpl; try done.
  - by rewrite Hlen.
  - intros i Hi. rewrite Hb by lia. rewrite inv_past0 by lia. by destruct (_ && _).
  - rewrite Hfs, size_difference, inv_count0 by done.
    pose proof (subseteq_size _ _ Hsub). rewrite Nat2Z.inj_sub by done.
    by rewrite size_frames.
Qed.

(** Returning a range of used frames keeps the invariant. *)
Lemma inv_give p bm a n hint :
  pmm_inv p → 0 ≤ a → 0 ≤ n → a + n ≤ total_frames p →
  frames a n ## free_set p →
  words_ok bm → length bm = length (bitmap p) →
  (∀ j, 0 ≤ j →
     bit bm j = if (a <=? j) && (j <? a + n) then false else bit (bitmap p) j) →
  0 ≤ hint →
  let p' := update_pmm p bm (free_frames p + n) hint in
  pmm_inv p' ∧ free_set p' = free_set p ∪ frames a n.
Proof.
  intros H Ha Hn Hle Hdisj Hok Hlen Hb Hh p'.
  assert (Hfs : free_set p' = free_set p ∪ frames a n)
    by by apply (free_of_fill _ _ _ _ _ false).
  split; [|done]. destruct H. split; simpl; try done.
  - by rewrite Hlen.
  - intros i Hi. rewrite Hb by lia.
    destruct (Z.leb_spec a i), (Z.ltb_spec i (a + n)); simpl; try lia; apply inv_past0; lia.
  - rewrite Hfs, size_union, inv_count0 by done. rewrite Nat2Z.inj_add.
    by rewrite size_frames.
Qed.

(** ** [alloc_one] *)

(** A word that is not full has a free frame at its first clear bit. *)
Lemma first_clear_bit p w word :
  pmm_inv p → 0 ≤ w → bitmap p !! Z.to_nat w = Some word → word ≠ not64 0 →
  let b := trailing_zeros64 (not64 word) in
  0 ≤ b < 64 ∧ w * 64 + b ∈ free_set p.
Proof.
  intros H Hw Hl Hne b.
  pose proof (words_ok_lookup _ _ _ (inv_words p H) Hl) as Hr.
  pose proof (not64_range word Hr) as Hnr.
  assert (not64 word ≠ 0).
  { intros E. apply Hne. unfold not64 in *. apply Z.lxor_eq in E. subst word. done. }
  destruct (trailing_zeros64_spec (not64 word) ltac:(lia)) as [Hb Ht].
  fold b in Hb, Ht. split; [done|].
  rewrite testbit_not64 in Ht by lia. apply negb_true_iff in Ht.
  assert (Hbit : bit (bitmap p) (w * 64 + b) = false).
  { unfold bit. rewrite Z.div_add_l, Z.div_small, Z.add_0_r by lia.
    rewrite Hl, Z.add_comm, Z.mod_add, Z.mod_small by lia. done. }
  apply elem_of_free_of. split; [|done]. split; [lia|].
  destruct (Z.lt_ge_cases (w * 64 + b) (total_frames p)); [done|].
  rewrite (inv_past p H) in Hbit by lia. done.
Qed.

(** A free frame keeps its word from being full. *)
Lemma free_word_not_full p f :
  pmm_inv p → f ∈ free_set p →
  ∃ word, bitmap p !! Z.to_nat (f / 64) = Some word ∧ word ≠ not64 0.
Proof.
  intros H Hf. apply elem_of_free_of in Hf as [Hr Hb]. pose proof (inv_fits p H).
  destruct (word_exists (bitmap p) f ltac:(lia)) as [w Hw]. exists w. split; [done|].
  intros ->. unfold bit in Hb. rewrite Hw in Hb.
  pose proof (Z.mod_pos_bound f 64).
  rewrite testbit_not64, Z.bits_0 in Hb by lia. done.
Qed.

(** The address of a frame inside managed memory does not overflow. *)
Lemma frame_addr p f :
  pmm_inv p → f < total_frames p → f * PAGE_SIZE ≤ u64_max.
Proof. intros H Hf. pose proof (inv_addr p H). unfold PAGE_SIZE in *. lia. Qed.

(** What [alloc_one] does with the first word that is not full. *)
Lemma alloc_one_hit p w word :
  pmm_inv p → 0 ≤ w → bitmap p !! Z.to_nat w = Some word → word ≠ not64 0 →
  let b := trailing_zeros64 (not64 word) in
  let p' := update_pmm p (<[Z.to_nat w := Z.lor word (Z.shiftl 1 b)]> (bitmap p))
              (free_frames p - 1) w in
  pmm_inv p' ∧ free_set p' = free_set p ∖ {[w * 64 + b]}.
Proof.
  intros H Hw Hl Hne b p'.
  destruct (first_clear_bit p w word H Hw Hl Hne) as [Hb Hin]. fold b in Hb, Hin.
  pose proof (words_ok_lookup _ _ _ (inv_words p H) Hl) as Hr.
  pose proof (lookup_lt_Some _ _ _ Hl).
  assert (Hd : (w * 64 + b) / 64 = w) by (rewrite Z.div_add_l, Z.div_small by lia; lia).
  assert (Hm : (w * 64 + b) mod 64 = b)
    by (rewrite Z.add_comm, Z.mod_add, Z.mod_small by lia; lia).
  replace ({[w * 64 + b]} : gset Z) with (frames (w * 64 + b) 1).
  2:{ apply set_eq. intros f. rewrite elem_of_frames, elem_of_singleton. lia. }
  apply inv_take; try done; try lia.
  - intros f. rewrite elem_of_frames. intros ?. by replace f with (w * 64 + b) by lia.
  - apply words_ok_insert; [apply (inv_words p H)|]. rewrite shiftl_1 by lia.
    apply lor_range; [lia|done|]. by apply pow2_word.
  - apply length_insert.
  - intros j Hj. rewrite bit_insert by lia.
    replace ((w * 64 + b <=? j) && (j <? w * 64 + b + 1)) with (j =? w * 64 + b) by lia.
    rewrite (same_bit j (w * 64 + b)), Hd, Hm.
    destruct (Z.eqb_spec (j / 64) w) as [Hjw|]; simpl; [|done].
    pose proof (Z.mod_pos_bound j 64 ltac:(lia)).
    rewrite Z.lor_spec, shiftl_1, testbit_pow2 by lia.
    unfold bit. rewrite Hjw, Hl.
    by destruct (j mod 64 =? b); rewrite ?orb_true_r, ?orb_false_r.
Qed.

(** [alloc_one] in full: no frame when none is free, and otherwise a frame
    that was free and is the only one whose state changes. *)
Lemma alloc_one_spec p :
  pmm_inv p →
  (free_set p = ∅ ∧ alloc_one p = (Ok None, p)) ∨
  ∃ f p', f ∈ free_set p ∧ alloc_one p = (Ok (Some (f * PAGE_SIZE)), p') ∧
          pmm_inv p' ∧ free_set p' = free_set p ∖ {[f]} ∧
          total_frames p' = total_frames p.
Proof.
  intros H. unfold alloc_one. destruct (Z.eqb_spec (free_frames p) 0) as [H0|H0].
  { left. split; [|done]. apply leibniz_equiv, size_empty_inv.
    rewrite (inv_count p H) in H0. lia. }
  right.
  assert (free_set p ≠ ∅) as [f0 Hf0]%set_choose_L.
  { intros E. apply H0. by rewrite (inv_count p H), E. }
  destruct (free_word_not_full p f0 H Hf0) as (word0 & Hw0 & Hne0).
  pose proof (lookup_lt_Some _ _ _ Hw0) as Hlt0.
  apply elem_of_free_of in Hf0 as [Hr0 _].
  pose proof (Z.div_pos f0 64 ltac:(lia) ltac:(lia)) as Hd0.
  pose proof (inv_len p H) as Hlen.
  set (W := bitmap_words p). assert (HW : 0 < W) by (unfold W; lia).
  destruct (loop_total
    (λ n, 0 ≤ n ≤ W ∧ ∀ k, 0 ≤ k < n → bitmap p !! Z.to_nat ((next_hint p + k) mod W) = Some (not64 0))
    (λ r, ∃ f p', r = Ok (Some (f * PAGE_SIZE), p') ∧ f ∈ free_set p ∧ pmm_inv p' ∧
          free_set p' = free_set p ∖ {[f]} ∧ total_frames p' = total_frames p)
    (λ n, Z.to_nat (W - n)) (alloc_one_body p) (S (Z.to_nat W)) 0)
    as (r & Hr & f & p' & -> & Hf & Hp').
  - intros n [Hn Hfull]. unfold alloc_one_body. fold W.
    destruct (Z.ltb_spec n W) as [Hlt|Hge].
    + pose proof (Z.mod_pos_bound (next_hint p + n) W HW) as Hm.
      destruct (lookup_lt_is_Some_2 (bitmap p) (Z.to_nat ((next_hint p + n) mod W)))
        as [word Hw]; [unfold W in *; lia|]. rewrite Hw.
      destruct (Z.eqb_spec word (not64 0)) as [->|Hne]; simpl.
      * split; [|lia]. split; [lia|]. intros k Hk.
        destruct (decide (k = n)) as [->|]; [done|]. apply Hfull; lia.
      * destruct (first_clear_bit p _ word H (proj1 Hm) Hw Hne) as [_ Hin].
        destruct (alloc_one_hit p _ word H (proj1 Hm) Hw Hne) as [Hi Hs].
        pose proof Hin as Hin'. apply elem_of_free_of in Hin' as [? _].
        rewrite sub64_ok by (pose proof (inv_free_bound p H); lia). simpl.
        rewrite mul64_ok by (apply (frame_addr p); [done|lia]). simpl.
        eexists _, _. split; [done|]. split; [done|]. by split.
    + exfalso. assert (n = W) by lia. subst n.
      specialize (Hfull ((f0 / 64 - next_hint p) mod W) ltac:(apply Z.mod_pos_bound; lia)).
      rewrite Z.add_mod_idemp_r in Hfull by lia.
      replace (next_hint p + (f0 / 64 - next_hint p)) with (f0 / 64) in Hfull by lia.
      rewrite Z.mod_small in Hfull by (unfold W in *; lia). congruence.
  - split; [lia|]. intros; lia.
  - lia.
  - exists f, p'. rewrite Hr. simpl. naive_solver.
Qed.

(** ** [Pmm::alloc_contiguous] *)

(** The state of the search: the free run that ends at [frame], and no run of
    [count] free frames anywhere before. *)
Definition search_inv (p : Pmm) (count : Z) (st : Z * Z * Z) : Prop :=
  let '(run, start, frame) := st in
  0 ≤ run < count ∧ 0 ≤ frame ∧
  (0 < run → 0 ≤ start ∧ start + run = frame ∧ frame ≤ total_frames p ∧
             frames start run ⊆ free_set p) ∧
  (∀ s, 0 ≤ s → s < frame - run → ∃ f, s ≤ f < s + count ∧ f < frame ∧ f ∉ free_set p).

(** A frame in use ends the current run. *)
Lemma search_skip p count run start frame k :
  search_inv p count (run, start, frame) → 0 < k → 0 < count →
  (∀ f, frame ≤ f < frame + k → f ∉ free_set p) →
  search_inv p count (0, start, frame + k).
Proof.
  intros (Hrun & Hfr & Hcur & Hno) Hk Hcount Hused. split; [lia|]. split; [lia|].
  split; [lia|]. intros s Hs Hlt.
  destruct (Z.lt_ge_cases s (frame - run)) as [Hlt'|Hge].
  - destruct (Hno s Hs Hlt') as (f & ? & ? & ?). exists f. split; [done|]. split; [lia|done].
  - destruct (Z.lt_ge_cases s frame).
    + exists frame. split; [lia|]. split; [lia|]. apply Hused; lia.
    + exists s. split; [lia|]. split; [lia|]. apply Hused; lia.
Qed.

(** A free frame extends it. *)
Lemma search_extend p count run start frame :
  search_inv p count (run, start, frame) → frame ∈ free_set p →
  let start' := if run =? 0 then frame else start in
  0 ≤ start' ∧ start' + (run + 1) = frame + 1 ∧
  frames start' (run + 1) ⊆ free_set p ∧
  (run + 1 < count → search_inv p count (run + 1, start', frame + 1)).
Proof.
  intros (Hrun & Hfr & Hcur & Hno) Hfree start'.
  pose proof Hfree as Hr. apply elem_of_free_of in Hr as [Hr _].
  assert (Hs : 0 ≤ start' ∧ start' + (run + 1) = frame + 1 ∧
               frames start' (run + 1) ⊆ free_set p).
  { unfold start'. destruct (Z.eqb_spec run 0) as [->|].
    - split; [lia|]. split; [lia|]. intros f. rewrite elem_of_frames. intros ?.
      by replace f with frame by lia.
    - destruct (Hcur ltac:(lia)) as (? & ? & _ & Hsub). split; [lia|]. split; [lia|].
      intros f Hf. apply elem_of_frames in Hf.
      destruct (decide (f = frame)) as [->|]; [done|].
      apply Hsub, elem_of_frames. lia. }
  destruct Hs as (? & ? & ?). split; [done|]. split; [done|]. split; [done|].
  intros Hlt. split; [lia|]. split; [lia|]. split.
  { intros _. split; [done|]. split; [done|]. split; [lia|done]. }
  intros s ? ?. destruct (Hno s ltac:(done) ltac:(lia)) as (f & ? & ? & ?).
  exists f. split; [done|]. split; [lia|done].
Qed.

(** When the search stops with a full run, it is the first one. *)
Definition first_fit (p : Pmm) (count a : Z) : Prop :=
  0 ≤ a ∧ frames a count ⊆ free_set p ∧
  ∀ s, 0 ≤ s < a → ¬ frames s count ⊆ free_set p.

Lemma search_first_fit p count run start frame :
  search_inv p count (run, start, frame) → frame ∈ free_set p → run + 1 = count →
  first_fit p count (if run =? 0 then frame else start).
Proof.
  intros HI Hfree Hc. pose proof HI as (Hrun & Hfr & Hcur & Hno).
  destruct (search_extend _ _ _ _ _ HI Hfree) as (? & He & Hsub & _).
  split; [done|]. rewrite <- Hc. split; [done|]. intros s Hs Hsub'.
  destruct (Hno s ltac:(lia) ltac:(lia)) as (f & ? & _ & Hn).
  apply Hn, Hsub', elem_of_frames. lia.
Qed.

(** A word that is full holds no free frame. *)
Lemma full_word_used p frame :
  frame mod 64 = 0 → bitmap p !! Z.to_nat (frame / 64) = Some (not64 0) →
  ∀ f, frame ≤ f < frame + 64 → f ∉ free_set p.
Proof.
  intros Hm Hw f Hf. rewrite elem_of_free_set. intros [? Hb].
  pose proof (Z.div_mod frame 64 ltac:(lia)).
  assert (f / 64 = frame / 64) as Hd.
  { symmetry. apply (Z.div_unique f 64 (frame / 64) (f - frame)); lia. }
  unfold bit in Hb. rewrite Hd, Hw in Hb.
  pose proof (Z.mod_pos_bound f 64 ltac:(lia)).
  by rewrite testbit_not64, Z.bits_0 in Hb by lia.
Qed.

(** [Pmm::alloc_contiguous] is first fit: the lowest run of [count] free
    frames, or nothing when there is none.  Skipping full words loses none. *)
Lemma alloc_contiguous_spec p count :
  pmm_inv p → 0 < count →
  (∃ a p', first_fit p count a ∧
     Pmm_alloc_contiguous count p = (Ok (Some (a * PAGE_SIZE)), p') ∧
     pmm_inv p' ∧ free_set p' = free_set p ∖ frames a count ∧
     total_frames p' = total_frames p) ∨
  ((∀ s, 0 ≤ s → ¬ frames s count ⊆ free_set p) ∧
   Pmm_alloc_contiguous count p = (Ok None, p)).
Proof.
  intros H Hc. unfold Pmm_alloc_contiguous.
  destruct (Z.eqb_spec count 0); [lia|]. simpl.
  destruct (Z.ltb_spec (free_frames p) count) as [Hlt|Hge].
  { right. split; [|done]. intros s _ Hsub%subseteq_size%inj_le.
    rewrite size_frames in Hsub by lia. rewrite (inv_count p H) in Hlt. lia. }
  pose proof (inv_fits p H) as Hfit.
  destruct (loop_total (search_inv p count)
    (λ r, (∃ a p', r = Ok (Some (a * PAGE_SIZE), p') ∧ first_fit p count a ∧
             pmm_inv p' ∧ free_set p' = free_set p ∖ frames a count ∧
             total_frames p' = total_frames p) ∨
          (r = Ok (None, p) ∧ ∀ s, 0 ≤ s → ¬ frames s count ⊆ free_set p))
    (λ st, Z.to_nat (total_frames p - st.2)) (alloc_contiguous_body p count)
    (S (Z.to_nat (total_frames p))) (0, 0, 0)) as (r & -> & Hr).
  - intros [[run start] frame] HI. pose proof HI as (Hrun & Hfr & Hcur & Hno).
    unfold alloc_contiguous_body.
    destruct (Z.ltb_spec frame (total_frames p)) as [Hlt|Hge'].
    + rewrite test_bit_spec by lia.
      destruct (word_exists (bitmap p) frame ltac:(lia)) as [word Hw]. rewrite Hw.
      destruct ((frame mod 64 =? 0) && (word =? not64 0)) eqn:Efull.
      { apply andb_true_iff in Efull as [Em%Z.eqb_eq ->%Z.eqb_eq].
        split; [|simpl; lia]. eapply search_skip; [done|lia..|].
        by apply full_word_used. }
      destruct (bit (bitmap p) frame) eqn:Eb.
      { split; [|simpl; lia]. eapply search_skip; [done|lia..|].
        intros f ?. replace f with frame by lia. rewrite elem_of_free_set, Eb. naive_solver. }
      assert (Hfree : frame ∈ free_set p) by (apply elem_of_free_of; split; [lia|done]).
      destruct (search_extend _ _ _ _ _ HI Hfree) as (Hs0 & He & Hsub & Hnext).
      destruct (Z.eqb_spec (run + 1) count) as [Ec|]; [|split; [apply Hnext; lia|simpl; lia]].
      left. pose proof (search_first_fit _ _ _ _ _ HI Hfree Ec) as Hff.
      rewrite Ec in *. set (a := if run =? 0 then frame else start) in *.
      destruct (fill_range_spec (bitmap p) a count true (inv_words p H))
        as (bm & -> & Hok & Hlen & Hb); [lia..|]. simpl.
      rewrite sub64_ok by lia. simpl.
      rewrite mul64_ok by (apply (frame_addr p); [done|lia]). simpl.
      eexists _, _. split; [done|]. split; [done|].
      destruct (inv_take p bm a count (next_hint p)) as [? ?];
        [done..|lia|done|done|done|done|apply (inv_hint p H)|]. by split.
    + right. split; [done|]. intros s Hs Hsub.
      assert (Hin : s + count - 1 ∈ free_set p) by (apply Hsub, elem_of_frames; lia).
      apply elem_of_free_of in Hin as [? _].
      destruct (Hno s Hs) as (f & ? & _ & Hn); [|apply Hn, Hsub, elem_of_frames; lia].
      lia.
  - split; [lia|]. split; [lia|]. split; [lia|]. intros; lia.
  - simpl. lia.
  - destruct Hr as [(a & p' & -> & ?)|[-> ?]]; [left|by right].
    exists a, p'. simpl. naive_solver.
Qed.

(** ** [Pmm::free] *)

(** The check loop: succeeds when every frame of the range is in use. *)
Lemma free_check_spec p first count :
  pmm_inv p → 0 ≤ first → 0 ≤ count → first + count ≤ total_frames p →
  loop (S (Z.to_nat count)) (free_check_body p (first + count)) first =
  Some (if decide (frames first count ## free_set p) then Ok tt else Err NotAllocated).
Proof.
  intros H Hf Hc Hle. pose proof (inv_fits p H).
  destruct (loop_total
    (λ f, first ≤ f ≤ first + count ∧ frames first (f - first) ## free_set p)
    (λ r, r = if decide (frames first count ## free_set p) then Ok tt else Err NotAllocated)
    (λ f, Z.to_nat (first + count - f)) (free_check_body p (first + count))
    (S (Z.to_nat count)) first) as (r & -> & ->); [| |lia|done].
  - intros f [Hr Hd]. unfold free_check_body.
    destruct (Z.ltb_spec f (first + count)).
    + rewrite test_bit_spec by lia. destruct (bit (bitmap p) f) eqn:Eb.
      * split; [|lia]. split; [lia|]. intros g Hg Hg'. apply elem_of_frames in Hg.
        destruct (decide (g = f)) as [->|].
        -- apply elem_of_free_set in Hg' as [_ ?]. congruence.
        -- apply (Hd g); [apply elem_of_frames; lia|done].
      * rewrite decide_False; [done|]. intros Hd'. apply (Hd' f).
        -- apply elem_of_frames. lia.
        -- apply elem_of_free_set. split; [lia|done].
    + rewrite decide_True; [done|]. by replace count with (f - first) by lia.
  - split; [lia|]. intros g Hg. apply elem_of_frames in Hg. lia.
Qed.

(** [free] returns exactly the range it was given when all of it is in use,
    and otherwise reports why and changes nothing. *)
Lemma free_spec p phys count :
  pmm_inv p → 0 ≤ phys → 0 ≤ count →
  let first := phys / PAGE_SIZE in
  if decide (count = 0) then Pmm_free phys count p = (Ok tt, p)
  else if decide (phys mod PAGE_SIZE ≠ 0) then Pmm_free phys count p = (Err Unaligned, p)
  else if decide (total_frames p < first + count) then
    Pmm_free phys count p = (Err OutOfRange, p)
  else if decide (frames first count ## free_set p) then
    ∃ p', Pmm_free phys count p = (Ok tt, p') ∧ pmm_inv p' ∧
          free_set p' = free_set p ∪ frames first count ∧
          total_frames p' = total_frames p
  else Pmm_free phys count p = (Err NotAllocated, p).
Proof.
  intros H Hp Hc first. unfold Pmm_free.
  destruct (decide (count = 0)) as [->|]; [done|].
  destruct (Z.eqb_spec count 0); [done|].
  destruct (decide (phys mod PAGE_SIZE ≠ 0)) as [Hu|Hu];
    destruct (Z.eqb_spec (phys mod PAGE_SIZE) 0); try done; simpl.
  fold first. assert (0 ≤ first) by (apply Z.div_pos; unfold PAGE_SIZE; lia).
  pose proof (inv_addr p H). unfold PAGE_SIZE in *.
  unfold checked_add. destruct (Z.leb_spec (first + count) u64_max).
  2:{ rewrite decide_True by lia. done. }
  destruct (decide (total_frames p < first + count)) as [Hr|Hr];
    destruct (Z.ltb_spec (total_frames p) (first + count)); try lia; [done|].
  rewrite free_check_spec by (done || lia).
  destruct (decide (frames first count ## free_set p)) as [Hd|Hd]; [|done].
  pose proof (inv_fits p H). pose proof (inv_free_bound p H).
  assert (Hadd : free_frames p + count ≤ u64_max).
  { rewrite (inv_count p H), <- (size_frames first count) by lia.
    rewrite <- Nat2Z.inj_add, Nat.add_comm, <- size_union by done.
    transitivity (total_frames p); [|lia].
    rewrite <- (size_frames 0 (total_frames p)) by apply (inv_total p H).
    apply inj_le, subseteq_size. intros f.
    rewrite elem_of_union, !elem_of_frames, elem_of_free_set. lia. }
  destruct (fill_range_spec (bitmap p) first count false (inv_words p H))
    as (bm & -> & Hok & Hlen & Hb); [lia..|].
  destruct (Z.leb_spec (free_frames p + count) u64_max); [|lia].
  destruct (inv_give p bm first count (Z.min (next_hint p) (first / 64))) as [? ?];
    try done; try lia.
  { pose proof (inv_hint p H). pose proof (Z.div_pos first 64). lia. }
  eauto.
Qed.

(** ** Boot: [init] and [reclaim_bootloader_memory] *)

(** A region whose end, rounded up to a page, still fits in 64 bits. *)
Definition region_ok (r : Region) : Prop :=
  0 ≤ base r ∧ 0 ≤ len r ∧ base r + len r + PAGE_SIZE ≤ u64_max.

(** The frames the allocator takes from a region. *)
Definition region_range (r : Region) : gset Z :=
  match region_frames r with
  | Ok (Some (first, count)) => frames first count
  | _ => ∅
  end.

(** Those of all the regions of a kind, and that they do not overlap. *)
Fixpoint region_union (k : Kind) (rs : list Region) : gset Z :=
  match rs with
  | [] => ∅
  | r :: rs =>
      if decide (kind r = k) then region_range r ∪ region_union k rs
      else region_union k rs
  end.

Fixpoint regions_disjoint (k : Kind) (rs : list Region) : bool :=
  match rs with
  | [] => true
  | r :: rs =>
      (if decide (kind r = k) then bool_decide (region_range r ## region_union k rs) else true)
      && regions_disjoint k rs
  end.

Lemma region_frames_spec r :
  region_ok r →
  region_frames r = Ok None ∨
  ∃ a n, region_frames r = Ok (Some (a, n)) ∧ MIN_ALLOC_ADDR / PAGE_SIZE ≤ a ∧ 0 < n ∧
         base r ≤ a * PAGE_SIZE ∧ (a + n) * PAGE_SIZE ≤ base r + len r ∧
         align_up (E:=Empty_set) (Z.max (base r) MIN_ALLOC_ADDR) PAGE_SIZE = Ok (a * PAGE_SIZE).
Proof.
  intros (Hb & Hl & Hle). unfold region_frames, MIN_ALLOC_ADDR in *.
  change PAGE_SIZE with (2^12) in *.
  rewrite align_up_spec by (unfold u64_max in *; lia). simpl res_bind.
  rewrite add64_ok by lia. simpl res_bind.
  rewrite align_down_spec by (unfold u64_max in *; lia).
  set (v := Z.max (base r) 0x100000).
  pose proof (div_round_up v (2^12) ltac:(lia)) as Hup.
  pose proof (div_round_down (base r + len r) (2^12) ltac:(lia)) as Hdn.
  set (s := (v + 2^12 - 1) / 2^12) in *. set (e := (base r + len r) / 2^12) in *.
  destruct (Z.ltb_spec (s * 2^12) (e * 2^12)); [right|by left].
  exists s, (e - s). split.
  { do 3 f_equal; [by rewrite Z.div_mul by lia|].
    replace (e * 2^12 - s * 2^12) with ((e - s) * 2^12) by lia. by rewrite Z.div_mul by lia. }
  change (0x100000 / 2^12) with 256. unfold v in *. split; [lia|]. split; [lia|].
  split; [lia|]. split; [lia|done].
Qed.

(** The loop that frees the regions of a kind. *)
Lemma free_regions_spec k rs bm n total :
  Forall region_ok rs → regions_disjoint k rs = true →
  (∀ f, f ∈ region_union k rs → f < total) → total ≤ 64 * Z.of_nat (length bm) →
  words_ok bm → 0 ≤ n → n + Z.of_nat (size (region_union k rs)) ≤ u64_max →
  ∃ bm', free_regions k rs bm n = Ok (bm', n + Z.of_nat (size (region_union k rs))) ∧
         words_ok bm' ∧ length bm' = length bm ∧
         ∀ j, 0 ≤ j → bit bm' j = if decide (j ∈ region_union k rs) then false else bit bm j.
Proof.
  intros Hok. revert bm n. induction Hok as [|r rs Hr _ IH]; intros bm n Hd Hlt Htot Hw Hn Hsz; simpl in *.
  { exists bm. split; [by rewrite Z.add_0_r|]. split; [done|]. split; [done|]. intros.
    by rewrite decide_False by set_solver. }
  apply andb_true_iff in Hd as [Hd1 Hd2]. destruct (decide (kind r = k)); [|by apply IH].
  apply bool_decide_eq_true in Hd1. unfold region_range in *.
  destruct (region_frames_spec r Hr) as [E|(a & m & E & Ha & Hm & _ & _ & _)]; rewrite E in *; simpl.
  - rewrite (left_id_L ∅ (∪)) in *. by apply IH.
  - rewrite size_union in * by done. rewrite Nat2Z.inj_add, size_frames in * by lia.
    change (MIN_ALLOC_ADDR / PAGE_SIZE) with 256 in Ha.
    assert (a + m - 1 < total) by (apply Hlt, elem_of_union_l, elem_of_frames; lia).
    destruct (fill_range_spec bm a m false Hw) as (bm1 & -> & Hw1 & Hl1 & Hb1); [lia..|].
    simpl. rewrite add64_ok by lia. simpl.
    destruct (IH bm1 (n + m) Hd2) as (bm' & -> & Hw' & Hl' & Hb').
    { intros f Hf. apply Hlt. set_solver. }
    all: try done; try lia.
    exists bm'. split; [do 2 f_equal; lia|]. split; [done|]. split; [lia|].
    intros j Hj. rewrite Hb', Hb1 by lia.
    destruct (decide (j ∈ region_union k rs)); [by rewrite decide_True by set_solver|].
    destruct (decide (j ∈ frames a m)) as [Hin|Hin]; rewrite elem_of_frames in Hin.
    + rewrite decide_True by (rewrite elem_of_union, elem_of_frames; lia).
      destruct (Z.leb_spec a j), (Z.ltb_spec j (a + m)); simpl; try lia; done.
    + rewrite decide_False by (rewrite elem_of_union, elem_of_frames; naive_solver).
      destruct (Z.leb_spec a j), (Z.ltb_spec j (a + m)); simpl; try lia; done.
Qed.

Lemma region_union_min k rs f :
  Forall region_ok rs → f ∈ region_union k rs → MIN_ALLOC_ADDR / PAGE_SIZE ≤ f.
Proof.
  induction 1 as [|r rs Hr _ IH]; simpl; [set_solver|]. case_decide; [|done].
  rewrite elem_of_union. intros [Hin|]; [|by apply IH]. unfold region_range in Hin.
  destruct (region_frames_spec r Hr) as [E|(a & m & E & Ha & _)]; rewrite E in Hin; [set_solver|].
  apply elem_of_frames in Hin. lia.
Qed.

(** Every frame of a region lies below the highest end of its kind. *)
Lemma region_union_below k rs top f :
  Forall region_ok rs → (∀ r, r ∈ rs → kind r = k → base r + len r ≤ top) →
  f ∈ region_union k rs → (f + 1) * PAGE_SIZE ≤ top.
Proof.
  induction 1 as [|r rs Hr _ IH]; simpl; intros Htop; [set_solver|]. case_decide.
  - rewrite elem_of_union. intros [Hin|]; [|apply IH; [|done]; set_solver].
    unfold region_range in Hin.
    destruct (region_frames_spec r Hr) as [E|(a & m & E & _ & _ & _ & He & _)];
      rewrite E in Hin; [set_solver|].
    apply elem_of_frames in Hin. specialize (Htop r ltac:(left) ltac:(done)).
    unfold PAGE_SIZE in *. lia.
  - intros. apply IH; [|done]. set_solver.
Qed.

(** [scan_highest] ends above every allocatable region. *)
Fixpoint total_len (rs : list Region) : Z :=
  match rs with [] => 0 | r :: rs => len r + total_len rs end.

Definition allocatable (k : Kind) : Prop := k = Usable ∨ k = BootloaderReclaimable.

Lemma total_len_nonneg rs : Forall region_ok rs → 0 ≤ total_len rs.
Proof. induction 1 as [|r rs (?&?&?) _ IH]; simpl; lia. Qed.

Lemma scan_highest_spec rs h rc :
  Forall region_ok rs → 0 ≤ rc → 0 ≤ h ≤ u64_max → rc + total_len rs ≤ u64_max →
  ∃ h' rc', scan_highest rs h rc = Ok (h', rc') ∧ h ≤ h' ≤ u64_max ∧
    ∀ r, r ∈ rs → allocatable (kind r) → base r + len r ≤ h'.
Proof.
  intros Hok. revert h rc. induction Hok as [|r rs (Hb & Hl & He) Hrs IH]; intros h rc Hrc Hh Hsum; simpl in *.
  { eexists _, _. split; [done|]. split; [lia|]. set_solver. }
  pose proof (total_len_nonneg rs Hrs). unfold PAGE_SIZE in *.
  assert (Hskip : ¬ allocatable (kind r) →
    ∃ h' rc', scan_highest rs h rc = Ok (h', rc') ∧ h ≤ h' ≤ u64_max ∧
      ∀ r', r' ∈ r :: rs → allocatable (kind r') → base r' + len r' ≤ h').
  { intros Hk. destruct (IH h rc) as (h' & rc' & E & Hr & Hall); [lia..|].
    exists h', rc'. split; [done|]. split; [done|]. intros r' [->|?]%elem_of_cons Hk'; [done|].
    by apply Hall. }
  assert (Htake : ∀ rc1, 0 ≤ rc1 → rc1 + total_len rs ≤ u64_max →
    ∃ h' rc', scan_highest rs (Z.max h (base r + len r)) rc1 = Ok (h', rc') ∧ h ≤ h' ≤ u64_max ∧
      ∀ r', r' ∈ r :: rs → allocatable (kind r') → base r' + len r' ≤ h').
  { intros rc1 ??. destruct (IH (Z.max h (base r + len r)) rc1) as (h' & rc' & E & Hr & Hall); [lia..|].
    exists h', rc'. split; [done|]. split; [lia|]. intros r' [->|?]%elem_of_cons Hk'; [lia|].
    by apply Hall. }
  destruct (kind r) eqn:Ek; try (apply Hskip; unfold allocatable; naive_solver).
  - rewrite add64_ok by lia. simpl. apply Htake; lia.
  - rewrite add64_ok by lia. simpl. rewrite add64_ok by lia. simpl. apply Htake; lia.
Qed.

(** The bitmap is placed inside a usable region. *)
Lemma place_bitmap_spec rs bf :
  Forall region_ok rs → 0 ≤ bf →
  ∃ a, place_bitmap rs bf = Ok (a * PAGE_SIZE) ∧
       (a = 0 ∨ a ∈ region_union Usable rs ∧ frames a bf ⊆ region_union Usable rs).
Proof.
  intros Hok Hbf. induction Hok as [|r rs Hr _ IH]; simpl.
  { exists 0. split; [done|by left]. }
  destruct IH as (a0 & E0 & Ha0). destruct (decide (kind r = Usable)) as [Hk|Hk]; [|by exists a0].
  assert (Hskip : ∃ a, place_bitmap rs bf = Ok (a * PAGE_SIZE) ∧
            (a = 0 ∨ a ∈ region_range r ∪ region_union Usable rs ∧
                     frames a bf ⊆ region_range r ∪ region_union Usable rs)).
  { exists a0. split; [done|]. destruct Ha0; [by left|right; set_solver]. }
  pose proof Hr as (Hb & Hl & Hle). pose proof (region_frames_spec r Hr) as Hcase.
  unfold region_range in *. unfold region_frames in Hcase at 1.
  destruct (align_up (Z.max (base r) MIN_ALLOC_ADDR) PAGE_SIZE) as [start|e| |] eqn:Eup;
    [|destruct e|naive_solver..]. simpl in *.
  rewrite add64_ok in * by (unfold PAGE_SIZE in *; lia). simpl in *.
  set (end_ := align_down (base r + len r) PAGE_SIZE) in *.
  destruct (Z.ltb_spec start end_) as [Hlt|]; simpl; [|done].
  destruct Hcase as [|(a & n & E & Ha & Hn & _ & He & [= ->])]; [done|].
  destruct (Z.leb_spec (bf * PAGE_SIZE) (end_ - a * PAGE_SIZE)); [|done].
  exists a. split; [done|]. right. rewrite E.
  split; [apply elem_of_union_l, elem_of_frames; lia|].
  unfold region_frames in E. rewrite Eup in E. simpl in E.
  rewrite add64_ok in E by (unfold PAGE_SIZE in *; lia). simpl in E. fold end_ in E.
  rewrite (proj2 (Z.ltb_lt _ _) Hlt) in E. injection E as E1 E2.
  intros f Hf. apply elem_of_union_l. apply elem_of_frames in Hf. apply elem_of_frames.
  assert (bf ≤ n); [|lia]. rewrite <- E2. apply Z.div_le_lower_bound; unfold PAGE_SIZE in *; lia.
Qed.

(** The regions [init] looks at: the first [MAX_REGIONS] of the memory map. *)
Definition map_regions (entries : list (Z * Z * EntryType)) : list Region :=
  take (Z.to_nat MAX_REGIONS) ((λ e, mkRegion e.1.1 e.1.2 (kind_of e.2)) <$> entries).

Lemma collect_regions_spec entries rs count :
  Z.of_nat (length rs) = MAX_REGIONS → 0 ≤ count ≤ MAX_REGIONS →
  let '(rs', count') := collect_regions entries rs count in
  0 ≤ count' ≤ MAX_REGIONS ∧
  take (Z.to_nat count') rs' =
  take (Z.to_nat count) rs ++
  take (Z.to_nat (MAX_REGIONS - count)) ((λ e, mkRegion e.1.1 e.1.2 (kind_of e.2)) <$> entries).
Proof.
  unfold MAX_REGIONS. revert rs count.
  induction entries as [|[[b l] t] es IH]; intros rs count Hl Hc; simpl.
  { split; [done|]. by rewrite take_nil, app_nil_r. }
  destruct (Z.eqb_spec count MAX_REGIONS) as [->|]; unfold MAX_REGIONS in *.
  { split; [done|]. by rewrite app_nil_r. }
  specialize (IH (<[Z.to_nat count := mkRegion b l (kind_of t)]> rs) (count + 1)).
  destruct (collect_regions es _ _) as [rs' count'].
  destruct IH as [? IH]; [by rewrite length_insert|lia|]. split; [done|]. rewrite IH.
  replace (Z.to_nat (count + 1)) with (S (Z.to_nat count)) by lia.
  rewrite (take_S_r _ _ (mkRegion b l (kind_of t))) by (apply list_lookup_insert_eq; lia).
  rewrite take_insert_ge by lia. rewrite <- app_assoc. f_equal.
  by replace (Z.to_nat (128 - count)) with (S (Z.to_nat (128 - (count + 1)))) by lia.
Qed.

(** A memory map the boot protocol can give: no region wraps the address
    space, in physical or in direct-map addresses, and the usable regions do
    not overlap. *)
Record memory_map_ok (rs : list Region) (hhdm : Z) : Prop := {
  map_regions_ok : Forall region_ok rs;
  map_total : total_len rs ≤ u64_max;
  map_hhdm : ∀ r, r ∈ rs → allocatable (kind r) → base r + len r + hhdm ≤ u64_max;
  map_hhdm_nonneg : 0 ≤ hhdm;
  map_disjoint : regions_disjoint Usable rs = true
}.

(** The bitmap before [init] frees anything: every frame in use. *)
Lemma full_bitmap words :
  words_ok (replicate words (not64 0)) ∧
  ∀ j, 0 ≤ j → bit (replicate words (not64 0)) j = true.
Proof.
  split; [by apply Forall_replicate|]. intros j Hj. unfold bit.
  destruct (replicate words (not64 0) !! Z.to_nat (j / 64)) as [w|] eqn:E; [|done].
  apply lookup_replicate in E as [-> _]. pose proof (Z.mod_pos_bound j 64).
  by rewrite testbit_not64, Z.bits_0 by lia.
Qed.

(** What a published allocator looks like right after [init]: the free frames
    are those of the usable regions except the ones that hold the bitmap. *)
Definition fresh_pmm (rs : list Region) (p : Pmm) : Prop :=
  pmm_inv p ∧ live_regions p = rs ∧ usable_frames p = free_frames p ∧
  ∃ b n : Z, bitmap_words p * 8 ≤ n * PAGE_SIZE ∧
         frames b n ⊆ region_union Usable rs ∧
         free_set p = region_union Usable rs ∖ frames b n.

Lemma collect_regions_live entries rs count :
  collect_regions entries (replicate (Z.to_nat MAX_REGIONS) Region_EMPTY) 0 = (rs, count) →
  take (Z.to_nat count) rs = map_regions entries.
Proof.
  intros E. pose proof (collect_regions_spec entries
    (replicate (Z.to_nat MAX_REGIONS) Region_EMPTY) 0) as H. rewrite E in H.
  apply H; [by rewrite length_replicate|unfold MAX_REGIONS; lia].
Qed.

(** The size of the bitmap for memory that ends at [h]. *)
Lemma bitmap_size h :
  0 ≤ h ≤ u64_max →
  let total := h / PAGE_SIZE in
  let words := (total + 63) / 64 in
  0 ≤ total ∧ total * PAGE_SIZE ≤ h < (total + 1) * PAGE_SIZE ∧
  0 ≤ words ∧ total ≤ 64 * words ∧
  ∃ bf, align_up (E:=Empty_set) (words * 8) PAGE_SIZE = Ok (bf * PAGE_SIZE) ∧
        0 ≤ bf ∧ words * 8 ≤ bf * PAGE_SIZE.
Proof.
  intros Hh total words. change PAGE_SIZE with (2^12) in *.
  pose proof (div_round_down h (2^12) ltac:(lia)) as Hd. fold total in Hd.
  pose proof (Z.div_pos h (2^12) ltac:(lia) ltac:(lia)) as Hp. fold total in Hp.
  pose proof (div_round_up total 64 ltac:(lia)) as Hu.
  replace (total + 64 - 1) with (total + 63) in Hu by lia. fold words in Hu.
  pose proof (div_round_up (words * 8) (2^12) ltac:(lia)) as Hb.
  split; [lia|]. split; [lia|]. split; [lia|]. split; [lia|].
  exists ((words * 8 + 2^12 - 1) / 2^12). split; [|lia].
  apply align_up_spec; unfold u64_max in *; lia.
Qed.

(** The last part of [init]: from the full bitmap to the published state. *)
Lemma init_fill live total words a bf :
  Forall region_ok live → regions_disjoint Usable live = true →
  (∀ f, f ∈ region_union Usable live → f < total) →
  0 ≤ total → total * PAGE_SIZE ≤ u64_max → words = (total + 63) / 64 →
  total ≤ 64 * words → 0 < bf → frames a bf ⊆ region_union Usable live →
  ∃ bm1 bm free,
    free_regions Usable live (replicate (Z.to_nat words) (not64 0)) 0 = Ok (bm1, free) ∧
    fill_range bm1 a bf true = Some bm ∧ bf ≤ free ∧
    ∀ ptr rs count,
      let p := mkPmm ptr bm words total (free - bf) (free - bf) 0 rs count in
      pmm_inv p ∧ free_set p = region_union Usable live ∖ frames a bf.
Proof.
  intros Hok Hdj Hlt Ht Hta Hw Hfit Hbf Hsub. set (U := region_union Usable live) in *.
  assert (HU0 : ∀ f, f ∈ U → 0 ≤ f).
  { intros f Hf. apply (region_union_min _ _ _ Hok) in Hf.
    change (MIN_ALLOC_ADDR / PAGE_SIZE) with 256 in Hf. lia. }
  assert (HUsz : Z.of_nat (size U) ≤ total).
  { rewrite <- (size_frames 0 total) by done. apply inj_le, subseteq_size.
    intros f Hf. apply elem_of_frames. specialize (HU0 f Hf). specialize (Hlt f Hf). lia. }
  destruct (full_bitmap (Z.to_nat words)) as [Hok0 Hb0].
  set (bm0 := replicate (Z.to_nat words) (not64 0)) in *.
  assert (Hl0 : Z.of_nat (length bm0) = words) by (unfold bm0; rewrite length_replicate; lia).
  destruct (free_regions_spec Usable live bm0 0 total) as (bm1 & E1 & Hok1 & Hl1 & Hb1);
    [done..|lia|done|lia|fold U; unfold PAGE_SIZE in *; lia|]. fold U in E1, Hb1.
  pose proof (subseteq_size _ _ Hsub) as Hsz. apply inj_le in Hsz.
  rewrite size_frames in Hsz by lia.
  assert (0 ≤ a) by (apply HU0, Hsub, elem_of_frames; lia).
  assert (a + bf - 1 < total) by (apply Hlt, Hsub, elem_of_frames; lia).
  destruct (fill_range_spec bm1 a bf true Hok1) as (bm & E2 & Hok2 & Hl2 & Hb2); [lia..|].
  exists bm1, bm, (Z.of_nat (size U)). split; [by rewrite E1|]. split; [done|].
  split; [done|]. intros ptr rs count p.
  assert (Hf1 : free_of bm1 total = U).
  { apply set_eq. intros f. rewrite elem_of_free_of. split.
    - intros [? Hb]. rewrite Hb1, Hb0 in Hb by lia. by case_decide.
    - intros Hf. specialize (HU0 f Hf). specialize (Hlt f Hf). split; [lia|].
      rewrite Hb1 by lia. by rewrite decide_True. }
  assert (Hfs : free_set p = U ∖ frames a bf).
  { rewrite <- Hf1. apply (free_of_fill bm1 bm total a bf true); [done|done|].
    lia. }
  split; [|done]. split; simpl; try done.
  - by rewrite Hl2, Hl1.
  - intros i Hi. rewrite Hb2, Hb1, Hb0 by lia.
    case_decide as Hin; [specialize (Hlt i Hin); lia|]. by destruct (_ && _).
  - rewrite Hfs, size_difference by done.
    rewrite Nat2Z.inj_sub, size_frames by (lia || by apply subseteq_size). done.
Qed.

Lemma init_pmm_spec entries hhdm :
  memory_map_ok (map_regions entries) hhdm →
  init_pmm entries hhdm = Ok None ∨
  ∃ p, init_pmm entries hhdm = Ok (Some p) ∧ fresh_pmm (map_regions entries) p.
Proof.
  intros [Hok Htl Hhh Hh0 Hdj]. unfold init_pmm.
  destruct (collect_regions entries _ 0) as [rs count] eqn:Ec.
  pose proof (collect_regions_live _ _ _ Ec) as Hlive. rewrite Hlive.
  set (live := map_regions entries) in *.
  destruct (scan_highest_spec live 0 0 Hok) as (h & rc & -> & Hh & Hends);
    [lia|unfold u64_max; lia|done|]. simpl res_bind.
  destruct (Z.eqb_spec h 0); [by left|].
  destruct (bitmap_size h ltac:(lia)) as (Ht & Hth & Hw & Hfit & bf & Eup & Hbf0 & Hbf).
  rewrite Eup. simpl res_bind. rewrite Z.div_mul by done.
  set (total := h / PAGE_SIZE) in *. set (words := (total + 63) / 64) in *.
  assert (Hlt : ∀ f, f ∈ region_union Usable live → f < total).
  { intros f Hf. apply (region_union_below _ _ h) in Hf; [unfold PAGE_SIZE in *; lia|done|].
    intros r Hr Hk. apply Hends; [done|by left]. }
  destruct (place_bitmap_spec live bf Hok Hbf0) as (a & -> & Ha).
  simpl res_bind. destruct (Z.eqb_spec (a * PAGE_SIZE) 0) as [|Hnz]; [by left|]. right.
  destruct Ha as [->|[Hin Hsub]]; [done|].
  pose proof (region_union_min _ _ _ Hok Hin) as Hmin.
  change (MIN_ALLOC_ADDR / PAGE_SIZE) with 256 in Hmin. pose proof (Hlt a Hin).
  destruct (init_fill live total words a bf) as (bm1 & bm & free & E1 & E2 & Hle & Hp);
    [done..|lia|done|done|unfold PAGE_SIZE in *; lia|done|].
  assert (Hptr : a * PAGE_SIZE + hhdm ≤ u64_max).
  { apply (region_union_below _ _ (u64_max - hhdm)) in Hin; [unfold PAGE_SIZE in *; lia|done|].
    intros r Hr Hk. specialize (Hhh r Hr ltac:(by left)). lia. }
  rewrite add64_ok by done. simpl res_bind. rewrite E1. simpl res_bind.
  rewrite Z.div_mul by done. rewrite E2. simpl res_bind.
  rewrite sub64_ok by done. simpl res_bind. eexists. split; [done|].
  destruct (Hp (a * PAGE_SIZE + hhdm) rs count) as [Hinv Hfs].
  split; [done|]. split; [done|]. split; [done|]. by exists a, bf.
Qed.

(** [reclaim_bootloader_memory]: the reclaimable frames join the free set. *)
Lemma reclaim_spec s p :
  PMM s = Some p → pmm_inv p → usable_frames p = free_frames p →
  Forall region_ok (live_regions p) →
  regions_disjoint BootloaderReclaimable (live_regions p) = true →
  let U := region_union BootloaderReclaimable (live_regions p) in
  (∀ f, f ∈ U → f < total_frames p) → U ## free_set p →
  ∃ p', reclaim_bootloader_memory s = (Ok (Z.of_nat (size U)), set_PMM s p') ∧
        pmm_inv p' ∧ free_set p' = free_set p ∪ U ∧ usable_frames p' = free_frames p'.
Proof.
  intros Hs H Hu Hok Hdj U Hlt Hdisj. unfold reclaim_bootloader_memory. rewrite Hs.
  pose proof (inv_fits p H) as Hfit. pose proof (inv_addr p H) as Haddr.
  assert (HU0 : ∀ f, f ∈ U → 0 ≤ f).
  { intros f Hf. apply (region_union_min _ _ _ Hok) in Hf.
    change (MIN_ALLOC_ADDR / PAGE_SIZE) with 256 in Hf. lia. }
  assert (Hsz : free_frames p + Z.of_nat (size U) ≤ total_frames p).
  { rewrite (inv_count p H), <- Nat2Z.inj_add, Nat.add_comm, <- size_union by done.
    rewrite <- (size_frames 0 (total_frames p)) by apply (inv_total p H).
    apply inj_le, subseteq_size. intros f. rewrite elem_of_union, elem_of_frames.
    intros [Hf|Hf%elem_of_free_set]; [|lia]. pose proof (HU0 f Hf). pose proof (Hlt f Hf). lia. }
  pose proof (inv_free_bound p H). unfold PAGE_SIZE in Haddr.
  destruct (free_regions_spec BootloaderReclaimable (live_regions p) (bitmap p) 0 (total_frames p))
    as (bm & E & Hwok & Hlen & Hb); [done..|apply (inv_words p H)|lia|fold U; lia|].
  rewrite E. fold U. fold U in Hb. rewrite Z.add_0_l, Hu, !checked_add_Some by lia.
  eexists. split; [done|].
  match goal with |- pmm_inv ?q ∧ _ => set (p' := q) end.
  assert (Hfs : free_set p' = free_set p ∪ U).
  { apply set_eq. intros f. rewrite elem_of_union, !elem_of_free_set. simpl.
    split.
    - intros [? Hf]. rewrite Hb in Hf by lia. case_decide; [by right|by left].
    - intros [[? Hf]|Hf].
      + split; [done|]. rewrite Hb by lia. by case_decide.
      + pose proof (HU0 f Hf). pose proof (Hlt f Hf). split; [lia|].
        rewrite Hb by lia. by rewrite decide_True. }
  split; [|by split]. destruct H. split; simpl; try done.
  - by rewrite Hlen.
  - intros i Hi. rewrite Hb by lia. case_decide as Hin; [|by apply inv_past0].
    specialize (Hlt i Hin). lia.
  - rewrite Hfs, size_union by (symmetry; done). lia.
Qed.

(** ** Clients of the allocator

    A client holds the frames it was given and only returns what it holds.
    [pmm_step (p, o) (p', o')] is one operation of the allocator with the
    frames held before and after. *)
Inductive pmm_step : Pmm * gset Z → Pmm * gset Z → Prop :=
  | step_alloc_one p p' o a :
      alloc_one p = (Ok (Some a), p') →
      pmm_step (p, o) (p', o ∪ {[a / PAGE_SIZE]})
  | step_alloc_none p p' o :
      alloc_one p = (Ok None, p') → pmm_step (p, o) (p', o)
  | step_alloc_contiguous p p' o count a :
      0 < count → Pmm_alloc_contiguous count p = (Ok (Some a), p') →
      pmm_step (p, o) (p', o ∪ frames (a / PAGE_SIZE) count)
  | step_contiguous_none p p' o count :
      0 < count → Pmm_alloc_contiguous count p = (Ok None, p') →
      pmm_step (p, o) (p', o)
  | step_free p p' o phys count :
      0 ≤ phys → 0 ≤ count → frames (phys / PAGE_SIZE) count ⊆ o →
      Pmm_free phys count p = (Ok tt, p') →
      pmm_step (p, o) (p', o ∖ frames (phys / PAGE_SIZE) count)
  | step_free_rejected p p' o phys count e :
      0 ≤ phys → 0 ≤ count → Pmm_free phys count p = (Err e, p') →
      pmm_step (p, o) (p', o).

(** Held and free frames partition the frames [T] the allocator manages. *)
Definition ownership (T : gset Z) (st : Pmm * gset Z) : Prop :=
  pmm_inv st.1 ∧ st.2 ## free_set st.1 ∧ st.2 ∪ free_set st.1 = T.

Lemma frame_of_addr f : f * PAGE_SIZE / PAGE_SIZE = f.
Proof. by rewrite Z.div_mul. Qed.

(** Moving a set of frames from free to held, or back, keeps the partition. *)
Lemma partition_take (T o F X : gset Z) :
  o ## F → o ∪ F = T → X ⊆ F → (o ∪ X) ## (F ∖ X) ∧ (o ∪ X) ∪ (F ∖ X) = T.
Proof.
  intros Hd <- Hx. split; [set_solver|]. apply set_eq. intros f.
  destruct (decide (f ∈ X)); set_solver.
Qed.

Lemma partition_give (T o F X : gset Z) :
  o ## F → o ∪ F = T → X ⊆ o → (o ∖ X) ## (F ∪ X) ∧ (o ∖ X) ∪ (F ∪ X) = T.
Proof.
  intros Hd <- Hx. split; [set_solver|]. apply set_eq. intros f.
  destruct (decide (f ∈ X)); set_solver.
Qed.

Lemma pmm_step_ownership T st st' : pmm_step st st' → ownership T st → ownership T st'.
Proof.
  intros Hstep (Hinv & Hd & HT).
  destruct Hstep as [p p' o a E|p p' o E|p p' o n a Hn E|p p' o n Hn E|p p' o ph n Hp Hn Hsub E|
                     p p' o ph n e Hp Hn E]; unfold ownership; simpl in *.
  - destruct (alloc_one_spec p Hinv) as [[_ E']|(f & q & Hf & E' & Hq & Hfs & _)];
      rewrite E' in E; simplify_eq. rewrite frame_of_addr, Hfs.
    split; [done|]. apply partition_take; set_solver.
  - destruct (alloc_one_spec p Hinv) as [[_ E']|(f & q & Hf & E' & Hq & Hfs & _)];
      rewrite E' in E; by simplify_eq.
  - destruct (alloc_contiguous_spec p n Hinv Hn) as [(b & q & (_ & Hf & _) & E' & Hq & Hfs & _)|[_ E']];
      rewrite E' in E; simplify_eq. rewrite frame_of_addr, Hfs.
    split; [done|]. by apply partition_take.
  - destruct (alloc_contiguous_spec p n Hinv Hn) as [(b & q & _ & E' & _)|[_ E']];
      rewrite E' in E; by simplify_eq.
  - pose proof (free_spec p ph n Hinv Hp Hn) as Hs. simpl in Hs. repeat case_decide.
    + subst n. rewrite Hs in E. simplify_eq. change (frames (ph / PAGE_SIZE) 0) with (∅ : gset Z).
      by rewrite difference_empty_L.
    + rewrite Hs in E. simplify_eq.
    + rewrite Hs in E. simplify_eq.
    + destruct Hs as (q & E' & Hq & Hfs & _). rewrite E' in E. simplify_eq. rewrite Hfs.
      split; [done|]. by apply partition_give.
    + rewrite Hs in E. simplify_eq.
  - pose proof (free_spec p ph n Hinv Hp Hn) as Hs. simpl in Hs. repeat case_decide;
      try (rewrite Hs in E; by simplify_eq).
    destruct Hs as (q & E' & _). rewrite E' in E. simplify_eq.
Qed.

(** ** The global operations *)

Lemma alloc_frame_spec s p :
  PMM s = Some p → pmm_inv p →
  (free_set p = ∅ ∧ alloc_frame s = (Ok None, set_PMM s p)) ∨
  ∃ f p', f ∈ free_set p ∧ alloc_frame s = (Ok (Some (f * PAGE_SIZE)), set_PMM s p') ∧
          pmm_inv p' ∧ free_set p' = free_set p ∖ {[f]} ∧ total_frames p' = total_frames p.
Proof.
  intros Hs H. unfold alloc_frame, with_pmm. rewrite Hs.
  destruct (alloc_one_spec p H) as [[? ->]|(f & p' & ? & -> & ? & ? & ?)]; [by left|right].
  exists f, p'. done.
Qed.

Lemma alloc_frame_zeroed_spec s p :
  PMM s = Some p → pmm_inv p →
  (free_set p = ∅ ∧ alloc_frame_zeroed s = (Ok None, set_PMM s p)) ∨
  ∃ f p', f ∈ free_set p ∧
          alloc_frame_zeroed s =
            (Ok (Some (f * PAGE_SIZE)),
             set_phys_mem (set_PMM s p') (fill_bytes (phys_mem s) (f * PAGE_SIZE) 0 PAGE_SIZE)) ∧
          pmm_inv p' ∧ free_set p' = free_set p ∖ {[f]} ∧ total_frames p' = total_frames p.
Proof.
  intros Hs H. unfold alloc_frame_zeroed, bind.
  destruct (alloc_frame_spec s p Hs H) as [[? ->]|(f & p' & ? & -> & ? & ? & ?)]; [by left|right].
  exists f, p'. done.
Qed.

(** Returning one frame that is in use. *)
Lemma free_frame_spec s p f :
  PMM s = Some p → pmm_inv p → 0 ≤ f < total_frames p → f ∉ free_set p →
  ∃ p', free_frame (f * PAGE_SIZE) s = (Ok tt, set_PMM s p') ∧ pmm_inv p' ∧
        free_set p' = free_set p ∪ {[f]} ∧ total_frames p' = total_frames p.
Proof.
  intros Hs H Hr Hf. unfold free_frame, free_frames_at. rewrite Hs.
  pose proof (free_spec p (f * PAGE_SIZE) 1 H) as Hspec. cbv zeta in Hspec.
  rewrite frame_of_addr, Z.mod_mul in Hspec by done.
  assert (E1 : frames f 1 = {[f]}).
  { apply set_eq. intros g. rewrite elem_of_frames, elem_of_singleton. lia. }
  rewrite E1 in Hspec.
  rewrite decide_False, decide_False, decide_False, decide_True in Hspec
    by (done || lia || set_solver).
  destruct Hspec as (p' & -> & ? & ? & ?); [unfold PAGE_SIZE; lia|lia|]. by exists p'.
Qed.

(** ** A small machine, for concrete runs: 64 KiB of RAM at 1 MiB, then 16 KiB
    of bootloader memory. *)
Definition demo_map : list (Z * Z * EntryType) :=
  [(0x100000, 0x10000, USABLE); (0x110000, 0x4000, BOOTLOADER_RECLAIMABLE)].

Definition demo_pmm : Pmm :=
  match init_pmm demo_map 0 with
  | Ok (Some p) => p
  | _ => mkPmm 0 [] 0 0 0 0 0 [] 0
  end.

Lemma demo_map_ok : memory_map_ok (map_regions demo_map) 0.
Proof.
  split; [|vm_compute; congruence| |lia|vm_compute; reflexivity].
  - repeat constructor; vm_compute; congruence.
  - intros r [->|[->|?%elem_of_nil]%elem_of_cons]%elem_of_cons; [vm_compute; congruence..|done].
Qed.

Lemma demo_init : init_pmm demo_map 0 = Ok (Some demo_pmm).
Proof. vm_compute. reflexivity. Qed.

Lemma demo_fresh : fresh_pmm (map_regions demo_map) demo_pmm.
Proof.
  destruct (init_pmm_spec demo_map 0 demo_map_ok) as [E|(p & E & Hp)]; rewrite demo_init in E.
  - discriminate.
  - by simplify_eq.
Qed.

Lemma demo_inv : pmm_inv demo_pmm.
Proof. apply demo_fresh. Qed.

(** ** The properties of the allocator *)

(** A single-frame allocation.  With the allocator's invariant, [alloc_one]
    returns no frame exactly when none is free (and then changes nothing);
    otherwise it returns the address of a frame that was free, which is the only
    frame whose state changes, and the invariant still holds. *)
Theorem alloc_one_correct p :
  pmm_inv p →
  (free_frames p = 0 ∧ alloc_one p = (Ok None, p)) ∨
  ∃ f p', f ∈ free_set p ∧ alloc_one p = (Ok (Some (f * PAGE_SIZE)), p') ∧
          pmm_inv p' ∧ free_set p' = free_set p ∖ {[f]} ∧
          free_frames p' = free_frames p - 1.
Proof.
  intros H. destruct (alloc_one_spec p H) as [[E ?]|(f & p' & Hf & E & Hp' & Hfs & _)].
  - left. split; [|done]. by rewrite (inv_count p H), E.
  - right. exists f, p'. repeat split; try apply Hp'; try done.
    rewrite (inv_count p' Hp'), (inv_count p H), Hfs, size_difference by set_solver.
    rewrite size_singleton. assert (size (free_set p) ≠ 0%nat); [|lia].
    intros E0%size_empty_inv. set_solver.
Qed.

Lemma alloc_one_correct_witness :
  ∃ f p', f ∈ free_set demo_pmm ∧ alloc_one demo_pmm = (Ok (Some (f * PAGE_SIZE)), p') ∧
          pmm_inv p' ∧ free_frames p' = 14.
Proof.
  destruct (alloc_one_correct demo_pmm demo_inv) as [[E _]|(f & p' & Hf & Ea & Hp & _ & E)].
  - vm_compute in E. discriminate.
  - exists f, p'. refine (conj Hf (conj Ea (conj Hp _))). rewrite E. vm_compute. reflexivity.
Defined.

(** Contiguous allocation is first fit.  [Pmm::alloc_contiguous] returns
    the lowest run of [count] free frames, and fails only when there is no such
    run at all, although it skips full words of the bitmap and gives up early
    on the counter; the run is the only thing it takes. *)
Theorem alloc_contiguous_first_fit p count :
  pmm_inv p → 0 < count →
  (∃ a p', first_fit p count a ∧
     Pmm_alloc_contiguous count p = (Ok (Some (a * PAGE_SIZE)), p') ∧
     pmm_inv p' ∧ free_set p' = free_set p ∖ frames a count) ∨
  ((∀ s, 0 ≤ s → ¬ frames s count ⊆ free_set p) ∧
   Pmm_alloc_contiguous count p = (Ok None, p)).
Proof. intros H Hc. destruct (alloc_contiguous_spec p count H Hc); naive_solver. Qed.

Lemma alloc_contiguous_first_fit_witness :
  ∃ p', first_fit demo_pmm 4 257 ∧
        Pmm_alloc_contiguous 4 demo_pmm = (Ok (Some (257 * PAGE_SIZE)), p') ∧ pmm_inv p'.
Proof.
  destruct (alloc_contiguous_first_fit demo_pmm 4 demo_inv ltac:(lia))
    as [(a & p' & Hf & E & Hp' & _)|[_ E]].
  - exists p'. assert (Ea : fst (Pmm_alloc_contiguous 4 demo_pmm) = Ok (Some (257 * PAGE_SIZE)))
      by (vm_compute; reflexivity).
    rewrite E in Ea. injection Ea as Ea. assert (a = 257) as -> by (unfold PAGE_SIZE in Ea; lia).
    exact (conj Hf (conj E Hp')).
  - exfalso. assert (Ea : fst (Pmm_alloc_contiguous 4 demo_pmm) = Ok (Some (257 * PAGE_SIZE)))
      by (vm_compute; reflexivity). rewrite E in Ea. discriminate Ea.
Defined.

(** Freeing, on every branch.  A free of no frames does nothing; an
    unaligned address, a range past managed memory (including one whose end
    overflows) and a range with a frame that is already free are each rejected
    with their own error and without any effect; every other free returns
    exactly its range to the allocator. *)
Theorem free_total p phys count :
  pmm_inv p → 0 ≤ phys → 0 ≤ count →
  let first := phys / PAGE_SIZE in
  if decide (count = 0) then Pmm_free phys count p = (Ok tt, p)
  else if decide (phys mod PAGE_SIZE ≠ 0) then Pmm_free phys count p = (Err Unaligned, p)
  else if decide (total_frames p < first + count) then
    Pmm_free phys count p = (Err OutOfRange, p)
  else if decide (frames first count ## free_set p) then
    ∃ p', Pmm_free phys count p = (Ok tt, p') ∧ pmm_inv p' ∧
          free_set p' = free_set p ∪ frames first count
  else Pmm_free phys count p = (Err NotAllocated, p).
Proof.
  intros H Hp Hc. pose proof (free_spec p phys count H Hp Hc) as Hs. cbv zeta in *.
  repeat case_decide; naive_solver.
Qed.

(** Keep the branch of a [decide] cascade that agrees with the result [E]. *)
Ltac pick_branch H E :=
  repeat match type of H with context [decide ?P] => destruct (decide P) end;
  first [exact H | destruct H as (? & H & _); rewrite H in E; discriminate E
        | rewrite H in E; discriminate E].

Lemma free_total_witness :
  Pmm_free 0x101000 1 demo_pmm = (Err NotAllocated, demo_pmm) ∧
  Pmm_free 0x101001 1 demo_pmm = (Err Unaligned, demo_pmm) ∧
  Pmm_free 0x101000 (2^64 - 1) demo_pmm = (Err OutOfRange, demo_pmm).
Proof.
  assert (E1 : fst (Pmm_free 0x101000 1 demo_pmm) = Err NotAllocated) by (vm_compute; reflexivity).
  assert (E2 : fst (Pmm_free 0x101001 1 demo_pmm) = Err Unaligned) by (vm_compute; reflexivity).
  assert (E3 : fst (Pmm_free 0x101000 (2^64 - 1) demo_pmm) = Err OutOfRange)
    by (vm_compute; reflexivity).
  split; [|split].
  - pose proof (free_total demo_pmm 0x101000 1 demo_inv ltac:(lia) ltac:(lia)) as H. cbv zeta in H.
    pick_branch H E1.
  - pose proof (free_total demo_pmm 0x101001 1 demo_inv ltac:(lia) ltac:(lia)) as H. cbv zeta in H.
    pick_branch H E2.
  - pose proof (free_total demo_pmm 0x101000 (2^64 - 1) demo_inv ltac:(lia) ltac:(lia)) as H.
    cbv zeta in H. pick_branch H E3.
Defined.



(** C29: no frame is ever handed out twice and none is lost.  Along any sequence
    of allocations and frees by clients that free only what they hold, the held
    and the free frames are disjoint and together are exactly the frames the
    allocator started with; so the next frame returned is one nobody holds. *)
Theorem frames_never_shared p0 p o :
  pmm_inv p0 → rtc pmm_step (p0, ∅) (p, o) →
  pmm_inv p ∧ o ## free_set p ∧ o ∪ free_set p = free_set p0 ∧
  ∀ a p', alloc_one p = (Ok (Some a), p') → a / PAGE_SIZE ∉ o.
Proof.
  intros H0 Hsteps.
  assert (Hown : ownership (free_set p0) (p, o)).
  { remember (p, o) as st. clear Heqst. remember (p0, ∅ : gset Z) as st0.
    assert (ownership (free_set p0) st0) as Hst0 by (subst; split; [done|]; set_solver).
    clear Heqst0. induction Hsteps as [|x y z Hxy _ IH]; [done|].
    apply IH. by eapply pmm_step_ownership. }
  destruct Hown as (Hinv & Hd & HT). simpl in *. split; [done|]. split; [done|].
  split; [done|]. intros a p' E.
  destruct (alloc_one_spec p Hinv) as [[_ E']|(f & q & Hf & E' & _)];
    rewrite E' in E; simplify_eq. rewrite frame_of_addr. set_solver.
Qed.

Lemma frames_never_shared_witness :
  ∃ p, rtc pmm_step (demo_pmm, ∅) (p, ∅ ∪ {[257]}) ∧
       ({[257]} ∪ free_set p = free_set demo_pmm).
Proof.
  destruct (alloc_one demo_pmm) as [r p] eqn:E.
  assert (Er : r = Ok (Some 0x101000)).
  { change r with (fst (r, p)). rewrite <- E. vm_compute. reflexivity. }
  subst r. exists p.
  assert (Hs : rtc pmm_step (demo_pmm, ∅) (p, ∅ ∪ {[257]})).
  { apply rtc_once. exact (step_alloc_one _ _ ∅ _ E). }
  split; [exact Hs|].
  destruct (frames_never_shared demo_pmm p _ demo_inv Hs) as (_ & _ & Hu & _).
  rewrite <- Hu. set_solver.
Defined.

(** Reclaiming the bootloader's memory adds exactly the whole pages of the
    reclaimable regions to the free frames and returns how many there are,
    provided they were all in use. *)
Theorem reclaim_adds_bootloader_frames s p :
  PMM s = Some p → pmm_inv p → usable_frames p = free_frames p →
  Forall region_ok (live_regions p) →
  regions_disjoint BootloaderReclaimable (live_regions p) = true →
  let U := region_union BootloaderReclaimable (live_regions p) in
  (∀ f, f ∈ U → f < total_frames p) → U ## free_set p →
  ∃ p', reclaim_bootloader_memory s = (Ok (Z.of_nat (size U)), set_PMM s p') ∧
        pmm_inv p' ∧ free_set p' = free_set p ∪ U ∧ usable_frames p' = free_frames p'.
Proof. apply reclaim_spec. Qed.

Lemma reclaim_adds_bootloader_frames_witness :
  ∃ p', reclaim_bootloader_memory (mkPState ∅ (Some demo_pmm) 0)
          = (Ok 4, mkPState ∅ (Some p') 0) ∧ pmm_inv p' ∧ free_set p' = frames 257 19.
Proof.
  assert (EU : region_union BootloaderReclaimable (live_regions demo_pmm) = frames 272 4)
    by (vm_compute; reflexivity).
  assert (EF : free_set demo_pmm = frames 257 15) by (vm_compute; reflexivity).
  destruct (reclaim_adds_bootloader_frames (mkPState ∅ (Some demo_pmm) 0) demo_pmm)
    as (p' & E & Hp & Hfs & _).
  - reflexivity.
  - apply demo_inv.
  - vm_compute. reflexivity.
  - repeat constructor; vm_compute; congruence.
  - vm_compute. reflexivity.
  - intros f. rewrite EU, elem_of_frames.
    assert (total_frames demo_pmm = 276) as -> by (vm_compute; reflexivity). lia.
  - rewrite EU, EF. intros f. rewrite !elem_of_frames. lia.
  - exists p'. rewrite EU in *. rewrite EF in Hfs. split; [rewrite E; reflexivity|].
    split; [exact Hp|]. rewrite Hfs. apply set_eq. intros f.
    rewrite elem_of_union, !elem_of_frames. lia.
Defined.
