(* ===== verification/Heap.v ===== *)
(** * The kernel heap, [src/src/heap.rs]

    A first-fit allocator over an address-ordered, coalescing free list whose
    nodes live inside the free blocks themselves.  The nodes are a store from
    addresses to [FreeBlock]s, and the raw pointers are addresses into it (0 is
    null); dereferencing an address without a node is undefined behaviour in
    the source and [Panic] here.  A node of a block that was merged or handed
    out stays in the store, as its bytes stay in memory. *)
From stdpp Require Import base numbers list gmap sets sorting.
From Stdlib Require Import ZArith Lia Bool.
From S2P Require Import Prelude Bytes Mem Pmm.

Definition HEAP_START : Z := 0xffffffff90000000.
Definition HEAP_MAX_SIZE : Z := 64 * 1024 * 1024.
Definition HEAP_GROW_STEP : Z := 64 * 1024.

(** [size_of::<FreeBlock>()] and [align_of::<FreeBlock>()]. *)
Definition SIZE_OF_BLOCK : Z := 16.
Definition ALIGN_OF_BLOCK : Z := 8.

Record FreeBlock := mkBlock { blk_size : Z; blk_next : Z }.

Record FreeList := mkList {
  head : Z;
  mapped_end : Z;
  allocated : Z;
  total : Z
}.

Definition FreeList_new : FreeList := mkList 0 0 0 0.

(** The nodes and the list behind the lock. *)
Record HState := mkH { nodes : gmap Z FreeBlock; flist : FreeList }.

Definition set_node (a : Z) (b : FreeBlock) (h : HState) : HState :=
  mkH (<[a := b]> (nodes h)) (flist h).
Definition set_head (a : Z) (h : HState) : HState :=
  mkH (nodes h) (mkList a (mapped_end (flist h)) (allocated (flist h)) (total (flist h))).

(** Store [n] in the [next] field of the node at [p]. *)
Definition set_next (p n : Z) : M HState Empty_set unit := λ h,
  match nodes h !! p with
  | Some b => (Ok tt, set_node p (mkBlock (blk_size b) n) h)
  | None => (Panic, h)
  end.

(** Read the node at [p]. *)
Definition deref (p : Z) : M HState Empty_set FreeBlock := λ h,
  (expect (nodes h !! p), h).

(** The loop of [insert], on [(prev, cur)]: stop at the first block that is
    not below [addr]. *)
Definition insert_search_body (ns : gmap Z FreeBlock) (addr : Z) (st : Z * Z) :
    (Z * Z) + res Empty_set (Z * Z) :=
  let '(prev, cur) := st in
  if negb (cur =? 0) && (cur <? addr) then
    match ns !! cur with
    | Some b => inl (cur, blk_next b)
    | None => inr Panic
    end
  else inr (Ok (prev, cur)).

(** Run a loop; its fuel is one more than the number of nodes, which bounds
    the length of the list. *)
Definition run_search {S A B} (fuel : nat) (body : A → A + res Empty_set B) (a : A) :
    M S Empty_set B := λ s,
  match loop fuel body a with
  | Some r => (r, s)
  | None => (Diverge, s)
  end.

(** Merge with the following block, if adjacent: the new size and successor. *)
Definition merge_next (addr size cur : Z) : M HState Empty_set (Z * Z) :=
  if cur =? 0 then ret (size, cur)
  else
    let! end_ := lift (add64 addr size) in
    if end_ =? cur then
      let! b := deref cur in
      let! size := lift (add64 size (blk_size b)) in
      ret (size, blk_next b)
    else ret (size, cur).

(** Merge into the preceding block, if adjacent; whether it was. *)
Definition merge_prev (prev addr size next : Z) : M HState Empty_set bool :=
  if prev =? 0 then ret false
  else
    let! b := deref prev in
    let! pend := lift (add64 prev (blk_size b)) in
    if pend =? addr then
      let! psize := lift (add64 (blk_size b) size) in
      λ h, (Ok true, set_node prev (mkBlock psize next) h)
    else ret false.

Definition insert (addr size : Z) : M HState Empty_set unit :=
  if negb (addr mod ALIGN_OF_BLOCK =? 0) || (size <? SIZE_OF_BLOCK) then panic
  else
    let! h := get in
    let! (prev, cur) :=
      run_search (S (S (base.size (nodes h)))) (insert_search_body (nodes h) addr) (0, head (flist h)) in
    let! (size, next) := merge_next addr size cur in
    let! merged := merge_prev prev addr size next in
    if (merged : bool) then ret tt
    else
      (λ h, (Ok tt, set_node addr (mkBlock size next) h)) ;;!
      (if prev =? 0 then λ h, (Ok tt, set_head addr h) else set_next prev addr).

(** The search of [find_and_remove], on [(prev, cur)]: the first block with
    room, as [(prev, cur, block, alloc_start, padding)]. *)
Definition find_search_body (ns : gmap Z FreeBlock) (size align : Z) (st : Z * Z) :
    (Z * Z) + res Empty_set (option (Z * Z * FreeBlock * Z * Z)) :=
  let '(prev, cur) := st in
  if cur =? 0 then inr (Ok None)
  else
    match ns !! cur with
    | None => inr Panic
    | Some b =>
        match align_up (E:=Empty_set) cur align with
        | Ok alloc_start =>
            let padding := alloc_start - cur in
            match checked_add padding size with
            | None => inr Panic
            | Some need =>
                if need <=? blk_size b then
                  inr (Ok (Some (prev, cur, b, alloc_start, padding)))
                else inl (cur, blk_next b)
            end
        | _ => inr Panic
        end
    end.

Definition find_and_remove (size align : Z) : M HState Empty_set (option Z) :=
  let! h := get in
  let! found :=
    run_search (S (S (base.size (nodes h)))) (find_search_body (nodes h) size align)
      (0, head (flist h)) in
  match found with
  | None => ret None
  | Some (prev, cur, b, alloc_start, padding) =>
      (if prev =? 0 then λ h, (Ok tt, set_head (blk_next b) h)
       else set_next prev (blk_next b)) ;;!
      (if SIZE_OF_BLOCK <=? padding then insert cur padding else ret tt) ;;!
      let after_size := blk_size b - padding - size in
      (if SIZE_OF_BLOCK <=? after_size
       then let! at_ := lift (add64 alloc_start size) in insert at_ after_size
       else ret tt) ;;!
      ret (Some alloc_start)
  end.

(** [core::alloc::Layout]. *)
Record Layout := mkLayout { layout_size : Z; layout_align : Z }.

Definition adjust {E} (l : Layout) : res E (Z * Z) :=
  let align := Z.max (layout_align l) ALIGN_OF_BLOCK in
  let size := Z.max (layout_size l) SIZE_OF_BLOCK in
  let? size := align_up size ALIGN_OF_BLOCK in
  Ok (size, align).

(** What the heap needs from the rest of the kernel: [pmm::alloc_frame], and
    [vmm::map_page] of a fresh kernel page. *)
Class PageSource (S : Type) := {
  ps_alloc_frame : M S Empty_set (option Z);
  ps_map_page : Z → Z → M S Empty_set unit
}.

(** What it relies on: neither call panics, in any state reached by them. *)
Class PageSourceOk (S : Type) `{PageSource S} (ps_inv : S → Prop) := {
  ps_alloc_ok s : ps_inv s → ∃ o s', ps_alloc_frame s = (Ok o, s') ∧ ps_inv s';
  ps_map_ok s v p : ps_inv s → ∃ s', ps_map_page v p s = (Ok tt, s') ∧ ps_inv s'
}.

Section Growth.
Context {S : Type} `{PageSource S}.

(** Run a heap operation in the whole state. *)
Definition on_heap {A} (m : M HState Empty_set A) : M (HState * S) Empty_set A :=
  λ st, let '(r, h') := m (fst st) in (r, (h', snd st)).
Definition on_source {A} (m : M S Empty_set A) : M (HState * S) Empty_set A :=
  λ st, let '(r, s') := m (snd st) in (r, (fst st, s')).

(** The mapping loop of [grow]: [n] more pages at most, [mapped] bytes so far. *)
Fixpoint map_pages (n : nat) (start mapped : Z) : M S Empty_set Z :=
  match n with
  | O => ret mapped
  | Datatypes.S n =>
      let! o := ps_alloc_frame in
      match o with
      | None => ret mapped
      | Some phys =>
          ps_map_page (start + mapped) phys ;;!
          map_pages n start (mapped + PAGE_SIZE)
      end
  end.

Definition grow_amount (end_ min_extra : Z) : res Empty_set (option Z) :=
  let? remaining := sub64 (HEAP_START + HEAP_MAX_SIZE) end_ in
  if remaining =? 0 then Ok None
  else
    let? up := align_up min_extra PAGE_SIZE in
    let grow_by := Z.min (Z.max HEAP_GROW_STEP up) remaining in
    let? up := align_up grow_by PAGE_SIZE in
    let grow_by := Z.min up (align_down remaining PAGE_SIZE) in
    Ok (if grow_by =? 0 then None else Some grow_by).

Definition set_mapped_end (h : HState) : HState :=
  let l := flist h in
  mkH (nodes h) (mkList (head l) (if mapped_end l =? 0 then HEAP_START else mapped_end l)
     (allocated l) (total l)).

Definition add_mapped (end_ t : Z) (h : HState) : HState :=
  let l := flist h in mkH (nodes h) (mkList (head l) end_ (allocated l) t).

(** Run an update of the heap that cannot fail. *)
Definition update (f : HState → HState) : M (HState * S) Empty_set unit :=
  λ st, (Ok tt, (f (fst st), snd st)).

Definition grow (min_extra : Z) : M (HState * S) Empty_set bool :=
  update set_mapped_end ;;!
  let! start := λ st, (Ok (mapped_end (flist (fst st))), st) in
  let! amount := lift (grow_amount start min_extra) in
  match amount with
  | None => ret false
  | Some grow_by =>
      let! mapped := on_source (map_pages (Z.to_nat (grow_by / PAGE_SIZE)) start 0) in
      if mapped =? 0 then ret false
      else
        let! t := λ st, (add64 (total (flist (fst st))) mapped, st) in
        update (add_mapped (start + mapped) t) ;;!
        on_heap (insert start mapped) ;;!
        ret true
  end.

Definition add_allocated (size : Z) : M HState Empty_set unit := λ h,
  let l := flist h in
  match checked_add (allocated l) size with
  | Some a => (Ok tt, mkH (nodes h) (mkList (head l) (mapped_end l) a (total l)))
  | None => (Panic, h)
  end.

(** [GlobalAlloc::alloc]; 0 is the null pointer. *)
Definition alloc (l : Layout) : M (HState * S) Empty_set Z :=
  let! (size, align) := lift (adjust l) in
  let! o := on_heap (find_and_remove size align) in
  match o with
  | Some addr => on_heap (add_allocated size) ;;! ret addr
  | None =>
      let! extra := lift (add64 size align) in
      let! grown := grow extra in
      if (grown : bool) then
        let! o := on_heap (find_and_remove size align) in
        match o with
        | Some addr => on_heap (add_allocated size) ;;! ret addr
        | None => ret 0
        end
      else ret 0
  end.

(** [allocated.saturating_sub(size)]. *)
Definition sub_allocated (size : Z) (h : HState) : HState :=
  let f := flist h in
  mkH (nodes h) (mkList (head f) (mapped_end f) (Z.max 0 (allocated f - size)) (total f)).

Definition dealloc (ptr : Z) (l : Layout) : M (HState * S) Empty_set unit :=
  let! (size, _) := lift (adjust l) in
  update (sub_allocated size) ;;!
  on_heap (insert ptr size).

(** [heap::init]: the first growth; whether it worked. *)
Definition init : M (HState * S) Empty_set bool := grow HEAP_GROW_STEP.
End Growth.

(** ** The free list as a list of blocks

    [seg ns p l q]: from [p], the nodes of [ns] spell out the blocks [l] (as
    address and size) and lead to [q]. *)
Notation block := (Z * Z)%type.

Fixpoint seg (ns : gmap Z FreeBlock) (p : Z) (l : list block) (q : Z) : Prop :=
  match l with
  | [] => p = q
  | (a, s) :: l => p = a ∧ ∃ n, ns !! a = Some (mkBlock s n) ∧ seg ns n l q
  end.

Definition represents (h : HState) (l : list block) : Prop :=
  seg (nodes h) (head (flist h)) l 0.

(** [b] ends strictly before [c] begins: in order, and not adjacent. *)
Definition gap (b c : block) : Prop := b.1 + b.2 < c.1.

(** A block inside [[HEAP_START, hi)] that a node fits in. *)
Definition block_ok (hi : Z) (b : block) : Prop :=
  HEAP_START ≤ b.1 ∧ b.1 mod 8 = 0 ∧ b.2 mod 8 = 0 ∧ 16 ≤ b.2 ∧ b.1 + b.2 ≤ hi.

(** Sorted, disjoint, coalesced: the canonical list of a set of bytes. *)
Definition canonical (hi : Z) (l : list block) : Prop :=
  Forall (block_ok hi) l ∧ StronglySorted gap l.

Definition in_block (x : Z) (b : block) : Prop := b.1 ≤ x < b.1 + b.2.
Definition covers (l : list block) (x : Z) : Prop := Exists (in_block x) l.

Fixpoint bytes_of (l : list block) : Z :=
  match l with [] => 0 | b :: l => b.2 + bytes_of l end.

(** No byte of [b] is in [c]. *)
Definition apart (b c : block) : Prop := b.1 + b.2 ≤ c.1 ∨ c.1 + c.2 ≤ b.1.

Lemma bytes_of_app l1 l2 : bytes_of (l1 ++ l2) = bytes_of l1 + bytes_of l2.
Proof. induction l1; simpl; lia. Qed.

Lemma covers_app l1 l2 x : covers (l1 ++ l2) x ↔ covers l1 x ∨ covers l2 x.
Proof. apply Exists_app. Qed.

Lemma covers_cons b l x : covers (b :: l) x ↔ in_block x b ∨ covers l x.
Proof. apply Exists_cons. Qed.

Lemma seg_app ns p l1 l2 q :
  seg ns p (l1 ++ l2) q ↔ ∃ m, seg ns p l1 m ∧ seg ns m l2 q.
Proof.
  revert p. induction l1 as [|[a s] l1 IH]; intros p; simpl; [naive_solver|].
  setoid_rewrite IH. naive_solver.
Qed.

(** A write to a node outside the segment does not change it. *)
Lemma seg_insert ns p l q a b :
  a ∉ l.*1 → seg ns p l q → seg (<[a:=b]> ns) p l q.
Proof.
  revert p. induction l as [|[a' s] l IH]; intros p Ha; simpl; [done|].
  rewrite fmap_cons, not_elem_of_cons in Ha. destruct Ha as [Hne Ha].
  intros (-> & n & Hn & Hseg). split; [done|]. exists n.
  rewrite lookup_insert_ne by done. auto.
Qed.

Lemma canonical_app hi l1 l2 :
  canonical hi (l1 ++ l2) ↔
  canonical hi l1 ∧ canonical hi l2 ∧ ∀ b c, b ∈ l1 → c ∈ l2 → gap b c.
Proof. unfold canonical. rewrite Forall_app, StronglySorted_app. naive_solver. Qed.

Lemma canonical_cons hi b l :
  canonical hi (b :: l) ↔ block_ok hi b ∧ canonical hi l ∧ ∀ c, c ∈ l → gap b c.
Proof.
  unfold canonical. rewrite Forall_cons, StronglySorted_cons, (Forall_forall (gap b)). tauto.
Qed.

Lemma canonical_block hi l b : canonical hi l → b ∈ l → block_ok hi b.
Proof. intros [Hf _] Hb. by eapply Forall_forall in Hf. Qed.

Lemma canonical_mono hi hi' l : hi ≤ hi' → canonical hi l → canonical hi' l.
Proof.
  intros Hle [Hf Hs]. split; [|done]. eapply Forall_impl; [done|].
  unfold block_ok. intros; intuition lia.
Qed.

Lemma canonical_NoDup hi l : canonical hi l → NoDup l.*1.
Proof.
  induction l as [|b l IH]; intros Hc; [constructor|].
  apply canonical_cons in Hc as (Hb & Hl & Hg). rewrite fmap_cons. constructor; [|auto].
  rewrite list_elem_of_fmap. intros (c & E & Hcl). specialize (Hg c Hcl).
  unfold gap, block_ok in *. lia.
Qed.

(** ** [insert] *)

(** First address of a list of blocks, or null; last address, or [p]. *)
Definition first_addr (l : list block) : Z :=
  match l with [] => 0 | b :: _ => b.1 end.
Definition last_addr (p : Z) (l : list block) : Z :=
  match last l with Some b => b.1 | None => p end.

Lemma seg_first ns p l : seg ns p l 0 → p = first_addr l.
Proof. destruct l as [|[a s] l]; simpl; tauto. Qed.

Lemma last_addr_cons p a s l : last_addr p ((a, s) :: l) = last_addr a l.
Proof. unfold last_addr. rewrite last_cons. by destruct (last l). Qed.

Lemma seg_length ns p l q hi :
  canonical hi l → seg ns p l q → (length l ≤ base.size ns)%nat.
Proof.
  intros Hc Hseg. rewrite <- (length_fmap fst l), <- size_dom.
  rewrite <- (size_list_to_set (C:=gset Z)) by (exact (canonical_NoDup hi l Hc)).
  apply subseteq_size. intros a. rewrite elem_of_list_to_set, elem_of_dom.
  clear Hc. revert p Hseg. induction l as [|[a' s] l IH]; intros p; simpl; [set_solver|].
  intros (-> & n & Hn & Hseg). rewrite elem_of_cons. intros [->|Ha]; [by rewrite Hn|eauto].
Qed.

Lemma insert_search_spec ns addr l prev cur fuel :
  seg ns cur l 0 → Forall (λ b, 0 < b.1) l → (length l < fuel)%nat →
  ∃ l1 l2, l = l1 ++ l2 ∧
    loop fuel (insert_search_body ns addr) (prev, cur) =
      Some (Ok (last_addr prev l1, first_addr l2)) ∧
    Forall (λ b, b.1 < addr) l1 ∧ (∀ b, hd_error l2 = Some b → addr ≤ b.1).
Proof.
  revert prev cur fuel. induction l as [|[a s] l IH]; intros prev cur fuel Hseg Hpos Hf;
    (destruct fuel as [|fuel]; [simpl in Hf; lia|]); rewrite loop_S; simpl in Hseg.
  - subst cur. exists [], []. by repeat split.
  - destruct Hseg as (-> & n & Hn & Hseg). apply Forall_cons in Hpos as [Hp Hpos]. simpl in Hp.
    simpl. destruct (Z.eqb_spec a 0); [lia|]. simpl. destruct (Z.ltb_spec a addr).
    + rewrite Hn. destruct (IH a n fuel Hseg Hpos) as (l1 & l2 & -> & E & H1 & H2);
        [simpl in Hf; lia|].
      exists ((a, s) :: l1), l2. rewrite last_addr_cons. repeat split; try done.
      by constructor.
    + exists [], ((a, s) :: l). repeat split; [constructor|]. intros b [= <-]. done.
Qed.

(** Everything [insert] asks of the block it is given. *)
Record insertable (hi : Z) (l : list block) (b : block) : Prop := {
  ins_list : canonical hi l;
  ins_block : block_ok hi b;
  ins_hi : hi ≤ HEAP_START + HEAP_MAX_SIZE;
  ins_apart : ∀ c, c ∈ l → apart b c
}.

(** The list of the old bytes and those of [b]. *)
Definition inserted (hi : Z) (l : list block) (b : block) (l' : list block) : Prop :=
  canonical hi l' ∧ (∀ x, covers l' x ↔ covers l x ∨ in_block x b) ∧
  bytes_of l' = bytes_of l + b.2.

(** Where the search stops, [pre] lies before the new block and [post] after. *)
Lemma search_split hi pre post b :
  insertable hi (pre ++ post) b →
  Forall (λ c, c.1 < b.1) pre → (∀ c, hd_error post = Some c → b.1 ≤ c.1) →
  (∀ c, c ∈ pre → c.1 + c.2 ≤ b.1) ∧ (∀ c, c ∈ post → b.1 + b.2 ≤ c.1).
Proof.
  intros [Hc Hb _ Ha] Hpre Hpost. split; intros c Hin.
  - rewrite Forall_forall in Hpre. specialize (Hpre c Hin).
    specialize (Ha c ltac:(set_solver)). unfold apart, block_ok in *. lia.
  - assert (b.1 ≤ c.1) as Hle.
    { destruct post as [|d post]; [set_solver|]. specialize (Hpost d eq_refl).
      apply canonical_app in Hc as (_ & Hc & _). apply canonical_cons in Hc as (Hd & _ & Hg).
      apply elem_of_cons in Hin as [->|Hin]; [done|].
      specialize (Hg c Hin). unfold gap, block_ok in *. lia. }
    specialize (Ha c ltac:(set_solver)).
    assert (block_ok hi c) by (eapply canonical_block; [exact Hc|set_solver]).
    unfold apart, block_ok in *. lia.
Qed.

(** The step that merges with the following block. *)
Lemma absorb_next hi pre post b :
  insertable hi (pre ++ post) b →
  (∀ c, c ∈ pre → c.1 + c.2 ≤ b.1) → (∀ c, c ∈ post → b.1 + b.2 ≤ c.1) →
  ∃ s' post',
    ((s', post') = (b.2, post) ∧ b.1 + b.2 ≠ first_addr post ∨
     ∃ t, post = (b.1 + b.2, t) :: post' ∧ s' = b.2 + t) ∧
    insertable hi (pre ++ post') (b.1, s') ∧ (∀ c, c ∈ post' → gap (b.1, s') c) ∧
    ∀ l', inserted hi (pre ++ post') (b.1, s') l' → inserted hi (pre ++ post) b l'.
Proof.
  intros [Hc Hb Hhi Ha] Hpre Hpost. destruct b as [addr size]; simpl in *.
  pose proof Hc as (Hcp & Hcq & Hg)%canonical_app.
  destruct post as [|[a t] post].
  { exists size, []. split_and!; try done; [left; unfold block_ok, HEAP_START in *; simpl in *; split; [done|lia]|set_solver]. }
  apply canonical_cons in Hcq as (Hat & Hcq & Hgp).
  destruct (decide (addr + size = a)) as [<-|Hne].
  - exists (size + t), post. split_and!.
    + right. eauto.
    + split; [|unfold block_ok in *; simpl in *; split_and!; try lia|done|].
      * apply canonical_app. split_and!; try done. intros; apply Hg; set_solver.
      * rewrite Z.add_mod, (proj1 (proj2 (proj2 Hb))) by lia. simpl in *.
        destruct Hat as (_ & _ & -> & _). done.
      * intros c [Hcin|Hcin]%elem_of_app; [right; by apply Hpre|left; simpl].
        specialize (Hgp c Hcin). unfold gap in Hgp. simpl in Hgp. lia.
    + intros c Hcin. specialize (Hgp c Hcin). unfold gap in *. simpl in *. lia.
    + intros l' (H1 & H2 & H3). split_and!; [done| |].
      * intros x. rewrite H2, !covers_app, covers_cons. unfold in_block. simpl.
        unfold block_ok in *. simpl in *.
        destruct (decide (covers pre x)), (decide (covers post x)); intuition lia.
      * rewrite H3, !bytes_of_app. simpl. lia.
  - exists size, ((a, t) :: post). split_and!; try done; [by left|].
    intros c Hcin. unfold gap. simpl.
    apply elem_of_cons in Hcin as [->|Hcin].
    + specialize (Hpost (a, t) ltac:(set_solver)). simpl in *. lia.
    + specialize (Hgp c Hcin). specialize (Hpost (a, t) ltac:(set_solver)).
      unfold gap, block_ok in *. simpl in *. lia.
Qed.

(** Placing a block that is not adjacent to its successor: on its own, or
    grown onto the block before it. *)
Lemma place_alone hi pre post b :
  insertable hi (pre ++ post) b →
  (∀ c, c ∈ pre → gap c b) → (∀ c, c ∈ post → gap b c) →
  inserted hi (pre ++ post) b (pre ++ b :: post).
Proof.
  intros [Hc Hb _ _] Hpre Hpost. pose proof Hc as (Hcp & Hcq & Hg)%canonical_app.
  split_and!.
  - apply canonical_app. split_and!; [done|by apply canonical_cons|].
    intros c d Hcin [->|Hd]%elem_of_cons; auto.
  - intros x. rewrite !covers_app, covers_cons. tauto.
  - rewrite !bytes_of_app. simpl. lia.
Qed.

Lemma place_joined hi pre post a s b :
  insertable hi ((pre ++ [(a, s)]) ++ post) b → a + s = b.1 →
  (∀ c, c ∈ post → gap b c) →
  inserted hi ((pre ++ [(a, s)]) ++ post) b (pre ++ (a, s + b.2) :: post).
Proof.
  intros [Hc Hb _ _] E Hpost. destruct b as [addr size]; simpl in *.
  rewrite <- app_assoc in Hc. simpl in Hc.
  pose proof Hc as (Hcp & Hcq & Hg)%canonical_app.
  apply canonical_cons in Hcq as (Has & Hcq & Hgs). split_and!.
  - apply canonical_app. split_and!; [done| |].
    + apply canonical_cons. split_and!; [|done|].
      * unfold block_ok in *; simpl in *. split_and!; try lia.
        rewrite Z.add_mod by lia. destruct Has as (_ & _ & -> & _).
        destruct Hb as (_ & _ & -> & _). done.
      * intros c Hcin. specialize (Hpost c Hcin). unfold gap in *. simpl in *. lia.
    + intros c d Hcin [->|Hd]%elem_of_cons; [|apply Hg; set_solver].
      specialize (Hg c (a, s) Hcin ltac:(set_solver)). done.
  - intros x. rewrite !covers_app, !covers_cons. unfold in_block. simpl.
    unfold block_ok in *. simpl in *.
    assert (covers [] x ↔ False) as -> by apply Exists_nil.
    destruct (decide (covers pre x)), (decide (covers post x)); intuition lia.
  - rewrite !bytes_of_app. simpl. lia.
Qed.

(** [insert] keeps the counters. *)
Definition same_counters (h h' : HState) : Prop :=
  mapped_end (flist h') = mapped_end (flist h) ∧
  allocated (flist h') = allocated (flist h) ∧ total (flist h') = total (flist h).

Lemma canonical_pos hi l : canonical hi l → Forall (λ b, 0 < b.1) l.
Proof.
  intros [Hf _]. eapply Forall_impl; [done|]. unfold block_ok, HEAP_START. intros; lia.
Qed.

Lemma block_end_fits hi b : block_ok hi b → hi ≤ HEAP_START + HEAP_MAX_SIZE →
  0 < b.1 ∧ b.1 + b.2 ≤ u64_max ∧ b.2 ≤ HEAP_MAX_SIZE.
Proof. unfold block_ok, HEAP_START, HEAP_MAX_SIZE, u64_max. lia. Qed.

(** [merge_next] computes the pair that [absorb_next] describes. *)
Lemma merge_next_spec h hi pre post b :
  insertable hi (pre ++ post) b → seg (nodes h) (first_addr post) post 0 →
  (∀ c, c ∈ pre → c.1 + c.2 ≤ b.1) → (∀ c, c ∈ post → b.1 + b.2 ≤ c.1) →
  ∃ s' post',
    merge_next b.1 b.2 (first_addr post) h = (Ok (s', first_addr post'), h) ∧
    seg (nodes h) (first_addr post') post' 0 ∧ suffix post' post ∧
    insertable hi (pre ++ post') (b.1, s') ∧ (∀ c, c ∈ post' → gap (b.1, s') c) ∧
    ∀ l', inserted hi (pre ++ post') (b.1, s') l' → inserted hi (pre ++ post) b l'.
Proof.
  intros Hins Hseg Hpre Hpost. pose proof Hins as [Hc Hb Hhi _].
  destruct (block_end_fits hi b Hb Hhi) as (? & ? & ?).
  destruct (absorb_next hi pre post b Hins Hpre Hpost) as (s' & post' & Hcase & HI & Hg & Hi).
  exists s', post'. unfold merge_next.
  destruct Hcase as [[[= -> ->] Hne]|(t & -> & ->)].
  - split_and!; try done. destruct (Z.eqb_spec (first_addr post) 0) as [->|]; [done|].
    unfold bind, lift. rewrite add64_ok by done. by rewrite (proj2 (Z.eqb_neq _ _) Hne).
  - simpl in *. destruct Hseg as (_ & n & Hn & Hseg).
    pose proof (seg_first _ _ _ Hseg) as ->. split_and!; try done; [|by eexists [_]].
    assert (block_ok hi (b.1 + b.2, t)) as Ht by (eapply canonical_block; [exact Hc|set_solver]).
    destruct (block_end_fits hi _ Ht Hhi) as (? & ? & ?). simpl in *.
    destruct (Z.eqb_spec (b.1 + b.2) 0); [lia|]. unfold bind, lift, deref.
    rewrite add64_ok by done. rewrite Z.eqb_refl, Hn. simpl.
    rewrite add64_ok; [done|]. unfold HEAP_MAX_SIZE, u64_max in *. lia.
Qed.

(** Where a block is in the list decides what its neighbours' nodes are. *)
Lemma seg_snoc ns p l a s q :
  seg ns p (l ++ [(a, s)]) q ↔ seg ns p l a ∧ ns !! a = Some (mkBlock s q).
Proof.
  rewrite seg_app. simpl. split.
  - intros (m & Hl & -> & n & Hn & ->). done.
  - intros [Hl Hn]. exists a. eauto.
Qed.

Lemma canonical_fresh hi l b : insertable hi l b → b.1 ∉ l.*1.
Proof.
  intros [Hc Hb _ Ha]. rewrite list_elem_of_fmap. intros (c & E & Hin).
  specialize (Ha c Hin). pose proof (canonical_block _ _ _ Hc Hin).
  unfold apart, block_ok in *. lia.
Qed.

(** Linking [post] behind a node at [a] that ends the segment [pre]. *)
Lemma relink ns p pre a s post n :
  a ∉ pre.*1 → a ∉ post.*1 → seg ns p pre a → seg ns n post 0 →
  seg (<[a := mkBlock s n]> ns) p (pre ++ (a, s) :: post) 0.
Proof.
  intros Hpre Hpost H1 H2. rewrite seg_app. exists a. split; [by apply seg_insert|].
  simpl. split; [done|]. exists n. split; [by rewrite lookup_insert_eq|by apply seg_insert].
Qed.

Lemma last_addr_snoc p l b : last_addr p (l ++ [b]) = b.1.
Proof. unfold last_addr. by rewrite last_snoc. Qed.

(** The end of [insert], after the search and [merge_next]. *)
Definition insert_tail (prev addr size next : Z) : M HState Empty_set unit :=
  let! merged := merge_prev prev addr size next in
  if (merged : bool) then ret tt
  else
    (λ h, (Ok tt, set_node addr (mkBlock size next) h)) ;;!
    (if prev =? 0 then λ h, (Ok tt, set_head addr h) else set_next prev addr).

Lemma insert_tail_spec h hi pre post b q :
  insertable hi (pre ++ post) b →
  seg (nodes h) (head (flist h)) pre q → seg (nodes h) (first_addr post) post 0 →
  (∀ c, c ∈ pre → c.1 + c.2 ≤ b.1) → (∀ c, c ∈ post → gap b c) →
  ∃ h' l', insert_tail (last_addr 0 pre) b.1 b.2 (first_addr post) h = (Ok tt, h') ∧
    represents h' l' ∧ inserted hi (pre ++ post) b l' ∧ same_counters h h'.
Proof.
  intros Hins H1 H2 Hpre Hpost. pose proof Hins as [Hc Hb Hhi _].
  destruct (block_end_fits hi b Hb Hhi) as (? & ? & ?).
  assert (Hfresh := canonical_fresh _ _ _ Hins). rewrite fmap_app, not_elem_of_app in Hfresh.
  destruct Hfresh as [Hf1 Hf2].
  destruct b as [addr size]. simpl in *.
  destruct pre as [|[a s] pre _] using rev_ind.
  { eexists _, ((addr, size) :: post). split; [reflexivity|]. split_and!; try done.
    - unfold represents. simpl. split; [done|]. exists (first_addr post).
      split; [by rewrite lookup_insert_eq|by apply seg_insert].
    - apply (place_alone hi []); try done. set_solver. }
  rewrite last_addr_snoc. apply seg_snoc in H1 as [H1 Ha]. simpl.
  assert (block_ok hi (a, s)) as Has by (eapply canonical_block; [exact Hc|set_solver]).
  destruct (block_end_fits hi _ Has Hhi) as (? & ? & ?). simpl in *.
  assert (Hnd := canonical_NoDup _ _ Hc).
  rewrite fmap_app, fmap_app in Hnd. simpl in Hnd. rewrite <- app_assoc in Hnd.
  apply NoDup_app in Hnd as (_ & Hnd1 & Hnd2). simpl in Hnd2. apply NoDup_cons in Hnd2 as [Hnd2 _].
  assert (a ∉ pre.*1) by (intros Hin; apply (Hnd1 a Hin); set_solver).
  unfold insert_tail, merge_prev, bind, lift, deref. rewrite (proj2 (Z.eqb_neq a 0)) by lia.
  rewrite Ha. simpl. rewrite add64_ok by lia. destruct (Z.eqb_spec (a + s) addr) as [E|Hne].
  - rewrite add64_ok by (unfold HEAP_MAX_SIZE, u64_max in *; lia).
    eexists _, (pre ++ (a, s + size) :: post). split; [reflexivity|]. split_and!; try done.
    + by apply relink.
    + apply (place_joined hi pre post a s (addr, size)); done.
  - unfold set_next. simpl. rewrite lookup_insert_ne, Ha; [|rewrite fmap_app in Hf1; set_solver].
    eexists _, ((pre ++ [(a, s)]) ++ (addr, size) :: post). split; [reflexivity|].
    split_and!; try done.
    + unfold represents. simpl. rewrite <- app_assoc. simpl.
      rewrite fmap_app in Hf1. apply relink; [done|set_solver| |].
      * apply seg_insert; [set_solver|done].
      * simpl. split; [done|]. exists (first_addr post).
        split; [by rewrite lookup_insert_eq|by apply seg_insert].
    + apply place_alone; try done. intros c Hcin. unfold gap. simpl.
      specialize (Hpre c Hcin) as Hle. apply elem_of_app in Hcin as [Hcin|Hcin].
      * assert (gap c (a, s)) as Hg.
        { apply canonical_app in Hc as (Hc & _). apply canonical_app in Hc as (_ & _ & Hg).
          apply Hg; set_solver. }
        specialize (Hpre (a, s) ltac:(set_solver)). unfold gap, block_ok in *. simpl in *. lia.
      * apply list_elem_of_singleton in Hcin as ->. simpl in *. lia.
Qed.

Lemma insert_spec h hi l b :
  represents h l → insertable hi l b →
  ∃ h' l', insert b.1 b.2 h = (Ok tt, h') ∧ represents h' l' ∧
    inserted hi l b l' ∧ same_counters h h'.
Proof.
  intros Hrep Hins. pose proof Hins as [Hc Hb Hhi _].
  pose proof (seg_length _ _ _ _ _ Hc Hrep) as Hlen.
  destruct (insert_search_spec (nodes h) b.1 l 0 (head (flist h)) (S (S (base.size (nodes h))))
    Hrep (canonical_pos _ _ Hc) ltac:(lia)) as (pre & post & -> & E & H1 & H2).
  destruct (search_split hi pre post b Hins H1 H2) as [Hpre Hpost].
  apply seg_app in Hrep as (q & Hs1 & Hs2). pose proof (seg_first _ _ _ Hs2) as ->.
  destruct (merge_next_spec h hi pre post b Hins Hs2 Hpre Hpost)
    as (s' & post' & Em & Hs3 & _ & Hins' & Hg & Himp).
  destruct (insert_tail_spec h hi pre post' (b.1, s') _ Hins' Hs1 Hs3 Hpre Hg)
    as (h' & l' & Et & Hrep' & Hi & Hsame).
  exists h', l'. split; [|auto].
  unfold insert. destruct Hb as (_ & Hb1 & _ & Hb2 & _). unfold ALIGN_OF_BLOCK, SIZE_OF_BLOCK.
  rewrite Hb1, (proj2 (Z.ltb_ge _ _) Hb2). simpl.
  unfold bind at 1. simpl. unfold bind at 1, run_search. rewrite E.
  unfold bind at 1. rewrite Em. exact Et.
Qed.

(** ** [find_and_remove] *)

Definition round_up (v a : Z) : Z := (v + a - 1) / a * a.

(** The aligned start of an allocation in [b], and whether it fits there. *)
Definition fits (size align : Z) (b : block) : Prop :=
  round_up b.1 align - b.1 + size ≤ b.2.

#[global] Instance fits_dec size align b : Decision (fits size align b).
Proof. unfold fits. apply _. Defined.

(** A size and alignment as [adjust] gives them. *)
Definition request_ok (size align : Z) : Prop :=
  16 ≤ size < 2^63 + 8 ∧ size mod 8 = 0 ∧ ∃ k, 3 ≤ k ≤ 30 ∧ align = 2^k.

Lemma request_align size align : request_ok size align → 8 ≤ align ≤ 2^30 ∧ align mod 8 = 0.
Proof.
  intros (_ & _ & k & Hk & ->). split.
  - split; [apply (Z.pow_le_mono_r 2 3 k); lia|apply Z.pow_le_mono_r; lia].
  - replace k with (3 + (k - 3)) by lia. rewrite Z.pow_add_r by lia.
    rewrite Z.mul_comm. by apply Z.mod_mul.
Qed.

Lemma round_up_bounds v a : 0 < a → v ≤ round_up v a < v + a.
Proof. apply div_round_up. Qed.

Lemma round_up_mod v a : 0 < a → round_up v a mod a = 0.
Proof. intros. unfold round_up. apply Z.mod_mul. lia. Qed.

Lemma mod_mod_multiple x a : 0 < a → a mod 8 = 0 → x mod a = 0 → x mod 8 = 0.
Proof.
  intros Ha H1 H2. apply Z.mod_divide in H1 as [c ->]; [|lia].
  apply Z.mod_divide in H2 as [d ->]; [|lia]. rewrite Z.mul_assoc. by apply Z.mod_mul.
Qed.

Lemma find_search_spec ns hi size align l prev cur fuel :
  request_ok size align → canonical hi l → hi ≤ HEAP_START + HEAP_MAX_SIZE →
  seg ns cur l 0 → (length l < fuel)%nat →
  (loop fuel (find_search_body ns size align) (prev, cur) = Some (Ok None) ∧
   Forall (λ b, ¬ fits size align b) l) ∨
  ∃ pre a s n post, l = pre ++ (a, s) :: post ∧
    Forall (λ b, ¬ fits size align b) pre ∧ fits size align (a, s) ∧
    ns !! a = Some (mkBlock s n) ∧
    loop fuel (find_search_body ns size align) (prev, cur) =
      Some (Ok (Some (last_addr prev pre, a, mkBlock s n, round_up a align, round_up a align - a))).
Proof.
  intros Hreq. pose proof (request_align _ _ Hreq) as [Hal _].
  revert prev cur fuel. induction l as [|[a s] l IH]; intros prev cur fuel Hc Hhi Hseg Hf;
    (destruct fuel as [|fuel]; [simpl in Hf; lia|]); rewrite loop_S; simpl in Hseg.
  { subst. left. by split; [|constructor]. }
  destruct Hseg as (-> & n & Hn & Hseg). apply canonical_cons in Hc as (Hb & Hc & _).
  destruct (block_end_fits hi _ Hb Hhi) as (? & ? & ?). simpl in *.
  rewrite (proj2 (Z.eqb_neq a 0)), Hn by lia.
  destruct Hreq as (Hsz & _ & k & Hk & ->). unfold block_ok, HEAP_START, HEAP_MAX_SIZE in *.
  simpl in Hb. rewrite align_up_spec by (unfold u64_max; lia). fold (round_up a (2^k)).
  pose proof (round_up_bounds a (2^k) ltac:(lia)).
  rewrite checked_add_Some by (unfold u64_max; lia). simpl.
  destruct (Z.leb_spec (round_up a (2 ^ k) - a + size) s).
  - right. exists [], a, s, n, l. split_and!; try done.
  - destruct (IH a n fuel Hc Hhi Hseg ltac:(simpl in *; lia))
      as [[E Hall]|(pre & a' & s' & n' & post & -> & Hpre & Hfit & Hn' & E)].
    + left. split; [done|]. constructor; [unfold fits; simpl; lia|done].
    + right. exists ((a, s) :: pre), a', s', n', post. rewrite last_addr_cons.
      split_and!; try done. constructor; [unfold fits; simpl; lia|done].
Qed.

(** A block none of whose bytes is covered lies apart from every block. *)
Lemma uncovered_apart hi l b :
  canonical hi l → 0 < b.2 → (∀ x, in_block x b → ¬ covers l x) →
  ∀ c, c ∈ l → apart b c.
Proof.
  intros Hc Hb Hun c Hin. pose proof (canonical_block _ _ _ Hc Hin) as Hcb.
  destruct (decide (apart b c)) as [|Hov]; [done|exfalso].
  apply (Hun (Z.max b.1 c.1)); unfold apart, block_ok, in_block in *; [lia|].
  apply Exists_exists. exists c. split; [done|]. unfold in_block. lia.
Qed.

Lemma canonical_gap_uncovered hi pre a s post x :
  canonical hi (pre ++ (a, s) :: post) → a ≤ x < a + s → ¬ covers (pre ++ post) x.
Proof.
  intros Hc Hx. apply canonical_app in Hc as (_ & Hc & Hg).
  apply canonical_cons in Hc as (Has & _ & Hg2).
  rewrite covers_app. unfold covers. rewrite !Exists_exists.
  intros [(c & Hin & Hxc)|(c & Hin & Hxc)].
  - specialize (Hg c (a, s) Hin ltac:(set_solver)). unfold gap, in_block in *. simpl in *. lia.
  - specialize (Hg2 c Hin). unfold gap, in_block in *. simpl in *. lia.
Qed.

(** [insert_spec] for a block given by its uncovered bytes, and its effect on
    the covered bytes only. *)
Lemma insert_uncovered h hi l b :
  represents h l → canonical hi l → hi ≤ HEAP_START + HEAP_MAX_SIZE → block_ok hi b →
  (∀ x, in_block x b → ¬ covers l x) →
  ∃ h' l', insert b.1 b.2 h = (Ok tt, h') ∧ represents h' l' ∧
    inserted hi l b l' ∧ same_counters h h'.
Proof.
  intros Hrep Hc Hhi Hb Hun. apply insert_spec; [done|]. split; try done.
  eapply uncovered_apart; [done| |done]. unfold block_ok in Hb. lia.
Qed.

(** Unlinking the block found. *)
Lemma unlink_spec h hi pre a s n post :
  canonical hi (pre ++ (a, s) :: post) → represents h (pre ++ (a, s) :: post) →
  nodes h !! a = Some (mkBlock s n) →
  ∃ h', (if last_addr 0 pre =? 0 then λ h, (Ok tt, set_head n h)
         else set_next (last_addr 0 pre) n) h = (Ok (E:=Empty_set) tt, h') ∧
    represents h' (pre ++ post) ∧ same_counters h h'.
Proof.
  intros Hc Hrep Hn. unfold represents in *. apply seg_app in Hrep as (q & H1 & H2).
  simpl in H2. destruct H2 as (-> & n' & Hn' & H2). rewrite Hn in Hn'. injection Hn' as <-.
  pose proof (canonical_pos _ _ Hc) as Hpos.
  destruct pre as [|[a' s'] pre _] using rev_ind.
  { eexists. split; [reflexivity|]. split; [|done]. done. }
  rewrite last_addr_snoc. simpl. apply seg_snoc in H1 as [H1 Ha'].
  rewrite Forall_forall in Hpos. specialize (Hpos (a', s') ltac:(set_solver)). simpl in Hpos.
  rewrite (proj2 (Z.eqb_neq a' 0)) by lia. unfold set_next. rewrite Ha'.
  eexists. split; [reflexivity|]. split; [|done]. simpl. rewrite <- app_assoc.
  assert (Hnd := canonical_NoDup _ _ Hc). rewrite <- app_assoc in Hnd.
  rewrite fmap_app in Hnd. apply NoDup_app in Hnd as (_ & Hnd1 & Hnd2).
  simpl in Hnd2. apply NoDup_cons in Hnd2 as [Hnd2 _].
  apply relink; try done; [intros Hin; apply (Hnd1 a' Hin)|]; set_solver.
Qed.

(** Giving back one leftover piece [b] of the block, if a node fits in it. *)
Lemma give_back_spec h hi l b :
  represents h l → canonical hi l → hi ≤ HEAP_START + HEAP_MAX_SIZE →
  HEAP_START ≤ b.1 → b.1 mod 8 = 0 → b.2 mod 8 = 0 → 0 ≤ b.2 → b.1 + b.2 ≤ hi →
  (∀ x, in_block x b → ¬ covers l x) →
  ∃ h' l', (if SIZE_OF_BLOCK <=? b.2 then insert b.1 b.2 else ret tt) h = (Ok tt, h') ∧
    represents h' l' ∧ canonical hi l' ∧ same_counters h h' ∧
    (∀ x, covers l' x ↔ covers l x ∨ (16 ≤ b.2 ∧ in_block x b)) ∧
    bytes_of l' = bytes_of l + (if decide (16 ≤ b.2) then b.2 else 0).
Proof.
  intros Hrep Hc Hhi H1 H2 H3 H4 H5 Hun. unfold SIZE_OF_BLOCK.
  destruct (Z.leb_spec 16 b.2).
  - destruct (insert_uncovered h hi l b) as (h' & l' & E & Hrep' & (Hc' & Hcov & Hby) & Hsame);
      try done.
    exists h', l'. split_and!; try done; try apply Hc'; try apply Hsame.
    + intros x. rewrite Hcov. naive_solver.
    + by rewrite decide_True.
  - exists h, l. split_and!; try done; try apply Hc.
    + intros x. intuition lia.
    + rewrite decide_False by lia. lia.
Qed.

(** What an allocation takes out of the free list: the block [[from, to)]
    around the memory returned at [start], less than a node wider on each side. *)
Record carved (hi : Z) (l : list block) (size align start from to : Z) (l' : list block) :
    Prop := {
  cv_list : canonical hi l';
  cv_align : start mod align = 0;
  cv_from : from ≤ start ∧ start - from < 16;
  cv_to : start + size ≤ to ∧ to - (start + size) < 16;
  cv_taken : ∀ x, from ≤ x < to → covers l x;
  cv_rest : ∀ x, covers l' x ↔ covers l x ∧ ¬ (from ≤ x < to);
  cv_bytes : bytes_of l' = bytes_of l - (to - from)
}.

(** The two leftovers of the block [(a, s)], given back. *)
Lemma carve_spec h hi pre a s post size align :
  request_ok size align → canonical hi (pre ++ (a, s) :: post) →
  hi ≤ HEAP_START + HEAP_MAX_SIZE → fits size align (a, s) →
  represents h (pre ++ post) →
  let start := round_up a align in
  let after := s - (start - a) - size in
  ∃ h' l' from to,
    ((if SIZE_OF_BLOCK <=? start - a then insert a (start - a) else ret tt) ;;!
     (if SIZE_OF_BLOCK <=? after
      then let! at_ := lift (add64 start size) in insert at_ after else ret tt) ;;!
     ret (Some start)) h = (Ok (Some start), h') ∧
    represents h' l' ∧ same_counters h h' ∧
    carved hi (pre ++ (a, s) :: post) size align start from to l'.
Proof.
  intros Hreq Hc Hhi Hfit Hrep start after.
  pose proof (request_align _ _ Hreq) as [Hal Hal8]. destruct Hreq as ([Hs16 _] & Hs8 & _).
  assert (Has : block_ok hi (a, s)) by (eapply canonical_block; [exact Hc|set_solver]).
  destruct (block_end_fits hi _ Has Hhi) as (Hapos & Hend & _).
  destruct Has as (Ha & Ha8 & Hsz8 & Hsz & Hhi'). unfold fits in Hfit. simpl in *. fold start in Hfit.
  pose proof (round_up_bounds a align ltac:(lia)) as Hst. fold start in Hst.
  assert (Hstm : start mod align = 0) by (apply round_up_mod; lia).
  assert (Hst8 : start mod 8 = 0) by (apply (mod_mod_multiple start align); lia).
  assert (Hc' : canonical hi (pre ++ post)).
  { apply canonical_app in Hc as (? & Hc & Hg). apply canonical_cons in Hc as (_ & ? & _).
    apply canonical_app. split_and!; try done. intros; apply Hg; set_solver. }
  assert (Hafter : after = s - (start - a) - size) by done. clearbody after start.
  assert (Hun := λ x, canonical_gap_uncovered hi pre a s post x Hc).
  destruct (give_back_spec h hi (pre ++ post) (a, start - a))
    as (h1 & l1 & E1 & Hrep1 & Hc1 & Hsame1 & Hcov1 & Hby1); try done; simpl; try lia.
  { Z.div_mod_to_equations. lia. }
  { intros x Hx. apply Hun. unfold in_block in Hx. simpl in Hx. lia. }
  destruct (give_back_spec h1 hi l1 (start + size, after))
    as (h2 & l2 & E2 & Hrep2 & Hc2 & Hsame2 & Hcov2 & Hby2); try done; simpl; try lia.
  { Z.div_mod_to_equations. lia. }
  { Z.div_mod_to_equations. lia. }
  { intros x Hx. rewrite Hcov1. unfold in_block in *. simpl in *.
    intros [Hx'|Hx']; [|lia]. revert Hx'. apply Hun. lia. }
  exists h2, l2, (if decide (16 ≤ start - a) then start else a),
    (if decide (16 ≤ after) then start + size else a + s).
  split_and!; try done.
  - unfold bind, lift. simpl in E1. rewrite E1.
    simpl in E2. destruct (SIZE_OF_BLOCK <=? after); [rewrite add64_ok by lia|]; by rewrite E2.
  - unfold same_counters in *. intuition congruence.
  - split; try done.
    + repeat case_decide; lia.
    + repeat case_decide; lia.
    + intros x Hx. rewrite covers_app, covers_cons. right; left. unfold in_block. simpl.
      repeat case_decide; lia.
    + intros x. rewrite Hcov2, Hcov1, !covers_app, covers_cons. specialize (Hun x).
      rewrite covers_app in Hun. unfold in_block. simpl.
      clear - Hun Hst Hfit Hafter Hs16. split.
      * intros [[[Hp|Hp]|Hx]|Hx];
          (split; [solve [tauto|right; left; lia]|intros Hin]);
          try (apply Hun; [repeat case_decide; lia|tauto]); repeat case_decide; lia.
      * intros [[Hp|[Hx|Hp]] Hnot]; [tauto| |tauto].
        destruct (decide (x < start)); [left; right|right]; repeat case_decide; lia.
    + rewrite Hby2, Hby1, !bytes_of_app. simpl. repeat case_decide; lia.
Qed.

Lemma find_and_remove_spec h hi l size align :
  represents h l → canonical hi l → hi ≤ HEAP_START + HEAP_MAX_SIZE → request_ok size align →
  (find_and_remove size align h = (Ok None, h) ∧ Forall (λ b, ¬ fits size align b) l) ∨
  ∃ pre b post h' l' from to,
    l = pre ++ b :: post ∧ Forall (λ b, ¬ fits size align b) pre ∧ fits size align b ∧
    find_and_remove size align h = (Ok (Some (round_up b.1 align)), h') ∧
    represents h' l' ∧ same_counters h h' ∧
    carved hi l size align (round_up b.1 align) from to l'.
Proof.
  intros Hrep Hc Hhi Hreq. pose proof (seg_length _ _ _ _ _ Hc Hrep) as Hlen.
  unfold find_and_remove. unfold bind at 1, get. cbn beta iota.
  destruct (find_search_spec (nodes h) hi size align l 0 (head (flist h))
    (S (S (base.size (nodes h)))) Hreq Hc Hhi Hrep ltac:(lia))
    as [[E Hall]|(pre & a & s & n & post & -> & Hpre & Hfit & Hn & E)].
  { left. split; [|done]. unfold bind, run_search. by rewrite E. }
  right. destruct (unlink_spec h hi pre a s n post Hc Hrep Hn) as (h1 & E1 & Hrep1 & Hs1).
  destruct (carve_spec h1 hi pre a s post size align Hreq Hc Hhi Hfit Hrep1)
    as (h2 & l2 & from & to & E2 & Hrep2 & Hs2 & Hcv).
  exists pre, (a, s), post, h2, l2, from, to. split_and!; try done.
  - unfold bind at 1, run_search. rewrite E. unfold bind at 1. cbn [blk_next blk_size].
    rewrite (bind_ok _ _ _ _ _ E1). exact E2.
  - unfold same_counters in *. intuition congruence.
Qed.

(** ** The heap's invariant

    [live] are the blocks on loan (address and adjusted size), [lost] the bytes
    of the slivers that allocations left out of the free list. *)
Definition HEAP_END : Z := HEAP_START + HEAP_MAX_SIZE.

Definition heap_end (h : HState) : Z :=
  if mapped_end (flist h) =? 0 then HEAP_START else mapped_end (flist h).

Record heap_inv (h : HState) (live : list block) (lost : Z) : Prop := {
  hv_end : HEAP_START ≤ heap_end h ≤ HEAP_END ∧ heap_end h mod PAGE_SIZE = 0;
  hv_total : total (flist h) = heap_end h - HEAP_START;
  hv_live : Forall (block_ok (heap_end h)) live;
  hv_disjoint : StronglySorted apart live;
  hv_allocated : allocated (flist h) = bytes_of live;
  hv_lost : 0 ≤ lost;
  hv_free : ∃ l, represents h l ∧ canonical (heap_end h) l ∧
    (∀ b x, b ∈ live → in_block x b → ¬ covers l x) ∧
    bytes_of l + bytes_of live + lost = total (flist h)
}.

Lemma heap_inv_new : heap_inv (mkH ∅ FreeList_new) [] 0.
Proof.
  split; try done; try constructor; try constructor.
  - exists []. split_and!; try done; [split; constructor|set_solver].
Qed.

Lemma bytes_of_nonneg hi l : Forall (block_ok hi) l → 0 ≤ bytes_of l.
Proof.
  induction 1 as [|b l Hb _ IH]; simpl; [lia|]. unfold block_ok in Hb. lia.
Qed.

Lemma covers_block hi l x : canonical hi l → covers l x → HEAP_START ≤ x < hi.
Proof.
  intros Hc (b & Hin & Hx)%Exists_exists. pose proof (canonical_block _ _ _ Hc Hin) as Hb.
  unfold block_ok, in_block in *. lia.
Qed.

Lemma heap_inv_allocated h live lost : heap_inv h live lost →
  0 ≤ allocated (flist h) ≤ total (flist h) ∧ total (flist h) ≤ HEAP_MAX_SIZE.
Proof.
  intros [He Ht Hl _ Ha Hlost (l & _ & [Hf _] & _ & Hb)].
  pose proof (bytes_of_nonneg _ _ Hl). pose proof (bytes_of_nonneg _ _ Hf).
  unfold HEAP_END in *. lia.
Qed.

(** The memory returned by a search is apart from everything on loan. *)
Lemma take_block h live lost size align h' l l' start from to :
  heap_inv h live lost → represents h l → canonical (heap_end h) l →
  (∀ b x, b ∈ live → in_block x b → ¬ covers l x) →
  bytes_of l + bytes_of live + lost = total (flist h) →
  request_ok size align → carved (heap_end h) l size align start from to l' →
  represents h' l' → same_counters h h' →
  ∃ h'' lost', add_allocated size h' = (Ok tt, h'') ∧
    heap_inv h'' ((start, size) :: live) lost' ∧ lost ≤ lost' < lost + 32.
Proof.
  intros Hinv Hrep Hc Hun Hsum Hreq [Hc' Hal [Hf1 Hf2] [Ht1 Ht2] Htk Hrest Hby] Hrep' (Em & Ea & Et).
  pose proof (request_align _ _ Hreq) as [Hal1 Hal8]. destruct Hreq as (Hs & Hs8 & _).
  destruct (heap_inv_allocated _ _ _ Hinv) as [Hab Htot].
  pose proof (covers_block _ _ _ Hc (Htk from ltac:(lia))) as Hfrom.
  pose proof (covers_block _ _ _ Hc (Htk (to - 1) ltac:(lia))) as Hto.
  assert (Hblk : block_ok (heap_end h) (start, size)).
  { split_and!; simpl; try lia. apply (mod_mod_multiple start align); lia. }
  pose proof (hv_end _ _ _ Hinv) as Hend. unfold HEAP_END in Hend.
  eexists _, (lost + (to - from - size)). split; [|split; [|lia]].
  { unfold add_allocated. rewrite Ea, checked_add_Some; [reflexivity|].
    unfold block_ok, HEAP_START, HEAP_MAX_SIZE, u64_max in *. simpl in *. lia. }
  assert (Eend : heap_end h' = heap_end h) by (unfold heap_end; by rewrite Em).
  destruct Hinv as [Hv1 Hv2 Hv3 Hv4 Hv5 Hv6 _].
  split; simpl; unfold heap_end in *; simpl; rewrite ?Em, ?Ea, ?Et; try done; try lia.
  - by constructor.
  - constructor; [done|]. apply Forall_forall. intros b Hb.
    destruct (decide (apart (start, size) b)) as [|Hov]; [done|exfalso].
    rewrite Forall_forall in Hv3. specialize (Hv3 b Hb).
    apply (Hun b (Z.max start b.1) Hb); unfold apart, in_block, block_ok in *; simpl in *; [lia|].
    apply Htk. lia.
  - exists l'. split_and!; try done; try apply Hc'; [|lia].
    intros b x Hb Hx Hcov. apply Hrest in Hcov as [Hcov Hnot].
    apply elem_of_cons in Hb as [->|Hb]; [|by apply (Hun b x)].
    unfold in_block in Hx. simpl in Hx. lia.
Qed.

(** Two blocks of a canonical list are the same or have a gap between them. *)
Lemma canonical_pair hi l b c :
  canonical hi l → b ∈ l → c ∈ l → b = c ∨ gap b c ∨ gap c b.
Proof.
  induction l as [|d l IH]; intros Hc Hb Hcl; [set_solver|].
  apply canonical_cons in Hc as (_ & Hc & Hg).
  apply elem_of_cons in Hb as [->|Hb], Hcl as [->|Hcl]; auto.
Qed.

(** A range that is covered without a gap lies in one block. *)
Lemma covered_range hi l u v :
  canonical hi l → u < v → (∀ x, u ≤ x < v → covers l x) →
  ∃ b, b ∈ l ∧ b.1 ≤ u ∧ v ≤ b.1 + b.2.
Proof.
  intros Hc Huv Hcov. destruct (proj1 (Exists_exists _ _) (Hcov u ltac:(lia))) as (b & Hb & Hx).
  exists b. split; [done|]. unfold in_block in Hx. split; [lia|].
  destruct (Z.le_gt_cases v (b.1 + b.2)); [done|exfalso].
  destruct (proj1 (Exists_exists _ _) (Hcov (b.1 + b.2) ltac:(lia))) as (c & Hcl & Hy).
  unfold in_block in Hy.
  destruct (canonical_pair _ _ b c Hc Hb Hcl) as [->|[Hg|Hg]]; unfold gap in *; lia.
Qed.

(** ** Growing *)
Lemma grow_amount_spec e min_extra :
  HEAP_START ≤ e ≤ HEAP_END → e mod PAGE_SIZE = 0 → 0 ≤ min_extra < 2^63 + 2^31 →
  ∃ o, grow_amount e min_extra = Ok o ∧
    match o with
    | None => e = HEAP_END
    | Some g => 0 < g ≤ HEAP_END - e ∧ g mod PAGE_SIZE = 0 ∧
                (min_extra ≤ HEAP_END - e → min_extra ≤ g)
    end.
Proof.
  intros He Hm Hx. unfold grow_amount. fold HEAP_END. rewrite sub64_ok by lia. simpl.
  change PAGE_SIZE with (2^12) in *.
  assert (Hrm : (HEAP_END - e) mod 2^12 = 0).
  { by rewrite Zminus_mod, Hm. }
  set (r := HEAP_END - e) in *.
  assert (0 ≤ r ≤ HEAP_MAX_SIZE) by (unfold HEAP_END in *; lia).
  destruct (Z.eqb_spec r 0); [exists None; split; [done|lia]|].
  rewrite align_up_spec by (unfold u64_max; lia). simpl res_bind.
  set (up := (min_extra + 2^12 - 1) / 2^12 * 2^12).
  assert (min_extra ≤ up) by (apply div_round_up; lia).
  assert (up mod 2^12 = 0) by (apply Z.mod_mul; lia).
  assert (0 ≤ up) by lia.
  set (g := Z.min (Z.max HEAP_GROW_STEP up) r).
  assert (g mod 2^12 = 0).
  { unfold g. destruct (Z.min_spec (Z.max HEAP_GROW_STEP up) r) as [[_ ->]|[_ ->]]; [|done].
    destruct (Z.max_spec HEAP_GROW_STEP up) as [[_ ->]|[_ ->]]; done. }
  assert (0 < g ≤ r) by (unfold g, HEAP_GROW_STEP; lia).
  rewrite align_up_spec by (unfold u64_max, HEAP_MAX_SIZE in *; lia). simpl res_bind.
  rewrite align_down_spec by (unfold HEAP_MAX_SIZE in *; lia).
  replace ((g + 2^12 - 1) / 2^12 * 2^12) with g by (Z.div_mod_to_equations; lia).
  replace (r / 2^12 * 2^12) with r by (Z.div_mod_to_equations; lia).
  rewrite Z.min_l by lia. rewrite (proj2 (Z.eqb_neq g 0)) by lia.
  eexists. split; [reflexivity|]. split_and!; lia.
Qed.

(** ** Allocation and deallocation *)
Definition valid_layout (l : Layout) : Prop :=
  0 ≤ layout_size l < 2^63 ∧ ∃ k, 0 ≤ k ≤ 30 ∧ layout_align l = 2^k.

Lemma adjust_spec {E} l :
  valid_layout l →
  ∃ size align, adjust (E:=E) l = Ok (size, align) ∧ request_ok size align ∧
    layout_size l ≤ size ∧ (layout_align l | align).
Proof.
  intros (Hs & k & Hk & Ek). unfold adjust, ALIGN_OF_BLOCK, SIZE_OF_BLOCK. rewrite Ek.
  change 8 with (2^3). rewrite align_up_spec by (unfold u64_max; lia). simpl res_bind.
  set (m := Z.max (layout_size l) 16). pose proof (div_round_up m (2^3) ltac:(lia)) as Hr.
  assert (Ea : Z.max (2^k) (2^3) = 2^(Z.max k 3)).
  { destruct (Z.max_spec k 3) as [[? ->]|[? ->]].
    - apply Z.max_r. apply Z.pow_le_mono_r; lia.
    - apply Z.max_l. apply Z.pow_le_mono_r; lia. }
  eexists _, _. split; [reflexivity|]. rewrite Ea. split; [|split; [lia|]]; [split; [|split; [|exists (Z.max k 3); lia]]|].
  - change (2^3) with 8 in *. Z.div_mod_to_equations. lia.
  - apply Z.mod_mul. lia.
  - replace (Z.max k 3) with (k + (Z.max k 3 - k)) by lia. rewrite Z.pow_add_r by lia.
    apply Z.divide_factor_l.
Qed.

(** A search in a heap that satisfies the invariant. *)
Lemma find_alloc h live lost size align :
  heap_inv h live lost → request_ok size align →
  (find_and_remove size align h = (Ok None, h) ∧
   ∀ l, represents h l → canonical (heap_end h) l → Forall (λ b, ¬ fits size align b) l) ∨
  ∃ start h1 h2 lost', find_and_remove size align h = (Ok (Some start), h1) ∧
    add_allocated size h1 = (Ok tt, h2) ∧ start mod align = 0 ∧ HEAP_START ≤ start ∧
    heap_inv h2 ((start, size) :: live) lost' ∧ lost ≤ lost' < lost + 32.
Proof.
  intros Hinv Hreq. destruct (hv_free _ _ _ Hinv) as (l & Hrep & Hc & Hun & Hsum).
  pose proof (hv_end _ _ _ Hinv) as [[_ Hhi] _].
  destruct (find_and_remove_spec h (heap_end h) l size align Hrep Hc Hhi Hreq)
    as [[E Hno]|(pre & b & post & h1 & l1 & from & to & -> & Hpre & Hfit & E & Hrep1 & Hsame & Hcv)].
  - left. split; [done|]. intros l' Hrep' Hc'.
    destruct (find_and_remove_spec h (heap_end h) l' size align Hrep' Hc' Hhi Hreq)
      as [[_ Hno']|(? & ? & ? & ? & ? & ? & ? & _ & _ & _ & E' & _)]; [done|].
    rewrite E in E'. discriminate.
  - right.
    destruct (take_block h live lost size align h1 _ l1 _ from to Hinv Hrep Hc Hun Hsum Hreq Hcv Hrep1 Hsame)
      as (h2 & lost' & E2 & Hinv2 & Hlost).
    exists (round_up b.1 align), h1, h2, lost'. split_and!; try done; try lia; [apply Hcv|].
    pose proof (hv_live _ _ _ Hinv2) as Hl. apply Forall_cons in Hl as [Hl _]. apply Hl.
Qed.

Section GrowthSpec.
Context {S : Type} `{HPS : PageSource S} (ps_inv : S → Prop) `{HOK : !PageSourceOk S ps_inv}.

Lemma map_pages_spec n start m s :
  ps_inv s →
  ∃ k s', map_pages n start m s = (Ok (m + Z.of_nat k * PAGE_SIZE), s') ∧ (k ≤ n)%nat ∧ ps_inv s'.
Proof using HOK.
  revert m s. induction n as [|n IH]; intros m s Hs; simpl.
  { exists 0%nat, s. split_and!; try done. unfold ret. do 2 f_equal. lia. }
  destruct (ps_alloc_ok s Hs) as (o & s1 & E1 & Hs1). rewrite (bind_ok _ _ _ _ _ E1).
  destruct o as [p|]; [|exists 0%nat, s1; split_and!; try done; [unfold ret; do 2 f_equal; lia|lia]].
  destruct (ps_map_ok s1 (start + m) p Hs1) as (s2 & E2 & Hs2). rewrite (bind_ok _ _ _ _ _ E2).
  destruct (IH (m + PAGE_SIZE) s2 Hs2) as (k & s3 & E3 & Hk & Hs3).
  exists (Datatypes.S k), s3. split_and!; [|lia|done]. rewrite E3. do 2 f_equal. lia.
Qed.

(** Frames never run out: every page asked for is mapped. *)
Lemma map_pages_all n start m s :
  (∀ s, ps_inv s → ∃ p s', ps_alloc_frame s = (Ok (Some p), s')) →
  ps_inv s →
  ∃ s', map_pages n start m s = (Ok (m + Z.of_nat n * PAGE_SIZE), s') ∧ ps_inv s'.
Proof using HOK.
  intros Hmore. revert m s. induction n as [|n IH]; intros m s Hs; simpl.
  { exists s. split; [|done]. unfold ret. do 2 f_equal. lia. }
  destruct (Hmore s Hs) as (p & s1 & E1). destruct (ps_alloc_ok s Hs) as (o & s1' & E1' & Hs1).
  rewrite E1 in E1'. injection E1' as <- <-. rewrite (bind_ok _ _ _ _ _ E1).
  destruct (ps_map_ok s1 (start + m) p Hs1) as (s2 & E2 & Hs2). rewrite (bind_ok _ _ _ _ _ E2).
  destruct (IH (m + PAGE_SIZE) s2 Hs2) as (s3 & E3 & Hs3).
  exists s3. split; [|done]. rewrite E3. do 2 f_equal. lia.
Qed.

Lemma set_mapped_end_inv h live lost :
  heap_inv h live lost → heap_inv (set_mapped_end h) live lost ∧
  mapped_end (flist (set_mapped_end h)) = heap_end h.
Proof.
  intros [H1 H2 H3 H4 H5 H6 H7]. split; [|done].
  assert (E : heap_end (set_mapped_end h) = heap_end h).
  { unfold heap_end, set_mapped_end. simpl. destruct (mapped_end (flist h) =? 0) eqn:E0; [done|by rewrite E0]. }
  by split; rewrite ?E.
Qed.

(** Adding the [m] bytes that were mapped at the end of the heap. *)
Lemma extend_heap h live lost m :
  heap_inv h live lost → mapped_end (flist h) = heap_end h →
  0 < m ≤ HEAP_END - heap_end h → m mod PAGE_SIZE = 0 →
  let h1 := add_mapped (heap_end h + m) (total (flist h) + m) h in
  ∃ h' l, insert (heap_end h) m h1 = (Ok tt, h') ∧ heap_inv h' live lost ∧
    heap_end h' = heap_end h + m ∧ represents h' l ∧ canonical (heap_end h') l ∧
    ∃ b, b ∈ l ∧ m ≤ b.2.
Proof.
  intros Hinv Hme Hm Hm8 h1. pose proof Hinv as [He Ht Hlive Hdis Hal Hlost (l & Hrep & Hc & Hun & Hsum)].
  assert (Hm' : m mod 8 = 0 ∧ heap_end h mod 8 = 0).
  { destruct He as [_ He]. unfold PAGE_SIZE in *. Z.div_mod_to_equations. lia. }
  assert (16 ≤ m) by (unfold PAGE_SIZE in *; Z.div_mod_to_equations; lia).
  destruct (insert_uncovered h1 (heap_end h + m) l (heap_end h, m))
    as (h' & l' & E & Hrep' & (Hc' & Hcov & Hby) & (Em & Ea & Et)).
  { done. }
  { eapply canonical_mono; [|exact Hc]. lia. }
  { unfold HEAP_END in *. lia. }
  { split_and!; simpl; lia. }
  { intros x Hx Hcx. apply (covers_block _ _ _ Hc) in Hcx. unfold in_block in Hx. simpl in Hx. lia. }
  simpl in *. exists h', l'.
  assert (Ehe : heap_end h' = heap_end h + m).
  { unfold heap_end at 1. rewrite Em. destruct (Z.eqb_spec (heap_end h + m) 0); [|done].
    unfold HEAP_START in He. lia. }
  split_and!; try done; rewrite ?Ehe; try done; try apply Hc'.
  - split; rewrite ?Ehe, ?Em, ?Ea, ?Et; try done; try lia.
    + split; [lia|]. rewrite Z.add_mod, Hm8, (proj2 He) by done. done.
    + eapply Forall_impl; [exact Hlive|]. intros b (? & ? & ? & ? & ?). split_and!; lia.
    + exists l'. split_and!; try done; try apply Hc'; [|lia].
      intros b x Hb Hx [Hcx|Hcx]%Hcov; [by apply (Hun b x)|].
      rewrite Forall_forall in Hlive. specialize (Hlive b Hb).
      unfold in_block, block_ok in *. simpl in *. lia.
  - destruct (covered_range (heap_end h + m) l' (heap_end h) (heap_end h + m)) as (b & Hb & Hlo & Hhi);
      [done|lia| |].
    { intros x Hx. apply Hcov. right. unfold in_block. simpl. lia. }
    exists b. split; [done|]. lia.
Qed.

Lemma on_heap_ok {A} (m : M HState Empty_set A) h (s : S) a h' :
  m h = (Ok a, h') → on_heap m (h, s) = (Ok a, (h', s)).
Proof. unfold on_heap. simpl. by intros ->. Qed.

Lemma on_source_ok {A} (m : M S Empty_set A) (h : HState) (s : S) a s' :
  m s = (Ok a, s') → on_source m (h, s) = (Ok a, (h, s')).
Proof. unfold on_source. simpl. by intros ->. Qed.

Lemma update_ok f h (s : S) : update f (h, s) = (Ok tt, (f h, s)).
Proof. done. Qed.

(** [grow] given what its mapping loop returns. *)
Lemma grow_run h live lost s s' min_extra g m :
  heap_inv h live lost →
  grow_amount (heap_end h) min_extra = Ok (Some g) →
  map_pages (Z.to_nat (g / PAGE_SIZE)) (heap_end h) 0 s = (Ok m, s') →
  0 ≤ m ≤ HEAP_END - heap_end h → m mod PAGE_SIZE = 0 →
  ∃ h' l, grow min_extra (h, s) = (Ok (negb (m =? 0)), (h', s')) ∧ heap_inv h' live lost ∧
    represents h' l ∧ canonical (heap_end h') l ∧ (0 < m → ∃ b, b ∈ l ∧ m ≤ b.2).
Proof.
  intros Hinv Eg Em Hm Hm8. destruct (set_mapped_end_inv _ _ _ Hinv) as [Hinv1 Ee].
  assert (E1 : heap_end (set_mapped_end h) = heap_end h).
  { unfold heap_end at 1. rewrite Ee. destruct (Z.eqb_spec (heap_end h) 0) as [E0|]; [|done].
    pose proof (hv_end _ _ _ Hinv). unfold HEAP_START in *. lia. }
  unfold grow. rewrite (bind_ok _ _ _ _ _ (update_ok set_mapped_end h s)).
  unfold bind at 1. cbn [fst snd]. rewrite Ee. unfold bind at 1, lift at 1. rewrite Eg.
  rewrite (bind_ok _ _ _ _ _ (on_source_ok _ _ _ _ _ Em)).
  destruct (Z.eqb_spec m 0) as [->|Hne].
  { destruct (hv_free _ _ _ Hinv1) as (l & Hrep & Hc & _).
    exists (set_mapped_end h), l. split_and!; try done. }
  destruct (extend_heap _ live lost m Hinv1) as (h' & l & Ei & Hinv' & Eend & Hrep & Hc & Hb);
    try done; [rewrite E1; lia|].
  exists h', l. split_and!; try done; try apply Hc.
  destruct (heap_inv_allocated _ _ _ Hinv1) as [_ Htot]. pose proof (hv_end _ _ _ Hinv).
  unfold bind at 1. cbn [fst snd]. rewrite add64_ok; [|unfold HEAP_END, HEAP_MAX_SIZE, HEAP_START, u64_max in *; lia].
  rewrite E1 in Ei. rewrite (bind_ok _ _ _ _ _ (update_ok _ _ _)).
  rewrite (bind_ok _ _ _ _ _ (on_heap_ok _ _ _ _ _ Ei)). done.
Qed.

Lemma grow_full h live lost s min_extra :
  heap_inv h live lost → grow_amount (heap_end h) min_extra = Ok None →
  grow min_extra (h, s) = (Ok false, (set_mapped_end h, s)) ∧ heap_inv (set_mapped_end h) live lost.
Proof.
  intros Hinv Eg. destruct (set_mapped_end_inv _ _ _ Hinv) as [Hinv1 Ee]. split; [|done].
  unfold grow. rewrite (bind_ok _ _ _ _ _ (update_ok set_mapped_end h s)).
  unfold bind at 1. cbn [fst snd]. rewrite Ee. unfold bind at 1, lift at 1. by rewrite Eg.
Qed.

Lemma pages_bound g k e :
  g mod PAGE_SIZE = 0 → 0 < g → g ≤ e → (k ≤ Z.to_nat (g / PAGE_SIZE))%nat →
  0 ≤ 0 + Z.of_nat k * PAGE_SIZE ≤ e ∧ (0 + Z.of_nat k * PAGE_SIZE) mod PAGE_SIZE = 0.
Proof.
  intros Hg H0 He Hk. split; [|by apply Z.mod_mul].
  unfold PAGE_SIZE in *. Z.div_mod_to_equations. lia.
Qed.

Lemma grow_spec h live lost s min_extra :
  heap_inv h live lost → ps_inv s → 0 ≤ min_extra < 2^63 + 2^31 →
  ∃ r h' s', grow min_extra (h, s) = (Ok r, (h', s')) ∧ heap_inv h' live lost ∧ ps_inv s'.
Proof using HOK.
  intros Hinv Hs Hx. pose proof (hv_end _ _ _ Hinv) as [He Hm].
  destruct (grow_amount_spec (heap_end h) min_extra He Hm Hx) as ([g|] & Eg & Ho).
  - destruct Ho as (Hg & Hgm & _).
    destruct (map_pages_spec (Z.to_nat (g / PAGE_SIZE)) (heap_end h) 0 s Hs) as (k & s' & Em & Hk & Hs').
    destruct (pages_bound g k (HEAP_END - heap_end h) Hgm ltac:(lia) ltac:(lia) Hk) as [Hb Hb8].
    destruct (grow_run _ _ _ _ _ _ _ _ Hinv Eg Em Hb Hb8) as (h' & l & E & Hinv' & _). eauto 10.
  - destruct (grow_full h live lost s min_extra Hinv Eg) as [E Hinv']. eauto 10.
Qed.

(** With frames to spare and room in the window, [grow] gives a block that is
    large enough. *)
Lemma grow_enough h live lost s min_extra :
  (∀ s, ps_inv s → ∃ p s', ps_alloc_frame s = (Ok (Some p), s')) →
  heap_inv h live lost → ps_inv s → 0 < min_extra ≤ HEAP_END - heap_end h →
  ∃ h' s' l, grow min_extra (h, s) = (Ok true, (h', s')) ∧ heap_inv h' live lost ∧ ps_inv s' ∧
    represents h' l ∧ canonical (heap_end h') l ∧ ∃ b, b ∈ l ∧ min_extra ≤ b.2.
Proof using HOK.
  intros Hmore Hinv Hs Hx. pose proof (hv_end _ _ _ Hinv) as [He Hm].
  destruct (grow_amount_spec (heap_end h) min_extra He Hm) as ([g|] & Eg & Ho);
    [unfold HEAP_END, HEAP_START, HEAP_MAX_SIZE in *; lia| |lia].
  destruct Ho as (Hg & Hgm & Hge). specialize (Hge ltac:(lia)).
  destruct (map_pages_all (Z.to_nat (g / PAGE_SIZE)) (heap_end h) 0 s Hmore Hs) as (s' & Em & Hs').
  assert (Eg' : 0 + Z.of_nat (Z.to_nat (g / PAGE_SIZE)) * PAGE_SIZE = g).
  { unfold PAGE_SIZE in *. Z.div_mod_to_equations. lia. }
  rewrite Eg' in Em.
  destruct (grow_run _ _ _ _ _ _ _ _ Hinv Eg Em ltac:(lia) Hgm) as (h' & l & E & Hinv' & Hrep & Hc & Hb).
  destruct (Hb ltac:(lia)) as (b & Hin & Hle).
  exists h', s', l. rewrite (proj2 (Z.eqb_neq g 0)) in E by lia.
  split_and!; try done; try apply Hc. exists b. split; [done|lia].
Qed.

Lemma alloc_spec h live lost s l size align :
  heap_inv h live lost → ps_inv s → adjust (E:=Empty_set) l = Ok (size, align) →
  request_ok size align →
  ∃ p h' s', alloc l (h, s) = (Ok p, (h', s')) ∧ ps_inv s' ∧
    ((p = 0 ∧ heap_inv h' live lost) ∨
     (p mod align = 0 ∧ HEAP_START ≤ p ∧
      ∃ lost', lost ≤ lost' < lost + 32 ∧ heap_inv h' ((p, size) :: live) lost')).
Proof using HOK.
  intros Hinv Hs Eadj Hreq. unfold alloc. unfold bind at 1, lift at 1. rewrite Eadj.
  pose proof (request_align _ _ Hreq) as [Hal _]. pose proof Hreq as ([? ?] & _ & _).
  destruct (find_alloc h live lost size align Hinv Hreq)
    as [[E _]|(p & h1 & h2 & lost' & E & E2 & Hp & Hlo & Hinv2 & Hl)];
    rewrite (bind_ok _ _ _ _ _ (on_heap_ok _ _ s _ _ E)).
  2:{ rewrite (bind_ok _ _ _ _ _ (on_heap_ok _ _ s _ _ E2)). eexists p, h2, s. eauto 10. }
  unfold bind at 1, lift at 1. rewrite add64_ok by (unfold u64_max; lia).
  destruct (grow_spec h live lost s (size + align) Hinv Hs ltac:(lia)) as (r & h3 & s3 & E3 & Hinv3 & Hs3).
  rewrite (bind_ok _ _ _ _ _ E3). destruct r; [|exists 0, h3, s3; eauto].
  destruct (find_alloc h3 live lost size align Hinv3 Hreq)
    as [[E' _]|(p & h1 & h2 & lost' & E' & E2 & Hp & Hlo & Hinv2 & Hl)];
    rewrite (bind_ok _ _ _ _ _ (on_heap_ok _ _ s3 _ _ E')).
  - exists 0, h3, s3. eauto.
  - rewrite (bind_ok _ _ _ _ _ (on_heap_ok _ _ s3 _ _ E2)). eexists p, h2, s3. eauto 10.
Qed.

Lemma alloc_enough h live lost s l size align :
  (∀ s, ps_inv s → ∃ p s', ps_alloc_frame s = (Ok (Some p), s')) →
  heap_inv h live lost → ps_inv s → adjust (E:=Empty_set) l = Ok (size, align) →
  request_ok size align → size + align ≤ HEAP_END - heap_end h →
  ∃ p h' s', alloc l (h, s) = (Ok p, (h', s')) ∧ p ≠ 0.
Proof using HOK.
  intros Hmore Hinv Hs Eadj Hreq Hroom. unfold alloc. unfold bind at 1, lift at 1. rewrite Eadj.
  pose proof (request_align _ _ Hreq) as [Hal _]. pose proof Hreq as ([? ?] & _ & _).
  destruct (find_alloc h live lost size align Hinv Hreq)
    as [[E _]|(p & h1 & h2 & lost' & E & E2 & Hp & Hlo & Hinv2 & Hl)];
    rewrite (bind_ok _ _ _ _ _ (on_heap_ok _ _ s _ _ E)).
  2:{ rewrite (bind_ok _ _ _ _ _ (on_heap_ok _ _ s _ _ E2)). eexists p, h2, s.
      split; [done|]. unfold HEAP_START in *. lia. }
  unfold bind at 1, lift at 1. rewrite add64_ok by (unfold u64_max; lia).
  destruct (grow_enough h live lost s (size + align) Hmore Hinv Hs ltac:(lia))
    as (h3 & s3 & l3 & E3 & Hinv3 & Hs3 & Hrep3 & Hc3 & b & Hb & Hble).
  rewrite (bind_ok _ _ _ _ _ E3).
  destruct (find_alloc h3 live lost size align Hinv3 Hreq)
    as [[_ Hno]|(p & h1 & h2 & lost' & E' & E2 & Hp & Hlo & Hinv2 & Hl)].
  - exfalso. specialize (Hno l3 Hrep3 Hc3). rewrite Forall_forall in Hno. apply (Hno b Hb).
    unfold fits. pose proof (round_up_bounds b.1 align). lia.
  - rewrite (bind_ok _ _ _ _ _ (on_heap_ok _ _ s3 _ _ E')).
    rewrite (bind_ok _ _ _ _ _ (on_heap_ok _ _ s3 _ _ E2)). eexists p, h2, s3.
    split; [done|]. unfold HEAP_START in *. lia.
Qed.

Lemma apart_sym b c : apart b c → apart c b.
Proof. unfold apart. lia. Qed.

Lemma dealloc_spec h live1 live2 lost (s : S) p l size align :
  heap_inv h (live1 ++ (p, size) :: live2) lost →
  adjust (E:=Empty_set) l = Ok (size, align) →
  ∃ h', dealloc p l (h, s) = (Ok tt, (h', s)) ∧ heap_inv h' (live1 ++ live2) lost.
Proof.
  intros Hinv Eadj.
  pose proof Hinv as [He Ht Hlive Hdis Hal Hlost (fl & Hrep & Hc & Hun & Hsum)].
  apply Forall_app in Hlive as [Hl1 Hl2]. apply Forall_cons in Hl2 as [Hb Hl2].
  apply StronglySorted_app in Hdis as (Hx & Hd1 & Hd2). apply StronglySorted_cons in Hd2 as [Hy Hd2].
  pose proof (bytes_of_nonneg _ _ Hl1). pose proof (bytes_of_nonneg _ _ Hl2).
  assert (Eal : allocated (flist (sub_allocated size h)) = bytes_of (live1 ++ live2)).
  { simpl. rewrite Hal, !bytes_of_app. simpl. lia. }
  destruct (insert_uncovered (sub_allocated size h) (heap_end h) fl (p, size))
    as (h' & l' & E & Hrep' & (Hc' & Hcov & Hby) & (Em & Ea & Et)); try done.
  { apply He. }
  { intros x. apply Hun. set_solver. }
  unfold dealloc. unfold bind at 1, lift at 1. rewrite Eadj.
  rewrite (bind_ok _ _ _ _ _ (update_ok _ _ _)). exists h'. split; [by apply on_heap_ok|].
  assert (Ehe : heap_end h' = heap_end h) by (unfold heap_end; by rewrite Em).
  split; rewrite ?Ehe, ?Et, ?Ea, ?Eal; try done.
  - by apply Forall_app.
  - apply StronglySorted_app. split_and!; try done. intros; apply Hx; set_solver.
  - exists l'. split_and!; try done; try apply Hc'.
    + intros b x Hbin Hxb [Hcx|Hxp]%Hcov; [apply (Hun b x); set_solver|].
      assert (apart b (p, size)) as Hap.
      { apply elem_of_app in Hbin as [Hbin|Hbin]; [apply Hx; set_solver|].
        rewrite Forall_forall in Hy. by apply apart_sym, Hy. }
      unfold apart, in_block in *. simpl in *. lia.
    + rewrite Hby. simpl. rewrite !bytes_of_app in *. simpl in *. lia.
Qed.
End GrowthSpec.

(** ** The heap in use

    Steps of clients that pass valid layouts and free what they hold, with the
    layout they allocated it with. *)
Inductive heap_step {S} `{PageSource S} :
    HState * S * list block → HState * S * list block → Prop :=
  | step_out_of_memory h s live l h' s' :
      valid_layout l → alloc l (h, s) = (Ok 0, (h', s')) →
      heap_step (h, s, live) (h', s', live)
  | step_alloc h s live l p size align h' s' :
      valid_layout l → adjust (E:=Empty_set) l = Ok (size, align) →
      alloc l (h, s) = (Ok p, (h', s')) → p ≠ 0 →
      heap_step (h, s, live) (h', s', (p, size) :: live)
  | step_dealloc h s live1 live2 l p size align h' s' :
      adjust (E:=Empty_set) l = Ok (size, align) →
      dealloc p l (h, s) = (Ok tt, (h', s')) →
      heap_step (h, s, live1 ++ (p, size) :: live2) (h', s', live1 ++ live2).

Section InUse.
Context {S : Type} `{HPS : PageSource S} (ps_inv : S → Prop) `{HOK : !PageSourceOk S ps_inv}.

Definition heap_good (st : HState * S * list block) : Prop :=
  ps_inv st.1.2 ∧ ∃ lost, heap_inv st.1.1 st.2 lost.

Lemma heap_step_good st st' : heap_good st → heap_step st st' → heap_good st'.
Proof using HOK.
  intros [Hs (lost & Hinv)] Hstep. destruct Hstep as [h s live l h' s' Hv E|h s live l p size align h' s' Hv Ea E Hp|h s l1 l2 l p size align h' s' Ea E]; simpl in *.
  - destruct (adjust_spec (E:=Empty_set) l Hv) as (size & align & Ea & Hreq & _).
    destruct (alloc_spec ps_inv h live lost s l size align Hinv Hs Ea Hreq)
      as (p & h2 & s2 & E2 & Hs2 & Hc). rewrite E in E2. injection E2 as <- <- <-.
    split; [done|]. destruct Hc as [[_ Hc]|(_ & Hlo & _)]; [eauto|]. unfold HEAP_START in Hlo. lia.
  - destruct (adjust_spec (E:=Empty_set) l Hv) as (size' & align' & Ea' & Hreq & _).
    rewrite Ea in Ea'. injection Ea' as <- <-.
    destruct (alloc_spec ps_inv h live lost s l size align Hinv Hs Ea Hreq)
      as (p2 & h2 & s2 & E2 & Hs2 & Hc). rewrite E in E2. injection E2 as <- <- <-.
    split; [done|]. destruct Hc as [[? _]|(_ & _ & lost' & _ & Hc)]; [done|eauto].
  - destruct (dealloc_spec ps_inv h l1 l2 lost s p l size align Hinv Ea) as (h2 & E2 & Hinv2).
    rewrite E in E2. injection E2 as <- <-. split; [done|eauto].
Qed.

Lemma heap_steps_good st st' : rtc heap_step st st' → heap_good st → heap_good st'.
Proof using HOK. induction 1; eauto using heap_step_good. Qed.
End InUse.

(** A page source with a budget of frames. *)
#[global] Instance budget_source : PageSource nat := {
  ps_alloc_frame := λ n, match n with O => (Ok None, O) | S n => (Ok (Some 0), n) end;
  ps_map_page := λ _ _, ret tt
}.

#[global] Instance budget_ok : PageSourceOk nat (λ _, True).
Proof. split; [intros [|n] _; simpl; eauto|simpl; unfold ret; eauto]. Qed.

(** A source that never runs dry. *)
#[global] Instance plenty_source : PageSource unit := {
  ps_alloc_frame := ret (Some 0);
  ps_map_page := λ _ _, ret tt
}.

#[global] Instance plenty_ok : PageSourceOk unit (λ _, True).
Proof. split; simpl; unfold ret; eauto. Qed.

Definition fresh_heap : HState := mkH ∅ FreeList_new.



(** Allocation does not give up early.  As long as the page source has
    frames and the request and its alignment fit between the heap's end and the
    top of its window, [alloc] grows the heap and returns memory. *)
Theorem heap_alloc_succeeds {S} `{HPS : PageSource S} (ps_inv : S → Prop)
    `{HOK : !PageSourceOk S ps_inv} h live lost s l size align :
  (∀ s, ps_inv s → ∃ p s', ps_alloc_frame s = (Ok (Some p), s')) →
  heap_inv h live lost → ps_inv s → valid_layout l →
  adjust (E:=Empty_set) l = Ok (size, align) → size + align ≤ HEAP_END - heap_end h →
  ∃ p h' s', alloc l (h, s) = (Ok p, (h', s')) ∧ p ≠ 0.
Proof.
  intros Hmore Hinv Hs Hv Ea Hroom.
  destruct (adjust_spec (E:=Empty_set) l Hv) as (size' & align' & Ea' & Hreq & _).
  rewrite Ea in Ea'. injection Ea' as <- <-. by eapply alloc_enough.
Qed.

Lemma heap_alloc_succeeds_witness :
  ∃ p h' s', alloc (mkLayout 1000000 4096) (fresh_heap, tt) = (Ok p, (h', s')) ∧ p ≠ 0.
Proof.
  apply (heap_alloc_succeeds (λ _, True) fresh_heap [] 0 tt _ 1000000 4096).
  - intros s _. exists 0, s. reflexivity.
  - apply heap_inv_new.
  - exact I.
  - split; [simpl; lia|exists 12; simpl; lia].
  - reflexivity.
  - vm_compute. congruence.
Defined.

(** Insertion keeps the free list canonical.  Giving [insert] a block apart
    from every free block leaves the list sorted, disjoint and with no two
    adjacent blocks, covering exactly the old bytes and those of the block, and
    leaves the counters alone. *)
Theorem heap_insert_coalesces h hi l b :
  represents h l → canonical hi l → hi ≤ HEAP_END → block_ok hi b →
  (∀ c, c ∈ l → apart b c) →
  ∃ h' l', insert b.1 b.2 h = (Ok tt, h') ∧ represents h' l' ∧ canonical hi l' ∧
    (∀ x, covers l' x ↔ covers l x ∨ in_block x b) ∧
    bytes_of l' = bytes_of l + b.2 ∧ same_counters h h'.
Proof.
  intros Hrep Hc Hhi Hb Hap.
  destruct (insert_spec h hi l b Hrep) as (h' & l' & E & Hrep' & (? & ? & ?) & Hs); [by split|].
  eauto 10.
Qed.

Lemma heap_insert_coalesces_witness :
  ∃ h' l', insert (HEAP_START + 32) 32
      (mkH {[HEAP_START := mkBlock 32 (HEAP_START + 64); HEAP_START + 64 := mkBlock 16 0]}
           (mkList HEAP_START (HEAP_START + 4096) 0 4096)) = (Ok tt, h') ∧
    represents h' l' ∧ bytes_of l' = 80.
Proof.
  destruct (heap_insert_coalesces
    (mkH {[HEAP_START := mkBlock 32 (HEAP_START + 64); HEAP_START + 64 := mkBlock 16 0]}
         (mkList HEAP_START (HEAP_START + 4096) 0 4096))
    (HEAP_START + 4096) [(HEAP_START, 32); (HEAP_START + 64, 16)] (HEAP_START + 32, 32))
    as (h' & l' & E & Hrep & _ & _ & Hb & _).
  - split; [reflexivity|]. eexists. split; [vm_compute; reflexivity|].
    split; [reflexivity|]. eexists. split; [vm_compute; reflexivity|reflexivity].
  - split; [repeat constructor; vm_compute; congruence|].
    repeat constructor; vm_compute; congruence.
  - vm_compute. congruence.
  - repeat split; vm_compute; congruence.
  - intros c [->|[->|Hc%elem_of_nil]%elem_of_cons]%elem_of_cons; [right|left|done];
      vm_compute; congruence.
  - exists h', l'. split; [exact E|]. split; [exact Hrep|exact Hb].
Defined.

(** The search is first fit and takes only what it must.  [find_and_remove]
    fails, without any change, only if the request fits in no free block;
    otherwise it carves the aligned memory it returns out of the first block it
    fits in, and every other free byte stays free, except slivers of less than
    16 bytes next to the memory returned. *)
Theorem heap_first_fit h hi l size align :
  represents h l → canonical hi l → hi ≤ HEAP_END → request_ok size align →
  (find_and_remove size align h = (Ok None, h) ∧ Forall (λ b, ¬ fits size align b) l) ∨
  ∃ pre b post h' l' from to,
    l = pre ++ b :: post ∧ Forall (λ b, ¬ fits size align b) pre ∧ fits size align b ∧
    find_and_remove size align h = (Ok (Some (round_up b.1 align)), h') ∧
    represents h' l' ∧ same_counters h h' ∧
    carved hi l size align (round_up b.1 align) from to l'.
Proof. apply find_and_remove_spec. Qed.

Lemma heap_first_fit_witness :
  ∃ h', find_and_remove 32 64
      (mkH {[HEAP_START + 16 := mkBlock 32 (HEAP_START + 64); HEAP_START + 64 := mkBlock 256 0]}
           (mkList (HEAP_START + 16) (HEAP_START + 4096) 0 4096))
    = (Ok (Some (HEAP_START + 64)), h').
Proof.
  destruct (heap_first_fit
    (mkH {[HEAP_START + 16 := mkBlock 32 (HEAP_START + 64); HEAP_START + 64 := mkBlock 256 0]}
         (mkList (HEAP_START + 16) (HEAP_START + 4096) 0 4096))
    (HEAP_START + 4096) [(HEAP_START + 16, 32); (HEAP_START + 64, 256)] 32 64)
    as [[_ Hno]|(pre & b & post & h' & l' & from & to & El & Hpre & Hfit & E & _)].
  - split; [reflexivity|]. eexists. split; [vm_compute; reflexivity|].
    split; [reflexivity|]. eexists. split; [vm_compute; reflexivity|reflexivity].
  - split; [repeat constructor; vm_compute; congruence|].
    repeat constructor; vm_compute; congruence.
  - vm_compute. congruence.
  - split; [lia|]. split; [reflexivity|]. exists 6. lia.
  - exfalso. apply Forall_cons in Hno as [_ Hno]. apply Forall_cons in Hno as [Hno _].
    apply Hno. vm_compute. congruence.
  - exists h'. rewrite E. do 3 f_equal.
    destruct pre as [|c [|d pre]]; simplify_eq/=.
    + exfalso. vm_compute in Hfit. apply Hfit. reflexivity.
    + vm_compute. reflexivity.
    + destruct pre; discriminate.
Defined.

(** a sliver is lost for good.  Allocating all but eight bytes of a fresh
    64 KiB heap and freeing them again leaves a free list eight bytes shorter
    than the heap, with nothing on loan: the rest of the block was neither put
    back on the list nor returned with the allocation. *)
Theorem heap_slivers_are_lost :
  ∃ h1 h2 h3 : HState,
    init (fresh_heap, 16%nat) = (Ok true, (h1, 0%nat)) ∧
    total (flist h1) = 65536 ∧
    alloc (mkLayout 65528 8) (h1, 0%nat) = (Ok HEAP_START, (h2, 0%nat)) ∧
    dealloc HEAP_START (mkLayout 65528 8) (h2, 0%nat) = (Ok tt, (h3, 0%nat)) ∧
    allocated (flist h3) = 0 ∧ total (flist h3) = 65536 ∧
    represents h3 [(HEAP_START, 65528)].
Proof.
  destruct (init (fresh_heap, 16%nat)) as [r1 [h1 s1]] eqn:E1.
  vm_compute in E1. injection E1 as <- <- <-.
  eexists _, _, _. split; [reflexivity|]. split; [reflexivity|].
  split; [vm_compute; reflexivity|]. split; [vm_compute; reflexivity|].
  split; [reflexivity|]. split; [reflexivity|].
  split; [reflexivity|]. eexists. split; [vm_compute; reflexivity|reflexivity].
Qed.
