(* ===== verification/Vmm.v ===== *)
(** * The virtual memory manager (src/src/vmm.rs)

    Four-level page tables in physical memory: descending and creating tables,
    splitting huge pages, mapping, unmapping and protecting pages, the software
    walks, copies to and from user memory, per-process address spaces and the
    tables built at boot.  The translation caches ([invlpg]) are not modelled:
    translation is the walk of the tables. *)
From stdpp Require Import base numbers list gmap sets.
From Stdlib Require Import ZArith Lia Bool.
From S2P Require Import Prelude Bytes Mem Pmm.

Module Vmm.

(** ** Entries *)
Definition PRESENT : Z := Z.shiftl 1 0.
Definition WRITABLE : Z := Z.shiftl 1 1.
Definition USER : Z := Z.shiftl 1 2.
Definition PWT : Z := Z.shiftl 1 3.
Definition PCD : Z := Z.shiftl 1 4.
Definition HUGE : Z := Z.shiftl 1 7.
Definition NO_EXECUTE : Z := Z.shiftl 1 63.

Definition KERNEL_RX : Z := PRESENT.
Definition KERNEL_RO : Z := Z.lor PRESENT NO_EXECUTE.
Definition KERNEL_RW : Z := Z.lor (Z.lor PRESENT WRITABLE) NO_EXECUTE.
Definition USER_RX : Z := Z.lor PRESENT USER.
Definition USER_RO : Z := Z.lor (Z.lor PRESENT USER) NO_EXECUTE.
Definition USER_RW : Z := Z.lor (Z.lor (Z.lor PRESENT WRITABLE) USER) NO_EXECUTE.
Definition KERNEL_WC : Z := Z.lor (Z.lor (Z.lor PRESENT WRITABLE) NO_EXECUTE) PWT.
Definition KERNEL_UC : Z := Z.lor (Z.lor (Z.lor PRESENT WRITABLE) NO_EXECUTE) PCD.

Definition ADDR_MASK : Z := 0x000ffffffffff000.
Definition ENTRIES : Z := 512.
Definition HUGE_2M : Z := 0x200000.
Definition HUGE_1G : Z := 0x40000000.
Definition HUGE_2M_MASK : Z := 0x000fffffffe00000.
Definition HUGE_1G_MASK : Z := 0x000fffffc0000000.
Definition PAT_HUGE : Z := Z.shiftl 1 12.
Definition PAT_4K : Z := Z.shiftl 1 7.
Definition KERNEL_PML4_START : Z := 256.
Definition USER_SPACE_END : Z := 0x0000800000000000.

(** [e & bit != 0]. *)
Definition has (e bit : Z) : bool := negb (Z.land e bit =? 0).

(** The flags of a table, as [child_table] and the splits store them. *)
Definition table_entry (phys : Z) : Z := Z.lor (Z.lor (Z.lor phys PRESENT) WRITABLE) USER.

Definition index (virt : Z) (level : Z) : Z := Z.land (Z.shiftr virt (39 - level * 9)) 0x1ff.

(** ** Tables in memory *)
Notation P := (M PState Empty_set).

(** Entry [i] of the table at [a]. *)
Definition ent (m : memory) (a i : Z) : Z := read64 m (a + 8 * i).

Definition get_entry (a i : Z) : P Z := λ s, (Ok (ent (phys_mem s) a i), s).
Definition set_entry (a i v : Z) : P unit := λ s,
  (Ok tt, set_phys_mem s (write64 (phys_mem s) (a + 8 * i) v)).

(** [pmm::alloc_frame_zeroed().expect(..)]. *)
Definition alloc_table : P Z :=
  let! o := alloc_frame_zeroed in
  match o with Some phys => ret phys | None => panic end.

Definition child_table (parent idx : Z) : P Z :=
  let! entry := get_entry parent idx in
  if has entry PRESENT then
    if has entry HUGE then panic else ret (Z.land entry ADDR_MASK)
  else
    let! phys := alloc_table in
    set_entry parent idx (table_entry phys) ;;!
    ret phys.

Definition split_huge (pd idx : Z) : P unit :=
  let! entry := get_entry pd idx in
  let base := Z.land entry HUGE_2M_MASK in
  let flags := Z.land (Z.land entry (not64 ADDR_MASK)) (not64 HUGE) in
  let flags := if has entry PAT_HUGE then Z.lor flags PAT_4K else flags in
  let! phys := alloc_table in
  mfor (seqZ 0 ENTRIES) (λ i, set_entry phys i (Z.lor (base + i * PAGE_SIZE) flags)) ;;!
  set_entry pd idx (table_entry phys).

Definition split_1g_huge (pdpt idx : Z) : P unit :=
  let! entry := get_entry pdpt idx in
  let base := Z.land entry HUGE_1G_MASK in
  let flags := Z.land (Z.land entry (not64 ADDR_MASK)) (not64 HUGE) in
  let flags := if has entry PAT_HUGE then Z.lor flags PAT_HUGE else flags in
  let! phys := alloc_table in
  mfor (seqZ 0 ENTRIES) (λ i,
    set_entry phys i (Z.lor (Z.lor (Z.lor (base + i * HUGE_2M) flags) PRESENT) HUGE)) ;;!
  set_entry pdpt idx (table_entry phys).

Definition pd_for (pdpt virt : Z) : P Z :=
  let idx := index virt 1 in
  let! entry := get_entry pdpt idx in
  (if has entry PRESENT && has entry HUGE then split_1g_huge pdpt idx else ret tt) ;;!
  child_table pdpt idx.

Definition pt_for (pd virt : Z) : P Z :=
  let idx := index virt 2 in
  let! entry := get_entry pd idx in
  (if has entry PRESENT && has entry HUGE then split_huge pd idx else ret tt) ;;!
  child_table pd idx.

(** The address of the leaf entry. *)
Definition leaf_for (pml4 virt : Z) : P (option Z) :=
  let! pml4_entry := get_entry pml4 (index virt 0) in
  if negb (has pml4_entry PRESENT) || has pml4_entry HUGE then ret None
  else
    let pdpt := Z.land pml4_entry ADDR_MASK in
    let pdpt_idx := index virt 1 in
    let! entry := get_entry pdpt pdpt_idx in
    if negb (has entry PRESENT) then ret None
    else
      let! entry :=
        (if has entry HUGE then split_1g_huge pdpt pdpt_idx ;;! get_entry pdpt pdpt_idx
         else ret entry) in
      let pd := Z.land entry ADDR_MASK in
      let pd_idx := index virt 2 in
      let! entry := get_entry pd pd_idx in
      if negb (has entry PRESENT) then ret None
      else
        let! entry :=
          (if has entry HUGE then split_huge pd pd_idx ;;! get_entry pd pd_idx
           else ret entry) in
        let pt := Z.land entry ADDR_MASK in
        let! leaf := get_entry pt (index virt 3) in
        ret (if has leaf PRESENT then Some (pt + 8 * index virt 3) else None).

Definition map4k (pml4 virt phys flags : Z) : P unit :=
  let! pdpt := child_table pml4 (index virt 0) in
  let! pd := pd_for pdpt virt in
  let! pt := pt_for pd virt in
  set_entry pt (index virt 3) (Z.lor (Z.lor (Z.land phys ADDR_MASK) flags) PRESENT).

Definition map2m (pml4 virt phys flags : Z) : P unit :=
  let! pdpt := child_table pml4 (index virt 0) in
  let! pd := child_table pdpt (index virt 1) in
  let idx := index virt 2 in
  let! existing := get_entry pd idx in
  if has existing PRESENT && negb (has existing HUGE) then panic
  else set_entry pd idx (Z.lor (Z.lor (Z.lor (Z.land phys HUGE_2M_MASK) flags) PRESENT) HUGE).

(** ** Software walks *)
Definition walk (m : memory) (pml4_phys virt : Z) : option Z :=
  let e := ent m pml4_phys (index virt 0) in
  if negb (has e PRESENT) then None
  else
    let e := ent m (Z.land e ADDR_MASK) (index virt 1) in
    if negb (has e PRESENT) then None
    else if has e HUGE then Some (Z.land e HUGE_1G_MASK + Z.land virt (HUGE_1G - 1))
    else
      let e := ent m (Z.land e ADDR_MASK) (index virt 2) in
      if negb (has e PRESENT) then None
      else if has e HUGE then Some (Z.land e HUGE_2M_MASK + Z.land virt (HUGE_2M - 1))
      else
        let leaf := ent m (Z.land e ADDR_MASK) (index virt 3) in
        if negb (has leaf PRESENT) then None
        else Some (Z.land leaf ADDR_MASK + Z.land virt (PAGE_SIZE - 1)).

(** [e & bits == bits]. *)
Definition has_all (e bits : Z) : bool := Z.land e bits =? bits.

(** [walk_user] and [walk_user_write], which differ in what they ask of the
    leaf. *)
Definition walk_user_with (leaf_bits : Z) (m : memory) (pml4_phys virt : Z) : option Z :=
  let pu := Z.lor PRESENT USER in
  let e := ent m pml4_phys (index virt 0) in
  if negb (has_all e pu) then None
  else
    let e := ent m (Z.land e ADDR_MASK) (index virt 1) in
    if negb (has_all e pu) || has e HUGE then None
    else
      let e := ent m (Z.land e ADDR_MASK) (index virt 2) in
      if negb (has_all e pu) || has e HUGE then None
      else
        let leaf := ent m (Z.land e ADDR_MASK) (index virt 3) in
        if negb (has_all leaf leaf_bits) then None
        else Some (Z.land leaf ADDR_MASK + Z.land virt (PAGE_SIZE - 1)).

Definition walk_user : memory → Z → Z → option Z := walk_user_with (Z.lor PRESENT USER).
Definition walk_user_write : memory → Z → Z → option Z :=
  walk_user_with (Z.lor (Z.lor PRESENT USER) WRITABLE).

(** ** The kernel's tables *)
Record VState := mkV {
  pst : PState;
  VMM : option Z;
  KERNEL_CR3 : Z;
  CR3 : Z;
  EFER : Z;
  PAT : Z
}.

Notation V := (M VState Empty_set).

Definition set_pst (s : VState) (p : PState) : VState :=
  mkV p (VMM s) (KERNEL_CR3 s) (CR3 s) (EFER s) (PAT s).

Definition on_pmm {A} (m : P A) : V A := λ s,
  let '(r, p) := m (pst s) in (r, set_pst s p).

Definition map_page (virt phys flags : Z) : V unit := λ s,
  match VMM s with
  | None => (Ok tt, s)
  | Some pml4 => on_pmm (map4k pml4 virt phys flags) s
  end.

Definition translate (s : VState) (virt : Z) : option Z :=
  pml4 ← VMM s; walk (phys_mem (pst s)) pml4 virt.

(** [locked]: whether the lock on the kernel's tables is taken. *)
Definition try_translate (locked : bool) (s : VState) (virt : Z) : option Z :=
  if locked then None else translate s virt.

Definition is_active (s : VState) : bool :=
  match VMM s with Some _ => true | None => false end.

Definition current_cr3 (s : VState) : Z := Z.land (CR3 s) ADDR_MASK.

(** The pages from [p] to [end_], mapped where nothing is. *)
Fixpoint mmio_loop (fuel : nat) (hhdm p end_ : Z) : V unit :=
  if p <? end_ then
    match fuel with
    | O => diverge
    | S fuel =>
        let! virt := lift (add64 hhdm p) in
        (λ s, match translate s virt with
              | None => map_page virt p KERNEL_UC s
              | Some _ => (Ok tt, s)
              end) ;;!
        let! p := lift (add64 p PAGE_SIZE) in
        mmio_loop fuel hhdm p end_
    end
  else ret tt.

(** The virtual address of the range. *)
Definition map_mmio (phys len : Z) : V Z := λ s,
  (let hhdm := HHDM_OFFSET (pst s) in
   let start := align_down phys PAGE_SIZE in
   let! t := lift (add64 phys len) in
   let! end_ := lift (align_up t PAGE_SIZE) in
   mmio_loop (Z.to_nat ((end_ - start) / PAGE_SIZE)) hhdm start end_ ;;!
   lift (add64 hhdm phys)) s.

(** [*leaf]: the word at a leaf's address. *)
Definition read_leaf (leaf : Z) : P Z := λ s, (Ok (read64 (phys_mem s) leaf), s).
Definition write_leaf (leaf v : Z) : P unit := λ s,
  (Ok tt, set_phys_mem s (write64 (phys_mem s) leaf v)).

Definition unmap_leaf (pml4 virt : Z) : P (option Z) :=
  let! o := leaf_for pml4 virt in
  match o with
  | None => ret None
  | Some leaf =>
      let! e := read_leaf leaf in
      write_leaf leaf 0 ;;!
      ret (Some (Z.land e ADDR_MASK))
  end.

Definition protect_leaf (pml4 virt flags : Z) : P bool :=
  let! o := leaf_for pml4 virt in
  match o with
  | None => ret false
  | Some leaf =>
      let! e := read_leaf leaf in
      write_leaf leaf (Z.lor (Z.lor (Z.land e ADDR_MASK) flags) PRESENT) ;;!
      ret true
  end.

Definition unmap_page (virt : Z) : V (option Z) := λ s,
  match VMM s with
  | None => (Ok None, s)
  | Some pml4 => on_pmm (unmap_leaf pml4 virt) s
  end.

Definition kernel_flags : list Z := [KERNEL_RX; KERNEL_RO; KERNEL_RW; KERNEL_WC; KERNEL_UC].
Definition user_flags : list Z := [USER_RX; USER_RO; USER_RW].

Definition protect_page (virt flags : Z) : V bool := λ s,
  if negb (bool_decide (flags ∈ kernel_flags)) then (Ok false, s)
  else
    match VMM s with
    | None => (Ok false, s)
    | Some pml4 => on_pmm (protect_leaf pml4 virt flags) s
    end.

(** ** Model-specific registers *)
Definition enable_nxe (s : VState) : VState :=
  mkV (pst s) (VMM s) (KERNEL_CR3 s) (CR3 s) (Z.lor (EFER s) (Z.shiftl 1 11)) (PAT s).

Definition configure_pat (s : VState) : VState :=
  let value := Z.land (PAT s) (not64 (Z.shiftl 0xff 8)) in
  let value := Z.lor value (Z.shiftl 0x01 8) in
  mkV (pst s) (VMM s) (KERNEL_CR3 s) (CR3 s) (EFER s) value.

(** ** The tables built at boot *)

(** The inner loop of the sort: [r[j]] sinks while its left neighbour starts
    later. *)
Fixpoint sink (j : nat) (r : list (Z * Z)) : list (Z * Z) :=
  match j with
  | O => r
  | S k =>
      match r !! k, r !! j with
      | Some a, Some b => if b.1 <? a.1 then sink k (<[k := b]> (<[j := a]> r)) else r
      | _, _ => r
      end
  end.

Definition sort_ranges (r : list (Z * Z)) : list (Z * Z) :=
  foldl (λ r i, sink i r) r (seq 1 (length r - 1)).

(** The second loop: [out] ranges are merged at the front of [r]. *)
Fixpoint merge_loop (n i out : nat) (r : list (Z * Z)) : nat * list (Z * Z) :=
  match n with
  | O => (out, r)
  | S n =>
      match r !! i, r !! (out - 1)%nat with
      | Some c, Some l =>
          if (0 <? out)%nat && (c.1 <=? l.2) then
            merge_loop n (S i) out (if l.2 <? c.2 then <[(out - 1)%nat := (l.1, c.2)]> r else r)
          else merge_loop n (S i) (S out) (<[out := c]> r)
      | _, _ => (out, r)
      end
  end.

(** The merged ranges, [r[..out]]. *)
Definition merge_ranges (r : list (Z * Z)) : list (Z * Z) :=
  let r := sort_ranges r in
  let '(out, r) := merge_loop (length r) 0 0 r in
  take out r.

Fixpoint map_hhdm_range (fuel : nat) (pml4 hhdm p end_ : Z) : P unit :=
  if p <? end_ then
    match fuel with
    | O => diverge
    | S fuel =>
        let! virt := lift (add64 hhdm p) in
        if (p mod HUGE_2M =? 0) && (HUGE_2M <=? end_ - p) then
          map2m pml4 virt p KERNEL_RW ;;!
          let! p := lift (add64 p HUGE_2M) in
          map_hhdm_range fuel pml4 hhdm p end_
        else
          map4k pml4 virt p KERNEL_RW ;;!
          let! p := lift (add64 p PAGE_SIZE) in
          map_hhdm_range fuel pml4 hhdm p end_
    end
  else ret tt.

(** The rounds a range of bytes can take. *)
Definition page_rounds (start end_ : Z) : nat := S (Z.to_nat ((end_ - start) / PAGE_SIZE)).

Fixpoint section_loop (fuel : nat) (pml4 kernel_phys kernel_virt v end_ flags : Z) : P unit :=
  if v <? end_ then
    match fuel with
    | O => diverge
    | S fuel =>
        let! off := lift (sub64 v kernel_virt) in
        let! phys := lift (add64 kernel_phys off) in
        map4k pml4 v phys flags ;;!
        let! v := lift (add64 v PAGE_SIZE) in
        section_loop fuel pml4 kernel_phys kernel_virt v end_ flags
    end
  else ret tt.

Definition map_section (pml4 kernel_phys kernel_virt start end_ flags : Z) : P unit :=
  let start := align_down start PAGE_SIZE in
  let! end_ := lift (align_up end_ PAGE_SIZE) in
  section_loop (page_rounds start end_) pml4 kernel_phys kernel_virt start end_ flags.

(** The symbols of the linker script. *)
Record KernelImage := mkImage {
  text_start : Z; text_end : Z; rodata_start : Z; rodata_end : Z; data_start : Z; data_end : Z
}.

Definition map_kernel_sections (img : KernelImage) (pml4 kernel_phys kernel_virt : Z) : P unit :=
  map_section pml4 kernel_phys kernel_virt (text_start img) (text_end img) KERNEL_RX ;;!
  map_section pml4 kernel_phys kernel_virt (rodata_start img) (rodata_end img) KERNEL_RO ;;!
  map_section pml4 kernel_phys kernel_virt (data_start img) (data_end img) KERNEL_RW.

Record FramebufferInfo := mkFb { fb_addr : Z; fb_pitch : Z; fb_height : Z }.

Fixpoint wc_loop (fuel : nat) (pml4 hhdm p end_ : Z) : P unit :=
  if p <? end_ then
    match fuel with
    | O => diverge
    | S fuel =>
        let! virt := lift (add64 hhdm p) in
        map4k pml4 virt p KERNEL_WC ;;!
        let! p := lift (add64 p PAGE_SIZE) in
        wc_loop fuel pml4 hhdm p end_
    end
  else ret tt.

Definition map_framebuffer (pml4 hhdm : Z) (fb : FramebufferInfo) : P unit :=
  match checked_sub (fb_addr fb) hhdm with
  | None => ret tt
  | Some fb_phys =>
      let start := align_down fb_phys PAGE_SIZE in
      let! bytes := lift (mul64 (fb_pitch fb) (fb_height fb)) in
      let! t := lift (add64 fb_phys bytes) in
      let! end_ := lift (align_up t PAGE_SIZE) in
      wc_loop (page_rounds start end_) pml4 hhdm start end_
  end.

(** The response of the boot loader, the image and the framebuffer are
    arguments; the failures that only log leave the state as it is. *)
Definition init (ka : option (Z * Z)) (img : KernelImage) (fb : option FramebufferInfo) : V unit := λ s,
  let s := configure_pat (enable_nxe s) in
  match ka with
  | None => (Ok tt, s)
  | Some (kernel_phys, kernel_virt) =>
      let hhdm := HHDM_OFFSET (pst s) in
      (let! phys_top := (λ s, (phys_top (pst s), s)) in
       if phys_top =? 0 then ret tt
       else
         let! o := on_pmm alloc_frame_zeroed in
         match o with
         | None => ret tt
         | Some pml4_phys =>
             on_pmm (
               let! ranges := (λ p, (hhdm_ranges p, p)) in
               mfor (merge_ranges ranges) (λ '(start, end_),
                 map_hhdm_range (page_rounds start end_) pml4_phys hhdm start end_ ;;!
                 ignore (E:=Empty_set) (lift (sub64 end_ start))) ;;!
               (match fb with Some fb => map_framebuffer pml4_phys hhdm fb | None => ret tt end) ;;!
               map_kernel_sections img pml4_phys kernel_phys kernel_virt) ;;!
             λ s, (Ok tt, mkV (pst s) (Some pml4_phys) pml4_phys pml4_phys (EFER s) (PAT s))
         end) s
  end.

(** ** Address spaces

    An address space is the physical address of its top table. *)
Definition create_address_space : V (option Z) := λ s,
  match VMM s with
  | None => (Ok None, s)
  | Some kernel =>
      on_pmm (
        let! o := alloc_frame_zeroed in
        match o with
        | None => ret None
        | Some pml4 =>
            mfor (seqZ KERNEL_PML4_START (ENTRIES - KERNEL_PML4_START)) (λ i,
              let! e := get_entry kernel i in set_entry pml4 i e) ;;!
            ret (Some pml4)
        end) s
  end.

Definition activate (pml4 : Z) : V unit := λ s,
  (Ok tt, mkV (pst s) (VMM s) (KERNEL_CR3 s) pml4 (EFER s) (PAT s)).

Definition massert (b : bool) : P unit := if b then ret tt else panic.

Definition map (pml4 virt phys flags : Z) : P unit :=
  massert (virt <? USER_SPACE_END) ;;!
  massert (Z.land virt (PAGE_SIZE - 1) =? 0) ;;!
  massert (Z.land phys (PAGE_SIZE - 1) =? 0) ;;!
  massert (bool_decide (flags ∈ user_flags)) ;;!
  (λ s, massert (match walk (phys_mem s) pml4 virt with None => true | Some _ => false end) s) ;;!
  map4k pml4 virt phys flags.

Definition unmap (pml4 virt : Z) : P (option Z) :=
  massert (virt <? USER_SPACE_END) ;;!
  unmap_leaf pml4 virt.

Definition protect (pml4 virt flags : Z) : P bool :=
  if (USER_SPACE_END <=? virt) || negb (bool_decide (flags ∈ user_flags)) then ret false
  else protect_leaf pml4 virt flags.

Definition free_pt (phys : Z) : P unit :=
  mfor (seqZ 0 ENTRIES) (λ i,
    let! e := get_entry phys i in
    if has e PRESENT then free_frame (Z.land e ADDR_MASK) else ret tt) ;;!
  free_frame phys.

Definition free_pd (phys : Z) : P unit :=
  mfor (seqZ 0 ENTRIES) (λ i,
    let! e := get_entry phys i in
    if negb (has e PRESENT) then ret tt
    else if has e HUGE then free_frame (Z.land e HUGE_2M_MASK)
    else free_pt (Z.land e ADDR_MASK)) ;;!
  free_frame phys.

Definition free_pdpt (phys : Z) : P unit :=
  mfor (seqZ 0 ENTRIES) (λ i,
    let! e := get_entry phys i in
    if negb (has e PRESENT) then ret tt
    else if has e HUGE then free_frame (Z.land e HUGE_1G_MASK)
    else free_pd (Z.land e ADDR_MASK)) ;;!
  free_frame phys.

Definition free_user_half (pml4 : Z) : P unit :=
  mfor (seqZ 0 KERNEL_PML4_START) (λ i,
    let! e := get_entry pml4 i in
    if has e PRESENT then free_pdpt (Z.land e ADDR_MASK) else ret tt) ;;!
  free_frame pml4.

(** ** User memory *)

(** The loop of [validate_user_range] from [va]. *)
Fixpoint validate_loop (fuel : nat) (m : memory) (pml4 va end_ : Z) (write : bool) : res Empty_set bool :=
  if va <? end_ then
    match fuel with
    | O => Diverge
    | S fuel =>
        match (if write then walk_user_write m pml4 va else walk_user m pml4 va) with
        | None => Ok false
        | Some _ =>
            let next_page := Z.min u64_max (align_down va PAGE_SIZE + PAGE_SIZE) in
            if next_page <=? va then Ok false
            else validate_loop fuel m pml4 (Z.min next_page end_) end_ write
        end
    end
  else Ok true.

Definition validate_user_range (addr len : Z) (write : bool) (s : VState) : res Empty_set bool :=
  if len =? 0 then Ok true
  else
    match checked_add addr len with
    | None => Ok false
    | Some end_ =>
        if (USER_SPACE_END <=? addr) || (USER_SPACE_END <? end_) then Ok false
        else validate_loop (page_rounds addr end_ + 1) (phys_mem (pst s)) (current_cr3 s) addr end_ write
    end.

(** The loop of [copy_from_user]: [acc] has been copied, [rest] bytes are left. *)
Fixpoint copy_from_loop (fuel : nat) (m : memory) (pml4 va : Z) (rest : nat) (acc : list Z) :
    res Empty_set (option (list Z)) :=
  match rest with
  | O => Ok (Some acc)
  | _ =>
      match fuel with
      | O => Diverge
      | S fuel =>
          let page_off := Z.land va (PAGE_SIZE - 1) in
          let n := Nat.min rest (Z.to_nat (PAGE_SIZE - page_off)) in
          match walk_user m pml4 va with
          | None => Ok None
          | Some phys =>
              copy_from_loop fuel m pml4 (va + Z.of_nat n) (rest - n) (acc ++ read_bytes m phys n)
          end
      end
  end.

(** The bytes copied, or [None] for [false]. *)
Definition copy_from_user (len : nat) (src : Z) (s : VState) : res Empty_set (option (list Z)) :=
  let? ok := validate_user_range src (Z.of_nat len) false s in
  if negb ok then Ok None
  else copy_from_loop len (phys_mem (pst s)) (current_cr3 s) src len [].

Fixpoint copy_to_loop (fuel : nat) (pml4 va : Z) (src : list Z) : P bool :=
  match src with
  | [] => ret true
  | _ =>
      match fuel with
      | O => diverge
      | S fuel => λ s,
          let page_off := Z.land va (PAGE_SIZE - 1) in
          let n := Nat.min (length src) (Z.to_nat (PAGE_SIZE - page_off)) in
          match walk_user_write (phys_mem s) pml4 va with
          | None => (Ok false, s)
          | Some phys =>
              copy_to_loop fuel pml4 (va + Z.of_nat n) (drop n src)
                (set_phys_mem s (write_bytes (phys_mem s) phys (take n src)))
          end
      end
  end.

Definition copy_to_user (dst : Z) (src : list Z) : V bool := λ s,
  match validate_user_range dst (Z.of_nat (length src)) true s with
  | Ok true => on_pmm (copy_to_loop (length src) (current_cr3 s) dst src) s
  | Ok false => (Ok false, s)
  | Err e => match e with end
  | Panic => (Panic, s)
  | Diverge => (Diverge, s)
  end.
End Vmm.
