(* ===== verification/VmmTables.v ===== *)
(** * Page tables as a tree

    The tables reached from a top table by paths of indices, what an address
    is mapped to in them, and how the operations of [Vmm] change both. *)
From stdpp Require Import base numbers list gmap sets.
From Stdlib Require Import ZArith Lia Bool.
From S2P Require Import Prelude Bytes Mem Pmm Vmm.
Import Vmm.

(** ** Paths *)

(** The table an entry points to. *)
Definition sub_table (e : Z) : option Z :=
  if has e PRESENT && negb (has e HUGE) then Some (Z.land e ADDR_MASK) else None.

Fixpoint tbl (m : memory) (a : Z) (p : list Z) : option Z :=
  match p with
  | [] => Some a
  | i :: p => sub_table (ent m a i) ≫= λ b, tbl m b p
  end.

Definition is_index (i : Z) : Prop := 0 ≤ i < 512.
Definition path_ok (p : list Z) : Prop := (length p ≤ 3)%nat ∧ Forall is_index p.

Lemma tbl_snoc m a p i : tbl m a (p ++ [i]) = tbl m a p ≫= λ b, sub_table (ent m b i).
Proof.
  revert a. induction p as [|j p IH]; intros a; simpl; [by destruct (sub_table _)|].
  destruct (sub_table (ent m a j)); simpl; [apply IH|done].
Qed.

Lemma path_ok_snoc p i : path_ok (p ++ [i]) → path_ok p ∧ (length p ≤ 2)%nat ∧ is_index i.
Proof.
  intros [Hl Hf]. rewrite length_app in Hl. simpl in Hl. apply Forall_app in Hf as [Hf Hi].
  rewrite Forall_singleton in Hi. split; [|split; [lia|done]]. split; [lia|done].
Qed.

(** ** The tree of a top table *)
Record tree (m : memory) (pm : Pmm) (root : Z) : Prop := {
  tr_frame : ∀ p a, path_ok p → tbl m root p = Some a →
    ∃ f, a = f * PAGE_SIZE ∧ 0 ≤ f < total_frames pm ∧ f ∉ free_set pm;
  tr_inj : ∀ p q a, path_ok p → path_ok q → tbl m root p = Some a → tbl m root q = Some a → p = q;
  tr_top : ∀ i, is_index i → has (ent m root i) PRESENT = true → has (ent m root i) HUGE = false;
  tr_user : ∀ p a i, path_ok (p ++ [i]) → tbl m root p = Some a →
    is_Some (sub_table (ent m a i)) → has_all (ent m a i) (Z.lor PRESENT USER) = true
}.

Record vm_inv (s : PState) (pm : Pmm) (root : Z) : Prop := {
  vi_pmm : PMM s = Some pm;
  vi_inv : pmm_inv pm;
  vi_top : total_frames pm ≤ 2^40;
  vi_tree : tree (phys_mem s) pm root
}.

(** ** Words of tables *)
Definition aligned (a : Z) : Prop := ∃ f, a = f * PAGE_SIZE.

Lemma ent_write m a i b j v :
  aligned a → aligned b → is_index i → is_index j → 0 ≤ v < 2^64 →
  ent (write64 m (a + 8 * i) v) b j = if decide (b = a ∧ j = i) then v else ent m b j.
Proof.
  intros [f ->] [g ->] Hi Hj Hv. unfold ent, is_index, PAGE_SIZE in *. case_decide as Hd.
  - destruct Hd as [-> ->]. by apply read64_write64_eq.
  - apply read64_write64_ne. assert (f * 4096 ≠ g * 4096 ∨ i ≠ j) by (destruct (decide (f * 4096 = g * 4096)); naive_solver). lia.
Qed.

Lemma ent_fill m a b j :
  aligned a → aligned b → is_index j →
  ent (fill_bytes m a 0 PAGE_SIZE) b j = if decide (b = a) then 0 else ent m b j.
Proof.
  intros [f ->] [g ->] Hj. unfold ent, is_index, PAGE_SIZE in *. case_decide as Hd.
  - apply read64_fill_0_in; lia.
  - apply read64_fill_out; [lia|]. lia.
Qed.

Lemma has_pow2 e k : 0 ≤ k → has e (Z.shiftl 1 k) = Z.testbit e k.
Proof. intros. unfold has. rewrite shiftl_1 by done. by apply land_pow2_test. Qed.

Lemma addr_mask_bit i : 0 ≤ i → Z.testbit ADDR_MASK i = (12 <=? i) && (i <? 52).
Proof.
  intros Hi. change ADDR_MASK with (Z.shiftl (Z.ones 40) 12). rewrite Z.shiftl_spec by done.
  destruct (Z.leb_spec 12 i); simpl.
  - destruct (Z.ltb_spec i 52); [rewrite Z.ones_spec_low by lia|rewrite Z.ones_spec_high by lia]; done.
  - apply Z.testbit_neg_r. lia.
Qed.

Lemma page_bits f i : 0 ≤ f < 2^40 → 0 ≤ i → Z.testbit (f * PAGE_SIZE) i = ((12 <=? i) && (i <? 52)) && Z.testbit (f * PAGE_SIZE) i.
Proof.
  intros Hf Hi. unfold PAGE_SIZE. change 4096 with (2^12).
  destruct (Z.leb_spec 12 i); simpl.
  - destruct (Z.ltb_spec i 52); [done|]. simpl. apply (testbit_high _ 52); lia.
  - by rewrite Z.mul_pow2_bits_low by lia.
Qed.

(** The address in an entry made of a frame and flags outside the address. *)
Lemma entry_addr f flags :
  0 ≤ f < 2^40 → 0 ≤ flags → Z.land flags ADDR_MASK = 0 →
  Z.land (Z.lor (f * PAGE_SIZE) flags) ADDR_MASK = f * PAGE_SIZE.
Proof.
  intros Hf Hfl H0. rewrite Z.land_lor_distr_l, H0, Z.lor_0_r. bitwise i.
  rewrite addr_mask_bit by done. rewrite (page_bits f i) by done. destruct ((12 <=? i) && (i <? 52)); cbn [andb]; rewrite ?andb_true_r, ?andb_false_r; done.
Qed.

Lemma frame_below f flags k :
  0 ≤ f < 2^40 → 0 ≤ k < 12 → Z.testbit (Z.lor (f * PAGE_SIZE) flags) k = Z.testbit flags k.
Proof.
  intros Hf Hk. rewrite Z.lor_spec, (page_bits f k) by lia.
  rewrite (proj2 (Z.leb_gt 12 k)) by lia. done.
Qed.

Lemma table_entry_facts f :
  0 ≤ f < 2^40 →
  sub_table (table_entry (f * PAGE_SIZE)) = Some (f * PAGE_SIZE) ∧
  has_all (table_entry (f * PAGE_SIZE)) (Z.lor PRESENT USER) = true ∧
  0 ≤ table_entry (f * PAGE_SIZE) < 2^64.
Proof.
  intros Hf. assert (E : table_entry (f * PAGE_SIZE) = Z.lor (f * PAGE_SIZE) 7).
  { unfold table_entry. by rewrite <- !Z.lor_assoc. }
  rewrite E. split_and!.
  - unfold sub_table, PRESENT, HUGE. rewrite !has_pow2, !frame_below by lia. simpl.
    by rewrite entry_addr by (done || lia).
  - unfold has_all. apply Z.eqb_eq. change (Z.lor PRESENT USER) with 5. rewrite Z.land_lor_distr_l.
    change (Z.land 7 5) with 5. replace (Z.land (f * PAGE_SIZE) 5) with 0; [done|].
    symmetry. bitwise i. rewrite Z.bits_0. rewrite (page_bits f i) by lia.
    destruct (Z.leb_spec 12 i); [|done]. rewrite (testbit_high 5 12) by lia. apply andb_false_r.
  - apply Z.lor_nonneg. unfold PAGE_SIZE. lia.
  - apply (lor_range _ _ 64); unfold PAGE_SIZE; lia.
Qed.

(** ** A new table below an entry that had none *)
Section NewTable.
Context (m m' : memory) (pm : Pmm) (root : Z) (p : list Z) (a i f : Z).
Context (Ht : tree m pm root) (Hp : path_ok (p ++ [i])) (Ha : tbl m root p = Some a).
Context (Hnone : sub_table (ent m a i) = None).
Context (Hf : ∀ q b, path_ok q → tbl m root q = Some b → b ≠ f).
Context (Hnew : sub_table (ent m' a i) = Some f).
Context (Hsame : ∀ q b j, path_ok q → tbl m root q = Some b → is_index j →
  (b, j) ≠ (a, i) → ent m' b j = ent m b j).
Context (Hleaf : ∀ j, is_index j → sub_table (ent m' f j) = None).

Lemma tbl_new q :
  path_ok q → tbl m' root q = if decide (q = p ++ [i]) then Some f else tbl m root q.
Proof using All.
  induction q as [|j r IH] using rev_ind; intros Hq.
  { rewrite decide_False; [done|]. by intros E%app_cons_not_nil. }
  destruct (path_ok_snoc _ _ Hq) as (Hr & Hlr & Hj). rewrite !tbl_snoc, IH by done.
  destruct (path_ok_snoc _ _ Hp) as (Hp' & _ & Hi).
  destruct (decide (r = p ++ [i])) as [->|Hne].
  - simpl. rewrite Hleaf by done. rewrite decide_False.
    + rewrite tbl_snoc, Ha. simpl. by rewrite Hnone.
    + intros E. apply (f_equal length) in E. rewrite !length_app in E. simpl in E. lia.
  - destruct (tbl m root r) as [b|] eqn:Eb; simpl.
    + destruct (decide ((b, j) = (a, i))) as [[= -> ->]|Hd].
      * assert (r = p) as -> by (by eapply (tr_inj _ _ _ Ht)). by rewrite decide_True.
      * rewrite (Hsame r b j) by done. rewrite decide_False; [done|].
        intros [-> [= ->]]%app_inj_tail. congruence.
    + rewrite decide_False; [done|]. intros [-> _]%app_inj_tail. congruence.
Qed.
End NewTable.

(** What [walk] finds: the level of the entry that ends the walk, and the
    entry; [None] when an entry on the way is not present. *)
Definition present (lvl e : Z) : option (Z * Z) := if has e PRESENT then Some (lvl, e) else None.

Definition look (m : memory) (root v : Z) : option (Z * Z) :=
  let i0 := index v 0 in let i1 := index v 1 in let i2 := index v 2 in
  match tbl m root [i0; i1; i2] with
  | Some a => present 3 (ent m a (index v 3))
  | None =>
      match tbl m root [i0; i1] with
      | Some a => present 2 (ent m a i2)
      | None =>
          match tbl m root [i0] with
          | Some a => present 1 (ent m a i1)
          | None => None
          end
      end
  end.

(** The address that an entry at a level gives to [v]. *)
Definition xlate (v : Z) (le : Z * Z) : Z :=
  let '(lvl, e) := le in
  if lvl =? 1 then Z.land e HUGE_1G_MASK + Z.land v (HUGE_1G - 1)
  else if lvl =? 2 then Z.land e HUGE_2M_MASK + Z.land v (HUGE_2M - 1)
  else Z.land e ADDR_MASK + Z.land v (PAGE_SIZE - 1).

Lemma index_ok v l : is_index (index v l).
Proof.
  unfold index, is_index. change 0x1ff with (2^9 - 1). rewrite land_mask by lia.
  apply Z.mod_pos_bound. lia.
Qed.
#[export] Hint Resolve index_ok : core.

Lemma path_ok_indices v ls : (length ls ≤ 3)%nat → path_ok (List.map (index v) ls).
Proof. intros Hl. split; [by rewrite length_map|]. apply Forall_map, Forall_true. intros. apply index_ok. Qed.

Section Walks.
Context (m : memory) (pm : Pmm) (root : Z) (Ht : tree m pm root).

Lemma walk_look v : walk m root v = xlate v <$> look m root v.
Proof using Ht.
  unfold walk, look, tbl, present. pose proof (tr_top _ _ _ Ht _ (index_ok v 0)) as H0.
  unfold sub_table. set (e0 := ent m root (index v 0)) in *.
  destruct (has e0 PRESENT); [rewrite H0 by done|done]. simpl.
  set (e1 := ent m (Z.land e0 ADDR_MASK) (index v 1)).
  destruct (has e1 PRESENT) eqn:P1; simpl; [|by rewrite ?P1].
  destruct (has e1 HUGE); simpl; [by rewrite ?P1|].
  set (e2 := ent m (Z.land e1 ADDR_MASK) (index v 2)).
  destruct (has e2 PRESENT) eqn:P2; simpl; [|by rewrite ?P2].
  destruct (has e2 HUGE); simpl; [by rewrite ?P2|].
  set (e3 := ent m (Z.land e2 ADDR_MASK) (index v 3)). by destruct (has e3 PRESENT).
Qed.

Lemma has_all_present e bits : Z.testbit bits 0 = true → has_all e bits = true → has e PRESENT = true.
Proof using.
  intros Hb E. unfold has_all in E. apply Z.eqb_eq in E. unfold PRESENT. rewrite has_pow2 by lia.
  apply (f_equal (λ z, Z.testbit z 0)) in E. rewrite Z.land_spec, Hb, andb_true_r in E. done.
Qed.

(** One level of the user walks. *)
Lemma user_step p a i :
  path_ok (p ++ [i]) → tbl m root p = Some a →
  let e := ent m a i in
  match sub_table e with
  | Some b => has_all e (Z.lor PRESENT USER) = true ∧ has e PRESENT = true ∧ has e HUGE = false ∧ b = Z.land e ADDR_MASK
  | None => negb (has_all e (Z.lor PRESENT USER)) || has e HUGE = true
  end.
Proof using Ht.
  intros Hp Ha e. pose proof (tr_user _ _ _ Ht p a i Hp Ha) as Hu. fold e in Hu.
  pose proof (has_all_present e (Z.lor PRESENT USER) eq_refl) as Hpr.
  unfold sub_table in *. destruct (has e PRESENT) eqn:EP, (has e HUGE) eqn:EH; simpl in *;
    rewrite ?orb_true_r, ?orb_false_r; try done.
  - split_and!; try done. by apply Hu.
  - destruct (has_all e _); [|done]. by specialize (Hpr eq_refl).
Qed.

Lemma walk_user_look bits v :
  Z.testbit bits 0 = true →
  walk_user_with bits m root v =
  match look m root v with
  | Some (lvl, e) => if (lvl =? 3) && has_all e bits then Some (xlate v (3, e)) else None
  | None => None
  end.
Proof using Ht.
  intros Hb. unfold walk_user_with, look.
  assert (Hok : ∀ ls, (length ls ≤ 3)%nat → path_ok (List.map (index v) ls)) by (intros; by apply path_ok_indices).
  pose proof (user_step [] root (index v 0) (Hok [0] ltac:(simpl; lia)) eq_refl) as U0. cbv zeta in U0.
  cbn [tbl]. pose proof (tr_top _ _ _ Ht _ (index_ok v 0)) as H0.
  set (e0 := ent m root (index v 0)) in *. destruct (sub_table e0) as [a1|] eqn:S0; cbn [mbind option_bind].
  2:{ destruct (has_all e0 _) eqn:E; [|done]. apply has_all_present in E; [|done].
      rewrite (H0 E) in U0. done. }
  destruct U0 as (-> & _ & _ & ->). cbn [negb].
  pose proof (user_step [index v 0] (Z.land e0 ADDR_MASK) (index v 1) (Hok [0; 1] ltac:(simpl; lia))) as U1.
  cbn [tbl] in U1. fold e0 in U1. rewrite S0 in U1. specialize (U1 eq_refl). cbv zeta in U1.
  set (e1 := ent m (Z.land e0 ADDR_MASK) (index v 1)) in *.
  destruct (sub_table e1) as [a2|] eqn:S1; cbn [mbind option_bind].
  2:{ rewrite U1. unfold present. by destruct (has e1 PRESENT). }
  destruct U1 as (-> & _ & -> & ->). cbn [negb orb].
  pose proof (user_step [index v 0; index v 1] (Z.land e1 ADDR_MASK) (index v 2) (Hok [0; 1; 2] ltac:(simpl; lia))) as U2.
  cbn [tbl] in U2. fold e0 in U2. rewrite S0 in U2. cbn [mbind option_bind] in U2. fold e1 in U2.
  rewrite S1 in U2. specialize (U2 eq_refl). cbv zeta in U2.
  set (e2 := ent m (Z.land e1 ADDR_MASK) (index v 2)) in *.
  destruct (sub_table e2) as [a3|] eqn:S2; cbn [mbind option_bind].
  2:{ rewrite U2. unfold present. by destruct (has e2 PRESENT). }
  destruct U2 as (-> & _ & -> & ->). cbn [negb orb].
  set (e3 := ent m (Z.land e2 ADDR_MASK) (index v 3)). unfold present.
  destruct (has_all e3 bits) eqn:E3; cbn [negb].
  - rewrite (has_all_present _ _ Hb E3), E3. done.
  - destruct (has e3 PRESENT); [by rewrite E3|done].
Qed.
End Walks.

(** ** Growing the tree by an empty table *)
Section EmptyTable.
Context (m m' : memory) (pm : Pmm) (root : Z) (p : list Z) (a i f : Z).
Context (Ht : tree m pm root) (Hp : path_ok (p ++ [i])) (Ha : tbl m root p = Some a).
Context (Hnp : has (ent m a i) PRESENT = false).
Context (Hf : ∀ q b, path_ok q → tbl m root q = Some b → b ≠ f).
Context (Hnew : sub_table (ent m' a i) = Some f).
Context (Hsame : ∀ q b j, path_ok q → tbl m root q = Some b → is_index j →
  (b, j) ≠ (a, i) → ent m' b j = ent m b j).
Context (Hzero : ∀ j, is_index j → ent m' f j = 0).

Lemma empty_none : sub_table (ent m a i) = None.
Proof using Hnp. unfold sub_table. by rewrite Hnp. Qed.

Lemma tbl_empty q :
  path_ok q → tbl m' root q = if decide (q = p ++ [i]) then Some f else tbl m root q.
Proof using All.
  apply (tbl_new m m' pm root p a i f); try done; [apply empty_none|].
  intros j Hj. by rewrite Hzero.
Qed.

(** Entries of the old tables, at the end of a path. *)
Lemma ent_empty q b j :
  path_ok q → tbl m root q = Some b → is_index j → q ++ [j] ≠ p ++ [i] → ent m' b j = ent m b j.
Proof using Ht Ha Hp Hsame.
  intros Hq Hb Hj Hne. apply (Hsame q); try done. intros [= -> ->]. apply Hne.
  f_equal. destruct (path_ok_snoc _ _ Hp) as [Hp' _]. by eapply (tr_inj _ _ _ Ht).
Qed.

Lemma look_empty v : look m' root v = look m root v.
Proof using All.
  assert (Hok : ∀ ls, (length ls ≤ 3)%nat → path_ok (List.map (index v) ls)) by (intros; by apply path_ok_indices).
  pose proof (Hok [0] ltac:(simpl; lia)) as P1. pose proof (Hok [0; 1] ltac:(simpl; lia)) as P2.
  pose proof (Hok [0; 1; 2] ltac:(simpl; lia)) as P3. cbn [List.map] in P1, P2, P3.
  assert (Hat : ∀ q, q = p ++ [i] → tbl m root q = None).
  { intros q ->. by rewrite tbl_snoc, Ha; simpl; apply empty_none. }
  assert (Hbelow : ∀ j, tbl m root (p ++ [i; j]) = None).
  { intros j. change (p ++ [i; j]) with (p ++ [i] ++ [j]). rewrite app_assoc, tbl_snoc, (Hat (p ++ [i])) by done. done. }
  unfold look. rewrite !tbl_empty by done.
  destruct (decide ([index v 0; index v 1; index v 2] = p ++ [i])) as [E3|N3].
  { rewrite (Hat _ E3). unfold present at 1. rewrite Hzero by done.
    change [index v 0; index v 1; index v 2] with ([index v 0; index v 1] ++ [index v 2]) in E3.
    apply app_inj_tail in E3 as [Ep Ei]. rewrite Ep, Ha. unfold present. by rewrite Ei, Hnp. }
  destruct (decide ([index v 0; index v 1] = p ++ [i])) as [E2|N2].
  { change [index v 0; index v 1; index v 2] with ([index v 0; index v 1] ++ [index v 2]).
    rewrite E2, <- app_assoc. cbn [app]. rewrite Hbelow. rewrite (Hat (p ++ [i])) by done.
    unfold present at 1. rewrite Hzero by done.
    change [index v 0; index v 1] with ([index v 0] ++ [index v 1]) in E2.
    apply app_inj_tail in E2 as [Ep Ei]. rewrite Ep, Ha. unfold present. by rewrite Ei, Hnp. }
  destruct (decide ([index v 0] = p ++ [i])) as [E1|N1].
  { assert (T2 : tbl m root [index v 0; index v 1] = None).
    { change [index v 0; index v 1] with ([index v 0] ++ [index v 1]). rewrite E1, <- app_assoc. apply Hbelow. }
    assert (T3 : tbl m root [index v 0; index v 1; index v 2] = None).
    { change [index v 0; index v 1; index v 2] with ([index v 0; index v 1] ++ [index v 2]).
      by rewrite tbl_snoc, T2. }
    rewrite T2, T3, (Hat _ E1). unfold present. by rewrite Hzero. }
  destruct (tbl m root [index v 0; index v 1; index v 2]) as [b|] eqn:T3.
  { f_equal. apply (ent_empty _ _ _ P3 T3); [done|]. intros E. apply (f_equal length) in E.
    destruct Hp as [Hl _]. rewrite <- E in Hl. simpl in Hl. lia. }
  destruct (tbl m root [index v 0; index v 1]) as [b|] eqn:T2; [by f_equal; apply (ent_empty _ _ _ P2 T2)|].
  destruct (tbl m root [index v 0]) as [b|] eqn:T1; [by f_equal; apply (ent_empty _ _ _ P1 T1)|done].
Qed.

Lemma tree_empty pm' :
  total_frames pm' = total_frames pm → free_set pm' ⊆ free_set pm →
  (∃ g, f = g * PAGE_SIZE ∧ 0 ≤ g < total_frames pm ∧ g ∉ free_set pm') →
  has (ent m' a i) HUGE = false → has_all (ent m' a i) (Z.lor PRESENT USER) = true →
  tree m' pm' root.
Proof using All.
  intros Htot Hfree Hg Hh Hu. destruct (path_ok_snoc _ _ Hp) as (Hp' & _ & Hi). split.
  - intros q b Hq. rewrite tbl_empty by done. rewrite Htot. case_decide; [by intros [= <-]|].
    intros Hb. destruct (tr_frame _ _ _ Ht q b Hq Hb) as (g & ? & ? & ?). exists g. set_solver.
  - intros q r b Hq Hr. rewrite !tbl_empty by done. repeat case_decide; try congruence.
    + intros [= <-] Hb. by destruct (Hf r f Hr).
    + intros Hb [= <-]. by destruct (Hf q f Hq).
    + by apply (tr_inj _ _ _ Ht).
  - intros j Hj. destruct (decide (root = a ∧ j = i)) as [[-> ->]|Hne]; [done|].
    rewrite (Hsame [] root j); [by apply (tr_top _ _ _ Ht)| |done|done|naive_solver].
    split; [simpl; lia|constructor].
  - intros q b j Hqj. destruct (path_ok_snoc _ _ Hqj) as (Hq & _ & Hj). rewrite tbl_empty by done.
    case_decide as Eq; [intros [= <-]; rewrite Hzero by done; by intros []|].
    intros Hb. destruct (decide ((b, j) = (a, i))) as [[= -> ->]|Hne]; [done|].
    rewrite (Hsame q b j) by done. by apply (tr_user _ _ _ Ht q).
Qed.
End EmptyTable.

(** ** Steps that only grow the tree *)

(** A byte of a frame that is in use and not a table. *)
Definition private (m : memory) (pm : Pmm) (root x : Z) : Prop :=
  ∃ g, g * PAGE_SIZE ≤ x < (g + 1) * PAGE_SIZE ∧ g ∉ free_set pm ∧
    ∀ p, path_ok p → tbl m root p ≠ Some (g * PAGE_SIZE).

Record grows (root : Z) (s : PState) (pm : Pmm) (s' : PState) (pm' : Pmm) : Prop := {
  gw_inv : vm_inv s' pm' root;
  gw_free : free_set pm' ⊆ free_set pm;
  gw_total : total_frames pm' = total_frames pm;
  gw_tbl : ∀ q b, path_ok q → tbl (phys_mem s) root q = Some b → tbl (phys_mem s') root q = Some b;
  gw_new : ∀ q b, path_ok q → tbl (phys_mem s') root q = Some b →
    tbl (phys_mem s) root q = Some b ∨ ∃ g, b = g * PAGE_SIZE ∧ g ∈ free_set pm ∧ g ∉ free_set pm';
  gw_look : ∀ v, look (phys_mem s') root v = look (phys_mem s) root v;
  gw_mem : ∀ x, private (phys_mem s) pm root x → read8 (phys_mem s') x = read8 (phys_mem s) x;
  gw_hhdm : HHDM_OFFSET s' = HHDM_OFFSET s
}.

Lemma grows_refl root s pm : vm_inv s pm root → grows root s pm s pm.
Proof. intros H. split; try done. by left. Qed.

Lemma private_grows root s pm s' pm' x :
  grows root s pm s' pm' → private (phys_mem s) pm root x → private (phys_mem s') pm' root x.
Proof.
  intros [_ Hfr _ _ Hnew _ _ _] (g & Hx & Hg & Hn). exists g. split; [done|]. split; [set_solver|].
  intros q Hq E. destruct (Hnew q _ Hq E) as [Hold|(h & Eh & Hh & _)]; [by apply (Hn q)|].
  assert (g = h) as -> by (unfold PAGE_SIZE in *; lia). done.
Qed.

Lemma grows_trans root s pm s1 pm1 s2 pm2 :
  grows root s pm s1 pm1 → grows root s1 pm1 s2 pm2 → grows root s pm s2 pm2.
Proof.
  intros H1 H2. pose proof H1 as [I1 F1 T1 B1 N1 L1 M1 O1]. pose proof H2 as [I2 F2 T2 B2 N2 L2 M2 O2].
  split; [done|by etrans|congruence|by eauto| | | |congruence].
  - intros q b Hq Hb. destruct (N2 q b Hq Hb) as [Hb1|(g & -> & Hg & ?)].
    + destruct (N1 q b Hq Hb1) as [?|(g & -> & ? & Hg)]; [by left|]. right. exists g.
      split; [done|]. split; [done|]. intros Hg2. apply Hg, F2, Hg2.
    + right. exists g. split; [done|]. split; [|done]. apply F1, Hg.
  - intros v. by rewrite L2, L1.
  - intros x Hx. rewrite M2, M1 by (done || by eapply private_grows). done.
Qed.

(** A frame that has just been allocated is no table. *)
Lemma fresh_frame m pm root f q b :
  tree m pm root → f ∈ free_set pm → path_ok q → tbl m root q = Some b → b ≠ f * PAGE_SIZE.
Proof.
  intros Ht Hf Hq Hb E. destruct (tr_frame _ _ _ Ht q b Hq Hb) as (g & Eg & _ & Hg).
  assert (g = f) as -> by (unfold PAGE_SIZE in *; lia). done.
Qed.

Lemma tree_aligned m pm root q b : tree m pm root → path_ok q → tbl m root q = Some b → aligned b.
Proof. intros Ht Hq Hb. destruct (tr_frame _ _ _ Ht q b Hq Hb) as (g & -> & _). by exists g. Qed.

Lemma free_set_range f pm : f ∈ free_set pm → 0 ≤ f < total_frames pm.
Proof. by intros [? _]%elem_of_free_set. Qed.

Lemma child_table_spec root s pm p a i :
  vm_inv s pm root → path_ok (p ++ [i]) → tbl (phys_mem s) root p = Some a →
  (has (ent (phys_mem s) a i) PRESENT = true → has (ent (phys_mem s) a i) HUGE = false) →
  (free_set pm = ∅ ∧ fst (child_table a i s) = Panic) ∨
  ∃ b s' pm', child_table a i s = (Ok b, s') ∧ grows root s pm s' pm' ∧
    tbl (phys_mem s') root (p ++ [i]) = Some b ∧
    (size (free_set pm) ≤ size (free_set pm') + 1)%nat ∧
    ∀ g, g ∈ free_set pm → g ∉ free_set pm' → b = g * PAGE_SIZE.
Proof.
  intros Hinv Hp Ha Hh. pose proof Hinv as [Hpmm Hpi Htop Ht]. set (m := phys_mem s) in *.
  destruct (has (ent m a i) PRESENT) eqn:EP.
  { right. exists (Z.land (ent m a i) ADDR_MASK), s, pm.
    split; [unfold child_table, bind, get_entry; fold m; by rewrite EP, Hh|].
    split; [by apply grows_refl|]. split; [|split; [lia|done]]. fold m. rewrite tbl_snoc, Ha. simpl.
    unfold sub_table. by rewrite EP, Hh. }
  destruct (alloc_frame_zeroed_spec s pm Hpmm Hpi) as [[E0 Ea]|(f & pm' & Hf & Ea & Hpi' & Efree & Etot)].
  { left. split; [done|]. unfold child_table, bind, get_entry, alloc_table, bind. fold m. by rewrite EP, Ea. }
  right. set (m0 := fill_bytes m (f * PAGE_SIZE) 0 PAGE_SIZE).
  set (m' := write64 m0 (a + 8 * i) (table_entry (f * PAGE_SIZE))).
  assert (Erun : child_table a i s = (Ok (f * PAGE_SIZE), mkPState m' (Some pm') (HHDM_OFFSET s))).
  { unfold child_table, bind, get_entry, alloc_table, bind. fold m. rewrite EP, Ea. done. }
  destruct (free_set_range f pm Hf) as [Hf0 Hf1]. destruct (table_entry_facts f ltac:(lia)) as (Es & Eu & Er).
  destruct (path_ok_snoc _ _ Hp) as (Hp' & _ & Hi).
  assert (Hal : aligned a) by (by eapply tree_aligned). assert (Half : aligned (f * PAGE_SIZE)) by (by exists f).
  assert (Hfr : ∀ q b, path_ok q → tbl m root q = Some b → b ≠ f * PAGE_SIZE) by (intros; by eapply fresh_frame).
  assert (Hent : ∀ b j, aligned b → is_index j → ent m' b j =
    if decide (b = a ∧ j = i) then table_entry (f * PAGE_SIZE) else if decide (b = f * PAGE_SIZE) then 0 else ent m b j).
  { intros b j Hb Hj. subst m' m0. rewrite ent_write by done. case_decide; [done|]. by apply ent_fill. }
  assert (Hmem : ∀ x, private m pm root x → read8 m' x = read8 m x).
  { intros x (g & Hx & Hg & Hn). subst m' m0. unfold write64. rewrite read8_write_bytes, length_le_bytes.
    rewrite decide_False.
    - rewrite read8_fill by done. rewrite decide_False; [done|]. intros Hx'.
      assert (g = f) as -> by (unfold PAGE_SIZE in *; lia). done.
    - intros Hx'. destruct Hal as [h ->]. unfold is_index in Hi. apply (Hn p Hp').
      rewrite Ha. do 2 f_equal. unfold PAGE_SIZE in *. lia. }
  clearbody m'. clear m0.
  assert (Hnew : ent m' a i = table_entry (f * PAGE_SIZE)) by (by rewrite (Hent a i Hal Hi), decide_True).
  assert (Hsame : ∀ q b j, path_ok q → tbl m root q = Some b → is_index j → (b, j) ≠ (a, i) → ent m' b j = ent m b j).
  { intros q b j Hq Hb Hj Hne. rewrite (Hent b j (tree_aligned _ _ _ _ _ Ht Hq Hb) Hj).
    rewrite decide_False by (intros [-> ->]; by apply Hne). rewrite decide_False by exact (Hfr q b Hq Hb).
    reflexivity. }
  assert (Hzero : ∀ j, is_index j → ent m' (f * PAGE_SIZE) j = 0).
  { intros j Hj. rewrite (Hent _ _ Half Hj).
    rewrite decide_False by (intros [E _]; exact (Hfr p a Hp' Ha (eq_sym E))).
    by rewrite decide_True. }
  assert (Hsub : sub_table (ent m' a i) = Some (f * PAGE_SIZE)) by (by rewrite Hnew).
  assert (Htree : tree m' pm' root).
  { apply (tree_empty m m' pm root p a i (f * PAGE_SIZE)); try done.
    - rewrite Efree. set_solver.
    - exists f. split; [done|]. rewrite Efree. split; [lia|set_solver].
    - rewrite Hnew. unfold sub_table in Es. destruct (has (table_entry (f * PAGE_SIZE)) HUGE); [|reflexivity].
      by rewrite andb_false_r in Es.
    - by rewrite Hnew. }
  exists (f * PAGE_SIZE), (mkPState m' (Some pm') (HHDM_OFFSET s)), pm'. split; [exact Erun|].
  assert (Htbl := tbl_empty m m' pm root p a i (f * PAGE_SIZE) Ht Hp Ha EP Hfr Hsub Hsame Hzero).
  split; [|split].
  - split; try done; cbn [phys_mem set_phys_mem set_PMM PMM HHDM_OFFSET].
    + split; [done|done|by rewrite Etot|done].
    + rewrite Efree. set_solver.
    + intros q b Hq Hb. rewrite Htbl by done. rewrite decide_False; [done|].
      intros ->. fold m in Hb. rewrite tbl_snoc, Ha in Hb. simpl in Hb. unfold sub_table in Hb. by rewrite EP in Hb.
    + intros q b Hq. rewrite Htbl by done. fold m. case_decide; [intros [= <-]|by left].
      right. exists f. rewrite Efree. set_solver.
    + intros v. fold m. by apply (look_empty m m' pm root p a i (f * PAGE_SIZE)).
  - cbn [phys_mem set_phys_mem]. rewrite Htbl by done. by rewrite decide_True.
  - rewrite Efree, size_difference by set_solver. rewrite size_singleton. split; [lia|].
    intros g Hg Hn. destruct (decide (g = f)) as [->|Hne]; [done|]. exfalso. apply Hn. clear -Hg Hne. set_solver.
Qed.

(** ** Writing a leaf *)

(** Two addresses of the same page of the tables. *)
Definition same_page (v w : Z) : Prop :=
  index v 0 = index w 0 ∧ index v 1 = index w 1 ∧ index v 2 = index w 2 ∧ index v 3 = index w 3.
#[global] Instance same_page_dec v w : Decision (same_page v w).
Proof. unfold same_page. apply _. Defined.

Definition leaf_path (v : Z) : list Z := [index v 0; index v 1; index v 2].

Lemma leaf_path_ok v : path_ok (leaf_path v).
Proof. apply (path_ok_indices v [0; 1; 2]). simpl. lia. Qed.
#[export] Hint Resolve leaf_path_ok : core.

(** A table on the path of an address. *)
Definition on_path (m : memory) (root virt a : Z) : Prop :=
  ∃ q, q `prefix_of` leaf_path virt ∧ q ≠ [] ∧ tbl m root q = Some a.

(** A step that changes the entry of one page of the tree, and no table. *)
Record leaf_set (root : Z) (s : PState) (s' : PState) (virt value : Z) : Prop := {
  lf_tbl : ∀ q, path_ok q → tbl (phys_mem s') root q = tbl (phys_mem s) root q;
  lf_look : ∀ v, look (phys_mem s') root v =
    if decide (same_page v virt) then present 3 value else look (phys_mem s) root v;
  lf_mem : ∀ pm x, private (phys_mem s) pm root x → read8 (phys_mem s') x = read8 (phys_mem s) x
}.

Lemma set_leaf_spec root s pm virt a value :
  vm_inv s pm root → tbl (phys_mem s) root (leaf_path virt) = Some a → 0 ≤ value < 2^64 →
  let s' := set_phys_mem s (write64 (phys_mem s) (a + 8 * index virt 3) value) in
  vm_inv s' pm root ∧ leaf_set root s s' virt value.
Proof.
  intros [Hpmm Hpi Htop Ht] Ha Hv s'. set (m := phys_mem s) in *.
  set (m' := write64 m (a + 8 * index virt 3) value) in *.
  assert (Hal : aligned a) by exact (tree_aligned _ _ _ _ _ Ht (leaf_path_ok virt) Ha).
  assert (Hent : ∀ b j, aligned b → is_index j →
    ent m' b j = if decide (b = a ∧ j = index virt 3) then value else ent m b j).
  { intros b j Hb Hj. by apply ent_write. }
  assert (Hmem : ∀ pm x, private m pm root x → read8 m' x = read8 m x).
  { intros pm' x (g & Hx & Hg & Hn). subst m'. unfold write64. rewrite read8_write_bytes, length_le_bytes.
    rewrite decide_False; [done|]. intros Hx'. destruct Hal as [h ->].
    pose proof (index_ok virt 3) as Hi. unfold is_index in Hi. apply (Hn (leaf_path virt)); [done|].
    rewrite Ha. do 2 f_equal. unfold PAGE_SIZE in *. lia. }
  change (phys_mem s') with m'. clearbody m'.
  assert (Hup : ∀ q b j, path_ok (q ++ [j]) → tbl m root q = Some b → ent m' b j = ent m b j).
  { intros q b j Hqj Hb. destruct (path_ok_snoc _ _ Hqj) as (Hq & Hl & Hj).
    rewrite (Hent b j (tree_aligned _ _ _ _ _ Ht Hq Hb) Hj). rewrite decide_False; [done|].
    intros [-> _]. rewrite (tr_inj _ _ _ Ht q (leaf_path virt) a Hq (leaf_path_ok virt) Hb Ha) in Hl.
    simpl in Hl. lia. }
  assert (Htbl : ∀ q, path_ok q → tbl m' root q = tbl m root q).
  { induction q as [|j q IH] using rev_ind; intros Hq; [done|].
    destruct (path_ok_snoc _ _ Hq) as (Hq' & _ & _). rewrite !tbl_snoc, IH by done.
    destruct (tbl m root q) as [b|] eqn:Eb; [|done]. simpl. by rewrite (Hup q b j Hq Eb). }
  split.
  - split; [done..|]. change (tree m' pm root). split.
    + intros q b Hq. rewrite Htbl by done. by apply (tr_frame _ _ _ Ht).
    + intros q r b Hq Hr. rewrite !Htbl by done. by apply (tr_inj _ _ _ Ht).
    + intros j Hj. rewrite (Hup [] root j); [by apply (tr_top _ _ _ Ht)| |done].
      split; [simpl; lia|]. by apply Forall_singleton.
    + intros q b j Hqj. destruct (path_ok_snoc _ _ Hqj) as (Hq & _ & _). rewrite Htbl by done. intros Hb.
      rewrite (Hup q b j Hqj Hb). by apply (tr_user _ _ _ Ht q).
  - split; [exact Htbl| |exact Hmem]. intros v. cbn [phys_mem set_phys_mem]. fold m.
    pose proof (leaf_path_ok v) as Hlp. unfold look. unfold leaf_path in Hlp.
    assert (Hp2 : path_ok [index v 0; index v 1]) by (apply (path_ok_indices v [0; 1]); simpl; lia).
    assert (Hp1 : path_ok [index v 0]) by (apply (path_ok_indices v [0]); simpl; lia).
    change (phys_mem s') with m'. rewrite !Htbl by done.
    destruct (tbl m root [index v 0; index v 1; index v 2]) as [b|] eqn:T3.
    + rewrite (Hent b (index v 3) (tree_aligned _ _ _ _ _ Ht Hlp T3) (index_ok v 3)).
      destruct (decide (same_page v virt)) as [(E0 & E1 & E2 & E3)|Hns].
      * rewrite decide_True; [done|]. split; [|done]. unfold leaf_path in Ha. congruence.
      * rewrite decide_False; [done|]. intros [-> E3]. apply Hns.
        pose proof (tr_inj _ _ _ Ht _ _ a Hlp (leaf_path_ok virt) T3 Ha) as [= ? ? ?]. done.
    + rewrite (decide_False (P := same_page v virt)).
      2:{ intros (E0 & E1 & E2 & _). unfold leaf_path in Ha. congruence. }
      destruct (tbl m root [index v 0; index v 1]) as [b|] eqn:T2; [by rewrite (Hup [index v 0; index v 1] b (index v 2))|].
      destruct (tbl m root [index v 0]) as [b|] eqn:T1; [by rewrite (Hup [index v 0] b (index v 1))|done].
Qed.

(** ** The operations on one page, where no huge page is in the way *)

(** The step [child_table] takes on the path of [v], when nothing is mapped at
    [v]: the entry is not a huge page. *)
Lemma look_none_step root s pm v p i a :
  vm_inv s pm root → look (phys_mem s) root v = None →
  (p, i) ∈ [([], index v 0); ([index v 0], index v 1); ([index v 0; index v 1], index v 2)] →
  tbl (phys_mem s) root p = Some a →
  path_ok (p ++ [i]) ∧
  (has (ent (phys_mem s) a i) PRESENT = true → has (ent (phys_mem s) a i) HUGE = false).
Proof.
  intros [_ _ _ Ht] Hl Hin Ha. set (m := phys_mem s) in *.
  rewrite !elem_of_cons, elem_of_nil in Hin.
  assert (Hp : path_ok (p ++ [i])).
  { destruct Hin as [[= -> ->]|[[= -> ->]|[[= -> ->]|[]]]].
    - apply (path_ok_indices v [0]). simpl. lia.
    - apply (path_ok_indices v [0; 1]). simpl. lia.
    - apply (path_ok_indices v [0; 1; 2]). simpl. lia. }
  split; [done|]. intros EP. destruct (has (ent m a i) HUGE) eqn:EH; [exfalso|done].
  assert (Es : sub_table (ent m a i) = None) by (unfold sub_table; by rewrite EP, EH).
  assert (En : tbl m root (p ++ [i]) = None) by (by rewrite tbl_snoc, Ha).
  unfold look in Hl. destruct Hin as [[= -> ->]|[[= -> ->]|[[= -> ->]|[]]]].
  - simpl in Ha. injection Ha as <-. by rewrite (tr_top _ _ _ Ht _ (index_ok v 0) EP) in EH.
  - assert (E3 : tbl m root [index v 0; index v 1; index v 2] = None).
    { change [index v 0; index v 1; index v 2] with ([index v 0; index v 1] ++ [index v 2]).
      rewrite tbl_snoc. cbn [app] in En. by rewrite En. }
    cbn [app] in En. rewrite E3, En, Ha in Hl. unfold present in Hl. by rewrite EP in Hl.
  - cbn [app] in En. rewrite En, Ha in Hl. unfold present in Hl. by rewrite EP in Hl.
Qed.

(** The tables above an unmapped page, made if need be. *)
Lemma descend_spec root s pm virt :
  vm_inv s pm root → look (phys_mem s) root virt = None →
  let m := (let! pdpt := child_table root (index virt 0) in
            let! pd := pd_for pdpt virt in pt_for pd virt) in
  ((size (free_set pm) < 3)%nat ∧ fst (m s) = Panic) ∨
  ∃ a s' pm', m s = (Ok a, s') ∧
    grows root s pm s' pm' ∧ tbl (phys_mem s') root (leaf_path virt) = Some a ∧
    (size (free_set pm) ≤ size (free_set pm') + 3)%nat ∧
    (∀ g, g ∈ free_set pm → g ∉ free_set pm' → on_path (phys_mem s') root virt (g * PAGE_SIZE)).
Proof.
  intros H0 L0. cbv zeta.
  destruct (look_none_step root s pm virt [] (index virt 0) root H0 L0) as [P0 N0]; [by left|done|].
  destruct (child_table_spec root s pm [] root (index virt 0) H0 P0 eq_refl N0)
    as [[Z1 E1]|(a1 & s1 & pm1 & E1 & G1 & T1 & Z1 & U1)].
  { left. rewrite Z1, size_empty. split; [lia|]. unfold bind. by destruct (child_table root _ s) as [[] ?]. }
  cbn [app] in T1. pose proof (gw_inv _ _ _ _ _ G1) as H1.
  assert (L1 : look (phys_mem s1) root virt = None) by (by rewrite (gw_look _ _ _ _ _ G1)).
  destruct (look_none_step root s1 pm1 virt [index virt 0] (index virt 1) a1 H1 L1) as [P1 N1];
    [right; left|done|]. rewrite (bind_ok _ _ _ _ _ E1).
  assert (Epd : pd_for a1 virt s1 = child_table a1 (index virt 1) s1).
  { unfold pd_for, get_entry. unfold bind at 1. destruct (has (ent (phys_mem s1) a1 (index virt 1)) PRESENT) eqn:EP; [rewrite (N1 eq_refl)|];
      cbn [andb]; by rewrite (bind_ok (ret tt) _ s1 tt s1 eq_refl). }
  destruct (child_table_spec root s1 pm1 _ a1 (index virt 1) H1 P1 T1 N1)
    as [[Z2 E2]|(a2 & s2 & pm2 & E2 & G2 & T2 & Z2 & U2)].
  { left. rewrite Z2, size_empty in Z1. split; [lia|]. unfold bind. rewrite Epd. by destruct (child_table a1 _ s1) as [[] ?]. }
  cbn [app] in T2. pose proof (gw_inv _ _ _ _ _ G2) as H2.
  assert (L2 : look (phys_mem s2) root virt = None) by (by rewrite (gw_look _ _ _ _ _ G2)).
  destruct (look_none_step root s2 pm2 virt [index virt 0; index virt 1] (index virt 2) a2 H2 L2) as [P2 N2];
    [right; right; left|done|]. rewrite E2 in Epd. rewrite (bind_ok _ _ _ _ _ Epd).
  assert (Ept : pt_for a2 virt s2 = child_table a2 (index virt 2) s2).
  { unfold pt_for, get_entry. unfold bind at 1. destruct (has (ent (phys_mem s2) a2 (index virt 2)) PRESENT) eqn:EP; [rewrite (N2 eq_refl)|];
      cbn [andb]; by rewrite (bind_ok (ret tt) _ s2 tt s2 eq_refl). }
  rewrite Ept. destruct (child_table_spec root s2 pm2 _ a2 (index virt 2) H2 P2 T2 N2)
    as [[Z3 E3]|(a3 & s3 & pm3 & E3 & G3 & T3 & Z3 & U3)].
  { left. rewrite Z3, size_empty in Z2. split; [lia|done]. }
  cbn [app] in T3. right. exists a3, s3, pm3. split; [done|]. split; [|split; [done|split; [lia|]]].
  - eapply grows_trans; [exact G1|]. by eapply grows_trans.
  - intros g Hg Hn. pose proof (gw_tbl _ _ _ _ _ G3) as K3. pose proof (gw_tbl _ _ _ _ _ G2) as K2.
    destruct (decide (g ∈ free_set pm1)) as [Hg1|Hg1]; [destruct (decide (g ∈ free_set pm2)) as [Hg2|Hg2]|].
    + exists [index virt 0; index virt 1; index virt 2]. split; [by exists []|]. split; [done|]. by rewrite <- (U3 g Hg2 Hn).
    + exists [index virt 0; index virt 1]. split; [by exists [index virt 2]|]. split; [done|]. rewrite <- (U2 g Hg1 Hg2). by apply K3.
    + exists [index virt 0]. split; [by exists [index virt 1; index virt 2]|]. split; [done|]. rewrite <- (U1 g Hg Hg1).
      apply K3, K2; [by apply (path_ok_indices virt [0]); simpl; lia..|done].
Qed.

Definition leaf_entry (phys flags : Z) : Z := Z.lor (Z.lor (Z.land phys ADDR_MASK) flags) PRESENT.

Lemma leaf_entry_range phys flags : 0 ≤ flags < 2^64 → 0 ≤ leaf_entry phys flags < 2^64.
Proof.
  intros Hf. apply lor_range; [lia| |done]. apply lor_range; [lia| |done].
  rewrite Z.land_comm. assert (0 ≤ Z.land ADDR_MASK phys).
  { apply Z.land_nonneg. by left. }
  split; [done|]. apply bits_bounded; [lia|done|]. intros i Hi. rewrite Z.land_spec, addr_mask_bit by lia.
  by rewrite (proj2 (Z.ltb_ge i 52)), andb_false_r by lia.
Qed.

(** What mapping the page of [virt] leaves. *)
Record mapped (root : Z) (s : PState) (pm : Pmm) (s' : PState) (pm' : Pmm) (virt value : Z) : Prop := {
  mp_inv : vm_inv s' pm' root;
  mp_free : free_set pm' ⊆ free_set pm;
  mp_total : total_frames pm' = total_frames pm;
  mp_new : ∀ q b, path_ok q → tbl (phys_mem s') root q = Some b →
    tbl (phys_mem s) root q = Some b ∨ ∃ g, b = g * PAGE_SIZE ∧ g ∈ free_set pm ∧ g ∉ free_set pm';
  mp_look : ∀ v, look (phys_mem s') root v =
    if decide (same_page v virt) then present 3 value else look (phys_mem s) root v;
  mp_mem : ∀ x, private (phys_mem s) pm root x → read8 (phys_mem s') x = read8 (phys_mem s) x;
  mp_size : (size (free_set pm) ≤ size (free_set pm') + 3)%nat;
  mp_tbl : ∀ q b, path_ok q → tbl (phys_mem s) root q = Some b → tbl (phys_mem s') root q = Some b;
  mp_used : ∀ g, g ∈ free_set pm → g ∉ free_set pm' → on_path (phys_mem s') root virt (g * PAGE_SIZE)
}.

Lemma map4k_spec root s pm virt phys flags :
  vm_inv s pm root → look (phys_mem s) root virt = None → 0 ≤ flags < 2^64 →
  ((size (free_set pm) < 3)%nat ∧ fst (map4k root virt phys flags s) = Panic) ∨
  ∃ s' pm', map4k root virt phys flags s = (Ok tt, s') ∧
    mapped root s pm s' pm' virt (leaf_entry phys flags).
Proof.
  intros Hinv Hl Hf. destruct (descend_spec root s pm virt Hinv Hl) as [[Z E]|(a & s1 & pm1 & E & G & T & Z & U)].
  { left. split; [done|]. unfold map4k. unfold bind in E |- *. destruct (child_table root (index virt 0) s) as [[pdpt|e| |] s2]; try done.
    destruct (pd_for pdpt virt s2) as [[pd|e| |] s3]; try done. by destruct (pt_for pd virt s3) as [[pt|e| |] s4]. }
  pose proof G as [Hi1 Hfr Htot Htbl Hnew Hlook Hmem _].
  destruct (set_leaf_spec root s1 pm1 virt a (leaf_entry phys flags) Hi1 T (leaf_entry_range _ _ Hf)) as [Hi2 Hls].
  right. eexists _, pm1. split.
  - unfold map4k. unfold bind in E |- *. destruct (child_table root (index virt 0) s) as [[pdpt|e| |] s2]; try done.
    destruct (pd_for pdpt virt s2) as [[pd|e| |] s3]; try done.
    destruct (pt_for pd virt s3) as [[pt|e| |] s4]; try done. injection E as -> ->. reflexivity.
  - destruct Hls as [Lt Ll Lm]. split; [exact Hi2|done|done| | | |done| |].
    + intros q b Hq. rewrite Lt by done. by apply Hnew.
    + intros v. rewrite Ll. case_decide; [done|]. apply Hlook.
    + intros x Hx. rewrite (Lm pm1); [by apply Hmem|]. by eapply private_grows.
    + intros q b Hq Hb. rewrite Lt by done. by apply Htbl.
    + intros g Hg Hn. destruct (U g Hg Hn) as (q & Hq & Hne & Hb). exists q. split; [done|]. split; [done|].
      rewrite Lt; [done|]. destruct Hq as [r Hr]. pose proof (leaf_path_ok virt) as [Hlen Hall]. rewrite Hr in Hlen, Hall.
      rewrite length_app in Hlen. apply Forall_app in Hall as [Hall _]. split; [lia|done].
Qed.

(** The leaf of a page that a 4 KiB entry maps. *)
Lemma leaf_for_spec root s pm virt e :
  vm_inv s pm root → look (phys_mem s) root virt = Some (3, e) →
  ∃ a, leaf_for root virt s = (Ok (Some (a + 8 * index virt 3)), s) ∧
    tbl (phys_mem s) root (leaf_path virt) = Some a ∧ ent (phys_mem s) a (index virt 3) = e ∧
    has e PRESENT = true.
Proof.
  intros [_ _ _ Ht] Hl. set (m := phys_mem s) in *. unfold look in Hl.
  destruct (tbl m root [index virt 0; index virt 1; index virt 2]) as [a3|] eqn:T3.
  2:{ repeat case_match; unfold present in *; repeat case_match; simplify_eq. }
  unfold present in Hl. destruct (has (ent m a3 (index virt 3)) PRESENT) eqn:E3; [|done].
  injection Hl as <-. exists a3. split; [|done].
  cbn [tbl] in T3. destruct (sub_table (ent m root (index virt 0))) as [a1|] eqn:S0; [|done]. simpl in T3.
  destruct (sub_table (ent m a1 (index virt 1))) as [a2|] eqn:S1; [|done]. simpl in T3.
  destruct (sub_table (ent m a2 (index virt 2))) as [b|] eqn:S2; [|done]. simpl in T3. injection T3 as ->.
  assert (Hs : ∀ e b, sub_table e = Some b → has e PRESENT = true ∧ has e HUGE = false ∧ Z.land e ADDR_MASK = b).
  { intros e b. unfold sub_table. destruct (has e PRESENT), (has e HUGE); try done. simpl. intros [= <-]. done. }
  apply Hs in S0 as (P0 & G0 & A0), S1 as (P1 & G1 & A1), S2 as (P2 & G2 & A2).
  subst m. unfold leaf_for, get_entry, bind, ret. rewrite P0, G0, A0. cbn [negb orb].
  rewrite P1, G1. cbn [negb]. rewrite A1, P2, G2. cbn [negb]. by rewrite A2, E3.
Qed.

(** Changing that leaf. *)
Record releafed (root : Z) (s : PState) (pm : Pmm) (s' : PState) (virt value : Z) : Prop := {
  rl_inv : vm_inv s' pm root;
  rl_look : ∀ v, look (phys_mem s') root v =
    if decide (same_page v virt) then present 3 value else look (phys_mem s) root v;
  rl_mem : ∀ x, private (phys_mem s) pm root x → read8 (phys_mem s') x = read8 (phys_mem s) x
}.

Lemma unmap_leaf_spec root s pm virt e :
  vm_inv s pm root → look (phys_mem s) root virt = Some (3, e) →
  ∃ s', unmap_leaf root virt s = (Ok (Some (Z.land e ADDR_MASK)), s') ∧ releafed root s pm s' virt 0.
Proof.
  intros Hinv Hl. destruct (leaf_for_spec root s pm virt e Hinv Hl) as (a & E & T & Ee & _).
  destruct (set_leaf_spec root s pm virt a 0 Hinv T ltac:(lia)) as [Hi [Lt Ll Lm]].
  eexists. split.
  - unfold unmap_leaf. rewrite (bind_ok _ _ _ _ _ E). unfold bind, read_leaf, write_leaf, ret.
    unfold ent in Ee. rewrite Ee. reflexivity.
  - split; [exact Hi|exact Ll|exact (Lm pm)].
Qed.

Lemma protect_leaf_spec root s pm virt e flags :
  vm_inv s pm root → look (phys_mem s) root virt = Some (3, e) → 0 ≤ flags < 2^64 →
  ∃ s', protect_leaf root virt flags s = (Ok true, s') ∧ releafed root s pm s' virt (leaf_entry e flags).
Proof.
  intros Hinv Hl Hf. destruct (leaf_for_spec root s pm virt e Hinv Hl) as (a & E & T & Ee & _).
  destruct (set_leaf_spec root s pm virt a (leaf_entry e flags) Hinv T (leaf_entry_range _ _ Hf)) as [Hi [Lt Ll Lm]].
  eexists. split.
  - unfold protect_leaf. rewrite (bind_ok _ _ _ _ _ E). unfold bind, read_leaf, write_leaf, ret.
    unfold ent in Ee. rewrite Ee. reflexivity.
  - split; [exact Hi|exact Ll|exact (Lm pm)].
Qed.
