(* ===== verification/VmmUser.v ===== *)
(** * User memory and address spaces

    What mapping, unmapping and protecting a user page do to every address,
    copies to and from user memory, and the life of an address space. *)
From stdpp Require Import base numbers list gmap sets.
From Stdlib Require Import ZArith Lia Bool.
From S2P Require Import Prelude Bytes Mem Pmm Vmm VmmTables.
Import Vmm.

(** ** Indices and pages *)
Lemma index_div v l : 0 ≤ l ≤ 3 → index v l = (v / PAGE_SIZE / 2^(27 - 9 * l)) mod 512.
Proof.
  intros Hl. unfold index. change 0x1ff with (2^9 - 1). rewrite land_mask by lia.
  rewrite Z.shiftr_div_pow2 by lia. change 512 with (2^9). f_equal.
  rewrite Z.div_div by (unfold PAGE_SIZE; lia). f_equal. change PAGE_SIZE with (2^12).
  rewrite <- Z.pow_add_r by lia. f_equal. lia.
Qed.

Lemma same_page_div v w : v / PAGE_SIZE = w / PAGE_SIZE → same_page v w.
Proof. intros E. unfold same_page. rewrite !index_div, E by lia. done. Qed.

Lemma same_page_user v w :
  0 ≤ v < 2^48 → 0 ≤ w < 2^48 → same_page v w ↔ v / PAGE_SIZE = w / PAGE_SIZE.
Proof.
  intros Hv Hw. split; [|apply same_page_div]. intros (E0 & E1 & E2 & E3).
  rewrite !index_div in * by lia. simpl in *.
  assert (Hn : 0 ≤ v / PAGE_SIZE < 2^36 ∧ 0 ≤ w / PAGE_SIZE < 2^36).
  { unfold PAGE_SIZE. split; split; try (apply Z.div_pos; lia); apply Z.div_lt_upper_bound; lia. }
  set (a := v / PAGE_SIZE) in *. set (b := w / PAGE_SIZE) in *. clearbody a b. clear Hv Hw v w.
  change (2 ^ 36) with 68719476736 in Hn. change (Z.pow_pos 2 27) with 134217728 in *.
  change (Z.pow_pos 2 18) with 262144 in *. change (Z.pow_pos 2 9) with 512 in *.
  change (2 ^ (27 - 9 * 0)) with 134217728 in *. change (2 ^ (27 - 9 * 1)) with 262144 in *.
  change (2 ^ (27 - 9 * 2)) with 512 in *. change (2 ^ (27 - 9 * 3)) with 1 in *.
  Z.div_mod_to_equations. lia.
Qed.

Lemma page_offset v k : v mod PAGE_SIZE = 0 → 0 ≤ k < PAGE_SIZE → Z.land (v + k) (PAGE_SIZE - 1) = k.
Proof.
  intros Hv Hk. change PAGE_SIZE with (2^12) in *. rewrite land_mask by lia.
  rewrite Z.add_mod, Hv, Z.add_0_l, Z.mod_mod by lia. by apply Z.mod_small.
Qed.

Lemma page_same v k : v mod PAGE_SIZE = 0 → 0 ≤ k < PAGE_SIZE → same_page (v + k) v.
Proof.
  intros Hv Hk. apply same_page_div. unfold PAGE_SIZE in *. Z.div_mod_to_equations. lia.
Qed.

Lemma same_page_refl v : same_page v v.
Proof. done. Qed.
#[export] Hint Resolve same_page_refl : core.

(** ** User leaf entries *)
Lemma user_flags_facts flags :
  flags ∈ user_flags →
  0 ≤ flags < 2^64 ∧ Z.land flags ADDR_MASK = 0 ∧ has_all flags (Z.lor PRESENT USER) = true ∧
  Z.testbit flags 7 = false ∧
  (has_all flags (Z.lor (Z.lor PRESENT USER) WRITABLE) = bool_decide (flags = USER_RW)).
Proof.
  unfold user_flags. rewrite !elem_of_cons, elem_of_nil.
  intros [->|[->|[->|[]]]]; (split; [vm_compute; split; [discriminate|reflexivity]|]); by vm_compute.
Qed.

Lemma has_all_bits e bits :
  0 ≤ bits → has_all e bits = true ↔ ∀ i, 0 ≤ i → Z.testbit bits i = true → Z.testbit e i = true.
Proof.
  intros Hb. unfold has_all. rewrite Z.eqb_eq. split.
  - intros E i Hi Ht. rewrite <- E, Z.land_spec in Ht. by apply andb_true_iff in Ht as [? _].
  - intros H. apply Z.bits_inj'. intros i Hi. rewrite Z.land_spec.
    destruct (Z.testbit bits i) eqn:E; [by rewrite H|apply andb_false_r].
Qed.

(** The bits of a leaf below the address are those of the flags. *)
Lemma leaf_low phys flags i :
  0 ≤ i < 12 → Z.testbit flags 0 = true → Z.testbit (leaf_entry phys flags) i = Z.testbit flags i.
Proof.
  intros Hi H0. unfold leaf_entry. rewrite !Z.lor_spec, Z.land_spec, addr_mask_bit by lia.
  rewrite (proj2 (Z.leb_gt 12 i)) by lia. cbn [andb]. rewrite andb_false_r. cbn [orb].
  destruct (decide (i = 0)) as [->|]; [by rewrite H0|].
  unfold PRESENT. rewrite shiftl_1, testbit_pow2 by lia. rewrite (proj2 (Z.eqb_neq i 0)) by done. apply orb_false_r.
Qed.

Lemma has_all_low phys flags bits :
  0 ≤ bits < 2^12 → Z.testbit flags 0 = true → has_all (leaf_entry phys flags) bits = has_all flags bits.
Proof.
  intros Hb H0. apply eq_true_iff_eq. rewrite !has_all_bits by lia.
  split; intros H i Hi Ht; (assert (i < 12) by
    (destruct (Z.lt_ge_cases i 12); [done|]; by rewrite (testbit_high bits 12) in Ht by lia));
    specialize (H i Hi Ht); pose proof (leaf_low phys flags i ltac:(lia) H0); congruence.
Qed.

Lemma leaf_addr g flags :
  0 ≤ g < 2^40 → 0 ≤ flags → Z.land flags ADDR_MASK = 0 →
  Z.land (leaf_entry (g * PAGE_SIZE) flags) ADDR_MASK = g * PAGE_SIZE.
Proof.
  intros Hg Hf H0. unfold leaf_entry.
  replace (Z.land (g * PAGE_SIZE) ADDR_MASK) with (g * PAGE_SIZE).
  2:{ bitwise i. rewrite addr_mask_bit, (page_bits g i) by lia.
      destruct ((12 <=? i) && (i <? 52)); cbn [andb]; rewrite ?andb_true_r, ?andb_false_r; done. }
  rewrite <- Z.lor_assoc. apply entry_addr; [done| |].
  - apply Z.lor_nonneg. split; [done|]. by vm_compute.
  - rewrite Z.land_lor_distr_l, H0. done.
Qed.

Definition RW_BITS : Z := Z.lor (Z.lor PRESENT USER) WRITABLE.
Definition RO_BITS : Z := Z.lor PRESENT USER.

(** What the user walks give on a page with a user leaf. *)
Lemma user_walk_leaf m pm root v g flags bits :
  tree m pm root → look m root v = present 3 (leaf_entry (g * PAGE_SIZE) flags) →
  0 ≤ g < 2^40 → flags ∈ user_flags → 0 ≤ bits < 2^12 → Z.testbit bits 0 = true →
  walk_user_with bits m root v =
  if has_all flags bits then Some (g * PAGE_SIZE + Z.land v (PAGE_SIZE - 1)) else None.
Proof.
  intros Ht Hl Hg Hf Hb H0. destruct (user_flags_facts flags Hf) as (Hr & Ha & Hu & _ & _).
  assert (Hf0 : Z.testbit flags 0 = true).
  { rewrite has_all_bits in Hu by (by vm_compute). apply Hu; [lia|done]. }
  rewrite (walk_user_look m pm root Ht bits v H0), Hl. unfold present.
  assert (Hp : has (leaf_entry (g * PAGE_SIZE) flags) PRESENT = true).
  { unfold PRESENT at 1. rewrite has_pow2, leaf_low by (done || lia). done. }
  rewrite Hp. cbn [Z.eqb Pos.eqb andb]. rewrite has_all_low by done.
  destruct (has_all flags bits); [|done]. unfold xlate. cbn [Z.eqb Pos.eqb]. by rewrite leaf_addr by lia.
Qed.

Lemma land_page v : Z.land v (PAGE_SIZE - 1) = v mod PAGE_SIZE.
Proof. change PAGE_SIZE with (2^12). by apply land_mask. Qed.

Lemma walk_none m pm root v : tree m pm root → walk m root v = None → look m root v = None.
Proof. intros Ht. rewrite (walk_look m pm root Ht). by destruct (look m root v). Qed.

(** Nothing but the page of [virt] changes for the walks. *)
Definition walks_same (m m' : memory) (root virt : Z) : Prop :=
  ∀ v, ¬ same_page v virt →
    walk m' root v = walk m root v ∧ walk_user m' root v = walk_user m root v ∧
    walk_user_write m' root v = walk_user_write m root v.

Lemma walks_same_look m m' pm pm' root virt value :
  tree m pm root → tree m' pm' root →
  (∀ v, look m' root v = if decide (same_page v virt) then present 3 value else look m root v) →
  walks_same m m' root virt.
Proof.
  intros Ht Ht' Hl v Hv. unfold walk_user, walk_user_write.
  rewrite !(walk_look _ _ _ Ht), !(walk_look _ _ _ Ht').
  rewrite !(walk_user_look _ _ _ Ht), !(walk_user_look _ _ _ Ht') by done.
  rewrite Hl, decide_False by done. done.
Qed.

(** What a page with user flags looks like to the walks. *)
Definition page_view (m : memory) (root virt phys flags : Z) : Prop :=
  ∀ k, 0 ≤ k < PAGE_SIZE →
    walk_user m root (virt + k) = Some (phys + k) ∧
    walk_user_write m root (virt + k) = if bool_decide (flags = USER_RW) then Some (phys + k) else None.

Lemma page_view_look m pm root virt g flags :
  tree m pm root → virt mod PAGE_SIZE = 0 → 0 ≤ g < 2^40 → flags ∈ user_flags →
  (∀ v, same_page v virt → look m root v = present 3 (leaf_entry (g * PAGE_SIZE) flags)) →
  page_view m root virt (g * PAGE_SIZE) flags.
Proof.
  intros Ht Hv Hg Hf Hl k Hk. destruct (user_flags_facts flags Hf) as (_ & _ & Hu & _ & Hw).
  pose proof (Hl (virt + k) (page_same virt k Hv Hk)) as El.
  unfold walk_user, walk_user_write. split.
  - rewrite (user_walk_leaf m pm root _ g flags) by done. by rewrite Hu, page_offset.
  - rewrite (user_walk_leaf m pm root _ g flags) by done. by rewrite Hw, page_offset.
Qed.

(** On a page that is not mapped, [map] passes its checks. *)
Lemma map_run root s virt g flags :
  0 ≤ virt < USER_SPACE_END → virt mod PAGE_SIZE = 0 → flags ∈ user_flags → walk (phys_mem s) root virt = None →
  map root virt (g * PAGE_SIZE) flags s = map4k root virt (g * PAGE_SIZE) flags s.
Proof.
  intros Hv Hal Hf Hw. unfold map. rewrite land_page, Hal, land_page, Z.mod_mul by done.
  rewrite (proj2 (Z.ltb_lt _ _)) by lia. rewrite (bool_decide_true _ Hf). cbn [Z.eqb].
  rewrite !(bind_ok (massert true) _ s tt s eq_refl). rewrite (bind_ok _ _ s tt s); [done|]. by rewrite Hw.
Qed.

(** C24: Mapping a user page that is not mapped, with three frames free for
    tables, maps exactly it: every byte of the page translates to the frame,
    for reading, and for writing if the flags say so; every other address
    translates as before; the tables stay a tree; and no byte in use outside
    the tables changes. *)
Theorem user_map_correct root s pm virt g flags :
  vm_inv s pm root → 0 ≤ virt < USER_SPACE_END → virt mod PAGE_SIZE = 0 → 0 ≤ g < 2^40 →
  flags ∈ user_flags → walk (phys_mem s) root virt = None → (3 ≤ size (free_set pm))%nat →
  ∃ s' pm', map root virt (g * PAGE_SIZE) flags s = (Ok tt, s') ∧ vm_inv s' pm' root ∧
    page_view (phys_mem s') root virt (g * PAGE_SIZE) flags ∧
    walks_same (phys_mem s) (phys_mem s') root virt ∧
    ∀ x, private (phys_mem s) pm root x → read8 (phys_mem s') x = read8 (phys_mem s) x.
Proof.
  intros Hinv Hv Hal Hg Hf Hw Hsz. pose proof (vi_tree _ _ _ Hinv) as Ht.
  destruct (user_flags_facts flags Hf) as (Hr & _).
  destruct (map4k_spec root s pm virt (g * PAGE_SIZE) flags Hinv (walk_none _ _ _ _ Ht Hw) Hr)
    as [[? _]|(s' & pm' & E & [Hi' _ _ _ Hl Hm _ _ _])]; [lia|].
  exists s', pm'. pose proof (vi_tree _ _ _ Hi') as Ht'. split; [|split; [done|split; [|split; [|done]]]].
  - rewrite map_run by done. exact E.
  - apply (page_view_look _ pm'); try done. intros v Hsv. by rewrite Hl, decide_True.
  - by apply (walks_same_look _ _ pm pm' _ _ (leaf_entry (g * PAGE_SIZE) flags)).
Qed.

(** Unmapping a mapped user page gives back its frame and unmaps exactly
    it; protecting it keeps its frame, changes exactly its permissions, and is
    refused, without a change, outside user space or for other flags. *)
Theorem user_unmap_protect root s pm virt g flags flags' :
  vm_inv s pm root → 0 ≤ virt < USER_SPACE_END → virt mod PAGE_SIZE = 0 → 0 ≤ g < 2^40 →
  flags ∈ user_flags → look (phys_mem s) root virt = Some (3, leaf_entry (g * PAGE_SIZE) flags) →
  (∃ s', unmap root virt s = (Ok (Some (g * PAGE_SIZE)), s') ∧ vm_inv s' pm root ∧
     (∀ k, 0 ≤ k < PAGE_SIZE → walk (phys_mem s') root (virt + k) = None) ∧
     walks_same (phys_mem s) (phys_mem s') root virt) ∧
  (if bool_decide (flags' ∈ user_flags)
   then ∃ s', protect root virt flags' s = (Ok true, s') ∧ vm_inv s' pm root ∧
     page_view (phys_mem s') root virt (g * PAGE_SIZE) flags' ∧
     walks_same (phys_mem s) (phys_mem s') root virt
   else protect root virt flags' s = (Ok false, s)).
Proof.
  intros Hinv Hv Hal Hg Hf Hl. pose proof (vi_tree _ _ _ Hinv) as Ht.
  destruct (user_flags_facts flags Hf) as (Hr & Ha & _). split.
  - destruct (unmap_leaf_spec root s pm virt _ Hinv Hl) as (s' & E & [Hi' Hl' _]).
    rewrite leaf_addr in E by (done || lia). exists s'. pose proof (vi_tree _ _ _ Hi') as Ht'.
    split; [|split; [done|split]].
    + unfold unmap. rewrite (proj2 (Z.ltb_lt _ _)) by lia. by rewrite (bind_ok (massert true) _ s tt s eq_refl).
    + intros k Hk. rewrite (walk_look _ _ _ Ht'), Hl', decide_True by (by apply page_same). done.
    + by apply (walks_same_look _ _ pm pm _ _ 0).
  - unfold protect. rewrite (proj2 (Z.leb_gt _ _)) by lia. cbn [orb].
    destruct (decide (flags' ∈ user_flags)) as [Hf'|Hf'].
    + rewrite (bool_decide_true _ Hf'). cbn [negb].
      destruct (user_flags_facts flags' Hf') as (Hr' & _).
      destruct (protect_leaf_spec root s pm virt _ flags' Hinv Hl Hr') as (s' & E & [Hi' Hl' _]).
      exists s'. pose proof (vi_tree _ _ _ Hi') as Ht'. split; [done|]. split; [done|].
      assert (Ee : leaf_entry (leaf_entry (g * PAGE_SIZE) flags) flags' = leaf_entry (g * PAGE_SIZE) flags').
      { unfold leaf_entry at 1 3. do 2 f_equal. rewrite leaf_addr by (done || lia).
        symmetry. bitwise i. rewrite addr_mask_bit, (page_bits g i) by lia.
        destruct ((12 <=? i) && (i <? 52)); cbn [andb]; rewrite ?andb_true_r, ?andb_false_r; done. }
      rewrite Ee in Hl'. split.
      * apply (page_view_look _ pm); try done. intros v Hsv. by rewrite Hl', decide_True.
      * by apply (walks_same_look _ _ pm pm _ _ (leaf_entry (g * PAGE_SIZE) flags')).
    + rewrite !(bool_decide_false _ Hf'). done.
Qed.

(** ** Copies *)
Definition uwalk (write : bool) : memory → Z → Z → option Z :=
  if write then walk_user_write else walk_user.
Definition ubits (write : bool) : Z := if write then RW_BITS else RO_BITS.

(** The user walks, on a tree. *)
Lemma uwalk_Some write m pm root v p :
  tree m pm root →
  uwalk write m root v = Some p ↔
  ∃ e, look m root v = Some (3, e) ∧ has_all e (ubits write) = true ∧
    p = Z.land e ADDR_MASK + v mod PAGE_SIZE.
Proof.
  intros Ht. assert (Hu : uwalk write m root v = walk_user_with (ubits write) m root v) by (by destruct write).
  rewrite Hu, (walk_user_look _ _ _ Ht) by (by destruct write). rewrite <- land_page.
  destruct (look m root v) as [[lvl e]|]; [|naive_solver].
  destruct (Z.eqb_spec lvl 3) as [->|]; cbn [andb]; [|naive_solver].
  destruct (has_all e (ubits write)) eqn:E; unfold xlate; cbn [Z.eqb Pos.eqb].
  - split; [intros [= <-]; by exists e|]. by intros (e' & [= <-] & _ & ->).
  - split; [done|]. intros (e' & [= <-] & He & _). congruence.
Qed.

Lemma look_page m root v w : same_page v w → look m root v = look m root w.
Proof. intros (E0 & E1 & E2 & E3). unfold look. by rewrite E0, E1, E2, E3. Qed.

Lemma land_mask_page e : ∃ g, Z.land e ADDR_MASK = g * PAGE_SIZE.
Proof.
  exists (Z.land e ADDR_MASK / PAGE_SIZE). change PAGE_SIZE with (2^12).
  rewrite <- Z.shiftr_div_pow2, <- Z.shiftl_mul_pow2 by lia. bitwise i.
  rewrite Z.shiftl_spec by lia. destruct (Z.lt_ge_cases i 12).
  - rewrite (Z.testbit_neg_r _ (i - 12)) by lia. rewrite addr_mask_bit by lia.
    by rewrite (proj2 (Z.leb_gt 12 i)), andb_false_r by lia.
  - rewrite Z.shiftr_spec, Z.land_spec by lia. by replace (i - 12 + 12) with i by lia.
Qed.

(** The user half is the processes' own: user frames are in use, are no tables
    and are mapped once. *)
Record user_ok (m : memory) (pm : Pmm) (root : Z) : Prop := {
  uo_private : ∀ v p, 0 ≤ v < USER_SPACE_END → uwalk false m root v = Some p → private m pm root p;
  uo_inj : ∀ v w p q, 0 ≤ v < USER_SPACE_END → 0 ≤ w < USER_SPACE_END →
    uwalk false m root v = Some p → uwalk false m root w = Some q →
    p / PAGE_SIZE = q / PAGE_SIZE → same_page v w
}.

Section SameTables.
Context (m m' : memory) (pm : Pmm) (root : Z) (Ht : tree m pm root).
Context (Hsame : ∀ x, ¬ private m pm root x → read8 m' x = read8 m x).

Lemma ent_private q b j : path_ok q → tbl m root q = Some b → is_index j → ent m' b j = ent m b j.
Proof using Ht Hsame.
  intros Hq Hb Hj. destruct (tree_aligned _ _ _ _ _ Ht Hq Hb) as [g ->].
  unfold ent, read64. f_equal. apply read_bytes_ext. intros x Hx. apply Hsame.
  intros (h & Hh & _ & Hn). apply (Hn q Hq). rewrite Hb. do 2 f_equal.
  unfold is_index, PAGE_SIZE in *. lia.
Qed.

Lemma tbl_private q : path_ok q → tbl m' root q = tbl m root q.
Proof using Ht Hsame.
  induction q as [|j q IH] using rev_ind; intros Hq; [done|].
  destruct (path_ok_snoc _ _ Hq) as (Hq' & _ & Hj). rewrite !tbl_snoc, IH by done.
  destruct (tbl m root q) as [b|] eqn:Eb; [|done]. simpl. by rewrite (ent_private q b j).
Qed.

Lemma look_private v : look m' root v = look m root v.
Proof using Ht Hsame.
  assert (Hok : ∀ ls, (length ls ≤ 3)%nat → path_ok (List.map (index v) ls)) by (intros; by apply path_ok_indices).
  pose proof (Hok [0] ltac:(simpl; lia)) as P1. pose proof (Hok [0; 1] ltac:(simpl; lia)) as P2.
  pose proof (Hok [0; 1; 2] ltac:(simpl; lia)) as P3. cbn [List.map] in P1, P2, P3.
  unfold look. rewrite !tbl_private by done.
  destruct (tbl m root [index v 0; index v 1; index v 2]) as [b|] eqn:T3; [by rewrite (ent_private _ _ _ P3 T3)|].
  destruct (tbl m root [index v 0; index v 1]) as [b|] eqn:T2; [by rewrite (ent_private _ _ _ P2 T2)|].
  destruct (tbl m root [index v 0]) as [b|] eqn:T1; [by rewrite (ent_private _ _ _ P1 T1)|done].
Qed.

Lemma tree_private : tree m' pm root.
Proof using Ht Hsame.
  split.
  - intros q b Hq. rewrite tbl_private by done. by apply (tr_frame _ _ _ Ht).
  - intros q r b Hq Hr. rewrite !tbl_private by done. by apply (tr_inj _ _ _ Ht).
  - intros j Hj. rewrite (ent_private [] root j); [by apply (tr_top _ _ _ Ht)| |done|done].
    split; [simpl; lia|constructor].
  - intros q b j Hqj. destruct (path_ok_snoc _ _ Hqj) as (Hq & _ & Hj). rewrite tbl_private by done.
    intros Hb. rewrite (ent_private q b j) by done. by apply (tr_user _ _ _ Ht q).
Qed.

Lemma private_private x : private m' pm root x ↔ private m pm root x.
Proof using Ht Hsame.
  unfold private. split; intros (g & ? & ? & Hn); exists g; (split; [done|]); (split; [done|]);
    intros q Hq; specialize (Hn q Hq); by rewrite tbl_private in *.
Qed.

Lemma uwalk_private write v : uwalk write m' root v = uwalk write m root v.
Proof using Ht Hsame.
  apply option_eq. intros p. rewrite (uwalk_Some write m' pm root v p tree_private), (uwalk_Some write m pm root v p Ht).
  by rewrite look_private.
Qed.

Lemma user_ok_private : user_ok m pm root → user_ok m' pm root.
Proof using Ht Hsame.
  intros [H1 H2]. split.
  - intros v p. rewrite uwalk_private, private_private. apply H1.
  - intros v w p q. rewrite !uwalk_private. apply H2.
Qed.
End SameTables.

(** Along a page the walks give consecutive addresses. *)
Lemma uwalk_page write m pm root v p k :
  tree m pm root → uwalk write m root v = Some p → 0 ≤ v mod PAGE_SIZE + k < PAGE_SIZE →
  uwalk write m root (v + k) = Some (p + k).
Proof.
  intros Ht Hw Hk. apply (uwalk_Some _ _ _ _ _ _ Ht) in Hw as (e & Hl & He & ->).
  apply (uwalk_Some _ _ _ _ _ _ Ht). exists e. split; [|split; [done|]].
  - rewrite (look_page _ _ _ v); [done|]. apply same_page_div. unfold PAGE_SIZE in *. Z.div_mod_to_equations. lia.
  - rewrite <- Z.add_assoc. f_equal. unfold PAGE_SIZE in *. Z.div_mod_to_equations. lia.
Qed.

Lemma uwalk_write_read m pm root v p :
  tree m pm root → uwalk true m root v = Some p → uwalk false m root v = Some p.
Proof.
  intros Ht. rewrite !(uwalk_Some _ _ _ _ _ _ Ht). intros (e & Hl & He & ->). exists e. split; [done|]. split; [|done].
  rewrite has_all_bits in He |- * by (by vm_compute). intros i Hi Hb. apply He; [done|].
  unfold ubits, RW_BITS, RO_BITS in *. rewrite Z.lor_spec, Hb. done.
Qed.

(** The range [va, va + n) is mapped for the access. *)
Definition range_ok (write : bool) (m : memory) (root va n : Z) : Prop :=
  ∀ k, 0 ≤ k < n → is_Some (uwalk write m root (va + k)).

Lemma validate_loop_spec write m pm root va end_ fuel :
  tree m pm root → 0 ≤ va → end_ ≤ USER_SPACE_END →
  (va < end_ → end_ - va / PAGE_SIZE * PAGE_SIZE ≤ Z.of_nat fuel * PAGE_SIZE) →
  ∃ b, validate_loop fuel m root va end_ write = Ok b ∧ (b = true ↔ range_ok write m root va (end_ - va)).
Proof.
  intros Ht. revert va. induction fuel as [|fuel IH]; intros va Hva Hend Hfuel; cbn [validate_loop].
  { assert (end_ ≤ va) by (unfold PAGE_SIZE in *; Z.div_mod_to_equations; lia).
    rewrite (proj2 (Z.ltb_ge va end_)) by done.
    exists true. split; [done|]. split; [|done]. intros _ k Hk. lia. }
  destruct (Z.ltb_spec va end_) as [Hlt|Hge].
  2:{ exists true. split; [done|]. split; [|done]. intros _ k Hk. lia. }
  assert (Eu : (if write then walk_user_write m root va else walk_user m root va) = uwalk write m root va) by (by destruct write).
  rewrite Eu. destruct (uwalk write m root va) as [p|] eqn:Ew.
  2:{ exists false. split; [done|]. split; [done|]. intros Hr. specialize (Hr 0 ltac:(lia)).
      rewrite Z.add_0_r, Ew in Hr. by destruct Hr. }
  assert (Enext : Z.min u64_max (align_down va PAGE_SIZE + PAGE_SIZE) = va / PAGE_SIZE * PAGE_SIZE + PAGE_SIZE).
  { change PAGE_SIZE with (2^12). rewrite align_down_spec by (unfold USER_SPACE_END in *; lia).
    apply Z.min_r. unfold u64_max, USER_SPACE_END in *. change (2^12) with 4096.
    Z.div_mod_to_equations. lia. }
  rewrite Enext. clear Enext.
  rewrite (proj2 (Z.leb_gt _ _)) by (unfold PAGE_SIZE; Z.div_mod_to_equations; lia).
  set (va' := Z.min (va / PAGE_SIZE * PAGE_SIZE + PAGE_SIZE) end_).
  assert (Hva' : va < va' ∧ va' ≤ end_ ∧ va' ≤ va / PAGE_SIZE * PAGE_SIZE + PAGE_SIZE ∧
    (va' = end_ ∨ va' = va / PAGE_SIZE * PAGE_SIZE + PAGE_SIZE)).
  { subst va'. unfold PAGE_SIZE. Z.div_mod_to_equations. lia. }
  clearbody va'.
  destruct (IH va') as (b & E & Hb); [lia|lia| |].
  { intros Hlt'. specialize (Hfuel Hlt). destruct Hva' as (_ & _ & _ & [?|Ev]); [lia|].
    rewrite Ev. rewrite <- (Z.mul_1_l PAGE_SIZE) at 3. rewrite <- Z.mul_add_distr_r, Z.div_mul by done.
    unfold PAGE_SIZE in *. lia. }
  exists b. split; [done|]. rewrite Hb. split.
  - intros Hr k Hk. destruct (Z.lt_ge_cases (va + k) va') as [Hin|Hout].
    + exists (p + k). apply (uwalk_page write m pm); [done|done|]. unfold PAGE_SIZE in *. Z.div_mod_to_equations. lia.
    + replace (va + k) with (va' + (va + k - va')) by lia. apply Hr. lia.
  - intros Hr k Hk. replace (va' + k) with (va + (va' + k - va)) by lia. apply Hr. lia.
Qed.

(** The whole range is user space and mapped for the access. *)
Definition user_range (write : bool) (s : VState) (addr len : Z) : Prop :=
  len = 0 ∨ (addr + len ≤ USER_SPACE_END ∧ range_ok write (phys_mem (pst s)) (current_cr3 s) addr len).

Lemma validate_user_range_spec write s pm addr len :
  vm_inv (pst s) pm (current_cr3 s) → 0 ≤ addr ≤ u64_max → 0 ≤ len →
  ∃ b, validate_user_range addr len write s = Ok b ∧ (b = true ↔ user_range write s addr len).
Proof.
  intros [_ _ _ Ht] Ha Hl. unfold validate_user_range, user_range.
  destruct (Z.eqb_spec len 0) as [->|Hne]; [exists true; naive_solver|].
  unfold checked_add. destruct (Z.leb_spec (addr + len) u64_max) as [Hle|Hgt].
  2:{ exists false. split; [done|]. split; [done|]. intros [?|[? _]]; [done|]. unfold u64_max, USER_SPACE_END in *. lia. }
  destruct (Z.leb_spec USER_SPACE_END addr), (Z.ltb_spec USER_SPACE_END (addr + len)); cbn [orb];
    try (exists false; split; [done|]; split; [done|]; intros [?|[? _]]; [done|lia]).
  destruct (validate_loop_spec write _ pm (current_cr3 s) addr (addr + len) (page_rounds addr (addr + len) + 1) Ht)
    as (b & E & Hb); [lia|lia| |].
  { intros _. unfold page_rounds, PAGE_SIZE. replace (addr + len - addr) with len by lia.
    rewrite Nat2Z.inj_add, Nat2Z.inj_succ, Z2Nat.id by (apply Z.div_pos; lia). Z.div_mod_to_equations. lia. }
  exists b. split; [done|]. rewrite Hb. replace (addr + len - addr) with len by lia. naive_solver.
Qed.

(** The bytes of a range, each through the walk. *)
Definition user_byte (m : memory) (root v : Z) : Z :=
  match uwalk false m root v with Some p => read8 m p | None => 0 end.
Definition user_bytes (m : memory) (root va : Z) (n : nat) : list Z :=
  List.map (λ k, user_byte m root (va + k)) (seqZ 0 (Z.of_nat n)).

Lemma user_bytes_app m root va a b :
  user_bytes m root va (a + b) = user_bytes m root va a ++ user_bytes m root (va + Z.of_nat a) b.
Proof.
  unfold user_bytes. rewrite Nat2Z.inj_add, seqZ_app, map_app by lia. f_equal.
  apply list_eq. intros i. rewrite !list_lookup_fmap.
  destruct (decide (i < b)%nat).
  - rewrite !lookup_seqZ_lt by lia. simpl. do 2 f_equal. lia.
  - rewrite !lookup_seqZ_ge by lia. done.
Qed.

Lemma user_bytes_page m pm root va p n :
  tree m pm root → uwalk false m root va = Some p → va mod PAGE_SIZE + Z.of_nat n ≤ PAGE_SIZE →
  0 ≤ va mod PAGE_SIZE → user_bytes m root va n = read_bytes m p n.
Proof.
  intros Ht Hw Hn Hm. apply list_eq. intros i. unfold user_bytes. rewrite list_lookup_fmap.
  destruct (decide (i < n)%nat).
  - rewrite lookup_seqZ_lt, lookup_read_bytes by lia. simpl. unfold user_byte.
    rewrite (uwalk_page false m pm root va p) by (done || lia). do 2 f_equal.
  - rewrite lookup_seqZ_ge, lookup_ge_None_2 by (rewrite ?length_read_bytes; lia). done.
Qed.

(** The length of the next piece of a copy. *)
Lemma piece_bounds va rest :
  0 ≤ va → (0 < rest)%nat →
  let n := Nat.min rest (Z.to_nat (PAGE_SIZE - Z.land va (PAGE_SIZE - 1))) in
  (0 < n ≤ rest)%nat ∧ 0 ≤ va mod PAGE_SIZE ∧ va mod PAGE_SIZE + Z.of_nat n ≤ PAGE_SIZE ∧
  ((n < rest)%nat → va mod PAGE_SIZE + Z.of_nat n = PAGE_SIZE).
Proof.
  intros Hva Hr n. subst n. rewrite land_page. pose proof (Z.mod_pos_bound va PAGE_SIZE ltac:(done)).
  unfold PAGE_SIZE in *. lia.
Qed.

Lemma copy_from_loop_spec m pm root fuel va rest acc :
  tree m pm root → 0 ≤ va → range_ok false m root va (Z.of_nat rest) → (rest ≤ fuel)%nat →
  copy_from_loop fuel m root va rest acc = Ok (Some (acc ++ user_bytes m root va rest)).
Proof.
  intros Ht. revert va rest acc. induction fuel as [|fuel IH]; intros va rest acc Hva Hr Hf;
    (destruct rest as [|rest']; [unfold user_bytes; simpl; by rewrite app_nil_r|]); [lia|].
  set (rest := S rest') in *. cbn [copy_from_loop]. subst rest. cbv zeta.
  set (rest := S rest') in *. destruct (piece_bounds va rest Hva ltac:(lia)) as (Hn & Hm & Hp & _).
  set (n := Nat.min rest _) in *. clearbody n.
  destruct (Hr 0 ltac:(lia)) as [p Ep]. rewrite Z.add_0_r in Ep. change (walk_user m root va) with (uwalk false m root va).
  rewrite Ep. rewrite IH; [|lia| |lia].
  - rewrite <- app_assoc, <- (user_bytes_page m pm root va) by done. rewrite <- user_bytes_app.
    by replace (n + (rest - n))%nat with rest by lia.
  - intros k Hk. replace (va + Z.of_nat n + k) with (va + (Z.of_nat n + k)) by lia. apply Hr. lia.
Qed.

(** After a copy to user memory: the bytes of the range are [src], and every
    byte that is not one of the range's is as before. *)
Record copied (root va : Z) (src : list Z) (s s' : PState) : Prop := {
  cp_state : s' = set_phys_mem s (phys_mem s');
  cp_in : ∀ k b p, src !! k = Some b → uwalk true (phys_mem s) root (va + Z.of_nat k) = Some p →
    read8 (phys_mem s') p = b;
  cp_out : ∀ x, (∀ k, 0 ≤ k < Z.of_nat (length src) → uwalk true (phys_mem s) root (va + k) ≠ Some x) →
    read8 (phys_mem s') x = read8 (phys_mem s) x
}.

(** Bytes outside the range of private ones are where the tables are. *)
Lemma copied_same root pm va src s s' :
  tree (phys_mem s) pm root → user_ok (phys_mem s) pm root → copied root va src s s' →
  (∀ k, 0 ≤ k < Z.of_nat (length src) → 0 ≤ va + k < USER_SPACE_END) →
  ∀ x, ¬ private (phys_mem s) pm root x → read8 (phys_mem s') x = read8 (phys_mem s) x.
Proof.
  intros Ht [Hpr _] [_ _ Hout] Hv x Hx. apply Hout. intros k Hk Hw. apply Hx.
  apply (Hpr (va + k)); [by apply Hv|]. eapply uwalk_write_read; [exact Ht|exact Hw].
Qed.

Lemma copy_piece root pm va p (n : nat) src s :
  tree (phys_mem s) pm root → user_ok (phys_mem s) pm root → 0 ≤ va →
  uwalk true (phys_mem s) root va = Some p → (n ≤ length src)%nat → va mod PAGE_SIZE + Z.of_nat n ≤ PAGE_SIZE →
  copied root va (take n src) s (set_phys_mem s (write_bytes (phys_mem s) p (take n src))).
Proof.
  intros Ht Hu Hva Hw Hn Hm. pose proof (Z.mod_pos_bound va PAGE_SIZE ltac:(done)) as Hm0.
  assert (Hp : ∀ k, 0 ≤ k < Z.of_nat n → uwalk true (phys_mem s) root (va + k) = Some (p + k)).
  { intros k Hk. apply (uwalk_page _ _ pm); [done|done|lia]. }
  split; [done| |]; cbn [phys_mem set_phys_mem].
  - intros k b q Hk. pose proof (lookup_lt_Some _ _ _ Hk) as Hlt. rewrite length_take in Hlt.
    rewrite Hp by lia. intros [= <-]. rewrite read8_write_bytes, length_take.
    rewrite decide_True by lia. replace (p + Z.of_nat k - p) with (Z.of_nat k) by lia. rewrite Nat2Z.id.
    by apply list_lookup_total_correct.
  - intros x Hx. rewrite read8_write_bytes, length_take. rewrite decide_False; [done|].
    intros Hin. apply (Hx (x - p)); [rewrite length_take; lia|]. rewrite Hp by lia. f_equal. lia.
Qed.

(** Two copies, one after the other, to different pages. *)
Lemma copied_app root pm va src1 src2 s s1 s2 :
  tree (phys_mem s) pm root → user_ok (phys_mem s) pm root → 0 ≤ va →
  va + Z.of_nat (length src1 + length src2) ≤ USER_SPACE_END →
  (src2 ≠ [] → (va + Z.of_nat (length src1)) mod PAGE_SIZE = 0) →
  copied root va src1 s s1 → copied root (va + Z.of_nat (length src1)) src2 s1 s2 →
  copied root va (src1 ++ src2) s s2.
Proof.
  intros Ht Hu Hva Hend Hpg H1 H2. pose proof (copied_same _ _ _ _ _ _ Ht Hu H1 ltac:(intros; lia)) as Hs1.
  assert (Hw : ∀ v, uwalk true (phys_mem s1) root v = uwalk true (phys_mem s) root v).
  { intros v. by apply (uwalk_private _ _ pm). }
  destruct H1 as [E1 I1 O1], H2 as [E2 I2 O2]. split.
  - rewrite E2, E1. done.
  - intros k b p Hk Hp. apply lookup_app_Some in Hk as [Hk|[Hge Hk]].
    + rewrite O2; [by eapply I1|]. intros j Hj Hwj. rewrite Hw in Hwj.
      pose proof (lookup_lt_Some _ _ _ Hk) as Hlt. destruct src2 as [|b2 src2]; [simpl in Hj; lia|].
      specialize (Hpg ltac:(done)).
      assert (Hsp : same_page (va + Z.of_nat k) (va + Z.of_nat (length src1) + j)).
      { apply (uo_inj _ _ _ Hu _ _ p p); [cbn [length] in *; lia|cbn [length] in *; lia| | |done]; by apply (uwalk_write_read _ pm). }
      apply same_page_user in Hsp; unfold USER_SPACE_END, PAGE_SIZE in *; [|cbn [length] in *; lia..].
      Z.div_mod_to_equations. lia.
    + eapply (I2 _ _ _ Hk). rewrite Hw. rewrite <- Hp. f_equal. lia.
  - intros x Hx. rewrite O2, O1; [done| |].
    + intros k Hk. apply Hx. rewrite length_app. lia.
    + intros k Hk. rewrite Hw. rewrite <- Z.add_assoc. apply Hx. rewrite length_app. lia.
Qed.

Lemma copy_to_loop_spec root pm fuel va src s :
  tree (phys_mem s) pm root → user_ok (phys_mem s) pm root → 0 ≤ va →
  va + Z.of_nat (length src) ≤ USER_SPACE_END →
  range_ok true (phys_mem s) root va (Z.of_nat (length src)) → (length src ≤ fuel)%nat →
  ∃ s', copy_to_loop fuel root va src s = (Ok true, s') ∧ copied root va src s s'.
Proof.
  revert va src s. induction fuel as [|fuel IH]; intros va src s Ht Hu Hva Hend Hr Hf;
    (destruct src as [|b0 src0]; [exists s; split; [done|]; split; [by destruct s| |]; done|]); [simpl in Hf; lia|].
  set (src := b0 :: src0) in *. assert (Hlen : (0 < length src)%nat) by (simpl; lia).
  change (copy_to_loop (S fuel) root va src) with (λ s : PState,
    let n := Nat.min (length src) (Z.to_nat (PAGE_SIZE - Z.land va (PAGE_SIZE - 1))) in
    match walk_user_write (phys_mem s) root va with
    | None => (Ok false, s)
    | Some phys => copy_to_loop fuel root (va + Z.of_nat n) (drop n src)
        (set_phys_mem s (write_bytes (phys_mem s) phys (take n src)))
    end). cbv zeta beta.
  destruct (piece_bounds va (length src) Hva Hlen) as (Hn & Hm & Hp & Hfull).
  set (n := Nat.min (length src) _) in *. clearbody n. clearbody src.
  destruct (Hr 0 ltac:(lia)) as [p Ep]. rewrite Z.add_0_r in Ep.
  change (walk_user_write (phys_mem s) root va) with (uwalk true (phys_mem s) root va). rewrite Ep.
  pose proof (copy_piece root pm va p n src s Ht Hu Hva Ep ltac:(lia) Hp) as Hc1.
  set (s1 := set_phys_mem s _) in *. clearbody s1.
  assert (Et : length (take n src) = n) by (rewrite length_take; lia).
  pose proof (copied_same _ _ _ _ _ _ Ht Hu Hc1 ltac:(rewrite Et; intros; lia)) as Hs1.
  destruct (IH (va + Z.of_nat n) (drop n src) s1) as (s2 & E2 & Hc2).
  - by apply (tree_private (phys_mem s)).
  - by apply (user_ok_private (phys_mem s)).
  - lia.
  - rewrite length_drop. lia.
  - rewrite length_drop. intros k Hk. rewrite (uwalk_private (phys_mem s) _ pm) by done.
    rewrite <- Z.add_assoc. apply Hr. lia.
  - rewrite length_drop. lia.
  - exists s2. split; [done|]. rewrite <- (take_drop n src).
    apply (copied_app root pm va _ _ s s1 s2); rewrite ?Et; try done.
    + rewrite length_drop. lia.
    + intros Hne. assert (n < length src)%nat as Hlt.
      { destruct (decide (n < length src)%nat); [done|]. rewrite drop_ge in Hne by lia. done. }
      rewrite <- Zplus_mod_idemp_l, (Hfull Hlt). by rewrite Z.mod_same.
Qed.

(** The range of a copy, as [copy_to_loop] needs it. *)
Lemma user_range_copy s dst n : user_range true s dst (Z.of_nat n) →
  range_ok true (phys_mem (pst s)) (current_cr3 s) dst (Z.of_nat n) ∧ ((0 < n)%nat → dst + Z.of_nat n ≤ USER_SPACE_END).
Proof. intros [H0|[H1 H2]]; [|done]. split; [|lia]. intros k Hk. lia. Qed.

Lemma copy_to_user_run s pm dst src :
  vm_inv (pst s) pm (current_cr3 s) → user_ok (phys_mem (pst s)) pm (current_cr3 s) → 0 ≤ dst ≤ u64_max →
  (copy_to_user dst src s = (Ok false, s) ∧ ¬ user_range true s dst (Z.of_nat (length src))) ∨
  (∃ p', copy_to_user dst src s = (Ok true, set_pst s p') ∧ user_range true s dst (Z.of_nat (length src)) ∧
     copied (current_cr3 s) dst src (pst s) p' ∧ vm_inv p' pm (current_cr3 s) ∧ user_ok (phys_mem p') pm (current_cr3 s) ∧
     (∀ v, look (phys_mem p') (current_cr3 s) v = look (phys_mem (pst s)) (current_cr3 s) v) ∧
     (∀ write v, uwalk write (phys_mem p') (current_cr3 s) v = uwalk write (phys_mem (pst s)) (current_cr3 s) v)).
Proof.
  intros Hinv Hu Hd. pose proof Hinv as [Hpmm Hpi Htop Ht].
  destruct (validate_user_range_spec true s pm dst (Z.of_nat (length src)) Hinv Hd ltac:(lia)) as (b & E & Hb).
  unfold copy_to_user. rewrite E. destruct b; [right|left; split; [done|naive_solver]].
  pose proof (proj1 Hb eq_refl) as Hr. clear Hb. destruct (user_range_copy _ _ _ Hr) as [Hrange Hend].
  set (root := current_cr3 s) in *.
  assert (Hex : ∃ p', copy_to_loop (length src) root dst src (pst s) = (Ok true, p') ∧ copied root dst src (pst s) p').
  { destruct src as [|b0 src0] eqn:Es.
    - exists (pst s). split; [done|]. split; [by destruct (pst s)|done|done].
    - rewrite <- Es in *. apply (copy_to_loop_spec root pm); try done; [lia|]. apply Hend. by rewrite Es; simpl; lia. }
  destruct Hex as (p' & El & Hc). pose proof (copied_same _ _ _ _ _ _ Ht Hu Hc) as Hs.
  specialize (Hs ltac:(intros k Hk; specialize (Hend ltac:(lia)); lia)).
  exists p'. split; [unfold on_pmm; by rewrite El|]. split; [exact Hr|]. split; [done|]. split; [|split; [|split]].
  - split; try done; [rewrite (cp_state _ _ _ _ _ Hc); exact Hpmm|by apply (tree_private (phys_mem (pst s)))].
  - by apply (user_ok_private (phys_mem (pst s))).
  - intros v. by apply (look_private (phys_mem (pst s)) _ pm).
  - intros w v. by apply (uwalk_private (phys_mem (pst s)) _ pm).
Qed.

Lemma copy_from_user_run s pm n src : vm_inv (pst s) pm (current_cr3 s) → 0 ≤ src ≤ u64_max →
  (copy_from_user n src s = Ok None ∧ ¬ user_range false s src (Z.of_nat n)) ∨
  (copy_from_user n src s = Ok (Some (user_bytes (phys_mem (pst s)) (current_cr3 s) src n)) ∧ user_range false s src (Z.of_nat n)).
Proof.
  intros Hinv Hd. destruct (validate_user_range_spec false s pm src (Z.of_nat n) Hinv Hd ltac:(lia)) as (b & E & Hb).
  unfold copy_from_user. rewrite E. cbn [res_bind]. destruct b; cbn [negb]; [right|left; split; [done|naive_solver]].
  pose proof (proj1 Hb eq_refl) as Hr. split; [|done].
  rewrite (copy_from_loop_spec _ pm); [done|apply Hinv|lia| |lia]. destruct Hr as [H0|[_ H2]]; [|done]. intros k Hk. lia.
Qed.

(** What was copied is read back. *)
Lemma copied_reads s pm p' dst src : vm_inv (pst s) pm (current_cr3 s) → vm_inv p' pm (current_cr3 s) → 0 ≤ dst ≤ u64_max →
  user_range true s dst (Z.of_nat (length src)) → copied (current_cr3 s) dst src (pst s) p' →
  (∀ write v, uwalk write (phys_mem p') (current_cr3 s) v = uwalk write (phys_mem (pst s)) (current_cr3 s) v) →
  copy_from_user (length src) dst (set_pst s p') = Ok (Some src).
Proof.
  intros Hinv Hinv' Hd Hr Hc Hw. set (root := current_cr3 s) in *. destruct (user_range_copy _ _ _ Hr) as [Hrange Hend]. fold root in Hrange.
  assert (Hread : ∀ k, 0 ≤ k < Z.of_nat (length src) → ∃ p, uwalk true (phys_mem (pst s)) root (dst + k) = Some p ∧
    uwalk false (phys_mem p') root (dst + k) = Some p).
  { intros k Hk. destruct (Hrange k Hk) as [p Hp]. exists p. split; [done|]. rewrite Hw. eapply (uwalk_write_read _ pm); [apply Hinv|done]. }
  destruct (copy_from_user_run (set_pst s p') pm (length src) dst Hinv' Hd) as [[_ Hn]|[-> _]].
  - exfalso. apply Hn. destruct src as [|b0 src0]; [by left|right]. split; [apply Hend; simpl; lia|].
    intros k Hk. destruct (Hread k Hk) as (p & _ & Hp). by exists p.
  - do 2 f_equal. apply list_eq. intros k. unfold user_bytes. rewrite list_lookup_fmap.
    destruct (src !! k) as [x|] eqn:Ek.
    + pose proof (lookup_lt_Some _ _ _ Ek). rewrite lookup_seqZ_lt by lia. simpl. f_equal.
      destruct (Hread (Z.of_nat k) ltac:(lia)) as (p & Hp & Hp'). unfold user_byte.
      rewrite Z.add_0_l. change (current_cr3 (set_pst s p')) with root. rewrite Hp'. by apply (cp_in _ _ _ _ _ Hc k).
    + apply lookup_ge_None in Ek. by rewrite lookup_seqZ_ge by lia.
Qed.

(** C18: [copy_to_user] is all or nothing and [copy_from_user] reads back what
    it wrote: neither panics or hangs on any pointer and length; a range that
    is not user memory mapped writable throughout is refused and nothing
    changes; otherwise exactly the bytes of the range change, the page tables
    do not, and copying the range back gives the bytes. *)
Theorem copy_user_roundtrip s pm dst src :
  vm_inv (pst s) pm (current_cr3 s) → user_ok (phys_mem (pst s)) pm (current_cr3 s) →
  0 ≤ dst ≤ u64_max →
  (copy_to_user dst src s = (Ok false, s) ∧ ¬ user_range true s dst (Z.of_nat (length src))) ∨
  (∃ s', copy_to_user dst src s = (Ok true, s') ∧
     user_range true s dst (Z.of_nat (length src)) ∧
     vm_inv (pst s') pm (current_cr3 s') ∧
     (∀ v, walk (phys_mem (pst s')) (current_cr3 s) v = walk (phys_mem (pst s)) (current_cr3 s) v) ∧
     (∀ x, (∀ k, 0 ≤ k < Z.of_nat (length src) →
        walk_user_write (phys_mem (pst s)) (current_cr3 s) (dst + k) ≠ Some x) →
        read8 (phys_mem (pst s')) x = read8 (phys_mem (pst s)) x) ∧
     copy_from_user (length src) dst s' = Ok (Some src)).
Proof.
  intros Hinv Hu Hd. destruct (copy_to_user_run s pm dst src Hinv Hu Hd) as [H|(p' & E & Hr & Hc & Hinv' & Hu' & Hl & Hw)]; [by left|].
  right. exists (set_pst s p'). split; [done|]. split; [done|]. split; [done|]. split; [|split; [apply Hc|by apply (copied_reads s pm)]].
  intros v. by rewrite (walk_look _ pm (current_cr3 s)), (walk_look _ pm (current_cr3 s)), Hl by (apply Hinv || apply Hinv').
Qed.
