(* ===== verification/VmmSpace.v ===== *)
(** * The life of an address space

    Creating one shares the kernel half and starts with an empty user half;
    dropping one returns every table and every page of the user half, once. *)
From stdpp Require Import base numbers list gmap sets.
From Stdlib Require Import ZArith Lia Bool.
From S2P Require Import Prelude Bytes Mem Pmm Vmm VmmTables VmmUser.
Import Vmm.

(** ** Creation *)

(** Filling a run of entries of one table with values that do not depend on it. *)
Lemma fill_entries (f a : Z) (g : Z → Z) (n : nat) s :
  aligned f → 0 ≤ a → a + Z.of_nat n ≤ 512 → (∀ i, is_index i → 0 ≤ g i < 2^64) →
  ∀ (body : Z → M PState Empty_set unit),
  (∀ i s', is_index i → (∀ b j, aligned b → b ≠ f → is_index j → ent (phys_mem s') b j = ent (phys_mem s) b j) →
     body i s' = set_entry f i (g i) s') →
  ∃ m', mfor (seqZ a (Z.of_nat n)) body s = (Ok tt, set_phys_mem s m') ∧
    (∀ b j, aligned b → is_index j →
       ent m' b j = if decide (b = f ∧ a ≤ j < a + Z.of_nat n) then g j else ent (phys_mem s) b j) ∧
    (∀ x, ¬ (f ≤ x < f + PAGE_SIZE) → read8 m' x = read8 (phys_mem s) x).
Proof.
  intros Hf Ha Hn Hg body Hbody.
  assert (Hgen : ∀ k a s1, 0 ≤ a → a + Z.of_nat k ≤ 512 →
    (∀ b j, aligned b → b ≠ f → is_index j → ent (phys_mem s1) b j = ent (phys_mem s) b j) →
    ∃ m', mfor (seqZ a (Z.of_nat k)) body s1 = (Ok tt, set_phys_mem s1 m') ∧
      (∀ b j, aligned b → is_index j →
         ent m' b j = if decide (b = f ∧ a ≤ j < a + Z.of_nat k) then g j else ent (phys_mem s1) b j) ∧
      (∀ x, ¬ (f ≤ x < f + PAGE_SIZE) → read8 m' x = read8 (phys_mem s1) x)).
  { clear a Ha Hn n. induction k as [|k IH]; intros a s1 Ha Hk Hs.
    { exists (phys_mem s1). split; [by destruct s1|]. split; [|done]. intros b j Hb Hj. rewrite decide_False by lia. done. }
    rewrite seqZ_cons by lia. cbn [mfor]. replace (Z.pred (Z.of_nat (S k))) with (Z.of_nat k) by lia.
    unfold bind. assert (Hai : is_index a) by (unfold is_index; lia). rewrite (Hbody a s1 Hai Hs). unfold set_entry.
    set (s2 := set_phys_mem s1 _).
    assert (H2 : ∀ b j, aligned b → is_index j → ent (phys_mem s2) b j = if decide (b = f ∧ j = a) then g a else ent (phys_mem s1) b j).
    { intros b j Hb Hj. subst s2. cbn [phys_mem set_phys_mem]. apply ent_write; try done. by apply Hg. }
    destruct (IH (Z.succ a) s2) as (m' & E & He & Hx); [lia|lia| |].
    { intros b j Hb Hne Hj. rewrite H2, decide_False by naive_solver. by apply Hs. }
    exists m'. split; [rewrite E; done|]. split.
    - intros b j Hb Hj. rewrite He, H2 by done.
      destruct (decide (b = f)) as [->|Hne]; [|by rewrite !decide_False by naive_solver].
      destruct (decide (j = a)) as [->|Hja].
      + rewrite decide_False, !decide_True by lia. done.
      + rewrite (decide_False (P := f = f ∧ j = a)) by naive_solver.
        destruct (decide (Z.succ a ≤ j < Z.succ a + Z.of_nat k)).
        * by rewrite !decide_True by lia.
        * by rewrite !decide_False by lia.
    - intros x Hxx. rewrite Hx by done. subst s2. cbn [phys_mem set_phys_mem]. unfold write64.
      rewrite read8_write_bytes, length_le_bytes, decide_False; [done|]. unfold is_index, PAGE_SIZE in *. lia. }
  by apply Hgen.
Qed.

(** A top table whose user half is empty and whose kernel half is another's. *)
Section SharedHalf.
Context (m m' : memory) (pm pm' : Pmm) (kroot f : Z).
Context (Ht : tree m pm kroot) (Hf : f ∈ free_set pm) (Hfree : free_set pm' = free_set pm ∖ {[f]}).
Context (Htot : total_frames pm' = total_frames pm).
Notation root := (f * PAGE_SIZE).
Context (Hold : ∀ b j, aligned b → b ≠ root → is_index j → ent m' b j = ent m b j).
Context (Hnew : ∀ j, is_index j → ent m' root j = if decide (256 ≤ j) then ent m kroot j else 0).

Lemma ent_kernel q b j : path_ok q → tbl m kroot q = Some b → is_index j → ent m' b j = ent m b j.
Proof using Ht Hf Hold.
  intros Hq Hb Hj. apply Hold; [by eapply tree_aligned|by eapply fresh_frame|done].
Qed.

Lemma tbl_kernel q : path_ok q → tbl m' kroot q = tbl m kroot q.
Proof using Ht Hf Hold.
  induction q as [|j q IH] using rev_ind; intros Hq; [done|].
  destruct (path_ok_snoc _ _ Hq) as (Hq' & _ & Hj). rewrite !tbl_snoc, IH by done.
  destruct (tbl m kroot q) as [b|] eqn:Eb; [|done]. simpl. by rewrite (ent_kernel q b j).
Qed.

Lemma path_ok_cons i q : path_ok (i :: q) → is_index i ∧ path_ok q.
Proof using.
  intros [Hl Hi]. apply Forall_cons in Hi as [Hi Hq]. simpl in Hl. split; [done|]. split; [lia|done].
Qed.

Lemma kernel_top i : is_index i → ent m' kroot i = ent m kroot i.
Proof using Ht Hf Hold. intros Hi. apply (ent_kernel [] kroot i); [|done|done]. split; [simpl; lia|constructor]. Qed.

Lemma tbl_shared i q : path_ok (i :: q) → tbl m' root (i :: q) = if decide (256 ≤ i) then tbl m kroot (i :: q) else None.
Proof using Ht Hf Hold Hnew.
  intros Hq. destruct (path_ok_cons _ _ Hq) as [Hi _]. pose proof (tbl_kernel _ Hq) as Hk.
  cbn [tbl] in *. rewrite Hnew by done. case_decide; [|done]. by rewrite <- Hk, kernel_top.
Qed.

Lemma tree_kernel : tree m' pm' kroot.
Proof using Ht Hf Hfree Htot Hold.
  clear Hnew. split.
  - intros q b Hq. rewrite tbl_kernel by done. intros Hb. rewrite Htot, Hfree.
    destruct (tr_frame _ _ _ Ht q b Hq Hb) as (g & ? & ? & ?). exists g. set_solver.
  - intros q r b Hq Hr. rewrite !tbl_kernel by done. by apply (tr_inj _ _ _ Ht).
  - intros i Hi. rewrite kernel_top by done. by apply (tr_top _ _ _ Ht).
  - intros q b j Hqj. destruct (path_ok_snoc _ _ Hqj) as (Hq & _ & Hj). rewrite tbl_kernel by done.
    intros Hb. rewrite (ent_kernel q b j) by done. by apply (tr_user _ _ _ Ht q).
Qed.

Lemma tree_shared : tree m' pm' root.
Proof using Ht Hf Hfree Htot Hold Hnew.
  destruct (free_set_range f pm Hf) as [Hf0 Hf1].
  assert (Hinv : ∀ q b, path_ok q → tbl m' root q = Some b →
    (q = [] ∧ b = root) ∨ (q ≠ [] ∧ tbl m kroot q = Some b)).
  { intros [|i q] b Hq; [intros [= <-]; by left|]. rewrite tbl_shared by done. case_decide; [by right|done]. }
  split.
  - intros q b Hq Hb. rewrite Htot, Hfree. destruct (Hinv q b Hq Hb) as [[_ ->]|[_ Hb']].
    + exists f. set_solver.
    + destruct (tr_frame _ _ _ Ht q b Hq Hb') as (g & ? & ? & ?). exists g. set_solver.
  - intros q r b Hq Hr Hb Hb'.
    destruct (Hinv q b Hq Hb) as [[-> E]|[_ Hq']], (Hinv r b Hr Hb') as [[-> E']|[_ Hr']]; try done.
    + destruct (fresh_frame _ _ _ _ r b Ht Hf Hr Hr' E).
    + destruct (fresh_frame _ _ _ _ q b Ht Hf Hq Hq' E').
    + by apply (tr_inj _ _ _ Ht q r b).
  - intros i Hi. rewrite Hnew by done. case_decide; [|done]. by apply (tr_top _ _ _ Ht).
  - intros q b j Hqj. destruct (path_ok_snoc _ _ Hqj) as (Hq & _ & Hj). intros Hb.
    destruct (Hinv q b Hq Hb) as [[-> ->]|[_ Hb']].
    + rewrite Hnew by done. case_decide; [|by intros []]. apply (tr_user _ _ _ Ht [] kroot j Hqj eq_refl).
    + rewrite (ent_kernel q b j) by done. by apply (tr_user _ _ _ Ht q).
Qed.

Lemma look_shared v :
  look m' root v = if decide (256 ≤ index v 0) then look m kroot v else None.
Proof using Ht Hf Hold Hnew.
  assert (Hok : ∀ ls, (length ls ≤ 3)%nat → path_ok (List.map (index v) ls)) by (intros; by apply path_ok_indices).
  pose proof (Hok [0] ltac:(simpl; lia)) as P1. pose proof (Hok [0; 1] ltac:(simpl; lia)) as P2.
  pose proof (Hok [0; 1; 2] ltac:(simpl; lia)) as P3. cbn [List.map] in P1, P2, P3.
  unfold look. rewrite !tbl_shared by done. case_decide; [|done].
  destruct (tbl m kroot [index v 0; index v 1; index v 2]) as [b|] eqn:T3; [by rewrite (ent_kernel _ _ _ P3 T3)|].
  destruct (tbl m kroot [index v 0; index v 1]) as [b|] eqn:T2; [by rewrite (ent_kernel _ _ _ P2 T2)|].
  destruct (tbl m kroot [index v 0]) as [b|] eqn:T1; [by rewrite (ent_kernel _ _ _ P1 T1)|done].
Qed.

Lemma look_kernel v : look m' kroot v = look m kroot v.
Proof using Ht Hf Hold.
  assert (Hok : ∀ ls, (length ls ≤ 3)%nat → path_ok (List.map (index v) ls)) by (intros; by apply path_ok_indices).
  pose proof (Hok [0] ltac:(simpl; lia)) as P1. pose proof (Hok [0; 1] ltac:(simpl; lia)) as P2.
  pose proof (Hok [0; 1; 2] ltac:(simpl; lia)) as P3. cbn [List.map] in P1, P2, P3.
  unfold look. rewrite !tbl_kernel by done.
  destruct (tbl m kroot [index v 0; index v 1; index v 2]) as [b|] eqn:T3; [by rewrite (ent_kernel _ _ _ P3 T3)|].
  destruct (tbl m kroot [index v 0; index v 1]) as [b|] eqn:T2; [by rewrite (ent_kernel _ _ _ P2 T2)|].
  destruct (tbl m kroot [index v 0]) as [b|] eqn:T1; [by rewrite (ent_kernel _ _ _ P1 T1)|done].
Qed.
End SharedHalf.

Lemma create_run s kroot a s1 s2 :
  VMM s = Some kroot → alloc_frame_zeroed (pst s) = (Ok (Some a), s1) →
  mfor (seqZ 256 (Z.of_nat 256)) (λ i, let! e := get_entry kroot i in set_entry a i e) s1 = (Ok tt, s2) →
  create_address_space s = (Ok (Some a), set_pst s s2).
Proof.
  intros Hv Ea El. unfold create_address_space, on_pmm. rewrite Hv. unfold bind at 1. rewrite Ea.
  change (ENTRIES - KERNEL_PML4_START) with (Z.of_nat 256). change KERNEL_PML4_START with 256.
  unfold bind at 1. rewrite El. reflexivity.
Qed.

(** What [create_address_space] leaves in memory. *)
Lemma create_effect s pm kroot :
  VMM s = Some kroot → vm_inv (pst s) pm kroot → mem_ok (phys_mem (pst s)) → (1 ≤ size (free_set pm))%nat →
  ∃ f pm' m', create_address_space s =
      (Ok (Some (f * PAGE_SIZE)), set_pst s (set_phys_mem (set_PMM (pst s) pm') m')) ∧
    f ∈ free_set pm ∧ pmm_inv pm' ∧ free_set pm' = free_set pm ∖ {[f]} ∧ total_frames pm' = total_frames pm ∧
    (∀ b j, aligned b → b ≠ f * PAGE_SIZE → is_index j → ent m' b j = ent (phys_mem (pst s)) b j) ∧
    (∀ j, is_index j → ent m' (f * PAGE_SIZE) j = if decide (256 ≤ j) then ent (phys_mem (pst s)) kroot j else 0) ∧
    (∀ x, ¬ (f * PAGE_SIZE ≤ x < (f + 1) * PAGE_SIZE) → read8 m' x = read8 (phys_mem (pst s)) x).
Proof.
  intros Hv [Hpmm Hpi Htop Ht] Hm Hsz. set (m := phys_mem (pst s)) in *.
  destruct (alloc_frame_zeroed_spec (pst s) pm Hpmm Hpi) as [[E0 _]|(f & pm' & Hf & Ea & Hpi' & Efree & Etot)].
  { rewrite E0, size_empty in Hsz. lia. }
  destruct (free_set_range f pm Hf) as [Hf0 Hf1].
  set (s1 := set_phys_mem _ _) in Ea.
  assert (Half : aligned (f * PAGE_SIZE)) by (by exists f).
  assert (H0 : ∀ b j, aligned b → is_index j →
    ent (phys_mem s1) b j = if decide (b = f * PAGE_SIZE) then 0 else ent m b j).
  { intros b j Hb Hj. by apply ent_fill. }
  assert (Hr : ∀ x, ¬ (f * PAGE_SIZE ≤ x < f * PAGE_SIZE + PAGE_SIZE) → read8 (phys_mem s1) x = read8 m x).
  { intros x Hx. unfold s1. cbn [phys_mem set_phys_mem]. rewrite read8_fill by done. by rewrite decide_False. }
  assert (Es1 : ∀ m', set_phys_mem s1 m' = set_phys_mem (set_PMM (pst s) pm') m') by (intros; exact eq_refl).
  clearbody s1.
  assert (Hk : aligned kroot ∧ kroot ≠ f * PAGE_SIZE).
  { assert (Hp0 : path_ok []) by (split; [simpl; lia|constructor]).
    split; [by apply (tree_aligned _ _ _ [] kroot Ht)|by apply (fresh_frame _ _ _ _ [] kroot Ht Hf)]. }
  destruct (fill_entries (f * PAGE_SIZE) 256 (λ i, ent m kroot i) 256 s1 Half ltac:(lia) ltac:(lia)
    ltac:(intros; by apply read64_range)
    (λ i, let! e := get_entry kroot i in set_entry (f * PAGE_SIZE) i e)) as (m' & El & He & Hx).
  { intros i s' Hi Hs'. unfold bind, get_entry. rewrite Hs' by (try done; apply Hk).
    rewrite H0 by (done || apply Hk). by rewrite decide_False by apply Hk. }
  exists f, pm', m'. split; [|split; [exact Hf|split; [exact Hpi'|split; [exact Efree|split; [exact Etot|split; [|split]]]]]].
  - rewrite <- Es1. by apply (create_run s kroot _ s1).
  - intros b j Hb Hne Hj. rewrite He by done. rewrite decide_False by naive_solver.
    rewrite H0 by done. by rewrite decide_False.
  - intros j Hj. rewrite He by done. unfold is_index in Hj. destruct (decide (256 ≤ j)).
    + by rewrite decide_True by lia.
    + rewrite decide_False by lia. rewrite H0 by done. by rewrite decide_True.
  - intros x Hxx. assert (Hxf : ¬ (f * PAGE_SIZE ≤ x < f * PAGE_SIZE + PAGE_SIZE)) by (clear -Hxx; lia).
    by rewrite (Hx x Hxf), Hr.
Qed.

(** A new address space has an empty user half and the kernel's other
    half: nothing is mapped below the user limit, every kernel address
    translates as it does for the kernel, the kernel's own translation and
    every byte outside the new table are untouched, and one frame is used. *)
Theorem create_shares_kernel s pm kroot :
  VMM s = Some kroot → vm_inv (pst s) pm kroot → mem_ok (phys_mem (pst s)) → (1 ≤ size (free_set pm))%nat →
  ∃ f s' pm', create_address_space s = (Ok (Some (f * PAGE_SIZE)), s') ∧
    f ∈ free_set pm ∧ free_set pm' = free_set pm ∖ {[f]} ∧
    vm_inv (pst s') pm' (f * PAGE_SIZE) ∧ vm_inv (pst s') pm' kroot ∧
    (∀ v, 0 ≤ v < USER_SPACE_END → walk (phys_mem (pst s')) (f * PAGE_SIZE) v = None) ∧
    (∀ v, 256 ≤ index v 0 → walk (phys_mem (pst s')) (f * PAGE_SIZE) v = walk (phys_mem (pst s)) kroot v) ∧
    (∀ v, walk (phys_mem (pst s')) kroot v = walk (phys_mem (pst s)) kroot v) ∧
    (∀ x, ¬ (f * PAGE_SIZE ≤ x < (f + 1) * PAGE_SIZE) → read8 (phys_mem (pst s')) x = read8 (phys_mem (pst s)) x).
Proof.
  intros Hv Hinv Hm Hsz. pose proof Hinv as [_ _ Htop Ht].
  destruct (create_effect s pm kroot Hv Hinv Hm Hsz) as (f & pm' & m' & Hrun & Hf & Hpi' & Efree & Etot & Hold & Hnew & Hout).
  set (m := phys_mem (pst s)) in *.
  assert (Htn := tree_shared m m' pm pm' kroot f Ht Hf Efree Etot Hold Hnew).
  assert (Htk := tree_kernel m m' pm pm' kroot f Ht Hf Efree Etot Hold).
  eexists f, _, pm'. split; [exact Hrun|]. cbn [phys_mem pst set_pst set_phys_mem set_PMM].
  split; [exact Hf|]. split; [exact Efree|].
  split; [split; [exact eq_refl|exact Hpi'|rewrite Etot; exact Htop|exact Htn]|].
  split; [split; [exact eq_refl|exact Hpi'|rewrite Etot; exact Htop|exact Htk]|].
  split; [|split; [|split; [|exact Hout]]].
  - intros v Hvv. rewrite (walk_look _ _ _ Htn), (look_shared m m' pm kroot f Ht Hf Hold Hnew).
    rewrite decide_False; [done|]. rewrite index_div by lia. change (2 ^ (27 - 9 * 0)) with 134217728.
    unfold USER_SPACE_END, PAGE_SIZE in *. clear -Hvv. Z.div_mod_to_equations. lia.
  - intros v Hvv. rewrite (walk_look _ _ _ Htn), (walk_look _ _ _ Ht), (look_shared m m' pm kroot f Ht Hf Hold Hnew).
    by rewrite decide_True.
  - intros v. by rewrite (walk_look _ _ _ Htk), (walk_look _ _ _ Ht), (look_kernel m m' pm kroot f Ht Hf Hold).
Qed.

(** ** Teardown *)

Lemma mfor_app {S E A} (l1 l2 : list A) (f : A → M S E unit) s :
  mfor (l1 ++ l2) f s = (mfor l1 f ;;! mfor l2 f) s.
Proof.
  revert s. induction l1 as [|x l1 IH]; intros s; [done|]. cbn [mfor app]. unfold bind in *.
  destruct (f x s) as [[] s1]; [|done..]. by rewrite IH.
Qed.

Lemma frees_mem l s : phys_mem (snd (mfor l free_frame s)) = phys_mem s.
Proof.
  revert s. induction l as [|x l IH]; intros s; [done|]. cbn [mfor]. unfold bind.
  assert (E : phys_mem (snd (free_frame x s)) = phys_mem s).
  { unfold free_frame, free_frames_at. destruct (PMM s); [|done].
    by destruct (Pmm_free x 1 _) as [[[]| | |] ?]. }
  destruct (free_frame x s) as [[] s1]; simpl in *; [by rewrite IH|done..].
Qed.

(** A loop whose steps each free a list of frames frees their concatenation. *)
Lemma mfor_frees m {A} (l : list A) body (F : A → list Z) s :
  (∀ i s', i ∈ l → phys_mem s' = m → body i s' = mfor (F i) free_frame s') → phys_mem s = m →
  mfor l body s = mfor (l ≫= F) free_frame s.
Proof.
  revert s. induction l as [|i l IH]; intros s Hb Hs; [done|]. rewrite bind_cons, mfor_app. cbn [mfor].
  unfold bind. rewrite Hb by (done || left). pose proof (frees_mem (F i) s) as Hm.
  destruct (mfor (F i) free_frame s) as [[] s1]; [|done..]. simpl in Hm. apply IH; [|by rewrite Hm].
  intros j s' Hj. apply Hb. by right.
Qed.

(** The tables and pages below a table, [d] levels down, in the order they
    are freed; and the path to each. *)
Definition children (n : Z) (g : Z → list Z) (m : memory) (a : Z) : list Z :=
  (seqZ 0 n ≫= λ i, if has (ent m a i) PRESENT then g (Z.land (ent m a i) ADDR_MASK) else []) ++ [a].

Fixpoint below (d : nat) (m : memory) (a : Z) : list Z :=
  match d with
  | O => [a]
  | S d => children 512 (below d m) m a
  end.

Fixpoint pth (m : memory) (a : Z) (r : list Z) : option Z :=
  match r with
  | [] => Some a
  | i :: r => if has (ent m a i) PRESENT then pth m (Z.land (ent m a i) ADDR_MASK) r else None
  end.

(** No large page within the top [d - 1] levels below a table. *)
Definition no_huge (d : nat) (m : memory) (a : Z) : Prop := ∀ r i b,
  (length r + 2 ≤ d)%nat → Forall is_index r → is_index i → pth m a r = Some b →
  has (ent m b i) PRESENT = true → has (ent m b i) HUGE = false.

Lemma no_huge_child d m a i :
  no_huge (S d) m a → is_index i → has (ent m a i) PRESENT = true → no_huge d m (Z.land (ent m a i) ADDR_MASK).
Proof.
  intros H Hi Hp r j b Hl Hr Hj Hb. apply (H (i :: r) j b); [simpl; lia|by constructor|done|].
  cbn [pth]. by rewrite Hp.
Qed.

Lemma seqZ_index i : i ∈ seqZ 0 ENTRIES → is_index i.
Proof. rewrite elem_of_seqZ. unfold ENTRIES, is_index. lia. Qed.

Lemma mfor_one x s : mfor [x] free_frame s = free_frame x s.
Proof. cbn [mfor]. unfold bind. by destruct (free_frame x s) as [[[]| | |] ?]. Qed.

Lemma level_run n g m a (body : Z → M PState Empty_set unit) s :
  (∀ i s', i ∈ seqZ 0 n → phys_mem s' = m → has (ent m a i) PRESENT = true →
     body i s' = mfor (g (Z.land (ent m a i) ADDR_MASK)) free_frame s') →
  (∀ i s', phys_mem s' = m → has (ent m a i) PRESENT = false → body i s' = (Ok tt, s')) → phys_mem s = m →
  (mfor (seqZ 0 n) body ;;! free_frame a) s = mfor (children n g m a) free_frame s.
Proof.
  intros H1 H2 Hs. unfold children. rewrite mfor_app. unfold bind.
  rewrite (mfor_frees m (seqZ 0 n) body
    (λ i, if has (ent m a i) PRESENT then g (Z.land (ent m a i) ADDR_MASK) else [])); [|intros i s' Hi Hs'|done].
  - destruct (mfor _ free_frame s) as [[] s1]; [|done..]. by rewrite mfor_one.
  - destruct (has (ent m a i) PRESENT) eqn:E; [by apply H1|by apply H2].
Qed.

Lemma free_pt_run m a s : phys_mem s = m → free_pt a s = mfor (below 1 m a) free_frame s.
Proof.
  apply level_run; intros i s'; [intros _|]; intros <- Hp; unfold bind, get_entry; rewrite Hp; [|done].
  cbn [below]. by rewrite mfor_one.
Qed.

Lemma free_pd_run m a s : no_huge 2 m a → phys_mem s = m → free_pd a s = mfor (below 2 m a) free_frame s.
Proof.
  intros Hh. apply level_run; intros i s'.
  - intros Hi <- Hp. unfold bind, get_entry. rewrite Hp. cbn [negb].
    rewrite (Hh [] i a) by (done || by apply seqZ_index). by apply free_pt_run.
  - intros <- Hp. unfold bind, get_entry. by rewrite Hp.
Qed.

Lemma free_pdpt_run m a s : no_huge 3 m a → phys_mem s = m → free_pdpt a s = mfor (below 3 m a) free_frame s.
Proof.
  intros Hh. apply level_run; intros i s'.
  - intros Hi <- Hp. apply seqZ_index in Hi. unfold bind, get_entry. rewrite Hp. cbn [negb].
    rewrite (Hh [] i a) by (done || simpl; lia). apply free_pd_run; [by apply no_huge_child|done].
  - intros <- Hp. unfold bind, get_entry. by rewrite Hp.
Qed.

(** The paths of the user half, and what is at them. *)
Definition user_path (r : list Z) : Prop := Forall is_index r ∧ ∀ i r', r = i :: r' → i < 256.

Lemma free_user_half_run m a s :
  (∀ i, 0 ≤ i < 256 → has (ent m a i) PRESENT = true → no_huge 3 m (Z.land (ent m a i) ADDR_MASK)) →
  phys_mem s = m → free_user_half a s = mfor (children 256 (below 3 m) m a) free_frame s.
Proof.
  intros Hh. apply level_run; intros i s'.
  - intros Hi <- Hp. unfold bind, get_entry. rewrite Hp. apply free_pdpt_run; [|done].
    apply Hh; [|done]. apply elem_of_seqZ in Hi. lia.
  - intros <- Hp. unfold bind, get_entry. by rewrite Hp.
Qed.

(** Freeing a list of frames, each in use and named once. *)
Lemma frees_spec l s pm :
  PMM s = Some pm → pmm_inv pm → NoDup l → (∀ f, f ∈ l → 0 ≤ f < total_frames pm ∧ f ∉ free_set pm) →
  ∃ s' pm', mfor (List.map (λ f, f * PAGE_SIZE) l) free_frame s = (Ok tt, s') ∧ PMM s' = Some pm' ∧
    pmm_inv pm' ∧ phys_mem s' = phys_mem s ∧ free_set pm' = free_set pm ∪ list_to_set l ∧
    total_frames pm' = total_frames pm.
Proof.
  revert s pm. induction l as [|f l IH]; intros s pm Hs Hi Hnd Hl.
  { exists s, pm. split_and!; [done..|set_solver|done]. }
  apply NoDup_cons in Hnd as [Hf Hnd].
  destruct (free_frame_spec s pm f Hs Hi) as (pm1 & E & Hi1 & Efree & Etot); [apply Hl; left..|].
  destruct (IH (set_PMM s pm1) pm1 eq_refl Hi1 Hnd) as (s' & pm' & E' & Hs' & Hi' & Hm & Ef' & Et').
  { intros g Hg. rewrite Etot, Efree. destruct (Hl g ltac:(by right)). split; [done|]. set_solver. }
  exists s', pm'. cbn [List.map mfor]. rewrite (bind_ok _ _ _ _ _ E), E'. split_and!; try done.
  - rewrite Ef', Efree. set_solver.
  - by rewrite Et'.
Qed.

Lemma elem_of_children n g m a x :
  x ∈ children n g m a ↔ x = a ∨ ∃ i, 0 ≤ i < n ∧ has (ent m a i) PRESENT = true ∧ x ∈ g (Z.land (ent m a i) ADDR_MASK).
Proof.
  unfold children. rewrite elem_of_app, list_elem_of_singleton, list_elem_of_bind. split.
  - intros [(i & Hx & Hi)|]; [right|by left]. exists i. apply elem_of_seqZ in Hi.
    destruct (has (ent m a i) PRESENT); [|by apply not_elem_of_nil in Hx]. split; [lia|done].
  - intros [->|(i & Hi & Hp & Hx)]; [by right|left]. exists i. rewrite Hp, elem_of_seqZ. split; [done|lia].
Qed.

Lemma elem_of_below d m a x :
  x ∈ below d m a ↔ ∃ r, (length r ≤ d)%nat ∧ Forall is_index r ∧ pth m a r = Some x.
Proof.
  revert a. induction d as [|d IH]; intros a; cbn [below].
  { rewrite list_elem_of_singleton. split.
    - intros ->. by exists [].
    - intros ([|] & Hl & _ & E); [by injection E|simpl in Hl; lia]. }
  rewrite elem_of_children. split.
  - intros [->|(i & Hi & Hp & (r & Hl & Hr & E)%IH)]; [exists []; simpl; by auto with lia|].
    exists (i :: r). cbn [pth length]. rewrite Hp. split; [lia|]. by split; [constructor|].
  - intros ([|i r] & Hl & Hr & E); [injection E as ->; by left|right]. apply Forall_cons in Hr as [Hi Hr].
    cbn [pth length] in *. destruct (has (ent m a i) PRESENT) eqn:Hp; [|done].
    exists i. split; [done|]. split; [done|]. apply IH. exists r. split; [lia|done].
Qed.

(** No two paths of a set lead to the same place. *)
Definition once (P : list Z → Prop) (m : memory) (a : Z) : Prop := ∀ r r' x,
  P r → P r' → pth m a r = Some x → pth m a r' = Some x → r = r'.

Lemma NoDup_children n d m a (P : list Z → Prop) :
  once P m a → P [] → (∀ i r, 0 ≤ i < n → (length r ≤ d)%nat → Forall is_index r → P (i :: r)) →
  (∀ i, 0 ≤ i < n → has (ent m a i) PRESENT = true → NoDup (below d m (Z.land (ent m a i) ADDR_MASK))) →
  NoDup (children n (below d m) m a).
Proof.
  intros Ho P0 HP Hnd. unfold children.
  assert (Hp : ∀ i x, i ∈ seqZ 0 n →
    x ∈ (if has (ent m a i) PRESENT then below d m (Z.land (ent m a i) ADDR_MASK) else []) →
    ∃ r, P (i :: r) ∧ pth m a (i :: r) = Some x).
  { intros i x Hi%elem_of_seqZ Hx. destruct (has (ent m a i) PRESENT) eqn:Hp; [|by apply not_elem_of_nil in Hx].
    apply elem_of_below in Hx as (r & Hl & Hr & E). exists r. split; [apply HP; (lia || done)|].
    cbn [pth]. by rewrite Hp. }
  apply NoDup_app. split; [|split; [|apply NoDup_singleton]].
  - apply NoDup_bind.
    + intros i j x Hi Hj Hx Hx'. destruct (Hp i x Hi Hx) as (r & Hr & E), (Hp j x Hj Hx') as (r' & Hr' & E').
      by injection (Ho _ _ _ Hr Hr' E E').
    + intros i Hi%elem_of_seqZ. destruct (has _ PRESENT) eqn:E; [apply Hnd; (lia || done)|constructor].
    + apply NoDup_seqZ.
  - intros x (i & Hx & Hi)%list_elem_of_bind ->%list_elem_of_singleton.
    destruct (Hp i a Hi Hx) as (r & Hr & E). by pose proof (Ho (i :: r) [] a Hr P0 E eq_refl).
Qed.

Lemma NoDup_below d m a :
  once (λ r, (length r ≤ d)%nat ∧ Forall is_index r) m a → NoDup (below d m a).
Proof.
  revert a. induction d as [|d IH]; intros a Ho; [apply NoDup_singleton|].
  cbn [below]. apply (NoDup_children _ _ _ _ _ Ho).
  - by split; [simpl; lia|constructor].
  - intros i r Hi Hl Hr. split; [simpl; lia|by constructor].
  - intros i Hi Hp. apply IH. intros r r' x [Hl Hr] [Hl' Hr'] E E'.
    enough (i :: r = i :: r') as [=] by done. apply (Ho _ _ x); [by split; [simpl; lia|constructor]..| |];
      cbn [pth]; by rewrite Hp.
Qed.

(** The user half of an address space: 4 KiB pages only, each of a frame that
    is in use, is no table and is mapped once. *)
Record user_half (m : memory) (pm : Pmm) (root : Z) : Prop := {
  uh_leaf : ∀ v lvl e, 0 ≤ v < USER_SPACE_END → look m root v = Some (lvl, e) →
    lvl = 3 ∧ ∃ g, Z.land e ADDR_MASK = g * PAGE_SIZE ∧ 0 ≤ g < total_frames pm ∧ g ∉ free_set pm ∧
      ∀ q, path_ok q → tbl m root q ≠ Some (g * PAGE_SIZE);
  uh_once : ∀ v w e e', 0 ≤ v < USER_SPACE_END → 0 ≤ w < USER_SPACE_END →
    look m root v = Some (3, e) → look m root w = Some (3, e') → Z.land e ADDR_MASK = Z.land e' ADDR_MASK → same_page v w
}.

(** What dropping an address space gives back: the top table, the tables
    below the user half of it, and the frames of the user pages. *)
Definition user_frame (m : memory) (root x : Z) : Prop :=
  (∃ q, path_ok q ∧ user_path q ∧ tbl m root q = Some x) ∨
  (∃ v e, 0 ≤ v < USER_SPACE_END ∧ look m root v = Some (3, e) ∧ Z.land e ADDR_MASK = x).

Definition va_of (i0 i1 i2 i3 : Z) : Z := (((i0 * 512 + i1) * 512 + i2) * 512 + i3) * PAGE_SIZE.

Lemma va_of_spec i0 i1 i2 i3 : 0 ≤ i0 < 256 → is_index i1 → is_index i2 → is_index i3 →
  0 ≤ va_of i0 i1 i2 i3 < USER_SPACE_END ∧ index (va_of i0 i1 i2 i3) 0 = i0 ∧ index (va_of i0 i1 i2 i3) 1 = i1 ∧
  index (va_of i0 i1 i2 i3) 2 = i2 ∧ index (va_of i0 i1 i2 i3) 3 = i3.
Proof.
  unfold is_index. intros H0 H1 H2 H3. rewrite !index_div by lia. unfold va_of. rewrite Z.div_mul by done.
  change (2 ^ (27 - 9 * 0)) with 134217728. change (2 ^ (27 - 9 * 1)) with 262144.
  change (2 ^ (27 - 9 * 2)) with 512. change (2 ^ (27 - 9 * 3)) with 1.
  unfold USER_SPACE_END, PAGE_SIZE. split; [lia|]. split_and!; Z.div_mod_to_equations; lia.
Qed.

Lemma pth_snoc m a r i :
  pth m a (r ++ [i]) = pth m a r ≫= λ b, if has (ent m b i) PRESENT then Some (Z.land (ent m b i) ADDR_MASK) else None.
Proof. revert a. induction r as [|j r IH]; intros a; [done|]. cbn [pth app]. by destruct (has _ PRESENT). Qed.

Section UserHalf.
Context (m : memory) (pm : Pmm) (root : Z) (Ht : tree m pm root) (Hu : user_half m pm root).

Lemma user_path_snoc r i : user_path (r ++ [i]) → user_path r ∧ is_index i ∧ (r = [] → i < 256).
Proof using.
  intros [Hf Hh]. apply Forall_app in Hf as [Hr Hi]. rewrite Forall_singleton in Hi. split; [split; [done|]|split; [done|]].
  - intros j r' ->. by apply (Hh j (r' ++ [i])).
  - intros ->. by apply (Hh i []).
Qed.

(** Every entry of a table of the user half above the last level is not a large page. *)
Lemma user_not_huge r i b : user_path (r ++ [i]) → (length r ≤ 2)%nat → tbl m root r = Some b →
  has (ent m b i) PRESENT = true → has (ent m b i) HUGE = false.
Proof using Ht Hu.
  intros Hp Hl Hb Hpr. destruct (user_path_snoc _ _ Hp) as (Hr & Hi & Htop).
  destruct (has (ent m b i) HUGE) eqn:Eh; [|done]. exfalso.
  assert (Hsub : sub_table (ent m b i) = None) by (unfold sub_table; by rewrite Hpr, Eh).
  destruct Hr as [Hr Hh]. destruct r as [|i0 [|i1 [|]]]; simpl in Hl; [| | |lia].
  - injection Hb as <-. by rewrite (tr_top _ _ _ Ht i) in Eh.
  - rewrite Forall_singleton in Hr. assert (H0 : 0 ≤ i0 < 256) by (split; [apply Hr|by apply (Hh i0 [])]).
    destruct (va_of_spec i0 i 0 0 H0 Hi) as (Hv & E0 & E1 & E2 & E3); [done..|].
    assert (El : look m root (va_of i0 i 0 0) = Some (1, ent m b i)).
    { unfold look. rewrite E0, E1, E2. change [i0; i; 0] with (([i0] ++ [i]) ++ [0]). change [i0; i] with ([i0] ++ [i]).
      rewrite !tbl_snoc, Hb. cbn [mbind option_bind]. rewrite Hsub. cbn [mbind option_bind]. unfold present. by rewrite Hpr. }
    destruct (uh_leaf _ _ _ Hu _ _ _ Hv El) as [? _]. lia.
  - apply Forall_cons in Hr as [Hi0 Hr]. rewrite Forall_singleton in Hr.
    assert (H0 : 0 ≤ i0 < 256) by (split; [apply Hi0|by apply (Hh i0 [i1])]).
    destruct (va_of_spec i0 i1 i 0 H0 Hr Hi) as (Hv & E0 & E1 & E2 & E3); [done..|].
    assert (El : look m root (va_of i0 i1 i 0) = Some (2, ent m b i)).
    { unfold look. rewrite E0, E1, E2. change [i0; i1; i] with ([i0; i1] ++ [i]).
      rewrite tbl_snoc, Hb. cbn [mbind option_bind]. rewrite Hsub. cbn [mbind option_bind]. unfold present. by rewrite Hpr. }
    destruct (uh_leaf _ _ _ Hu _ _ _ Hv El) as [? _]. lia.
Qed.

Lemma pth_tbl r : user_path r → (length r ≤ 3)%nat → pth m root r = tbl m root r.
Proof using Ht Hu.
  induction r as [|i r IH] using rev_ind; [done|]. rewrite length_app. simpl. intros Hp Hl.
  destruct (user_path_snoc _ _ Hp) as (Hr & Hi & _). rewrite pth_snoc, tbl_snoc, IH by (done || lia).
  destruct (tbl m root r) as [b|] eqn:Eb; [|done]. simpl. unfold sub_table.
  destruct (has (ent m b i) PRESENT) eqn:Hpr; [|done]. by rewrite (user_not_huge r i b) by (done || lia).
Qed.

Lemma pth_leaf r x : user_path r → length r = 4%nat → pth m root r = Some x →
  ∃ v e, 0 ≤ v < USER_SPACE_END ∧ look m root v = Some (3, e) ∧ Z.land e ADDR_MASK = x ∧
    r = [index v 0; index v 1; index v 2; index v 3].
Proof using Ht Hu.
  destruct r as [|i0 [|i1 [|i2 [|i3 [|]]]]]; try done. intros [Hf Hh] _ Hx.
  pose proof Hf as Hf'. apply Forall_cons in Hf' as [Hi0 Hf']. apply Forall_cons in Hf' as [Hi1 Hf'].
  apply Forall_cons in Hf' as [Hi2 Hf']. rewrite Forall_singleton in Hf'.
  assert (H0 : 0 ≤ i0 < 256) by (split; [apply Hi0|by apply (Hh i0 [i1; i2; i3])]).
  destruct (va_of_spec i0 i1 i2 i3 H0 Hi1 Hi2 Hf') as (Hv & E0 & E1 & E2 & E3).
  change [i0; i1; i2; i3] with ([i0; i1; i2] ++ [i3]) in Hx. rewrite pth_snoc, pth_tbl in Hx.
  2: { split; [repeat (apply Forall_cons; split; [done|]); apply Forall_nil; done|]. intros ? ? [= <- _]. lia. } 2: done.
  destruct (tbl m root [i0; i1; i2]) as [b|] eqn:Eb; [|done]. simpl in Hx.
  destruct (has (ent m b i3) PRESENT) eqn:Hpr; [|done]. injection Hx as <-.
  exists (va_of i0 i1 i2 i3), (ent m b i3). split; [done|]. rewrite E0, E1, E2, E3. split; [|done].
  unfold look. rewrite E0, E1, E2, E3, Eb. unfold present. by rewrite Hpr.
Qed.

Lemma leaf_path_of v e : 0 ≤ v < USER_SPACE_END → look m root v = Some (3, e) →
  user_path [index v 0; index v 1; index v 2; index v 3] ∧
  pth m root [index v 0; index v 1; index v 2; index v 3] = Some (Z.land e ADDR_MASK).
Proof using Ht Hu.
  intros Hv Hl. assert (Htop : index v 0 < 256).
  { rewrite index_div by lia. change (2 ^ (27 - 9 * 0)) with 134217728.
    unfold USER_SPACE_END, PAGE_SIZE in *. clear -Hv. Z.div_mod_to_equations. lia. }
  assert (Hp : ∀ ls, user_path (index v 0 :: List.map (index v) ls)).
  { intros ls. split; [|by intros ? ? [= <- _]]. constructor; [done|]. apply Forall_map, Forall_true. intros. apply index_ok. }
  split; [apply (Hp [1; 2; 3])|].
  change [index v 0; index v 1; index v 2; index v 3] with ([index v 0; index v 1; index v 2] ++ [index v 3]).
  rewrite pth_snoc, pth_tbl; [|apply (Hp [1; 2])|done]. unfold look, present in Hl.
  destruct (tbl m root [_; _; _]) as [b|].
  { destruct (has (ent m b (index v 3)) PRESENT) eqn:Ep; [|done]. injection Hl as <-. simpl. by rewrite Ep. }
  destruct (tbl m root [_; _]) as [b|]; [by destruct (has _ PRESENT)|].
  destruct (tbl m root [_]) as [b|]; [by destruct (has _ PRESENT)|done].
Qed.

(** The two readings of what is at the paths of the user half agree. *)
Lemma user_frame_path x :
  user_frame m root x ↔ ∃ r, user_path r ∧ (length r ≤ 4)%nat ∧ pth m root r = Some x.
Proof using Ht Hu.
  split.
  - intros [(q & [Hl _] & Hq & E)|(v & e & Hv & El & <-)].
    + exists q. rewrite pth_tbl by done. split; [done|]. split; [lia|done].
    + destruct (leaf_path_of v e Hv El) as [Hp E]. eexists. split; [exact Hp|]. split; [simpl; lia|exact E].
  - intros (r & Hr & Hl & E). destruct (decide (length r = 4%nat)) as [H4|H4].
    + right. destruct (pth_leaf r x Hr H4 E) as (v & e & ? & ? & ? & _). by exists v, e.
    + left. exists r. rewrite <- pth_tbl by (done || lia). split; [split; [lia|apply Hr]|done].
Qed.

Lemma user_once : once (λ r, user_path r ∧ (length r ≤ 4)%nat) m root.
Proof using Ht Hu.
  assert (Hmix : ∀ r r' x, user_path r → length r = 4%nat → pth m root r = Some x →
    user_path r' → (length r' ≤ 3)%nat → pth m root r' = Some x → False).
  { intros r r' x Hr H4 E Hr' Hl' E'. rewrite pth_tbl in E' by done.
    destruct (pth_leaf r x Hr H4 E) as (v & e & Hv & El & Ex & _).
    destruct (uh_leaf _ _ _ Hu v 3 e Hv El) as (_ & g & Eg & _ & _ & Hn).
    apply (Hn r'); [split; [done|apply Hr']|]. by rewrite E', <- Ex, Eg. }
  intros r r' x [Hr Hl] [Hr' Hl'] E E'.
  destruct (decide (length r = 4%nat)) as [H4|H4], (decide (length r' = 4%nat)) as [H4'|H4'].
  - destruct (pth_leaf r x Hr H4 E) as (v & e & Hv & El & Ex & ->).
    destruct (pth_leaf r' x Hr' H4' E') as (w & e' & Hw & El' & Ex' & ->).
    destruct (uh_once _ _ _ Hu v w e e' Hv Hw El El') as (-> & -> & -> & ->); [by rewrite Ex|done].
  - exfalso. eapply (Hmix r r'); try done. lia.
  - exfalso. eapply (Hmix r' r); try done. lia.
  - rewrite pth_tbl in E, E' by (done || lia). eapply (tr_inj _ _ _ Ht); try done; (split; [lia|apply Hr || apply Hr']).
Qed.

Lemma user_no_huge i : 0 ≤ i < 256 → has (ent m root i) PRESENT = true →
  no_huge 3 m (Z.land (ent m root i) ADDR_MASK).
Proof using Ht Hu.
  intros Hi Hp r j b Hl Hr Hj Hb Hpr.
  assert (Hup : user_path ((i :: r) ++ [j])).
  { split; [|intros ? ? [= <- _]; lia]. constructor; [unfold is_index; lia|]. apply Forall_app. by split; [|constructor]. }
  apply (user_not_huge (i :: r) j b Hup); [simpl; lia| |done]. rewrite <- pth_tbl.
  - cbn [pth]. by rewrite Hp.
  - by apply user_path_snoc in Hup as [? _].
  - simpl. lia.
Qed.

(** The frames that are freed, in order. *)
Definition user_list : list Z := children 256 (below 3 m) m root.

Lemma elem_of_user_list x : x ∈ user_list ↔ user_frame m root x.
Proof using Ht Hu.
  rewrite user_frame_path. unfold user_list. rewrite elem_of_children. split.
  - intros [->|(i & Hi & Hp & (r & Hl & Hr & E)%elem_of_below)].
    { exists []. split; [|split; [simpl; lia|done]]. by split; [constructor|]. }
    exists (i :: r). cbn [pth length]. rewrite Hp. split; [|split; [lia|done]].
    split; [constructor; [unfold is_index; lia|done]|]. intros ? ? [= <- _]. lia.
  - intros ([|i r] & [Hf Hh] & Hl & E); [injection E as ->; by left|right].
    pose proof (Hh i r eq_refl). apply Forall_cons in Hf as [Hi Hf]. cbn [pth length] in *.
    destruct (has (ent m root i) PRESENT) eqn:Hp; [|done]. exists i. split; [unfold is_index in Hi; lia|].
    split; [done|]. apply elem_of_below. exists r. split; [lia|done].
Qed.

Lemma NoDup_user_list : NoDup user_list.
Proof using Ht Hu.
  apply (NoDup_children _ _ _ _ _ user_once).
  - split; [|simpl; lia]. by split; [constructor|].
  - intros i r Hi Hl Hr. split; [|simpl; lia].
    split; [constructor; [unfold is_index; lia|done]|]. intros ? ? [= <- _]. lia.
  - intros i Hi Hp. apply NoDup_below. intros r r' x [Hl Hr] [Hl' Hr'] E E'.
    assert (Hup : ∀ q, Forall is_index q → (length q ≤ 3)%nat → user_path (i :: q) ∧ (length (i :: q) ≤ 4)%nat).
    { intros q Hq Hlq. split; [|simpl; lia]. split; [constructor; [unfold is_index; lia|done]|]. intros ? ? [= <- _]. lia. }
    enough (i :: r = i :: r') as [=] by done.
    apply (user_once _ _ x); [by apply Hup..| |]; cbn [pth]; by rewrite Hp.
Qed.

(** Every one of them is a frame in use. *)
Lemma user_frame_used x : user_frame m root x →
  ∃ g, x = g * PAGE_SIZE ∧ 0 ≤ g < total_frames pm ∧ g ∉ free_set pm.
Proof using Ht Hu.
  intros [(q & Hq & _ & E)|(v & e & Hv & El & <-)]; [by apply (tr_frame _ _ _ Ht q)|].
  destruct (uh_leaf _ _ _ Hu v 3 e Hv El) as (_ & g & ? & ? & ? & _). by exists g.
Qed.
End UserHalf.

(** A page table half that is well formed serves the copies. *)
Lemma user_half_ok m pm root : tree m pm root → user_half m pm root → user_ok m pm root.
Proof.
  intros Ht Hu.
  assert (Hg : ∀ v p, 0 ≤ v < USER_SPACE_END → uwalk false m root v = Some p → ∃ e g, look m root v = Some (3, e) ∧
    Z.land e ADDR_MASK = g * PAGE_SIZE ∧ p / PAGE_SIZE = g ∧ g ∉ free_set pm ∧
    ∀ q, path_ok q → tbl m root q ≠ Some (g * PAGE_SIZE)).
  { intros v p Hv Hw. apply (uwalk_Some _ _ _ _ _ _ Ht) in Hw as (e & Hl & _ & ->).
    destruct (uh_leaf _ _ _ Hu v 3 e Hv Hl) as (_ & g & Eg & _ & Hf & Hn). exists e, g. split_and!; try done.
    rewrite Eg, Z.div_add_l by done. rewrite Z.div_small; [lia|]. by apply Z.mod_pos_bound. }
  split.
  - intros v p Hv Hw. destruct (Hg v p Hv Hw) as (e & g & _ & _ & Ep & Hf & Hn). exists g. split; [|done].
    subst g. unfold PAGE_SIZE. Z.div_mod_to_equations. lia.
  - intros v w p q Hv Hw Hp Hq E. destruct (Hg v p Hv Hp) as (e & g & Hl & Eg & Ep & _).
    destruct (Hg w q Hw Hq) as (e' & g' & Hl' & Eg' & Eq' & _).
    apply (uh_once _ _ _ Hu v w e e' Hv Hw Hl Hl'). by rewrite Eg, Eg', <- Ep, <- Eq', E.
Qed.

(** Mapping a frame in use that is no table and not mapped keeps it so. *)
Lemma map_keeps_half root s pm s' pm' virt g flags :
  user_half (phys_mem s) pm root → mapped root s pm s' pm' virt (leaf_entry (g * PAGE_SIZE) flags) →
  flags ∈ user_flags → 0 ≤ g < 2^40 → 0 ≤ g < total_frames pm → g ∉ free_set pm →
  (∀ q, path_ok q → tbl (phys_mem s) root q ≠ Some (g * PAGE_SIZE)) →
  (∀ v e, 0 ≤ v < USER_SPACE_END → look (phys_mem s) root v = Some (3, e) → Z.land e ADDR_MASK ≠ g * PAGE_SIZE) →
  user_half (phys_mem s') pm' root.
Proof.
  intros [H1 H2] [_ Hfree Htot Hnew Hl _ _ _ _] Hf Hg Hr Hn Ht Hm.
  destruct (user_flags_facts flags Hf) as ([Hf0 _] & Ha & _).
  assert (Hp : present 3 (leaf_entry (g * PAGE_SIZE) flags) = Some (3, leaf_entry (g * PAGE_SIZE) flags)).
  { unfold present, leaf_entry. change PRESENT with (Z.shiftl 1 0). rewrite has_pow2, Z.lor_spec by lia.
    by rewrite orb_true_r. }
  assert (He : Z.land (leaf_entry (g * PAGE_SIZE) flags) ADDR_MASK = g * PAGE_SIZE) by (by apply leaf_addr).
  assert (Hkeep : ∀ x, x ∉ free_set pm → (∀ q, path_ok q → tbl (phys_mem s) root q ≠ Some (x * PAGE_SIZE)) →
    x ∉ free_set pm' ∧ ∀ q, path_ok q → tbl (phys_mem s') root q ≠ Some (x * PAGE_SIZE)).
  { intros x Hx Hxt. split; [intros Hx2; by apply Hx, Hfree|]. intros q Hq E. destruct (Hnew q _ Hq E) as [E'|(x' & Ex & Hx' & _)].
    - by apply (Hxt q).
    - apply Hx. by replace x with x' by (unfold PAGE_SIZE in Ex; lia). }
  split.
  - intros v lvl e Hv. rewrite Hl, Htot. case_decide.
    + rewrite Hp. intros [= <- <-]. split; [done|]. exists g. split; [done|]. split; [done|]. by apply Hkeep.
    + intros E. destruct (H1 v lvl e Hv E) as (El & x & Ex & Hx & Hxf & Hxt). split; [done|]. exists x.
      split; [done|]. split; [done|]. by apply Hkeep.
  - intros v w e e' Hv Hw. rewrite !Hl. destruct (decide (same_page v virt)) as [Sv|Sv], (decide (same_page w virt)) as [Sw|Sw].
    + intros _ _ _. destruct Sv as (A0 & A1 & A2 & A3), Sw as (B0 & B1 & B2 & B3). split_and!; congruence.
    + rewrite Hp. intros [= <-] Ew E. exfalso. apply (Hm w e' Hw Ew). by rewrite <- E.
    + rewrite Hp. intros Ev [= <-] E. exfalso. apply (Hm v e Hv Ev). by rewrite E.
    + by apply H2.
Qed.

Lemma free_user_half_spec s pm root :
  vm_inv s pm root → user_half (phys_mem s) pm root →
  ∃ s' pm', free_user_half root s = (Ok tt, s') ∧ PMM s' = Some pm' ∧ pmm_inv pm' ∧ phys_mem s' = phys_mem s ∧
    (∀ g, g ∈ free_set pm' ↔ g ∈ free_set pm ∨ user_frame (phys_mem s) root (g * PAGE_SIZE)) ∧
    (∀ g, user_frame (phys_mem s) root (g * PAGE_SIZE) → g ∉ free_set pm).
Proof.
  intros [Hs Hi _ Ht] Hu. set (m := phys_mem s) in *.
  pose proof (elem_of_user_list m pm root Ht Hu) as Hel. pose proof (user_frame_used m pm root Ht Hu) as Hused.
  set (fs := List.map (λ x, x / PAGE_SIZE) (user_list m root)).
  assert (Hfs : List.map (λ f, f * PAGE_SIZE) fs = user_list m root).
  { unfold fs. rewrite List.map_map. rewrite <- (List.map_id (user_list m root)) at 2.
    apply List.map_ext_in. intros x Hx%list_elem_of_In. apply Hel, Hused in Hx as (g & -> & _). by rewrite Z.div_mul. }
  assert (Hin : ∀ g, g ∈ fs ↔ user_frame m root (g * PAGE_SIZE)).
  { intros g. rewrite <- Hel, <- Hfs. split; intros Hg.
    - by apply (list_elem_of_fmap_2 (λ f, f * PAGE_SIZE)).
    - apply (list_elem_of_fmap_1 (λ f, f * PAGE_SIZE)) in Hg as (g' & E & Hg').
      by replace g with g' by (unfold PAGE_SIZE in E; lia). }
  destruct (frees_spec fs s pm Hs Hi) as (s' & pm' & E & Hs' & Hi' & Hm & Hfree & _).
  - pose proof (NoDup_user_list m pm root Ht Hu) as Hnd. rewrite <- Hfs in Hnd.
    by apply (NoDup_fmap_1 (λ f, f * PAGE_SIZE)) in Hnd.
  - intros f Hf%Hin. destruct (Hused _ Hf) as (g & Eg & Hg & Hn).
    by replace f with g by (unfold PAGE_SIZE in Eg; lia).
  - exists s', pm'. rewrite (free_user_half_run m root s) by (done || by apply (user_no_huge m pm root)).
    rewrite Hfs in E. split; [exact E|]. split_and!; try done.
    + intros g. rewrite Hfree, elem_of_union, elem_of_list_to_set. by rewrite Hin.
    + intros g Hg. destruct (Hused _ Hg) as (g' & Eg & _ & Hn).
      by replace g with g' by (unfold PAGE_SIZE in Eg; lia).
Qed.

