(* ===== verification/VmmDemo.v ===== *)
(** * A small address space

    The demonstration machine of the frame allocator with one top table and
    one user page, on which the theorems on address spaces are applied. *)
From stdpp Require Import base numbers list gmap sets.
From Stdlib Require Import ZArith Lia Bool.
From S2P Require Import Prelude Bytes Mem Pmm Vmm VmmTables VmmUser VmmSpace.
Import Vmm.

(** Frame 257 is the top table, frame 258 a page. *)
Definition demo_boot : PState := mkPState ∅ (Some demo_pmm) 0.
Definition demo_s0 : PState := snd (alloc_frame_zeroed (snd (alloc_frame_zeroed demo_boot))).
Definition demo_pm0 : Pmm := default demo_pmm (PMM demo_s0).
Definition demo_root : Z := 257 * PAGE_SIZE.
Definition demo_virt : Z := 0x400000.
Definition demo_s1 : PState := snd (map demo_root demo_virt (258 * PAGE_SIZE) USER_RW demo_s0).
Definition demo_pm1 : Pmm := default demo_pmm (PMM demo_s1).
Definition demo_v0 : VState := mkV demo_s0 (Some demo_root) demo_root demo_root 0 0.
Definition demo_v1 : VState := mkV demo_s1 (Some demo_root) demo_root demo_root 0 0.

Lemma alloc_demo s p f :
  PMM s = Some p → pmm_inv p → (∀ x, read8 (phys_mem s) x = 0) →
  fst (alloc_frame_zeroed s) = Ok (Some (f * PAGE_SIZE)) →
  ∃ p', PMM (snd (alloc_frame_zeroed s)) = Some p' ∧ pmm_inv p' ∧ f ∈ free_set p ∧ free_set p' = free_set p ∖ {[f]} ∧
    total_frames p' = total_frames p ∧ ∀ x, read8 (phys_mem (snd (alloc_frame_zeroed s))) x = 0.
Proof.
  intros Hs Hp Hm Ef. destruct (alloc_frame_zeroed_spec s p Hs Hp) as [[_ E]|(g & p' & Hg & E & Hi & Hfree & Ht)];
    rewrite E in Ef; [done|]. assert (g = f) as -> by (cbn [fst] in Ef; injection Ef; unfold PAGE_SIZE; lia).
  exists p'. rewrite E. cbn [snd PMM set_phys_mem set_PMM phys_mem]. split_and!; [done..|].
  intros x. rewrite read8_fill by done. by case_decide.
Qed.

Lemma demo_state0 :
  PMM demo_s0 = Some demo_pm0 ∧ pmm_inv demo_pm0 ∧ total_frames demo_pm0 = 276 ∧
  257 ∉ free_set demo_pm0 ∧ 258 ∉ free_set demo_pm0 ∧ (3 ≤ size (free_set demo_pm0))%nat ∧
  ∀ x, read8 (phys_mem demo_s0) x = 0.
Proof.
  destruct (alloc_demo demo_boot demo_pmm 257 eq_refl demo_inv) as (p1 & H1 & I1 & F1 & E1 & T1 & M1);
    [done|vm_compute; reflexivity|].
  destruct (alloc_demo (snd (alloc_frame_zeroed demo_boot)) p1 258 H1 I1 M1) as (p2 & H2 & I2 & F2 & E2 & T2 & M2);
    [vm_compute; reflexivity|].
  assert (Hp : PMM demo_s0 = Some p2) by exact H2.
  assert (Ep : demo_pm0 = p2) by (unfold demo_pm0; rewrite Hp; reflexivity).
  rewrite Ep. split; [exact Hp|]. split; [exact I2|]. split; [|split; [|split; [|split; [|exact M2]]]].
  - rewrite T2, T1. by vm_compute.
  - rewrite E2, E1, !elem_of_difference, elem_of_singleton. clear. tauto.
  - rewrite E2, elem_of_difference, elem_of_singleton. clear. tauto.
  - assert (Hc : free_frames demo_pm0 = 13) by (by vm_compute). rewrite Ep, (inv_count _ I2) in Hc. lia.
Qed.

#[local] Opaque demo_s0 demo_pm0.

Lemma zero_ent m a i : (∀ x, read8 m x = 0) → ent m a i = 0.
Proof. intros H. unfold ent, read64. cbn [read_bytes]. by rewrite !H. Qed.

Lemma zero_tree m pm f :
  (∀ x, read8 m x = 0) → 0 ≤ f < total_frames pm → f ∉ free_set pm → tree m pm (f * PAGE_SIZE).
Proof.
  intros Hm Hf Hn.
  assert (Hs : ∀ a i, sub_table (ent m a i) = None) by (intros; by rewrite zero_ent).
  assert (Ht : ∀ i q, tbl m (f * PAGE_SIZE) (i :: q) = None) by (intros; cbn [tbl]; by rewrite Hs).
  split.
  - intros [|i q] a _ E; [injection E as <-; by exists f|by rewrite Ht in E].
  - intros [|i q] [|j r] a _ _ E E'; [done|by rewrite Ht in E'|by rewrite Ht in E..].
  - intros i _ H. by rewrite zero_ent in H.
  - intros p a i _ _ H. rewrite Hs in H. by destruct H.
Qed.

Lemma zero_look m root v : (∀ x, read8 m x = 0) → look m root v = None.
Proof. intros Hm. unfold look. cbn [tbl]. by rewrite !zero_ent. Qed.

Lemma demo_inv0 : vm_inv demo_s0 demo_pm0 demo_root.
Proof.
  destruct demo_state0 as (H & I & T & N & _ & _ & M). split; [exact H|exact I|rewrite T; lia|].
  apply (zero_tree (phys_mem demo_s0) demo_pm0 257); [exact M|rewrite T; lia|exact N].
Qed.

Lemma demo_walk0 v : walk (phys_mem demo_s0) demo_root v = None.
Proof.
  destruct demo_state0 as (_ & _ & _ & _ & _ & _ & M).
  rewrite (walk_look _ _ _ (vi_tree _ _ _ demo_inv0)), (zero_look _ _ _ M). reflexivity.
Qed.

Lemma demo_unmapped : walk (phys_mem demo_s0) demo_root demo_virt = None.
Proof. exact (demo_walk0 demo_virt). Qed.

Lemma demo_half0 : user_half (phys_mem demo_s0) demo_pm0 demo_root.
Proof.
  destruct demo_state0 as (_ & _ & _ & _ & _ & _ & M).
  split; [intros v lvl e _ E|intros v w e e' _ _ E]; rewrite (zero_look _ _ _ M) in E; discriminate E.
Qed.

Lemma demo_flags : USER_RW ∈ user_flags.
Proof. by apply (bool_decide_unpack _). Qed.

Lemma demo_virt_ok : 0 ≤ demo_virt < USER_SPACE_END ∧ demo_virt mod PAGE_SIZE = 0.
Proof. unfold demo_virt, USER_SPACE_END. split; [lia|done]. Qed.

(** One page mapped over empty memory. *)
Lemma page_demo s pm : vm_inv s pm demo_root → 258 < total_frames pm → 258 ∉ free_set pm → (3 ≤ size (free_set pm))%nat →
  (∀ x, read8 (phys_mem s) x = 0) →
  ∃ s' pm', map demo_root demo_virt (258 * PAGE_SIZE) USER_RW s = (Ok tt, s') ∧
    mapped demo_root s pm s' pm' demo_virt (leaf_entry (258 * PAGE_SIZE) USER_RW) ∧ user_half (phys_mem s') pm' demo_root.
Proof.
  intros Hi T N Hsz M. pose proof (λ root v, zero_look (phys_mem s) root v M) as Hl.
  destruct (map4k_spec demo_root s pm demo_virt (258 * PAGE_SIZE) USER_RW Hi) as [[Hlt _]|(s' & pm' & E & Hm)];
    [apply Hl|by vm_compute|clear -Hsz Hlt; lia|].
  exists s', pm'. split; [|split; [exact Hm|]].
  - rewrite <- E. apply (map_run demo_root s demo_virt 258 USER_RW (proj1 demo_virt_ok) (proj2 demo_virt_ok) demo_flags).
    rewrite (walk_look _ _ _ (vi_tree _ _ _ Hi)), Hl. reflexivity.
  - apply (map_keeps_half demo_root s pm s' pm' demo_virt 258 USER_RW).
    + split; [intros v lvl e _ E'|intros v w e e' _ _ E']; rewrite Hl in E'; discriminate E'.
    + exact Hm.
    + exact demo_flags.
    + lia.
    + lia.
    + exact N.
    + intros [|i q] _; [unfold demo_root, PAGE_SIZE; intros [=]|].
      cbn [tbl]. rewrite zero_ent by exact M. intros E'. discriminate E'.
    + intros v e _ E'. rewrite Hl in E'. discriminate E'.
Qed.

Lemma demo_page : map demo_root demo_virt (258 * PAGE_SIZE) USER_RW demo_s0 = (Ok tt, demo_s1) ∧
  mapped demo_root demo_s0 demo_pm0 demo_s1 demo_pm1 demo_virt (leaf_entry (258 * PAGE_SIZE) USER_RW) ∧
  user_half (phys_mem demo_s1) demo_pm1 demo_root.
Proof.
  destruct demo_state0 as (_ & _ & T & _ & N' & Hsz & M).
  destruct (page_demo demo_s0 demo_pm0 demo_inv0) as (s' & pm' & Er & Hm & Hh); [rewrite T; lia|exact N'|exact Hsz|exact M|].
  assert (Es : demo_s1 = s') by (unfold demo_s1; rewrite Er; reflexivity).
  assert (Ep : demo_pm1 = pm').
  { unfold demo_pm1. rewrite Es, (vi_pmm _ _ _ (mp_inv _ _ _ _ _ _ _ Hm)). reflexivity. }
  rewrite Er, Es, Ep. split; [exact eq_refl|]. split; [exact Hm|exact Hh].
Qed.

Lemma demo_mapped : mapped demo_root demo_s0 demo_pm0 demo_s1 demo_pm1 demo_virt (leaf_entry (258 * PAGE_SIZE) USER_RW).
Proof. apply demo_page. Qed.

#[local] Opaque demo_s1 demo_pm1.

Lemma demo_half : user_half (phys_mem demo_s1) demo_pm1 demo_root.
Proof. apply demo_page. Qed.

Lemma demo_look : look (phys_mem demo_s1) demo_root demo_virt = Some (3, leaf_entry (258 * PAGE_SIZE) USER_RW).
Proof.
  rewrite (mp_look _ _ _ _ _ _ _ demo_mapped), decide_True by apply same_page_refl.
  vm_compute. reflexivity.
Qed.

Lemma demo_inv1 : vm_inv demo_s1 demo_pm1 demo_root.
Proof. exact (mp_inv _ _ _ _ _ _ _ demo_mapped). Qed.

Lemma demo_mem_ok : mem_ok (phys_mem demo_s0).
Proof. intros x. destruct demo_state0 as (_ & _ & _ & _ & _ & _ & M). rewrite M. by split. Qed.

(** ** The theorems, applied *)
Lemma user_map_correct_witness :
  ∃ s' pm', map demo_root demo_virt (258 * PAGE_SIZE) USER_RW demo_s0 = (Ok tt, s') ∧ vm_inv s' pm' demo_root ∧
    page_view (phys_mem s') demo_root demo_virt (258 * PAGE_SIZE) USER_RW.
Proof.
  destruct (user_map_correct demo_root demo_s0 demo_pm0 demo_virt 258 USER_RW demo_inv0 (proj1 demo_virt_ok)
    (proj2 demo_virt_ok) ltac:(lia) demo_flags demo_unmapped) as (s' & pm' & E & Hi & Hv & _).
  { destruct demo_state0 as (_ & _ & _ & _ & _ & Hsz & _). exact Hsz. }
  exists s', pm'. exact (conj E (conj Hi Hv)).
Defined.

Lemma user_unmap_protect_witness :
  (∃ s', unmap demo_root demo_virt demo_s1 = (Ok (Some (258 * PAGE_SIZE)), s') ∧
     walk (phys_mem s') demo_root demo_virt = None) ∧
  ∃ s', protect demo_root demo_virt USER_RO demo_s1 = (Ok true, s') ∧
    page_view (phys_mem s') demo_root demo_virt (258 * PAGE_SIZE) USER_RO.
Proof.
  destruct (user_unmap_protect demo_root demo_s1 demo_pm1 demo_virt 258 USER_RW USER_RO demo_inv1 (proj1 demo_virt_ok)
    (proj2 demo_virt_ok) ltac:(lia) demo_flags demo_look) as [(s' & E & _ & Hw & _) Hp]. split.
  - exists s'. split; [exact E|]. exact (Hw 0 ltac:(unfold PAGE_SIZE; lia)).
  - destruct Hp as (s2 & E2 & _ & Hv & _). exists s2. exact (conj E2 Hv).
Defined.

Lemma copy_user_roundtrip_witness :
  ∃ s', copy_to_user (demo_virt + 5) [1; 2; 3] demo_v1 = (Ok true, s') ∧
    copy_from_user 3 (demo_virt + 5) s' = Ok (Some [1; 2; 3]).
Proof.
  destruct (copy_user_roundtrip demo_v1 demo_pm1 (demo_virt + 5) [1; 2; 3] demo_inv1
    (user_half_ok _ _ _ (vi_tree _ _ _ demo_inv1) demo_half)) as [[E _]|(s' & E & _ & _ & _ & _ & Hr)].
  - unfold demo_virt, u64_max. lia.
  - exfalso. assert (Ef : fst (copy_to_user (demo_virt + 5) [1; 2; 3] demo_v1) = Ok true) by (vm_compute; reflexivity).
    rewrite E in Ef. discriminate.
  - exists s'. exact (conj E Hr).
Defined.

Lemma create_shares_kernel_witness :
  ∃ f s', create_address_space demo_v0 = (Ok (Some (f * PAGE_SIZE)), s') ∧ f ∈ free_set demo_pm0 ∧
    walk (phys_mem (pst s')) (f * PAGE_SIZE) demo_virt = None.
Proof.
  destruct (create_shares_kernel demo_v0 demo_pm0 demo_root eq_refl demo_inv0 demo_mem_ok)
    as (f & s' & pm' & E & Hf & _ & _ & _ & Hu & _).
  { destruct demo_state0 as (_ & _ & _ & _ & _ & Hsz & _). lia. }
  exists f, s'. exact (conj E (conj Hf (Hu _ (proj1 demo_virt_ok)))).
Defined.

