(* ===== verification/Elf.v ===== *)
(** * Loading executables: [elf.rs]

    [parse] validates the headers of an image and [load] maps its segments
    into an address space.  The image is a list of bytes.  A read outside it
    is a panic, also where the code copies through a raw pointer, so that the
    absence of such reads is part of what is proved.  The ordered map of pages
    is a finite map whose entries are visited in the order of their keys. *)
From Stdlib Require Import String.
From stdpp Require Import base numbers list gmap sets sorting.
From Stdlib Require Import ZArith Lia Bool.
From S2P Require Import Prelude Bytes Str Mem Pmm Vmm.
Import Vmm.

Module Elf.

Definition LOAD_MIN : Z := 0x1000.
Definition LOAD_MAX : Z := 0x400000000000.
Definition MAX_SEGMENTS : Z := 16.
Definition MAX_PHDRS : Z := 64.
Definition MAX_PAGES : Z := 16 * 1024.
Definition EHDR_SIZE : Z := 64.
Definition PHDR_SIZE : Z := 56.
Definition ET_EXEC : Z := 2.
Definition EM_X86_64 : Z := 62.
Definition PT_LOAD : Z := 1.
Definition PT_INTERP : Z := 3.
Definition PF_X : Z := 1.
Definition PF_W : Z := 2.

Inductive ElfError :=
  | TooShort | BadMagic | NotElf64Le | NotExecutable | WrongArch | BadHeader | Dynamic | Truncated
  | BadSegment | TooManySegments | Overlap | WritableExecutable | TooLarge | NoLoadable | BadEntry | NoMemory.

#[global] Instance ElfError_eq_dec : EqDecision ElfError.
Proof. solve_decision. Defined.

Definition as_str (e : ElfError) : list Z :=
  match e with
  | TooShort => lit "file too short for an ELF header"
  | BadMagic => lit "not an ELF file (bad magic)"
  | NotElf64Le => lit "not a 64-bit little-endian ELF"
  | NotExecutable => lit "not a static executable (ET_EXEC)"
  | WrongArch => lit "not an x86-64 executable"
  | BadHeader => lit "bad program header table"
  | Dynamic => lit "dynamically linked executables are not supported"
  | Truncated => lit "header or segment extends past the end of the file"
  | BadSegment => lit "segment size or address is invalid"
  | TooManySegments => lit "too many loadable segments"
  | Overlap => lit "loadable segments overlap"
  | WritableExecutable => lit "segment is both writable and executable"
  | TooLarge => lit "image is too large"
  | NoLoadable => lit "no loadable segments"
  | BadEntry => lit "entry point is not inside an executable segment"
  | NoMemory => lit "out of memory"
  end.

Record Segment := mkSegment { vaddr : Z; offset : Z; filesz : Z; memsz : Z; sflags : Z }.
Record Page := mkPage { phys : Z; writable : bool; executable : bool }.

Definition elf_align_down (v : Z) : Z := align_down v PAGE_SIZE.
Definition elf_align_up {E} (v : Z) : res E Z := align_up v PAGE_SIZE.

(** Little-endian fields at an offset. *)
Definition rd {E} (n : Z) (b : list Z) (o : Z) : res E Z :=
  let? bs := expect (slice b o n) in Ok (le_value bs).
Definition rd16 {E} : list Z → Z → res E Z := rd 2.
Definition rd32 {E} : list Z → Z → res E Z := rd 4.
Definition rd64 {E} : list Z → Z → res E Z := rd 8.

Definition guard {E} (b : bool) (e : E) : res E unit := if b then Err e else Ok tt.

(** One round of the loop over the program headers. *)
Definition phdr_step (image : list Z) (phoff : Z) (acc : list Segment * Z) (i : Z) :
    res ElfError (list Segment * Z) :=
  let '(segments, total_pages) := acc in
  let? t := mul64 i PHDR_SIZE in
  let? o := add64 phoff t in
  let? p_type := rd32 image o in
  let? p_flags := rd32 image (o + 4) in
  let? p_offset := rd64 image (o + 8) in
  let? p_vaddr := rd64 image (o + 16) in
  let? p_filesz := rd64 image (o + 32) in
  let? p_memsz := rd64 image (o + 40) in
  if p_type =? PT_INTERP then Err Dynamic
  else if negb (p_type =? PT_LOAD) || (p_memsz =? 0) then Ok acc
  else
    let? _ := guard (p_memsz <? p_filesz) BadSegment in
    let? end_ := ok_or BadSegment (checked_add p_vaddr p_memsz) in
    let? _ := guard ((p_vaddr <? LOAD_MIN) || (LOAD_MAX <? end_)) BadSegment in
    let? file_end := ok_or Truncated (checked_add p_offset p_filesz) in
    let? _ := guard (Z.of_nat (length image) <? file_end) Truncated in
    let? _ := guard (has p_flags PF_W && has p_flags PF_X) WritableExecutable in
    let? _ := guard (Z.of_nat (length segments) =? MAX_SEGMENTS) TooManySegments in
    let? up := elf_align_up end_ in
    let? span := sub64 up (elf_align_down p_vaddr) in
    let? total_pages := add64 total_pages (span / PAGE_SIZE) in
    let? _ := guard (MAX_PAGES <? total_pages) TooLarge in
    Ok (segments ++ [mkSegment p_vaddr p_offset p_filesz p_memsz p_flags], total_pages).

Fixpoint phdr_loop (image : list Z) (phoff : Z) (acc : list Segment * Z) (idxs : list Z) :
    res ElfError (list Segment * Z) :=
  match idxs with
  | [] => Ok acc
  | i :: idxs => let? acc := phdr_step image phoff acc i in phdr_loop image phoff acc idxs
  end.

Definition overlap (a b : Segment) : bool :=
  (vaddr a <? vaddr b + memsz b) && (vaddr b <? vaddr a + memsz a).

Fixpoint any_overlap (segments : list Segment) : bool :=
  match segments with
  | [] => false
  | a :: rest => existsb (overlap a) rest || any_overlap rest
  end.

Definition holds_entry (entry : Z) (s : Segment) : bool :=
  has (sflags s) PF_X && (vaddr s <=? entry) && (entry <? vaddr s + memsz s).

Definition parse (image : list Z) : res ElfError (Z * list Segment) :=
  let? _ := guard (Z.of_nat (length image) <? EHDR_SIZE) TooShort in
  let? magic := expect (slice image 0 4) in
  let? _ := guard (negb (bool_decide (magic = [0x7f; 69; 76; 70]))) BadMagic in
  let? class := rd 1 image 4 in
  let? data := rd 1 image 5 in
  let? _ := guard (negb (class =? 2) || negb (data =? 1)) NotElf64Le in
  let? e_type := rd16 image 16 in
  let? _ := guard (negb (e_type =? ET_EXEC)) NotExecutable in
  let? e_machine := rd16 image 18 in
  let? _ := guard (negb (e_machine =? EM_X86_64)) WrongArch in
  let? entry := rd64 image 24 in
  let? phoff := rd64 image 32 in
  let? phentsize := rd16 image 54 in
  let? phnum := rd16 image 56 in
  let? _ := guard (negb (phentsize =? PHDR_SIZE) || (phnum =? 0) || (MAX_PHDRS <? phnum)) BadHeader in
  let? table_end := ok_or Truncated (checked_add phoff (phnum * PHDR_SIZE)) in
  let? _ := guard (Z.of_nat (length image) <? table_end) Truncated in
  let? (segments, _) := phdr_loop image phoff ([], 0) (seqZ 0 phnum) in
  let? _ := guard (bool_decide (segments = [])) NoLoadable in
  let? _ := guard (any_overlap segments) Overlap in
  let? _ := guard (negb (existsb (holds_entry entry) segments)) BadEntry in
  Ok (entry, segments).

(** ** Filling the pages *)

(** The machine and the pages allocated so far. *)
Notation L := (M (PState * gmap Z Page) ElfError).

Definition on_machine {A} (m : M PState Empty_set A) : L A := λ s,
  let '(r, p) := m (fst s) in (map_err (λ e : Empty_set, match e with end) r, (p, snd s)).

Fixpoint page_loop (fuel : nat) (va last : Z) (w x : bool) : L unit :=
  if va <? last then
    match fuel with
    | O => diverge
    | S fuel =>
        (let! s := get in
         match snd s !! va with
         | Some page => put (fst s, <[va := mkPage (phys page) (writable page || w) (executable page || x)]> (snd s))
         | None =>
             let! o := on_machine alloc_frame_zeroed in
             match o with
             | None => fail NoMemory
             | Some ph => let! s := get in put (fst s, <[va := mkPage ph w x]> (snd s))
             end
         end) ;;!
        let! va := lift (add64 va PAGE_SIZE) in
        page_loop fuel va last w x
    end
  else ret tt.

Fixpoint copy_loop (fuel : nat) (image : list Z) (seg : Segment) (copied : Z) : L unit :=
  if copied <? filesz seg then
    match fuel with
    | O => diverge
    | S fuel =>
        let! dst_va := lift (add64 (vaddr seg) copied) in
        let page_va := elf_align_down dst_va in
        let in_page := dst_va - page_va in
        let n := Z.min (filesz seg - copied) (PAGE_SIZE - in_page) in
        let! s := get in
        match snd s !! page_va with
        | None => fail BadSegment
        | Some page =>
            let! from := lift (add64 (offset seg) copied) in
            let! bytes := lift (expect (slice image from n)) in
            put (set_phys_mem (fst s) (write_bytes (phys_mem (fst s)) (phys page + in_page) bytes), snd s) ;;!
            copy_loop fuel image seg (copied + n)
        end
    end
  else ret tt.

Definition populate_segment (image : list Z) (seg : Segment) : L unit :=
  let w := has (sflags seg) PF_W in
  let x := has (sflags seg) PF_X in
  let va := elf_align_down (vaddr seg) in
  let! end_ := lift (add64 (vaddr seg) (memsz seg)) in
  let! last := lift (elf_align_up end_) in
  page_loop (page_rounds va last) va last w x ;;!
  copy_loop (Z.to_nat (filesz seg)) image seg 0.

(** The entries in the order of their keys. *)
Definition by_key (a b : Z * Page) : Prop := fst a ≤ fst b.
#[global] Instance by_key_dec a b : Decision (by_key a b).
Proof. unfold by_key. apply _. Defined.
Definition items (pages : gmap Z Page) : list (Z * Page) := merge_sort by_key (map_to_list pages).

Definition populate (image : list Z) (segments : list Segment) : L unit :=
  mfor segments (populate_segment image) ;;!
  let! s := get in
  if existsb (λ p, writable (snd p) && executable (snd p)) (items (snd s)) then fail WritableExecutable else ret tt.

Definition free_pages (pages : gmap Z Page) : M PState Empty_set unit :=
  mfor (items pages) (λ p, free_frame (phys (snd p))).

Definition page_flags (p : Page) : Z :=
  match writable p, executable p with
  | false, false => USER_RO
  | true, false => USER_RW
  | false, true => USER_RX
  | true, true => USER_RO
  end.

Definition load (image : list Z) (aspace : Z) : M PState ElfError Z := λ s,
  match parse image with
  | Ok (entry, segments) =>
      match populate image segments (s, ∅) with
      | (Ok tt, (s, pages)) =>
          match mfor (items pages) (λ p, map aspace (fst p) (phys (snd p)) (page_flags (snd p))) s with
          | (Ok tt, s) => (Ok entry, s)
          | (Err e, s) => match e with end
          | (Panic, s) => (Panic, s)
          | (Diverge, s) => (Diverge, s)
          end
      | (Err e, (s, pages)) =>
          match free_pages pages s with
          | (Ok tt, s) => (Err e, s)
          | (Err e, s) => match e with end
          | (Panic, s) => (Panic, s)
          | (Diverge, s) => (Diverge, s)
          end
      | (Panic, (s, _)) => (Panic, s)
      | (Diverge, (s, _)) => (Diverge, s)
      end
  | Err e => (Err e, s)
  | Panic => (Panic, s)
  | Diverge => (Diverge, s)
  end.
End Elf.
