(* ===== verification/ElfParse.v ===== *)
(** * The parser accepts exactly the well-formed images

    What an image must satisfy is stated on its fields, without the order in
    which the code looks at them, and [parse] is shown to accept an image if
    and only if it does, and to reject every other with an error: it never
    panics and never reads outside the image. *)
From Stdlib Require Import String.
From stdpp Require Import base numbers list gmap sets sorting.
From Stdlib Require Import ZArith Lia Bool.
From S2P Require Import Prelude Bytes Str Mem Pmm Vmm Elf.
Import Vmm Elf.

(** ** The fields of an image *)
Definition field (n : Z) (image : list Z) (o : Z) : Z :=
  le_value (take (Z.to_nat n) (drop (Z.to_nat o) image)).

Definition e_phoff (image : list Z) : Z := field 8 image 32.
Definition e_phnum (image : list Z) : Z := field 2 image 56.
Definition e_entry (image : list Z) : Z := field 8 image 24.

(** The offset of a program header, and the segment it describes. *)
Definition phdr_at (image : list Z) (i : Z) : Z := e_phoff image + i * PHDR_SIZE.
Definition p_type (image : list Z) (i : Z) : Z := field 4 image (phdr_at image i).
Definition phdr_segment (image : list Z) (i : Z) : Segment :=
  let o := phdr_at image i in
  mkSegment (field 8 image (o + 16)) (field 8 image (o + 8)) (field 8 image (o + 32))
    (field 8 image (o + 40)) (field 4 image (o + 4)).
Definition loadable (image : list Z) (i : Z) : bool :=
  (p_type image i =? PT_LOAD) && negb (memsz (phdr_segment image i) =? 0).

(** The loadable segments, in the order of the headers. *)
Definition load_segments (image : list Z) (idxs : list Z) : list Segment :=
  List.map (phdr_segment image) (List.filter (loadable image) idxs).

Definition seg_end (s : Segment) : Z := vaddr s + memsz s.
Definition first_page (s : Segment) : Z := vaddr s / PAGE_SIZE.
Definition end_page (s : Segment) : Z := (seg_end s + PAGE_SIZE - 1) / PAGE_SIZE.
Definition seg_pages (s : Segment) : Z := end_page s - first_page s.
Definition total_seg_pages (segs : list Segment) : Z := foldr (λ s t, seg_pages s + t) 0 segs.

Record segment_ok (image : list Z) (s : Segment) : Prop := {
  so_min : LOAD_MIN ≤ vaddr s;
  so_max : seg_end s ≤ LOAD_MAX;
  so_size : 0 ≤ filesz s ≤ memsz s;
  so_some : 0 < memsz s;
  so_offset : 0 ≤ offset s;
  so_file : offset s + filesz s ≤ Z.of_nat (length image);
  so_wx : has (sflags s) PF_W && has (sflags s) PF_X = false
}.

Definition disjoint (a b : Segment) : Prop := seg_end a ≤ vaddr b ∨ seg_end b ≤ vaddr a.

Record header_ok (image : list Z) : Prop := {
  ho_size : EHDR_SIZE ≤ Z.of_nat (length image);
  ho_magic : take 4 image = [0x7f; 69; 76; 70];
  ho_class : field 1 image 4 = 2 ∧ field 1 image 5 = 1;
  ho_exec : field 2 image 16 = ET_EXEC;
  ho_arch : field 2 image 18 = EM_X86_64;
  ho_entsize : field 2 image 54 = PHDR_SIZE;
  ho_num : 0 < e_phnum image ≤ MAX_PHDRS;
  ho_table : e_phoff image + e_phnum image * PHDR_SIZE ≤ Z.of_nat (length image)
}.

(** What [parse] promises of an accepted image. *)
Record well_formed (image : list Z) (entry : Z) (segs : list Segment) : Prop := {
  wf_header : header_ok image;
  wf_static : ∀ i, 0 ≤ i < e_phnum image → p_type image i ≠ PT_INTERP;
  wf_segs : segs = load_segments image (seqZ 0 (e_phnum image));
  wf_ok : Forall (segment_ok image) segs;
  wf_some : segs ≠ [];
  wf_count : Z.of_nat (length segs) ≤ MAX_SEGMENTS;
  wf_pages : total_seg_pages segs ≤ MAX_PAGES;
  wf_disjoint : ∀ i j a b, segs !! i = Some a → segs !! j = Some b → i ≠ j → disjoint a b;
  wf_entry : entry = e_entry image;
  wf_start : ∃ s, s ∈ segs ∧ has (sflags s) PF_X = true ∧ vaddr s ≤ entry < seg_end s
}.

(** ** Reading fields *)
Section Fields.
Context (image : list Z) (Hb : bytes_ok image).
Notation len := (Z.of_nat (length image)).

Lemma rd_ok {E} n o : 0 ≤ n → 0 ≤ o → o + n ≤ len → rd (E:=E) n image o = Ok (field n image o).
Proof using. intros. unfold rd. by rewrite slice_Some. Qed.

Lemma field_range n o : 0 ≤ n → 0 ≤ field n image o < 256 ^ n.
Proof using Hb.
  intros Hn. unfold field.
  pose proof (le_value_range (take (Z.to_nat n) (drop (Z.to_nat o) image)) ltac:(by apply Forall_take, Forall_drop)) as H.
  assert (256 ^ Z.of_nat (length (take (Z.to_nat n) (drop (Z.to_nat o) image))) ≤ 256 ^ n); [|lia].
  apply Z.pow_le_mono_r; [lia|]. rewrite length_take. lia.
Qed.

Lemma field8 o : 0 ≤ field 8 image o ≤ u64_max.
Proof using Hb. pose proof (field_range 8 o ltac:(lia)). unfold u64_max. change (256 ^ 8) with (2^64) in *. lia. Qed.

(** A segment whose fields are in their widths. *)
Lemma segment_pages s : segment_ok image s → 0 < seg_pages s ∧ 0 ≤ first_page s.
Proof using.
  intros [Hmin Hmax _ Hs _ _ _]. unfold seg_pages, end_page, first_page, seg_end, LOAD_MIN, PAGE_SIZE in *.
  split; Z.div_mod_to_equations; lia.
Qed.

(** ** The program headers *)
Ltac reject :=
  right; split; [intros ([] & ? & ?); unfold seg_end, LOAD_MAX, u64_max in *; (lia || congruence)|subst; by eexists].

Context (Hlen : len < 2^63) (Htab : e_phoff image + e_phnum image * PHDR_SIZE ≤ len).

Definition step_ok (segs : list Segment) (t : Z) (s : Segment) : Prop :=
  segment_ok image s ∧ Z.of_nat (length segs) < MAX_SEGMENTS ∧ t + seg_pages s ≤ MAX_PAGES.

(** What is done with a loadable segment. *)
Definition segment_step (segs : list Segment) (t : Z) (s : Segment) : res ElfError (list Segment * Z) :=
  let? _ := guard (memsz s <? filesz s) BadSegment in
  let? end_ := ok_or BadSegment (checked_add (vaddr s) (memsz s)) in
  let? _ := guard ((vaddr s <? LOAD_MIN) || (LOAD_MAX <? end_)) BadSegment in
  let? file_end := ok_or Truncated (checked_add (offset s) (filesz s)) in
  let? _ := guard (len <? file_end) Truncated in
  let? _ := guard (has (sflags s) PF_W && has (sflags s) PF_X) WritableExecutable in
  let? _ := guard (Z.of_nat (length segs) =? MAX_SEGMENTS) TooManySegments in
  let? up := elf_align_up end_ in
  let? span := sub64 up (elf_align_down (vaddr s)) in
  let? total_pages := add64 t (span / PAGE_SIZE) in
  let? _ := guard (MAX_PAGES <? total_pages) TooLarge in
  Ok (segs ++ [s], total_pages).

Lemma phdr_step_reads segs t i : 0 ≤ i < e_phnum image →
  phdr_step image (e_phoff image) (segs, t) i =
  if p_type image i =? PT_INTERP then Err Dynamic
  else if loadable image i then segment_step segs t (phdr_segment image i) else Ok (segs, t).
Proof using Hb Hlen Htab.
  intros Hi. pose proof (field8 32) as Hph. fold (e_phoff image) in Hph. set (o := phdr_at image i).
  assert (Ho : 0 ≤ o ∧ o + PHDR_SIZE ≤ len) by (unfold o, phdr_at, PHDR_SIZE in *; lia).
  unfold phdr_step. rewrite mul64_ok by (unfold PHDR_SIZE, u64_max in *; lia). cbn [res_bind].
  rewrite add64_ok by (unfold o, phdr_at, PHDR_SIZE, u64_max in *; lia). cbn [res_bind].
  fold (phdr_at image i). fold o. unfold PHDR_SIZE in Ho. unfold rd32, rd64.
  rewrite !rd_ok by lia. cbn [res_bind]. change (field 4 image o) with (p_type image i). unfold loadable.
  destruct (p_type image i =? PT_INTERP); [done|].
  change (field 8 image (o + 40)) with (memsz (phdr_segment image i)).
  destruct (p_type image i =? PT_LOAD); [|done]. by destruct (memsz (phdr_segment image i) =? 0).
Qed.

Lemma segment_step_spec segs t s :
  0 ≤ vaddr s → 0 ≤ offset s → 0 ≤ filesz s → 0 ≤ memsz s → memsz s ≠ 0 →
  0 ≤ t ≤ MAX_PAGES → Z.of_nat (length segs) ≤ MAX_SEGMENTS →
  (step_ok segs t s ∧ segment_step segs t s = Ok (segs ++ [s], t + seg_pages s)) ∨
  (¬ step_ok segs t s ∧ ∃ e, segment_step segs t s = Err e).
Proof using Hlen.
  intros Hv Hof Hfs Hms Hm0 Ht Hn. remember (segment_step segs t s) as r eqn:Er. unfold segment_step in Er.
  unfold guard at 1 in Er. destruct (Z.ltb_spec (memsz s) (filesz s)); [reject|]. cbn [res_bind] in Er.
  unfold checked_add at 1 in Er. destruct (Z.leb_spec (vaddr s + memsz s) u64_max); cbn [ok_or res_bind] in Er; [|reject].
  fold (seg_end s) in *. unfold guard at 1 in Er.
  destruct (Z.ltb_spec (vaddr s) LOAD_MIN); cbn [orb] in Er; [reject|].
  destruct (Z.ltb_spec LOAD_MAX (seg_end s)); cbn [orb res_bind] in Er; [reject|].
  unfold checked_add at 1 in Er.
  destruct (Z.leb_spec (offset s + filesz s) u64_max); cbn [ok_or res_bind] in Er; [|reject].
  unfold guard at 1 in Er. destruct (Z.ltb_spec len (offset s + filesz s)); [reject|]. cbn [res_bind] in Er.
  unfold guard at 1 in Er. destruct (has (sflags s) PF_W && has (sflags s) PF_X) eqn:Ewx; [reject|].
  assert (Hok : segment_ok image s) by (split; (done || lia)). cbn [res_bind] in Er.
  unfold guard at 1 in Er. destruct (Z.eqb_spec (Z.of_nat (length segs)) MAX_SEGMENTS); [reject|].
  cbn [res_bind] in Er. unfold elf_align_up, elf_align_down in Er. change PAGE_SIZE with (2^12) in Er.
  rewrite align_up_spec, align_down_spec in Er by (unfold u64_max, LOAD_MAX, seg_end in *; lia). cbn [res_bind] in Er.
  destruct (segment_pages s Hok) as [Hp0 Hp1]. unfold step_ok, seg_pages, end_page, first_page in *.
  change PAGE_SIZE with (2^12) in *. set (a := (seg_end s + 2^12 - 1) / 2^12) in *. set (b := vaddr s / 2^12) in *.
  rewrite sub64_ok in Er by lia. cbn [res_bind] in Er.
  replace (a * 2^12 - b * 2^12) with ((a - b) * 2^12) in Er by lia. rewrite Z.div_mul in Er by done.
  assert (Hub : a - b ≤ LOAD_MAX) by (unfold a, b, LOAD_MAX in *; Z.div_mod_to_equations; lia).
  rewrite add64_ok in Er by (unfold LOAD_MAX, MAX_PAGES, u64_max in *; lia). cbn [res_bind] in Er.
  unfold guard in Er. destruct (Z.ltb_spec MAX_PAGES (t + (a - b))); [reject|].
  left. split; [|done]. split; [done|]. split; [lia|done].
Qed.

Lemma phdr_step_spec segs t i :
  0 ≤ i < e_phnum image → 0 ≤ t ≤ MAX_PAGES → Z.of_nat (length segs) ≤ MAX_SEGMENTS →
  let s := phdr_segment image i in
  let r := phdr_step image (e_phoff image) (segs, t) i in
  if p_type image i =? PT_INTERP then r = Err Dynamic
  else if loadable image i then
    (step_ok segs t s ∧ r = Ok (segs ++ [s], t + seg_pages s)) ∨ (¬ step_ok segs t s ∧ ∃ e, r = Err e)
  else r = Ok (segs, t).
Proof using Hb Hlen Htab.
  intros Hi Ht Hn. cbv zeta. rewrite phdr_step_reads by done.
  destruct (p_type image i =? PT_INTERP); [done|]. destruct (loadable image i) eqn:El; [|done].
  unfold loadable in El. apply andb_true_iff in El as [_ El]. apply negb_true_iff, Z.eqb_neq in El.
  apply segment_step_spec; [apply field8..|done|done|done].
Qed.

(** The loop keeps exactly the loadable segments, or rejects the image. *)
Definition loop_ok (segs : list Segment) (t : Z) (idxs : list Z) : Prop :=
  (∀ i, i ∈ idxs → p_type image i ≠ PT_INTERP) ∧ Forall (segment_ok image) (load_segments image idxs) ∧
  Z.of_nat (length segs + length (load_segments image idxs)) ≤ MAX_SEGMENTS ∧
  t + total_seg_pages (load_segments image idxs) ≤ MAX_PAGES.

Lemma total_nonneg segs : Forall (segment_ok image) segs → 0 ≤ total_seg_pages segs.
Proof using. induction 1 as [|s segs Hs _ IH]; simpl; [lia|]. pose proof (segment_pages s Hs). lia. Qed.

Lemma phdr_loop_spec idxs : ∀ segs t,
  (∀ i, i ∈ idxs → 0 ≤ i < e_phnum image) → 0 ≤ t ≤ MAX_PAGES → Z.of_nat (length segs) ≤ MAX_SEGMENTS →
  let r := phdr_loop image (e_phoff image) (segs, t) idxs in
  (loop_ok segs t idxs ∧
     r = Ok (segs ++ load_segments image idxs, t + total_seg_pages (load_segments image idxs))) ∨
  (¬ loop_ok segs t idxs ∧ ∃ e, r = Err e).
Proof using Hb Hlen Htab.
  induction idxs as [|i idxs IH]; intros segs t Hin Ht Hn; cbv zeta.
  { left. split; [|simpl; by rewrite app_nil_r, Z.add_0_r]. split; [by intros i ?%elem_of_nil|]. simpl.
    split; [constructor|]. lia. }
  cbn [phdr_loop]. pose proof (phdr_step_spec segs t i ltac:(apply Hin; left) Ht Hn) as Hs. cbv zeta in Hs.
  destruct (Z.eqb_spec (p_type image i) PT_INTERP) as [Ei|Ei].
  { right. rewrite Hs. split; [|by eexists]. intros (H & _). apply (H i); [left|done]. }
  unfold loop_ok, load_segments in *. cbn [List.filter]. destruct (loadable image i) eqn:El.
  2:{ rewrite Hs. cbn [res_bind]. destruct (IH segs t ltac:(intros; apply Hin; by right) Ht Hn) as [[H E]|[H E]].
      - left. rewrite E. split; [|done]. destruct H as (H1 & H2). split; [|done]. intros j [->|Hj]%elem_of_cons; [done|by apply H1].
      - right. split; [|done]. intros (H1 & H2). apply H. split; [|done]. intros j Hj. apply H1. by right. }
  cbn [List.map length]. destruct Hs as [((Hok & Hc & Hp) & E)|[Hno [e E]]]; rewrite E; cbn [res_bind].
  2:{ right. split; [|by eexists]. intros (_ & H2 & H3 & H4). apply Hno. apply Forall_cons in H2 as [H2 H2'].
      cbn [total_seg_pages foldr] in H4. pose proof (total_nonneg _ H2') as H5. unfold total_seg_pages in H5.
      split; [done|]. split; lia. }
  pose proof (segment_pages _ Hok) as [Hpos _].
  destruct (IH (segs ++ [phdr_segment image i]) (t + seg_pages (phdr_segment image i)))
    as [[(H1 & H2 & H3 & H4) E']|[H E']]; [intros; apply Hin; by right|lia|rewrite length_app; simpl; lia| |].
  - left. rewrite E', <- app_assoc. rewrite length_app in H3. simpl in H3. split.
    + split; [intros j [->|Hj]%elem_of_cons; [done|by apply H1]|]. split; [by constructor|].
      cbn [total_seg_pages foldr]. unfold total_seg_pages in H4. lia.
    + cbn [total_seg_pages foldr app]. unfold total_seg_pages. do 2 f_equal. lia.
  - right. split; [|done]. intros (H1 & H2 & H3 & H4). apply H. apply Forall_cons in H2 as [_ H2].
    split; [intros j Hj; apply H1; by right|]. split; [done|]. cbn [total_seg_pages foldr] in H4.
    unfold total_seg_pages. rewrite length_app. simpl. lia.
Qed.
End Fields.

(** ** Overlaps and the entry point *)
Lemma overlap_disjoint a b : 0 < memsz a → 0 < memsz b → overlap a b = false ↔ disjoint a b.
Proof.
  intros Ha Hb. unfold overlap, disjoint, seg_end. rewrite andb_false_iff, !Z.ltb_ge. lia.
Qed.

Lemma any_overlap_spec segs :
  Forall (λ s, 0 < memsz s) segs →
  any_overlap segs = false ↔ ∀ i j a b, segs !! i = Some a → segs !! j = Some b → i ≠ j → disjoint a b.
Proof.
  induction 1 as [|s segs Hs Hall IH]; [done|]. cbn [any_overlap]. rewrite orb_false_iff, IH. clear IH.
  rewrite Forall_lookup in Hall.
  assert (Hex : existsb (overlap s) segs = false ↔ ∀ j b, segs !! j = Some b → disjoint s b).
  { rewrite <- not_true_iff_false, existsb_exists. split.
    - intros H j b Hj. apply overlap_disjoint; [done|by eapply Hall|]. apply not_true_iff_false. intros E. apply H.
      exists b. split; [|done]. by apply list_elem_of_In, (list_elem_of_lookup_2 _ j).
    - intros H (b & Hb & E). apply list_elem_of_In, list_elem_of_lookup in Hb as [j Hj].
      pose proof (proj2 (overlap_disjoint s b Hs (Hall _ _ Hj)) (H j b Hj)). congruence. }
  rewrite Hex. split.
  - intros [H1 H2] [|i] [|j] a b; cbn; [done|intros [= <-] Hj _; by eapply H1| |].
    + intros Hi [= <-] _. destruct (H1 i a Hi); [by right|by left].
    + intros Hi Hj Hne. apply (H2 i j); [done..|congruence].
  - intros H. split.
    + intros j b Hj. by apply (H 0%nat (S j)).
    + intros i j a b Hi Hj Hne. apply (H (S i) (S j)); [done..|congruence].
Qed.

Lemma entry_spec entry segs :
  existsb (holds_entry entry) segs = true ↔
  ∃ s, s ∈ segs ∧ has (sflags s) PF_X = true ∧ vaddr s ≤ entry < seg_end s.
Proof.
  rewrite existsb_exists. unfold holds_entry, seg_end. split; intros (s & Hs & H); exists s; rewrite <- list_elem_of_In in *.
  - rewrite !andb_true_iff, Z.leb_le, Z.ltb_lt in H. tauto.
  - rewrite !andb_true_iff, Z.leb_le, Z.ltb_lt. tauto.
Qed.

(** ** The parser *)

(** One check: split on it, and close the branch that rejects. *)
Ltac header_check Er test :=
  unfold guard at 1 in Er; test; cbn [negb orb res_bind] in Er;
  try (left; split; [intros []; (tauto || lia)|by eexists]).

(** What is left once the header is accepted. *)
Definition parse_segments (image : list Z) : res ElfError (Z * list Segment) :=
  let? (segments, _) := phdr_loop image (e_phoff image) ([], 0) (seqZ 0 (e_phnum image)) in
  let? _ := guard (bool_decide (segments = [])) NoLoadable in
  let? _ := guard (any_overlap segments) Overlap in
  let? _ := guard (negb (existsb (holds_entry (e_entry image)) segments)) BadEntry in
  Ok (e_entry image, segments).

Lemma parse_header image : bytes_ok image → Z.of_nat (length image) < 2^63 →
  (¬ header_ok image ∧ ∃ e, parse image = Err e) ∨ (header_ok image ∧ parse image = parse_segments image).
Proof.
  intros Hb Hlen. remember (parse image) as r eqn:Er. unfold parse in Er.
  header_check Er ltac:(destruct (Z.ltb_spec (Z.of_nat (length image)) EHDR_SIZE) as [|H64]).
  unfold EHDR_SIZE in H64. rewrite slice_Some in Er by lia.
  change (drop (Z.to_nat 0) image) with image in Er. change (Z.to_nat 4) with 4%nat in Er. cbn [expect res_bind] in Er.
  header_check Er ltac:(case_bool_decide).
  unfold rd16, rd64 in Er. rewrite !rd_ok in Er by lia. cbn [res_bind] in Er.
  fold (e_phoff image) in Er. fold (e_phnum image) in Er. fold (e_entry image) in Er.
  header_check Er ltac:(destruct (Z.eqb_spec (field 1 image 4) 2), (Z.eqb_spec (field 1 image 5) 1)).
  header_check Er ltac:(destruct (Z.eqb_spec (field 2 image 16) ET_EXEC)).
  header_check Er ltac:(destruct (Z.eqb_spec (field 2 image 18) EM_X86_64)).
  header_check Er ltac:(destruct (Z.eqb_spec (field 2 image 54) PHDR_SIZE),
    (Z.eqb_spec (e_phnum image) 0), (Z.ltb_spec MAX_PHDRS (e_phnum image))).
  pose proof (field_range image Hb 2 56 ltac:(lia)) as Hnum. fold (e_phnum image) in Hnum.
  unfold checked_add at 1 in Er.
  destruct (Z.leb_spec (e_phoff image + e_phnum image * PHDR_SIZE) u64_max); cbn [ok_or res_bind] in Er;
    [|left; split; [intros []; unfold u64_max in *; lia|by eexists]].
  header_check Er ltac:(destruct (Z.ltb_spec (Z.of_nat (length image)) (e_phoff image + e_phnum image * PHDR_SIZE))).
  right. split; [|done]. split; (done || unfold EHDR_SIZE; lia).
Qed.

Lemma well_formed_fun image entry segs entry' segs' :
  well_formed image entry segs → well_formed image entry' segs' → entry = entry' ∧ segs = segs'.
Proof. intros [] []. by subst. Qed.

(** Either the image is well formed and accepted, or it is not and is rejected. *)
Lemma parse_decides image : bytes_ok image → Z.of_nat (length image) < 2^63 →
  (∃ entry segs, well_formed image entry segs ∧ parse image = Ok (entry, segs)) ∨
  ((∀ entry segs, ¬ well_formed image entry segs) ∧ ∃ e, parse image = Err e).
Proof.
  intros Hb Hlen. destruct (parse_header image Hb Hlen) as [[Hh [e E]]|[Hh E]].
  { right. split; [|by exists e]. by intros entry segs [Hh']. }
  rewrite E. clear E. unfold parse_segments.
  pose proof (field_range image Hb 2 56 ltac:(lia)) as Hnum. fold (e_phnum image) in Hnum.
  destruct (phdr_loop_spec image Hb Hlen (ho_table _ Hh) (seqZ 0 (e_phnum image)) [] 0)
    as [[(H1 & H2 & H3 & H4) E]|[Hl [e E]]]; [intros i ?%elem_of_seqZ; lia|done|done| |].
  2:{ right. rewrite E. split; [|by eexists]. intros entry segs []. apply Hl. subst segs.
      split; [intros i ?%elem_of_seqZ; apply wf_static0; lia|]. split; [done|]. split; [done|lia]. }
  rewrite E. cbn [res_bind app length Nat.add] in *. set (segs := load_segments image _) in *.
  assert (Hm : Forall (λ s, 0 < memsz s) segs) by (eapply Forall_impl; [exact H2|by intros ? []]).
  pose proof (any_overlap_spec segs Hm) as Ho. pose proof (entry_spec (e_entry image) segs) as He. unfold guard.
  case_bool_decide as Hne; cbn [res_bind]; [right; split; [|by eexists]; intros ? ? []; by subst|].
  destruct (any_overlap segs); cbn [res_bind].
  { right. split; [|by eexists]. intros entry segs' [_ _ Es _ _ _ _ Hd _ _]. fold segs in Es. subst segs'.
    by apply Ho in Hd. }
  destruct (existsb _ segs); cbn [negb res_bind].
  - left. exists (e_entry image), segs. split; [|done]. split; try done.
    + intros i Hi. apply H1, elem_of_seqZ. lia.
    + by apply Ho.
    + by apply He.
  - right. split; [|by eexists]. intros entry segs' [_ _ Es _ _ _ _ _ Ee Hs]. fold segs in Es. subst segs' entry.
    by apply He in Hs.
Qed.

(** C26: The parser accepts an image exactly when it is well formed: on any
    bytes it returns, without a panic or a read outside the image; what it
    accepts is a static x86-64 executable whose loadable segments, in header
    order, lie in the user range and in the file, are disjoint, never both
    writable and executable, and contain the entry point in an executable one;
    everything else is rejected with an error. *)
Theorem parse_exact image :
  bytes_ok image → Z.of_nat (length image) < 2^63 →
  (∀ entry segs, parse image = Ok (entry, segs) ↔ well_formed image entry segs) ∧
  ((∃ e, parse image = Err e) ∨ ∃ entry segs, parse image = Ok (entry, segs)).
Proof.
  intros Hb Hlen. destruct (parse_decides image Hb Hlen) as [(entry & segs & Hw & E)|[Hn [e E]]]; rewrite E.
  - split; [|right; by eexists _, _]. intros entry' segs'. split; [by intros [= <- <-]|].
    intros Hw'. by destruct (well_formed_fun _ _ _ _ _ Hw Hw') as [-> ->].
  - split; [|left; by eexists]. intros entry segs. split; [done|]. intros Hw. by destruct (Hn entry segs).
Qed.
