(* ===== verification/ElfLoad.v ===== *)
(** * Loading

    The pages of an image are filled from the file and zeros, then mapped.
    A failed load gives back every frame it took; a successful one maps
    exactly the pages of the segments, with the bytes of the file. *)
From Stdlib Require Import String.
From stdpp Require Import base numbers list gmap sets sorting.
From Stdlib Require Import ZArith Lia Bool.
From S2P Require Import Prelude Bytes Str Mem Pmm Vmm VmmTables VmmUser VmmSpace Elf ElfParse.
Import Vmm Elf.

(** ** What the loader owns *)

(** The pages hold frames that were free, one each; everything else in memory
    is as it was, and what is free is what was free without them. *)
Record owning (pm0 : Pmm) (m0 : memory) (s : PState) (pm : Pmm) (pages : gmap Z Page) : Prop := {
  ow_pmm : PMM s = Some pm;
  ow_inv : pmm_inv pm;
  ow_total : total_frames pm = total_frames pm0;
  ow_frame : ∀ va p, pages !! va = Some p → ∃ g, phys p = g * PAGE_SIZE ∧ g ∈ free_set pm0;
  ow_inj : ∀ va va' p p', pages !! va = Some p → pages !! va' = Some p' → phys p = phys p' → va = va';
  ow_free : ∀ g, g ∈ free_set pm ↔ g ∈ free_set pm0 ∧ ∀ va p, pages !! va = Some p → phys p ≠ g * PAGE_SIZE;
  ow_mem : ∀ x, (∀ va p, pages !! va = Some p → ¬ (phys p ≤ x < phys p + PAGE_SIZE)) →
    read8 (phys_mem s) x = read8 m0 x;
  ow_count : (size (free_set pm) + size pages = size (free_set pm0))%nat
}.

Lemma owning_start s pm : PMM s = Some pm → pmm_inv pm → owning pm (phys_mem s) s pm ∅.
Proof.
  intros Hs Hi. split; try done. intros g. split; [|by intros []]. intros Hg. by split.
Qed.

(** Changing the permissions of a page. *)
Lemma owning_perm pm0 m0 s pm pages va p w x :
  owning pm0 m0 s pm pages → pages !! va = Some p → owning pm0 m0 s pm (<[va := mkPage (phys p) w x]> pages).
Proof.
  intros [H1 H2 H3 H4 H5 H6 H7 H8] Hp.
  assert (Hl : ∀ va' p', <[va := mkPage (phys p) w x]> pages !! va' = Some p' →
    ∃ q, pages !! va' = Some q ∧ phys q = phys p').
  { intros va' p'. rewrite lookup_insert_Some. intros [[<- <-]|[_ H]]; [by exists p|by exists p']. }
  assert (Hr : ∀ va' q, pages !! va' = Some q → ∃ p', <[va := mkPage (phys p) w x]> pages !! va' = Some p' ∧ phys p' = phys q).
  { intros va' q Hq. destruct (decide (va' = va)) as [->|Hne].
    - rewrite lookup_insert_eq. eexists. split; [done|]. by simplify_eq.
    - exists q. by rewrite lookup_insert_ne. }
  split; try done.
  - intros va' p' H. destruct (Hl va' p' H) as (q & Hq & <-). by eapply H4.
  - intros v1 v2 p1 p2 E1 E2 E. destruct (Hl v1 p1 E1) as (q1 & Hq1 & Q1), (Hl v2 p2 E2) as (q2 & Hq2 & Q2).
    apply (H5 v1 v2 q1 q2); congruence.
  - intros g. rewrite H6. split; intros [Hg Hn]; (split; [done|]); intros va' p' H.
    + destruct (Hl va' p' H) as (q & Hq & <-). by eapply Hn.
    + destruct (Hr va' p' H) as (q & Hq & <-). by eapply Hn.
  - intros y Hy. apply H7. intros va' q Hq. destruct (Hr va' q Hq) as (p' & Hp' & <-). by eapply Hy.
  - by rewrite map_size_insert_Some.
Qed.

(** A new page. *)
Lemma owning_new pm0 m0 s pm pages va f pm' w x :
  owning pm0 m0 s pm pages → pages !! va = None → f ∈ free_set pm → pmm_inv pm' →
  free_set pm' = free_set pm ∖ {[f]} → total_frames pm' = total_frames pm →
  owning pm0 m0 (set_phys_mem (set_PMM s pm') (fill_bytes (phys_mem s) (f * PAGE_SIZE) 0 PAGE_SIZE)) pm'
    (<[va := mkPage (f * PAGE_SIZE) w x]> pages).
Proof.
  intros [H1 H2 H3 H4 H5 H6 H7 H8] Hp Hf Hi Hfree Htot.
  destruct (proj1 (H6 f) Hf) as [Hf0 Hfn].
  assert (Hl : ∀ va' p', <[va := mkPage (f * PAGE_SIZE) w x]> pages !! va' = Some p' →
    (va' = va ∧ phys p' = f * PAGE_SIZE) ∨ (va' ≠ va ∧ pages !! va' = Some p')).
  { intros va' p'. rewrite lookup_insert_Some. intros [[<- <-]|[? H]]; [by left|right; split; [congruence|done]]. }
  split; cbn [PMM set_phys_mem set_PMM phys_mem]; [done|done|by rewrite Htot| | | | |].
  - intros va' p' H. destruct (Hl va' p' H) as [[-> ->]|[_ H']]; [by exists f|by eapply H4].
  - intros v1 v2 p1 p2 E1 E2 E. destruct (Hl v1 p1 E1) as [[-> E1']|[N1 E1']], (Hl v2 p2 E2) as [[-> E2']|[N2 E2']]; try done.
    + exfalso. apply (Hfn v2 p2 E2'). congruence.
    + exfalso. apply (Hfn v1 p1 E1'). congruence.
    + by apply (H5 v1 v2 p1 p2).
  - intros g. rewrite Hfree, elem_of_difference, elem_of_singleton, H6. split.
    + intros [[Hg Hn] Hne]. split; [done|]. intros va' p' H. destruct (Hl va' p' H) as [[_ ->]|[_ H']]; [|by eapply Hn].
      unfold PAGE_SIZE. lia.
    + intros [Hg Hn]. split; [split; [done|]|].
      * intros va' p' H. apply (Hn va'). rewrite lookup_insert_ne; [done|]. intros ->. congruence.
      * intros ->. apply (Hn va (mkPage (f * PAGE_SIZE) w x)); [by rewrite lookup_insert_eq|done].
  - intros y Hy. rewrite read8_fill by done. rewrite decide_False.
    + apply H7. intros va' q Hq. apply (Hy va'). rewrite lookup_insert_ne; [done|]. intros ->. congruence.
    + apply (Hy va (mkPage (f * PAGE_SIZE) w x)). by rewrite lookup_insert_eq.
  - rewrite map_size_insert_None by done. rewrite Hfree, size_difference by set_solver. rewrite size_singleton.
    assert (size (free_set pm) ≠ 0)%nat; [|lia]. intros E%size_empty_inv. set_solver.
Qed.

(** ** What the pages hold *)
Definition span (lo hi va : Z) : bool := (lo <=? va) && (va <? hi).
Definition add_span (f : Z → bool) (b : bool) (lo hi : Z) : Z → bool := λ va, f va || (b && span lo hi va).

(** The pages are those at the addresses of [D], with the permissions of [W]
    and [X], and hold the bytes [c]; where there is no page [c] is zero. *)
Record filled (D W X : Z → bool) (c : Z → Z) (m : memory) (pages : gmap Z Page) : Prop := {
  fi_dom : ∀ va, is_Some (pages !! va) ↔ va mod PAGE_SIZE = 0 ∧ D va = true;
  fi_perm : ∀ va p, pages !! va = Some p → writable p = W va ∧ executable p = X va;
  fi_sub : ∀ va, D va = false → W va = false ∧ X va = false;
  fi_byte : ∀ va p k, pages !! va = Some p → 0 ≤ k < PAGE_SIZE → read8 m (phys p + k) = c (va + k);
  fi_zero : ∀ va k, va mod PAGE_SIZE = 0 → pages !! va = None → 0 ≤ k < PAGE_SIZE → c (va + k) = 0
}.

Lemma filled_ext D W X D' W' X' c m pages :
  (∀ va, D va = D' va) → (∀ va, W va = W' va) → (∀ va, X va = X' va) → filled D W X c m pages → filled D' W' X' c m pages.
Proof.
  intros HD HW HX [H1 H2 H3 H4 H5]. split; try done.
  - intros va. by rewrite <- HD.
  - intros va p. rewrite <- HW, <- HX. apply H2.
  - intros va. rewrite <- HD, <- HW, <- HX. apply H3.
Qed.

Lemma add_span_next f b lo mid hi va : lo ≤ mid ≤ hi → add_span (add_span f b lo mid) b mid hi va = add_span f b lo hi va.
Proof.
  intros H. unfold add_span, span. destruct (f va), b; cbn [orb andb]; try done.
  destruct (Z.leb_spec lo va), (Z.ltb_spec va mid), (Z.leb_spec mid va), (Z.ltb_spec va hi); cbn; done || lia.
Qed.

Lemma add_span_none f b lo va : add_span f b lo lo va = f va.
Proof.
  unfold add_span, span. destruct (f va), b; cbn [orb andb]; try done.
  destruct (Z.leb_spec lo va), (Z.ltb_spec va lo); cbn; done || lia.
Qed.

(** At an aligned address only one page is within a page of it. *)
Lemma add_span_page f b lo va : lo mod PAGE_SIZE = 0 → va mod PAGE_SIZE = 0 →
  add_span f b lo (lo + PAGE_SIZE) va = f va || (b && bool_decide (va = lo)).
Proof.
  intros Hlo Hva. unfold add_span. do 2 f_equal. unfold span, PAGE_SIZE in *.
  case_bool_decide as E; destruct (Z.leb_spec lo va), (Z.ltb_spec va (lo + 4096)); cbn; try done; exfalso;
    revert E; Z.div_mod_to_equations; lia.
Qed.

(** One page, with its permissions. *)
Lemma filled_page D W X c m m' pages lo p w x :
  filled D W X c m pages → lo mod PAGE_SIZE = 0 →
  (∀ va q k, pages !! va = Some q → 0 ≤ k < PAGE_SIZE → read8 m' (phys q + k) = read8 m (phys q + k)) →
  match pages !! lo with
  | Some q => phys p = phys q ∧ writable p = writable q || w ∧ executable p = executable q || x
  | None => (∀ k, 0 ≤ k < PAGE_SIZE → read8 m' (phys p + k) = 0) ∧ writable p = w ∧ executable p = x
  end →
  filled (add_span D true lo (lo + PAGE_SIZE)) (add_span W w lo (lo + PAGE_SIZE)) (add_span X x lo (lo + PAGE_SIZE))
    c m' (<[lo := p]> pages).
Proof.
  intros [H1 H2 H3 H4 H5] Hlo Hm Hp.
  assert (Hnone : pages !! lo = None → D lo = false).
  { intros E. destruct (D lo) eqn:ED; [|done]. destruct (proj2 (H1 lo) (conj Hlo ED)) as [? ?]. congruence. }
  split.
  - intros va. rewrite lookup_insert_is_Some, H1. split.
    + intros [<-|[_ [Hv HD]]]; [|by rewrite add_span_page, HD]. rewrite add_span_page, bool_decide_true by done.
      by rewrite orb_true_r.
    + intros [Hv HD]. rewrite add_span_page in HD by done. case_bool_decide as E; [by left|right].
      rewrite orb_false_r in HD. split; [congruence|done].
  - intros va q Hq. destruct (decide (va = lo)) as [->|Hne].
    + rewrite lookup_insert_eq in Hq. injection Hq as ->. rewrite !add_span_page, !bool_decide_true, !andb_true_r by done.
      destruct (pages !! lo) as [q0|] eqn:E.
      * destruct Hp as (_ & -> & ->). by destruct (H2 lo q0 E) as [-> ->].
      * destruct Hp as (_ & -> & ->). by destruct (H3 lo (Hnone eq_refl)) as [-> ->].
    + rewrite lookup_insert_ne in Hq by done.
      assert (Hva : va mod PAGE_SIZE = 0) by (apply (H1 va); by eexists).
      rewrite !add_span_page, !bool_decide_false, !andb_false_r, !orb_false_r by done. by apply H2.
  - intros va HD. unfold add_span in *. apply orb_false_iff in HD as [HD Hs]. cbn [andb] in Hs. rewrite Hs, !andb_false_r, !orb_false_r.
    by apply H3.
  - intros va q k Hq Hk. destruct (decide (va = lo)) as [->|Hne].
    + rewrite lookup_insert_eq in Hq. injection Hq as ->. destruct (pages !! lo) as [q0|] eqn:E.
      * destruct Hp as (-> & _). rewrite (Hm lo) by done. by apply H4.
      * destruct Hp as (Hz & _). rewrite Hz by done. symmetry. by apply H5.
    + rewrite lookup_insert_ne in Hq by done. rewrite (Hm va) by done. by apply H4.
  - intros va k Hva Hn Hk. apply lookup_insert_None in Hn as [Hn _]. by apply H5.
Qed.

(** ** The loop over the pages of a segment *)
Section Populate.
Context (pm0 : Pmm) (m0 : memory).

(** One round: the page is there, or is allocated, or memory is out. *)
Lemma page_round va (w x : bool) s pm pages D W X c :
  owning pm0 m0 s pm pages → filled D W X c (phys_mem s) pages → va mod PAGE_SIZE = 0 →
  let body : M (PState * gmap Z Page) ElfError unit :=
    let! s := get in
    match snd s !! va with
    | Some page => put (fst s, <[va := mkPage (phys page) (writable page || w) (executable page || x)]> (snd s))
    | None =>
        let! o := on_machine alloc_frame_zeroed in
        match o with
        | None => fail NoMemory
        | Some ph => let! s := get in put (fst s, <[va := mkPage ph w x]> (snd s))
        end
    end in
  (body (s, pages) = (Err NoMemory, (s, pages)) ∧ free_set pm = ∅) ∨
  ∃ s' pm' pages', body (s, pages) = (Ok tt, (s', pages')) ∧ owning pm0 m0 s' pm' pages' ∧
    filled (add_span D true va (va + PAGE_SIZE)) (add_span W w va (va + PAGE_SIZE)) (add_span X x va (va + PAGE_SIZE))
      c (phys_mem s') pages' ∧ (size pages' ≤ size pages + 1)%nat.
Proof.
  intros Ho Hf Hva. cbv zeta. rewrite !(bind_ok get _ (s, pages) (s, pages) (s, pages) eq_refl). cbn [snd fst].
  destruct (pages !! va) as [page|] eqn:E.
  - right. exists s, pm. eexists. split; [reflexivity|]. split; [by apply owning_perm|]. split.
    + apply (filled_page _ _ _ _ (phys_mem s)); [done|done|done|]. by rewrite E.
    + rewrite map_size_insert_Some by done. lia.
  - pose proof Ho as [H1 H2 _ _ _ H6 _ _].
    assert (Eo : ∀ o s', alloc_frame_zeroed s = (Ok o, s') → on_machine alloc_frame_zeroed (s, pages) = (Ok o, (s', pages))).
    { intros o s' Ea. unfold on_machine. cbn [fst snd]. by rewrite Ea. }
    destruct (alloc_frame_zeroed_spec s pm H1 H2) as [[E0 Ea]|(f & pm' & Hff & Ea & Hi & Hfree & Htot)]; apply Eo in Ea.
    + left. split; [|done]. rewrite (bind_ok _ _ _ _ _ Ea). unfold fail, set_PMM. destruct s. cbn in H1. by subst.
    + right. eexists _, pm', _. rewrite (bind_ok _ _ _ _ _ Ea). split; [reflexivity|].
      cbn [fst snd]. split; [by apply (owning_new pm0 m0 s pm)|]. cbn [phys_mem set_phys_mem]. split.
      * apply (filled_page _ _ _ _ (phys_mem s)); [done|done| |rewrite E; split; [|done]].
        -- intros va' q k Hq Hk. rewrite read8_fill by done. rewrite decide_False; [done|].
           destruct (ow_frame _ _ _ _ _ Ho va' q Hq) as (g & Eg & _).
           pose proof (proj2 (proj1 (H6 f) Hff) va' q Hq) as Hne. rewrite Eg in *. unfold PAGE_SIZE in *. lia.
        -- intros k Hk. cbn [phys]. rewrite read8_fill by done. rewrite decide_True by (unfold PAGE_SIZE in *; lia). done.
      * rewrite map_size_insert_None by done. lia.
Qed.

Lemma page_loop_spec last (w x : bool) c : last mod PAGE_SIZE = 0 → last + PAGE_SIZE ≤ u64_max →
  ∀ fuel va s pm pages D W X,
  owning pm0 m0 s pm pages → filled D W X c (phys_mem s) pages → va mod PAGE_SIZE = 0 → 0 ≤ va ≤ last →
  last - va ≤ Z.of_nat fuel * PAGE_SIZE →
  ∃ s' pm' pages', owning pm0 m0 s' pm' pages' ∧
    ((page_loop fuel va last w x (s, pages) = (Ok tt, (s', pages')) ∧
      filled (add_span D true va last) (add_span W w va last) (add_span X x va last) c (phys_mem s') pages' ∧
      Z.of_nat (size pages') ≤ Z.of_nat (size pages) + (last - va) / PAGE_SIZE) ∨
     (page_loop fuel va last w x (s, pages) = (Err NoMemory, (s', pages')) ∧ free_set pm' = ∅ ∧
      Z.of_nat (size pages') < Z.of_nat (size pages) + (last - va) / PAGE_SIZE)).
Proof.
  intros Hl Hu. induction fuel as [|fuel IH]; intros va s pm pages D W X Ho Hf Hva Hr Hfu; cbn [page_loop].
  - assert (va = last) as -> by (unfold PAGE_SIZE in *; lia). rewrite Z.ltb_irrefl. exists s, pm, pages.
    split; [done|]. left. split; [done|]. rewrite Z.sub_diag. split; [|change (0 / PAGE_SIZE) with 0; lia].
    eapply filled_ext; [..|exact Hf]; intros; by rewrite add_span_none.
  - destruct (Z.ltb_spec va last) as [Hlt|Hge].
    2:{ assert (va = last) as -> by lia. exists s, pm, pages. split; [done|]. left. split; [done|].
        rewrite Z.sub_diag. split; [|change (0 / PAGE_SIZE) with 0; lia].
        eapply filled_ext; [..|exact Hf]; intros; by rewrite add_span_none. }
    assert (Hmid : va + PAGE_SIZE ≤ last) by (unfold PAGE_SIZE in *; Z.div_mod_to_equations; lia).
    assert (Hq : (last - va) / PAGE_SIZE = (last - (va + PAGE_SIZE)) / PAGE_SIZE + 1).
    { replace (last - va) with (last - (va + PAGE_SIZE) + 1 * PAGE_SIZE) by lia. by rewrite Z.div_add. }
    assert (Hq0 : 0 ≤ (last - (va + PAGE_SIZE)) / PAGE_SIZE) by (apply Z.div_pos; [lia|done]).
    destruct (page_round va w x s pm pages D W X c Ho Hf Hva) as [[E E0]|(s1 & pm1 & pages1 & E & Ho1 & Hf1 & Hs1)].
    { exists s, pm, pages. split; [done|]. right. unfold bind at 1. rewrite E. split; [done|]. split; [done|lia]. }
    destruct (IH (va + PAGE_SIZE) s1 pm1 pages1 _ _ _ Ho1 Hf1) as (s' & pm' & pages' & Ho' & H).
    { rewrite <- Zplus_mod_idemp_r, Z.mod_same, Z.add_0_r by done. done. }
    { unfold PAGE_SIZE in *. lia. }
    { unfold PAGE_SIZE in *. lia. }
    exists s', pm', pages'. split; [done|]. rewrite (bind_ok _ _ _ _ _ E), add64_ok by lia.
    rewrite (bind_ok (lift (Ok (va + PAGE_SIZE))) _ _ (va + PAGE_SIZE) _ eq_refl).
    destruct H as [(E' & Hf' & Hs')|(E' & E0 & Hs')]; [left|right]; (split; [exact E'|]); (split; [|lia]); [|done].
    eapply filled_ext; [..|exact Hf']; intros; apply add_span_next; unfold PAGE_SIZE in *; lia.
Qed.

(** ** The loop that copies the file *)

(** [c] with the bytes of the file that are at addresses from [lo] to [hi]. *)
Definition over (image : list Z) (seg : Segment) (lo hi : Z) (c : Z → Z) : Z → Z := λ v,
  if decide (lo ≤ v < hi) then image !!! Z.to_nat (offset seg + (v - vaddr seg)) else c v.

Lemma filled_bytes_ext D W X c c' m pages : (∀ v, c v = c' v) → filled D W X c m pages → filled D W X c' m pages.
Proof using.
  intros Hc [H1 H2 H3 H4 H5]. split; try done; intros; rewrite <- Hc; auto.
Qed.

(** Bytes written inside one page. *)
Lemma write_page image seg s pm pages D W X c va p k n bytes :
  owning pm0 m0 s pm pages → filled D W X c (phys_mem s) pages → pages !! va = Some p →
  0 ≤ k → 0 ≤ n → k + n ≤ PAGE_SIZE → Z.of_nat (length bytes) = n →
  (∀ j, 0 ≤ j < n → bytes !!! Z.to_nat j = image !!! Z.to_nat (offset seg + (va + k + j - vaddr seg))) →
  let s' := set_phys_mem s (write_bytes (phys_mem s) (phys p + k) bytes) in
  owning pm0 m0 s' pm pages ∧ filled D W X (over image seg (va + k) (va + k + n) c) (phys_mem s') pages.
Proof using.
  intros [H1 H2 H3 H4 H5 H6 H7 H8] [F1 F2 F3 F4 F5] Hp Hk Hn Hkn Hlen Hbytes. cbv zeta.
  assert (Hal : ∀ va' q, pages !! va' = Some q → va' mod PAGE_SIZE = 0) by (intros ? ? H; apply (F1 va'); by eexists).
  split; split; cbn [phys_mem set_phys_mem]; try done.
  - intros x Hx. rewrite read8_write_bytes, decide_False; [by apply H7|]. specialize (Hx va p Hp). lia.
  - intros va' q j Hq Hj. rewrite read8_write_bytes, Hlen. unfold over. destruct (decide (va' = va)) as [->|Hne].
    + assert (q = p) as -> by congruence. repeat case_decide; try lia; [|by apply F4].
      replace (phys p + j - (phys p + k)) with (j - k) by lia. rewrite Hbytes by lia. do 2 f_equal. lia.
    + destruct (H4 va p Hp) as (g & Eg & _), (H4 va' q Hq) as (g' & Eg' & _).
      assert (g ≠ g') by (intros ->; apply Hne, (H5 va' va q p); congruence).
      pose proof (Hal va p Hp). pose proof (Hal va' q Hq).
      rewrite !decide_False; [by apply F4| |]; rewrite ?Eg, ?Eg'; unfold PAGE_SIZE in *; Z.div_mod_to_equations; lia.
  - intros va' j Hva' Hnone Hj. unfold over. rewrite decide_False; [by apply F5|].
    assert (va' ≠ va) by (intros ->; congruence). pose proof (Hal va p Hp).
    unfold PAGE_SIZE in *. Z.div_mod_to_equations. lia.
Qed.

Lemma over_next image seg lo mid hi c v : lo ≤ mid ≤ hi →
  over image seg mid hi (over image seg lo mid c) v = over image seg lo hi c v.
Proof using. intros H. unfold over. repeat case_decide; try done; lia. Qed.

Lemma page_of v : v / PAGE_SIZE * PAGE_SIZE + v mod PAGE_SIZE = v ∧ 0 ≤ v mod PAGE_SIZE < PAGE_SIZE.
Proof using. pose proof (Z.div_mod v PAGE_SIZE ltac:(done)). pose proof (Z.mod_pos_bound v PAGE_SIZE ltac:(done)). lia. Qed.

Lemma slice_byte image from n bytes j : slice image from n = Some bytes → 0 ≤ j < n →
  bytes !!! Z.to_nat j = image !!! Z.to_nat (from + j).
Proof using.
  intros (? & ? & ? & ->)%slice_inv Hj. rewrite lookup_total_take, lookup_total_drop, Z2Nat.inj_add by lia.
  by rewrite decide_True by lia.
Qed.

Lemma copy_loop_spec image seg pm pages D W X : segment_ok image seg → Z.of_nat (length image) < 2^63 →
  (∀ v, vaddr seg ≤ v < vaddr seg + filesz seg → is_Some (pages !! (v / PAGE_SIZE * PAGE_SIZE))) →
  ∀ fuel copied s c,
  owning pm0 m0 s pm pages → filled D W X c (phys_mem s) pages → 0 ≤ copied ≤ filesz seg →
  filesz seg - copied ≤ Z.of_nat fuel →
  ∃ s', copy_loop fuel image seg copied (s, pages) = (Ok tt, (s', pages)) ∧ owning pm0 m0 s' pm pages ∧
    filled D W X (over image seg (vaddr seg + copied) (vaddr seg + filesz seg) c) (phys_mem s') pages.
Proof using.
  intros Hok Hlen Hcov. induction fuel as [|fuel IH]; intros copied s c Ho Hf Hc Hfu; cbn [copy_loop];
    (destruct (Z.ltb_spec copied (filesz seg)) as [Hlt|Hge];
     [|exists s; split; [done|]; split; [done|]; eapply filled_bytes_ext; [|exact Hf]; intros v; unfold over; by rewrite decide_False by lia]);
    [lia|].
  destruct Hok as [Hmin Hmax Hsz _ Hof Hfile _]. unfold seg_end, LOAD_MIN, LOAD_MAX in *.
  rewrite (bind_ok (lift _) _ (s, pages) (vaddr seg + copied) (s, pages)) by (rewrite add64_ok by (unfold u64_max; lia); done).
  set (v := vaddr seg + copied). destruct (page_of v) as [Hpv Hmv].
  assert (Ed : elf_align_down v = v / PAGE_SIZE * PAGE_SIZE) by (apply (align_down_spec v 12); lia).
  rewrite !Ed. replace (v - v / PAGE_SIZE * PAGE_SIZE) with (v mod PAGE_SIZE) by lia.
  set (n := Z.min (filesz seg - copied) (PAGE_SIZE - v mod PAGE_SIZE)).
  rewrite (bind_ok get _ (s, pages) (s, pages) (s, pages) eq_refl). cbn [fst snd].
  destruct (Hcov v ltac:(lia)) as [p Ep]. rewrite Ep.
  rewrite (bind_ok (lift _) _ (s, pages) (offset seg + copied) (s, pages)) by (rewrite add64_ok by (unfold u64_max; lia); done).
  destruct (slice image (offset seg + copied) n) as [bytes|] eqn:Es.
  2:{ rewrite slice_Some in Es by lia. done. }
  rewrite (bind_ok (lift (expect (Some bytes))) _ (s, pages) bytes (s, pages) eq_refl).
  destruct (write_page image seg s pm pages D W X c (v / PAGE_SIZE * PAGE_SIZE) p (v mod PAGE_SIZE) n bytes) as [Ho' Hf'];
    [done|done|done|lia|lia|lia|by eapply length_slice| |].
  { intros j Hj. rewrite (slice_byte _ _ _ _ _ Es Hj). do 2 f_equal. lia. }
  rewrite Hpv in Hf'.
  destruct (IH (copied + n) _ _ Ho' Hf' ltac:(lia) ltac:(lia)) as (s' & E & Ho2 & Hf2).
  exists s'. split; [exact E|]. split; [done|]. eapply filled_bytes_ext; [|exact Hf2]. intros y.
  replace (vaddr seg + (copied + n)) with (v + n) by lia. apply over_next. lia.
Qed.

(** ** All segments *)

(** The pages of segments, their permissions, and the bytes at an address. *)
Definition touches (va : Z) (s : Segment) : bool := span (first_page s * PAGE_SIZE) (end_page s * PAGE_SIZE) va.
Definition touched (segs : list Segment) (va : Z) : bool := existsb (touches va) segs.
Definition with_flag (flag : Z) (segs : list Segment) (va : Z) : bool :=
  existsb (λ s, has (sflags s) flag && touches va s) segs.
Definition image_byte (image : list Z) (segs : list Segment) : Z → Z :=
  foldl (λ c s, over image s (vaddr s) (vaddr s + filesz s) c) (λ _, 0) segs.

Definition populated (image : list Z) (segs : list Segment) : memory → gmap Z Page → Prop :=
  filled (touched segs) (with_flag PF_W segs) (with_flag PF_X segs) (image_byte image segs).

(** The pages of a segment, as the loader computes them. *)
Lemma segment_bounds image seg : segment_ok image seg →
  0 ≤ first_page seg ∧ first_page seg < end_page seg ∧ end_page seg * PAGE_SIZE + PAGE_SIZE ≤ u64_max ∧
  add64 (E:=ElfError) (vaddr seg) (memsz seg) = Ok (seg_end seg) ∧
  elf_align_down (vaddr seg) = first_page seg * PAGE_SIZE ∧
  elf_align_up (E:=ElfError) (seg_end seg) = Ok (end_page seg * PAGE_SIZE) ∧
  (end_page seg * PAGE_SIZE - first_page seg * PAGE_SIZE) / PAGE_SIZE = end_page seg - first_page seg.
Proof using.
  intros Hok. destruct (segment_pages image seg Hok) as [Hp0 Hp1]. destruct Hok as [Hmin Hmax Hsz Hms Hof _ _].
  pose proof (div_round_up (seg_end seg) PAGE_SIZE ltac:(done)) as Hu.
  unfold seg_pages, LOAD_MIN, LOAD_MAX in *. split; [done|]. split; [lia|].
  split; [unfold u64_max, end_page, PAGE_SIZE in *; lia|].
  split; [apply add64_ok; unfold seg_end, u64_max in *; lia|].
  split; [apply (align_down_spec (vaddr seg) 12); unfold seg_end in *; lia|].
  split; [apply (align_up_spec (seg_end seg) 12); unfold seg_end, u64_max in *; lia|].
  rewrite <- Z.mul_sub_distr_r. by rewrite Z.div_mul.
Qed.

Lemma touches_addr image seg v : segment_ok image seg → vaddr seg ≤ v < seg_end seg →
  touches (v / PAGE_SIZE * PAGE_SIZE) seg = true.
Proof using.
  intros Hok Hv. unfold touches, span, first_page. destruct (page_of v) as [Hpv Hmv].
  pose proof (div_round_up (seg_end seg) PAGE_SIZE ltac:(done)). apply andb_true_iff. rewrite Z.leb_le, Z.ltb_lt.
  split; [|unfold end_page; lia]. apply Z.mul_le_mono_nonneg_r; [done|]. apply Z.div_le_mono; [done|lia].
Qed.

Lemma populate_segment_spec image done seg s pm pages :
  segment_ok image seg → Z.of_nat (length image) < 2^63 →
  owning pm0 m0 s pm pages → populated image done (phys_mem s) pages →
  ∃ s' pm' pages', owning pm0 m0 s' pm' pages' ∧
    ((populate_segment image seg (s, pages) = (Ok tt, (s', pages')) ∧
      populated image (done ++ [seg]) (phys_mem s') pages' ∧
      Z.of_nat (size pages') ≤ Z.of_nat (size pages) + seg_pages seg) ∨
     (populate_segment image seg (s, pages) = (Err NoMemory, (s', pages')) ∧ free_set pm' = ∅ ∧
      Z.of_nat (size pages') < Z.of_nat (size pages) + seg_pages seg)).
Proof using.
  intros Hok Hlen Ho Hf. destruct (segment_bounds image seg Hok) as (Hp1 & Hp0 & Hh & Ee & El & Eh & Hd).
  unfold seg_pages in *. set (lo := first_page seg * PAGE_SIZE) in *. set (hi := end_page seg * PAGE_SIZE) in *.
  unfold populate_segment. cbv zeta. rewrite El.
  rewrite !(bind_ok (lift (add64 _ _)) _ (s, pages) (seg_end seg) (s, pages))
    by (by rewrite Ee).
  rewrite !(bind_ok (lift (elf_align_up _)) _ (s, pages) hi (s, pages)) by (by rewrite Eh).
  destruct (page_loop_spec hi (has (sflags seg) PF_W) (has (sflags seg) PF_X) (image_byte image done))
    with (fuel := page_rounds lo hi) (va := lo) (s := s) (pm := pm) (pages := pages)
         (D := touched done) (W := with_flag PF_W done) (X := with_flag PF_X done)
    as (s1 & pm1 & pages1 & Ho1 & H1); try done.
  { unfold hi. by rewrite Z.mod_mul. }
  { unfold lo. by rewrite Z.mod_mul. }
  { unfold lo, hi, PAGE_SIZE in *. lia. }
  { unfold page_rounds. rewrite Hd. unfold hi, lo, PAGE_SIZE in *. lia. }
  rewrite Hd in H1. destruct H1 as [(E1 & Hf1 & Hs1)|(E1 & E0 & Hs1)].
  2:{ exists s1, pm1, pages1. split; [done|]. right. unfold bind at 1. rewrite E1. done. }
  assert (Hcov : ∀ v, vaddr seg ≤ v < vaddr seg + filesz seg → is_Some (pages1 !! (v / PAGE_SIZE * PAGE_SIZE))).
  { intros v Hv. apply (fi_dom _ _ _ _ _ _ Hf1). split; [by rewrite Z.mod_mul|].
    pose proof (so_size _ _ Hok). pose proof (touches_addr image seg v Hok ltac:(unfold seg_end; lia)) as Ht.
    unfold touches in Ht. fold lo hi in Ht. unfold add_span. by rewrite Ht, orb_true_r. }
  pose proof (so_size _ _ Hok) as Hsz.
  destruct (copy_loop_spec image seg pm1 pages1 _ _ _ Hok Hlen Hcov
    (Z.to_nat (filesz seg)) 0 s1 _ Ho1 Hf1 ltac:(lia) ltac:(lia)) as (s2 & E2 & Ho2 & Hf2).
  exists s2, pm1, pages1. split; [done|]. left. rewrite (bind_ok _ _ _ _ _ E1). split; [exact E2|]. split; [|done].
  unfold populated. eapply filled_ext; [| | |eapply filled_bytes_ext; [|exact Hf2]].
  - intros va. unfold touched, add_span. rewrite existsb_app. cbn [existsb]. by rewrite orb_false_r.
  - intros va. unfold with_flag, add_span. rewrite existsb_app. cbn [existsb]. by rewrite orb_false_r.
  - intros va. unfold with_flag, add_span. rewrite existsb_app. cbn [existsb]. by rewrite orb_false_r.
  - intros v. unfold image_byte. rewrite foldl_app. cbn [foldl]. by rewrite Z.add_0_r.
Qed.

Lemma populate_loop_spec image segs : Z.of_nat (length image) < 2^63 → Forall (segment_ok image) segs → ∀ done s pm pages,
  owning pm0 m0 s pm pages → populated image done (phys_mem s) pages →
  ∃ s' pm' pages', owning pm0 m0 s' pm' pages' ∧
    ((mfor segs (populate_segment image) (s, pages) = (Ok tt, (s', pages')) ∧
      populated image (done ++ segs) (phys_mem s') pages' ∧
      Z.of_nat (size pages') ≤ Z.of_nat (size pages) + total_seg_pages segs) ∨
     (mfor segs (populate_segment image) (s, pages) = (Err NoMemory, (s', pages')) ∧ free_set pm' = ∅ ∧
      Z.of_nat (size pages') < Z.of_nat (size pages) + total_seg_pages segs)).
Proof using.
  intros Hlen. induction 1 as [|seg segs Hok Hall IH]; intros done s pm pages Ho Hf.
  { exists s, pm, pages. split; [done|]. left. rewrite app_nil_r. split; [done|]. split; [done|]. simpl. lia. }
  cbn [mfor total_seg_pages foldr]. fold (total_seg_pages segs). pose proof (total_nonneg image segs Hall) as Htn.
  destruct (populate_segment_spec image done seg s pm pages Hok Hlen Ho Hf)
    as (s1 & pm1 & pages1 & Ho1 & [(E1 & Hf1 & Hs1)|(E1 & E0 & Hs1)]).
  - destruct (IH _ _ _ _ Ho1 Hf1) as (s2 & pm2 & pages2 & Ho2 & H2). exists s2, pm2, pages2. split; [done|].
    rewrite (bind_ok _ _ _ _ _ E1), <- app_assoc in *.
    destruct H2 as [(E2 & Hf2 & Hs2)|(E2 & E0 & Hs2)]; [left|right]; (split; [done|]); (split; [done|lia]).
  - exists s1, pm1, pages1. split; [done|]. right. unfold bind. rewrite E1. split; [done|]. split; [done|lia].
Qed.
End Populate.

(** ** The whole image *)
Lemma items_perm pages : items pages ≡ₚ map_to_list pages.
Proof. apply merge_sort_Permutation. Qed.

Lemma elem_of_items pages va p : (va, p) ∈ items pages ↔ pages !! va = Some p.
Proof. rewrite items_perm. apply elem_of_map_to_list. Qed.

Lemma length_items pages : length (items pages) = size pages.
Proof. by rewrite items_perm, length_map_to_list. Qed.

Lemma NoDup_items pages : NoDup (List.map fst (items pages)).
Proof.
  change (NoDup (fst <$> items pages)). rewrite items_perm. apply NoDup_fst_map_to_list.
Qed.

(** A page of a writable and of an executable segment. *)
Definition wx_clash (segs : list Segment) : Prop := ∃ a b n, a ∈ segs ∧ b ∈ segs ∧
  has (sflags a) PF_W = true ∧ has (sflags b) PF_X = true ∧
  first_page a ≤ n < end_page a ∧ first_page b ≤ n < end_page b.

Lemma with_flag_spec flag segs n :
  with_flag flag segs (n * PAGE_SIZE) = true ↔
  ∃ s, s ∈ segs ∧ has (sflags s) flag = true ∧ first_page s ≤ n < end_page s.
Proof.
  unfold with_flag. rewrite existsb_exists. unfold touches, span. split; intros (s & Hs & H); exists s; rewrite <- list_elem_of_In in *.
  - rewrite !andb_true_iff, Z.leb_le, Z.ltb_lt in H. unfold PAGE_SIZE in *. split; [done|]. split; [tauto|lia].
  - rewrite !andb_true_iff, Z.leb_le, Z.ltb_lt. unfold PAGE_SIZE in *. split; [done|]. split; [tauto|lia].
Qed.

Lemma clash_spec image segs m pages :
  populated image segs m pages →
  existsb (λ p, writable (snd p) && executable (snd p)) (items pages) = true ↔ wx_clash segs.
Proof.
  intros Hf. rewrite existsb_exists. split.
  - intros ([va p] & Hin & H). apply list_elem_of_In, elem_of_items in Hin. cbn [snd] in H.
    destruct (proj1 (fi_dom _ _ _ _ _ _ Hf va)) as [Hva _]; [by eexists|].
    destruct (fi_perm _ _ _ _ _ _ Hf va p Hin) as [Ew Ex]. rewrite Ew, Ex in H. apply andb_true_iff in H as [Hw Hx].
    assert (Ev : va = va / PAGE_SIZE * PAGE_SIZE) by (unfold PAGE_SIZE in *; Z.div_mod_to_equations; lia).
    rewrite Ev in Hw, Hx. apply with_flag_spec in Hw as (a & ? & ? & ?), Hx as (b & ? & ? & ?).
    by exists a, b, (va / PAGE_SIZE).
  - intros (a & b & n & Ha & Hb & Fa & Fb & Na & Nb).
    assert (Hw : with_flag PF_W segs (n * PAGE_SIZE) = true) by (apply with_flag_spec; by exists a).
    assert (Hx : with_flag PF_X segs (n * PAGE_SIZE) = true) by (apply with_flag_spec; by exists b).
    assert (Ht : touched segs (n * PAGE_SIZE) = true).
    { destruct (touched segs (n * PAGE_SIZE)) eqn:E; [done|]. destruct (fi_sub _ _ _ _ _ _ Hf _ E). congruence. }
    destruct (proj2 (fi_dom _ _ _ _ _ _ Hf (n * PAGE_SIZE))) as [p Hp]; [by rewrite Z.mod_mul|].
    exists (n * PAGE_SIZE, p). split; [by apply list_elem_of_In, elem_of_items|]. cbn [snd].
    destruct (fi_perm _ _ _ _ _ _ Hf _ p Hp) as [-> ->]. by rewrite Hw, Hx.
Qed.

Lemma populate_spec image segs s pm :
  PMM s = Some pm → pmm_inv pm → Z.of_nat (length image) < 2^63 → Forall (segment_ok image) segs →
  ∃ s' pm' pages, owning pm (phys_mem s) s' pm' pages ∧
    ((populate image segs (s, ∅) = (Ok tt, (s', pages)) ∧ populated image segs (phys_mem s') pages ∧ ¬ wx_clash segs ∧
      Z.of_nat (size pages) ≤ total_seg_pages segs) ∨
     (populate image segs (s, ∅) = (Err WritableExecutable, (s', pages)) ∧ wx_clash segs) ∨
     (populate image segs (s, ∅) = (Err NoMemory, (s', pages)) ∧ Z.of_nat (size (free_set pm)) < total_seg_pages segs)).
Proof.
  intros Hs Hi Hlen Hall.
  destruct (populate_loop_spec pm (phys_mem s) image segs Hlen Hall [] s pm ∅) as (s' & pm' & pages & Ho & H).
  { by apply owning_start. }
  { split; try done. intros va. rewrite lookup_empty. split; [by intros [? ?]|by intros [_ ?]]. }
  exists s', pm', pages. split; [done|]. rewrite map_size_empty in H. unfold populate.
  destruct H as [(E & Hf & Hsz)|(E & E0 & Hsz)].
  - rewrite (bind_ok _ _ _ _ _ E). rewrite !(bind_ok get _ (s', pages) (s', pages) (s', pages) eq_refl). cbn [snd].
    pose proof (clash_spec image segs _ pages Hf) as Hc. destruct (existsb _ (items pages)).
    + right. left. split; [done|]. by apply Hc.
    + left. split; [done|]. split; [done|]. split; [|lia]. intros H%Hc. done.
  - right. right. unfold bind at 1. rewrite E. split; [done|]. pose proof (ow_count _ _ _ _ _ Ho) as Hc.
    rewrite E0, size_empty in Hc. lia.
Qed.

(** ** Giving the pages back *)
Lemma page_frames pm0 m0 s pm pages : owning pm0 m0 s pm pages → ∃ fs, NoDup fs ∧
  List.map (λ f, f * PAGE_SIZE) fs = List.map (λ p, phys (snd p)) (items pages) ∧
  ∀ g, g ∈ fs ↔ g ∈ free_set pm0 ∧ g ∉ free_set pm.
Proof.
  intros Ho. exists (List.map (λ p, phys (snd p) / PAGE_SIZE) (items pages)).
  assert (Hg : ∀ va p, (va, p) ∈ items pages → phys p = phys p / PAGE_SIZE * PAGE_SIZE).
  { intros va p Hp%elem_of_items. destruct (ow_frame _ _ _ _ _ Ho va p Hp) as (g & -> & _). by rewrite Z.div_mul. }
  split; [|split].
  - change (NoDup ((λ p, phys (snd p) / PAGE_SIZE) <$> items pages)). apply NoDup_fmap_2_strong.
    + intros [va p] [va' p'] Hp Hp' E. cbn [snd] in E. pose proof (Hg va p Hp). pose proof (Hg va' p' Hp').
      apply elem_of_items in Hp, Hp'. assert (va = va') as -> by (apply (ow_inj _ _ _ _ _ Ho va va' p p'); congruence).
      congruence.
    + pose proof (NoDup_items pages) as H. by apply (NoDup_fmap_1 fst) in H.
  - rewrite List.map_map. apply List.map_ext_in. intros [va p] Hp%list_elem_of_In. symmetry. by apply (Hg va).
  - intros g. rewrite (ow_free _ _ _ _ _ Ho). rewrite list_elem_of_In, List.in_map_iff. split.
    + intros ([va p] & <- & Hp%list_elem_of_In). pose proof (Hg va p Hp) as E. apply elem_of_items in Hp. cbn [snd].
      destruct (ow_frame _ _ _ _ _ Ho va p Hp) as (g & Eg & Hfr). rewrite Eg, Z.div_mul by done.
      split; [done|]. intros [_ H]. by apply (H va p).
    + intros [Hg0 Hn]. destruct (decide (Exists (λ q, phys (snd q) = g * PAGE_SIZE) (items pages))) as [He|He].
      * apply Exists_exists in He as ([va p] & Hp & E). exists (va, p). split; [|by apply list_elem_of_In].
        cbn [snd] in *. by rewrite E, Z.div_mul.
      * exfalso. apply Hn. split; [done|]. intros va p Hp E. apply He, Exists_exists. exists (va, p).
        split; [by apply elem_of_items|done].
Qed.

Lemma mfor_map {S E A B} (h : A → B) (l : list A) (f : B → M S E unit) s :
  mfor (List.map h l) f s = mfor l (λ a, f (h a)) s.
Proof.
  revert s. induction l as [|a l IH]; intros s; [done|]. cbn [List.map mfor]. unfold bind.
  destruct (f (h a) s) as [[] s1]; [apply IH|done..].
Qed.

Lemma free_pages_spec pm0 m0 s pm pages : owning pm0 m0 s pm pages →
  ∃ s' pm', free_pages pages s = (Ok tt, s') ∧ PMM s' = Some pm' ∧ pmm_inv pm' ∧ phys_mem s' = phys_mem s ∧
    free_set pm' = free_set pm0 ∧ total_frames pm' = total_frames pm0.
Proof.
  intros Ho. destruct (page_frames _ _ _ _ _ Ho) as (fs & Hnd & Emap & Hfs). pose proof Ho as [H1 H2 H3 _ _ H6 _ _].
  destruct (frees_spec fs s pm H1 H2 Hnd) as (s' & pm' & E & Hs' & Hi' & Hm & Hfree & Ht).
  { intros f [Hf Hn]%Hfs. rewrite H3. split; [by apply free_set_range|done]. }
  exists s', pm'. rewrite Emap, mfor_map in E. split; [exact E|]. split; [done|]. split; [done|]. split; [done|].
  split; [|congruence]. rewrite Hfree. apply set_eq. intros g. rewrite elem_of_union, elem_of_list_to_set, Hfs.
  split; [intros [Hg%H6|[Hg _]]; tauto|]. intros Hg. destruct (decide (g ∈ free_set pm)); tauto.
Qed.

(** The tables are not among the pages: they read as before. *)
Section Tables.
Context (pm0 : Pmm) (m0 : memory) (root : Z) (s : PState) (pm : Pmm) (pages : gmap Z Page).
Context (Ht : tree m0 pm0 root) (Ho : owning pm0 m0 s pm pages).

Lemma owned_free g : g ∉ free_set pm0 → g ∉ free_set pm.
Proof using Ho. intros Hg [H _]%(ow_free _ _ _ _ _ Ho). done. Qed.

Lemma tree_start : tree m0 pm root.
Proof using Ht Ho.
  destruct Ht as [H1 H2 H3 H4]. split; try done. intros q a Hq Ha. destruct (H1 q a Hq Ha) as (f & ? & ? & ?).
  exists f. rewrite (ow_total _ _ _ _ _ Ho). split; [done|]. split; [done|]. by apply owned_free.
Qed.

(** A page is private to the process that will own it. *)
Lemma page_private va p k : pages !! va = Some p → 0 ≤ k < PAGE_SIZE → private m0 pm root (phys p + k).
Proof using Ht Ho.
  intros Hp Hk. destruct (ow_frame _ _ _ _ _ Ho va p Hp) as (g & Eg & Hg). exists g.
  split; [rewrite Eg; unfold PAGE_SIZE in *; lia|]. split.
  - intros [_ H]%(ow_free _ _ _ _ _ Ho). by apply (H va p).
  - intros q Hq E. by apply (fresh_frame _ _ _ g q _ Ht Hg Hq E).
Qed.

Lemma tables_same x : ¬ private m0 pm root x → read8 (phys_mem s) x = read8 m0 x.
Proof using Ht Ho.
  intros Hx. apply (ow_mem _ _ _ _ _ Ho). intros va p Hp Hin. apply Hx.
  replace x with (phys p + (x - phys p)) by lia. apply (page_private va); [done|lia].
Qed.

Lemma tree_owned : tree (phys_mem s) pm root.
Proof using Ht Ho. apply (tree_private m0 _ pm root tree_start tables_same). Qed.

Lemma look_owned v : look (phys_mem s) root v = look m0 root v.
Proof using Ht Ho. apply (look_private m0 _ pm root tree_start tables_same). Qed.

Lemma tbl_owned q : path_ok q → tbl (phys_mem s) root q = tbl m0 root q.
Proof using Ht Ho. apply (tbl_private m0 _ pm root tree_start tables_same). Qed.

Lemma user_half_owned : user_half m0 pm0 root → user_half (phys_mem s) pm root.
Proof using Ht Ho.
  intros [H1 H2]. split.
  - intros v lvl e Hv. rewrite look_owned, (ow_total _ _ _ _ _ Ho). intros E.
    destruct (H1 v lvl e Hv E) as (El & g & Eg & Hg & Hn & Hq). split; [done|]. exists g. split; [done|]. split; [done|].
    split; [by apply owned_free|]. intros q Hqo. rewrite tbl_owned by done. by apply Hq.
  - intros v w e e'. rewrite !look_owned. apply H2.
Qed.
End Tables.

(** A load that fails gives back every frame it took and maps nothing: the
    free frames are those it found, every byte of a frame in use is as before,
    and so is every translation; it fails only on an image the parser rejects,
    for want of memory, or on a page that would be writable and executable. *)
Theorem load_error_leaks_nothing image root s pm e s' :
  vm_inv s pm root → bytes_ok image → Z.of_nat (length image) < 2^63 →
  load image root s = (Err e, s') →
  (parse image = Err e ∨ e = NoMemory ∨ e = WritableExecutable) ∧
  ∃ pm', PMM s' = Some pm' ∧ pmm_inv pm' ∧ free_set pm' = free_set pm ∧ total_frames pm' = total_frames pm ∧
    (∀ x, x / PAGE_SIZE ∉ free_set pm → read8 (phys_mem s') x = read8 (phys_mem s) x) ∧
    ∀ v, walk (phys_mem s') root v = walk (phys_mem s) root v.
Proof.
  intros [Hs Hi _ Ht] Hb Hlen. unfold load. destruct (parse_decides image Hb Hlen) as [(entry & segs & Hw & E)|[_ [e' E]]]; rewrite E.
  2:{ intros [= <- <-]. split; [by left|]. exists pm. done. }
  destruct (populate_spec image segs s pm Hs Hi Hlen (wf_ok _ _ _ Hw)) as (s1 & pm1 & pages & Ho & H).
  destruct (free_pages_spec _ _ _ _ _ Ho) as (s2 & pm2 & E2 & Hs2 & Hi2 & Hm2 & Hf2 & Ht2).
  assert (Hkeep : ∃ pm', PMM s2 = Some pm' ∧ pmm_inv pm' ∧ free_set pm' = free_set pm ∧ total_frames pm' = total_frames pm ∧
    (∀ x, x / PAGE_SIZE ∉ free_set pm → read8 (phys_mem s2) x = read8 (phys_mem s) x) ∧
    ∀ v, walk (phys_mem s2) root v = walk (phys_mem s) root v).
  { exists pm2. split_and!; try done.
    - intros x Hx. rewrite Hm2. apply (ow_mem _ _ _ _ _ Ho). intros va p Hp Hin.
      destruct (ow_frame _ _ _ _ _ Ho va p Hp) as (g & Eg & Hg). apply Hx.
      replace (x / PAGE_SIZE) with g; [done|]. rewrite Eg in Hin. unfold PAGE_SIZE in *. Z.div_mod_to_equations. lia.
    - intros v. rewrite Hm2, (walk_look _ _ _ (tree_owned _ _ _ _ _ _ Ht Ho)), (walk_look _ _ _ Ht).
      by rewrite (look_owned _ _ _ _ _ _ Ht Ho). }
  destruct H as [(E1 & _)|[(E1 & _)|(E1 & _)]]; rewrite E1.
  - destruct (mfor _ _ s1) as [[[]|[]| |] ?]; intros [=].
  - rewrite E2. intros [= <- <-]. split; [by right; right|done].
  - rewrite E2. intros [= <- <-]. split; [by right; left|done].
Qed.

(** ** Mapping the pages *)
Lemma page_flags_ok p : page_flags p ∈ user_flags.
Proof. unfold page_flags, user_flags. destruct (writable p), (executable p); set_solver. Qed.

(** A page that is ready to be mapped: nothing is there, and its frame is in
    use, no table and mapped nowhere. *)
Record ready (m : memory) (pm : Pmm) (root va : Z) (p : Page) : Prop := {
  rd_va : 0 ≤ va < USER_SPACE_END ∧ va mod PAGE_SIZE = 0;
  rd_none : look m root va = None;
  rd_frame : ∃ g, phys p = g * PAGE_SIZE ∧ 0 ≤ g < total_frames pm ∧ g ∉ free_set pm;
  rd_table : ∀ q, path_ok q → tbl m root q ≠ Some (phys p);
  rd_unused : ∀ v e, 0 ≤ v < USER_SPACE_END → look m root v = Some (3, e) → Z.land e ADDR_MASK ≠ phys p
}.

Lemma same_page_aligned va va' : 0 ≤ va < USER_SPACE_END → va mod PAGE_SIZE = 0 →
  0 ≤ va' < USER_SPACE_END → va' mod PAGE_SIZE = 0 → same_page va va' → va = va'.
Proof.
  intros H1 H2 H3 H4 Hs. apply same_page_user in Hs; unfold USER_SPACE_END, PAGE_SIZE in *; [|lia..].
  Z.div_mod_to_equations. lia.
Qed.

Section MapItems.
Context (root : Z).
Notation map_item := (λ p, map root (fst p) (phys (snd p)) (page_flags (snd p))).

Lemma map_one s pm va p :
  vm_inv s pm root → user_half (phys_mem s) pm root → ready (phys_mem s) pm root va p →
  ((size (free_set pm) < 3)%nat ∧ fst (map_item (va, p) s) = Panic) ∨
  ∃ s' pm', map_item (va, p) s = (Ok tt, s') ∧ mapped root s pm s' pm' va (leaf_entry (phys p) (page_flags p)) ∧
    user_half (phys_mem s') pm' root ∧ Z.land (leaf_entry (phys p) (page_flags p)) ADDR_MASK = phys p.
Proof using.
  intros Hinv Hh [[Hv Hal] Hn (g & Eg & Hg & Hgf) Ht Hu]. pose proof (vi_top _ _ _ Hinv) as Htop.
  pose proof (page_flags_ok p) as Hf. destruct (user_flags_facts _ Hf) as (Hr & Ha & _).
  cbn [fst snd]. rewrite Eg in *. rewrite map_run by (done || by rewrite (walk_look _ _ _ (vi_tree _ _ _ Hinv)), Hn).
  destruct (map4k_spec root s pm va (g * PAGE_SIZE) (page_flags p) Hinv Hn Hr) as [?|(s' & pm' & E & Hm)]; [by left|right].
  exists s', pm'. split; [exact E|split; [done|split]].
  - apply (map_keeps_half root s pm s' pm' va g (page_flags p)); (done || lia).
  - apply leaf_addr; [lia|lia|done].
Qed.

Lemma ready_next s pm s' pm' va p va' p' :
  mapped root s pm s' pm' va (leaf_entry (phys p) (page_flags p)) →
  Z.land (leaf_entry (phys p) (page_flags p)) ADDR_MASK = phys p → 0 ≤ va < USER_SPACE_END → va mod PAGE_SIZE = 0 →
  va' ≠ va → phys p' ≠ phys p → ready (phys_mem s) pm root va' p' → ready (phys_mem s') pm' root va' p'.
Proof using.
  intros [_ Hfree Htot Hnew Hl _ _ _ _] Ea Hv Hal Hne Hp [[Hv' Hal'] Hn (g & Eg & Hg & Hgf) Ht Hu]. split.
  - done.
  - rewrite Hl, decide_False; [done|]. intros Hs. by apply Hne, same_page_aligned.
  - exists g. rewrite Htot. split; [done|]. split; [done|]. intros Hx. by apply Hgf, Hfree.
  - intros q Hq E. destruct (Hnew q _ Hq E) as [E'|(x & Ex & Hx & _)]; [by apply (Ht q)|].
    apply Hgf. by replace g with x by (unfold PAGE_SIZE in *; lia).
  - intros v e Hvv. rewrite Hl. case_decide; [|by apply Hu]. unfold present. destruct (has _ PRESENT); [|done].
    intros [= <-]. congruence.
Qed.

Lemma private_mapped s pm s' pm' va value x :
  mapped root s pm s' pm' va value → private (phys_mem s) pm root x → private (phys_mem s') pm' root x.
Proof using.
  intros [_ Hfree _ Hnew _ _ _ _ _] (g & Hx & Hg & Hq). exists g. split; [done|]. split; [intros H; by apply Hg, Hfree|].
  intros q Hqo E. destruct (Hnew q _ Hqo E) as [E'|(g' & Eg & Hg' & _)]; [by apply (Hq q)|].
  apply Hg. by replace g with g' by (unfold PAGE_SIZE in *; lia).
Qed.

Lemma map_items_spec l : ∀ s pm,
  vm_inv s pm root → user_half (phys_mem s) pm root → NoDup (List.map fst l) →
  (∀ va p, (va, p) ∈ l → ready (phys_mem s) pm root va p) →
  (∀ va p va' p', (va, p) ∈ l → (va', p') ∈ l → phys p = phys p' → va = va') →
  (3 * length l ≤ size (free_set pm))%nat →
  ∃ s' pm', mfor l map_item s = (Ok tt, s') ∧ vm_inv s' pm' root ∧ user_half (phys_mem s') pm' root ∧
    (∀ v va p, (va, p) ∈ l → same_page v va → look (phys_mem s') root v = Some (3, leaf_entry (phys p) (page_flags p))) ∧
    (∀ v, (∀ va p, (va, p) ∈ l → ¬ same_page v va) → look (phys_mem s') root v = look (phys_mem s) root v) ∧
    (∀ x, private (phys_mem s) pm root x → read8 (phys_mem s') x = read8 (phys_mem s) x).
Proof using.
  induction l as [|[va p] l IH]; intros s pm Hinv Hh Hnd Hr Hinj Hsz.
  { exists s, pm. split_and!; try done. intros v va p H. by apply not_elem_of_nil in H. }
  cbn [List.map length] in *. apply NoDup_cons in Hnd as [Hni Hnd].
  assert (Hin : ∀ va' p', (va', p') ∈ l → va' ≠ va ∧ phys p' ≠ phys p).
  { intros va' p' H. assert (va' ≠ va).
    - intros ->. apply Hni. apply list_elem_of_In, List.in_map_iff. exists (va, p'). by rewrite <- list_elem_of_In.
    - split; [done|]. intros E. apply H0. eapply Hinj; [by right|by left|done]. }
  pose proof (Hr va p ltac:(left)) as Hready. pose proof Hready as [[Hv Hal] _ _ _ _].
  destruct (map_one s pm va p Hinv Hh Hready) as [[? _]|(s1 & pm1 & E1 & Hm1 & Hh1 & Ea)]; [lia|].
  pose proof Hm1 as [Hi1 _ _ _ Hl1 Hmem1 Hs1 _ _].
  destruct (IH s1 pm1 Hi1 Hh1 Hnd) as (s' & pm' & E & Hi' & Hh' & Hin' & Hout' & Hmem').
  { intros va' p' H. destruct (Hin va' p' H). apply (ready_next s pm s1 pm1 va p); try done. apply Hr. by right. }
  { intros va1 p1 va2 p2 H1 H2. apply Hinj; by right. }
  { lia. }
  exists s', pm'. cbn [mfor]. rewrite (bind_ok _ _ _ _ _ E1). split; [exact E|]. split; [done|]. split; [done|]. split; [|split].
  - intros v va' p' [H|H]%elem_of_cons Hs; [|by eapply Hin']. injection H as -> ->.
    rewrite Hout', Hl1, decide_True; [|done|].
    2:{ intros va1 p1 H1 Hs'. destruct (Hin va1 p1 H1) as [Hne _]. apply Hne.
        destruct (rd_va _ _ _ _ _ (Hr va1 p1 ltac:(by right))) as [Hv1 Hal1]. apply same_page_aligned; try done.
        destruct Hs' as (A & B & C & D), Hs as (A' & B' & C' & D'). repeat split; congruence. }
    unfold present, leaf_entry. change PRESENT with (Z.shiftl 1 0). rewrite has_pow2, Z.lor_spec by lia. by rewrite orb_true_r.
  - intros v Hv'. rewrite Hout', Hl1, decide_False; [done| |].
    + apply (Hv' va p). left.
    + intros va1 p1 H1. apply (Hv' va1 p1). by right.
  - intros x Hx. rewrite Hmem'; [by apply Hmem1|]. by apply (private_mapped s pm _ _ va (leaf_entry (phys p) (page_flags p))).
Qed.
End MapItems.

(** ** The loaded image *)

(** The bytes of a segment are those of the file, then zeros. *)
Lemma image_byte_outside image v segs : ∀ c, (∀ s, s ∈ segs → ¬ (vaddr s ≤ v < vaddr s + filesz s)) →
  foldl (λ c s, over image s (vaddr s) (vaddr s + filesz s) c) c segs v = c v.
Proof.
  induction segs as [|s segs IH]; intros c H; [done|]. cbn [foldl]. rewrite IH by (intros; apply H; by right).
  unfold over. rewrite decide_False; [done|]. apply H. left.
Qed.

Lemma image_byte_segment image segs seg k :
  Forall (segment_ok image) segs →
  (∀ i j a b, segs !! i = Some a → segs !! j = Some b → i ≠ j → disjoint a b) → seg ∈ segs → 0 ≤ k < memsz seg →
  image_byte image segs (vaddr seg + k) = if decide (k < filesz seg) then image !!! Z.to_nat (offset seg + k) else 0.
Proof.
  intros Hok Hd Hin Hk. apply list_elem_of_split in Hin as (l1 & l2 & ->).
  assert (Hout : ∀ s, s ∈ l1 ∨ s ∈ l2 → ¬ (vaddr s ≤ vaddr seg + k < vaddr s + filesz s)).
  { intros s Hs Hv. rewrite Forall_forall in Hok.
    assert (Hsok : segment_ok image s) by (apply Hok; set_solver). destruct Hsok as [_ _ Hf _ _ _ _].
    assert (Hdis : disjoint s seg).
    { destruct Hs as [[i Hi]%list_elem_of_lookup|[i Hi]%list_elem_of_lookup].
      - pose proof (lookup_lt_Some _ _ _ Hi). apply (Hd i (length l1)); [by rewrite lookup_app_l|by apply list_lookup_middle|lia].
      - apply (Hd (length l1 + S i)%nat (length l1)); [|by apply list_lookup_middle|lia].
        rewrite lookup_app_r by lia. by replace (length l1 + S i - length l1)%nat with (S i) by lia. }
    unfold disjoint, seg_end in Hdis. lia. }
  unfold image_byte. rewrite foldl_app. cbn [foldl]. rewrite image_byte_outside by (intros; apply Hout; by right).
  unfold over at 1. replace (vaddr seg + k - vaddr seg) with k by lia.
  rewrite image_byte_outside by (intros; apply Hout; by left). repeat case_decide; done || lia.
Qed.

Lemma leaf_nx g flags : 0 ≤ g < 2^40 → flags ∈ user_flags →
  has (leaf_entry (g * PAGE_SIZE) flags) NO_EXECUTE = has flags NO_EXECUTE.
Proof.
  intros Hg Hf. change NO_EXECUTE with (Z.shiftl 1 63). rewrite !has_pow2 by lia. unfold leaf_entry.
  rewrite !Z.lor_spec, Z.land_spec, addr_mask_bit by lia. by rewrite andb_false_r, orb_false_r.
Qed.

(** What the page of an address shows once the image is loaded. *)
Record loaded (image : list Z) (segs : list Segment) (m : memory) (root v : Z) : Prop := {
  ld_read : ∃ p, walk_user m root v = Some p ∧ read8 m p = image_byte image segs v ∧
    walk_user_write m root v = if with_flag PF_W segs (v / PAGE_SIZE * PAGE_SIZE) then Some p else None;
  ld_exec : ∃ e, look m root v = Some (3, e) ∧
    has e NO_EXECUTE = negb (with_flag PF_X segs (v / PAGE_SIZE * PAGE_SIZE))
}.

Section Load.
Context (image : list Z) (root : Z) (s0 : PState) (pm0 : Pmm) (entry : Z) (segs : list Segment).
Context (Hinv : vm_inv s0 pm0 root) (Hh : user_half (phys_mem s0) pm0 root) (Hw : well_formed image entry segs).
Context (Hfree : ∀ v, LOAD_MIN ≤ v < LOAD_MAX → walk (phys_mem s0) root v = None).

Lemma touched_range va : va mod PAGE_SIZE = 0 → touched segs va = true → LOAD_MIN ≤ va < LOAD_MAX.
Proof using Hw.
  intros Hal Ht. unfold touched in Ht. apply existsb_exists in Ht as (s & Hs & Ht). apply list_elem_of_In in Hs.
  pose proof (wf_ok _ _ _ Hw) as Hok. rewrite Forall_forall in Hok. destruct (Hok s Hs) as [Hmin Hmax _ _ _ _ _].
  unfold touches, span in Ht. apply andb_true_iff in Ht as [H1%Z.leb_le H2%Z.ltb_lt].
  unfold first_page, end_page, LOAD_MIN, LOAD_MAX, PAGE_SIZE in *. Z.div_mod_to_equations. lia.
Qed.

Section Populated.
Context (s1 : PState) (pm1 : Pmm) (pages : gmap Z Page).
Context (Ho : owning pm0 (phys_mem s0) s1 pm1 pages) (Hf : populated image segs (phys_mem s1) pages).

Lemma items_ready va p : (va, p) ∈ items pages → ready (phys_mem s1) pm1 root va p.
Proof using All.
  intros Hp%elem_of_items. pose proof (vi_tree _ _ _ Hinv) as Ht.
  destruct (proj1 (fi_dom _ _ _ _ _ _ Hf va)) as [Hal Htc]; [by eexists|]. pose proof (touched_range va Hal Htc) as Hr.
  destruct (ow_frame _ _ _ _ _ Ho va p Hp) as (g & Eg & Hg). split.
  - unfold LOAD_MIN, LOAD_MAX, USER_SPACE_END in *. split; [lia|done].
  - rewrite (look_owned _ _ _ _ _ _ Ht Ho). by apply (walk_none _ pm0), Hfree.
  - exists g. split; [done|]. rewrite (ow_total _ _ _ _ _ Ho). split; [by apply free_set_range|].
    intros [_ H]%(ow_free _ _ _ _ _ Ho). by apply (H va p).
  - intros q Hq. rewrite (tbl_owned _ _ _ _ _ _ Ht Ho), Eg by done. intros E. by apply (fresh_frame _ _ _ g q _ Ht Hg Hq E).
  - intros v e Hv. rewrite (look_owned _ _ _ _ _ _ Ht Ho). intros E E'.
    destruct (uh_leaf _ _ _ Hh v 3 e Hv E) as (_ & x & Ex & _ & Hn & _). apply Hn.
    by replace x with g by (unfold PAGE_SIZE in *; lia).
Qed.

Lemma page_flags_exact va p : ¬ wx_clash segs → pages !! va = Some p →
  bool_decide (page_flags p = USER_RW) = with_flag PF_W segs va ∧
  has (page_flags p) NO_EXECUTE = negb (with_flag PF_X segs va).
Proof using Hf.
  intros Hc Hp. destruct (fi_perm _ _ _ _ _ _ Hf va p Hp) as [Ew Ex]. unfold page_flags.
  destruct (writable p) eqn:W, (executable p) eqn:X; rewrite <- Ew, <- Ex; [|by vm_compute..].
  exfalso. apply Hc, (clash_spec image segs _ pages Hf), existsb_exists. exists (va, p).
  split; [by apply list_elem_of_In, elem_of_items|]. cbn [snd]. by rewrite W, X.
Qed.

Lemma loaded_page s2 pm2 v : ¬ wx_clash segs → vm_inv s2 pm2 root →
  (∀ v va p, (va, p) ∈ items pages → same_page v va →
     look (phys_mem s2) root v = Some (3, leaf_entry (phys p) (page_flags p))) →
  (∀ x, private (phys_mem s1) pm1 root x → read8 (phys_mem s2) x = read8 (phys_mem s1) x) →
  touched segs (v / PAGE_SIZE * PAGE_SIZE) = true → loaded image segs (phys_mem s2) root v.
Proof using All.
  intros Hc Hi2 Hl Hm Ht. set (va := v / PAGE_SIZE * PAGE_SIZE) in *. destruct (page_of v) as [Hpv Hmv]. fold va in Hpv.
  assert (Hal : va mod PAGE_SIZE = 0) by (unfold va; by rewrite Z.mod_mul).
  destruct (proj2 (fi_dom _ _ _ _ _ _ Hf va) (conj Hal Ht)) as [p Hp].
  destruct (ow_frame _ _ _ _ _ Ho va p Hp) as (g & Eg & Hg). destruct (free_set_range g pm0 Hg) as [Hg0 Hg1].
  pose proof (vi_top _ _ _ Hinv) as Htop. pose proof (page_flags_ok p) as Hfl.
  destruct (page_flags_exact va p Hc Hp) as [Fw Fx].
  assert (Hin : (va, p) ∈ items pages) by (by apply elem_of_items).
  assert (Hview : page_view (phys_mem s2) root va (g * PAGE_SIZE) (page_flags p)).
  { apply (page_view_look _ pm2); try done; [apply (vi_tree _ _ _ Hi2)|lia|]. intros w Hsp. rewrite (Hl w va p Hin Hsp), Eg.
    unfold present, leaf_entry. change PRESENT with (Z.shiftl 1 0). rewrite has_pow2, Z.lor_spec by lia. by rewrite orb_true_r. }
  destruct (Hview (v mod PAGE_SIZE) Hmv) as [Hr Hwr]. rewrite Hpv in Hr, Hwr. split.
  - exists (g * PAGE_SIZE + v mod PAGE_SIZE). split; [done|]. split; [|fold va; by rewrite <- Fw].
    rewrite Hm, <- Eg, (fi_byte _ _ _ _ _ _ Hf va p) by
      (done || (rewrite <- Eg; apply (private_private (phys_mem s0) _ pm1 root (tree_start _ _ _ _ _ _ (vi_tree _ _ _ Hinv) Ho)
        (tables_same _ _ _ _ _ _ (vi_tree _ _ _ Hinv) Ho)); by apply (page_private pm0 _ _ s1 pm1 pages (vi_tree _ _ _ Hinv) Ho va))).
    by rewrite Hpv.
  - exists (leaf_entry (phys p) (page_flags p)). split; [|fold va; rewrite <- Fx, Eg; apply leaf_nx; (done || lia)].
    apply (Hl v va p Hin). apply same_page_div. unfold va. by rewrite Z.div_mul.
Qed.
End Populated.
End Load.

(** C16: Loading an accepted image into an address space with nothing in the
    load range, with enough frames, succeeds unless a page would be both
    writable and executable, and then maps exactly the pages of the segments:
    every byte of a segment reads as the file's, then as zero; a page can be
    written, or executed, exactly when one of its segments asks for it; other
    translations and private memory stay, and the user half stays well formed. *)
Theorem load_maps_image image root s pm entry segs :
  vm_inv s pm root → user_half (phys_mem s) pm root → bytes_ok image → Z.of_nat (length image) < 2^63 →
  parse image = Ok (entry, segs) →
  (∀ v, LOAD_MIN ≤ v < LOAD_MAX → walk (phys_mem s) root v = None) →
  4 * total_seg_pages segs ≤ Z.of_nat (size (free_set pm)) →
  (wx_clash segs ∧ ∃ s', load image root s = (Err WritableExecutable, s')) ∨
  (¬ wx_clash segs ∧ ∃ s' pm', load image root s = (Ok entry, s') ∧
     vm_inv s' pm' root ∧ user_half (phys_mem s') pm' root ∧
     (∀ v, touched segs (v / PAGE_SIZE * PAGE_SIZE) = true → loaded image segs (phys_mem s') root v) ∧
     (∀ seg k, seg ∈ segs → 0 ≤ k < memsz seg →
        touched segs ((vaddr seg + k) / PAGE_SIZE * PAGE_SIZE) = true ∧
        image_byte image segs (vaddr seg + k) =
          if decide (k < filesz seg) then image !!! Z.to_nat (offset seg + k) else 0) ∧
     (∀ v, (∀ va, va mod PAGE_SIZE = 0 → touched segs va = true → ¬ same_page v va) →
        walk (phys_mem s') root v = walk (phys_mem s) root v) ∧
     (∀ x, private (phys_mem s) pm root x → read8 (phys_mem s') x = read8 (phys_mem s) x)).
Proof.
  intros Hinv Hh Hb Hlen Hp Hfree Hsz. pose proof Hinv as [Hs Hi Htop Ht].
  destruct (parse_decides image Hb Hlen) as [(entry' & segs' & Hw & E)|[_ [e E]]]; rewrite E in Hp; [|done].
  injection Hp as -> ->. pose proof (wf_ok _ _ _ Hw) as Hok. pose proof (total_nonneg image segs Hok) as Htn.
  unfold load. rewrite E.
  destruct (populate_spec image segs s pm Hs Hi Hlen Hok) as (s1 & pm1 & pages & Ho & H).
  destruct H as [(E1 & Hf & Hc & Hpg)|[(E1 & Hc)|(_ & Hlow)]]; [right|left|exfalso; lia].
  2:{ destruct (free_pages_spec _ _ _ _ _ Ho) as (s2 & pm2 & E2 & _). split; [done|]. exists s2. by rewrite E1, E2. }
  split; [done|]. rewrite E1. pose proof (tree_owned _ _ _ _ _ _ Ht Ho) as Ht1.
  assert (Hinv1 : vm_inv s1 pm1 root).
  { split; [apply (ow_pmm _ _ _ _ _ Ho)|apply (ow_inv _ _ _ _ _ Ho)|by rewrite (ow_total _ _ _ _ _ Ho)|done]. }
  destruct (map_items_spec root (items pages) s1 pm1 Hinv1 (user_half_owned _ _ _ _ _ _ Ht Ho Hh) (NoDup_items pages))
    as (s2 & pm2 & E2 & Hi2 & Hh2 & Hin & Hout & Hmem).
  - intros va p. by apply (items_ready image root s pm entry segs Hinv Hh Hw Hfree s1 pm1 pages Ho Hf).
  - intros va p va' p' Hv%elem_of_items Hv'%elem_of_items. by apply (ow_inj _ _ _ _ _ Ho va va').
  - rewrite length_items. pose proof (ow_count _ _ _ _ _ Ho). lia.
  - rewrite E2. exists s2, pm2. split; [done|]. split; [done|]. split; [done|]. split; [|split; [|split]].
    + intros v. by apply (loaded_page image root s pm entry segs Hinv Hh Hw Hfree s1 pm1 pages Ho Hf s2 pm2).
    + intros seg k Hseg Hk. split; [|exact (image_byte_segment image segs seg k Hok (wf_disjoint _ _ _ Hw) Hseg Hk)].
      unfold touched. apply existsb_exists. exists seg. split; [by apply list_elem_of_In|].
      rewrite Forall_forall in Hok. apply (touches_addr image); [by apply Hok|unfold seg_end; lia].
    + intros v Hv. rewrite (walk_look _ _ _ (vi_tree _ _ _ Hi2)), (walk_look _ _ _ Ht), Hout, (look_owned _ _ _ _ _ _ Ht Ho); [done|].
      intros va p Hp%elem_of_items. destruct (proj1 (fi_dom _ _ _ _ _ _ Hf va)) as [Hal Htc]; [by eexists|]. by apply Hv.
    + intros x Hx. rewrite Hmem.
      * apply (ow_mem _ _ _ _ _ Ho). intros va p Hp Hr. destruct Hx as (g & Hgx & Hg & _).
        destruct (ow_frame _ _ _ _ _ Ho va p Hp) as (g' & Eg & Hg'). apply Hg.
        replace g with g'; [done|]. rewrite Eg in Hr. unfold PAGE_SIZE in *. lia.
      * apply (private_private (phys_mem s) _ pm1 root (tree_start _ _ _ _ _ _ Ht Ho) (tables_same _ _ _ _ _ _ Ht Ho)).
        destruct Hx as (g & Hgx & Hg & Hq). exists g. split; [done|]. split; [by apply (owned_free pm _ s1 pm1 pages Ho)|done].
Qed.
