(* ===== verification/ElfDemo.v ===== *)
(** * Two small executables

    One that loads, and one that is refused because a page would be writable
    and executable, on the machine of the demonstration address space. *)
From Stdlib Require Import String.
From stdpp Require Import base numbers list gmap sets sorting.
From Stdlib Require Import ZArith Lia Bool.
From S2P Require Import Prelude Bytes Str Mem Pmm Vmm VmmTables VmmUser VmmSpace VmmDemo Elf ElfParse ElfLoad.
Import Vmm Elf.

Definition demo_ehdr (entry phnum : Z) : list Z :=
  [0x7f; 69; 76; 70; 2; 1; 1; 0] ++ replicate 8 0 ++ le_bytes 2 ET_EXEC ++ le_bytes 2 EM_X86_64 ++ le_bytes 4 1 ++
  le_bytes 8 entry ++ le_bytes 8 64 ++ le_bytes 8 0 ++ le_bytes 4 0 ++ le_bytes 2 64 ++ le_bytes 2 PHDR_SIZE ++
  le_bytes 2 phnum ++ replicate 6 0.
Definition demo_phdr (flags off va fsz msz : Z) : list Z :=
  le_bytes 4 PT_LOAD ++ le_bytes 4 flags ++ le_bytes 8 off ++ le_bytes 8 va ++ le_bytes 8 va ++
  le_bytes 8 fsz ++ le_bytes 8 msz ++ le_bytes 8 4096.

(** Code at the end of the file, with a tail of zeros in memory. *)
Definition demo_image : list Z := demo_ehdr 0x400078 1 ++ demo_phdr 5 0 0x400000 124 200 ++ [0xeb; 0xfe; 0x90; 0xcc].
(** Code and writable data on one page. *)
Definition demo_bad_image : list Z :=
  demo_ehdr 0x400000 2 ++ demo_phdr 5 0 0x400000 16 16 ++ demo_phdr 6 16 0x400010 16 16.

Definition demo_seg : Segment := mkSegment 0x400000 0 124 200 5.

Lemma demo_parse : parse demo_image = Ok (0x400078, [demo_seg]).
Proof. vm_compute. reflexivity. Qed.

Lemma parse_exact_witness : well_formed demo_image 0x400078 [demo_seg].
Proof.
  apply (parse_exact demo_image); [apply bytes_okb_ok; vm_compute; reflexivity|vm_compute; reflexivity|].
  exact demo_parse.
Defined.

Lemma load_error_leaks_nothing_witness :
  ∃ s' pm', load demo_bad_image demo_root demo_s0 = (Err WritableExecutable, s') ∧ PMM s' = Some pm' ∧
    free_set pm' = free_set demo_pm0.
Proof.
  assert (E : fst (load demo_bad_image demo_root demo_s0) = Err WritableExecutable) by (vm_compute; reflexivity).
  destruct (load demo_bad_image demo_root demo_s0) as [r s'] eqn:El. cbn [fst] in E. subst r.
  destruct (load_error_leaks_nothing demo_bad_image demo_root demo_s0 demo_pm0 WritableExecutable s' demo_inv0)
    as [_ (pm' & Hp & _ & Hf & _)]; [apply bytes_okb_ok; vm_compute; reflexivity|vm_compute; reflexivity|exact El|].
  exists s', pm'. exact (conj eq_refl (conj Hp Hf)).
Defined.

Lemma demo_free0 : 4 * total_seg_pages [demo_seg] ≤ Z.of_nat (size (free_set demo_pm0)).
Proof.
  destruct demo_state0 as (_ & I & _). rewrite <- (inv_count _ I). vm_compute. discriminate.
Qed.

Lemma load_maps_image_witness :
  ∃ s', load demo_image demo_root demo_s0 = (Ok 0x400078, s') ∧
    loaded demo_image [demo_seg] (phys_mem s') demo_root 0x400078.
Proof.
  destruct (load_maps_image demo_image demo_root demo_s0 demo_pm0 0x400078 [demo_seg] demo_inv0 demo_half0)
    as [[(a & b & n & Ha & _ & Fa & _) _]|(_ & s' & pm' & E & _ & _ & Hl & _)].
  - apply bytes_okb_ok. vm_compute. reflexivity.
  - vm_compute. reflexivity.
  - exact demo_parse.
  - intros v _. exact (demo_walk0 v).
  - exact demo_free0.
  - exfalso. apply list_elem_of_singleton in Ha. subst a. discriminate Fa.
  - exists s'. split; [exact E|]. apply Hl. vm_compute. reflexivity.
Defined.
