(* ===== verification/Scheduler.v ===== *)
(** * Threads: [pit.rs] and [scheduler.rs]

    The timer, the thread table and the operations on it, over the memory
    manager's state.  Critical sections run with interrupts off on one core,
    so each operation is one step.  [reschedule] ends with a switch of stacks:
    what the code does after the switch ([finish_switch], on the stack of the
    next thread, be it new or old) is the second half of the step here.
    The code a thread runs is not part of the model: any thread may call any
    operation, at any time the scheduler gives it the processor. *)
From Stdlib Require Import String.
From stdpp Require Import base numbers list gmap sets.
From Stdlib Require Import ZArith Lia Bool.
From S2P Require Import Prelude Bytes Str Mem Pmm Vmm.
Import Vmm.

Module Scheduler.

Definition STACK_REGION : Z := 0xffffffffa0000000.
Definition SLOT_SIZE : Z := 0x20000.
Definition MAX_SLOTS : Z := 512.
Definition STACK_PAGES : Z := 16.
Definition TIME_SLICE_MS : Z := 10.

Record Thread := mkThread {
  id : Z;
  name : list Z;
  rsp : Z;
  stack_slot : option Z;
  wake_at : Z;
  is_idle : bool;
  aspace : option Z;
  user_entry : Z;
  user_rsp : Z
}.

Record Sched := mkSched {
  current : option Thread;
  ready : list Thread;
  sleeping : list Thread;
  idle : option Thread;
  zombies : list Thread;
  free_slots : list Z;
  next_slot : Z;
  next_id : Z
}.

Definition Scheduler_new : Sched := mkSched None [] [] None [] [] 0 1.

(** The state: the thread table, the parked threads of every wait queue, the
    flags of the timer, the timer, the kernel stack of the task state segment
    and the memory manager. *)
Record KState := mkK {
  SCHED : Sched;
  queues : gmap Z (list Thread);
  READY : bool;
  SLICE_TICKS : Z;
  NEED_RESCHED : bool;
  PREEMPTIONS : Z;
  TICKS : Z;
  HZ : Z;
  rsp0 : Z;
  vst : VState
}.

Notation K := (M KState Empty_set).

Definition set_SCHED (k : KState) (s : Sched) : KState :=
  mkK s (queues k) (READY k) (SLICE_TICKS k) (NEED_RESCHED k) (PREEMPTIONS k) (TICKS k) (HZ k) (rsp0 k) (vst k).
Definition set_queues (k : KState) (q : gmap Z (list Thread)) : KState :=
  mkK (SCHED k) q (READY k) (SLICE_TICKS k) (NEED_RESCHED k) (PREEMPTIONS k) (TICKS k) (HZ k) (rsp0 k) (vst k).
Definition set_ready_flag (k : KState) (b : bool) : KState :=
  mkK (SCHED k) (queues k) b (SLICE_TICKS k) (NEED_RESCHED k) (PREEMPTIONS k) (TICKS k) (HZ k) (rsp0 k) (vst k).
Definition set_slice (k : KState) (t : Z) (need : bool) : KState :=
  mkK (SCHED k) (queues k) (READY k) t need (PREEMPTIONS k) (TICKS k) (HZ k) (rsp0 k) (vst k).
Definition set_preemptions (k : KState) (n : Z) : KState :=
  mkK (SCHED k) (queues k) (READY k) (SLICE_TICKS k) (NEED_RESCHED k) n (TICKS k) (HZ k) (rsp0 k) (vst k).
Definition set_time (k : KState) (t hz : Z) : KState :=
  mkK (SCHED k) (queues k) (READY k) (SLICE_TICKS k) (NEED_RESCHED k) (PREEMPTIONS k) t hz (rsp0 k) (vst k).
Definition set_kernel_stack (k : KState) (r : Z) : KState :=
  mkK (SCHED k) (queues k) (READY k) (SLICE_TICKS k) (NEED_RESCHED k) (PREEMPTIONS k) (TICKS k) (HZ k) r (vst k).
Definition set_vst (k : KState) (v : VState) : KState :=
  mkK (SCHED k) (queues k) (READY k) (SLICE_TICKS k) (NEED_RESCHED k) (PREEMPTIONS k) (TICKS k) (HZ k) (rsp0 k) v.

Definition on_vmm {A} (m : M VState Empty_set A) : K A := λ k, let '(r, v) := m (vst k) in (r, set_vst k v).
Definition on_frames {A} (m : M PState Empty_set A) : K A := on_vmm (on_pmm m).
Definition modify (f : KState → KState) : K unit := λ k, (Ok tt, f k).
Definition modify_sched (f : Sched → Sched) : K unit := modify (λ k, set_SCHED k (f (SCHED k))).

(** ** The timer *)
Definition BASE_FREQUENCY : Z := 1193182.

Definition clamp (v lo hi : Z) : Z := if v <? lo then lo else if hi <? v then hi else v.

(** The bytes written to the command and data ports are the result. *)
Definition pit_init (hz : Z) : K (list (Z * Z)) := λ k,
  let hz := clamp hz 19 1000 in
  let divisor := clamp (BASE_FREQUENCY / hz) 1 65535 in
  (Ok [(0x43, 0x36); (0x40, Z.land divisor 0xff); (0x40, Z.shiftr divisor 8)], set_time k 0 hz).

Definition uptime_ms : K Z := λ k,
  if HZ k =? 0 then (Ok 0, k) else (let? t := mul64 (TICKS k) 1000 in Ok (t / HZ k), k).

(** ** Stacks *)
Definition slot_base {E} (slot : Z) : res E Z := let? off := mul64 slot SLOT_SIZE in add64 STACK_REGION off.

Definition unmap_stack (base pages : Z) : K unit :=
  mfor (seqZ 0 pages) (λ i,
    let! virt := lift (let? t := mul64 (1 + i) PAGE_SIZE in add64 base t) in
    let! o := on_vmm (unmap_page virt) in
    match o with
    | Some phys => on_frames (free_frame phys)
    | None => ret tt
    end).

(** A word written through the tables in use; a page that is not mapped faults. *)
Definition write_virt (virt v : Z) : K unit := on_vmm (λ s,
  match walk (phys_mem (pst s)) (CR3 s) virt with
  | Some p => (Ok tt, set_pst s (set_phys_mem (pst s) (write64 (phys_mem (pst s)) p v)))
  | None => (Panic, s)
  end).

(** A free slot: the last one given back, or the next new one. *)
Definition pop_slot : K (option Z) := λ k,
  let s := SCHED k in
  match last (free_slots s) with
  | Some i =>
      (Ok (Some i), set_SCHED k (mkSched (current s) (ready s) (sleeping s) (idle s) (zombies s)
        (take (length (free_slots s) - 1) (free_slots s)) (next_slot s) (next_id s)))
  | None =>
      if next_slot s <? MAX_SLOTS then
        (Ok (Some (next_slot s)), set_SCHED k (mkSched (current s) (ready s) (sleeping s) (idle s) (zombies s)
          (free_slots s) (next_slot s + 1) (next_id s)))
      else (Ok None, k)
  end.

Definition take_slot : K (option (Z * Z)) :=
  let! o := pop_slot in
  match o with
  | None => ret None
  | Some slot =>
      let! k := get in
      let tid := next_id (SCHED k) in
      let! n := lift (add64 tid 1) in
      modify_sched (λ s, mkSched (current s) (ready s) (sleeping s) (idle s) (zombies s) (free_slots s) (next_slot s) n) ;;!
      ret (Some (slot, tid))
  end.

Definition give_slot (slot : Z) : K unit := modify_sched (λ s,
  mkSched (current s) (ready s) (sleeping s) (idle s) (zombies s) (free_slots s ++ [slot]) (next_slot s) (next_id s)).

(** Map the pages of a stack from page [i] on; [false] when memory is out. *)
Fixpoint map_stack (n : nat) (base i : Z) : K bool :=
  match n with
  | O => ret true
  | S n =>
      let! o := on_frames alloc_frame in
      match o with
      | None => unmap_stack base i ;;! ret false
      | Some phys =>
          let! virt := lift (let? t := mul64 (1 + i) PAGE_SIZE in add64 base t) in
          on_vmm (map_page virt phys KERNEL_RW) ;;!
          map_stack n base (i + 1)
      end
  end.

Section Threads.
(** The addresses of the trampoline and of the two entry points of the kernel. *)
Context (thread_trampoline idle_main user_thread_main : Z).

Definition create_thread (nm : list Z) (entry : Z) (idle : bool) : K (option Thread) :=
  let! o := take_slot in
  match o with
  | None => ret None
  | Some (slot, tid) =>
      let! base := lift (slot_base slot) in
      let! ok := map_stack (Z.to_nat STACK_PAGES) base 0 in
      if negb ok then give_slot slot ;;! ret None
      else
        let! top := lift (add64 base ((1 + STACK_PAGES) * PAGE_SIZE)) in
        let! sp := lift (sub64 top (7 * 8)) in
        mfor (seqZ 0 7) (λ k, write_virt (sp + 8 * k) 0) ;;!
        write_virt (sp + 8 * 3) entry ;;!
        write_virt (sp + 8 * 6) thread_trampoline ;;!
        ret (Some (mkThread tid nm sp (Some slot) 0 idle None 0 0))
  end.

(** Dropping the thread tears down its address space. *)
Definition free_thread (t : Thread) : K unit :=
  match stack_slot t with
  | Some slot =>
      let! base := lift (slot_base slot) in
      unmap_stack base STACK_PAGES ;;!
      give_slot slot
  | None => ret tt
  end ;;!
  match aspace t with
  | Some a => on_frames (free_user_half a)
  | None => ret tt
  end.

Definition finish_switch : K unit := λ k,
  let s := SCHED k in
  let k := set_SCHED k (mkSched (current s) (ready s) (sleeping s) (idle s) [] (free_slots s) (next_slot s) (next_id s)) in
  mfor (zombies s) free_thread k.

(** ** Choosing the next thread *)

(** [Vec::swap_remove]: the last element takes the place of the one removed. *)
Definition swap_remove {A} (i : nat) (l : list A) : list A :=
  match last l with
  | Some x => if (i =? length l - 1)%nat then take i l else <[i := x]> (take (length l - 1) l)
  | None => l
  end.

Fixpoint wake_loop (fuel : nat) (now : Z) (i : nat) (slp rdy : list Thread) : list Thread * list Thread :=
  match fuel with
  | O => (slp, rdy)
  | S fuel =>
      match slp !! i with
      | None => (slp, rdy)
      | Some t =>
          if wake_at t <=? now then wake_loop fuel now i (swap_remove i slp) (rdy ++ [t])
          else wake_loop fuel now (S i) slp rdy
      end
  end.

Definition wake_sleepers : K unit := λ k,
  let s := SCHED k in
  if bool_decide (sleeping s = []) then (Ok tt, k)
  else
    (let! now := uptime_ms in
     modify_sched (λ s,
       let '(slp, rdy) := wake_loop (S (length (sleeping s))) now 0 (sleeping s) (ready s) in
       mkSched (current s) rdy slp (idle s) (zombies s) (free_slots s) (next_slot s) (next_id s))) k.

Inductive Next := Yield | Sleep (wake_at : Z) | Exit | Block (queue : Z).

Definition with_wake (t : Thread) (w : Z) : Thread :=
  mkThread (id t) (name t) (rsp t) (stack_slot t) w (is_idle t) (aspace t) (user_entry t) (user_rsp t).

(** Where the thread that leaves the processor goes. *)
Definition put_away (how : Next) (cur : Thread) : K unit := λ k,
  let s := SCHED k in
  match how with
  | Yield =>
      if is_idle cur then
        (Ok tt, set_SCHED k (mkSched None (ready s) (sleeping s) (Some cur) (zombies s) (free_slots s) (next_slot s) (next_id s)))
      else
        (Ok tt, set_SCHED k (mkSched None (ready s ++ [cur]) (sleeping s) (idle s) (zombies s) (free_slots s) (next_slot s) (next_id s)))
  | Sleep w =>
      (Ok tt, set_SCHED k (mkSched None (ready s) (sleeping s ++ [with_wake cur w]) (idle s) (zombies s) (free_slots s) (next_slot s) (next_id s)))
  | Exit =>
      (Ok tt, set_SCHED k (mkSched None (ready s) (sleeping s) (idle s) (zombies s ++ [cur]) (free_slots s) (next_slot s) (next_id s)))
  | Block q =>
      (Ok tt, set_queues (set_SCHED k (mkSched None (ready s) (sleeping s) (idle s) (zombies s) (free_slots s) (next_slot s) (next_id s)))
        (<[q := default [] (queues k !! q) ++ [cur]]> (queues k)))
  end.

(** The head of the ready queue, or else the idle thread. *)
Definition pick_next : K Thread := λ k,
  let s := SCHED k in
  match ready s with
  | t :: rest =>
      (Ok t, set_SCHED k (mkSched (current s) rest (sleeping s) (idle s) (zombies s) (free_slots s) (next_slot s) (next_id s)))
  | [] =>
      match idle s with
      | Some t =>
          (Ok t, set_SCHED k (mkSched (current s) [] (sleeping s) None (zombies s) (free_slots s) (next_slot s) (next_id s)))
      | None => (Panic, k)
      end
  end.

(** Point the processor at the next thread: its stack and its tables. *)
Definition install (next : Thread) : K unit :=
  match stack_slot next with
  | Some slot =>
      let! base := lift (slot_base slot) in
      let! top := lift (add64 base ((1 + STACK_PAGES) * PAGE_SIZE)) in
      modify (λ k, set_kernel_stack k top)
  | None => ret tt
  end ;;!
  modify (λ k,
    let want := match aspace next with Some a => a | None => KERNEL_CR3 (vst k) end in
    let k := if negb (want =? 0) && negb (want =? current_cr3 (vst k)) then set_vst k (snd (activate want (vst k))) else k in
    let s := SCHED k in
    set_SCHED k (mkSched (Some next) (ready s) (sleeping s) (idle s) (zombies s) (free_slots s) (next_slot s) (next_id s))).

(** Thread numbers stand for the addresses of the boxes. *)
Definition reschedule (how : Next) : K unit :=
  modify (λ k, set_slice k 0 false) ;;!
  wake_sleepers ;;!
  let! k := get in
  match current (SCHED k) with
  | None => panic
  | Some cur =>
      put_away how cur ;;!
      let! next := pick_next in
      install next ;;!
      if id cur =? id next then ret tt else finish_switch
  end.

(** ** Operations *)
Definition boot_thread : Thread := mkThread 0 (lit "boot") 0 None 0 false None 0 0.

Definition init : K unit :=
  let! o := create_thread (lit "idle") idle_main true in
  match o with
  | None => ret tt
  | Some t =>
      modify_sched (λ s, mkSched (Some boot_thread) (ready s) (sleeping s) (Some t) (zombies s) (free_slots s) (next_slot s) (next_id s)) ;;!
      modify (λ k, set_ready_flag k true)
  end.

Definition push_ready (t : Thread) : K unit := modify_sched (λ s,
  mkSched (current s) (ready s ++ [t]) (sleeping s) (idle s) (zombies s) (free_slots s) (next_slot s) (next_id s)).

Definition spawn (nm : list Z) (entry : Z) : K (option Z) :=
  let! o := create_thread nm entry false in
  match o with
  | None => ret None
  | Some t => push_ready t ;;! ret (Some (id t))
  end.

(** Without a thread the address space is dropped. *)
Definition spawn_user (nm : list Z) (a entry urs : Z) : K (option Z) :=
  let! o := create_thread nm user_thread_main false in
  match o with
  | None => on_frames (free_user_half a) ;;! ret None
  | Some t =>
      push_ready (mkThread (id t) (name t) (rsp t) (stack_slot t) (wake_at t) (is_idle t) (Some a) entry urs) ;;!
      ret (Some (id t))
  end.

(** Where a user thread starts. *)
Definition user_start : K (Z * Z) := λ k,
  match current (SCHED k) with
  | Some t => (Ok (user_entry t, user_rsp t), k)
  | None => (Panic, k)
  end.

Definition yield_now : K unit := let! k := get in if READY k then reschedule Yield else ret tt.

Definition sleep_ms (ms : Z) : K unit :=
  let! k := get in
  if negb (READY k) then ret tt
  else
    let! now := uptime_ms in
    let! w := lift (add64 now ms) in
    reschedule (Sleep w).

(** Before the scheduler is up the processor stops for good. *)
Definition exit : K unit := let! k := get in if READY k then reschedule Exit else diverge.

Definition tick : K unit :=
  let! k := get in
  if negb (READY k) then ret tt
  else
    modify (λ k, set_slice k (wrap64 (SLICE_TICKS k + 1)) (NEED_RESCHED k)) ;;!
    let! used := lift (add64 (SLICE_TICKS k) 1) in
    let! t := lift (mul64 (HZ k) TIME_SLICE_MS) in
    let slice_ticks := Z.max (t / 1000) 1 in
    let! now := uptime_ms in
    let! k := get in
    let sleeper_due := existsb (λ t, wake_at t <=? now) (sleeping (SCHED k)) in
    let slice_over := (slice_ticks <=? used) && negb (bool_decide (ready (SCHED k) = [])) in
    if sleeper_due || slice_over then modify (λ k, set_slice k (SLICE_TICKS k) true) else ret tt.

Definition preempt_if_needed : K unit :=
  let! k := get in
  if NEED_RESCHED k then
    modify (λ k, set_preemptions (set_slice k (SLICE_TICKS k) false) (wrap64 (PREEMPTIONS k + 1))) ;;!
    reschedule Yield
  else ret tt.

Definition on_tick : K unit := modify (λ k, set_time k (wrap64 (TICKS k + 1)) (HZ k)) ;;! tick.

(** The timer's interrupt: its handler, then the switch it may ask for. *)
Definition timer_irq : K unit := on_tick ;;! preempt_if_needed.

Definition current_id (k : KState) : Z := match current (SCHED k) with Some t => id t | None => 0 end.
Definition current_name (k : KState) : list Z := match current (SCHED k) with Some t => name t | None => lit "?" end.
Definition stack_slots_in_use (k : KState) : res Empty_set Z :=
  sub64 (next_slot (SCHED k)) (Z.of_nat (length (free_slots (SCHED k)))).

(** ** Wait queues *)
Definition waiters (k : KState) (q : Z) : list Thread := default [] (queues k !! q).

Definition wait (q : Z) : K unit := let! k := get in if READY k then reschedule (Block q) else ret tt.

(** One round of [wait_until]: [true] when the loop ends.  The condition is
    a step of the caller's own state [C], run with interrupts off. *)
Definition wait_round {C} (q : Z) (cond : C → bool * C) (c : C) : K (bool * C) :=
  let '(b, c) := cond c in
  if b then ret (true, c)
  else
    let! k := get in
    if negb (READY k) then ret (true, c) else reschedule (Block q) ;;! ret (false, c).

Definition wake_one (q : Z) : K bool := λ k,
  match waiters k q with
  | [] => (Ok false, k)
  | t :: rest => (let! _ := push_ready t in ret true) (set_queues k (<[q := rest]> (queues k)))
  end.

Definition wake_all (q : Z) : K unit := λ k,
  let all := waiters k q in
  let k := set_queues k (<[q := []]> (queues k)) in
  match all with
  | [] => (Ok tt, k)
  | _ => mfor all push_ready k
  end.
End Threads.
End Scheduler.
