(* ===== verification/SchedInv.v ===== *)
(** * The thread table stays consistent

    Every thread is in one place, thread numbers and stack slots are not
    shared and not lost, there is always a thread to run, and the processor is
    set up for the one that runs. *)
From Stdlib Require Import String.
From stdpp Require Import base numbers list gmap sets.
From Stdlib Require Import ZArith Lia Bool.
From S2P Require Import Prelude Bytes Str Mem Pmm Vmm Scheduler.
Import Vmm Scheduler.

(** ** Steps that only touch memory *)
Definition mem_only {A} (m : M KState Empty_set A) : Prop :=
  ∀ k r k', m k = (r, k') → ∃ p, k' = set_vst k (set_pst (vst k) p).

Create HintDb memory.

Lemma mem_ret {A} (a : A) : mem_only (ret a).
Proof. intros k r k' [= _ <-]. exists (pst (vst k)). by destruct k as [? ? ? ? ? ? ? ? ? []]. Qed.

Lemma mem_lift {A} (r : res Empty_set A) : mem_only (lift r).
Proof. intros k r' k' [= _ <-]. exists (pst (vst k)). by destruct k as [? ? ? ? ? ? ? ? ? []]. Qed.

Lemma mem_bind {A B} (m : M KState Empty_set A) (f : A → M KState Empty_set B) :
  mem_only m → (∀ a, mem_only (f a)) → mem_only (bind m f).
Proof.
  intros Hm Hf k r k'. unfold bind. destruct (m k) as [r1 k1] eqn:E1. destruct (Hm _ _ _ E1) as [p ->].
  destruct r1; try (intros [= _ <-]; by exists p). intros E2. destruct (Hf _ _ _ _ E2) as [p' ->]. by exists p'.
Qed.

Lemma mem_for {A} (l : list A) (f : A → M KState Empty_set unit) : (∀ a, mem_only (f a)) → mem_only (mfor l f).
Proof. intros Hf. induction l as [|a l IH]; [apply mem_ret|]. cbn [mfor]. by apply mem_bind. Qed.

(** The memory manager changes its registers only when asked to. *)
Definition tables_only {A} (m : M VState Empty_set A) : Prop := ∀ s r s', m s = (r, s') → ∃ p, s' = set_pst s p.

Lemma mem_on_vmm {A} (m : M VState Empty_set A) : tables_only m → mem_only (on_vmm m).
Proof.
  intros Hm k r k'. unfold on_vmm. destruct (m (vst k)) as [r1 v] eqn:E. destruct (Hm _ _ _ E) as [p ->].
  intros [= _ <-]. by exists p.
Qed.

Lemma tables_on_pmm {A} (m : M PState Empty_set A) : tables_only (on_pmm m).
Proof. intros s r s'. unfold on_pmm. destruct (m (pst s)) as [r1 p]. intros [= _ <-]. by exists p. Qed.

Lemma tables_unchanged (s : VState) : ∃ p, s = set_pst s p.
Proof. exists (pst s). by destruct s. Qed.

Lemma tables_map_page virt phys flags : tables_only (map_page virt phys flags).
Proof. intros s r s'. unfold map_page. destruct (VMM s); [apply tables_on_pmm|]. intros [= _ <-]. apply tables_unchanged. Qed.

Lemma tables_unmap_page virt : tables_only (unmap_page virt).
Proof. intros s r s'. unfold unmap_page. destruct (VMM s); [apply tables_on_pmm|]. intros [= _ <-]. apply tables_unchanged. Qed.

#[export] Hint Resolve mem_ret mem_lift mem_bind mem_for mem_on_vmm tables_on_pmm tables_map_page tables_unmap_page : memory.

Lemma mem_on_frames {A} (m : M PState Empty_set A) : mem_only (on_frames m).
Proof. apply mem_on_vmm, tables_on_pmm. Qed.
#[export] Hint Resolve mem_on_frames : memory.

Lemma mem_write virt v : mem_only (write_virt virt v).
Proof.
  apply mem_on_vmm. intros s r s'. destruct (walk _ _ _); intros [= _ <-]; [by eexists|apply tables_unchanged].
Qed.

Lemma mem_unmap_stack base n : mem_only (unmap_stack base n).
Proof.
  apply mem_for. intros i. apply mem_bind; [apply mem_lift|]. intros virt.
  apply mem_bind; [auto with memory|]. intros [phys|]; auto with memory.
Qed.
#[export] Hint Resolve mem_write mem_unmap_stack : memory.

Lemma mem_map_stack n base i : mem_only (map_stack n base i).
Proof.
  revert i. induction n as [|n IH]; intros i; [apply mem_ret|]. cbn [map_stack].
  apply mem_bind; [auto with memory|]. intros [phys|]; auto 6 with memory.
Qed.
#[export] Hint Resolve mem_map_stack : memory.

(** ** Threads and where they are *)
Definition option_threads (o : option Thread) : list Thread := match o with Some t => [t] | None => [] end.
Definition parked (q : gmap Z (list Thread)) : list Thread := map_to_list q ≫= snd.

Definition all_threads (k : KState) : list Thread :=
  option_threads (current (SCHED k)) ++ ready (SCHED k) ++ sleeping (SCHED k) ++
  option_threads (idle (SCHED k)) ++ zombies (SCHED k) ++ parked (queues k).

Definition slots (l : list Thread) : list Z := omap stack_slot l.

Lemma parked_delete q (m : gmap Z (list Thread)) : parked m ≡ₚ default [] (m !! q) ++ parked (delete q m).
Proof.
  unfold parked. destruct (m !! q) as [l|] eqn:E; [|by rewrite delete_id].
  rewrite <- (map_to_list_delete m q l E). by rewrite bind_cons.
Qed.

Lemma parked_insert q l (m : gmap Z (list Thread)) : parked (<[q := l]> m) ≡ₚ l ++ parked (delete q m).
Proof. rewrite (parked_delete q), lookup_insert_eq, delete_insert_eq. done. Qed.

(** What never changes of a thread once it exists. *)
Record key := mkKey { key_id : Z; key_slot : option Z; key_space : option Z; key_idle : bool }.
Definition key_of (t : Thread) : key := mkKey (id t) (stack_slot t) (aspace t) (is_idle t).
Definition keys (l : list Thread) : list key := key_of <$> l.

(** The address of a top table, as the processor's register holds it. *)
Definition table_addr (a : Z) : Prop := a ≠ 0 ∧ Z.land a ADDR_MASK = a.

(** Threads that, with the free slots, account for all numbers and slots. *)
Record fits (ks : list key) (s : Sched) : Prop := {
  ft_ids : NoDup (key_id <$> ks);
  ft_new : Forall (λ x, 0 ≤ key_id x < next_id s) ks;
  ft_slots : omap key_slot ks ++ free_slots s ≡ₚ seqZ 0 (next_slot s);
  ft_max : 0 ≤ next_slot s ≤ MAX_SLOTS;
  ft_space : Forall (λ x, ∀ a, key_space x = Some a → table_addr a) ks;
  ft_idle : length (filter (λ x, key_idle x = true) ks) = 1%nat
}.

Lemma fits_perm ks ks' s s' :
  ks ≡ₚ ks' → free_slots s' = free_slots s → next_slot s' = next_slot s → next_id s' = next_id s →
  fits ks s → fits ks' s'.
Proof.
  intros Hp E1 E2 E3 [H1 H2 H3 H4 H5 H6]. split; rewrite ?E1, ?E2, ?E3; rewrite <- ?Hp; done.
Qed.

(** A thread is where its kind belongs. *)
Record placed (k : KState) : Prop := {
  pl_busy : Forall (λ t, is_idle t = false) (ready (SCHED k) ++ sleeping (SCHED k) ++ zombies (SCHED k) ++ parked (queues k));
  pl_idle : Forall (λ t, is_idle t = true) (option_threads (idle (SCHED k)))
}.

Definition tables_of (k : KState) (t : Thread) : Z :=
  match aspace t with Some a => a | None => KERNEL_CR3 (vst k) end.

(** The processor is set up for the thread that runs. *)
Record on_cpu (k : KState) (t : Thread) : Prop := {
  oc_tables : current_cr3 (vst k) = tables_of k t;
  oc_kernel : table_addr (KERNEL_CR3 (vst k));
  oc_stack : ∀ slot, stack_slot t = Some slot → rsp0 k = STACK_REGION + slot * SLOT_SIZE + (1 + STACK_PAGES) * PAGE_SIZE
}.

Record sched_inv (k : KState) : Prop := {
  si_fits : fits (keys (all_threads k)) (SCHED k);
  si_placed : placed k;
  si_reaped : zombies (SCHED k) = [];
  si_current : ∃ cur, current (SCHED k) = Some cur ∧ on_cpu k cur
}.

(** ** Waking *)
Lemma swap_remove_perm {A} (i : nat) (l : list A) x : l !! i = Some x → l ≡ₚ x :: swap_remove i l.
Proof.
  intros Hx. unfold swap_remove. pose proof (lookup_lt_Some _ _ _ Hx) as Hi.
  destruct (last l) as [y|] eqn:El; [|apply last_None in El; by subst].
  apply last_Some in El as [l' ->]. rewrite length_app in *. cbn [length] in *.
  replace (length l' + 1 - 1)%nat with (length l') by lia.
  destruct (Nat.eqb_spec i (length l')) as [->|Hne].
  - rewrite take_app_length. rewrite lookup_app_r, Nat.sub_diag in Hx by lia. injection Hx as ->. symmetry.
    apply Permutation_cons_append.
  - rewrite take_app_length. rewrite lookup_app_l in Hx by lia.
    rewrite <- (take_drop_middle l' i x Hx) at 1. rewrite insert_take_drop by lia.
    rewrite <- app_assoc. cbn [app]. rewrite <- Permutation_middle. f_equiv. f_equiv.
    rewrite Permutation_app_comm. done.
Qed.

Lemma length_swap_remove {A} (i : nat) (l : list A) x : l !! i = Some x → S (length (swap_remove i l)) = length l.
Proof. intros Hx. by rewrite (Permutation_length (swap_remove_perm i l x Hx)). Qed.

(** The loop moves the sleepers that are due, and only those, to the end of
    the ready queue. *)
Lemma wake_loop_spec now fuel : ∀ i slp rdy,
  (length slp - i < fuel)%nat → Forall (λ t, now < wake_at t) (take i slp) →
  ∃ due, snd (wake_loop fuel now i slp rdy) = rdy ++ due ∧ slp ≡ₚ due ++ fst (wake_loop fuel now i slp rdy) ∧
    Forall (λ t, wake_at t ≤ now) due ∧ Forall (λ t, now < wake_at t) (fst (wake_loop fuel now i slp rdy)).
Proof.
  induction fuel as [|fuel IH]; intros i slp rdy Hf Hd; [lia|]. cbn [wake_loop].
  destruct (slp !! i) as [t|] eqn:Et.
  2:{ exists []. rewrite app_nil_r. split; [done|]. split; [done|]. split; [constructor|].
      apply lookup_ge_None in Et. by rewrite take_ge in Hd. }
  pose proof (lookup_lt_Some _ _ _ Et) as Hi.
  destruct (Z.leb_spec (wake_at t) now) as [Hw|Hw].
  - pose proof (length_swap_remove i slp t Et) as Hl.
    destruct (IH i (swap_remove i slp) (rdy ++ [t])) as (due & E1 & E2 & H1 & H2); [lia| |].
    { assert (Et' : take i (swap_remove i slp) = take i slp); [|by rewrite Et'].
      unfold swap_remove. destruct (last slp) as [y|]; [|done]. destruct (Nat.eqb_spec i (length slp - 1)).
      - by rewrite take_take, Nat.min_id.
      - by rewrite take_insert_ge, take_take, Nat.min_l by lia. }
    exists (t :: due). rewrite E1, <- app_assoc. split; [done|]. split; [|by split; [constructor|]].
    etrans; [by apply (swap_remove_perm i slp t Et)|]. cbn [app]. by apply Permutation_skip.
  - destruct (IH (S i) slp rdy) as (due & ?); [lia| |by exists due].
    rewrite (take_S_r _ _ _ Et). apply Forall_app. split; [done|]. by constructor.
Qed.

Lemma wake_sleepers_spec k k' :
  wake_sleepers k = (Ok tt, k') → let s := SCHED k in
  ∃ due slp, sleeping s ≡ₚ due ++ slp ∧
    k' = set_SCHED k (mkSched (current s) (ready s ++ due) slp (idle s) (zombies s) (free_slots s) (next_slot s) (next_id s)) ∧
    ∀ now, uptime_ms k = (Ok now, k) → Forall (λ t, wake_at t ≤ now) due ∧ Forall (λ t, now < wake_at t) slp.
Proof.
  cbv zeta. unfold wake_sleepers. case_bool_decide as E.
  - intros [= <-]. exists [], []. rewrite E. split; [done|].
    split; [rewrite app_nil_r; destruct k as [[]]; simpl in *; by subst|].
    intros; split; constructor.
  - assert (Hu : snd (uptime_ms k) = k) by (unfold uptime_ms; by destruct (HZ k =? 0)).
    unfold bind. destruct (uptime_ms k) as [r k1] eqn:Eu. cbn [snd] in Hu. subst k1. destruct r as [now| | |]; try done.
    unfold modify_sched, modify.
    destruct (wake_loop_spec now (S (length (sleeping (SCHED k)))) 0 (sleeping (SCHED k)) (ready (SCHED k)))
      as (due & E1 & E2 & H1 & H2); [lia|constructor|].
    destruct (wake_loop _ _ _ _ _) as [slp rdy]. cbn [fst snd] in *. intros [= <-]. exists due, slp.
    split; [done|]. split; [by rewrite E1|]. intros now' [= <-]. done.
Qed.

(** ** A switch, in its parts *)

(** What holds between the parts: the threads of the table and the one in hand. *)
Record mid (held : list Thread) (k : KState) : Prop := {
  md_fits : fits (keys (held ++ all_threads k)) (SCHED k);
  md_placed : placed k;
  md_kernel : table_addr (KERNEL_CR3 (vst k))
}.

Lemma keys_app l l' : keys (l ++ l') = keys l ++ keys l'.
Proof. apply fmap_app. Qed.

Lemma keys_perm l l' : l ≡ₚ l' → keys l ≡ₚ keys l'.
Proof. apply fmap_Permutation. Qed.

(** The timer and its flags are as before. *)
Definition same_timer (k k' : KState) : Prop :=
  TICKS k' = TICKS k ∧ HZ k' = HZ k ∧ READY k' = READY k ∧ SLICE_TICKS k' = SLICE_TICKS k ∧ NEED_RESCHED k' = NEED_RESCHED k.

Lemma same_timer_trans k1 k2 k3 : same_timer k1 k2 → same_timer k2 k3 → same_timer k1 k3.
Proof. intros (?&?&?&?&?) (?&?&?&?&?). repeat split; congruence. Qed.

Lemma mid_wake held k k' : mid held k → wake_sleepers k = (Ok tt, k') → mid held k' ∧ current (SCHED k') = current (SCHED k) ∧
  zombies (SCHED k') = zombies (SCHED k).
Proof.
  intros [Hf [Hb Hi] Hk] E. destruct (wake_sleepers_spec k k' E) as (due & slp & Hp & -> & _). clear E.
  split; [|done]. split; [| |done].
  - apply (fits_perm (keys (held ++ all_threads k)) _ (SCHED k)); [|done..]. apply keys_perm. unfold all_threads.
    cbn [SCHED queues set_SCHED current ready sleeping idle zombies].
    rewrite Hp. solve_Permutation.
  - split; [|done]. cbn [SCHED queues set_SCHED current ready sleeping idle zombies] in *. rewrite Hp in Hb.
    rewrite !Forall_app in *. tauto.
Qed.

Lemma busy_keys l : Forall (λ t, is_idle t = false) l → filter (λ x, key_idle x = true) (keys l) = [].
Proof. induction 1 as [|t l Ht _ IH]; [done|]. cbn [keys fmap list_fmap]. rewrite filter_cons_False; [done|]. cbn. by rewrite Ht. Qed.

Lemma fits_one_idle a b l ks s : fits ks s → ks ≡ₚ keys (a :: b :: l) → is_idle a = true → is_idle b = true → False.
Proof.
  intros Hf Hp Ha Hb. pose proof (ft_idle _ _ Hf) as H. rewrite Hp in H. cbn [keys fmap list_fmap] in H.
  rewrite !filter_cons_True in H by done. done.
Qed.

Lemma mid_put_away how cur k k' :
  mid [] k → current (SCHED k) = Some cur → how = Yield ∨ is_idle cur = false → put_away how cur k = (Ok tt, k') →
  mid [] k' ∧ current (SCHED k') = None ∧
  zombies (SCHED k') = zombies (SCHED k) ++ match how with Exit => [cur] | _ => [] end.
Proof.
  intros [Hf [Hb Hi] Hk] Ec Hh. unfold put_away.
  assert (Hfit : ∀ s' q, free_slots s' = free_slots (SCHED k) → next_slot s' = next_slot (SCHED k) → next_id s' = next_id (SCHED k) →
    keys (all_threads k) ≡ₚ keys (all_threads (set_queues (set_SCHED k s') q)) →
    fits (keys ([] ++ all_threads (set_queues (set_SCHED k s') q))) s').
  { intros s' q E1 E2 E3 Hp. by apply (fits_perm (keys (all_threads k)) _ (SCHED k)). }
  rewrite !Forall_app in Hb. destruct Hb as (Hb1 & Hb2 & Hb3 & Hb4). unfold all_threads in Hfit. rewrite Ec in Hfit.
  destruct how as [|w| |q]; [destruct (is_idle cur) eqn:Eid| | |]; intros [= <-].
  - split; [|split; [done|by rewrite app_nil_r]].
    assert (En : idle (SCHED k) = None).
    { destruct (idle (SCHED k)) as [t|] eqn:Ei; [exfalso|done]. cbn [option_threads] in Hi; rewrite Forall_singleton in Hi.
      eapply (fits_one_idle cur t); [exact Hf| |done|exact Hi]. apply keys_perm. unfold all_threads. rewrite Ec, Ei.
      cbn [option_threads app]. rewrite <- !Permutation_middle. done. }
    split; [|split|done].
    + apply (Hfit _ (queues k)); try done. apply keys_perm. cbn. rewrite En. solve_Permutation.
    + cbn. rewrite !Forall_app. done.
    + cbn. by repeat constructor.
  - split; [|split; [done|by rewrite app_nil_r]]. split; [|split|done].
    + apply (Hfit _ (queues k)); try done. apply keys_perm. cbn. solve_Permutation.
    + cbn. rewrite !Forall_app. split_and!; try done. by constructor.
    + done.
  - destruct Hh as [?|Hh]; [done|]. split; [|split; [done|by rewrite app_nil_r]]. split; [|split|done].
    + apply (Hfit _ (queues k)); try done. cbn. rewrite !keys_app. cbn. change (key_of (with_wake cur w)) with (key_of cur). solve_Permutation.
    + cbn. rewrite !Forall_app. split_and!; try done. by constructor.
    + done.
  - destruct Hh as [?|Hh]; [done|]. split; [|split; [done|done]]. split; [|split|done].
    + apply (Hfit _ (queues k)); try done. apply keys_perm. cbn. solve_Permutation.
    + cbn. rewrite !Forall_app. split_and!; try done. by constructor.
    + done.
  - destruct Hh as [?|Hh]; [done|]. split; [|split; [done|by rewrite app_nil_r]]. split; [|split|done].
    + apply Hfit; try done. apply keys_perm. cbn. rewrite parked_insert. rewrite (parked_delete q (queues k)) at 1. solve_Permutation.
    + cbn. rewrite !Forall_app. split_and!; try done. rewrite parked_insert. rewrite (parked_delete q (queues k)) in Hb4.
      rewrite !Forall_app in *. split_and!; try tauto. by constructor.
    + done.
Qed.

(** It leaves the front of the ready queue as it is. *)
Lemma put_away_ready how cur k : ∃ k' extra, put_away how cur k = (Ok tt, k') ∧
  ready (SCHED k') = ready (SCHED k) ++ extra ∧ same_timer k k'.
Proof.
  unfold put_away. destruct how as [|w| |q]; [destruct (is_idle cur)| | |].
  2:{ by eexists _, [cur]. }
  all: eexists _, []; (split; [reflexivity|]); (split; [|done]); cbn; by rewrite app_nil_r.
Qed.

(** There is always a thread to run. *)
Lemma mid_pick k : mid [] k → current (SCHED k) = None →
  ∃ t k', pick_next k = (Ok t, k') ∧ mid [t] k' ∧ current (SCHED k') = None ∧ zombies (SCHED k') = zombies (SCHED k) ∧
    same_timer k k' ∧ match ready (SCHED k) with [] => is_idle t = true | u :: rest => t = u ∧ ready (SCHED k') = rest end.
Proof.
  intros [Hf [Hb Hi] Hk] Ec. unfold pick_next. destruct (ready (SCHED k)) as [|t rest] eqn:Er.
  - destruct (idle (SCHED k)) as [t|] eqn:Ei.
    + cbn [option_threads] in Hi; rewrite Forall_singleton in Hi. eexists t, _. split; [reflexivity|]. split; [|done]. split; [| |done].
      * apply (fits_perm (keys ([] ++ all_threads k)) _ (SCHED k)); [|done..]. apply keys_perm. unfold all_threads.
        cbn [app SCHED queues set_SCHED set_queues current ready sleeping idle zombies option_threads].
        rewrite Ec, Er, Ei. cbn [option_threads app]. rewrite <- !Permutation_middle. done.
      * split; [|constructor]. cbn [SCHED queues set_SCHED ready sleeping zombies] in *. done.
    + exfalso. pose proof (ft_idle _ _ Hf) as H. unfold all_threads in H. rewrite Ec, Er, Ei in H. cbn [app option_threads] in H.
      cbn [app] in Hb. assert (Hn : filter (λ x, key_idle x = true) (keys (sleeping (SCHED k) ++ zombies (SCHED k) ++ parked (queues k))) = []).
      { by apply busy_keys. }
      rewrite Hn in H. done.
  - eexists t, _. split; [reflexivity|]. split; [|split; [done|]].
    + split; [| |done].
      * apply (fits_perm (keys ([] ++ all_threads k)) _ (SCHED k)); [|done..]. apply keys_perm. unfold all_threads.
        cbn [app SCHED queues set_SCHED set_queues current ready sleeping idle zombies option_threads].
        rewrite Ec, Er. cbn [option_threads app]. done.
      * split; [|done]. cbn [SCHED queues set_SCHED ready sleeping zombies] in *. apply Forall_cons in Hb as [_ Hb]. done.
    + done.
Qed.

Lemma slot_range ks s slot : fits ks s → (∃ x, x ∈ ks ∧ key_slot x = Some slot) → 0 ≤ slot < MAX_SLOTS.
Proof.
  intros [_ _ Hs Hm _ _] (x & Hx & E). assert (Hin : slot ∈ seqZ 0 (next_slot s)).
  { rewrite <- Hs, elem_of_app. left. apply list_elem_of_omap. by exists x. }
  apply elem_of_seqZ in Hin. lia.
Qed.

Lemma slot_base_ok {E} slot : 0 ≤ slot < MAX_SLOTS → slot_base (E:=E) slot = Ok (STACK_REGION + slot * SLOT_SIZE).
Proof.
  unfold MAX_SLOTS. intros H. unfold slot_base. rewrite mul64_ok by (unfold SLOT_SIZE, u64_max; lia). cbn [res_bind].
  apply add64_ok. unfold STACK_REGION, SLOT_SIZE, u64_max. lia.
Qed.

Lemma mid_install t k : mid [t] k → current (SCHED k) = None →
  ∃ k', install t k = (Ok tt, k') ∧ mid [] k' ∧ current (SCHED k') = Some t ∧ on_cpu k' t ∧
    zombies (SCHED k') = zombies (SCHED k) ∧ ready (SCHED k') = ready (SCHED k) ∧ same_timer k k'.
Proof.
  intros [Hf Hp Hk] Ec.
  set (fin := λ k : KState,
    let want := match aspace t with Some a => a | None => KERNEL_CR3 (vst k) end in
    let k := if negb (want =? 0) && negb (want =? current_cr3 (vst k)) then set_vst k (snd (activate want (vst k))) else k in
    let s := SCHED k in
    set_SCHED k (mkSched (Some t) (ready s) (sleeping s) (idle s) (zombies s) (free_slots s) (next_slot s) (next_id s))).
  assert (Hfin : ∀ k1, SCHED k1 = SCHED k → queues k1 = queues k → vst k1 = vst k →
    (∀ slot, stack_slot t = Some slot → rsp0 k1 = STACK_REGION + slot * SLOT_SIZE + (1 + STACK_PAGES) * PAGE_SIZE) →
    mid [] (fin k1) ∧ current (SCHED (fin k1)) = Some t ∧ on_cpu (fin k1) t ∧
    zombies (SCHED (fin k1)) = zombies (SCHED k) ∧ ready (SCHED (fin k1)) = ready (SCHED k) ∧ same_timer k1 (fin k1)).
  { intros k1 Es Eq Ev Hr. unfold fin. set (want := match aspace t with Some a => a | None => _ end).
    assert (Hw : table_addr want).
    { unfold want. destruct (aspace t) as [a|] eqn:Ea; [|by rewrite Ev]. pose proof (ft_space _ _ Hf) as Hs.
      cbn [keys fmap list_fmap app] in Hs. apply Forall_cons in Hs as [Hs _]. by apply Hs. }
    destruct Hw as [Hw Hmask].
    rewrite (proj2 (Z.eqb_neq want 0)) by done. cbn [negb andb].
    set (k2 := if negb (want =? current_cr3 (vst k1)) then _ else _).
    assert (H2 : SCHED k2 = SCHED k ∧ queues k2 = queues k ∧ KERNEL_CR3 (vst k2) = KERNEL_CR3 (vst k) ∧ current_cr3 (vst k2) = want ∧ rsp0 k2 = rsp0 k1 ∧ same_timer k1 k2).
    { unfold k2. destruct (Z.eqb_spec want (current_cr3 (vst k1))) as [E|E]; cbn [negb]; [by rewrite Es, Eq, <- E, Ev|].
      by rewrite <- Es, <- Eq, <- Ev. }
    destruct H2 as (E1 & E2 & E3 & E4 & E5 & E6). clearbody k2. rewrite E1. split; [|split; [done|split; [|done]]].
    - split; [| |cbn; by rewrite E3].
      + apply (fits_perm (keys ([t] ++ all_threads k)) _ (SCHED k)); [|done..]. apply keys_perm. unfold all_threads.
        cbn [app SCHED queues set_SCHED current ready sleeping idle zombies option_threads]. by rewrite E2, Ec.
      + destruct Hp as [Hb Hi]. split; cbn [SCHED queues set_SCHED ready sleeping idle zombies]; by rewrite ?E2.
    - split; cbn [vst rsp0 set_SCHED]; [|by rewrite E3|by rewrite E5]. rewrite E4. unfold want, tables_of. cbn [vst set_SCHED].
      destruct (aspace t); [done|]. by rewrite E3, Ev. }
  unfold install. destruct (stack_slot t) as [slot|] eqn:Esl.
  - assert (Hsl : 0 ≤ slot < MAX_SLOTS).
    { eapply slot_range; [exact Hf|]. exists (key_of t). split; [by left|done]. }
    assert (Ein : (let! base := lift (slot_base slot) in
      let! top := lift (add64 base ((1 + STACK_PAGES) * PAGE_SIZE)) in
      modify (λ k, set_kernel_stack k top)) k =
      (Ok tt, set_kernel_stack k (STACK_REGION + slot * SLOT_SIZE + (1 + STACK_PAGES) * PAGE_SIZE))).
    { rewrite slot_base_ok by done. unfold lift, bind. rewrite add64_ok; [done|].
      unfold MAX_SLOTS, STACK_REGION, SLOT_SIZE, STACK_PAGES, PAGE_SIZE, u64_max in *. lia. }
    rewrite (bind_ok _ _ _ _ _ Ein). eexists. split; [reflexivity|]. apply Hfin; try done. intros s' [= <-]. done.
  - rewrite (bind_ok (ret tt) _ k tt k eq_refl). eexists. split; [reflexivity|]. by apply Hfin.
Qed.

(** ** Reaping *)
Definition with_free (s : Sched) (fs : list Z) : Sched :=
  mkSched (current s) (ready s) (sleeping s) (idle s) (zombies s) fs (next_slot s) (next_id s).

Lemma free_thread_spec t k k' : free_thread t k = (Ok tt, k') →
  ∃ p, k' = set_vst (set_SCHED k (with_free (SCHED k) (free_slots (SCHED k) ++ slots [t]))) (set_pst (vst k) p).
Proof.
  unfold free_thread, slots. cbn [omap list_omap]. set (fin := match aspace t with Some a => _ | None => _ end).
  assert (Hfin : mem_only fin) by (unfold fin; destruct (aspace t); auto with memory).
  destruct (stack_slot t) as [slot|].
  - unfold bind at 1 2. destruct (lift (slot_base slot) k) as [r1 k1] eqn:E1. destruct (mem_lift _ _ _ _ E1) as [p1 ->].
    destruct r1 as [base| | |]; try done. unfold bind at 1.
    destruct (unmap_stack base STACK_PAGES _) as [r2 k2] eqn:E2. destruct (mem_unmap_stack _ _ _ _ _ E2) as [p2 ->].
    destruct r2 as [[]| | |]; try done. unfold give_slot, modify_sched, modify. intros E3.
    destruct (Hfin _ _ _ E3) as [p3 ->]. exists p3. done.
  - rewrite (bind_ok (ret tt) _ k tt k eq_refl). intros E. destruct (Hfin _ _ _ E) as [p ->]. exists p.
    rewrite app_nil_r. by destruct k as [[]].
Qed.

Lemma finish_switch_spec k k' : finish_switch k = (Ok tt, k') → let s := SCHED k in
  ∃ p, k' = set_vst (set_SCHED k (mkSched (current s) (ready s) (sleeping s) (idle s) []
    (free_slots s ++ slots (zombies s)) (next_slot s) (next_id s))) (set_pst (vst k) p).
Proof.
  cbv zeta. unfold finish_switch. set (k1 := set_SCHED k _).
  assert (Hl : ∀ l k1 k', mfor l free_thread k1 = (Ok tt, k') →
    ∃ p, k' = set_vst (set_SCHED k1 (with_free (SCHED k1) (free_slots (SCHED k1) ++ slots l))) (set_pst (vst k1) p)).
  { clear. induction l as [|t l IH]; intros k k'.
    - intros [= <-]. exists (pst (vst k)). rewrite app_nil_r. by destruct k as [[] ? ? ? ? ? ? ? ? []].
    - cbn [mfor]. unfold bind. destruct (free_thread t k) as [r1 k1] eqn:E1. destruct r1 as [[]| | |]; try done.
      destruct (free_thread_spec t k k1 E1) as [p ->]. intros E2. destruct (IH _ _ E2) as [p' ->]. exists p'.
      cbn [SCHED set_vst set_SCHED with_free free_slots current ready sleeping idle zombies next_slot next_id vst queues
           READY SLICE_TICKS NEED_RESCHED PREEMPTIONS TICKS HZ rsp0].
      change (t :: l) with ([t] ++ l). unfold slots. rewrite omap_app, app_assoc. done. }
  intros E. destruct (Hl _ _ _ E) as [p ->]. exists p. done.
Qed.

Lemma slots_keys l : omap key_slot (keys l) = slots l.
Proof. unfold slots, keys. induction l as [|t l IH]; [done|]. cbn. by rewrite IH. Qed.

(** ** A whole switch *)
Lemma fits_reap ks zs s fs' : fits (keys zs ++ ks) s → Forall (λ t, is_idle t = false) zs →
  fs' = free_slots s ++ slots zs →
  fits ks (mkSched (current s) (ready s) (sleeping s) (idle s) [] fs' (next_slot s) (next_id s)).
Proof.
  intros [H1 H2 H3 H4 H5 H6] Hz ->. rewrite fmap_app in H1. apply NoDup_app in H1 as (_ & _ & H1).
  apply Forall_app in H2 as [_ H2]. apply Forall_app in H5 as [_ H5]. rewrite filter_app, (busy_keys zs Hz) in H6.
  split; cbn [free_slots next_slot next_id]; try done. rewrite omap_app, slots_keys in H3. rewrite <- H3. solve_Permutation.
Qed.

(** What a switch does: the thread that was first runs, the others move up. *)
Record switched (k k' : KState) : Prop := {
  sw_inv : sched_inv k';
  sw_head : ∀ t rest, ready (SCHED k) = t :: rest →
    current (SCHED k') = Some t ∧ ∃ extra, ready (SCHED k') = rest ++ extra;
  sw_time : TICKS k' = TICKS k ∧ HZ k' = HZ k ∧ READY k' = READY k;
  sw_slice : SLICE_TICKS k' = 0
}.

(** Up to reaping, a switch always succeeds. *)
Lemma reschedule_parts how k :
  sched_inv k → how = Yield ∨ (∀ cur, current (SCHED k) = Some cur → is_idle cur = false) →
  (∃ r, wake_sleepers (set_slice k 0 false) = r ∧ (fst r ≠ Ok tt) ∧ reschedule how k = r) ∨
  ∃ cur next k4, current (SCHED k) = Some cur ∧
    reschedule how k = (if id cur =? id next then (Ok tt, k4) else finish_switch k4) ∧
    mid [] k4 ∧ current (SCHED k4) = Some next ∧ on_cpu k4 next ∧
    zombies (SCHED k4) = (match how with Exit => [cur] | _ => [] end) ∧
    (∀ t rest, ready (SCHED k) = t :: rest → next = t ∧ ∃ extra, ready (SCHED k4) = rest ++ extra) ∧
    same_timer (set_slice k 0 false) k4.
Proof.
  intros [Hf Hp Hz (cur & Ec & Hc)] Hh. unfold reschedule.
  rewrite !(bind_ok (modify _) _ k tt (set_slice k 0 false) eq_refl). set (k0 := set_slice k 0 false).
  assert (M0 : mid [] k0) by (split; [done|destruct Hp; by split|apply Hc]).
  destruct (wake_sleepers k0) as [r1 k1] eqn:E1. destruct r1 as [[]| | |].
  2-4: left; eexists; split; [reflexivity|]; split; [done|]; unfold bind at 1; by rewrite E1.
  right. destruct (mid_wake [] k0 k1 M0 E1) as (M1 & Ec1 & Ez1).
  destruct (wake_sleepers_spec k0 k1 E1) as (due & slp & _ & Ek1 & _).
  rewrite (bind_ok _ _ _ _ _ E1), (bind_ok get _ k1 k1 k1 eq_refl). rewrite Ec1. change (current (SCHED k0)) with (current (SCHED k)).
  rewrite Ec. assert (Ec1' : current (SCHED k1) = Some cur) by (by rewrite Ec1).
  assert (Hh1 : how = Yield ∨ is_idle cur = false) by (destruct Hh as [?|H]; [by left|right; by apply H]).
  destruct (put_away_ready how cur k1) as (k2 & extra & E2 & Er2 & T2). rewrite (bind_ok _ _ _ _ _ E2).
  destruct (mid_put_away how cur k1 k2 M1 Ec1' Hh1 E2) as (M2 & Ec2 & Ez2).
  destruct (mid_pick k2 M2 Ec2) as (next & k3 & E3 & M3 & Ec3 & Ez3 & T3 & Hhead). rewrite (bind_ok _ _ _ _ _ E3).
  destruct (mid_install next k3 M3 Ec3) as (k4 & E4 & M4 & Ec4 & Hc4 & Ez4 & Er4 & T4). rewrite (bind_ok _ _ _ _ _ E4).
  exists cur, next, k4. split; [done|]. split; [by destruct (id cur =? id next)|]. split; [done|]. split; [done|].
  split; [done|]. split; [rewrite Ez4, Ez3, Ez2, Ez1; change (zombies (SCHED k0)) with (zombies (SCHED k)); by rewrite Hz|]. split.
  - intros t rest Ht. assert (Hr2 : ready (SCHED k2) = t :: (rest ++ due) ++ extra) by (rewrite Er2, Ek1; cbn; by rewrite Ht).
    rewrite Hr2 in Hhead. destruct Hhead as [-> Er3]. split; [done|]. rewrite Er4, Er3, <- app_assoc. by eexists.
  - eapply same_timer_trans; [|eapply same_timer_trans; [exact T2|eapply same_timer_trans; [exact T3|exact T4]]]. by rewrite Ek1.
Qed.

Lemma reschedule_inv how k k' :
  sched_inv k → how = Yield ∨ (∀ cur, current (SCHED k) = Some cur → is_idle cur = false) →
  reschedule how k = (Ok tt, k') → switched k k'.
Proof.
  intros Hinv Hh E. destruct (reschedule_parts how k Hinv Hh) as [(r & _ & Hr & E')|(cur & next & k4 & Ec & E' & M4 & Ec4 & Hc4 & Hz4 & Hr4 & T4)];
    rewrite E in E'; [by subst r|]. destruct M4 as [Hf4 Hp4 Hk4]. destruct T4 as (T1 & T2 & T3 & T5 & _).
  destruct (Z.eqb_spec (id cur) (id next)) as [Eid|Eid].
  - injection E' as ->. split; [|intros t rest Ht; destruct (Hr4 t rest Ht) as [-> ?]; done|done|done].
    split; [done|done| |by exists next].
    rewrite Hz4. destruct how; try done. exfalso. pose proof (ft_ids _ _ Hf4) as Hnd.
    assert (Hperm : keys ([] ++ all_threads k4) ≡ₚ keys (next :: cur :: ready (SCHED k4) ++ sleeping (SCHED k4) ++
      option_threads (idle (SCHED k4)) ++ parked (queues k4))).
    { apply keys_perm. unfold all_threads. rewrite Ec4, Hz4. cbn [option_threads app]. solve_Permutation. }
    rewrite Hperm in Hnd. cbn [keys fmap list_fmap] in Hnd. apply NoDup_cons in Hnd as [Hn _]. apply Hn. cbn [key_id key_of].
    rewrite Eid. by left.
  - symmetry in E'. destruct (finish_switch_spec k4 k' E') as [p ->]. split; [|intros t rest Ht; destruct (Hr4 t rest Ht) as [-> ?]; done|done|done].
    split.
    + apply (fits_reap _ (zombies (SCHED k4)) (SCHED k4)); [|destruct Hp4 as [Hb _]; rewrite !Forall_app in Hb; tauto|done].
      rewrite <- keys_app. apply (fits_perm (keys ([] ++ all_threads k4)) _ (SCHED k4)); [|done..]. apply keys_perm.
      unfold all_threads. cbn [app SCHED queues set_SCHED set_vst current ready sleeping idle zombies option_threads]. solve_Permutation.
    + destruct Hp4 as [Hb Hi]. split; [|done]. cbn [SCHED queues set_SCHED set_vst ready sleeping zombies]. rewrite !Forall_app in *.
      split_and!; [tauto..|constructor|tauto].
    + done.
    + exists next. split; [done|]. destruct Hc4 as [H1 H2 H3]. by split.
Qed.

(** A thread that yields, sleeps or waits is always switched away from. *)
Lemma reschedule_total how k :
  sched_inv k → how = Yield ∨ (∀ cur, current (SCHED k) = Some cur → is_idle cur = false) → how ≠ Exit →
  0 ≤ TICKS k → TICKS k * 1000 ≤ u64_max → ∃ k', reschedule how k = (Ok tt, k').
Proof.
  intros Hinv Hh Hne Ht0 Ht. destruct (reschedule_parts how k Hinv Hh) as [(r & Er & Hr & _)|(cur & next & k4 & _ & E & _ & _ & _ & Hz & _)].
  - exfalso. apply Hr. rewrite <- Er. unfold wake_sleepers. case_bool_decide; [done|]. unfold bind, uptime_ms. cbn [HZ TICKS set_slice].
    destruct (HZ k =? 0); [done|]. by rewrite mul64_ok.
  - rewrite E. destruct (id cur =? id next); [by eexists|]. unfold finish_switch. rewrite Hz. destruct how; try done; by eexists.
Qed.

(** ** New threads *)

(** Slots and numbers, with the rest of the table as it is. *)
Definition with_slots (s : Sched) (fs : list Z) (ns ni : Z) : Sched :=
  mkSched (current s) (ready s) (sleeping s) (idle s) (zombies s) fs ns ni.

(** The slots of threads and the free ones account for all slots. *)
Definition accounts (used : list Z) (s : Sched) : Prop :=
  used ++ free_slots s ≡ₚ seqZ 0 (next_slot s) ∧ 0 ≤ next_slot s ≤ MAX_SLOTS.

Lemma take_slot_spec k r k' : take_slot k = (Ok r, k') → let s := SCHED k in
  match r with
  | None => k' = k
  | Some (slot, tid) => ∃ fs ns, k' = set_SCHED k (with_slots s fs ns (next_id s + 1)) ∧ tid = next_id s ∧
      ∀ used, accounts used s → accounts (slot :: used) (with_slots s fs ns (next_id s + 1))
  end.
Proof.
  cbv zeta. unfold take_slot, bind at 1, pop_slot. destruct (last (free_slots (SCHED k))) as [i|] eqn:El.
  - rewrite (bind_ok get _ _ _ _ eq_refl). unfold bind at 1, lift at 1.
    destruct (add64 _ 1) as [n| | |] eqn:Ea; try done. intros [= <- <-].
    unfold add64 in Ea. destruct (checked_add _ _) eqn:Ec; [|done]. injection Ea as ->. apply checked_add_inv in Ec as [-> _].
    eexists _, _. split; [reflexivity|]. split; [done|]. intros used [Hp Hm]. split; [|done].
    apply last_Some in El as [l' El]. cbn [with_slots free_slots next_slot]. rewrite <- Hp, El.
    rewrite length_app. cbn [length]. replace (length l' + 1 - 1)%nat with (length l') by lia. rewrite take_app_length. solve_Permutation.
  - apply last_None in El. destruct (Z.ltb_spec (next_slot (SCHED k)) MAX_SLOTS) as [Hlt|]; [|by intros [= <- <-]].
    rewrite (bind_ok get _ _ _ _ eq_refl). unfold bind at 1, lift at 1.
    destruct (add64 _ 1) as [n| | |] eqn:Ea; try done. intros [= <- <-].
    unfold add64 in Ea. destruct (checked_add _ _) eqn:Ec; [|done]. injection Ea as ->. apply checked_add_inv in Ec as [-> _].
    eexists _, _. split; [reflexivity|]. split; [done|]. intros used [Hp Hm]. split; cbn [with_slots free_slots next_slot]; [|lia].
    rewrite El, app_nil_r in *. rewrite seqZ_app, <- Hp by lia. change (seqZ (0 + next_slot (SCHED k)) 1) with [next_slot (SCHED k)]. solve_Permutation.
Qed.

Lemma create_thread_spec tramp nm entry b k r k' : create_thread tramp nm entry b k = (Ok r, k') → let s := SCHED k in
  ∃ p fs ns ni, k' = set_vst (set_SCHED k (with_slots s fs ns ni)) (set_pst (vst k) p) ∧ next_id s ≤ ni ∧
    match r with
    | None => ∀ used, accounts used s → accounts used (with_slots s fs ns ni)
    | Some t => ∃ slot, key_of t = mkKey (next_id s) (Some slot) None b ∧ ni = next_id s + 1 ∧
        ∀ used, accounts used s → accounts (slot :: used) (with_slots s fs ns ni)
    end.
Proof.
  cbv zeta. unfold create_thread, bind at 1. destruct (take_slot k) as [r1 k1] eqn:E1. destruct r1 as [o| | |]; try done.
  pose proof (take_slot_spec k o k1 E1) as Hs. cbv zeta in Hs. destruct o as [[slot tid]|].
  2:{ intros [= <- <-]. subst k1. exists (pst (vst k)), (free_slots (SCHED k)), (next_slot (SCHED k)), (next_id (SCHED k)).
      split; [by destruct k as [[] ? ? ? ? ? ? ? ? []]|]. split; [lia|]. done. }
  destruct Hs as (fs & ns & -> & -> & Hacc). set (k1 := set_SCHED k _). unfold bind at 1.
  destruct (lift (slot_base slot) k1) as [r2 k2] eqn:E2. destruct (mem_lift _ _ _ _ E2) as [p2 ->]. destruct r2 as [base| | |]; try done.
  unfold bind at 1. destruct (map_stack _ base 0 _) as [r3 k3] eqn:E3. destruct (mem_map_stack _ _ _ _ _ _ E3) as [p3 ->].
  destruct r3 as [ok| | |]; try done. destruct ok; cbn [negb].
  - set (rest := bind _ _). intros E4.
    assert (Hrest : mem_only rest).
    { unfold rest. repeat (apply mem_bind; [auto with memory|intros ?]). auto with memory. }
    destruct (Hrest _ _ _ E4) as [p4 ->]. exists p4, fs, ns, (next_id (SCHED k) + 1).
    split; [done|]. split; [lia|]. unfold rest in E4. clear Hrest rest. revert E4.
    unfold bind at 1, lift at 1. destruct (add64 base _); try done. unfold bind at 1, lift at 1. destruct (sub64 _ _) as [sp| | |]; try done.
    unfold bind at 1. destruct (mfor _ _ _) as [[[]| | |] k5]; try done.
    unfold bind at 1. destruct (write_virt _ entry _) as [[[]| | |] k6]; try done.
    unfold bind at 1. destruct (write_virt _ tramp _) as [[[]| | |] k7]; try done.
    intros [= <- _]. exists slot. done.
  - unfold give_slot, modify_sched, modify, bind. intros [= <- <-].
    eexists p3, _, _, (next_id (SCHED k) + 1). split; [reflexivity|]. split; [lia|].
    intros used H%Hacc. destruct H as [Hp Hm]. split; [|done]. cbn [with_slots free_slots next_slot SCHED set_vst set_SCHED k1] in *.
    rewrite <- Hp. solve_Permutation.
Qed.
