(* ===== verification/SchedRuns.v ===== *)
(** * Runs of the scheduler

    From boot, through any sequence of operations, the thread table stays
    consistent and a switch never finds it without a thread to run; and no
    thread that is ready waits for longer than its place in the queue says. *)
From Stdlib Require Import String.
From stdpp Require Import base numbers list gmap sets.
From Stdlib Require Import ZArith Lia Bool.
From S2P Require Import Prelude Bytes Str Mem Pmm Vmm Scheduler SchedInv.
Import Vmm Scheduler.

(** ** Operations *)
Inductive op :=
  | OpYield
  | OpSleep (ms : Z)
  | OpExit
  | OpWait (queue : Z)
  | OpWakeOne (queue : Z)
  | OpWakeAll (queue : Z)
  | OpSpawn (nm : list Z) (entry : Z)
  | OpSpawnUser (nm : list Z) (space entry sp : Z)
  | OpTimer.

Section Runs.
Context (thread_trampoline idle_main user_thread_main : Z).

Definition exec (o : op) : M KState Empty_set unit :=
  match o with
  | OpYield => yield_now
  | OpSleep ms => sleep_ms ms
  | OpExit => exit
  | OpWait q => wait q
  | OpWakeOne q => ignore (wake_one q)
  | OpWakeAll q => wake_all q
  | OpSpawn nm entry => ignore (spawn thread_trampoline nm entry)
  | OpSpawnUser nm a entry sp => ignore (spawn_user thread_trampoline user_thread_main nm a entry sp)
  | OpTimer => timer_irq
  end.

(** The idle thread only yields and is only interrupted; a process brings the
    top table of its own address space. *)
Definition busy (k : KState) : Prop := ∀ cur, current (SCHED k) = Some cur → is_idle cur = false.
Definition allowed (k : KState) (o : op) : Prop :=
  match o with
  | OpSleep _ | OpExit | OpWait _ => busy k
  | OpSpawnUser _ a _ _ => table_addr a
  | _ => True
  end.

(** ** Operations that switch, and operations that do not *)

(** The table grows at the end of the ready queue, at most. *)
Record grown (k k' : KState) : Prop := {
  gr_inv : sched_inv k';
  gr_ready : ∃ extra, ready (SCHED k') = ready (SCHED k) ++ extra;
  gr_timer : same_timer k k'
}.

Lemma grown_refl k : sched_inv k → grown k k.
Proof. intros H. split; [done|exists []; by rewrite app_nil_r|done]. Qed.

(** The table with one more thread that is ready. *)
Definition push (t : Thread) (s : Sched) : Sched :=
  mkSched (current s) (ready s ++ [t]) (sleeping s) (idle s) (zombies s) (free_slots s) (next_slot s) (next_id s).

(** A thread taken from a wait queue. *)
Lemma wake_one_grown k q t rest : sched_inv k → waiters k q = t :: rest →
  grown k (set_SCHED (set_queues k (<[q := rest]> (queues k))) (push t (SCHED k))).
Proof.
  intros [Hf [Hb Hi] Hz (cur & Ec & Hc)] Hw. pose proof (parked_delete q (queues k)) as Hd.
  unfold waiters in Hw. rewrite Hw in Hd. split; [|by exists [t]|done]. split.
  - apply (fits_perm (keys (all_threads k)) _ (SCHED k)); [|done..]. apply keys_perm. unfold all_threads.
    cbn [SCHED queues set_SCHED set_queues push current ready sleeping idle zombies]. rewrite parked_insert, Hd. solve_Permutation.
  - split; [|done]. cbn [SCHED queues set_SCHED set_queues push ready sleeping zombies]. rewrite Hd in Hb. rewrite parked_insert.
    rewrite !Forall_app in *. rewrite Forall_cons in Hb. split_and!; try tauto. constructor; [tauto|constructor].
  - done.
  - exists cur. split; [done|]. destruct Hc as [H1 H2 H3]. by split.
Qed.

Lemma push_all l k : mfor l push_ready k = (Ok tt, set_SCHED k
  (mkSched (current (SCHED k)) (ready (SCHED k) ++ l) (sleeping (SCHED k)) (idle (SCHED k)) (zombies (SCHED k))
    (free_slots (SCHED k)) (next_slot (SCHED k)) (next_id (SCHED k)))).
Proof.
  revert k. induction l as [|t l IH]; intros k; cbn [mfor].
  - rewrite app_nil_r. by destruct k as [[]].
  - unfold bind, push_ready at 1, modify_sched, modify. rewrite IH. cbn [SCHED set_SCHED current ready sleeping idle zombies free_slots next_slot next_id].
    by rewrite <- app_assoc.
Qed.

Lemma wake_all_grown k q k' : sched_inv k → wake_all q k = (Ok tt, k') → grown k k'.
Proof.
  intros [Hf [Hb Hi] Hz (cur & Ec & Hc)]. unfold wake_all. set (k1 := set_queues k _).
  pose proof (parked_delete q (queues k)) as Hd. fold (waiters k q) in Hd. intros E.
  assert (Ek : k' = set_SCHED k1 (mkSched (current (SCHED k)) (ready (SCHED k) ++ waiters k q) (sleeping (SCHED k)) (idle (SCHED k))
    (zombies (SCHED k)) (free_slots (SCHED k)) (next_slot (SCHED k)) (next_id (SCHED k)))).
  { destruct (waiters k q) as [|t l]; [|rewrite push_all in E; by injection E as <-].
    injection E as <-. rewrite app_nil_r. by destruct k as [[]]. }
  clear E. subst k'. split; [|by eexists|done]. split.
  - apply (fits_perm (keys (all_threads k)) _ (SCHED k)); [|done..]. apply keys_perm. unfold all_threads, k1.
    cbn [SCHED queues set_SCHED set_queues current ready sleeping idle zombies]. rewrite parked_insert, Hd. solve_Permutation.
  - split; [|done]. unfold k1. cbn [SCHED queues set_SCHED set_queues ready sleeping zombies]. rewrite Hd in Hb. rewrite parked_insert.
    rewrite !Forall_app in *. split_and!; try tauto; constructor.
  - done.
  - exists cur. split; [done|]. destruct Hc as [H1 H2 H3]. by split.
Qed.

(** A new thread: its number and its slot are its own. *)
Lemma fits_new k t slot fs ns b :
  fits (keys (all_threads k)) (SCHED k) → key_of t = mkKey (next_id (SCHED k)) (Some slot) (aspace t) b → b = false →
  (∀ a, aspace t = Some a → table_addr a) →
  (∀ used, accounts used (SCHED k) → accounts (slot :: used) (with_slots (SCHED k) fs ns (next_id (SCHED k) + 1))) →
  0 ≤ next_id (SCHED k) → fits (key_of t :: keys (all_threads k)) (with_slots (SCHED k) fs ns (next_id (SCHED k) + 1)).
Proof.
  intros [H1 H2 H3 H4 H5 H6] Et Hb Ha Hacc H0. destruct (Hacc _ (conj H3 H4)) as [Hp Hm].
  rewrite Et in *. split; cbn [fmap list_fmap key_id key_space key_idle next_id with_slots next_slot] in *.
  - apply NoDup_cons. split; [|done]. intros Hin. apply list_elem_of_fmap in Hin as (x & Ex & Hx).
    rewrite Forall_forall in H2. specialize (H2 x Hx). lia.
  - constructor; [cbn; lia|]. eapply Forall_impl; [exact H2|]. cbn. intros; lia.
  - done.
  - done.
  - constructor; [exact Ha|done].
  - rewrite filter_cons_False; [done|]. by rewrite Hb.
Qed.

Lemma next_id_pos ks s : fits ks s → 0 ≤ next_id s.
Proof.
  intros [_ H2 _ _ _ H6]. destruct ks as [|x ks]; [done|]. apply Forall_cons in H2 as [H2 _]. lia.
Qed.

Lemma spawned_grown k t slot fs ns ni p : sched_inv k → is_idle t = false →
  key_of t = mkKey (next_id (SCHED k)) (Some slot) (aspace t) false → (∀ a, aspace t = Some a → table_addr a) →
  ni = next_id (SCHED k) + 1 →
  (∀ used, accounts used (SCHED k) → accounts (slot :: used) (with_slots (SCHED k) fs ns ni)) →
  grown k (set_SCHED (set_vst (set_SCHED k (with_slots (SCHED k) fs ns ni)) (set_pst (vst k) p)) (push t (with_slots (SCHED k) fs ns ni))).
Proof.
  intros [Hf [Hb Hi] Hz (cur & Ec & Hc)] Hidle Et Ha -> Hacc. split; [|by eexists|done]. split.
  - pose proof (fits_new k t slot fs ns false Hf Et eq_refl Ha Hacc (next_id_pos _ _ Hf)) as Hn.
    apply (fits_perm (key_of t :: keys (all_threads k)) _ (with_slots (SCHED k) fs ns (next_id (SCHED k) + 1))); [|done..].
    change (key_of t :: keys (all_threads k)) with (keys (t :: all_threads k)). apply keys_perm. unfold all_threads.
    cbn [SCHED queues set_SCHED set_vst push with_slots current ready sleeping idle zombies]. solve_Permutation.
  - split; [|done]. cbn [SCHED queues set_SCHED set_vst push with_slots ready sleeping zombies]. rewrite !Forall_app in *.
    split_and!; try tauto. by constructor.
  - done.
  - exists cur. split; [done|]. destruct Hc as [H1 H2 H3]. by split.
Qed.

Lemma refused_grown k fs ns ni p : sched_inv k → next_id (SCHED k) ≤ ni →
  (∀ used, accounts used (SCHED k) → accounts used (with_slots (SCHED k) fs ns ni)) →
  grown k (set_vst (set_SCHED k (with_slots (SCHED k) fs ns ni)) (set_pst (vst k) p)).
Proof.
  intros [Hf [Hb Hi] Hz (cur & Ec & Hc)] Hni Hacc. split; [|exists []; cbn; by rewrite app_nil_r|done].
  destruct Hf as [H1 H2 H3 H4 H5 H6]. destruct (Hacc _ (conj H3 H4)) as [Hp Hm]. split; [|done|done|].
  - split; try done. eapply Forall_impl; [exact H2|]. cbn. intros x Hx. lia.
  - exists cur. split; [done|]. destruct Hc as [C1 C2 C3]. by split.
Qed.

Lemma spawn_grown k nm entry k' : sched_inv k → ignore (E':=Empty_set) (spawn thread_trampoline nm entry) k = (Ok tt, k') → grown k k'.
Proof.
  intros Hinv. unfold ignore, spawn. unfold bind at 1. destruct (create_thread _ nm entry false k) as [r k1] eqn:E.
  destruct r as [o|[]| |]; try done. destruct (create_thread_spec _ _ _ _ _ _ _ E) as (p & fs & ns & ni & -> & Hni & Ho).
  destruct o as [t|].
  - destruct Ho as (slot & Et & En & Hacc). intros [= <-]. injection Et as E1 E2 E3 E4.
    apply (spawned_grown k t slot fs ns ni p); try done; [unfold key_of; by rewrite E1, E2, E4|by rewrite E3].
  - intros [= <-]. by apply refused_grown.
Qed.

Lemma spawn_user_grown k nm a entry sp k' : sched_inv k → table_addr a →
  ignore (E':=Empty_set) (spawn_user thread_trampoline user_thread_main nm a entry sp) k = (Ok tt, k') → grown k k'.
Proof.
  intros Hinv Ha. unfold ignore, spawn_user. unfold bind at 1. destruct (create_thread _ nm _ false k) as [r k1] eqn:E.
  destruct r as [o|[]| |]; try done. destruct (create_thread_spec _ _ _ _ _ _ _ E) as (p & fs & ns & ni & -> & Hni & Ho).
  destruct o as [t|].
  - destruct Ho as (slot & Et & En & Hacc). intros [= <-]. injection Et as E1 E2 E3 E4.
    apply (spawned_grown k (mkThread (id t) (name t) (rsp t) (stack_slot t) (wake_at t) (is_idle t) (Some a) entry sp) slot fs ns ni p); try done.
    + unfold key_of. cbn. by rewrite E1, E2, E4.
    + cbn. by intros ? [= <-].
  - unfold bind. set (k1 := set_vst _ _). destruct (on_frames (free_user_half a) k1) as [r2 k2] eqn:E2.
    destruct (mem_on_frames _ _ _ _ E2) as [p2 ->]. destruct r2 as [[]|[]| |]; try done. intros [= <-].
    by apply (refused_grown k fs ns ni p2).
Qed.

(** ** The timer *)
Definition slice_ticks (k : KState) : Z := Z.max (HZ k * TIME_SLICE_MS / 1000) 1.

(** The scheduler is up. *)
Record live (k : KState) : Prop := {
  lv_inv : sched_inv k;
  lv_ready : READY k = true;
  lv_slice : 0 ≤ SLICE_TICKS k
}.

Lemma timed_inv k ticks slice need n : sched_inv k → sched_inv (set_preemptions (set_slice (set_time k ticks (HZ k)) slice need) n).
Proof. intros [H1 [H2 H3] H4 (cur & Ec & [C1 C2 C3])]. split; [done|by split|done|]. exists cur. by split. Qed.

(** One more tick; the flag goes up at the end of the slice if a thread waits. *)
Lemma tick_spec k k' : live k → on_tick k = (Ok tt, k') →
  ∃ need, k' = set_slice (set_time k (wrap64 (TICKS k + 1)) (HZ k)) (SLICE_TICKS k + 1) need ∧
    (slice_ticks k ≤ SLICE_TICKS k + 1 → ready (SCHED k) ≠ [] → need = true).
Proof.
  intros [_ Hr Hs]. unfold on_tick. rewrite (bind_ok (modify _) _ k tt (set_time k (wrap64 (TICKS k + 1)) (HZ k)) eq_refl).
  set (k1 := set_time k _ _). unfold tick. rewrite (bind_ok get _ k1 k1 k1 eq_refl). change (READY k1) with (READY k). rewrite Hr. cbn [negb].
  rewrite (bind_ok (modify _) _ k1 tt (set_slice k1 (wrap64 (SLICE_TICKS k1 + 1)) (NEED_RESCHED k1)) eq_refl).
  set (k2 := set_slice k1 _ _). change (SLICE_TICKS k1) with (SLICE_TICKS k) in *.
  unfold bind at 1, lift at 1. destruct (add64 (SLICE_TICKS k) 1) as [used| | |] eqn:Ea; try done.
  unfold add64 in Ea. destruct (checked_add _ _) eqn:Ec; [|done]. injection Ea as ->. apply checked_add_inv in Ec as [-> Hu].
  assert (Hw : wrap64 (SLICE_TICKS k + 1) = SLICE_TICKS k + 1) by (apply Z.mod_small; unfold u64_max in Hu; lia).
  unfold bind at 1, lift at 1. change (HZ k1) with (HZ k). destruct (mul64 (HZ k) TIME_SLICE_MS) as [m| | |] eqn:Em; try done.
  unfold mul64 in Em. destruct (checked_mul _ _) eqn:Ec; [|done]. injection Em as ->. apply checked_mul_inv in Ec as [-> _].
  assert (Hup : snd (uptime_ms k2) = k2) by (unfold uptime_ms; by destruct (HZ k2 =? 0)).
  unfold bind at 1. destruct (uptime_ms k2) as [r k3]. cbn [snd] in Hup. subst k3. destruct r as [now| | |]; try done.
  rewrite (bind_ok get _ k2 k2 k2 eq_refl). fold (slice_ticks k).
  assert (E2 : k2 = set_slice k1 (SLICE_TICKS k + 1) (NEED_RESCHED k)) by (unfold k2; by rewrite Hw).
  destruct (existsb _ _ || _) eqn:Ed; intros [= <-].
  - exists true. split; [|done]. rewrite E2, Hw. done.
  - exists (NEED_RESCHED k). split; [exact E2|]. intros Hle Hne. apply orb_false_iff in Ed as [_ Ed].
    rewrite (proj2 (Z.leb_le _ _)) in Ed by done. cbn [andb] in Ed. apply negb_false_iff, bool_decide_eq_true in Ed. done.
Qed.

(** ** What one operation does to a thread that waits *)

(** How many timer interrupts a thread at place [i] can still be kept waiting. *)
Definition patience (i : nat) (k : KState) : Z :=
  Z.of_nat i * slice_ticks k + Z.max 1 (slice_ticks k - SLICE_TICKS k).

Definition timers (o : op) : Z := match o with OpTimer => 1 | _ => 0 end.

Record progressed (o : op) (k k' : KState) : Prop := {
  pr_live : live k';
  pr_hz : HZ k' = HZ k;
  pr_wait : ∀ i t, ready (SCHED k) !! i = Some t →
    current (SCHED k') = Some t ∨ ∃ j, ready (SCHED k') !! j = Some t ∧ patience j k' + timers o ≤ patience i k
}.

Lemma grown_progressed o k k' : live k → timers o = 0 → grown k k' → progressed o k k'.
Proof.
  intros [_ Hr Hs] Ho [Hi [extra He] (T1 & T2 & T3 & T4 & T5)]. split; [split; [done|congruence|congruence]|done|].
  intros i t Ht. right. exists i. split; [rewrite He; by apply lookup_app_l_Some|].
  unfold patience, slice_ticks. rewrite T2, T4, Ho. lia.
Qed.

Lemma switched_progressed o k k0 k' : live k → HZ k0 = HZ k → READY k0 = READY k → SCHED k0 = SCHED k → timers o ≤ 1 →
  switched k0 k' → progressed o k k'.
Proof.
  intros [_ Hr Hs] Eh Er Es Ho [Hi Hh (T1 & T2 & T3) T4]. split; [split; [done|congruence|rewrite T4; lia]|congruence|].
  intros i t Ht. rewrite Es in Hh. destruct (ready (SCHED k)) as [|u rest] eqn:E; [done|].
  destruct (Hh u rest eq_refl) as [Hc [extra He]]. destruct i as [|i]; [left; injection Ht as ->; done|right].
  exists i. split; [rewrite He; by apply lookup_app_l_Some|]. unfold patience, slice_ticks. rewrite T2, Eh, T4.
  rewrite Nat2Z.inj_succ. lia.
Qed.

Lemma exec_progressed o k k' : live k → allowed k o → exec o k = (Ok tt, k') → progressed o k k'.
Proof.
  intros Hl Ha. pose proof Hl as [Hinv Hr Hs].
  assert (Hsw : ∀ how, timers o = 0 → how = Yield ∨ busy k → reschedule how k = (Ok tt, k') → progressed o k k').
  { intros how Ho Hh E. apply (switched_progressed o k k); try done; [lia|]. by apply (reschedule_inv how k). }
  destruct o as [|ms| |q|q|q|nm entry|nm a entry sp|]; cbn [exec allowed] in *.
  - unfold yield_now. rewrite (bind_ok get _ k k k eq_refl), Hr. apply Hsw; [done|by left].
  - unfold sleep_ms. rewrite (bind_ok get _ k k k eq_refl), Hr. cbn [negb].
    assert (Hup : snd (uptime_ms k) = k) by (unfold uptime_ms; by destruct (HZ k =? 0)).
    unfold bind at 1. destruct (uptime_ms k) as [r k3]. cbn [snd] in Hup. subst k3. destruct r as [now| | |]; try done.
    unfold bind at 1, lift. destruct (add64 now ms) as [w| | |]; try done. apply Hsw; [done|by right].
  - unfold exit. rewrite (bind_ok get _ k k k eq_refl), Hr. apply Hsw; [done|by right].
  - unfold wait. rewrite (bind_ok get _ k k k eq_refl), Hr. apply Hsw; [done|by right].
  - unfold ignore, wake_one. destruct (waiters k q) as [|t rest] eqn:Ew; intros [= <-];
      (apply grown_progressed; [done|done|]); [by apply grown_refl|by apply wake_one_grown].
  - intros E. apply grown_progressed; [done|done|by eapply wake_all_grown].
  - intros E. apply grown_progressed; [done|done|by eapply spawn_grown].
  - intros E. apply grown_progressed; [done|done|by eapply spawn_user_grown].
  - unfold timer_irq, bind at 1. destruct (on_tick k) as [r1 k1] eqn:E1. destruct r1 as [[]| | |]; try done.
    destruct (tick_spec k k1 Hl E1) as (need & -> & Hneed). unfold preempt_if_needed.
    rewrite (bind_ok get _ _ _ _ eq_refl). cbn [NEED_RESCHED set_slice]. destruct need.
    + intros E. unfold modify, bind in E. eapply switched_progressed; [done| | | | |eapply reschedule_inv; [|by left|exact E]]; try done.
      by apply timed_inv.
    + intros [= <-]. split; [split; [|done|cbn; lia]|done|].
      * exact (timed_inv k (wrap64 (TICKS k + 1)) (SLICE_TICKS k + 1) false (PREEMPTIONS k) Hinv).
      * intros i t Ht. right. exists i. split; [done|]. unfold patience, slice_ticks. cbn [HZ SLICE_TICKS set_slice set_time].
        fold (slice_ticks k). destruct (Z.le_gt_cases (slice_ticks k) (SLICE_TICKS k + 1)) as [Hle|Hgt]; [|cbn [timers]; lia].
        assert (false = true); [|done]. apply Hneed; [done|]. intros E. by rewrite E in Ht.
Qed.

(** ** Runs *)
Inductive run : KState → list op → KState → Prop :=
  | run_nil k : run k [] k
  | run_cons k o k1 os k' : allowed k o → exec o k = (Ok tt, k1) → run k1 os k' → run k (o :: os) k'.

(** The machine before [init]: no threads, the kernel's own tables in use. *)
Record boot_state (k : KState) : Prop := {
  bs_sched : SCHED k = Scheduler_new;
  bs_queues : queues k = ∅;
  bs_slice : SLICE_TICKS k = 0;
  bs_tables : table_addr (KERNEL_CR3 (vst k)) ∧ current_cr3 (vst k) = KERNEL_CR3 (vst k)
}.

Lemma run_live k os k' : live k → run k os k' → live k'.
Proof.
  intros Hl Hr. induction Hr as [|k o k1 os k' Ha E Hr IH]; [done|]. apply IH. by apply (exec_progressed o k k1).
Qed.

Lemma init_live k k' : boot_state k → READY k = false → init thread_trampoline idle_main k = (Ok tt, k') → READY k' = true → live k'.
Proof.
  intros [Hs Hq Hsl [Ht Hc]] Hr. unfold init, bind at 1. destruct (create_thread _ _ _ true k) as [r k1] eqn:E.
  destruct r as [o| | |]; try done. destruct (create_thread_spec _ _ _ _ _ _ _ E) as (p & fs & ns & ni & -> & _ & Ho).
  destruct o as [t|]; [|intros [= <-]; cbn; congruence]. destruct Ho as (slot & Et & -> & Hacc). intros [= <-] _.
  destruct (Hacc []) as [Hp Hm]; [rewrite Hs; by split|]. rewrite Hs in *. cbn [next_id Scheduler_new] in *.
  split; [|done|cbn; by rewrite Hsl]. split.
  - unfold all_threads. cbn [SCHED queues set_ready_flag set_SCHED set_vst current ready sleeping idle zombies with_slots Scheduler_new option_threads app].
    rewrite Hq. cbn. rewrite Et. split; cbn; try done.
    + apply NoDup_cons. split; [|apply NoDup_singleton]. by intros ?%list_elem_of_singleton.
    + by repeat constructor.
    + by repeat constructor.
  - split; cbn; [by rewrite Hq|]. injection Et as _ _ _ Eid. by repeat constructor.
  - done.
  - exists boot_thread. split; [done|]. by split.
Qed.

(** C6: From boot, through any operations in any order, every thread is in
    exactly one place, no two share a number or a stack slot, no slot is lost,
    there is one idle thread, exited threads are reaped, and the processor has
    the page tables and the kernel stack of the thread that runs; and then a
    thread that yields, sleeps or waits is always switched away from: the
    scheduler never panics for want of a thread. *)
Theorem thread_table_consistent k0 k1 os k :
  boot_state k0 → READY k0 = false → init thread_trampoline idle_main k0 = (Ok tt, k1) → READY k1 = true → run k1 os k →
  sched_inv k ∧
  ∀ how, how = Yield ∨ busy k → how ≠ Exit → 0 ≤ TICKS k → TICKS k * 1000 ≤ u64_max →
    ∃ k', reschedule how k = (Ok tt, k').
Proof.
  intros Hb Hr Hi Hr1 Hrun. pose proof (run_live _ _ _ (init_live _ _ Hb Hr Hi Hr1) Hrun) as [Hinv _ _].
  split; [done|]. intros how. by apply reschedule_total.
Qed.

(** C10: A thread in the ready queue runs within its turn of time slices,
    whatever the other threads do: in any run with at least as many timer
    interrupts as its place in the queue times the length of a slice, there is
    a moment at which it is the running thread. *)
Theorem ready_thread_runs k os k' i t :
  live k → run k os k' → ready (SCHED k) !! i = Some t →
  (Z.of_nat i + 1) * slice_ticks k ≤ foldr (λ o n, timers o + n) 0 os →
  ∃ os1 os2 k1, os = os1 ++ os2 ∧ run k os1 k1 ∧ current (SCHED k1) = Some t.
Proof.
  intros Hl Hrun Ht Hn.
  assert (Hpat : patience i k ≤ foldr (λ o n, timers o + n) 0 os).
  { etrans; [|exact Hn]. destruct Hl as [_ _ Hs]. unfold patience, slice_ticks. lia. }
  clear Hn. revert i Ht Hpat. induction Hrun as [k|k o k1 os k' Ha E Hrun IH]; intros i Ht Hpat.
  - exfalso. cbn in Hpat. unfold patience, slice_ticks in Hpat. lia.
  - destruct (exec_progressed o k k1 Hl Ha E) as [Hl1 _ Hw]. destruct (Hw i t Ht) as [Hc|(j & Hj & Hp)].
    + exists [o], os, k1. split; [done|]. split; [|done]. econstructor; [done|exact E|constructor].
    + cbn [foldr] in Hpat. destruct (IH Hl1 j Hj ltac:(lia)) as (os1 & os2 & k2 & -> & Hr & Hc).
      exists (o :: os1), os2, k2. split; [done|]. split; [|done]. by econstructor.
Qed.
End Runs.
