(* ===== verification/SchedDemo.v ===== *)
(** * A small machine with threads

    Sixty-four frames, the kernel's tables, the boot and the idle thread, and
    one more, on which the theorems on runs are applied. *)
From Stdlib Require Import String.
From stdpp Require Import base numbers list gmap sets.
From Stdlib Require Import ZArith Lia Bool.
From S2P Require Import Prelude Bytes Str Mem Pmm Vmm Scheduler SchedInv SchedRuns.
Import Vmm Scheduler.

Definition sched_pmm : Pmm :=
  match init_pmm [(0x100000, 0x40000, USABLE)] 0 with Ok (Some p) => p | _ => demo_pmm end.
Definition sched_root : Z := 257 * PAGE_SIZE.
Definition sched_mem : PState := snd (alloc_frame_zeroed (mkPState ∅ (Some sched_pmm) 0)).
Definition sched_k0 : KState :=
  mkK Scheduler_new ∅ false 0 false 0 0 0 0 (mkV sched_mem (Some sched_root) sched_root sched_root 0 0).

(** Addresses of the trampoline and of the entry points. *)
Definition sched_k1 : KState := snd (init 1 2 sched_k0).
Definition sched_k2 : KState := snd (exec 1 3 (OpSpawn (lit "worker") 4) sched_k1).
Definition sched_k3 : KState := snd (exec 1 3 OpTimer sched_k2).

Lemma ran {S} (m : M S Empty_set unit) s s' : s' = snd (m s) → fst (m s) = Ok tt → m s = (Ok tt, s').
Proof. by destruct (m s) as [r s1]; cbn; intros -> ->. Qed.

Lemma sched_boot : boot_state sched_k0.
Proof. split; [reflexivity|reflexivity|reflexivity|]. split; [|vm_compute; reflexivity]. split; [discriminate|vm_compute; reflexivity]. Qed.

Lemma sched_init : init 1 2 sched_k0 = (Ok tt, sched_k1) ∧ READY sched_k1 = true.
Proof.
  split; [|vm_compute; reflexivity].
  apply (ran (init 1 2) sched_k0 sched_k1); [unfold sched_k1; reflexivity|vm_compute; reflexivity].
Qed.

Lemma sched_spawned : run 1 3 sched_k1 [OpSpawn (lit "worker") 4] sched_k2.
Proof.
  apply (run_cons 1 3 sched_k1 (OpSpawn (lit "worker") 4) sched_k2 [] sched_k2); [exact I| |apply run_nil].
  apply (ran (exec 1 3 (OpSpawn (lit "worker") 4)) sched_k1 sched_k2); [unfold sched_k2; reflexivity|vm_compute; reflexivity].
Qed.

Lemma sched_ticked : run 1 3 sched_k2 [OpTimer] sched_k3.
Proof.
  apply (run_cons 1 3 sched_k2 OpTimer sched_k3 [] sched_k3); [exact I| |apply run_nil].
  apply (ran (exec 1 3 OpTimer) sched_k2 sched_k3); [unfold sched_k3; reflexivity|vm_compute; reflexivity].
Qed.

Definition sched_worker : Thread := default boot_thread (ready (SCHED sched_k2) !! 0%nat).

Lemma sched_worker_ready : ready (SCHED sched_k2) !! 0%nat = Some sched_worker ∧ id sched_worker = 2.
Proof. split; vm_compute; reflexivity. Qed.

Lemma thread_table_consistent_witness :
  sched_inv sched_k2 ∧ ∃ k', reschedule Yield sched_k2 = (Ok tt, k').
Proof.
  destruct (thread_table_consistent 1 2 3 sched_k0 sched_k1 [OpSpawn (lit "worker") 4] sched_k2
    sched_boot eq_refl (proj1 sched_init) (proj2 sched_init) sched_spawned) as [Hi Ht].
  split; [exact Hi|]. apply Ht; [left; reflexivity|discriminate|vm_compute; discriminate|vm_compute; discriminate].
Defined.

Lemma ready_thread_runs_witness :
  ∃ os1 os2 k1, [OpTimer] = os1 ++ os2 ∧ run 1 3 sched_k2 os1 k1 ∧ current (SCHED k1) = Some sched_worker.
Proof.
  apply (ready_thread_runs 1 3 sched_k2 [OpTimer] sched_k3 0 sched_worker).
  - exact (run_live _ _ _ _ _ (init_live _ _ _ _ sched_boot eq_refl (proj1 sched_init) (proj2 sched_init)) sched_spawned).
  - exact sched_ticked.
  - exact (proj1 sched_worker_ready).
  - vm_compute. discriminate.
Defined.
