(* ===== verification/Blocking.v ===== *)
(** * Locks that block: [blocking.rs]

    [Mutex] and [Semaphore] over the scheduler's wait queues.  Both are a
    number of tokens: a thread takes one or parks, and giving one back wakes
    one parked thread.  [Gate] is that interface, with the laws the two
    implementations satisfy; what holds of every gate, whatever the threads
    and the timer do, is proved against it. *)
From Stdlib Require Import String.
From stdpp Require Import base numbers list gmap sets.
From Stdlib Require Import ZArith Lia Bool.
From S2P Require Import Prelude Bytes Str Mem Pmm Vmm Scheduler SchedInv SchedRuns.
Import Vmm Scheduler.

Module Blocking.

(** ** The two locks *)
Record Mutex := mkMutex { locked : bool; mutex_queue : Z }.
Definition Mutex_new (q : Z) : Mutex := mkMutex false q.

(** [swap(true)]; whether the lock was free. *)
Definition swap_locked (m : Mutex) : bool * Mutex := (negb (locked m), mkMutex true (mutex_queue m)).

(** One round of the loop in [lock]: [true] when a guard is returned. *)
Definition lock (m : Mutex) : M KState Empty_set (bool * Mutex) := wait_round (mutex_queue m) swap_locked m.
Definition try_lock (m : Mutex) : bool * Mutex := swap_locked m.

(** Dropping a guard: two steps, between which the thread can be preempted. *)
Definition unlock (m : Mutex) : Mutex := mkMutex false (mutex_queue m).
Definition drop_guard (m : Mutex) : M KState Empty_set Mutex :=
  let m := unlock m in wake_one (mutex_queue m) ;;! ret m.

Record Semaphore := mkSemaphore { count : Z; sem_queue : Z }.
Definition Semaphore_new (initial q : Z) : Semaphore := mkSemaphore initial q.

(** The loop around [compare_exchange_weak]: [seen] are the values that failed
    exchanges found (the same value again, when the failure is spurious). *)
Fixpoint take_count (seen : list Z) (cur : Z) : option Z :=
  if cur <=? 0 then None
  else
    match seen with
    | [] => Some (cur - 1)
    | actual :: seen => take_count seen actual
    end.

Definition sem_take (seen : list Z) (s : Semaphore) : bool * Semaphore :=
  match take_count seen (count s) with
  | Some n => (true, mkSemaphore n (sem_queue s))
  | None => (false, s)
  end.

(** With interrupts off nothing else changes the count: failures are spurious. *)
Definition acquire (spurious : nat) (s : Semaphore) : M KState Empty_set (bool * Semaphore) :=
  wait_round (sem_queue s) (λ s, sem_take (replicate spurious (count s)) s) s.

(** Here other threads can come in between: [first] is the value loaded. *)
Definition try_acquire (seen : list Z) (first : Z) : option Z := take_count seen first.

(** [fetch_add] on an [AtomicI64] wraps. *)
Definition wrap_i64 (x : Z) : Z := (x + 2^63) mod 2^64 - 2^63.
Definition fetch_add (s : Semaphore) : Semaphore := mkSemaphore (wrap_i64 (count s + 1)) (sem_queue s).
Definition release (s : Semaphore) : M KState Empty_set Semaphore :=
  let s := fetch_add s in wake_one (sem_queue s) ;;! ret s.
Definition available (s : Semaphore) : Z := count s.
End Blocking.
Import Blocking.

(** ** Gates *)

(** [spurious] is the number of failures of a weak exchange in an attempt;
    [may_give r out] says who may give a token back when [out] are out. *)
Class Gate (R : Type) := {
  gate_queue : R → Z;
  tokens : R → Z;
  attempt : nat → R → bool * R;
  give : R → R;
  sane : R → Prop;
  may_give : Z → Prop
}.

Class GateLaws (R : Type) `{Gate R} := {
  tokens_nonneg r : 0 ≤ tokens r;
  attempt_sane n r : sane r → sane (attempt n r).2;
  give_sane r : sane r → sane (give r);
  attempt_queue n r : gate_queue (attempt n r).2 = gate_queue r;
  give_queue r : gate_queue (give r) = gate_queue r;
  attempt_yes n r r' : attempt n r = (true, r') → tokens r' < tokens r;
  attempt_no n r r' : attempt n r = (false, r') → tokens r = 0 ∧ tokens r' = 0;
  give_one r : sane r → tokens (give r) ≤ tokens r + 1
}.

#[global] Instance mutex_gate : Gate Mutex := {
  gate_queue := mutex_queue;
  tokens m := if locked m then 0 else 1;
  attempt _ := swap_locked;
  give := unlock;
  sane _ := True;
  may_give out := 0 < out
}.

#[global] Instance semaphore_gate : Gate Semaphore := {
  gate_queue := sem_queue;
  tokens s := Z.max 0 (count s);
  attempt n s := sem_take (replicate n (count s)) s;
  give := fetch_add;
  sane s := -2^63 ≤ count s < 2^63;
  may_give _ := True
}.

#[global] Instance mutex_laws : GateLaws Mutex.
Proof.
  split; cbn; unfold swap_locked; try done; intros.
  - by destruct (locked r).
  - destruct (locked r); [done|]. by simplify_eq/=.
  - destruct (locked r); [|done]. by simplify_eq/=.
  - by destruct (locked r).
Qed.

Lemma take_count_spurious n c : take_count (replicate n c) c = if c <=? 0 then None else Some (c - 1).
Proof. induction n as [|n IH]; cbn [replicate take_count]; [done|]. by destruct (c <=? 0). Qed.

(** Whatever was seen before, the outcome is that of one exchange on the last
    value seen. *)
Lemma take_count_last seen first c :
  last (first :: seen) = Some c → Forall (λ v, 0 < v) (removelast (first :: seen)) →
  take_count seen first = take_count [] c.
Proof.
  revert first. induction seen as [|v seen IH]; intros first Hl Hp.
  - by injection Hl as ->.
  - change (removelast (first :: v :: seen)) with (first :: removelast (v :: seen)) in Hp. apply Forall_cons in Hp as [Hf Hp].
    cbn [take_count]. destruct (Z.leb_spec first 0); [lia|]. by apply IH.
Qed.

Lemma wrap_i64_range x : -2^63 ≤ wrap_i64 x < 2^63.
Proof. unfold wrap_i64. pose proof (Z.mod_pos_bound (x + 2^63) (2^64)). lia. Qed.

#[global] Instance semaphore_laws : GateLaws Semaphore.
Proof.
  split; cbn; unfold sem_take; try done; intros.
  - lia.
  - rewrite take_count_spurious. destruct (Z.leb_spec (count r) 0); cbn; lia.
  - apply wrap_i64_range.
  - by destruct (take_count _ _).
  - rewrite take_count_spurious in *. destruct (Z.leb_spec (count r) 0); simplify_eq/=. lia.
  - rewrite take_count_spurious in *. destruct (Z.leb_spec (count r) 0); simplify_eq/=. lia.
  - unfold wrap_i64. destruct (decide (count r + 1 = 2^63)) as [->|]; [change ((2^63 + 2^63) mod 2^64) with 0; lia|].
    rewrite Z.mod_small by lia. lia.
Qed.

(** ** Threads at a gate *)

(** A thread is inside the loop of [wait_until], or between giving a token back
    and waking a waiter; a thread without an entry runs code of its own. *)
Inductive phase := Waiting | Releasing.

Record world (R : Type) := mkWorld { machine : KState; gate : R; phases : gmap Z phase; out : Z }.
Arguments mkWorld {R} machine gate phases out.
Arguments machine {R} w.
Arguments gate {R} w.
Arguments phases {R} w.
Arguments out {R} w.

(** Operations that leave the gate's queue alone. *)
Definition aside (q : Z) (o : op) : Prop :=
  match o with OpWait q' | OpWakeOne q' | OpWakeAll q' => q' ≠ q | _ => True end.

Section Gates.
Context (thread_trampoline user_thread_main : Z).
Context {R : Type} `{Gate R}.

(** The steps of the thread that has the processor: a round of [lock] or
    [acquire], at first or after a wake-up; [try_lock] or [try_acquire]; the two
    parts of a release; any other operation; and, in any phase, the timer. *)
Inductive gate_step : world R → world R → Prop :=
  | gs_taken k r ph o t n r' k' :
      current (SCHED k) = Some t → is_idle t = false → ph !! id t ≠ Some Releasing →
      wait_round (gate_queue r) (attempt n) r k = (Ok (true, r'), k') →
      gate_step (mkWorld k r ph o) (mkWorld k' r' (delete (id t) ph) (o + 1))
  | gs_parked k r ph o t n r' k' :
      current (SCHED k) = Some t → is_idle t = false → ph !! id t ≠ Some Releasing →
      wait_round (gate_queue r) (attempt n) r k = (Ok (false, r'), k') →
      gate_step (mkWorld k r ph o) (mkWorld k' r' (<[id t := Waiting]> ph) o)
  | gs_polled k r ph o t n b r' :
      current (SCHED k) = Some t → ph !! id t = None → attempt n r = (b, r') →
      gate_step (mkWorld k r ph o) (mkWorld k r' ph (if b : bool then o + 1 else o))
  | gs_given k r ph o t :
      current (SCHED k) = Some t → is_idle t = false → ph !! id t = None → may_give o →
      gate_step (mkWorld k r ph o) (mkWorld k (give r) (<[id t := Releasing]> ph) (o - 1))
  | gs_woken k r ph o t b k' :
      current (SCHED k) = Some t → ph !! id t = Some Releasing → wake_one (gate_queue r) k = (Ok b, k') →
      gate_step (mkWorld k r ph o) (mkWorld k' r (delete (id t) ph) o)
  | gs_other k r ph o t p k' :
      current (SCHED k) = Some t → ph !! id t = None ∨ p = OpTimer →
      allowed k p → aside (gate_queue r) p → exec thread_trampoline user_thread_main p k = (Ok tt, k') →
      gate_step (mkWorld k r ph o) (mkWorld k' r ph o).

(** A gate nobody has used yet. *)
Definition fresh_gate (w : world R) : Prop :=
  live (machine w) ∧ sane (gate w) ∧ waiters (machine w) (gate_queue (gate w)) = [] ∧ phases w = ∅ ∧ out w = 0.

Inductive gate_run : world R → world R → Prop :=
  | gr_refl w : gate_run w w
  | gr_step w w1 w2 : gate_run w w1 → gate_step w1 w2 → gate_run w w2.
End Gates.

(** ** Where a switch leaves the threads *)
Definition runnable (k : KState) : list Thread := option_threads (current (SCHED k)) ++ ready (SCHED k).

Lemma install_frame t k k' : install t k = (Ok tt, k') →
  queues k' = queues k ∧ ready (SCHED k') = ready (SCHED k) ∧ current (SCHED k') = Some t.
Proof.
  unfold install. set (fin := modify _).
  assert (Hfin : ∀ k k', fin k = (Ok tt, k') → queues k' = queues k ∧ ready (SCHED k') = ready (SCHED k) ∧ current (SCHED k') = Some t).
  { intros k1 k1' [= <-]. by destruct (negb _ && _). }
  destruct (stack_slot t) as [slot|]; [|by rewrite (bind_ok (ret tt) _ k tt k eq_refl); apply Hfin].
  unfold bind, lift. destruct (slot_base slot) as [base| | |]; try done. destruct (add64 base _) as [top| | |]; try done.
  unfold modify at 1. intros E. by apply Hfin in E.
Qed.

Lemma pick_frame t k k' : pick_next k = (Ok t, k') → queues k' = queues k ∧
  (t :: ready (SCHED k') = ready (SCHED k) ∨ ready (SCHED k) = [] ∧ ready (SCHED k') = []).
Proof.
  unfold pick_next. destruct (ready (SCHED k)) as [|u rest]; [|intros [= -> <-]; by split; [|left]].
  destruct (idle (SCHED k)); [|done]. intros [= -> <-]. split; [done|by right].
Qed.

Lemma reschedule_frame how k k' cur : current (SCHED k) = Some cur → reschedule how k = (Ok tt, k') →
  queues k' = match how with Block q => <[q := waiters k q ++ [cur]]> (queues k) | _ => queues k end ∧
  (∀ t, t ∈ ready (SCHED k) → t ∈ runnable k') ∧
  (how = Yield → is_idle cur = false → cur ∈ runnable k').
Proof.
  intros Ec. unfold reschedule. rewrite !(bind_ok (modify _) _ k tt (set_slice k 0 false) eq_refl).
  unfold bind at 1. destruct (wake_sleepers _) as [r1 k1] eqn:E1. destruct r1 as [[]| | |]; try done.
  destruct (wake_sleepers_spec _ _ E1) as (due & slp & _ & Ek1 & _). cbv zeta in Ek1.
  rewrite (bind_ok get _ k1 k1 k1 eq_refl). replace (current (SCHED k1)) with (Some cur) by (by rewrite Ek1).
  unfold bind at 1. destruct (put_away how cur k1) as [r2 k2] eqn:E2. destruct r2 as [[]| | |]; try done.
  unfold bind at 1. destruct (pick_next k2) as [r3 k3] eqn:E3. destruct r3 as [next| | |]; try done.
  unfold bind at 1. destruct (install next k3) as [r4 k4] eqn:E4. destruct r4 as [[]| | |]; try done.
  intros E5. assert (H5 : queues k' = queues k4 ∧ ready (SCHED k') = ready (SCHED k4) ∧ current (SCHED k') = current (SCHED k4)).
  { destruct (id cur =? id next); [by injection E5 as <-|]. by destruct (finish_switch_spec _ _ E5) as [p ->]. }
  destruct H5 as (Q5 & R5 & C5). destruct (install_frame _ _ _ E4) as (Q4 & R4 & C4). destruct (pick_frame _ _ _ E3) as (Q3 & R3).
  assert (H2 : queues k2 = (match how with Block q => <[q := waiters k q ++ [cur]]> (queues k) | _ => queues k end) ∧
    ∃ extra, ready (SCHED k2) = ready (SCHED k) ++ extra ∧ (how = Yield → is_idle cur = false → cur ∈ extra)).
  { rewrite Ek1 in E2. unfold put_away in E2. destruct how as [|w| |q]; [destruct (is_idle cur)| | |]; injection E2 as <-;
      (split; [done|]); cbn; eexists; rewrite <- ?app_assoc; (split; [reflexivity|]); try done; set_solver. }
  destruct H2 as (Q2 & extra & R2 & Hx). split; [congruence|].
  assert (Hin : ∀ t, t ∈ ready (SCHED k2) → t ∈ runnable k').
  { intros t Ht. unfold runnable. rewrite R5, C5, R4, C4. destruct R3 as [Er|[Er _]]; rewrite <- ?Er in Ht; [exact Ht|].
    rewrite Er in Ht. by apply elem_of_nil in Ht. }
  split.
  - intros t Ht. apply Hin. rewrite R2. set_solver.
  - intros Hy Hi. apply Hin. rewrite R2. apply elem_of_app. right. by apply Hx.
Qed.

(** Threads that can run still can, but for the one that gives up the processor. *)
Record keeps (q : Z) (k k' : KState) : Prop := {
  kp_queue : waiters k' q = waiters k q;
  kp_ready : ∀ t, t ∈ ready (SCHED k) → t ∈ runnable k'
}.

Lemma keeps_push q k k' extra : queues k' !! q = queues k !! q → ready (SCHED k') = ready (SCHED k) ++ extra → keeps q k k'.
Proof. intros Hq Hr. split; [unfold waiters; by rewrite Hq|]. intros t Ht. unfold runnable. rewrite Hr. set_solver. Qed.

Lemma keeps_switch q how k k' cur : current (SCHED k) = Some cur → (∀ q', how = Block q' → q' ≠ q) →
  reschedule how k = (Ok tt, k') → keeps q k k'.
Proof.
  intros Ec Hq E. destruct (reschedule_frame how k k' cur Ec E) as (Q & H1 & _). split; [|exact H1].
  unfold waiters. rewrite Q. destruct how as [| | |q']; try done. by rewrite lookup_insert_ne by (by apply Hq).
Qed.

Section Frames.
Context (thread_trampoline user_thread_main : Z).

Lemma spawn_frame q k nm entry k' : ignore (E':=Empty_set) (spawn thread_trampoline nm entry) k = (Ok tt, k') → keeps q k k'.
Proof.
  unfold ignore, spawn, bind at 1. destruct (create_thread _ nm entry false k) as [r k1] eqn:E. destruct r as [o|[]| |]; try done.
  destruct (create_thread_spec _ _ _ _ _ _ _ E) as (p & fs & ns & ni & -> & _ & _).
  destruct o as [t|]; intros [= <-]; [by apply (keeps_push q _ _ [t])|]. apply (keeps_push q _ _ []); [done|]. cbn. by rewrite app_nil_r.
Qed.

Lemma spawn_user_frame q k nm a entry sp k' :
  ignore (E':=Empty_set) (spawn_user thread_trampoline user_thread_main nm a entry sp) k = (Ok tt, k') → keeps q k k'.
Proof.
  unfold ignore, spawn_user, bind at 1. destruct (create_thread _ nm _ false k) as [r k1] eqn:E. destruct r as [o|[]| |]; try done.
  destruct (create_thread_spec _ _ _ _ _ _ _ E) as (p & fs & ns & ni & -> & _ & _).
  destruct o as [t|]; [intros [= <-]; by eapply keeps_push|]. unfold bind. set (k1 := set_vst _ _).
  destruct (on_frames (free_user_half a) k1) as [r2 k2] eqn:E2. destruct (mem_on_frames _ _ _ _ E2) as [p2 ->].
  destruct r2 as [[]|[]| |]; try done. intros [= <-]. apply (keeps_push q _ _ []); [done|]. cbn. by rewrite app_nil_r.
Qed.

Lemma timer_frame q k k' cur : live k → current (SCHED k) = Some cur → timer_irq k = (Ok tt, k') →
  keeps q k k' ∧ (is_idle cur = false → cur ∈ runnable k').
Proof.
  intros Hl Ec. unfold timer_irq, bind at 1. destruct (on_tick k) as [r1 k1] eqn:E1. destruct r1 as [[]| | |]; try done.
  destruct (tick_spec k k1 Hl E1) as (need & -> & _). unfold preempt_if_needed. rewrite (bind_ok get _ _ _ _ eq_refl).
  cbn [NEED_RESCHED set_slice]. destruct need.
  - unfold modify, bind. set (k2 := set_preemptions _ _). intros E. assert (Ec2 : current (SCHED k2) = Some cur) by exact Ec.
    split; [destruct (keeps_switch q Yield k2 _ cur Ec2 ltac:(done) E); by split|].
    destruct (reschedule_frame Yield k2 _ cur Ec2 E) as (_ & _ & Hy). by apply Hy.
  - intros [= <-]. split; [apply (keeps_push q _ _ []); [done|cbn; by rewrite app_nil_r]|].
    intros _. unfold runnable. cbn. rewrite Ec. by left.
Qed.

Lemma exec_frame q p k k' cur : live k → current (SCHED k) = Some cur → aside q p →
  exec thread_trampoline user_thread_main p k = (Ok tt, k') →
  keeps q k k' ∧ (p = OpTimer → is_idle cur = false → cur ∈ runnable k').
Proof.
  intros Hl Ec Ha E. pose proof (lv_ready _ Hl) as Hr.
  destruct p as [|ms| |q'|q'|q'|nm entry|nm a entry sp|]; cbn [exec aside] in *.
  9:{ destruct (timer_frame q k k' cur Hl Ec E). by split. }
  all: split; [|done]; revert E.
  - unfold yield_now. rewrite (bind_ok get _ k k k eq_refl), Hr. by apply keeps_switch with cur.
  - unfold sleep_ms. rewrite (bind_ok get _ k k k eq_refl), Hr. cbn [negb].
    assert (Hup : snd (uptime_ms k) = k) by (unfold uptime_ms; by destruct (HZ k =? 0)).
    unfold bind at 1. destruct (uptime_ms k) as [r k3]. cbn [snd] in Hup. subst k3. destruct r as [now| | |]; try done.
    unfold bind at 1, lift. destruct (add64 now ms) as [w| | |]; try done. by apply keeps_switch with cur.
  - unfold exit. rewrite (bind_ok get _ k k k eq_refl), Hr. by apply keeps_switch with cur.
  - unfold wait. rewrite (bind_ok get _ k k k eq_refl), Hr. apply keeps_switch with cur; [done|]. by intros ? [= ->].
  - unfold ignore, wake_one. destruct (waiters k q') as [|t rest]; intros [= <-].
    + apply (keeps_push q _ _ []); [done|]. by rewrite app_nil_r.
    + apply (keeps_push q _ _ [t]); [|done]. cbn. by rewrite lookup_insert_ne.
  - unfold wake_all. destruct (waiters k q') as [|t l]; [intros [= <-]|rewrite push_all; intros [= <-]].
    + apply (keeps_push q _ _ []); [cbn; by rewrite lookup_insert_ne|]. cbn. by rewrite app_nil_r.
    + eapply keeps_push; [cbn; by rewrite lookup_insert_ne|done].
  - apply spawn_frame.
  - apply spawn_user_frame.
Qed.
End Frames.

(** ** Threads inside an operation on a gate *)

(** Those that are not parked, given the ones that are. *)
Definition inside (ph : gmap Z phase) (l : list Thread) : gset Z := dom ph ∖ list_to_set (id <$> l).

Lemma in_ids x (l : list Thread) : x ∈ l → id x ∈ id <$> l.
Proof. intros Hx. apply list_elem_of_fmap. by exists x. Qed.

Lemma parked_delete_other (ph : gmap Z phase) i (l : list Thread) : i ∉ id <$> l →
  Forall (λ t, ph !! id t = Some Waiting) l → Forall (λ t, delete i ph !! id t = Some Waiting) l.
Proof.
  intros Hn. rewrite !Forall_forall. intros Hp x Hx. rewrite lookup_delete_ne; [by apply Hp|].
  intros ->. apply Hn. by apply in_ids.
Qed.

Lemma parked_insert_other (ph : gmap Z phase) i p (l : list Thread) : i ∉ id <$> l →
  Forall (λ t, ph !! id t = Some Waiting) l → Forall (λ t, <[i := p]> ph !! id t = Some Waiting) l.
Proof.
  intros Hn. rewrite !Forall_forall. intros Hp x Hx. rewrite lookup_insert_ne; [by apply Hp|].
  intros ->. apply Hn. by apply in_ids.
Qed.

Lemma inside_delete ph i l : (size (inside ph l) ≤ S (size (inside (delete i ph) l)))%nat.
Proof.
  unfold inside. rewrite dom_delete_L. set (L := list_to_set _).
  transitivity (size ({[i]} ∪ (dom ph ∖ {[i]} ∖ L))); [apply subseteq_size; intros x; destruct (decide (x = i)); set_solver|].
  rewrite size_union_alt, size_singleton. pose proof (subseteq_size (dom ph ∖ {[i]} ∖ L ∖ {[i]}) (dom ph ∖ {[i]} ∖ L) ltac:(set_solver)). lia.
Qed.

Lemma inside_insert ph i p l : ph !! i = None → i ∉ id <$> l → size (inside (<[i := p]> ph) l) = S (size (inside ph l)).
Proof.
  intros Hi Hl. unfold inside. rewrite dom_insert_L. set (L := list_to_set _).
  assert (Hn : i ∉ L) by (unfold L; by rewrite elem_of_list_to_set). apply not_elem_of_dom in Hi.
  replace (({[i]} ∪ dom ph) ∖ L) with ({[i]} ∪ (dom ph ∖ L)) by set_solver.
  rewrite size_union by set_solver. by rewrite size_singleton.
Qed.

Lemma inside_woken ph i t l : is_Some (ph !! i) → is_Some (ph !! id t) → i ∉ id <$> (t :: l) → id t ∉ id <$> l →
  size (inside (delete i ph) l) = size (inside ph (t :: l)).
Proof.
  intros Hi Ht Hil Htl. unfold inside. rewrite dom_delete_L. cbn [fmap list_fmap list_to_set]. set (L := list_to_set _).
  assert (Hn1 : i ∉ L ∧ i ≠ id t) by (unfold L; rewrite elem_of_list_to_set; set_solver).
  assert (Hn2 : id t ∉ L) by (unfold L; by rewrite elem_of_list_to_set). apply elem_of_dom in Hi, Ht.
  set (B := dom ph ∖ {[i]} ∖ ({[id t]} ∪ L)).
  replace (dom ph ∖ {[i]} ∖ L) with ({[id t]} ∪ B) by (apply set_eq; intros x; unfold B; destruct (decide (x = id t)); set_solver).
  replace (dom ph ∖ ({[id t]} ∪ L)) with ({[i]} ∪ B) by (apply set_eq; intros x; unfold B; destruct (decide (x = i)); set_solver).
  rewrite !size_union by (unfold B; set_solver). by rewrite !size_singleton.
Qed.

(** ** The invariant of a gate *)

(** No thread is in two places. *)
Lemma places_distinct k q : sched_inv k →
  NoDup (id <$> (option_threads (current (SCHED k)) ++ ready (SCHED k)) ++ waiters k q) ∧
  Forall (λ t, is_idle t = false) (ready (SCHED k) ++ waiters k q).
Proof.
  intros [Hf [Hb _] _ _]. pose proof (parked_delete q (queues k)) as Hd. fold (waiters k q) in Hd. split.
  - pose proof (ft_ids _ _ Hf) as Hnd. unfold keys in Hnd. rewrite <- list_fmap_compose in Hnd.
    change (key_id ∘ key_of) with id in Hnd. unfold all_threads in Hnd. rewrite Hd in Hnd.
    rewrite !fmap_app in *. rewrite !NoDup_app in *. set_solver.
  - rewrite Hd in Hb. rewrite !Forall_app in *. tauto.
Qed.

Lemma current_not_parked k q t : live k → current (SCHED k) = Some t → id t ∉ id <$> waiters k q.
Proof.
  intros [Hi _ _] Ec Hin. destruct (places_distinct k q Hi) as [Hnd _]. rewrite Ec in Hnd. cbn in Hnd.
  apply NoDup_cons in Hnd as [Hn _]. apply Hn. rewrite fmap_app. set_solver.
Qed.

Lemma parked_distinct k q t l : live k → waiters k q = t :: l → id t ∉ id <$> l ∧ is_idle t = false.
Proof.
  intros [Hi _ _] E. destruct (places_distinct k q Hi) as [Hnd Hb]. rewrite E in Hnd, Hb.
  rewrite fmap_app, NoDup_app in Hnd. destruct Hnd as (_ & _ & Hnd). apply NoDup_cons in Hnd as [Hn _].
  rewrite Forall_app, Forall_cons in Hb. tauto.
Qed.

Section GateInvariant.
Context (thread_trampoline user_thread_main : Z).
Context {R : Type} `{GateLaws R}.

Record gate_inv (k : KState) (r : R) (ph : gmap Z phase) : Prop := {
  gi_live : live k;
  gi_sane : sane r;
  gi_parked : Forall (λ t, ph !! id t = Some Waiting) (waiters k (gate_queue r));
  gi_runs : ∀ i p, ph !! i = Some p →
    i ∈ id <$> waiters k (gate_queue r) ∨ ∃ t, t ∈ runnable k ∧ id t = i ∧ is_idle t = false;
  gi_tokens : waiters k (gate_queue r) ≠ [] → tokens r ≤ Z.of_nat (size (inside ph (waiters k (gate_queue r))))
}.

(** One round of the loop: a token taken, or the thread parked. *)
Lemma round_spec k r n b r' k' : live k → wait_round (gate_queue r) (attempt n) r k = (Ok (b, r'), k') →
  attempt n r = (b, r') ∧ if b then k' = k else reschedule (Block (gate_queue r)) k = (Ok tt, k').
Proof.
  intros [_ Hr _]. unfold wait_round. destruct (attempt n r) as [b1 r1]. destruct b1; [by intros [= <- <- <-]|].
  rewrite (bind_ok get _ k k k eq_refl), Hr. cbn [negb]. unfold bind. destruct (reschedule _ k) as [r2 k2]; destruct r2 as [[]| | |]; try done.
  by intros [= <- <- <-].
Qed.

Lemma inv_taken k r ph t n r' k' : gate_inv k r ph → current (SCHED k) = Some t →
  wait_round (gate_queue r) (attempt n) r k = (Ok (true, r'), k') → gate_inv k' r' (delete (id t) ph).
Proof.
  intros [Hl Hs Hp Hr Ht] Ec E. destruct (round_spec _ _ _ _ _ _ Hl E) as [Ea ->].
  pose proof (attempt_queue n r) as Eq. pose proof (attempt_sane n r Hs) as Hs'. rewrite Ea in Eq, Hs'. cbn [snd] in Eq, Hs'.
  pose proof (attempt_yes n r r' Ea). pose proof (current_not_parked k (gate_queue r) t Hl Ec) as Hn.
  split; rewrite ?Eq; [done|done|by apply parked_delete_other| |].
  - intros i p [Hne Hi]%lookup_delete_Some. by apply (Hr i p).
  - intros Hw. specialize (Ht Hw). pose proof (inside_delete ph (id t) (waiters k (gate_queue r))). lia.
Qed.

Lemma inv_polled k r ph n b r' : gate_inv k r ph → attempt n r = (b, r') → gate_inv k r' ph.
Proof.
  intros [Hl Hs Hp Hr Ht] Ea.
  pose proof (attempt_queue n r) as Eq. pose proof (attempt_sane n r Hs) as Hs'. rewrite Ea in Eq, Hs'. cbn [snd] in Eq, Hs'.
  split; rewrite ?Eq; try done. intros Hw. specialize (Ht Hw).
  destruct b; [pose proof (attempt_yes n r r' Ea)|pose proof (attempt_no n r r' Ea)]; lia.
Qed.

Lemma inv_given k r ph t : gate_inv k r ph → current (SCHED k) = Some t → is_idle t = false → ph !! id t = None →
  gate_inv k (give r) (<[id t := Releasing]> ph).
Proof.
  intros [Hl Hs Hp Hr Ht] Ec Hb Hn. pose proof (current_not_parked k (gate_queue r) t Hl Ec) as Hnp. pose proof (give_one r Hs).
  split; rewrite ?give_queue; [done|by apply give_sane|by apply parked_insert_other| |].
  - intros i p [[<- _]|[Hne Hi]]%lookup_insert_Some; [|by apply (Hr i p)]. right. exists t. split; [|done].
    unfold runnable. rewrite Ec. by left.
  - intros Hw. specialize (Ht Hw). rewrite inside_insert by done. lia.
Qed.

Lemma inv_parked k r ph t n r' k' : gate_inv k r ph → current (SCHED k) = Some t → is_idle t = false →
  wait_round (gate_queue r) (attempt n) r k = (Ok (false, r'), k') → gate_inv k' r' (<[id t := Waiting]> ph).
Proof.
  intros [Hl Hs Hp Hr Ht] Ec Hb E. destruct (round_spec _ _ _ _ _ _ Hl E) as [Ea Es].
  pose proof (attempt_queue n r) as Eq. pose proof (attempt_sane n r Hs) as Hs'. rewrite Ea in Eq, Hs'. cbn [snd] in Eq, Hs'.
  destruct (attempt_no n r r' Ea) as [_ E0]. destruct (reschedule_frame _ _ _ _ Ec Es) as (Q & Hrun & _).
  assert (Hw : waiters k' (gate_queue r) = waiters k (gate_queue r) ++ [t]) by (unfold waiters at 1; rewrite Q, lookup_insert_eq; done).
  assert (Hl' : live k').
  { apply (exec_progressed thread_trampoline user_thread_main (OpWait (gate_queue r)) k); [done|cbn; intros c Hc; congruence|].
    cbn [exec]. unfold wait. by rewrite (bind_ok get _ k k k eq_refl), (lv_ready _ Hl). }
  split; rewrite ?Eq, ?Hw; [done|done| | |].
  - apply Forall_app. split; [apply parked_insert_other; [by apply current_not_parked|done]|].
    rewrite Forall_singleton. apply lookup_insert_eq.
  - intros i p [[<- _]|[Hne Hi]]%lookup_insert_Some; [left; rewrite fmap_app; set_solver|].
    destruct (Hr i p Hi) as [?|(u & Hu & Ei & Hbu)]; [left; rewrite fmap_app; set_solver|]. right. exists u. split; [|done].
    unfold runnable in Hu. rewrite Ec in Hu. apply elem_of_app in Hu as [Hu%list_elem_of_singleton|Hu]; [congruence|by apply Hrun].
  - intros _. rewrite E0. lia.
Qed.

Lemma inv_woken k r ph t b k' : gate_inv k r ph → current (SCHED k) = Some t → ph !! id t = Some Releasing →
  wake_one (gate_queue r) k = (Ok b, k') → gate_inv k' r (delete (id t) ph).
Proof.
  intros [Hl Hs Hp Hr Ht] Ec Hph E. pose proof (current_not_parked k (gate_queue r) t Hl Ec) as Hnp.
  assert (Hl' : live k').
  { apply (exec_progressed thread_trampoline user_thread_main (OpWakeOne (gate_queue r)) k); [done|done|]. cbn. unfold ignore. by rewrite E. }
  unfold wake_one in E. destruct (waiters k (gate_queue r)) as [|h rest] eqn:Ew; injection E as <- <-.
  - split; rewrite ?Ew; [done|done|constructor| |done]. intros i p [Hne Hi]%lookup_delete_Some. by apply (Hr i p).
  - set (k1 := set_SCHED _ _) in *. assert (Hw : waiters k1 (gate_queue r) = rest) by (unfold waiters; cbn; by rewrite lookup_insert_eq).
    destruct (parked_distinct k _ h rest Hl Ew) as [Hd Hbh]. apply Forall_cons in Hp as [Hph1 Hp].
    split; rewrite ?Hw; [done|done|apply parked_delete_other; [set_solver|done]| |].
    + intros i p [Hne Hi]%lookup_delete_Some. destruct (Hr i p Hi) as [Hin|(u & Hu & Ei & Hbu)].
      * cbn in Hin. apply elem_of_cons in Hin as [->|Hin]; [|by left]. right. exists h. split; [|done]. unfold runnable. cbn. set_solver.
      * right. exists u. split; [|done]. unfold runnable in *. cbn. set_solver.
    + intros Hne. rewrite (inside_woken ph (id t) h rest); [by apply Ht|by eexists|by eexists|done|done].
Qed.

Lemma inv_other k r ph t p k' : gate_inv k r ph → current (SCHED k) = Some t → ph !! id t = None ∨ p = OpTimer →
  allowed k p → aside (gate_queue r) p → exec thread_trampoline user_thread_main p k = (Ok tt, k') → gate_inv k' r ph.
Proof.
  intros [Hl Hs Hp Hr Ht] Ec Hph Ha Hq E. destruct (exec_frame _ _ (gate_queue r) p k k' t Hl Ec Hq E) as [[Kq Kr] Ht'].
  split; rewrite ?Kq; [by apply (exec_progressed _ _ p k k' Hl Ha E)|done|done| |done].
  intros i q Hi. destruct (Hr i q Hi) as [?|(u & Hu & Ei & Hbu)]; [by left|]. right. exists u. split; [|done].
  unfold runnable in Hu. rewrite Ec in Hu. apply elem_of_app in Hu as [Hu%list_elem_of_singleton|Hu]; [|by apply Kr].
  subst u. destruct Hph as [Hn| ->]; [congruence|]. by apply Ht'.
Qed.

Lemma gate_step_inv w w' : gate_step thread_trampoline user_thread_main w w' →
  gate_inv (machine w) (gate w) (phases w) → gate_inv (machine w') (gate w') (phases w').
Proof.
  destruct 1; cbn [machine gate phases]; intros Hi;
    eauto using inv_taken, inv_parked, inv_polled, inv_given, inv_woken, inv_other.
Qed.

Lemma fresh_inv w : fresh_gate w → gate_inv (machine w) (gate w) (phases w).
Proof. intros (Hl & Hs & Hw & Hp & _). rewrite Hp. split; rewrite ?Hw; done. Qed.

Lemma gate_run_inv w w' : gate_run thread_trampoline user_thread_main w w' → fresh_gate w →
  gate_inv (machine w') (gate w') (phases w').
Proof. induction 1; [apply fresh_inv|]. intros Hf. eapply gate_step_inv; eauto. Qed.

End GateInvariant.

(** C8: Mutual exclusion: whatever the threads do, a locked mutex has exactly
    one guard and a free one has none. *)
Theorem mutex_excludes thread_trampoline user_thread_main (w w' : world Mutex) :
  fresh_gate w → locked (gate w) = false → gate_run thread_trampoline user_thread_main w w' →
  out w' = if locked (gate w') then 1 else 0.
Proof.
  intros Hf Hl Hrun. destruct Hf as (Hlive & Hf). assert (Hf0 : fresh_gate w) by (by split). destruct Hf as (_ & _ & _ & Ho).
  induction Hrun as [w|w w1 w2 Hrun IH Hs]; [by rewrite Hl|]. specialize (IH Hlive Ho Hl Hf0).
  pose proof (gi_live _ _ _ (gate_run_inv _ _ _ _ Hrun Hf0)) as Hl1.
  destruct Hs; cbn [machine gate phases out] in *; try done.
  - match goal with H : wait_round _ _ _ _ = _ |- _ => apply (round_spec _ _ _ _ _ _ Hl1) in H as [Ha _] end.
    cbn in Ha. unfold swap_locked in Ha. injection Ha as Hb <-. cbn. destruct (locked r); [done|]. lia.
  - match goal with H : wait_round _ _ _ _ = _ |- _ => apply (round_spec _ _ _ _ _ _ Hl1) in H as [Ha _] end.
    cbn in Ha. unfold swap_locked in Ha. injection Ha as Hb <-. cbn. by destruct (locked r).
  - match goal with H : attempt _ _ = _ |- _ => cbn in H; unfold swap_locked in H; injection H as <- <- end.
    cbn. destruct (locked r); cbn; lia.
  - cbn in *. destruct (locked r); lia.
Qed.
