(* ===== verification/BlockingDemo.v ===== *)
(** * Two threads and a mutex

    On the machine of [SchedDemo]: the boot thread locks, is preempted, the
    worker finds the mutex taken and parks, and the boot thread unlocks. *)
From Stdlib Require Import String.
From stdpp Require Import base numbers list gmap sets.
From Stdlib Require Import ZArith Lia Bool.
From S2P Require Import Prelude Bytes Str Mem Pmm Vmm Scheduler SchedInv SchedRuns SchedDemo Blocking.
Import Vmm Scheduler Blocking.

Definition mutex_q : Z := 7.
Definition mutex_free : Mutex := Mutex_new mutex_q.
Definition mutex_held : Mutex := mkMutex true mutex_q.

(** After the worker parks. *)
Definition sched_k4 : KState := snd (reschedule (Block mutex_q) sched_k3).

Definition mutex_w0 : world Mutex := mkWorld sched_k2 mutex_free ∅ 0.
Definition mutex_w1 : world Mutex := mkWorld sched_k2 mutex_held (delete (id boot_thread) ∅) (0 + 1).
Definition mutex_w2 : world Mutex := mkWorld sched_k3 mutex_held (delete (id boot_thread) ∅) (0 + 1).
Definition mutex_w3 : world Mutex := mkWorld sched_k4 mutex_held (<[id sched_worker := Waiting]> (delete (id boot_thread) ∅)) (0 + 1).
Definition mutex_w4 : world Mutex :=
  mkWorld sched_k4 (unlock mutex_held) (<[id boot_thread := Releasing]> (<[id sched_worker := Waiting]> (delete (id boot_thread) ∅))) (0 + 1 - 1).

Lemma mutex_fresh : fresh_gate mutex_w0.
Proof.
  split; [|split; [exact I|split; [vm_compute; reflexivity|split; reflexivity]]].
  exact (run_live _ _ _ _ _ (init_live _ _ _ _ sched_boot eq_refl (proj1 sched_init) (proj2 sched_init)) sched_spawned).
Qed.

Lemma mutex_locked_run : gate_run 1 3 mutex_w0 mutex_w1.
Proof.
  eapply gr_step; [apply gr_refl|].
  apply (gs_taken 1 3 sched_k2 mutex_free ∅ 0 boot_thread 0 mutex_held sched_k2).
  - vm_compute. reflexivity.
  - reflexivity.
  - discriminate.
  - reflexivity.
Qed.

Lemma mutex_contended_run : gate_run 1 3 mutex_w0 mutex_w4.
Proof.
  eapply gr_step; [eapply gr_step; [eapply gr_step; [exact mutex_locked_run|]|]|].
  - eapply (gs_other 1 3 sched_k2 mutex_held (delete (id boot_thread) ∅) (0 + 1) boot_thread OpTimer sched_k3).
    + vm_compute. reflexivity.
    + by right.
    + exact I.
    + exact I.
    + apply (ran (exec 1 3 OpTimer) sched_k2 sched_k3); [unfold sched_k3; reflexivity|vm_compute; reflexivity].
  - eapply (gs_parked 1 3 sched_k3 mutex_held (delete (id boot_thread) ∅) (0 + 1) sched_worker 0 mutex_held sched_k4).
    + vm_compute. reflexivity.
    + vm_compute. reflexivity.
    + vm_compute. discriminate.
    + unfold wait_round. cbn [attempt mutex_gate swap_locked locked mutex_held negb mutex_queue].
      rewrite (bind_ok get _ sched_k3 sched_k3 sched_k3 eq_refl).
      replace (READY sched_k3) with true by (vm_compute; reflexivity). cbn [negb].
      rewrite (bind_ok _ _ sched_k3 tt sched_k4); [reflexivity|].
      apply (ran (reschedule _) sched_k3 sched_k4); [unfold sched_k4; reflexivity|vm_compute; reflexivity].
  - unfold mutex_w4. change (unlock mutex_held) with (give mutex_held). eapply gs_given; vm_compute; reflexivity.
Qed.


Lemma mutex_excludes_witness : out mutex_w1 = if locked (gate mutex_w1) then 1 else 0.
Proof. exact (mutex_excludes 1 3 mutex_w0 mutex_w1 mutex_fresh eq_refl mutex_locked_run). Defined.
