(* ===== verification/Process.v ===== *)
(** * Processes: [process.rs]

    The process table, the descriptor table a process starts with, the initial
    user stack, and starting a program: reading it, making its address space,
    loading it, building its stack and handing it to the scheduler.  The kernel
    state of this layer is the scheduler's, the mounted filesystems and the two
    tables.  Between [irq_save] and [irq_restore] nothing else runs, so starting
    a program is one step here; log lines are left out. *)
From Stdlib Require Import String.
From stdpp Require Import base numbers list gmap sets.
From Stdlib Require Import ZArith Lia Bool.
From S2P Require Import Prelude Bytes Str Block Initramfs Vfs Mem Pmm Vmm Elf Scheduler.
Import Vmm Scheduler.

Module Process.

Definition USER_STACK_TOP : Z := 0x00007ffffffff000.
Definition USER_STACK_PAGES : Z := 16.
Definition INIT_PATH : str := lit "/init".

Record Proc := mkProc { pid : Z; parent : Z; pname : str; status : option Z }.
Record ProcessInfo := mkInfo { info_pid : Z; info_name : str; info_status : option Z }.

Inductive SpawnError := NotFound | ElfError (e : Elf.ElfError) | NoMemory | NoThread.

Inductive FdKind := Stdin | Stdout | Stderr | Console | Null | Zero | Urandom | File.
#[global] Instance FdKind_eq_dec : EqDecision FdKind.
Proof. solve_decision. Defined.

Record OpenFile := mkFile {
  f_pid : Z; f_fd : Z; f_kind : FdKind; f_path : str; f_offset : Z;
  f_readable : bool; f_writable : bool; f_append : bool
}.

(** ** The tables, as lists *)

(** [iter().position(p)]. *)
Fixpoint position {A} (p : A → bool) (l : list A) : option nat :=
  match l with
  | [] => None
  | x :: l => if p x then Some O else S <$> position p l
  end.

Definition register (p par : Z) (nm : str) (procs : list Proc) : list Proc :=
  match position (λ r, pid r =? p) procs with
  | Some i => alter (λ r, mkProc (pid r) par nm (status r)) i procs
  | None => procs ++ [mkProc p par nm None]
  end.

(** The part of [exit_current] on the process table. *)
Definition record_exit (p code : Z) (procs : list Proc) : list Proc :=
  match position (λ r, pid r =? p) procs with
  | Some i => alter (λ r, mkProc (pid r) (parent r) (pname r) (Some code)) i procs
  | None => procs ++ [mkProc p 0 [] (Some code)]
  end.

Definition has_exited (r : Proc) : bool := match status r with Some _ => true | None => false end.

Definition take_exit_status (p : Z) (procs : list Proc) : option Z * list Proc :=
  match position (λ r, (pid r =? p) && has_exited r) procs with
  | None => (None, procs)
  | Some i => (procs !! i ≫= status, swap_remove i procs)
  end.

(** [None] when the caller has no such child. *)
Definition take_child_exit_status (par p : Z) (procs : list Proc) : option (option (Z * Z)) * list Proc :=
  let any := (p =? u64_max) || (p =? 0) in
  let child := λ r, (parent r =? par) && (any || (pid r =? p)) in
  if negb (existsb child procs) then (None, procs)
  else
    match position (λ r, child r && has_exited r) procs with
    | None => (Some None, procs)
    | Some i => (Some (r ← procs !! i; st ← status r; Some (pid r, st)), swap_remove i procs)
    end.

Definition list_procs (procs : list Proc) : list ProcessInfo :=
  List.map (λ r, mkInfo (pid r) (pname r) (status r)) procs.

(** [retain], then the three standard streams. *)
Definition init_process_files (p : Z) (files : list OpenFile) : list OpenFile :=
  List.filter (λ f, negb (f_pid f =? p)) files ++
  [mkFile p 0 Stdin [] 0 true false false; mkFile p 1 Stdout [] 0 false true false; mkFile p 2 Stderr [] 0 false true false].

Definition close_process_files (p : Z) (files : list OpenFile) : list OpenFile :=
  List.filter (λ f, negb (f_pid f =? p)) files.

(** ** The initial stack *)
Notation P := (M PState Empty_set).

(** The pages of the stack from page [i] down; the frame of the topmost. *)
Fixpoint stack_pages (n : nat) (aspace i top_frame : Z) : P (option Z) :=
  match n with
  | O => ret (Some top_frame)
  | S n =>
      let! o := alloc_frame_zeroed in
      match o with
      | None => ret None
      | Some phys =>
          let! off := lift (mul64 (i + 1) PAGE_SIZE) in
          let! virt := lift (sub64 USER_STACK_TOP off) in
          Vmm.map aspace virt phys USER_RW ;;!
          stack_pages n aspace (i + 1) (if i =? 0 then phys else top_frame)
      end
  end.

Definition page_base : Z := USER_STACK_TOP - PAGE_SIZE.

(** The closure [write]: into the topmost page, through the direct map. *)
Definition write_top (top_frame virt : Z) (bytes : list Z) : P unit :=
  let! off := lift (sub64 virt page_base) in
  if off + Z.of_nat (length bytes) <=? PAGE_SIZE
  then λ s, (Ok tt, set_phys_mem s (write_bytes (phys_mem s) (top_frame + off) bytes))
  else panic.

(** The strings, last first, below [cursor]; the pointers in that order. *)
Fixpoint push_strings (top_frame : Z) (values : list str) (cursor : Z) (ptrs : list Z) : P (option (Z * list Z)) :=
  match values with
  | [] => ret (Some (cursor, ptrs))
  | v :: values =>
      if 255 <? Z.of_nat (length v) then ret None
      else
        match checked_sub cursor (Z.of_nat (length v) + 1) with
        | None => ret None
        | Some cursor =>
            if cursor <? page_base then ret None
            else write_top top_frame cursor v ;;! push_strings top_frame values cursor (ptrs ++ [cursor])
        end
  end.

Fixpoint write_words (top_frame sp : Z) (i : Z) (words : list Z) : P unit :=
  match words with
  | [] => ret tt
  | w :: words => write_top top_frame (sp + i * 8) (le_bytes 8 w) ;;! write_words top_frame sp (i + 1) words
  end.

Definition build_stack (aspace : Z) (argv env : list str) : P (option Z) :=
  let! o := stack_pages (Z.to_nat USER_STACK_PAGES) aspace 0 0 in
  match o with
  | None => ret None
  | Some top_frame =>
      let! o := push_strings top_frame (rev argv) USER_STACK_TOP [] in
      match o with
      | None => ret None
      | Some (cursor, argv_ptrs) =>
          let! o := push_strings top_frame (rev env) cursor [] in
          match o with
          | None => ret None
          | Some (cursor, env_ptrs) =>
              let words := [Z.of_nat (length argv)] ++ rev argv_ptrs ++ [0] ++ rev env_ptrs ++ [0; 0; 0] in
              match checked_sub cursor (Z.of_nat (length words) * 8) with
              | None => ret None
              | Some below =>
                  let sp := Z.land below (not64 0xf) in
                  if sp <? page_base then ret None
                  else write_words top_frame sp 0 words ;;! ret (Some sp)
              end
          end
      end
  end.

(** ** Starting and ending processes *)
Section Kernel.
Context {D : Type} `{BlockDevice D}.

Record Kernel := mkKernel {
  sched : KState;
  vfs : Vfs.VfsState D;
  PROCS : list Proc;
  OPEN_FILES : list OpenFile
}.

Definition set_sched (k : Kernel) (s : KState) : Kernel := mkKernel s (vfs k) (PROCS k) (OPEN_FILES k).
Definition set_vfs (k : Kernel) (v : Vfs.VfsState D) : Kernel := mkKernel (sched k) v (PROCS k) (OPEN_FILES k).
Definition set_procs (k : Kernel) (p : list Proc) : Kernel := mkKernel (sched k) (vfs k) p (OPEN_FILES k).
Definition set_files (k : Kernel) (f : list OpenFile) : Kernel := mkKernel (sched k) (vfs k) (PROCS k) f.

(** The layers below, run on their part of the state. *)
Definition no_error {E A} (r : res Empty_set A) : res E A := map_err (λ e : Empty_set, match e with end) r.

Definition on_sched {E A} (m : M KState Empty_set A) : M Kernel E A := λ k,
  let '(r, s) := m (sched k) in (no_error r, set_sched k s).
Definition on_vfs {A} (m : M (Vfs.VfsState D) Vfs.FsError A) : M Kernel Vfs.FsError A := λ k,
  let '(r, v) := m (vfs k) in (r, set_vfs k v).
Definition on_memory {E A} (m : M PState E A) : M Kernel E A := λ k,
  let s := sched k in
  let '(r, p) := m (pst (vst s)) in (r, set_sched k (set_vst s (set_pst (vst s) p))).

(** Dropping an address space. *)
Definition drop_space {E} (aspace : Z) : M Kernel E unit := on_sched (on_frames (free_user_half aspace)).

Section Spawn.
Context (thread_trampoline user_thread_main : Z).

(** The last steps of [spawn_with]: a thread for the program, its record and
    its standard streams. *)
Definition start_thread (path : str) (aspace entry rsp : Z) : M Kernel SpawnError Z :=
  let! o := on_sched (spawn_user thread_trampoline user_thread_main (lit "user") aspace entry rsp) in
  match o with
  | None => fail NoThread
  | Some p =>
      (λ k, (Ok p, set_procs (set_files k (init_process_files p (OPEN_FILES k)))
              (register p (current_id (sched k)) path (PROCS k))))
  end.

Definition spawn_with (path : str) (argv env : list str) : M Kernel SpawnError Z :=
  let! image := mmap_err (λ _, NotFound) (on_vfs (Vfs.read_all path)) in
  let! o := on_sched (on_vmm create_address_space) in
  match o with
  | None => fail NoMemory
  | Some aspace =>
      let! r := catch (on_memory (Elf.load image aspace)) in
      match r with
      | inr e => drop_space aspace ;;! fail (ElfError e)
      | inl entry =>
          let! o := on_sched (on_frames (build_stack aspace argv env)) in
          match o with
          | None => drop_space aspace ;;! fail NoMemory
          | Some rsp =>
              start_thread path aspace entry rsp
          end
      end
  end.

Definition spawn_path (path : str) : M Kernel SpawnError Z := spawn_with path [path] [].

(** [WAIT_FOR_INIT] is [false]: the kernel does not wait for it. *)
Definition start_init : M Kernel Empty_set unit := ignore (spawn_path INIT_PATH).
End Spawn.

Definition exit_current (code : Z) : M Kernel Empty_set unit :=
  (λ k, let p := current_id (sched k) in
        (Ok tt, set_procs (set_files k (close_process_files p (OPEN_FILES k))) (record_exit p code (PROCS k)))) ;;!
  on_sched exit.
End Kernel.
End Process.
