(* ===== verification/ProcSpace.v ===== *)
(** * The frames of a process under construction

    While a program is being started, every frame that was free is free,
    belongs to the new address space, or is held for a page to be mapped; so
    dropping the address space gives back all of them. *)
From Stdlib Require Import String.
From stdpp Require Import base numbers list gmap sets.
From Stdlib Require Import ZArith Lia Bool.
From S2P Require Import Prelude Bytes Str Mem Pmm Vmm VmmTables VmmUser VmmSpace Elf ElfParse ElfLoad.
Import Vmm Elf.

(** [own] are the frames that were free at the start, [l] the pages not yet
    mapped. *)
Record space (own : gset Z) (root : Z) (s : PState) (pm : Pmm) (l : list (Z * Page)) : Prop := {
  sp_inv : vm_inv s pm root;
  sp_half : user_half (phys_mem s) pm root;
  sp_ready : ∀ va p, (va, p) ∈ l → ready (phys_mem s) pm root va p;
  sp_keys : NoDup (List.map fst l);
  sp_inj : ∀ va p va' p', (va, p) ∈ l → (va', p') ∈ l → phys p = phys p' → va = va';
  sp_frames : ∀ g, g ∈ own ↔
    g ∈ free_set pm ∨ user_frame (phys_mem s) root (g * PAGE_SIZE) ∨ ∃ va p, (va, p) ∈ l ∧ phys p = g * PAGE_SIZE
}.

Lemma look_same_page m root v w : same_page v w → look m root v = look m root w.
Proof. intros (E0 & E1 & E2 & E3). unfold look. by rewrite E0, E1, E2, E3. Qed.

Lemma user_index v : 0 ≤ v < USER_SPACE_END → index v 0 < 256.
Proof.
  intros Hv. rewrite index_div by lia. change (2 ^ (27 - 9 * 0)) with 134217728.
  unfold USER_SPACE_END, PAGE_SIZE in *. Z.div_mod_to_equations. lia.
Qed.

Lemma prefix_user v q : 0 ≤ v < USER_SPACE_END → q `prefix_of` leaf_path v → q ≠ [] → path_ok q ∧ user_path q.
Proof.
  intros Hv [r Hr] Hne. pose proof (leaf_path_ok v) as [Hl Hf]. rewrite Hr in Hl, Hf. rewrite length_app in Hl.
  apply Forall_app in Hf as [Hf _]. split; [split; [lia|done]|]. split; [done|]. intros i r' ->.
  cbn in Hr. injection Hr as <- _. by apply user_index.
Qed.

(** Mapping a page moves its frame to the address space. *)
Lemma user_frame_mapped root s pm s' pm' va p x : 0 ≤ va < USER_SPACE_END → look (phys_mem s) root va = None →
  mapped root s pm s' pm' va (leaf_entry (phys p) (page_flags p)) →
  Z.land (leaf_entry (phys p) (page_flags p)) ADDR_MASK = phys p →
  (user_frame (phys_mem s') root x →
     user_frame (phys_mem s) root x ∨ x = phys p ∨ ∃ g, x = g * PAGE_SIZE ∧ g ∈ free_set pm) ∧
  (user_frame (phys_mem s) root x ∨ x = phys p → user_frame (phys_mem s') root x).
Proof.
  intros Hva Hn [_ _ _ Hnew Hl _ _ Ht _] Ea.
  assert (Hp : present 3 (leaf_entry (phys p) (page_flags p)) = Some (3, leaf_entry (phys p) (page_flags p))).
  { unfold present, leaf_entry. change PRESENT with (Z.shiftl 1 0). rewrite has_pow2, Z.lor_spec by lia. by rewrite orb_true_r. }
  split.
  - intros [(q & Hq & Hu & E)|(v & e & Hv & E & Ex)].
    + destruct (Hnew q x Hq E) as [?|(g & -> & Hg & _)]; [left; left; by exists q|right; right; by exists g].
    + rewrite Hl in E. case_decide; [|left; right; by exists v, e]. rewrite Hp in E. injection E as <-. right. left. congruence.
  - intros [[(q & Hq & Hu & E)|(v & e & Hv & E & Ex)]| ->].
    + left. exists q. split; [done|]. split; [done|]. by apply Ht.
    + right. exists v, e. split; [done|]. split; [|done]. rewrite Hl, decide_False; [done|].
      intros Hs. rewrite (look_same_page _ _ _ _ Hs), Hn in E. done.
    + right. exists va, (leaf_entry (phys p) (page_flags p)). split; [done|]. split; [|done]. by rewrite Hl, decide_True, Hp.
Qed.

Notation map_item root := (λ p : Z * Page, map root (fst p) (phys (snd p)) (page_flags (snd p))).

Lemma space_map own root s pm va p l : space own root s pm ((va, p) :: l) →
  ((size (free_set pm) < 3)%nat ∧ fst (map_item root (va, p) s) = Panic) ∨
  ∃ s' pm', map_item root (va, p) s = (Ok tt, s') ∧
    mapped root s pm s' pm' va (leaf_entry (phys p) (page_flags p)) ∧ space own root s' pm' l.
Proof.
  intros [Hinv Hh Hr Hk Hi Hf]. pose proof (Hr va p ltac:(left)) as Hready. pose proof Hready as [[Hv Hal] Hn _ _ _].
  destruct (map_one root s pm va p Hinv Hh Hready) as [?|(s' & pm' & E & Hm & Hh' & Ea)]; [by left|right].
  exists s', pm'. split; [done|]. split; [done|]. cbn [List.map fst] in Hk. apply NoDup_cons in Hk as [Hk Hk'].
  assert (Hin : ∀ va' p', (va', p') ∈ l → va' ≠ va ∧ phys p' ≠ phys p).
  { intros va' p' H. assert (va' ≠ va).
    - intros ->. apply Hk. apply list_elem_of_In, List.in_map_iff. exists (va, p'). by rewrite <- list_elem_of_In.
    - split; [done|]. intros E'. apply H0. eapply Hi; [by right|by left|done]. }
  split; [apply Hm|done| |done| |].
  - intros va' p' H. destruct (Hin va' p' H). apply (ready_next root s pm s' pm' va p); try done. apply Hr. by right.
  - intros va1 p1 va2 p2 H1 H2. apply Hi; by right.
  - intros g. rewrite Hf. destruct (user_frame_mapped root s pm s' pm' va p (g * PAGE_SIZE) Hv Hn Hm Ea) as [U1 U2].
    destruct Hm as [_ Hfree _ _ _ _ _ _ Hused]. split.
    + intros [Hg|[Hu|(va' & p' & H & Ep)]].
      * destruct (decide (g ∈ free_set pm')) as [|Hg']; [by left|]. right. left. left.
        destruct (Hused g Hg Hg') as (q & Hq & Hne & E'). destruct (prefix_user va q Hv Hq Hne). by exists q.
      * right. left. apply U2. by left.
      * apply elem_of_cons in H as [[= -> ->]|H]; [|right; right; by exists va', p']. right. left. apply U2. right. done.
    + intros [Hg|[Hu|(va' & p' & H & Ep)]].
      * left. by apply Hfree.
      * destruct (U1 Hu) as [?|[Ep|(g' & Eg & Hg')]]; [right; by left|right; right; exists va, p; split; [left|done]|].
        left. by replace g with g' by (unfold PAGE_SIZE in Eg; lia).
      * right. right. exists va', p'. split; [by right|done].
Qed.

Lemma space_map_all own root l : ∀ s pm, space own root s pm l →
  ((size (free_set pm) < 3 * length l)%nat ∧ fst (mfor l (map_item root) s) = Panic) ∨
  ∃ s' pm', mfor l (map_item root) s = (Ok tt, s') ∧ space own root s' pm' [] ∧
    (size (free_set pm) ≤ size (free_set pm') + 3 * length l)%nat ∧
    (∀ v va p, (va, p) ∈ l → same_page v va → look (phys_mem s') root v = Some (3, leaf_entry (phys p) (page_flags p))) ∧
    (∀ v, (∀ va p, (va, p) ∈ l → ¬ same_page v va) → look (phys_mem s') root v = look (phys_mem s) root v) ∧
    (∀ x, private (phys_mem s) pm root x → read8 (phys_mem s') x = read8 (phys_mem s) x ∧ private (phys_mem s') pm' root x).
Proof.
  induction l as [|[va p] l IH]; intros s pm Hs.
  - right. exists s, pm. split; [done|]. split; [done|]. split; [cbn; lia|]. split; [|done]. intros v va p H. by apply not_elem_of_nil in H.
  - cbn [mfor]. unfold bind. destruct (space_map own root s pm va p l Hs) as [[Hz E]|(s1 & pm1 & E & Hm & Hs1)].
    + left. split; [cbn [length]; lia|]. destruct (map_item root (va, p) s) as [[] ?]; done.
    + rewrite E. pose proof (mp_size _ _ _ _ _ _ _ Hm) as Hz. cbn [length].
      destruct (IH s1 pm1 Hs1) as [[Hz' E']|(s' & pm' & E' & Hs' & Hz' & Hi & Hl & Hp)]; [left; split; [lia|done]|right].
      exists s', pm'. split; [done|]. split; [done|]. split; [lia|].
      destruct Hs as [_ _ Hr Hk _ _]. cbn [List.map fst] in Hk. apply NoDup_cons in Hk as [Hk _].
      assert (Hne : ∀ v va' p', (va', p') ∈ l → same_page v va → ¬ same_page v va').
      { intros v va' p' H S1 S2. apply Hk. replace va with va'; [apply list_elem_of_In, List.in_map_iff; exists (va', p'); by rewrite <- list_elem_of_In|].
        destruct (rd_va _ _ _ _ _ (Hr va p ltac:(left))) as [V1 A1], (rd_va _ _ _ _ _ (Hr va' p' ltac:(by right))) as [V2 A2].
        apply same_page_aligned; try done. destruct S1 as (A & B & C & D), S2 as (A' & B' & C' & D'). repeat split; congruence. }
      split; [|split].
      * intros v va' p' [[= -> ->]|H]%elem_of_cons Hv; [|by apply (Hi v va')].
        rewrite Hl by (intros; by eapply Hne). rewrite (mp_look _ _ _ _ _ _ _ Hm), decide_True by done.
        unfold present, leaf_entry. change PRESENT with (Z.shiftl 1 0). rewrite has_pow2, Z.lor_spec by lia. by rewrite orb_true_r.
      * intros v Hv. rewrite Hl, (mp_look _ _ _ _ _ _ _ Hm), decide_False; [done| |].
        -- apply (Hv va p). left.
        -- intros va' p' H. apply (Hv va' p'). by right.
      * intros x Hx. destruct (Hp x) as [E1 Hx1]; [by apply (private_mapped root s pm s1 pm1 va (leaf_entry (phys p) (page_flags p)))|].
        split; [|done]. rewrite E1. by apply (mp_mem _ _ _ _ _ _ _ Hm).
Qed.

(** Frames taken for pages that are not mapped yet. *)
Lemma space_own own root s pm s1 pm1 pages : space own root s pm [] → owning pm (phys_mem s) s1 pm1 pages →
  (∀ va p, pages !! va = Some p → 0 ≤ va < USER_SPACE_END ∧ va mod PAGE_SIZE = 0 ∧ look (phys_mem s) root va = None) →
  space own root s1 pm1 (items pages).
Proof.
  intros [Hinv Hh _ _ _ Hf] Ho Hva. pose proof Hinv as [Hs Hi Htop Ht].
  assert (Hi1 : vm_inv s1 pm1 root).
  { split; [apply (ow_pmm _ _ _ _ _ Ho)|apply (ow_inv _ _ _ _ _ Ho)|by rewrite (ow_total _ _ _ _ _ Ho)|].
    by apply (tree_owned _ _ _ _ _ _ Ht Ho). }
  split; [done|by apply (user_half_owned _ _ _ _ _ _ Ht Ho)| |apply NoDup_items| |].
  - intros va p Hp%elem_of_items. destruct (Hva va p Hp) as (Hv & Hal & Hn).
    destruct (ow_frame _ _ _ _ _ Ho va p Hp) as (g & Eg & Hg). split.
    + done.
    + by rewrite (look_owned _ _ _ _ _ _ Ht Ho).
    + exists g. split; [done|]. rewrite (ow_total _ _ _ _ _ Ho). split; [by apply free_set_range|].
      intros [_ H]%(ow_free _ _ _ _ _ Ho). by apply (H va p).
    + intros q Hq. rewrite (tbl_owned _ _ _ _ _ _ Ht Ho), Eg by done. intros E. by apply (fresh_frame _ _ _ g q _ Ht Hg Hq E).
    + intros v e Hvv. rewrite (look_owned _ _ _ _ _ _ Ht Ho). intros E E'.
      destruct (uh_leaf _ _ _ Hh v 3 e Hvv E) as (_ & x & Ex & _ & Hx & _). apply Hx.
      by replace x with g by (unfold PAGE_SIZE in *; lia).
  - intros va p va' p' Hp%elem_of_items Hp'%elem_of_items. by apply (ow_inj _ _ _ _ _ Ho va va').
  - intros g. rewrite Hf, (ow_free _ _ _ _ _ Ho). unfold user_frame.
    setoid_rewrite (look_owned _ _ _ _ _ _ Ht Ho). split.
    + intros [Hg|[Hu|(va & p & H & _)]]; [| |by apply not_elem_of_nil in H].
      * destruct (decide (map_Exists (λ _ p, phys p = g * PAGE_SIZE) pages)) as [He|He].
        -- right. right. destruct He as (va & p & Hp & Ep). exists va, p. by rewrite elem_of_items.
        -- left. split; [done|]. intros va p Hp Ep. apply He. by exists va, p.
      * right. left. destruct Hu as [(q & Hq & Hu & E)|?]; [left|by right]. exists q.
        by rewrite (tbl_owned _ _ _ _ _ _ Ht Ho).
    + intros [[Hg _]|[Hu|(va & p & H%elem_of_items & Ep)]].
      * by left.
      * right. left. destruct Hu as [(q & Hq & Hu & E)|?]; [left|by right]. exists q.
        by rewrite (tbl_owned _ _ _ _ _ _ Ht Ho) in E.
      * left. destruct (ow_frame _ _ _ _ _ Ho va p H) as (g' & Eg & Hg').
        by replace g with g' by (unfold PAGE_SIZE in *; lia).
Qed.

(** Changes of memory outside the tables. *)
Lemma space_write own root s pm s' : space own root s pm [] → s' = set_phys_mem s (phys_mem s') →
  (∀ x, ¬ private (phys_mem s) pm root x → read8 (phys_mem s') x = read8 (phys_mem s) x) → space own root s' pm [].
Proof.
  intros [[Hs Hi Htop Ht] [Hu1 Hu2] Hr Hk Hin Hf] Es Hm. set (m := phys_mem s) in *. set (m' := phys_mem s') in *.
  pose proof (look_private m m' pm root Ht Hm) as Hl. pose proof (tbl_private m m' pm root Ht Hm) as Htb.
  split; [split; [by rewrite Es|done|done|by apply (tree_private m m' pm root Ht Hm)]| | |done|done|].
  - split.
    + intros v lvl e Hv. rewrite Hl. intros E. destruct (Hu1 v lvl e Hv E) as (El & g & Eg & Hg & Hn & Hq).
      split; [done|]. exists g. split; [done|]. split; [done|]. split; [done|]. intros q Hqo. rewrite Htb by done. by apply Hq.
    + intros v w e e'. rewrite !Hl. apply Hu2.
  - intros va p H. by apply not_elem_of_nil in H.
  - intros g. rewrite Hf. unfold user_frame. fold m m'. setoid_rewrite Hl. split; (intros [?|[[(q & Hq & Hu & E)|?]|?]];
      [by left|right; left; left; exists q; by rewrite ?Htb in * by done|right; left; by right|right; by right]).
Qed.

(** ** Loading *)
Lemma load_touched image segs va : Forall (segment_ok image) segs → va mod PAGE_SIZE = 0 → touched segs va = true → LOAD_MIN ≤ va < LOAD_MAX.
Proof.
  intros Hok Hal Ht. unfold touched in Ht. apply existsb_exists in Ht as (s & Hs & Ht). apply list_elem_of_In in Hs.
  rewrite Forall_forall in Hok. destruct (Hok s Hs) as [Hmin Hmax _ _ _ _ _].
  unfold touches, span in Ht. apply andb_true_iff in Ht as [H1%Z.leb_le H2%Z.ltb_lt].
  unfold first_page, end_page, LOAD_MIN, LOAD_MAX, PAGE_SIZE in *. Z.div_mod_to_equations. lia.
Qed.

(** How a load can end: it panics only for want of frames for the tables, and
    otherwise leaves every frame accounted for. *)
Inductive load_end (image : list Z) (root : Z) (s : PState) (pm : Pmm) (s' : PState) (pm' : Pmm) : res ElfError Z → Prop :=
  | le_format e : parse image = Err e → load_end image root s pm s' pm' (Err e)
  | le_clash entry segs : parse image = Ok (entry, segs) → wx_clash segs → load_end image root s pm s' pm' (Err WritableExecutable)
  | le_memory entry segs : parse image = Ok (entry, segs) → Z.of_nat (size (free_set pm)) < total_seg_pages segs →
      load_end image root s pm s' pm' (Err Elf.NoMemory)
  | le_loaded entry segs : parse image = Ok (entry, segs) → well_formed image entry segs → ¬ wx_clash segs →
      Z.of_nat (size (free_set pm)) ≤ Z.of_nat (size (free_set pm')) + 4 * total_seg_pages segs →
      (∀ v, touched segs (v / PAGE_SIZE * PAGE_SIZE) = true → loaded image segs (phys_mem s') root v) →
      load_end image root s pm s' pm' (Ok entry).

Lemma space_load own root image s pm : space own root s pm [] → bytes_ok image → Z.of_nat (length image) < 2^63 →
  (∀ v, LOAD_MIN ≤ v < LOAD_MAX → look (phys_mem s) root v = None) →
  (fst (load image root s) = Panic ∧ ∃ entry segs, parse image = Ok (entry, segs) ∧
     Z.of_nat (size (free_set pm)) < 4 * total_seg_pages segs) ∨
  ∃ r s' pm', load image root s = (r, s') ∧ space own root s' pm' [] ∧
    (∀ v, 0 ≤ v < USER_SPACE_END → ¬ (LOAD_MIN ≤ v < LOAD_MAX) → look (phys_mem s') root v = look (phys_mem s) root v) ∧
    load_end image root s pm s' pm' r.
Proof.
  intros Hsp Hb Hlen Hfree. pose proof Hsp as [[Hs Hi Htop Ht] Hh _ _ _ _]. unfold load.
  destruct (parse_decides image Hb Hlen) as [(entry & segs & Hw & E)|[_ [e' E]]]; rewrite E.
  2:{ right. exists (Err e'), s, pm. split; [done|]. split; [done|]. split; [done|]. by constructor. }
  pose proof (wf_ok _ _ _ Hw) as Hok.
  destruct (populate_spec image segs s pm Hs Hi Hlen Hok) as (s1 & pm1 & pages & Ho & H).
  assert (Hback : ∃ s2 pm2, free_pages pages s1 = (Ok tt, s2) ∧ space own root s2 pm2 [] ∧
    ∀ v, look (phys_mem s2) root v = look (phys_mem s) root v).
  { destruct (free_pages_spec _ _ _ _ _ Ho) as (s2 & pm2 & E2 & Hs2 & Hi2 & Hm2 & Hf2 & Ht2). exists s2, pm2. split; [done|].
    pose proof (look_owned _ _ _ _ _ _ Ht Ho) as Hl. pose proof (tbl_owned _ _ _ _ _ _ Ht Ho) as Htb.
    pose proof (tree_owned _ _ _ _ _ _ Ht Ho) as Ht1. split; [|intros v; by rewrite Hm2, Hl].
    destruct Hsp as [_ [Hu1 Hu2] _ _ _ Hf]. split; rewrite ?Hm2.
    - split; [done|done|by rewrite Ht2|]. rewrite Hm2. destruct Ht1 as [T1 T2 T3 T4]. split; try done.
      intros q a Hq. rewrite Htb, Ht2, Hf2 by done. by apply (tr_frame _ _ _ Ht).
    - split; intros v; [intros lvl e Hv|intros w e e']; rewrite !Hl, ?Ht2, ?Hf2; [|apply Hu2].
      intros E'. destruct (Hu1 v lvl e Hv E') as (El & g & Eg & Hg & Hn & Hq).
      split; [done|]. exists g. split; [done|]. split; [done|]. split; [done|]. intros q Hqo. rewrite Htb by done. by apply Hq.
    - intros va p H'. by apply not_elem_of_nil in H'.
    - constructor.
    - intros va p va' p' H'. by apply not_elem_of_nil in H'.
    - intros g. rewrite Hf, Hf2. unfold user_frame. setoid_rewrite Hl. split; (intros [?|[[(q & Hq & Hu & Eq)|?]|?]];
        [by left|right; left; left; exists q; by rewrite ?Htb in * by done|right; left; by right|right; by right]). }
  destruct Hback as (s2 & pm2 & E2 & Hs2 & Hl2).
  destruct H as [(E1 & Hf & Hc & Hpg)|[(E1 & Hc)|(E1 & Hlow)]]; rewrite E1.
  2-3: rewrite E2; right; eexists _, s2, pm2; split; [done|]; split; [done|]; split; [done|]; by econstructor.
  assert (Hva : ∀ va p, pages !! va = Some p → LOAD_MIN ≤ va < LOAD_MAX ∧ va mod PAGE_SIZE = 0).
  { intros va p Hp. destruct (proj1 (fi_dom _ _ _ _ _ _ Hf va)) as [Hal Htc]; [by eexists|].
    split; [by apply (load_touched image segs)|done]. }
  assert (Hs1 : space own root s1 pm1 (items pages)).
  { apply (space_own own root s pm); [done|done|]. intros va p Hp. destruct (Hva va p Hp) as [Hr Hal].
    split; [unfold LOAD_MIN, LOAD_MAX, USER_SPACE_END in *; lia|]. split; [done|by apply Hfree]. }
  pose proof (ow_count _ _ _ _ _ Ho) as Hct.
  destruct (space_map_all own root (items pages) s1 pm1 Hs1) as [[Hz E3]|(s3 & pm3 & E3 & Hs3 & Hz & Hi3 & Hl3 & Hp3)]; rewrite length_items in Hz.
  { left. split; [|exists entry, segs; split; [done|lia]]. destruct (mfor (items pages) _ s1) as [[[]|[]| |] s3]; done. }
  rewrite E3. right. exists (Ok entry), s3, pm3. split; [done|]. split; [done|]. split.
  - intros v Hv Hout. rewrite Hl3; [by apply (look_owned _ _ _ _ _ _ Ht Ho)|]. intros va p Hp%elem_of_items Hsp'.
    destruct (Hva va p Hp) as [Hr Hal]. apply Hout. apply same_page_user in Hsp'; [|unfold USER_SPACE_END, LOAD_MIN, LOAD_MAX in *; lia..].
    unfold LOAD_MIN, LOAD_MAX, PAGE_SIZE, USER_SPACE_END in *. Z.div_mod_to_equations. lia.
  - apply (le_loaded _ _ _ _ _ _ entry segs); try done; [lia|]. intros v Htv.
    assert (Hfw : ∀ v, LOAD_MIN ≤ v < LOAD_MAX → walk (phys_mem s) root v = None).
    { intros w Hw'. by rewrite (walk_look _ _ _ Ht), Hfree. }
    apply (loaded_page image root s pm entry segs (sp_inv _ _ _ _ _ Hsp) Hh Hw Hfw s1 pm1 pages Ho Hf s3 pm3); try done.
    + apply Hs3.
    + intros x Hx. by apply Hp3.
Qed.

(** ** Making and dropping the address space *)
Lemma space_create s pm kroot : VMM s = Some kroot → vm_inv (pst s) pm kroot → mem_ok (phys_mem (pst s)) →
  (free_set pm = ∅ ∧ ∃ s', create_address_space s = (Ok None, s') ∧ PMM (pst s') = Some pm ∧ s' = set_pst s (pst s')) ∨
  ∃ root s' pm', create_address_space s = (Ok (Some root), s') ∧ space (free_set pm) root (pst s') pm' [] ∧
    s' = set_pst s (pst s') ∧ size (free_set pm) = S (size (free_set pm')) ∧ ∀ v, 0 ≤ v < USER_SPACE_END → look (phys_mem (pst s')) root v = None.
Proof.
  intros Hv Hinv Hm. pose proof Hinv as [Hpmm Hpi Htop Ht].
  destruct (decide (free_set pm = ∅)) as [E0|Hne].
  { left. split; [done|]. destruct (alloc_frame_zeroed_spec (pst s) pm Hpmm Hpi) as [[_ Ea]|(f & pm' & Hf & _)]; [|set_solver].
    eexists. unfold create_address_space. rewrite Hv. unfold on_pmm, bind. rewrite Ea. done. }
  right. assert (Hsz : (1 ≤ size (free_set pm))%nat).
  { destruct (size (free_set pm)) eqn:Es; [|lia]. apply size_empty_inv in Es. set_solver. }
  destruct (create_effect s pm kroot Hv Hinv Hm Hsz) as (f & pm' & m' & Hrun & Hf & Hpi' & Efree & Etot & Hold & Hnew & Hout).
  set (m := phys_mem (pst s)) in *. assert (Htn := tree_shared m m' pm pm' kroot f Ht Hf Efree Etot Hold Hnew).
  assert (Hl : ∀ v, 0 ≤ v < USER_SPACE_END → look m' (f * PAGE_SIZE) v = None).
  { intros v Hvv. rewrite (look_shared m m' pm kroot f Ht Hf Hold Hnew), decide_False; [done|].
    pose proof (user_index v Hvv). lia. }
  eexists (f * PAGE_SIZE), _, pm'. split; [exact Hrun|]. cbn [phys_mem pst set_pst set_phys_mem set_PMM].
  split; [|split; [done|split; [rewrite Efree, size_difference, size_singleton by set_solver; lia|exact Hl]]]. split.
  - split; [exact eq_refl|exact Hpi'|rewrite Etot; exact Htop|exact Htn].
  - split; [intros v lvl e Hvv E|intros v w e e' Hvv _ E]; cbn in E; by rewrite Hl in E.
  - intros va p H. by apply not_elem_of_nil in H.
  - constructor.
  - intros va p va' p' H. by apply not_elem_of_nil in H.
  - intros g. cbn [phys_mem set_phys_mem]. rewrite Efree, elem_of_difference, elem_of_singleton. split.
    + intros Hg. destruct (decide (g = f)) as [->|]; [|by left]. right. left. left. exists [].
      split; [split; [simpl; lia|constructor]|]. split; [split; [constructor|by intros]|done].
    + intros [[Hg _]|[Hu|(va & p & H & _)]]; [done| |by apply not_elem_of_nil in H].
      destruct Hu as [(q & Hq & [_ Hu] & E)|(v & e & Hvv & E & _)]; [|by rewrite Hl in E].
      destruct q as [|i q]; [injection E as E; by replace g with f by (unfold PAGE_SIZE in *; lia)|].
      rewrite (tbl_shared m m' pm kroot f Ht Hf Hold Hnew i q Hq), decide_False in E; [done|].
      specialize (Hu i q eq_refl). lia.
Qed.

Lemma space_drop own root s pm : space own root s pm [] →
  ∃ s' pm', free_user_half root s = (Ok tt, s') ∧ PMM s' = Some pm' ∧ pmm_inv pm' ∧ free_set pm' = own ∧
    phys_mem s' = phys_mem s.
Proof.
  intros [Hinv Hh _ _ _ Hf]. destruct (free_user_half_spec s pm root Hinv Hh) as (s' & pm' & E & Hs & Hi & Hm & Hfree & _).
  exists s', pm'. split_and!; try done. apply set_eq. intros g. rewrite Hfree, Hf. split; [tauto|].
  intros [?|[?|(va & p & H & _)]]; [tauto..|]. by apply not_elem_of_nil in H.
Qed.
