(* ===== verification/ProcStack.v ===== *)
(** * The initial stack of a process

    What [build_stack] leaves in the new address space, as the program that
    starts there reads it: the count, the argument and environment vectors and
    their strings, in the layout of the System V ABI. *)
From Stdlib Require Import String.
From stdpp Require Import base numbers list gmap sets.
From Stdlib Require Import ZArith Lia Bool.
From S2P Require Import Prelude Bytes Str Mem Pmm Vmm VmmTables VmmUser VmmSpace Elf ElfParse ElfLoad Scheduler Process ProcSpace.
Import Vmm Elf Process.

(** ** Pages of the stack *)

(** A page mapped for reading and writing, on a frame of its own, all zero. *)
Record blank (m : memory) (pm : Pmm) (root va g : Z) : Prop := {
  bk_look : ∀ v, same_page v va → look m root v = Some (3, leaf_entry (g * PAGE_SIZE) USER_RW);
  bk_frame : 0 ≤ g < 2^40;
  bk_zero : ∀ k, 0 ≤ k < PAGE_SIZE → read8 m (g * PAGE_SIZE + k) = 0;
  bk_private : ∀ k, 0 ≤ k < PAGE_SIZE → private m pm root (g * PAGE_SIZE + k)
}.

Lemma present_leaf a flags : present 3 (leaf_entry a flags) = Some (3, leaf_entry a flags).
Proof.
  unfold present, leaf_entry. change PRESENT with (Z.shiftl 1 0). rewrite has_pow2, Z.lor_spec by lia. by rewrite orb_true_r.
Qed.

Lemma leaf_view m pm root va g : tree m pm root → va mod PAGE_SIZE = 0 → 0 ≤ g < 2^40 →
  (∀ v, same_page v va → look m root v = Some (3, leaf_entry (g * PAGE_SIZE) USER_RW)) →
  page_view m root va (g * PAGE_SIZE) USER_RW.
Proof.
  intros Ht Ha Hg Hl. apply (page_view_look m pm); [done|done|done|unfold user_flags; set_solver|].
  intros v Hv. by rewrite Hl, present_leaf.
Qed.

(** What one more page keeps of the rest. *)
Record kept (root : Z) (s : PState) (pm : Pmm) (s' : PState) (pm' : Pmm) (away : Z → Prop) : Prop := {
  kt_look : ∀ v, away v → look (phys_mem s') root v = look (phys_mem s) root v;
  kt_priv : ∀ x, private (phys_mem s) pm root x →
    read8 (phys_mem s') x = read8 (phys_mem s) x ∧ private (phys_mem s') pm' root x
}.

Lemma blank_kept root s pm s' pm' away va g : kept root s pm s' pm' away → (∀ v, same_page v va → away v) →
  blank (phys_mem s) pm root va g → blank (phys_mem s') pm' root va g.
Proof.
  intros [Hl Hp] Ha [B1 B2 B3 B4]. split; [|done|..].
  - intros v Hv. rewrite Hl by (by apply Ha). by apply B1.
  - intros k Hk. destruct (Hp _ (B4 k Hk)) as [-> _]. by apply B3.
  - intros k Hk. by apply Hp, B4.
Qed.

Lemma kept_trans root s pm s1 pm1 s2 pm2 (a1 a2 : Z → Prop) : kept root s pm s1 pm1 a1 → kept root s1 pm1 s2 pm2 a2 →
  kept root s pm s2 pm2 (λ v, a1 v ∧ a2 v).
Proof.
  intros [L1 P1] [L2 P2]. split.
  - intros v [H1 H2]. by rewrite L2, L1.
  - intros x Hx. destruct (P1 x Hx) as [<- Hx1]. by apply P2.
Qed.

Lemma kept_weaken root s pm s' pm' (a a' : Z → Prop) : (∀ v, a' v → a v) → kept root s pm s' pm' a → kept root s pm s' pm' a'.
Proof. intros Ha [L P]. split; [|done]. intros v Hv. by apply L, Ha. Qed.

Lemma items_one va p : items (<[va := p]> ∅) = [(va, p)].
Proof. unfold items. by rewrite insert_empty, map_to_list_singleton. Qed.

Lemma page_flags_rw a : page_flags (mkPage a true false) = USER_RW.
Proof. done. Qed.

(** A zeroed frame for the page at [va]. *)
Lemma alloc_space own root s pm va : space own root s pm [] → 0 ≤ va < USER_SPACE_END → va mod PAGE_SIZE = 0 →
  look (phys_mem s) root va = None →
  (alloc_frame_zeroed s = (Ok None, s) ∧ free_set pm = ∅) ∨
  ∃ g s1 pm1, alloc_frame_zeroed s = (Ok (Some (g * PAGE_SIZE)), s1) ∧ 0 ≤ g < 2^40 ∧
    space own root s1 pm1 [(va, mkPage (g * PAGE_SIZE) true false)] ∧
    size (free_set pm) = S (size (free_set pm1)) ∧ g ∈ free_set pm ∧ free_set pm1 ⊆ free_set pm ∧
    (∀ k, 0 ≤ k < PAGE_SIZE → read8 (phys_mem s1) (g * PAGE_SIZE + k) = 0 ∧ private (phys_mem s1) pm1 root (g * PAGE_SIZE + k)) ∧
    kept root s pm s1 pm1 (λ _, True).
Proof.
  intros Hsp Hva Hal Hn. pose proof Hsp as [[Hs Hi Htop Ht] Hh _ _ _ _].
  destruct (alloc_frame_zeroed_spec s pm Hs Hi) as [[E0 Ea]|(f & pm1 & Hf & Ea & Hi1 & Efree & Etot)].
  { left. split; [|done]. rewrite Ea. unfold set_PMM. rewrite <- Hs. by destruct s. }
  right. set (p := mkPage (f * PAGE_SIZE) true false).
  assert (Ho := owning_new pm (phys_mem s) s pm ∅ va f pm1 true false (owning_start s pm Hs Hi) (lookup_empty va) Hf Hi1 Efree Etot).
  set (s1 := set_phys_mem _ _) in *.
  assert (Hz : ∀ x, read8 (phys_mem s1) x = if decide (f * PAGE_SIZE ≤ x < f * PAGE_SIZE + PAGE_SIZE) then 0 else read8 (phys_mem s) x).
  { intros x. unfold s1. cbn [phys_mem set_phys_mem]. by apply read8_fill. }
  clearbody s1. exists f, s1, pm1. destruct (free_set_range f pm Hf) as [Hf0 Hf1].
  split; [exact Ea|]. split; [lia|]. split; [|split; [|split; [exact Hf|split; [rewrite Efree; clear; set_solver|split]]]].
  - rewrite <- items_one. apply (space_own own root s pm); [exact Hsp|exact Ho|]. intros va' p' H.
    apply lookup_insert_Some in H as [[<- _]|[_ H]]; [done|by rewrite lookup_empty in H].
  - pose proof (ow_count _ _ _ _ _ Ho) as Hc. rewrite insert_empty, map_size_singleton in Hc. lia.
  - intros k Hk. split; [rewrite Hz, decide_True by lia; done|].
    apply (private_private (phys_mem s) _ pm1 root (tree_start _ _ _ _ _ _ Ht Ho) (tables_same _ _ _ _ _ _ Ht Ho)).
    apply (page_private pm _ _ s1 pm1 _ Ht Ho va p); [apply lookup_insert_eq|done].
  - split; [intros v _; apply (look_owned _ _ _ _ _ _ Ht Ho)|]. intros x (h & Hx & Hh' & Hq). split.
    + rewrite Hz, decide_False; [done|]. intros Hr. apply Hh'. replace h with f by (unfold PAGE_SIZE in *; lia). done.
    + exists h. split; [done|]. split; [rewrite Efree; clear -Hh'; set_solver|]. intros q Hqo.
      rewrite (tbl_owned _ _ _ _ _ _ Ht Ho) by done. by apply Hq.
Qed.

(** One page: a frame, zeroed, and its mapping. *)
Lemma stack_step own root s pm va : space own root s pm [] → 0 ≤ va < USER_SPACE_END → va mod PAGE_SIZE = 0 →
  look (phys_mem s) root va = None →
  (alloc_frame_zeroed s = (Ok None, s) ∧ free_set pm = ∅) ∨
  ∃ g s1, alloc_frame_zeroed s = (Ok (Some (g * PAGE_SIZE)), s1) ∧
    (((size (free_set pm) < 4)%nat ∧ fst (map root va (g * PAGE_SIZE) USER_RW s1) = Panic) ∨
     ∃ s' pm', map root va (g * PAGE_SIZE) USER_RW s1 = (Ok tt, s') ∧ space own root s' pm' [] ∧
       blank (phys_mem s') pm' root va g ∧ kept root s pm s' pm' (λ v, ¬ same_page v va) ∧
       (size (free_set pm) ≤ size (free_set pm') + 4)%nat ∧ g ∈ free_set pm ∧ free_set pm' ⊆ free_set pm).
Proof.
  intros Hsp Hva Hal Hn.
  destruct (alloc_space own root s pm va Hsp Hva Hal Hn) as [?|(g & s1 & pm1 & Ea & Hg & Hs1 & Hsz & Hgf & Hsub & Hz & Hk)]; [by left|right].
  exists g, s1. split; [done|].
  pose proof (space_map own root s1 pm1 va _ [] Hs1) as Hmap. cbn [fst snd] in Hmap.
  rewrite page_flags_rw in Hmap. cbn [phys] in Hmap. destruct Hmap as [[Hlt E]|(s' & pm' & E & Hm & Hs')].
  { left. split; [lia|exact E]. }
  right. exists s', pm'. split; [exact E|]. split; [done|]. split; [|split].
  - split.
    + intros v Hv. rewrite (mp_look _ _ _ _ _ _ _ Hm), decide_True by done. apply present_leaf.
    + lia.
    + intros k Hk'. destruct (Hz k Hk') as [Z1 P1]. by rewrite (mp_mem _ _ _ _ _ _ _ Hm).
    + intros k Hk'. apply (private_mapped root s1 pm1 s' pm' va _ _ Hm). by apply Hz.
  - destruct Hk as [L1 P1]. split.
    + intros v Hv. rewrite (mp_look _ _ _ _ _ _ _ Hm), decide_False by done. by apply L1.
    + intros x Hx. destruct (P1 x Hx) as [<- Hx1]. split; [by apply (mp_mem _ _ _ _ _ _ _ Hm)|].
      by apply (private_mapped root s1 pm1 s' pm' va _ _ Hm).
  - pose proof (mp_size _ _ _ _ _ _ _ Hm). split; [lia|]. split; [done|]. etrans; [apply (mp_free _ _ _ _ _ _ _ Hm)|done].
Qed.

(** The address of page [j] of the stack, counted from the top. *)
Definition stack_va (j : Z) : Z := USER_STACK_TOP - (j + 1) * PAGE_SIZE.

Lemma stack_va_ok j : 0 ≤ j < 16 → 0 ≤ stack_va j < USER_SPACE_END ∧ stack_va j mod PAGE_SIZE = 0.
Proof.
  intros Hj. unfold stack_va, USER_STACK_TOP, USER_SPACE_END, PAGE_SIZE. split; [lia|].
  replace (0x7ffffffff000 - (j + 1) * 4096) with ((0x7ffffffff - (j + 1)) * 4096) by lia. by apply Z.mod_mul.
Qed.

Lemma stack_va_inj i j v : 0 ≤ i < 16 → 0 ≤ j < 16 → same_page v (stack_va i) → same_page v (stack_va j) → i = j.
Proof.
  intros Hi Hj H1 H2. assert (Hs : same_page (stack_va i) (stack_va j)).
  { destruct H1 as (A & B & C & D), H2 as (A' & B' & C' & D'). repeat split; congruence. }
  destruct (stack_va_ok i Hi) as [Vi Ai], (stack_va_ok j Hj) as [Vj Aj].
  apply same_page_aligned in Hs; try done. unfold stack_va, PAGE_SIZE in Hs. lia.
Qed.

Definition off_stack (i n : Z) (v : Z) : Prop := ∀ j, i ≤ j < i + n → ¬ same_page v (stack_va j).

(** The pages from page [i] on. *)
Lemma stack_pages_spec own root n : ∀ i top s pm r s', space own root s pm [] → 0 ≤ i → i + Z.of_nat n ≤ 16 →
  (∀ j, i ≤ j < i + Z.of_nat n → look (phys_mem s) root (stack_va j) = None) →
  stack_pages n root i top s = (r, s') →
  (r = Panic ∧ (size (free_set pm) < 4 * n)%nat) ∨
  ∃ pm', space own root s' pm' [] ∧ (size (free_set pm) ≤ size (free_set pm') + 4 * n)%nat ∧
    ((r = Ok None ∧ (size (free_set pm) < 4 * n)%nat) ∨
     ∃ gs, length gs = n ∧ r = Ok (Some (if i =? 0 then default top (head ((λ g, g * PAGE_SIZE) <$> gs)) else top)) ∧
       kept root s pm s' pm' (off_stack i (Z.of_nat n)) ∧
       ∀ k g, gs !! k = Some g → g ∈ free_set pm ∧ blank (phys_mem s') pm' root (stack_va (i + Z.of_nat k)) g).
Proof.
  induction n as [|n IH]; intros i top s pm r s' Hsp Hi Hn Hl.
  { intros [= <- <-]. right. exists pm. split; [done|]. split; [lia|]. right. exists []. split; [done|].
    split; [by destruct (i =? 0)|]. split; [|done]. split; [done|]. intros x Hx. done. }
  cbn [stack_pages]. unfold bind at 1. destruct (stack_va_ok i ltac:(lia)) as [Hva Hal].
  destruct (stack_step own root s pm (stack_va i) Hsp Hva Hal (Hl i ltac:(lia))) as [[Ea E0]|(g & s1 & Ea & Hstep)]; rewrite Ea.
  { intros [= <- <-]. right. exists pm. split; [done|]. split; [lia|]. left. split; [done|]. rewrite E0, size_empty. lia. }
  unfold bind at 1, lift at 1. rewrite mul64_ok by (unfold PAGE_SIZE, u64_max; lia). unfold bind at 1, lift at 1.
  rewrite sub64_ok by (unfold USER_STACK_TOP, PAGE_SIZE; lia). fold (stack_va i). unfold bind at 1.
  destruct Hstep as [[Hlt E]|(s2 & pm2 & E & Hsp2 & Hb & Hk & Hsz & Hgf & Hsub)].
  { destruct (map root _ _ _ s1) as [[[]|[]| |] s2]; try done. intros [= <- <-]. left. split; [done|lia]. }
  rewrite E. intros Erest.
  destruct (IH (i + 1) (if i =? 0 then g * PAGE_SIZE else top) s2 pm2 r s' Hsp2 ltac:(lia) ltac:(lia)) as [[-> Hlt]|(pm' & Hsp' & Hsz' & Hr)].
  { intros j Hj. rewrite (kt_look _ _ _ _ _ _ Hk); [apply Hl; lia|]. intros Hs.
    assert (j = i) by (apply (stack_va_inj _ _ (stack_va j)); [lia|lia|done|done]). lia. }
  { exact Erest. }
  { left. split; [done|lia]. }
  right. exists pm'. split; [done|]. split; [lia|].
  destruct Hr as [[-> Hlt]|(gs & Hlen & -> & Hk' & Hbs)]; [left; split; [done|lia]|right].
  exists (g :: gs). split; [simpl; lia|]. split; [|split].
  - rewrite (proj2 (Z.eqb_neq (i + 1) 0)) by lia. by destruct (i =? 0).
  - eapply kept_weaken; [|exact (kept_trans _ _ _ _ _ _ _ _ _ Hk Hk')]. intros v Hv. split; [apply Hv; lia|].
    intros j Hj. apply Hv. lia.
  - intros [|k] g' Hg; cbn in Hg.
    + injection Hg as <-. split; [done|]. rewrite Z.add_0_r. apply (blank_kept _ _ _ _ _ _ _ _ Hk'); [|done].
      intros v Hv j Hj Hv'. assert (i = j) by (by apply (stack_va_inj _ _ v); [lia|lia|..]). lia.
    + replace (i + Z.of_nat (S k)) with (i + 1 + Z.of_nat k) by lia.
      destruct (Hbs k g' Hg) as [Hf Hbk]. split; [by apply Hsub|done].
Qed.

(** ** The topmost page *)

(** Where an address of the topmost page is in memory. *)
Definition at_top (top v : Z) : Z := top + (v - page_base).

Lemma write_top_ok top virt bytes s : page_base ≤ virt → virt + Z.of_nat (length bytes) ≤ USER_STACK_TOP →
  write_top top virt bytes s = (Ok tt, set_phys_mem s (write_bytes (phys_mem s) (at_top top virt) bytes)).
Proof.
  intros H1 H2. unfold write_top, bind, lift. rewrite sub64_ok by (unfold page_base, USER_STACK_TOP, PAGE_SIZE in *; lia).
  rewrite (proj2 (Z.leb_le _ _)) by (unfold page_base in *; lia). done.
Qed.

Lemma read_bytes_app m a n k : read_bytes m a (n + k) = read_bytes m a n ++ read_bytes m (a + Z.of_nat n) k.
Proof.
  revert a. induction n as [|n IH]; intros a; [by rewrite Z.add_0_r|]. cbn [read_bytes Nat.add app]. rewrite IH. do 3 f_equal. lia.
Qed.

(** Where the strings go: the end of the free part and their addresses. *)
Fixpoint place (vals : list (list Z)) (cursor : Z) : option (Z * list Z) :=
  match vals with
  | [] => Some (cursor, [])
  | v :: vals =>
      if 255 <? Z.of_nat (length v) then None
      else
        let c := cursor - (Z.of_nat (length v) + 1) in
        if c <? page_base then None
        else match place vals c with Some (c', ps) => Some (c', c :: ps) | None => None end
  end.

Definition zero_below (m : memory) (top c : Z) : Prop := ∀ v, page_base ≤ v < c → read8 m (at_top top v) = 0.

(** A string at [p], with the zero that ends it, between [lo] and [hi]. *)
Definition string_at (m : memory) (top lo hi p : Z) (v : list Z) : Prop :=
  lo ≤ p ∧ p + Z.of_nat (length v) < hi ∧ read_bytes m (at_top top p) (S (length v)) = v ++ [0].

Lemma string_at_same m m' top lo hi lo' p v : (∀ x, at_top top lo ≤ x → read8 m' x = read8 m x) → lo' ≤ lo →
  string_at m top lo hi p v → string_at m' top lo' hi p v.
Proof.
  intros Hm Hlo (H1 & H2 & H3). split; [lia|]. split; [done|]. rewrite <- H3. apply read_bytes_ext.
  intros x Hx. apply Hm. unfold at_top in *. lia.
Qed.

Lemma push_strings_spec top vals : ∀ cursor ptrs s, page_base ≤ cursor ≤ USER_STACK_TOP → zero_below (phys_mem s) top cursor →
  ∃ m', push_strings top vals cursor ptrs s =
      (Ok (match place vals cursor with Some (c, ps) => Some (c, ptrs ++ ps) | None => None end), set_phys_mem s m') ∧
    (∀ x, ¬ (top ≤ x < at_top top cursor) → read8 m' x = read8 (phys_mem s) x) ∧
    ∀ c ps, place vals cursor = Some (c, ps) →
      page_base ≤ c ≤ cursor ∧ zero_below m' top c ∧ Forall2 (string_at m' top c cursor) ps vals.
Proof.
  induction vals as [|v vals IH]; intros cursor ptrs s Hc Hz.
  { exists (phys_mem s). cbn [push_strings place]. rewrite app_nil_r. split; [by destruct s|]. split; [done|].
    intros c ps [= <- <-]. split; [lia|]. by split; [|constructor]. }
  cbn [push_strings place]. destruct (Z.ltb_spec 255 (Z.of_nat (length v))) as [|Hlen].
  { exists (phys_mem s). split; [by destruct s|]. done. }
  unfold checked_sub. rewrite (proj2 (Z.leb_le _ _)) by (unfold page_base, USER_STACK_TOP, PAGE_SIZE in *; lia).
  set (c1 := cursor - (Z.of_nat (length v) + 1)). destruct (Z.ltb_spec c1 page_base) as [|Hc1].
  { exists (phys_mem s). split; [by destruct s|]. done. }
  rewrite (bind_ok _ _ _ _ _ (write_top_ok top c1 v s Hc1 ltac:(lia))). set (m1 := write_bytes _ _ _).
  assert (Hm1 : ∀ x, ¬ (at_top top c1 ≤ x < at_top top c1 + Z.of_nat (length v)) → read8 m1 x = read8 (phys_mem s) x).
  { intros x Hx. unfold m1. rewrite read8_write_bytes. by rewrite decide_False. }
  assert (Hs1 : string_at m1 top c1 cursor c1 v).
  { split; [lia|]. split; [lia|]. replace (S (length v)) with (length v + 1)%nat by lia. rewrite read_bytes_app. f_equal.
    - apply read_write_bytes_eq.
    - cbn. rewrite Hm1 by lia. f_equal. replace (at_top top c1 + Z.of_nat (length v)) with (at_top top (cursor - 1)) by (unfold at_top; lia).
      apply Hz. lia. }
  destruct (IH c1 (ptrs ++ [c1]) (set_phys_mem s m1)) as (m' & E & Hout & Hp); [lia| |].
  { intros w Hw. cbn [phys_mem set_phys_mem]. rewrite Hm1 by (unfold at_top; lia). apply Hz. lia. }
  cbn [phys_mem set_phys_mem] in Hout. exists m'. rewrite E. split; [|split].
  - destruct (place vals c1) as [[c' ps]|]; [|done]. by rewrite <- app_assoc.
  - intros x Hx. rewrite Hout by (unfold at_top in *; lia). apply Hm1. unfold at_top in *. lia.
  - intros c ps. destruct (place vals c1) as [[c' ps']|]; [|done]. intros [= <- <-].
    destruct (Hp c' ps' eq_refl) as (H1 & H2 & H3). split; [lia|]. split; [done|]. constructor.
    + apply (string_at_same m1 m' top c1); [|lia|done]. intros x Hx. apply Hout. lia.
    + eapply Forall2_impl; [exact H3|]. intros p w (W1 & W2 & W3). split; [done|]. split; [lia|done].
Qed.

Lemma write_words_spec top sp words : ∀ i s, page_base ≤ sp + i * 8 → sp + (i + Z.of_nat (length words)) * 8 ≤ USER_STACK_TOP →
  ∃ m', write_words top sp i words s = (Ok tt, set_phys_mem s m') ∧
    (∀ x, ¬ (at_top top (sp + i * 8) ≤ x < at_top top (sp + (i + Z.of_nat (length words)) * 8)) → read8 m' x = read8 (phys_mem s) x) ∧
    ∀ k w, words !! k = Some w → read_bytes m' (at_top top (sp + (i + Z.of_nat k) * 8)) 8 = le_bytes 8 w.
Proof.
  induction words as [|w words IH]; intros i s H1 H2.
  { exists (phys_mem s). split; [by destruct s|]. done. }
  cbn [write_words length] in *.
  rewrite (bind_ok _ _ _ _ _ (write_top_ok top (sp + i * 8) (le_bytes 8 w) s H1 ltac:(rewrite length_le_bytes; lia))).
  set (m1 := write_bytes _ _ _). destruct (IH (i + 1) (set_phys_mem s m1)) as (m' & E & Hout & Hw); [lia|lia|].
  cbn [phys_mem set_phys_mem] in Hout. exists m'. split; [done|]. split.
  - intros x Hx. rewrite Hout by (unfold at_top in *; lia). unfold m1. rewrite read8_write_bytes, length_le_bytes.
    rewrite decide_False; [done|]. unfold at_top in *. lia.
  - intros [|k] w' Hk; cbn in Hk.
    + injection Hk as <-. rewrite Z.add_0_r. etrans; [apply read_bytes_ext; intros x Hx; apply Hout; unfold at_top in *; lia|].
      pose proof (read_write_bytes_eq (phys_mem s) (at_top top (sp + i * 8)) (le_bytes 8 w)) as Hr. by rewrite length_le_bytes in Hr.
    + replace (i + Z.of_nat (S k)) with (i + 1 + Z.of_nat k) by lia. by apply Hw.
Qed.

(** ** How much fits *)
Definition short (v : list Z) : bool := Z.of_nat (length v) <=? 255.
Definition area (l : list (list Z)) : Z := foldr (λ v n, Z.of_nat (length v) + 1 + n) 0 l.

Lemma area_cons v l : area (v :: l) = Z.of_nat (length v) + 1 + area l.
Proof. done. Qed.

Lemma area_app l l' : area (l ++ l') = area l + area l'.
Proof. induction l as [|v l IH]; [done|]. cbn [app]. rewrite !area_cons, IH. lia. Qed.

Lemma area_rev l : area (rev l) = area l.
Proof. induction l as [|v l IH]; [done|]. cbn [rev]. rewrite area_app, IH, !area_cons. change (area []) with 0. lia. Qed.

Lemma area_nonneg l : Z.of_nat (length l) ≤ area l.
Proof. induction l as [|v l IH]; [done|]. rewrite area_cons. cbn [length]. lia. Qed.

Lemma Forall2_rev {A B} (R : A → B → Prop) l k : Forall2 R l k → Forall2 R (rev l) (rev k).
Proof. induction 1; cbn [rev]; [constructor|]. apply Forall2_app; [done|]. by repeat constructor. Qed.

Lemma forallb_rev {A} (f : A → bool) l : forallb f (rev l) = forallb f l.
Proof. induction l as [|v l IH]; [done|]. cbn [rev forallb]. rewrite forallb_app, IH. cbn. by rewrite andb_true_r, andb_comm. Qed.

Lemma place_spec vals : ∀ cursor, 
  if forallb short vals && (page_base <=? cursor - area vals)
  then ∃ ps, place vals cursor = Some (cursor - area vals, ps)
  else page_base ≤ cursor → place vals cursor = None.
Proof.
  induction vals as [|v vals IH]; intros cursor.
  { cbn. rewrite Z.sub_0_r. destruct (Z.leb_spec page_base cursor); [by eexists|lia]. }
  rewrite area_cons. cbn [forallb place]. unfold short at 1. pose proof (area_nonneg vals).
  destruct (Z.leb_spec (Z.of_nat (length v)) 255) as [Hv|Hv]; cbn [andb].
  2:{ rewrite (proj2 (Z.ltb_lt _ _)) by lia. done. }
  rewrite (proj2 (Z.ltb_ge _ _)) by lia. specialize (IH (cursor - (Z.of_nat (length v) + 1))).
  replace (cursor - (Z.of_nat (length v) + 1 + area vals)) with (cursor - (Z.of_nat (length v) + 1) - area vals) by lia.
  destruct (Z.ltb_spec (cursor - (Z.of_nat (length v) + 1)) page_base) as [Hlt|Hge].
  - rewrite (proj2 (Z.leb_gt page_base _)), andb_false_r by lia. done.
  - destruct (forallb short vals && _).
    + destruct IH as [ps ->]. by eexists.
    + intros _. by rewrite IH.
Qed.

(** The bytes the strings and the words take; they must fit one page. *)
Definition stack_need (argv env : list (list Z)) : Z :=
  area argv + area env + 8 * (Z.of_nat (length argv) + Z.of_nat (length env) + 5).
Definition stack_fits (argv env : list (list Z)) : bool := forallb short (argv ++ env) && (stack_need argv env <=? PAGE_SIZE).

(** ** Reading the stack, as the program does *)
Definition user_word (m : memory) (root v : Z) : Z := le_value (user_bytes m root v 8).

Fixpoint user_string (fuel : nat) (m : memory) (root v : Z) : list Z :=
  match fuel with
  | O => []
  | S fuel => let b := user_byte m root v in if b =? 0 then [] else b :: user_string fuel m root (v + 1)
  end.

Fixpoint user_vector (fuel : nat) (m : memory) (root v : Z) : list (list Z) :=
  match fuel with
  | O => []
  | S fuel =>
      let p := user_word m root v in
      if p =? 0 then [] else user_string 256 m root p :: user_vector fuel m root (v + 8)
  end.

Lemma user_bytes_S m root v n : user_bytes m root v (S n) = user_byte m root v :: user_bytes m root (v + 1) n.
Proof.
  change (S n) with (1 + n)%nat. rewrite user_bytes_app. unfold user_bytes at 1. change (seqZ 0 (Z.of_nat 1)) with [0]. cbn [List.map app].
  by rewrite Z.add_0_r.
Qed.

Lemma user_string_spec m root w : ∀ fuel p, user_bytes m root p (S (length w)) = w ++ [0] → 0 ∉ w → (length w < fuel)%nat →
  user_string fuel m root p = w.
Proof.
  induction w as [|b w IH]; intros fuel p E Hn Hf; (destruct fuel as [|fuel]; [simpl in Hf; lia|]); cbn [user_string];
    cbn [length] in *; rewrite user_bytes_S in E; cbn [app] in E.
  - injection E as Eb. by rewrite Eb.
  - injection E as Eb E. rewrite Eb. destruct (Z.eqb_spec b 0) as [->|]; [exfalso; apply Hn; left|]. f_equal. apply IH; [done|set_solver|lia].
Qed.

Lemma user_vector_spec m root ps ws : Forall2 (λ p w, p ≠ 0 ∧ user_string 256 m root p = w) ps ws → ∀ fuel v,
  (∀ k p, (ps ++ [0]) !! k = Some p → user_word m root (v + 8 * Z.of_nat k) = p) → (length ps < fuel)%nat →
  user_vector fuel m root v = ws.
Proof.
  induction 1 as [|p w ps ws [Hp Hw] _ IH]; intros fuel v Hv Hf; (destruct fuel as [|fuel]; [simpl in Hf; lia|]); cbn [user_vector].
  - pose proof (Hv 0%nat 0 eq_refl) as E. rewrite Z.mul_0_r, Z.add_0_r in E. by rewrite E.
  - pose proof (Hv 0%nat p eq_refl) as E. rewrite Z.mul_0_r, Z.add_0_r in E. rewrite E.
    rewrite (proj2 (Z.eqb_neq _ _) Hp), Hw. f_equal. apply IH; [|simpl in Hf; lia].
    intros k q Hk. rewrite <- (Hv (S k) q Hk). f_equal. lia.
Qed.

(** The layout of the System V ABI at the start of a program. *)
Record abi_stack (m : memory) (root sp : Z) (argv env : list (list Z)) : Prop := {
  ab_align : sp mod 16 = 0;
  ab_range : page_base ≤ sp < USER_STACK_TOP;
  ab_argc : user_word m root sp = Z.of_nat (length argv);
  ab_argv : user_vector (S (length argv)) m root (sp + 8) = argv;
  ab_env : user_vector (S (length env)) m root (sp + 8 * (Z.of_nat (length argv) + 2)) = env;
  ab_auxv : user_word m root (sp + 8 * (Z.of_nat (length argv) + Z.of_nat (length env) + 3)) = 0 ∧
            user_word m root (sp + 8 * (Z.of_nat (length argv) + Z.of_nat (length env) + 4)) = 0;
  ab_stack : ∀ v, USER_STACK_TOP - USER_STACK_PAGES * PAGE_SIZE ≤ v < USER_STACK_TOP → is_Some (walk_user_write m root v)
}.

(** ** The whole stack *)
Section Build.
Context (own : gset Z) (root : Z) (s1 : PState) (pm1 : Pmm) (g : Z).
Context (Hsp : space own root s1 pm1 []) (Hb : blank (phys_mem s1) pm1 root page_base g).
Notation top := (g * PAGE_SIZE).

(** Writing in the topmost page changes nothing else. *)
Lemma top_write m' : (∀ x, ¬ (top ≤ x < top + PAGE_SIZE) → read8 m' x = read8 (phys_mem s1) x) →
  space own root (set_phys_mem s1 m') pm1 [] ∧ (∀ v, look m' root v = look (phys_mem s1) root v).
Proof using Hsp Hb.
  intros Hm. assert (Hp : ∀ x, ¬ private (phys_mem s1) pm1 root x → read8 m' x = read8 (phys_mem s1) x).
  { intros x Hx. apply Hm. intros Hr. apply Hx. replace x with (top + (x - top)) by lia. apply (bk_private _ _ _ _ _ Hb). lia. }
  split; [by apply (space_write own root s1 pm1)|]. apply (look_private _ _ pm1 root); [apply Hsp|done].
Qed.

(** The page, as the program sees it. *)
Lemma top_bytes m' v n : space own root (set_phys_mem s1 m') pm1 [] → (∀ v, look m' root v = look (phys_mem s1) root v) →
  page_base ≤ v → v + Z.of_nat n ≤ USER_STACK_TOP → (0 < n)%nat → user_bytes m' root v n = read_bytes m' (at_top top v) n.
Proof using Hsp Hb.
  intros Hs Hl Hv Hn H0. pose proof (vi_tree _ _ _ (sp_inv _ _ _ _ _ Hs)) as Ht. cbn [phys_mem set_phys_mem] in Ht.
  assert (Hpv : page_view m' root page_base top USER_RW).
  { apply (leaf_view _ pm1); [done|done|apply Hb|]. intros w Hw. rewrite Hl. by apply Hb. }
  destruct (Hpv (v - page_base)) as [Hw _]; [unfold page_base in *; lia|]. replace (page_base + (v - page_base)) with v in Hw by lia.
  apply (user_bytes_page m' pm1 root v); [done|exact Hw| |by apply Z.mod_pos_bound].
  unfold page_base, USER_STACK_TOP, PAGE_SIZE in *. Z.div_mod_to_equations. lia.
Qed.

(** The part of [build_stack] after the pages. *)
Definition fill_top (tf : Z) (argv env : list (list Z)) : M PState Empty_set (option Z) :=
  let! o := push_strings tf (rev argv) USER_STACK_TOP [] in
  match o with
  | None => ret None
  | Some (cursor, argv_ptrs) =>
      let! o := push_strings tf (rev env) cursor [] in
      match o with
      | None => ret None
      | Some (cursor, env_ptrs) =>
          let words := [Z.of_nat (length argv)] ++ rev argv_ptrs ++ [0] ++ rev env_ptrs ++ [0; 0; 0] in
          match checked_sub cursor (Z.of_nat (length words) * 8) with
          | None => ret None
          | Some below =>
              let sp := Z.land below (not64 0xf) in
              if sp <? page_base then ret None else write_words tf sp 0 words ;;! ret (Some sp)
          end
      end
  end.

(** What is in the page when everything fits. *)
Record filled_top (m : memory) (sp : Z) (argv env : list (list Z)) : Prop := {
  ft_sp : page_base ≤ sp < USER_STACK_TOP ∧ sp mod 16 = 0;
  ft_ptrs : ∃ ap ep, Forall2 (string_at m top page_base USER_STACK_TOP) ap argv ∧
    Forall2 (string_at m top page_base USER_STACK_TOP) ep env ∧
    ∀ k w, ([Z.of_nat (length argv)] ++ ap ++ [0] ++ ep ++ [0; 0; 0]) !! k = Some w →
      sp + 8 * Z.of_nat k + 8 ≤ USER_STACK_TOP ∧ read_bytes m (at_top top (sp + 8 * Z.of_nat k)) 8 = le_bytes 8 w
}.

Lemma fill_top_spec argv env :
  ∃ m', (∀ x, ¬ (top ≤ x < top + PAGE_SIZE) → read8 m' x = read8 (phys_mem s1) x) ∧
    if stack_fits argv env
    then ∃ sp, fill_top top argv env s1 = (Ok (Some sp), set_phys_mem s1 m') ∧ filled_top m' sp argv env
    else fill_top top argv env s1 = (Ok None, set_phys_mem s1 m').
Proof using Hb.
  assert (Hz : zero_below (phys_mem s1) top USER_STACK_TOP).
  { intros v Hv. unfold at_top. apply (bk_zero _ _ _ _ _ Hb). unfold page_base in *. lia. }
  assert (Htp : at_top top USER_STACK_TOP = top + PAGE_SIZE) by (unfold at_top, page_base; lia).
  assert (Hbase : at_top top page_base = top) by (unfold at_top; lia).
  destruct (push_strings_spec top (rev argv) USER_STACK_TOP [] s1) as (m1 & E1 & O1 & S1); [unfold page_base, PAGE_SIZE; lia|done|].
  pose proof (place_spec (rev argv) USER_STACK_TOP) as P1. rewrite forallb_rev, area_rev in P1.
  unfold fill_top, stack_fits, stack_need. rewrite !(bind_ok _ _ _ _ _ E1), forallb_app.
  pose proof (area_nonneg argv) as An. pose proof (area_nonneg env) as En.
  destruct (forallb short argv && (page_base <=? USER_STACK_TOP - area argv)) eqn:F1.
  2:{ exists m1. split; [intros x Hx; apply O1; lia|]. rewrite P1 by (unfold page_base, PAGE_SIZE; lia).
      apply andb_false_iff in F1 as [->|F1%Z.leb_gt]; [done|]. rewrite (proj2 (Z.leb_gt _ PAGE_SIZE)), andb_false_r; [done|].
      unfold page_base in *. lia. }
  apply andb_true_iff in F1 as [-> F1%Z.leb_le]. destruct P1 as [ps1 P1]. rewrite P1.
  destruct (S1 _ _ P1) as (C1 & Z1 & W1). set (c1 := USER_STACK_TOP - area argv) in *. cbn [app andb].
  destruct (push_strings_spec top (rev env) c1 [] (set_phys_mem s1 m1)) as (m2 & E2 & O2 & S2); [lia|exact Z1|].
  cbn [phys_mem set_phys_mem] in O2. change (set_phys_mem (set_phys_mem s1 m1) m2) with (set_phys_mem s1 m2) in E2.
  assert (O12 : ∀ x, ¬ (top ≤ x < top + PAGE_SIZE) → read8 m2 x = read8 (phys_mem s1) x).
  { intros x Hx. rewrite O2 by (unfold at_top, page_base in *; lia). apply O1. lia. }
  pose proof (place_spec (rev env) c1) as P2. rewrite forallb_rev, area_rev in P2. rewrite !(bind_ok _ _ _ _ _ E2).
  destruct (forallb short env && (page_base <=? c1 - area env)) eqn:F2.
  2:{ exists m2. split; [done|]. rewrite P2 by lia.
      apply andb_false_iff in F2 as [->|F2%Z.leb_gt]; [done|]. rewrite (proj2 (Z.leb_gt _ PAGE_SIZE)), andb_false_r; [done|].
      unfold c1, page_base in *. lia. }
  apply andb_true_iff in F2 as [-> F2%Z.leb_le]. destruct P2 as [ps2 P2]. rewrite P2.
  destruct (S2 _ _ P2) as (C2 & Z2 & W2). set (c2 := c1 - area env) in *. cbn [app andb].
  set (words := Z.of_nat (length argv) :: _).
  assert (Hlen : Z.of_nat (length words) = Z.of_nat (length argv) + Z.of_nat (length env) + 5).
  { unfold words. cbn [length]. rewrite !length_app. cbn [length]. rewrite !length_app. cbn [length]. rewrite !length_rev.
    pose proof (Forall2_length _ _ _ W1) as L1. pose proof (Forall2_length _ _ _ W2) as L2. rewrite length_rev in L1, L2. lia. }
  rewrite Hlen. set (n := Z.of_nat (length argv) + Z.of_nat (length env) + 5) in *. unfold checked_sub.
  rewrite (proj2 (Z.leb_le (n * 8) c2)) by (unfold c2, c1, page_base, USER_STACK_TOP, PAGE_SIZE in *; lia).
  assert (Hsp' : Z.land (c2 - n * 8) (not64 0xf) = (c2 - n * 8) / 16 * 16).
  { change 0xf with (2^4 - 1). apply (land_not_mask _ 4); [unfold c2, c1, page_base, USER_STACK_TOP, PAGE_SIZE in *; lia|lia]. }
  rewrite Hsp'. set (sp := (c2 - n * 8) / 16 * 16). assert (Hsp16 : sp mod 16 = 0) by (unfold sp; by apply Z.mod_mul).
  assert (Hspb : sp ≤ c2 - n * 8 < sp + 16) by (unfold sp; Z.div_mod_to_equations; lia).
  assert (Hpb : page_base mod 16 = 0) by done.
  destruct (Z.leb_spec (area argv + area env + 8 * n) PAGE_SIZE) as [Hfit|Hfit].
  2:{ rewrite (proj2 (Z.ltb_lt _ _)); [by exists m2|]. unfold c2, c1, page_base in *. lia. }
  assert (Hge : page_base ≤ sp) by (assert (page_base ≤ c2 - n * 8) by (unfold c2, c1, page_base; lia); Z.div_mod_to_equations; lia).
  rewrite (proj2 (Z.ltb_ge _ _)) by lia.
  destruct (write_words_spec top sp words 0 (set_phys_mem s1 m2)) as (m3 & E3 & O3 & W3); [lia|lia|].
  exists m3. cbn [phys_mem set_phys_mem] in O3. split.
  { intros x Hx. rewrite O3; [by apply O12|]. unfold at_top, page_base in *. lia. }
  exists sp. split; [by rewrite (bind_ok _ _ _ _ _ E3)|]. split; [lia|].
  assert (Hkeep : ∀ x, at_top top c2 ≤ x → read8 m3 x = read8 m2 x) by (intros x Hx; apply O3; unfold at_top in *; lia).
  exists (rev ps1), (rev ps2). split; [|split].
  - rewrite <- (rev_involutive argv). apply Forall2_rev. eapply Forall2_impl; [exact W1|]. intros p v Hst.
    apply (string_at_same m2 m3 top c2); [done|lia|]. apply (string_at_same m1 m2 top c1); [|lia|done]. intros x Hx. apply O2. lia.
  - rewrite <- (rev_involutive env). apply Forall2_rev. eapply Forall2_impl; [exact W2|]. intros p v (V1 & V2 & V3).
    apply (string_at_same m2 m3 top c2); [done|lia|]. split; [done|]. split; [lia|done].
  - intros k w Hk. change (words !! k = Some w) in Hk. pose proof (lookup_lt_Some _ _ _ Hk) as Hlt.
    rewrite <- (W3 k w Hk). split; [lia|do 2 f_equal; lia].
Qed.

Section Read.
Context (m' : memory) (Hs' : space own root (set_phys_mem s1 m') pm1 []).
Context (Hl' : ∀ v, look m' root v = look (phys_mem s1) root v).

Lemma top_word v w : page_base ≤ v → v + 8 ≤ USER_STACK_TOP → 0 ≤ w < 2^64 →
  read_bytes m' (at_top top v) 8 = le_bytes 8 w → user_word m' root v = w.
Proof using All.
  intros H1 H2 Hw E. unfold user_word. rewrite (top_bytes m' v 8 Hs' Hl') by lia. rewrite E. by apply le_value_bytes.
Qed.

Lemma top_string p v : short v = true → 0 ∉ v → string_at m' top page_base USER_STACK_TOP p v →
  p ≠ 0 ∧ user_string 256 m' root p = v.
Proof using All.
  intros Hv%Z.leb_le Hn (H1 & H2 & H3). split; [unfold page_base, USER_STACK_TOP, PAGE_SIZE in *; lia|].
  apply user_string_spec; [|done|lia]. rewrite (top_bytes m' p _ Hs' Hl') by lia. done.
Qed.

Lemma filled_abi sp argv env : stack_fits argv env = true → Forall (λ w, 0 ∉ w) (argv ++ env) → filled_top m' sp argv env →
  user_word m' root sp = Z.of_nat (length argv) ∧
  user_vector (S (length argv)) m' root (sp + 8) = argv ∧
  user_vector (S (length env)) m' root (sp + 8 * (Z.of_nat (length argv) + 2)) = env ∧
  user_word m' root (sp + 8 * (Z.of_nat (length argv) + Z.of_nat (length env) + 3)) = 0 ∧
  user_word m' root (sp + 8 * (Z.of_nat (length argv) + Z.of_nat (length env) + 4)) = 0.
Proof using All.
  intros Hfit Hnul [[Hsp1 _] (ap & ep & Ha & He & Hw)]. unfold stack_fits in Hfit. apply andb_true_iff in Hfit as [Hsh Hneed%Z.leb_le].
  rewrite forallb_app in Hsh. apply andb_true_iff in Hsh as [Sa Se]. apply Forall_app in Hnul as [Na Ne].
  pose proof (area_nonneg argv). pose proof (area_nonneg env). unfold stack_need, PAGE_SIZE in Hneed.
  pose proof (Forall2_length _ _ _ Ha) as La. pose proof (Forall2_length _ _ _ He) as Le.
  assert (Hvec : ∀ ps vs, Forall2 (string_at m' top page_base USER_STACK_TOP) ps vs → forallb short vs = true → Forall (λ w, 0 ∉ w) vs →
    Forall2 (λ p w, p ≠ 0 ∧ user_string 256 m' root p = w) ps vs ∧ Forall (λ p, 0 ≤ p < 2^64) ps).
  { intros ps vs Hps. induction Hps as [|p v ps vs Hp _ IH]; [by repeat constructor|]. cbn [forallb]. intros [S1 S2]%andb_true_iff.
    intros [N1 N2]%Forall_cons. destruct (IH S2 N2) as [I1 I2]. split; constructor; try done; [by apply top_string|].
    destruct Hp as (H1 & H2 & _). unfold page_base, USER_STACK_TOP, PAGE_SIZE in *. lia. }
  destruct (Hvec ap argv Ha Sa Na) as [Va Ra], (Hvec ep env He Se Ne) as [Ve Re].
  set (words := [Z.of_nat (length argv)] ++ ap ++ [0] ++ ep ++ [0; 0; 0]) in *.
  assert (Hin : Forall (λ p, 0 ≤ p < 2^64) words) by (unfold words; rewrite !Forall_app; split_and!; try done; repeat constructor; lia).
  assert (Hword : ∀ k w, words !! k = Some w → user_word m' root (sp + 8 * Z.of_nat k) = w).
  { intros k w Hk. destruct (Hw k w Hk) as [Hr Er]. apply top_word; [lia|lia| |done]. rewrite Forall_lookup in Hin. by apply (Hin k). }
  assert (Hsplit1 : words = [Z.of_nat (length argv)] ++ (ap ++ [0]) ++ (ep ++ [0; 0; 0])) by (unfold words; by rewrite <- !app_assoc).
  assert (Hsplit2 : words = ([Z.of_nat (length argv)] ++ ap ++ [0]) ++ (ep ++ [0]) ++ [0; 0]) by (unfold words; by rewrite <- !app_assoc).
  assert (Hsplit3 : words = ([Z.of_nat (length argv)] ++ ap ++ [0] ++ ep ++ [0]) ++ [0; 0]) by (unfold words; by rewrite <- !app_assoc).
  split; [|split; [|split; [|split]]].
  - rewrite <- (Hword 0%nat (Z.of_nat (length argv)) eq_refl). f_equal. lia.
  - apply (user_vector_spec m' root ap argv Va); [|lia]. intros k p Hk. rewrite <- (Hword (S k) p); [f_equal; lia|].
    rewrite Hsplit1. cbn [app lookup list_lookup]. by apply lookup_app_l_Some.
  - apply (user_vector_spec m' root ep env Ve); [|lia]. intros k p Hk.
    rewrite <- (Hword (length argv + 2 + k)%nat p); [f_equal; lia|]. rewrite Hsplit2, lookup_app_r by (rewrite !length_app; cbn; lia).
    rewrite !length_app. cbn [length]. replace (length argv + 2 + k - _)%nat with k by lia. by apply lookup_app_l_Some.
  - rewrite <- (Hword (length argv + length env + 3)%nat 0); [f_equal; lia|]. rewrite Hsplit3, lookup_app_r by (rewrite !length_app; cbn; lia).
    rewrite !length_app. cbn [length]. by replace (length argv + length env + 3 - _)%nat with 0%nat by lia.
  - rewrite <- (Hword (length argv + length env + 4)%nat 0); [f_equal; lia|]. rewrite Hsplit3, lookup_app_r by (rewrite !length_app; cbn; lia).
    rewrite !length_app. cbn [length]. by replace (length argv + length env + 4 - _)%nat with 1%nat by lia.
Qed.
End Read.
End Build.

(** Every run of [build_stack] that returns. *)
Lemma build_stack_spec own root s pm argv env r s' : space own root s pm [] →
  (∀ j, 0 ≤ j < 16 → look (phys_mem s) root (stack_va j) = None) → build_stack root argv env s = (r, s') →
  (r = Panic ∧ (size (free_set pm) < 64)%nat) ∨
  ∃ pm', space own root s' pm' [] ∧
    ((r = Ok None ∧ ((size (free_set pm) < 64)%nat ∨ stack_fits argv env = false)) ∨
     (stack_fits argv env = true ∧ kept root s pm s' pm' (off_stack 0 16) ∧
      ∃ sp, r = Ok (Some sp) ∧ (Forall (λ w, 0 ∉ w) (argv ++ env) → abi_stack (phys_mem s') root sp argv env))).
Proof.
  intros Hsp Hl. change (build_stack root argv env) with
    (let! o := stack_pages 16 root 0 0 in match o with None => ret None | Some tf => fill_top tf argv env end).
  unfold bind at 1. destruct (stack_pages 16 root 0 0 s) as [r1 s1] eqn:E1.
  destruct (stack_pages_spec own root 16 0 0 s pm r1 s1 Hsp ltac:(lia) ltac:(lia) Hl E1) as [[-> Hsz]|(pm1 & Hsp1 & Hsz1 & Hr)].
  { intros [= <- <-]. by left. }
  right. destruct Hr as [[-> Hsz]|(gs & Hlen & -> & Hk & Hbs)].
  { injection H as <- <-. exists pm1. split; [done|]. left. split; [done|by left]. }
  destruct gs as [|g gs]; [done|]. cbn [fmap list_fmap head default] in *.
  destruct (Hbs 0%nat g eq_refl) as [Hgf Hb]. change (stack_va (0 + Z.of_nat 0)) with page_base in Hb.
  change (if 0 =? 0 then id (g * PAGE_SIZE) else 0) with (g * PAGE_SIZE) in H.
  destruct (fill_top_spec root s1 pm1 g Hb argv env) as (m' & Hm & Hf).
  destruct (top_write own root s1 pm1 g Hsp1 Hb m' Hm) as [Hsp' Hl'].
  exists pm1. destruct (stack_fits argv env) eqn:Efit.
  2:{ rewrite Hf in H. injection H as <- <-. split; [done|]. left. split; [done|by right]. }
  destruct Hf as (sp & Ef & Hfill). rewrite Ef in H. injection H as <- <-. split; [done|]. right. split; [done|]. split.
  - split; cbn [phys_mem set_phys_mem]; [intros v Hv; rewrite Hl'; by apply (kt_look _ _ _ _ _ _ Hk)|].
    intros x Hx. destruct (kt_priv _ _ _ _ _ _ Hk x Hx) as [<- Hx1]. destruct Hx as (h & Hxh & Hhf & _).
    assert (Hxg : ¬ (g * PAGE_SIZE ≤ x < g * PAGE_SIZE + PAGE_SIZE)).
    { intros Hr. apply Hhf. by replace h with g by (unfold PAGE_SIZE in *; lia). }
    split; [by apply Hm|]. apply (private_private (phys_mem s1) m' pm1 root); [apply Hsp1| |done]. intros y Hy. apply Hm.
    intros Hr. apply Hy. replace y with (g * PAGE_SIZE + (y - g * PAGE_SIZE)) by lia. apply (bk_private _ _ _ _ _ Hb). lia.
  - exists sp. split; [done|]. intros Hnul.
    destruct (filled_abi own root s1 pm1 g Hsp1 Hb m' Hsp' Hl' sp argv env Efit Hnul Hfill) as (A1 & A2 & A3 & A4 & A5).
    destruct Hfill as [[Hr1 Hr2] _]. cbn [phys_mem set_phys_mem]. split; try done. intros v Hv.
    set (j := (USER_STACK_TOP - 1 - v) / PAGE_SIZE).
    assert (Hj : 0 ≤ j < 16) by (unfold j, USER_STACK_PAGES, PAGE_SIZE in *; Z.div_mod_to_equations; lia).
    destruct (lookup_lt_is_Some_2 (g :: gs) (Z.to_nat j)) as [gj Hgj]; [lia|]. destruct (Hbs _ gj Hgj) as [_ Hbj].
    replace (0 + Z.of_nat (Z.to_nat j)) with j in Hbj by lia. destruct (stack_va_ok j Hj) as [_ Hal].
    assert (Hpv : page_view m' root (stack_va j) (gj * PAGE_SIZE) USER_RW).
    { apply (leaf_view _ pm1); [apply (sp_inv _ _ _ _ _ Hsp')|done|apply Hbj|]. intros w Hw. rewrite Hl'. by apply Hbj. }
    destruct (Hpv (v - stack_va j)) as [_ Hw]; [unfold j, stack_va, PAGE_SIZE in *; Z.div_mod_to_equations; lia|].
    replace (stack_va j + (v - stack_va j)) with v in Hw by lia. rewrite Hw. by rewrite bool_decide_true.
Qed.

