(* ===== verification/ProcSpawn.v ===== *)
(** * Starting a program

    The whole of [spawn_with]: when it fails, every frame it took is free again
    and no table has changed; when it succeeds, the program is in memory, its
    stack holds its arguments, and a thread that will enter it is ready. *)
From Stdlib Require Import String.
From stdpp Require Import base numbers list gmap sets.
From Stdlib Require Import ZArith Lia Bool.
From S2P Require Import Prelude Bytes Str Block Initramfs Vfs Mem Pmm Vmm VmmTables VmmUser VmmSpace Elf ElfParse ElfLoad.
From S2P Require Import Scheduler SchedInv Process ProcSpace ProcStack.
Import Vmm Elf Scheduler Process.

(** [read_all] refuses files above its limit. *)
Lemma read_all_short {D} `{BlockDevice D} path (v : Vfs.VfsState D) data v' :
  Vfs.read_all path v = (Ok data, v') → Z.of_nat (length data) ≤ Vfs.MAX_READ_ALL.
Proof.
  unfold Vfs.read_all, bind at 1. destruct (Vfs.file_size path v) as [[n|e| |] v1]; try done.
  destruct (Z.ltb_spec Vfs.MAX_READ_ALL n) as [|Hn]; [done|]. unfold bind. destruct (Vfs.read_at path 0 n v1) as [[d|e| |] v2]; try done.
  destruct (Z.eqb_spec (Z.of_nat (length d)) n); cbn [negb]; [|done]. intros [= <- _]. lia.
Qed.

(** What the program sees at its start. *)
Record program (m : memory) (root : Z) (image : list Z) (segs : list Segment) (rsp : Z) (argv env : list str) : Prop := {
  pg_image : ∀ v, touched segs (v / PAGE_SIZE * PAGE_SIZE) = true → loaded image segs m root v;
  pg_stack : Forall (λ w, 0 ∉ w) (argv ++ env) → abi_stack m root rsp argv env
}.

(** The stack is away from the program. *)
Lemma off_stack_load image segs v : Forall (segment_ok image) segs → touched segs (v / PAGE_SIZE * PAGE_SIZE) = true → off_stack 0 16 v.
Proof.
  intros Hok Ht j Hj Hs. pose proof (load_touched image segs _ Hok ltac:(by apply Z.mod_mul) Ht) as Hr.
  destruct (stack_va_ok j Hj) as [Hv _]. apply same_page_user in Hs; [|unfold LOAD_MIN, LOAD_MAX, USER_SPACE_END, PAGE_SIZE in *; Z.div_mod_to_equations; lia..].
  unfold stack_va, USER_STACK_TOP, LOAD_MIN, LOAD_MAX, PAGE_SIZE in *. Z.div_mod_to_equations. lia.
Qed.

Lemma loaded_kept own root s pm s' pm' image segs v : space own root s pm [] → space own root s' pm' [] →
  kept root s pm s' pm' (off_stack 0 16) → Forall (segment_ok image) segs → touched segs (v / PAGE_SIZE * PAGE_SIZE) = true →
  loaded image segs (phys_mem s) root v → loaded image segs (phys_mem s') root v.
Proof.
  intros Hs Hs' [Hl Hp] Hok Ht [(p & Hw & Hb & Hww) (e & He & Hx)].
  pose proof (vi_tree _ _ _ (sp_inv _ _ _ _ _ Hs)) as T. pose proof (vi_tree _ _ _ (sp_inv _ _ _ _ _ Hs')) as T'.
  assert (El : look (phys_mem s') root v = look (phys_mem s) root v) by (by apply Hl, (off_stack_load image segs)).
  assert (Hr : 0 ≤ v < USER_SPACE_END).
  { pose proof (load_touched image segs _ Hok ltac:(by apply Z.mod_mul) Ht).
    unfold LOAD_MIN, LOAD_MAX, USER_SPACE_END, PAGE_SIZE in *. Z.div_mod_to_equations. lia. }
  assert (Eu : ∀ b, uwalk b (phys_mem s') root v = uwalk b (phys_mem s) root v).
  { intros b. apply option_eq. intros q. by rewrite (uwalk_Some b _ _ _ _ _ T'), (uwalk_Some b _ _ _ _ _ T), El. }
  split; [|exists e; by rewrite El]. exists p. change walk_user with (uwalk false) in *. change walk_user_write with (uwalk true) in *.
  rewrite !Eu. split; [done|]. split; [|done]. destruct (Hp p) as [-> _]; [|done].
  apply (uwalk_Some _ _ _ _ _ _ T) in Hw as (e' & He' & _ & ->).
  destruct (uh_leaf _ _ _ (sp_half _ _ _ _ _ Hs) v 3 e' Hr He') as (_ & g & -> & _ & Hg & Hq).
  exists g. split; [|done]. pose proof (Z.mod_pos_bound v PAGE_SIZE ltac:(done)). unfold PAGE_SIZE in *. lia.
Qed.

(** Putting memory back in place. *)
Definition with_mem {D} (k : Kernel (D:=D)) (p : PState) : Kernel :=
  set_sched k (set_vst (sched k) (set_pst (vst (sched k)) p)).

Section Layers.
Context {D : Type} {E : Type}.
Implicit Types k : Kernel (D:=D).

Lemma with_mem_same k : with_mem k (pst (vst (sched k))) = k.
Proof. by destruct k as [[? ? ? ? ? ? ? ? ? []] ? ? ?]. Qed.

Lemma with_mem_twice k p q : with_mem (with_mem k p) q = with_mem k q.
Proof. done. Qed.

Lemma pst_with_mem k p : pst (vst (sched (with_mem k p))) = p.
Proof. done. Qed.

Lemma on_sched_vmm {A} (m : M VState Empty_set A) k r v p : m (vst (sched k)) = (Ok r, v) → v = set_pst (vst (sched k)) p →
  on_sched (E:=E) (on_vmm m) k = (Ok r, with_mem k p).
Proof. intros H ->. unfold on_sched, on_vmm. by rewrite H. Qed.

Lemma on_sched_frames {A} (m : M PState Empty_set A) k r p : m (pst (vst (sched k))) = (r, p) →
  on_sched (E:=E) (on_frames m) k = (no_error r, with_mem k p).
Proof. intros H. unfold on_sched, on_frames, on_vmm, on_pmm. by rewrite H. Qed.

Lemma on_memory_eq {A} (m : M PState E A) k r p : m (pst (vst (sched k))) = (r, p) → on_memory m k = (r, with_mem k p).
Proof. intros H. unfold on_memory. by rewrite H. Qed.

(** Dropping the address space frees all it took. *)
Lemma drop_space_spec own root k p pm : space own root p pm [] →
  ∃ p' pm', drop_space (E:=E) root (with_mem k p) = (Ok tt, with_mem k p') ∧ PMM p' = Some pm' ∧ pmm_inv pm' ∧ free_set pm' = own.
Proof.
  intros Hs. destruct (space_drop own root p pm Hs) as (p' & pm' & Ed & H1 & H2 & H3 & _). exists p', pm'. split; [|done].
  unfold drop_space. by rewrite (on_sched_frames (free_user_half root) (with_mem k p) (Ok tt) p').
Qed.
End Layers.

(** What a program needs: its address space, its pages with their tables, and its stack. *)
Definition spawn_need (segs : list Segment) : Z := 65 + 4 * total_seg_pages segs.

Section Spawn.
Context {D : Type} `{BlockDevice D} (thread_trampoline user_thread_main : Z).
Context (k : Kernel (D:=D)) (pm : Pmm) (kroot : Z) (path : str) (argv env : list str).
Notation vs := (vst (sched k)).
Context (Hv : VMM vs = Some kroot) (Hinv : vm_inv (pst vs) pm kroot) (Hmem : mem_ok (phys_mem (pst vs))).

(** Files are made of bytes. *)
Context (Hfile : ∀ data v', Vfs.read_all path (vfs k) = (Ok data, v') → bytes_ok data).

(** Why [spawn_with] may fail before there is a thread. *)
Definition reason (e : SpawnError) : Prop :=
  match e with
  | NotFound => ∃ fe, fst (Vfs.read_all path (vfs k)) = Err fe
  | ElfError x => ∃ data, fst (Vfs.read_all path (vfs k)) = Ok data ∧
      (parse data = Err x ∨
       ∃ entry segs, parse data = Ok (entry, segs) ∧
         (x = WritableExecutable ∧ wx_clash segs ∨
          x = Elf.NoMemory ∧ Z.of_nat (size (free_set pm)) < spawn_need segs))
  | NoMemory => ∃ data, fst (Vfs.read_all path (vfs k)) = Ok data ∧
      (free_set pm = ∅ ∨ stack_fits argv env = false ∨
       ∃ entry segs, parse data = Ok (entry, segs) ∧ Z.of_nat (size (free_set pm)) < spawn_need segs)
  | NoThread => False
  end.

(** Why it may not return. *)
Definition stuck : Prop :=
  fst (Vfs.read_all path (vfs k)) = Panic ∨ fst (Vfs.read_all path (vfs k)) = Diverge ∨
  ∃ data entry segs, fst (Vfs.read_all path (vfs k)) = Ok data ∧ parse data = Ok (entry, segs) ∧
    Z.of_nat (size (free_set pm)) < spawn_need segs.

Inductive spawn_outcome : res SpawnError Z * Kernel → Prop :=
  | so_stuck r k' : r = Panic ∨ r = Diverge → stuck → spawn_outcome (r, k')
  | so_failed e v' p' pm' : reason e → PMM p' = Some pm' → pmm_inv pm' → free_set pm' = free_set pm →
      spawn_outcome (Err e, with_mem (set_vfs k v') p')
  | so_ready data v' aspace entry segs rsp p' pm' :
      Vfs.read_all path (vfs k) = (Ok data, v') → parse data = Ok (entry, segs) → stack_fits argv env = true →
      space (free_set pm) aspace p' pm' [] → program (phys_mem p') aspace data segs rsp argv env →
      spawn_outcome (start_thread thread_trampoline user_thread_main path aspace entry rsp (with_mem (set_vfs k v') p')).

Lemma spawn_stages : spawn_outcome (spawn_with thread_trampoline user_thread_main path argv env k).
Proof using Hv Hinv Hmem Hfile.
  unfold spawn_with, bind at 1, mmap_err, on_vfs. destruct (Vfs.read_all path (vfs k)) as [r1 v1] eqn:Er.
  destruct r1 as [data|fe| |]; cbn [map_err].
  2:{ rewrite <- (with_mem_same (set_vfs k v1)). eapply so_failed; [exists fe; by rewrite Er|apply Hinv|apply Hinv|done]. }
  2: apply so_stuck; [tauto|left; by rewrite Er].
  2: apply so_stuck; [tauto|right; left; by rewrite Er].
  specialize (Hfile data v1 eq_refl). pose proof (read_all_short _ _ _ _ Er) as Hlen.
  assert (Hf : fst (Vfs.read_all path (vfs k)) = Ok data) by (by rewrite Er).
  set (k1 := set_vfs k v1). change vs with (vst (sched k1)) in Hv, Hinv, Hmem.
  destruct (space_create (vst (sched k1)) pm kroot Hv Hinv Hmem) as [(E0 & s' & Ec & Hp & Es)|(root & s' & pm1 & Ec & Hs & Es & Hz & Hl)];
    rewrite (bind_ok _ _ _ _ _ (on_sched_vmm create_address_space k1 _ s' (pst s') Ec Es)).
  { eapply so_failed; [exists data; tauto|exact Hp|apply Hinv|done]. }
  clear Ec Es. generalize dependent (pst s'). intros s1 Hs Hl. unfold bind at 1, catch.
  destruct (space_load _ root data s1 pm1 Hs Hfile) as [(Ep & entry & segs & Hpar & Hz')|(r & s2 & pm2 & El & Hs2 & Hl2 & Hend)].
  { unfold Vfs.MAX_READ_ALL in Hlen. lia. }
  { intros v Hr. apply Hl. unfold LOAD_MIN, LOAD_MAX, USER_SPACE_END in *. lia. }
  { destruct (load data root s1) as [r1 p1] eqn:E1. cbn in Ep. subst r1. rewrite (on_memory_eq _ (with_mem k1 s1) _ _ E1).
    apply so_stuck; [tauto|]. do 2 right. exists data, entry, segs. split; [done|]. split; [done|]. unfold spawn_need. lia. }
  rewrite (on_memory_eq _ (with_mem k1 s1) _ _ El). change (with_mem (with_mem k1 s1) s2) with (with_mem k1 s2).
  assert (Hfail : ∀ (e : SpawnError) s3 pm3, reason e → space (free_set pm) root s3 pm3 [] →
    spawn_outcome ((drop_space root ;;! fail e) (with_mem k1 s3))).
  { intros e s3 pm3 Hre Hs3. destruct (drop_space_spec (E:=SpawnError) _ root k1 s3 pm3 Hs3) as (p' & pm' & Ed & H1 & H2 & H3).
    rewrite (bind_ok _ _ _ _ _ Ed). by eapply so_failed. }
  destruct Hend as [e He|entry segs He Hc|entry segs He Hn|entry segs He Hw Hc Hz2 Hld].
  1-3: apply (Hfail (ElfError _) s2 pm2); [|done]; exists data; split; [done|].
  1: by left.
  1: right; exists entry, segs; tauto.
  1: { right. exists entry, segs. split; [done|]. right. split; [done|]. unfold spawn_need.
       destruct (parse_decides data Hfile) as [(entry' & segs' & Hw & E)|[_ [? E]]]; [unfold Vfs.MAX_READ_ALL in Hlen; lia| |congruence].
       rewrite He in E. injection E as -> ->. pose proof (total_nonneg data segs' (wf_ok _ _ _ Hw)). lia. }
  pose proof (total_nonneg data segs (wf_ok _ _ _ Hw)) as Htn.
  destruct (build_stack root argv env s2) as [r3 s3] eqn:E3.
  unfold bind at 1. rewrite (on_sched_frames _ (with_mem k1 s2) _ _ E3). change (with_mem (with_mem k1 s2) s3) with (with_mem k1 s3).
  destruct (build_stack_spec _ root s2 pm2 argv env r3 s3 Hs2) as [[-> Hsz]|(pm3 & Hs3 & [[-> Hr]|(Hfit & Hk & sp & -> & Habi)])].
  - intros j Hj. destruct (stack_va_ok j Hj) as [Hv1 _].
    rewrite Hl2; [apply Hl| |]; unfold stack_va, USER_STACK_TOP, LOAD_MIN, LOAD_MAX, USER_SPACE_END, PAGE_SIZE in *; lia.
  - done.
  - apply so_stuck; [tauto|]. do 2 right. exists data, entry, segs. split; [done|]. split; [done|]. unfold spawn_need. lia.
  - apply (Hfail NoMemory s3 pm3); [|done]. exists data. split; [done|]. right. destruct Hr as [Hr|Hr]; [right|by left].
    exists entry, segs. split; [done|]. unfold spawn_need. lia.
  - apply (so_ready data v1 root entry segs sp s3 pm3); try done. split; [|done].
    intros v Ht. apply (loaded_kept _ root s2 pm2 s3 pm3 data segs v Hs2 Hs3 Hk (wf_ok _ _ _ Hw) Ht). by apply Hld.
Qed.
End Spawn.

(** ** The thread and the tables *)
Lemma position_None {A} (p : A → bool) l : (∀ x, x ∈ l → p x = false) → position p l = None.
Proof. induction l as [|x l IH]; intros Hp; [done|]. cbn. by rewrite Hp, IH by (intros; try apply Hp; by constructor). Qed.

(** What a started process looks like to the kernel. *)
Record started {D} (k k' : Kernel (D:=D)) (path : str) (p aspace entry rsp : Z) : Prop := {
  sd_thread : ∃ t, ready (SCHED (sched k')) = ready (SCHED (sched k)) ++ [t] ∧ Scheduler.id t = p ∧ is_idle t = false ∧
    Scheduler.aspace t = Some aspace ∧ user_entry t = entry ∧ user_rsp t = rsp;
  sd_pid : p = next_id (SCHED (sched k)) ∧ next_id (SCHED (sched k')) = p + 1;
  sd_current : current (SCHED (sched k')) = current (SCHED (sched k));
  sd_record : (∀ r, r ∈ PROCS k → pid r ≠ p) → PROCS k' = PROCS k ++ [mkProc p (current_id (sched k)) path None];
  sd_files : ∀ f, f ∈ OPEN_FILES k' ↔ f ∈ OPEN_FILES k ∧ f_pid f ≠ p ∨
    f ∈ [mkFile p 0 Stdin [] 0 true false false; mkFile p 1 Stdout [] 0 false true false; mkFile p 2 Stderr [] 0 false true false]
}.

Lemma start_thread_spec {D} tramp main path aspace entry rsp (k k' : Kernel (D:=D)) r :
  start_thread tramp main path aspace entry rsp k = (r, k') →
  match r with
  | Ok p => started k k' path p aspace entry rsp
  | Err e => e = NoThread
  | _ => True
  end.
Proof.
  unfold start_thread, bind at 1, on_sched, spawn_user. unfold bind at 1.
  destruct (create_thread _ _ _ false (sched k)) as [r1 k1] eqn:E1. destruct r1 as [o|[]| |]; try by intros [= <- _].
  destruct (create_thread_spec _ _ _ _ _ _ _ E1) as (p & fs & ns & ni & -> & Hni & Ho). destruct o as [t|].
  - destruct Ho as (slot & Et & En & _). injection Et as E2 _ _ E3. intros [= <- <-]. split; cbn.
    + eexists. split; [done|]. by rewrite E3.
    + by rewrite E2.
    + done.
    + intros Hn. unfold register. rewrite position_None; [done|]. intros x Hx. apply Z.eqb_neq. by apply Hn.
    + intros f. unfold init_process_files. rewrite elem_of_app, list_elem_of_In, filter_In, <- list_elem_of_In.
      by rewrite negb_true_iff, Z.eqb_neq.
  - unfold bind. destruct (on_frames _ _) as [[[]|[]| |] k2]; cbn; by intros [= <- _].
Qed.

(** C5: When [spawn_with] fails before there is a thread for the program, every
    frame it took is free again, and the threads, the process table and the
    descriptor table are as before: only memory and the file systems changed.
    The error says why: the file could not be read, the image is not an
    accepted executable, a page would be writable and executable, the
    arguments do not fit, or memory is short of what the program needs. *)
Theorem spawn_error_leaks_nothing {D} `{BlockDevice D} tramp main (k k' : Kernel (D:=D)) pm kroot path argv env e :
  VMM (vst (sched k)) = Some kroot → vm_inv (pst (vst (sched k))) pm kroot → mem_ok (phys_mem (pst (vst (sched k)))) →
  (∀ data v', Vfs.read_all path (vfs k) = (Ok data, v') → bytes_ok data) →
  spawn_with tramp main path argv env k = (Err e, k') → e ≠ NoThread →
  reason k pm path argv env e ∧
  ∃ v' p' pm', k' = with_mem (set_vfs k v') p' ∧ PMM p' = Some pm' ∧ pmm_inv pm' ∧ free_set pm' = free_set pm.
Proof.
  intros Hv Hi Hm Hf E Hne. pose proof (spawn_stages tramp main k pm kroot path argv env Hv Hi Hm Hf) as Ho.
  rewrite E in Ho. inversion Ho as [r k0 Hr Hs Er|e' v' p' pm' Hre Hp Hpi Hfr Er|data v' a en segs sp p' pm' Hd Hpa Hft Hs Hpg Er].
  - by destruct Hr; subst.
  - subst. split; [done|]. by exists v', p', pm'.
  - by apply start_thread_spec in Er.
Qed.

(** With memory for it, spawning an accepted executable, none of whose pages
    is both writable and executable, and whose arguments fit, gets as far as
    making the thread: there is then an address space with the program's
    pages as the file has them and a stack that holds its arguments and
    environment the way the ABI lays them out.  When the thread is made too,
    it is the last of the ready queue, it enters that address space at the
    image's entry point with that stack, it has a fresh identifier, and the
    process is recorded as a child of the current thread with exactly the
    three standard streams open. *)
Theorem spawn_starts_program {D} `{BlockDevice D} tramp main (k : Kernel (D:=D)) pm kroot path argv env data v' entry segs :
  VMM (vst (sched k)) = Some kroot → vm_inv (pst (vst (sched k))) pm kroot → mem_ok (phys_mem (pst (vst (sched k)))) →
  Vfs.read_all path (vfs k) = (Ok data, v') → bytes_ok data → parse data = Ok (entry, segs) → ¬ wx_clash segs →
  stack_fits argv env = true → spawn_need segs ≤ Z.of_nat (size (free_set pm)) →
  ∃ aspace rsp p' pm', space (free_set pm) aspace p' pm' [] ∧ program (phys_mem p') aspace data segs rsp argv env ∧
    spawn_with tramp main path argv env k =
      start_thread tramp main path aspace entry rsp (with_mem (set_vfs k v') p') ∧
    ∀ p k', spawn_with tramp main path argv env k = (Ok p, k') → started k k' path p aspace entry rsp.
Proof.
  intros Hv Hi Hm Hd Hb Hp Hc Hfit Hz.
  assert (Hf : ∀ d w, Vfs.read_all path (vfs k) = (Ok d, w) → bytes_ok d) by (intros d w; rewrite Hd; by intros [= <- <-]).
  pose proof (spawn_stages tramp main k pm kroot path argv env Hv Hi Hm Hf) as Ho.
  inversion Ho as [r k0 Hr Hs Er|e w p' pm' Hre Hpm Hpi Hfr Er|d w a en sg sp p' pm' Hd' Hp' _ Hs Hpg Er].
  - exfalso. unfold stuck in Hs. rewrite Hd in Hs. destruct Hs as [[=]|[[=]|(d & en & sg & [= <-] & Hp' & Hlt)]].
    rewrite Hp in Hp'. injection Hp' as <- <-. lia.
  - exfalso. destruct e as [|x| |]; cbn in Hre; [by rewrite Hd in Hre; destruct Hre| | |done].
    + destruct Hre as (d & Hd' & Hre). rewrite Hd in Hd'. injection Hd' as <-.
      destruct Hre as [Hre|(en & sg & Hp' & Hre)]; rewrite Hp in *; [done|]. injection Hp' as <- <-. destruct Hre as [[_ ?]|[_ ?]]; [done|lia].
    + destruct Hre as (d & Hd' & Hre). rewrite Hd in Hd'. injection Hd' as <-.
      destruct Hre as [E0|[?|(en & sg & Hp' & Hlt)]]; [|congruence|rewrite Hp in Hp'; injection Hp' as <- <-; lia].
      rewrite E0, size_empty in Hz. unfold spawn_need in Hz.
      destruct (parse_decides data Hb) as [(en & sg & Hw & E)|[_ [? E]]]; [pose proof (read_all_short _ _ _ _ Hd) as Hl; unfold Vfs.MAX_READ_ALL in Hl; lia| |congruence].
      rewrite Hp in E. injection E as <- <-. pose proof (total_nonneg data segs (wf_ok _ _ _ Hw)). lia.
  - rewrite Hd in Hd'. injection Hd' as <- <-. rewrite Hp in Hp'. injection Hp' as <- <-.
    exists a, sp, p', pm'. split; [done|]. split; [done|]. split; [done|]. intros p k' E.
    destruct (start_thread_spec _ _ _ _ _ _ _ _ _ E) as [H1 H2 H3 H4 H5]. by split.
Qed.
