(* ===== verification/ProcDemo.v ===== *)
(** * A program that starts

    A machine of 128 frames with the kernel's top table, two threads and an
    archive that holds the small executable, on which the theorems on starting
    programs are applied. *)
From Stdlib Require Import String.
From stdpp Require Import base numbers list gmap sets.
From Stdlib Require Import ZArith Lia Bool.
From S2P Require Import Prelude Bytes Str Block Partition Initramfs Vfs Mem Pmm Vmm VmmTables VmmUser VmmSpace VmmDemo Elf ElfParse ElfLoad ElfDemo.
From S2P Require Import Scheduler SchedInv SchedRuns SchedDemo Process ProcSpace ProcStack ProcSpawn.
Import Vmm Elf Scheduler Process.

Definition proc_pmm : Pmm :=
  match init_pmm [(0x100000, 0x80000, USABLE)] 0 with Ok (Some p) => p | _ => demo_pmm end.
Definition proc_boot : PState := mkPState ∅ (Some proc_pmm) 0.
Definition proc_mem : PState := snd (alloc_frame_zeroed proc_boot).
Definition proc_pm : Pmm := default demo_pmm (PMM proc_mem).
Definition proc_vst : VState := mkV proc_mem (Some sched_root) sched_root sched_root 0 0.
Definition proc_map : list (Z * Z * EntryType) := [(0x100000, 0x80000, USABLE)].

Lemma proc_map_ok : memory_map_ok (map_regions proc_map) 0.
Proof.
  split; [|vm_compute; congruence| |lia|vm_compute; reflexivity].
  - repeat constructor; vm_compute; congruence.
  - intros r [->|?%elem_of_nil]%elem_of_cons; [vm_compute; congruence|done].
Qed.

Lemma proc_fresh : pmm_inv proc_pmm.
Proof.
  assert (Ei : init_pmm proc_map 0 = Ok (Some proc_pmm)) by (vm_compute; reflexivity).
  destruct (init_pmm_spec proc_map 0 proc_map_ok) as [E|(p & E & Hp)]; rewrite Ei in E; [discriminate|].
  injection E as ->. apply Hp.
Qed.

Lemma proc_state : PMM proc_mem = Some proc_pm ∧ pmm_inv proc_pm ∧ total_frames proc_pm = 384 ∧ 257 ∉ free_set proc_pm ∧
  spawn_need [demo_seg] ≤ Z.of_nat (size (free_set proc_pm)) ∧ ∀ x, read8 (phys_mem proc_mem) x = 0.
Proof.
  destruct (alloc_demo proc_boot proc_pmm 257 eq_refl proc_fresh) as (p & H & I & F & E & T & M); [done|vm_compute; reflexivity|].
  change (snd (alloc_frame_zeroed proc_boot)) with proc_mem in H, M.
  assert (Ep : proc_pm = p) by (unfold proc_pm; rewrite H; reflexivity).
  rewrite Ep. split; [exact H|]. split; [exact I|]. split; [rewrite T; by vm_compute|]. split; [|split; [|exact M]].
  - rewrite E, elem_of_difference, elem_of_singleton. clear. tauto.
  - rewrite <- (inv_count _ I), <- Ep. vm_compute. discriminate.
Qed.

Definition proc_vfs : Vfs.VfsState MemoryBlockDevice :=
  Vfs.mkVfs [Vfs.mkMount (lit "/") Vfs.Initramfs None] (λ _, mkMemDev [] ∅)
    (Initramfs.mkRam (Some (Initramfs.archive
       [Initramfs.demo_member (lit "init") 48 demo_image; Initramfs.demo_member (lit "bad") 48 demo_bad_image]
       (replicate 512 0))) 1).
Definition proc_k : Kernel :=
  mkKernel (mkK (mkSched (Some boot_thread) [] [] None [] [] 0 1) ∅ true 0 false 0 0 0 0 proc_vst) proc_vfs [] [].

#[local] Opaque proc_mem proc_pm.

Lemma proc_inv : vm_inv proc_mem proc_pm sched_root.
Proof.
  destruct proc_state as (H & I & T & N & _ & M). split; [exact H|exact I|rewrite T; lia|].
  apply (zero_tree (phys_mem proc_mem) proc_pm 257); [exact M|rewrite T; lia|exact N].
Qed.

Lemma proc_mem_ok : mem_ok (phys_mem proc_mem).
Proof. destruct proc_state as (_ & _ & _ & _ & _ & M). intros a. rewrite M. clear. unfold is_byte. lia. Qed.

Lemma proc_read : Vfs.read_all (lit "/usr/init") proc_vfs = (Ok demo_image, proc_vfs).
Proof. vm_compute. reflexivity. Qed.

Lemma proc_read_bad : Vfs.read_all (lit "/usr/bad") proc_vfs = (Ok demo_bad_image, proc_vfs).
Proof. vm_compute. reflexivity. Qed.

Definition proc_argv : list str := [lit "/usr/init"; lit "-v"].

Lemma proc_no_clash : ¬ wx_clash [demo_seg].
Proof. intros (a & b & n & Ha & _ & Fa & _). apply list_elem_of_singleton in Ha. subst a. discriminate Fa. Qed.

Lemma spawn_starts_program_witness : ∃ aspace rsp p' k',
  program (phys_mem p') aspace demo_image [demo_seg] rsp proc_argv [] ∧
  spawn_with 1 3 (lit "/usr/init") proc_argv [] proc_k = (Ok 1, k') ∧ started proc_k k' (lit "/usr/init") 1 aspace 0x400078 rsp.
Proof.
  destruct (spawn_starts_program 1 3 proc_k proc_pm sched_root (lit "/usr/init") proc_argv [] demo_image proc_vfs 0x400078 [demo_seg])
    as (a & sp & p' & pm' & _ & Hp & _ & Hs).
  - reflexivity.
  - exact proc_inv.
  - exact proc_mem_ok.
  - exact proc_read.
  - apply bytes_okb_ok. vm_compute. reflexivity.
  - exact demo_parse.
  - exact proc_no_clash.
  - vm_compute. reflexivity.
  - exact (proj1 (proj2 (proj2 (proj2 (proj2 proc_state))))).
  - assert (E : fst (spawn_with 1 3 (lit "/usr/init") proc_argv [] proc_k) = Ok 1) by (vm_compute; reflexivity).
    destruct (spawn_with 1 3 (lit "/usr/init") proc_argv [] proc_k) as [r k']. cbn [fst] in E. subst r.
    exists a, sp, p', k'. exact (conj Hp (conj eq_refl (Hs 1 k' eq_refl))).
Defined.

Lemma spawn_error_leaks_nothing_witness : ∃ k' v' p' pm',
  spawn_with 1 3 (lit "/usr/bad") proc_argv [] proc_k = (Err (ElfError WritableExecutable), k') ∧
  k' = with_mem (set_vfs proc_k v') p' ∧ PMM p' = Some pm' ∧ free_set pm' = free_set proc_pm.
Proof.
  assert (E : fst (spawn_with 1 3 (lit "/usr/bad") proc_argv [] proc_k) = Err (ElfError WritableExecutable)) by (vm_compute; reflexivity).
  destruct (spawn_with 1 3 (lit "/usr/bad") proc_argv [] proc_k) as [r k'] eqn:Er. cbn [fst] in E. subst r.
  destruct (spawn_error_leaks_nothing 1 3 proc_k k' proc_pm sched_root (lit "/usr/bad") proc_argv [] (ElfError WritableExecutable))
    as [_ (v' & p' & pm' & Ek & Hp & _ & Hf)].
  - reflexivity.
  - exact proc_inv.
  - exact proc_mem_ok.
  - intros data v' Hd. change (vfs proc_k) with proc_vfs in Hd. rewrite proc_read_bad in Hd.
    injection Hd as <- _. apply bytes_okb_ok. vm_compute. reflexivity.
  - exact Er.
  - discriminate.
  - exists k', v', p', pm'. exact (conj eq_refl (conj Ek (conj Hp Hf))).
Defined.

