(* ===== verification/Console.v ===== *)
(** * The text console: [console.rs]

    Fonts in the PSF formats, and a terminal drawn into a shadow buffer from
    which changed rectangles are copied to the framebuffer.  The console's
    fields are grouped here by what changes them: the geometry is fixed, the
    pixels are the shadow buffer with the framebuffer beside it (bytes, row
    after row), the pen holds the colours and the parser the escape sequence
    being read.  Rectangles handed to the display driver are recorded in
    [presented].  A position in the shadow buffer is below its length, and a
    vector has fewer than 2^63 elements, so sums of positions are written
    without overflow checks; a slice out of range panics as in the source. *)
From Stdlib Require Import String.
From stdpp Require Import base numbers list.
From Stdlib Require Import ZArith Lia Bool.
From S2P Require Import Prelude Bytes Str.

Module Console.

Definition PALETTE : list Z :=
  [0x001B1F27; 0x00E06C75; 0x0098C379; 0x00E5C07B; 0x0061AFEF; 0x00C678DD; 0x0056B6C2; 0x00ABB2BF;
   0x004B5263; 0x00FF7B86; 0x00B5E890; 0x00FFD98E; 0x0082C4FF; 0x00E09BFF; 0x007FDCE8; 0x00FFFFFF].
Definition palette (i : Z) : Z := PALETTE !!! Z.to_nat i.
Definition DEFAULT_FG : Z := palette 7.
Definition DEFAULT_BG : Z := 0.

(** ** Fonts *)
Record Font := mkFont {
  glyphs : list Z; unicode_table : list Z; num_glyphs : Z; charsize : Z;
  fwidth : Z; fheight : Z; bytes_per_row : Z; ascii_glyphs : list Z
}.

(** The header of either format: its size, the number of glyphs, the bytes of
    a glyph, its width and height, and whether a Unicode table follows. *)
Definition font_header (data : list Z) : option (Z * Z * Z * Z * Z * bool) :=
  if (32 <=? Z.of_nat (length data)) && starts_with [0x72; 0xb5; 0x4a; 0x86] data then
    hs ← le_at 4 data 8; n ← le_at 4 data 16; cs ← le_at 4 data 20; w ← le_at 4 data 28; h ← le_at 4 data 24;
    fl ← le_at 4 data 12; Some (hs, n, cs, w, h, negb (Z.land fl 1 =? 0))
  else if (4 <=? Z.of_nat (length data)) && (data !!! 0%nat =? 0x36) && (data !!! 1%nat =? 0x04) then
    Some (4, if negb (Z.land (data !!! 2%nat) 1 =? 0) then 512 else 256, data !!! 3%nat, 8, data !!! 3%nat, false)
  else None.

(** The tokens of a glyph's record, separated by 0xfe: single bytes below 128
    name the glyph, the first glyph to do so wins. *)
Fixpoint ascii_tokens (glyph_idx : Z) (tokens : list (list Z)) (ascii : list Z) : list Z :=
  match tokens with
  | [] => ascii
  | [codepoint] :: tokens =>
      ascii_tokens glyph_idx tokens
        (if (codepoint <? 128) && (glyph_idx <=? u16_max) && (ascii !!! Z.to_nat codepoint =? u16_max)
         then <[Z.to_nat codepoint := glyph_idx]> ascii else ascii)
  | _ :: tokens => ascii_tokens glyph_idx tokens ascii
  end.

(** The records of the glyphs [glyph_idx], ..., each ended by 0xff. *)
Fixpoint ascii_records (n : nat) (glyph_idx : Z) (table : list Z) (ascii : list Z) : list Z :=
  match n with
  | O => ascii
  | S n =>
      match position (Z.eqb 0xff) table with
      | None => ascii
      | Some e => ascii_records n (glyph_idx + 1) (drop (S e) table) (ascii_tokens glyph_idx (split_on 0xfe (take e table)) ascii)
      end
  end.

Definition Font_parse (data : list Z) : option Font :=
  '(headersize, num_glyphs, charsize, width, height, has_unicode_table) ← font_header data;
  let bytes_per_row := (width + 7) / 8 in
  if (width =? 0) || (height =? 0) || (num_glyphs =? 0) || (charsize <? bytes_per_row * height) then None
  else
    size ← checked_mul num_glyphs charsize;
    end_ ← checked_add headersize size;
    if Z.of_nat (length data) <? end_ then None
    else
      let unicode_table := if (has_unicode_table : bool) then drop (Z.to_nat end_) data else [] in
      glyphs ← slice data headersize size;
      Some (mkFont glyphs unicode_table num_glyphs charsize width height bytes_per_row
        (let none := replicate 128 u16_max in
         if has_unicode_table then ascii_records (Z.to_nat num_glyphs) 0 unicode_table none else none)).

(** The first glyph whose whole record is the encoded character. *)
Fixpoint find_glyph (n : nat) (glyph_idx : Z) (table : list Z) (encoded : list Z) : option Z :=
  match n with
  | O => None
  | S n =>
      match position (Z.eqb 0xff) table with
      | None => None
      | Some e => if bool_decide (take e table = encoded) then Some glyph_idx
                  else find_glyph n (glyph_idx + 1) (drop (S e) table) encoded
      end
  end.

Definition glyph_index (f : Font) (ch : Z) : Z :=
  let idx := if (ch <? 128) && negb (ascii_glyphs f !!! Z.to_nat ch =? u16_max)
             then ascii_glyphs f !!! Z.to_nat ch else ch in
  let idx := if (128 <=? ch) && negb (bool_decide (unicode_table f = []))
             then default idx (find_glyph (Z.to_nat (num_glyphs f)) 0 (unicode_table f) (encode_char ch)) else idx in
  let idx := if num_glyphs f <=? idx then 63 else idx in
  if num_glyphs f <=? idx then 0 else idx.

Definition glyph {E} (f : Font) (ch : Z) : res E (list Z) :=
  expect (slice (glyphs f) (glyph_index f ch * charsize f) (charsize f)).

(** ** The console *)
Inductive EscState := Normal | Escape | Csi.

Record Geometry := mkGeo {
  width : Z; height : Z; pitch : Z; bytes_per_pixel : Z; font : Font; cols : Z; rows : Z
}.
Record Pixels := mkPixels {
  screen : list Z; shadow : list Z; dirty : option (Z * Z * Z * Z); batch_depth : Z; presented : list (Z * Z * Z * Z)
}.
Record Pen := mkPen { fg : Z; bg : Z; bold : bool }.
Record Parser := mkParser { esc : EscState; params : list Z; nparams : Z; cur : Z; have_cur : bool }.
Record Console := mkConsole {
  geo : Geometry; pix : Pixels; cursor_col : Z; cursor_row : Z; pen : Pen; parser : Parser
}.

Definition set_pix (c : Console) (p : Pixels) : Console := mkConsole (geo c) p (cursor_col c) (cursor_row c) (pen c) (parser c).
Definition set_cursor (c : Console) (col row : Z) : Console := mkConsole (geo c) (pix c) col row (pen c) (parser c).
Definition set_pen (c : Console) (p : Pen) : Console := mkConsole (geo c) (pix c) (cursor_col c) (cursor_row c) p (parser c).
Definition set_parser (c : Console) (p : Parser) : Console := mkConsole (geo c) (pix c) (cursor_col c) (cursor_row c) (pen c) p.
Definition set_shadow (c : Console) (b : list Z) : Console :=
  set_pix c (mkPixels (screen (pix c)) b (dirty (pix c)) (batch_depth (pix c)) (presented (pix c))).
Definition set_screen (c : Console) (b : list Z) : Console :=
  set_pix c (mkPixels b (shadow (pix c)) (dirty (pix c)) (batch_depth (pix c)) (presented (pix c))).
Definition set_dirty (c : Console) (d : option (Z * Z * Z * Z)) : Console :=
  set_pix c (mkPixels (screen (pix c)) (shadow (pix c)) d (batch_depth (pix c)) (presented (pix c))).
Definition set_depth (c : Console) (n : Z) : Console :=
  set_pix c (mkPixels (screen (pix c)) (shadow (pix c)) (dirty (pix c)) n (presented (pix c))).

Notation C := (M Console Empty_set).
Definition modify (f : Console → Console) : C unit := λ c, (Ok tt, f c).
Definition reads {A} (f : Console → A) : C A := λ c, (Ok (f c), c).

Record FbInfo := mkFb { fb_width : Z; fb_height : Z; fb_pitch : Z; fb_bpp : Z }.

(** [video] is what the framebuffer holds. *)
Definition new_parser : Parser := mkParser Normal (replicate 8 0) 0 0 false.
Definition new_console (fb : FbInfo) (f : Font) (video : list Z) : Console :=
  mkConsole
    (mkGeo (fb_width fb) (fb_height fb) (fb_pitch fb) (fb_bpp fb / 8) f (fb_width fb / fwidth f) (fb_height fb / fheight f))
    (mkPixels video (replicate (Z.to_nat (Z.min (fb_pitch fb * fb_height fb) u64_max)) 0) None 0 [])
    0 0 (mkPen DEFAULT_FG DEFAULT_BG false) new_parser.

(** [a.saturating_add(b)]. *)
Definition saturating_add (a b : Z) : Z := Z.min (a + b) u64_max.

(** The bytes of a pixel, as many as the format has. *)
Definition pixel_bytes (g : Geometry) (color : Z) : list Z := take (Z.to_nat (bytes_per_pixel g)) (le_bytes 4 color).

Definition update_shadow (at_ : Z) (bytes : list Z) : C unit :=
  let! b := reads (λ c, shadow (pix c)) in
  let! b := lift (expect (splice b at_ bytes)) in
  modify (λ c, set_shadow c b).

Definition fill_rect (x y w h color : Z) : C unit :=
  let! g := reads geo in
  let x_end := Z.min (saturating_add x w) (width g) in
  let y_end := Z.min (saturating_add y h) (height g) in
  if (x_end <=? x) || (y_end <=? y) then ret tt
  else
    mfor (seqZ y (y_end - y)) (λ py,
      let start := py * pitch g + x * bytes_per_pixel g in
      update_shadow start
        (if color =? 0 then replicate (Z.to_nat ((x_end - x) * bytes_per_pixel g)) 0
         else concat (replicate (Z.to_nat (x_end - x)) (pixel_bytes g color)))).

(** The bytes go through raw pointers: outside either buffer they go astray. *)
Definition flush_row (offset row_bytes : Z) : C unit :=
  let! p := reads pix in
  let! b := lift (expect (slice (shadow p) offset row_bytes)) in
  let! v := lift (expect (splice (screen p) offset b)) in
  modify (λ c, set_screen c v).

Definition flush_rect (x y w h : Z) : C unit :=
  let! g := reads geo in
  let x_end := Z.min (saturating_add x w) (width g) in
  let y_end := Z.min (saturating_add y h) (height g) in
  if (x_end <=? x) || (y_end <=? y) then ret tt
  else
    let row_bytes := (x_end - x) * bytes_per_pixel g in
    mfor (seqZ y (y_end - y)) (λ py, flush_row (py * pitch g + x * bytes_per_pixel g) row_bytes) ;;!
    modify (λ c, set_pix c (mkPixels (screen (pix c)) (shadow (pix c)) (dirty (pix c)) (batch_depth (pix c))
      (presented (pix c) ++ [(x, y, x_end - x, y_end - y)]))).

Definition mark_dirty (x y w h : Z) : C unit := modify (λ c,
  let g := geo c in
  let x_end := Z.min (saturating_add x w) (width g) in
  let y_end := Z.min (saturating_add y h) (height g) in
  if (x_end <=? x) || (y_end <=? y) then c
  else
    set_dirty c (Some (match dirty (pix c) with
                       | Some (left_, top, right_, bottom) =>
                           (Z.min left_ x, Z.min top y, Z.max right_ x_end, Z.max bottom y_end)
                       | None => (x, y, x_end, y_end)
                       end))).

Definition flush_pending : C unit :=
  let! d := reads (λ c, dirty (pix c)) in
  match d with
  | Some (x, y, right_, bottom) =>
      modify (λ c, set_dirty c None) ;;! flush_rect x y (right_ - x) (bottom - y)
  | None => ret tt
  end.

Definition begin_batch : C unit := modify (λ c, set_depth c (batch_depth (pix c) + 1)).
Definition end_batch : C unit :=
  modify (λ c, set_depth c (Z.max (batch_depth (pix c) - 1) 0)) ;;!
  let! n := reads (λ c, batch_depth (pix c)) in
  if n =? 0 then flush_pending else ret tt.

Definition clear : C unit :=
  let! g := reads geo in
  let! p := reads pen in
  fill_rect 0 0 (width g) (height g) (bg p) ;;!
  mark_dirty 0 0 (width g) (height g) ;;!
  modify (λ c, set_cursor c 0 0).

(** One row of a glyph: the bit of each column picks the colour. *)
Definition glyph_row_bytes (g : Geometry) (p : Pen) (glyph_row : list Z) : list Z :=
  concat (List.map (λ x, pixel_bytes g (if negb (Z.land (glyph_row !!! Z.to_nat (x / 8)) (Z.shiftr 0x80 (Z.land x 7)) =? 0)
                                        then fg p else bg p)) (seqZ 0 (fwidth (font g)))).

Definition draw_glyph (ch col row : Z) : C unit :=
  let! g := reads geo in
  let! p := reads pen in
  let f := font g in
  let! gl := lift (glyph f ch) in
  let ox := col * fwidth f in
  let oy := row * fheight f in
  mfor (seqZ 0 (fheight f)) (λ y,
    let! glyph_row := lift (expect (slice gl (y * bytes_per_row f) (bytes_per_row f))) in
    update_shadow ((oy + y) * pitch g + ox * bytes_per_pixel g) (glyph_row_bytes g p glyph_row)) ;;!
  mark_dirty ox oy (fwidth f) (fheight f).

Definition scroll : C unit :=
  let! g := reads geo in
  let row_bytes := fheight (font g) * pitch g in
  let text_bytes := rows g * row_bytes in
  let! b := reads (λ c, shadow (pix c)) in
  let! moved := lift (expect (slice b row_bytes (text_bytes - row_bytes))) in
  update_shadow 0 moved ;;!
  fill_rect 0 ((rows g - 1) * fheight (font g)) (width g) (fheight (font g)) DEFAULT_BG ;;!
  mark_dirty 0 0 (width g) (text_bytes / pitch g).

Definition newline : C unit :=
  modify (λ c, set_cursor c 0 (cursor_row c)) ;;!
  let! c := get in
  if rows (geo c) <=? cursor_row c + 1 then scroll
  else modify (λ c, set_cursor c (cursor_col c) (cursor_row c + 1)).

Definition put_printable (ch : Z) : C unit :=
  let! c := get in
  (if cols (geo c) <=? cursor_col c then newline else ret tt) ;;!
  let! c := get in
  draw_glyph ch (cursor_col c) (cursor_row c) ;;!
  modify (λ c, set_cursor c (cursor_col c + 1) (cursor_row c)).

(** ** Escape sequences *)
Definition push_param (p : Parser) : Parser :=
  let v := if have_cur p then cur p else 0 in
  if nparams p <? 8 then mkParser (esc p) (<[Z.to_nat (nparams p) := v]> (params p)) (nparams p + 1) 0 false
  else mkParser (esc p) (params p) (nparams p) 0 false.

Definition param (p : Parser) (i : Z) : Z := params p !!! Z.to_nat i.

Definition extended_color (p : Parser) (i : Z) : option (Z * Z) :=
  let n := nparams p in
  if (i + 4 <? n) && (param p (i + 1) =? 2) then
    let r := Z.land (param p (i + 2)) 0xff in
    let g := Z.land (param p (i + 3)) 0xff in
    let b := Z.land (param p (i + 4)) 0xff in
    Some (Z.lor (Z.lor (Z.shiftl r 16) (Z.shiftl g 8)) b, 4)
  else if (i + 2 <? n) && (param p (i + 1) =? 5) then
    let idx := param p (i + 2) in
    if idx <? 16 then Some (palette idx, 2) else Some (DEFAULT_FG, 2)
  else None.

(** One parameter: the pen after it, and how many more it uses. *)
Definition sgr_step (ps : Parser) (i : Z) (p : Pen) : Pen * Z :=
  let v := param ps i in
  if v =? 0 then (mkPen DEFAULT_FG DEFAULT_BG false, 0)
  else if v =? 1 then (mkPen (fg p) (bg p) true, 0)
  else if v =? 22 then (mkPen (fg p) (bg p) false, 0)
  else if in_range 30 37 v then (mkPen (palette (v - 30 + if bold p then 8 else 0)) (bg p) (bold p), 0)
  else if v =? 39 then (mkPen DEFAULT_FG (bg p) (bold p), 0)
  else if in_range 40 47 v then (mkPen (fg p) (palette (v - 40)) (bold p), 0)
  else if v =? 49 then (mkPen (fg p) DEFAULT_BG (bold p), 0)
  else if in_range 90 97 v then (mkPen (palette (v - 90 + 8)) (bg p) (bold p), 0)
  else if in_range 100 107 v then (mkPen (fg p) (palette (v - 100 + 8)) (bold p), 0)
  else if (v =? 38) || (v =? 48) then
    match extended_color ps i with
    | Some (color, used) =>
        ((if v =? 38 then mkPen color (bg p) (bold p) else mkPen (fg p) color (bold p)), used)
    | None => (p, 0)
    end
  else (p, 0).

Fixpoint sgr_loop (fuel : nat) (ps : Parser) (i : Z) (p : Pen) : option Pen :=
  if nparams ps <=? i then Some p
  else
    match fuel with
    | O => None
    | S fuel => let '(p, used) := sgr_step ps i p in sgr_loop fuel ps (i + used + 1) p
    end.

Definition apply_sgr : C unit := λ c,
  match sgr_loop 8 (parser c) 0 (pen c) with
  | Some p => (Ok tt, set_pen c p)
  | None => (Diverge, c)
  end.

Definition cursor_left (n : Z) : C unit := modify (λ c, set_cursor c (Z.max (cursor_col c - n) 0) (cursor_row c)).

Definition backspace : C unit :=
  let! c := get in
  if cursor_col c =? 0 then ret tt
  else
    modify (λ c, set_cursor c (cursor_col c - 1) (cursor_row c)) ;;!
    let! c := get in draw_glyph 32 (cursor_col c) (cursor_row c).

(** [while self.cursor_col < next]. *)
Fixpoint tab_loop (fuel : nat) (next : Z) : C unit :=
  let! c := get in
  if next <=? cursor_col c then ret tt
  else
    match fuel with
    | O => diverge
    | S fuel => put_printable 32 ;;! tab_loop fuel next
    end.

(** Four turns are enough when the loop ends at all. *)
Definition TAB_FUEL : nat := 4.

Definition set_esc (e : EscState) : C unit := modify (λ c,
  let p := parser c in set_parser c (mkParser e (params p) (nparams p) (cur p) (have_cur p))).
Definition modify_parser (f : Parser → Parser) : C unit := modify (λ c, set_parser c (f (parser c))).

Definition put_csi (ch : Z) : C unit :=
  if is_digit ch then
    modify_parser (λ p, mkParser (esc p) (params p) (nparams p) (Z.min (cur p * 10 + (ch - 48)) 65535) true)
  else if ch =? 59 then modify_parser push_param
  else if ch =? 109 then modify_parser push_param ;;! apply_sgr ;;! set_esc Normal
  else if ch =? 68 then
    modify_parser push_param ;;!
    let! p := reads parser in
    cursor_left (if 0 <? nparams p then param p 0 else 1) ;;! set_esc Normal
  else if ch =? 74 then modify_parser push_param ;;! clear ;;! set_esc Normal
  else set_esc Normal.

Definition put_normal (ch : Z) : C unit :=
  if ch =? 10 then newline
  else if ch =? 13 then modify (λ c, set_cursor c 0 (cursor_row c))
  else if ch =? 8 then backspace
  else if ch =? 9 then
    let! c := get in tab_loop TAB_FUEL (Z.land (cursor_col c + 4) (not64 3))
  else put_printable ch.

Definition put_char (ch : Z) : C unit :=
  if ch =? 27 then set_esc Escape
  else
    let! p := reads parser in
    match esc p with
    | Escape => if ch =? 91 then modify_parser (λ p, mkParser Csi (params p) 0 0 false) else set_esc Normal
    | Csi => put_csi ch
    | Normal => put_normal ch
    end.

(** [s.chars()] of a string, as code points. *)
Definition write_chars (s : list Z) : C unit :=
  mfor s put_char ;;!
  let! n := reads (λ c, batch_depth (pix c)) in
  if n =? 0 then flush_pending else ret tt.
Definition write_str (s : str) : C unit := write_chars (decode_utf8_lossy s).

(** [None]: no console. *)
Definition init (fb : option FbInfo) (font_data : list Z) (video : list Z) : res Empty_set (option Console) :=
  match fb with
  | None => Ok None
  | Some fb =>
      if negb (fb_bpp fb =? 32) && negb (fb_bpp fb =? 24) then Ok None
      else
        match Font_parse font_data with
        | None => Ok None
        | Some f =>
            let c := new_console fb f video in
            if (cols (geo c) =? 0) || (rows (geo c) =? 0) then Ok None
            else
              match (clear ;;! flush_pending) c with
              | (Ok tt, c) => Ok (Some c)
              | (Err e, _) => match e with end
              | (Panic, _) => Panic
              | (Diverge, _) => Diverge
              end
        end
  end.
End Console.
