(* ===== verification/ConsolePix.v ===== *)
(** * Drawing on the console

    Where the bytes of a pixel are, and what the drawing routines of the
    console do to them: a rectangle is filled, a glyph is drawn, the text is
    moved up, and the changed rectangle is copied to the screen. *)
From Stdlib Require Import String.
From stdpp Require Import base numbers list.
From Stdlib Require Import ZArith Lia Bool.
From S2P Require Import Prelude Bytes Str Console.
Import Console.

(** ** Well-formed fonts and screens *)
Record font_ok (f : Font) : Prop := {
  fo_size : 0 < fwidth f ∧ 0 < fheight f ∧ 0 < num_glyphs f;
  fo_row : bytes_per_row f = (fwidth f + 7) / 8;
  fo_char : bytes_per_row f * fheight f ≤ charsize f;
  fo_glyphs : Z.of_nat (length (glyphs f)) = num_glyphs f * charsize f;
  fo_ascii : length (ascii_glyphs f) = 128%nat ∧ Forall (λ i, 0 ≤ i) (ascii_glyphs f)
}.

Record geo_ok (g : Geometry) : Prop := {
  go_font : font_ok (font g);
  go_bpp : 1 ≤ bytes_per_pixel g ≤ 4;
  go_pitch : width g * bytes_per_pixel g ≤ pitch g;
  go_text : cols g = width g / fwidth (font g) ∧ rows g = height g / fheight (font g);
  go_some : 0 < cols g ∧ 0 < rows g;
  go_memory : pitch g * height g < 2^63
}.

(** Byte [j] of the pixel in column [x] of line [y]. *)
Definition px (g : Geometry) (b : list Z) (x y j : Z) : Z := b !!! Z.to_nat (y * pitch g + x * bytes_per_pixel g + j).

Definition visible (g : Geometry) (x y j : Z) : Prop := 0 ≤ x < width g ∧ 0 ≤ y < height g ∧ 0 ≤ j < bytes_per_pixel g.

Section Geometry.
Context (g : Geometry) (Hg : geo_ok g).

Lemma text_fits : 0 < fwidth (font g) ∧ 0 < fheight (font g) ∧
  cols g * fwidth (font g) ≤ width g ∧ rows g * fheight (font g) ≤ height g ∧ 0 < width g ∧ 0 < height g ∧ 0 < pitch g.
Proof using Hg.
  destruct Hg as [[(Hw & Hh & _) _ _ _ _] Hb Hp [Ec Er] [Hc Hr] _].
  pose proof (Z.mul_div_le (width g) (fwidth (font g)) Hw). pose proof (Z.mul_div_le (height g) (fheight (font g)) Hh).
  rewrite <- Ec, <- Er in *. nia.
Qed.

Lemma visible_range x y j : visible g x y j → 0 ≤ y * pitch g + x * bytes_per_pixel g + j < pitch g * height g.
Proof using Hg.
  intros (Hx & Hy & Hj). pose proof (go_pitch _ Hg). pose proof (go_bpp _ Hg).
  assert (0 ≤ x * bytes_per_pixel g + j < width g * bytes_per_pixel g) by nia.
  assert (y * pitch g + pitch g ≤ pitch g * height g) by nia. nia.
Qed.

(** A piece of a line. *)
Lemma row_range py x0 n : 0 ≤ py < height g → 0 ≤ x0 → 0 ≤ n → x0 + n ≤ width g →
  0 ≤ py * pitch g + x0 * bytes_per_pixel g ∧ py * pitch g + x0 * bytes_per_pixel g + n * bytes_per_pixel g ≤ pitch g * height g.
Proof using Hg. 
  intros Hy Hx Hn Hw. pose proof (go_pitch _ Hg). pose proof (go_bpp _ Hg).
  assert (0 ≤ x0 * bytes_per_pixel g ∧ (x0 + n) * bytes_per_pixel g ≤ width g * bytes_per_pixel g) by nia.
  assert (0 ≤ py * pitch g ∧ py * pitch g + pitch g ≤ pitch g * height g) by nia. lia.
Qed.

Lemma row_index py x0 n x y j : 0 ≤ py < height g → 0 ≤ x0 → 0 ≤ n → x0 + n ≤ width g → visible g x y j →
  let i := y * pitch g + x * bytes_per_pixel g + j in
  let a := py * pitch g + x0 * bytes_per_pixel g in
  (a ≤ i < a + n * bytes_per_pixel g ↔ y = py ∧ x0 ≤ x < x0 + n) ∧ (y = py → i - a = (x - x0) * bytes_per_pixel g + j).
Proof using Hg.
  intros Hy Hx Hn Hw (Vx & Vy & Vj). cbv zeta. pose proof (go_pitch _ Hg). pose proof (go_bpp _ Hg). split; [|intros ->; lia].
  assert (Hin : 0 ≤ x * bytes_per_pixel g + j < pitch g) by nia.
  assert (Hrow : 0 ≤ x0 * bytes_per_pixel g ∧ (x0 + n) * bytes_per_pixel g ≤ pitch g) by nia.
  split.
  - intros [H1 H2]. assert (y = py) as -> by nia. split; [done|]. nia.
  - intros [-> H1]. nia.
Qed.

Lemma px_splice b py x0 n row : Z.of_nat (length b) = pitch g * height g → 0 ≤ py < height g → 0 ≤ x0 → 0 ≤ n → x0 + n ≤ width g →
  Z.of_nat (length row) = n * bytes_per_pixel g →
  ∃ b', splice b (py * pitch g + x0 * bytes_per_pixel g) row = Some b' ∧ length b' = length b ∧
    ∀ x y j, visible g x y j → px g b' x y j =
      if decide (y = py ∧ x0 ≤ x < x0 + n) then row !!! Z.to_nat ((x - x0) * bytes_per_pixel g + j) else px g b x y j.
Proof using Hg.
  intros Hb Hy Hx Hn Hw Hr. destruct (row_range py x0 n Hy Hx Hn Hw) as [R1 R2].
  destruct (splice b _ row) as [b'|] eqn:Es; [|rewrite splice_Some in Es by lia; done].
  exists b'. split; [done|]. split; [by apply (length_splice _ _ _ _ Es)|].
  intros x y j V. destruct (row_index py x0 n x y j Hy Hx Hn Hw V) as [E1 E2]. pose proof (visible_range _ _ _ V) as V'.
  unfold px. set (i := y * pitch g + x * bytes_per_pixel g + j) in *. set (a := py * pitch g + x0 * bytes_per_pixel g) in *.
  rewrite !list_lookup_total_alt, (lookup_splice _ _ _ _ _ Es), Z2Nat.id, Hr by lia.
  destruct (decide (y = py ∧ _)) as [D|D].
  - rewrite decide_True by tauto. destruct D as [D _]. rewrite <- (E2 D), Z2Nat.inj_sub by lia. done.
  - by rewrite decide_False by tauto.
Qed.
End Geometry.

(** ** Drawing *)
Lemma set_shadow_same c : set_shadow c (shadow (pix c)) = c.
Proof. by destruct c as [? [] ? ? ? ?]. Qed.

Section Draw.
Context (c : Console) (Hg : geo_ok (geo c)).
Notation g := (geo c).

Definition buffer_ok (b : list Z) : Prop := Z.of_nat (length b) = pitch g * height g.

Lemma update_shadow_spec c' py x0 n row : geo c' = g → buffer_ok (shadow (pix c')) → 0 ≤ py < height g → 0 ≤ x0 → 0 ≤ n → x0 + n ≤ width g →
  Z.of_nat (length row) = n * bytes_per_pixel g →
  ∃ b', update_shadow (py * pitch g + x0 * bytes_per_pixel g) row c' = (Ok tt, set_shadow c' b') ∧ buffer_ok b' ∧
    ∀ x y j, visible g x y j → px g b' x y j =
      if decide (y = py ∧ x0 ≤ x < x0 + n) then row !!! Z.to_nat ((x - x0) * bytes_per_pixel g + j) else px g (shadow (pix c')) x y j.
Proof using Hg.
  intros Eg Hb Hy Hx Hn Hw Hr. destruct (px_splice g Hg _ py x0 n row Hb Hy Hx Hn Hw Hr) as (b' & Es & Hl & Hp).
  exists b'. unfold update_shadow, bind, reads, lift. rewrite Es. cbn [expect]. split; [done|]. split; [unfold buffer_ok; by rewrite Hl|done].
Qed.

(** Lines [a + base], ..., written one after the other. *)
Lemma paint_rows base x0 w (row : Z → list Z) (f : Z → M Console Empty_set unit) n : ∀ a b, buffer_ok b →
  0 ≤ a + base → a + base + Z.of_nat n ≤ height g → 0 ≤ x0 → 0 ≤ w → x0 + w ≤ width g →
  (∀ y, a ≤ y < a + Z.of_nat n → Z.of_nat (length (row (y + base))) = w * bytes_per_pixel g ∧
     ∀ b, f y (set_shadow c b) = update_shadow ((y + base) * pitch g + x0 * bytes_per_pixel g) (row (y + base)) (set_shadow c b)) →
  ∃ b', mfor (seqZ a (Z.of_nat n)) f (set_shadow c b) = (Ok tt, set_shadow c b') ∧ buffer_ok b' ∧
    ∀ x y j, visible g x y j → px g b' x y j =
      if decide (x0 ≤ x < x0 + w ∧ a + base ≤ y < a + base + Z.of_nat n) then row y !!! Z.to_nat ((x - x0) * bytes_per_pixel g + j) else px g b x y j.
Proof using Hg.
  induction n as [|n IH]; intros a b Hb Ha Hn Hx Hw Hxw Hf.
  - exists b. split; [done|]. split; [done|]. intros x y j _. by rewrite decide_False by lia.
  - rewrite seqZ_cons by lia. cbn [mfor]. destruct (Hf a ltac:(lia)) as [Hr Ef]. unfold bind. rewrite Ef.
    destruct (update_shadow_spec (set_shadow c b) (a + base) x0 w (row (a + base)) eq_refl Hb) as (b1 & -> & Hb1 & Hp1); [lia..|].
    change (set_shadow (set_shadow c b) b1) with (set_shadow c b1). replace (Z.pred (Z.of_nat (S n))) with (Z.of_nat n) by lia.
    destruct (IH (Z.succ a) b1) as (b' & -> & Hb' & Hp'); [done|lia..| |]. { intros y Hy. apply Hf. lia. }
    exists b'. split; [done|]. split; [done|]. intros x y j V. rewrite Hp', Hp1 by done.
    destruct (decide (y = a + base)) as [->|].
    + rewrite decide_False by lia. destruct (decide (x0 ≤ x < x0 + w)); [rewrite !decide_True by lia|rewrite !decide_False by lia]; done.
    + rewrite (decide_False (P:=y = a + base ∧ _)) by tauto.
      destruct (decide (x0 ≤ x < x0 + w ∧ Z.succ a + base ≤ y < _)); [rewrite decide_True by lia|rewrite decide_False by lia]; done.
Qed.

Lemma sizes_small : width g < 2^63 ∧ height g < 2^63.
Proof using Hg.
  destruct (text_fits g Hg) as (_ & _ & _ & _ & Hw & Hh & Hp). pose proof (go_memory _ Hg). pose proof (go_pitch _ Hg). pose proof (go_bpp _ Hg).
  assert (width g ≤ pitch g) by nia. split; nia.
Qed.

Lemma clip_x x w : x + w ≤ width g → Z.min (saturating_add x w) (width g) = x + w.
Proof using Hg. intros H. pose proof (proj1 sizes_small). unfold saturating_add, u64_max. lia. Qed.
Lemma clip_y y h : y + h ≤ height g → Z.min (saturating_add y h) (height g) = y + h.
Proof using Hg. intros H. pose proof (proj2 sizes_small). unfold saturating_add, u64_max. lia. Qed.

Lemma length_pixel color : length (pixel_bytes g color) = Z.to_nat (bytes_per_pixel g).
Proof using Hg. pose proof (go_bpp _ Hg). unfold pixel_bytes. rewrite length_take, length_le_bytes. lia. Qed.

(** The bytes of one of several pixels. *)
Lemma pixels_lookup (ps : list Z) x j : 0 ≤ x < Z.of_nat (length ps) → 0 ≤ j < bytes_per_pixel g →
  concat (List.map (pixel_bytes g) ps) !!! Z.to_nat (x * bytes_per_pixel g + j) = pixel_bytes g (ps !!! Z.to_nat x) !!! Z.to_nat j.
Proof using Hg.
  intros Hx Hj. pose proof (go_bpp _ Hg) as Hb. rewrite list_lookup_total_alt.
  rewrite (lookup_concat_uniform _ (Z.to_nat (bytes_per_pixel g))); [|lia|].
  2:{ apply Forall_forall. intros l Hl. apply list_elem_of_In, in_map_iff in Hl as (p & <- & _). apply length_pixel. }
  replace (Z.to_nat (x * bytes_per_pixel g + j)) with (Z.to_nat x * Z.to_nat (bytes_per_pixel g) + Z.to_nat j)%nat by lia.
  rewrite Nat.div_add_l, (Nat.div_small (Z.to_nat j)), Nat.add_0_r by lia.
  rewrite Nat.add_comm, Nat.Div0.mod_add, Nat.mod_small by lia.
  destruct (lookup_lt_is_Some_2 ps (Z.to_nat x)) as [p Hp]; [lia|].
  change (List.map (pixel_bytes g) ps) with (pixel_bytes g <$> ps). rewrite list_lookup_fmap, Hp. cbn.
  by rewrite (list_lookup_total_correct _ _ _ Hp), list_lookup_total_alt.
Qed.

Lemma length_pixels (ps : list Z) : Z.of_nat (length (concat (List.map (pixel_bytes g) ps))) = Z.of_nat (length ps) * bytes_per_pixel g.
Proof using Hg.
  pose proof (go_bpp _ Hg). rewrite (length_concat_uniform _ (Z.to_nat (bytes_per_pixel g))), length_map; [lia|].
  apply Forall_forall. intros l Hl. apply list_elem_of_In, in_map_iff in Hl as (p & <- & _). apply length_pixel.
Qed.

(** ** Rectangles *)
Definition inside (x0 y0 x1 y1 x y : Z) : Prop := x0 ≤ x < x1 ∧ y0 ≤ y < y1.
#[global] Instance inside_dec x0 y0 x1 y1 x y : Decision (inside x0 y0 x1 y1 x y).
Proof. unfold inside. solve_decision. Defined.

(** The bytes [fill_rect] writes are those of pixels of that colour. *)
Lemma fill_bytes_pixels n color : 0 ≤ n →
  (if color =? 0 then replicate (Z.to_nat (n * bytes_per_pixel g)) 0 else concat (replicate (Z.to_nat n) (pixel_bytes g color))) =
  concat (List.map (pixel_bytes g) (replicate (Z.to_nat n) color)).
Proof using Hg.
  intros Hn. pose proof (go_bpp _ Hg) as Hb. assert (Em : ∀ k, List.map (pixel_bytes g) (replicate k color) = replicate k (pixel_bytes g color)).
  { intros k. induction k as [|k IH]; cbn; [done|by rewrite IH]. }
  rewrite Em. destruct (Z.eqb_spec color 0) as [->|]; [|done].
  assert (Ep : pixel_bytes g 0 = replicate (Z.to_nat (bytes_per_pixel g)) 0).
  { unfold pixel_bytes. change (le_bytes 4 0) with (replicate 4 0). rewrite take_replicate. f_equal. lia. }
  rewrite Ep. replace (Z.to_nat (n * bytes_per_pixel g)) with (Z.to_nat n * Z.to_nat (bytes_per_pixel g))%nat by lia.
  generalize (Z.to_nat n). intros k. induction k as [|k IH]; [done|]. cbn [replicate concat Nat.mul]. by rewrite replicate_add, IH.
Qed.

Lemma fill_rect_spec x0 y0 w h color : buffer_ok (shadow (pix c)) → 0 ≤ x0 → 0 ≤ y0 → 0 < w → 0 < h → x0 + w ≤ width g → y0 + h ≤ height g →
  ∃ b', fill_rect x0 y0 w h color c = (Ok tt, set_shadow c b') ∧ buffer_ok b' ∧
    ∀ x y j, visible g x y j → px g b' x y j =
      if decide (inside x0 y0 (x0 + w) (y0 + h) x y) then pixel_bytes g color !!! Z.to_nat j else px g (shadow (pix c)) x y j.
Proof using Hg.
  intros Hb Hx Hy Hw Hh Hxw Hyh. unfold fill_rect, bind at 1, reads at 1. rewrite (clip_x x0 w Hxw), (clip_y y0 h Hyh).
  rewrite (proj2 (Z.leb_gt (x0 + w) x0)), (proj2 (Z.leb_gt (y0 + h) y0)) by lia. cbn [orb].
  replace (y0 + h - y0) with (Z.of_nat (Z.to_nat h)) by lia. replace (x0 + w - x0) with w by lia.
  set (row := λ _ : Z, concat (List.map (pixel_bytes g) (replicate (Z.to_nat w) color))).
  destruct (paint_rows 0 x0 w row (λ py, update_shadow (py * pitch g + x0 * bytes_per_pixel g)
    (if color =? 0 then replicate (Z.to_nat (w * bytes_per_pixel g)) 0 else concat (replicate (Z.to_nat w) (pixel_bytes g color))))
    (Z.to_nat h) y0 (shadow (pix c))) as (b' & E & Hb' & Hp); [done|lia..| |].
  - intros y Hy'. split; [unfold row; rewrite length_pixels, length_replicate; lia|]. intros b. unfold row.
    by rewrite <- fill_bytes_pixels, Z.add_0_r by lia.
  - rewrite set_shadow_same in E. exists b'. split; [exact E|]. split; [done|]. intros x y j V. rewrite Hp by done. unfold row.
    destruct V as (Vx & Vy & Vj). destruct (decide (inside _ _ _ _ _ _)) as [D|D]; unfold inside in D; [rewrite decide_True by lia|by rewrite decide_False by lia].
    rewrite pixels_lookup by (rewrite ?length_replicate; lia). by rewrite lookup_total_replicate_2 by lia.
Qed.
End Draw.

(** ** Glyphs *)
Definition glyph_bytes (f : Font) (ch : Z) : list Z := default [] (slice (glyphs f) (glyph_index f ch * charsize f) (charsize f)).
Definition glyph_bit (f : Font) (ch x y : Z) : bool :=
  negb (Z.land (glyph_bytes f ch !!! Z.to_nat (y * bytes_per_row f + x / 8)) (Z.shiftr 0x80 (Z.land x 7)) =? 0).

Lemma find_glyph_range n : ∀ i table enc k, find_glyph n i table enc = Some k → i ≤ k < i + Z.of_nat n.
Proof.
  induction n as [|n IH]; intros i table enc k; [done|]. cbn [find_glyph]. destruct (position _ _) as [e|]; [|done].
  case_bool_decide; [intros [= <-]; lia|]. intros H'%IH. lia.
Qed.

Lemma glyph_index_range f ch : font_ok f → 0 ≤ ch → 0 ≤ glyph_index f ch < num_glyphs f.
Proof.
  intros [(_ & _ & Hn) _ _ _ [Hl Ha]] Hc. unfold glyph_index.
  set (i1 := if (ch <? 128) && _ then _ else ch). assert (H1 : 0 ≤ i1).
  { subst i1. destruct (Z.ltb_spec ch 128); cbn [andb]; [|done]. destruct (negb _); [|done].
    destruct (lookup_lt_is_Some_2 (ascii_glyphs f) (Z.to_nat ch)) as [x Hx]; [lia|].
    rewrite (list_lookup_total_correct _ _ _ Hx). rewrite Forall_lookup in Ha. by apply (Ha _ _ Hx). }
  clearbody i1. set (i2 := if (128 <=? ch) && _ then _ else i1). assert (H2 : 0 ≤ i2).
  { subst i2. destruct (_ && _); [|done]. destruct (find_glyph _ _ _ _) as [k|] eqn:E; [|done]. apply find_glyph_range in E. cbn. lia. }
  clearbody i2. set (i3 := if num_glyphs f <=? i2 then 63 else i2). assert (0 ≤ i3) by (unfold i3; destruct (_ <=? _); lia).
  destruct (Z.leb_spec (num_glyphs f) i3); lia.
Qed.

Lemma glyph_spec {E} f ch : font_ok f → 0 ≤ ch → glyph (E:=E) f ch = Ok (glyph_bytes f ch) ∧ Z.of_nat (length (glyph_bytes f ch)) = charsize f.
Proof.
  intros Hf Hc. pose proof (glyph_index_range f ch Hf Hc) as Hi. destruct Hf as [(Hw & Hh & Hn) Er Hs Hl _].
  assert (Hcs : 0 ≤ charsize f). { assert (0 ≤ bytes_per_row f) by (rewrite Er; apply Z.div_pos; lia). nia. }
  unfold glyph, glyph_bytes. destruct (slice _ _ _) as [s|] eqn:Es.
  - split; [done|]. by apply length_slice in Es.
  - rewrite slice_Some in Es; [done| | |]; nia.
Qed.

Lemma slice_lookup b a n s (i : nat) : slice b a n = Some s → (i < Z.to_nat n)%nat → s !!! i = b !!! (Z.to_nat a + i)%nat.
Proof.
  intros (H1 & H2 & H3 & ->)%slice_inv Hi. by rewrite !list_lookup_total_alt, lookup_take_lt, lookup_drop by done.
Qed.

Section Glyph.
Context (c : Console) (Hg : geo_ok (geo c)).
Notation g := (geo c).
Notation f := (font (geo c)).

(** The colour of a pixel of a drawn character. *)
Definition glyph_color (ch : Z) (p : Pen) (x y : Z) : Z := if glyph_bit f ch x y then fg p else bg p.

Lemma glyph_row_spec ch y : 0 ≤ ch → 0 ≤ y < fheight f →
  ∃ r, slice (glyph_bytes f ch) (y * bytes_per_row f) (bytes_per_row f) = Some r ∧
    glyph_row_bytes g (pen c) r = concat (List.map (pixel_bytes g) (List.map (λ x, glyph_color ch (pen c) x y) (seqZ 0 (fwidth f)))).
Proof using Hg.
  intros Hc Hy. destruct (glyph_spec (E:=Empty_set) f ch (go_font _ Hg) Hc) as [_ Hl].
  destruct (go_font _ Hg) as [(Hw & _ & _) Er Hs _ _].
  assert (Hr : 0 < bytes_per_row f). { rewrite Er. apply Z.div_str_pos. lia. }
  destruct (slice _ _ _) as [r|] eqn:Es.
  - exists r. split; [done|]. unfold glyph_row_bytes. rewrite List.map_map. f_equal. apply List.map_ext_in. intros x Hx.
    apply list_elem_of_In, elem_of_seqZ in Hx. unfold glyph_color, glyph_bit.
    assert (Hx8 : 0 ≤ x / 8 < bytes_per_row f). { rewrite Er. Z.div_mod_to_equations. lia. }
    rewrite (slice_lookup _ _ _ _ _ Es) by lia. by rewrite Z2Nat.inj_add by nia.
  - rewrite slice_Some in Es; [done|nia|lia|]. rewrite Hl. nia.
Qed.

Lemma draw_glyph_spec ch col row : buffer_ok c (shadow (pix c)) → 0 ≤ ch → 0 ≤ col < cols g → 0 ≤ row < rows g →
  ∃ b', draw_glyph ch col row c = mark_dirty (col * fwidth f) (row * fheight f) (fwidth f) (fheight f) (set_shadow c b') ∧ buffer_ok c b' ∧
    ∀ x y j, visible g x y j → px g b' x y j =
      if decide (inside (col * fwidth f) (row * fheight f) ((col + 1) * fwidth f) ((row + 1) * fheight f) x y)
      then pixel_bytes g (glyph_color ch (pen c) (x - col * fwidth f) (y - row * fheight f)) !!! Z.to_nat j else px g (shadow (pix c)) x y j.
Proof using Hg.
  intros Hb Hc Hcol Hrow. unfold draw_glyph, bind at 1, reads at 1. unfold bind at 1, reads at 1.
  destruct (glyph_spec (E:=Empty_set) f ch (go_font _ Hg) Hc) as [Egl _]. unfold bind at 1, lift at 1. rewrite Egl.
  destruct (text_fits g Hg) as (Hw & Hh & Hcw & Hrh & _).
  set (ox := col * fwidth f). set (oy := row * fheight f).
  assert (Hox : 0 ≤ ox ∧ ox + fwidth f ≤ width g) by (unfold ox; nia).
  assert (Hoy : 0 ≤ oy ∧ oy + fheight f ≤ height g) by (unfold oy; nia).
  unfold bind at 1. match goal with |- context [mfor _ ?F c] => set (F' := F) end.
  destruct (paint_rows c Hg oy ox (fwidth f) (λ y, concat (List.map (pixel_bytes g) (List.map (λ x, glyph_color ch (pen c) x (y - oy)) (seqZ 0 (fwidth f)))))
    F' (Z.to_nat (fheight f)) 0 (shadow (pix c))) as (b' & E & Hb' & Hp); [done|lia..| |].
  - intros y Hy. split; [rewrite length_pixels, length_map, length_seqZ by done; lia|]. intros b. unfold F'.
    destruct (glyph_row_spec ch y Hc ltac:(lia)) as (r & Es & Er). unfold bind at 1, lift at 1. rewrite Es. cbn [expect].
    rewrite Er, (Z.add_comm oy y), Z.add_simpl_r. done.
  - rewrite set_shadow_same in E. rewrite (Z2Nat.id (fheight f)) in E by exact (Z.lt_le_incl _ _ Hh). rewrite E. exists b'. split; [done|]. split; [done|].
    intros x y j V. rewrite Hp by done. destruct V as (Vx & Vy & Vj).
    destruct (decide (inside _ _ _ _ _ _)) as [D|D]; unfold inside in D; [rewrite decide_True by (unfold ox, oy in *; lia)|by rewrite decide_False by (unfold ox, oy in *; lia)].
    rewrite pixels_lookup by (rewrite ?length_map, ?length_seqZ; unfold ox, oy in *; lia || done).
    f_equal. f_equal. change (List.map ?F (seqZ 0 (fwidth f))) with (F <$> seqZ 0 (fwidth f)).
    rewrite list_lookup_total_alt, list_lookup_fmap, lookup_seqZ_lt by (unfold ox, oy in *; lia). cbn. f_equal; unfold ox, oy in *; lia.
Qed.
End Glyph.
