(* ===== verification/ConsoleInv.v ===== *)
(** * The console as a grid of characters

    An abstract terminal whose screen is a grid of cells, the invariant of the
    console, and the refinement: whatever is written, the shadow buffer shows
    the abstract terminal's cells, and after a write so does the framebuffer.
    The one thing that can go wrong is a tab near the end of a line. *)
From Stdlib Require Import String.
From stdpp Require Import base numbers list.
From Stdlib Require Import ZArith Lia Bool.
From S2P Require Import Prelude Bytes Str Console ConsolePix.
Import Console.

(** ** The abstract terminal *)
Inductive Cell := Blank (color : Z) | Glyph (ch fg bg : Z).

Record Tty := mkTty { grid : Z → Z → Cell; tcol : Z; trow : Z; tpen : Pen; tparser : Parser }.

Section Tty.
Context (tcols trows : Z).
Implicit Types t : Tty.

Definition t_at t (col row : Z) : Tty := mkTty (grid t) col row (tpen t) (tparser t).
Definition t_parse t (p : Parser) : Tty := mkTty (grid t) (tcol t) (trow t) (tpen t) p.
Definition t_esc t (e : EscState) : Tty :=
  let p := tparser t in t_parse t (mkParser e (params p) (nparams p) (cur p) (have_cur p)).

(** The cells from [col] up to [col'] of the cursor's line hold the character. *)
Definition t_fill t (ch col col' : Z) : Tty :=
  mkTty (λ r c, if bool_decide (r = trow t ∧ col ≤ c < col') then Glyph ch (fg (tpen t)) (bg (tpen t)) else grid t r c)
    (tcol t) (trow t) (tpen t) (tparser t).

Definition t_newline t : Tty :=
  if trows <=? trow t + 1 then
    mkTty (λ r c, if r <? trows - 1 then grid t (r + 1) c else Blank DEFAULT_BG) 0 (trow t) (tpen t) (tparser t)
  else t_at t 0 (trow t + 1).

Definition t_printable t (ch : Z) : Tty :=
  let t := if tcols <=? tcol t then t_newline t else t in
  let t := t_fill t ch (tcol t) (tcol t + 1) in
  t_at t (tcol t + 1) (trow t).

Definition t_clear t : Tty := mkTty (λ _ _, Blank (bg (tpen t))) 0 0 (tpen t) (tparser t).

Definition next_tab (col : Z) : Z := (col / 4 + 1) * 4.

(** [None]: the console never returns. *)
Definition t_normal t (ch : Z) : option Tty :=
  if ch =? 10 then Some (t_newline t)
  else if ch =? 13 then Some (t_at t 0 (trow t))
  else if ch =? 8 then
    Some (if tcol t =? 0 then t else let t := t_at t (tcol t - 1) (trow t) in t_fill t 32 (tcol t) (tcol t + 1))
  else if ch =? 9 then
    if next_tab (tcol t) <=? tcols
    then Some (t_at (t_fill t 32 (tcol t) (next_tab (tcol t))) (next_tab (tcol t)) (trow t)) else None
  else Some (t_printable t ch).

Definition t_csi t (ch : Z) : Tty :=
  let p := tparser t in
  if is_digit ch then t_parse t (mkParser (esc p) (params p) (nparams p) (Z.min (cur p * 10 + (ch - 48)) 65535) true)
  else if ch =? 59 then t_parse t (push_param p)
  else
    let t := if (ch =? 109) || (ch =? 68) || (ch =? 74) then t_parse t (push_param p) else t in
    let t := if ch =? 109 then mkTty (grid t) (tcol t) (trow t) (default (tpen t) (sgr_loop 8 (tparser t) 0 (tpen t))) (tparser t)
             else if ch =? 68 then t_at t (Z.max (tcol t - param (tparser t) 0) 0) (trow t)
             else if ch =? 74 then t_clear t else t in
    t_esc t Normal.

Definition t_char t (ch : Z) : option Tty :=
  if ch =? 27 then Some (t_esc t Escape)
  else
    match esc (tparser t) with
    | Escape => Some (if ch =? 91 then t_parse t (mkParser Csi (params (tparser t)) 0 0 false) else t_esc t Normal)
    | Csi => Some (t_csi t ch)
    | Normal => t_normal t ch
    end.

Fixpoint t_chars t (s : list Z) : option Tty :=
  match s with
  | [] => Some t
  | ch :: s => t ← t_char t ch; t_chars t s
  end.
End Tty.

(** ** The invariant *)
Definition covers (d : option (Z * Z * Z * Z)) (x y : Z) : Prop :=
  match d with Some (l, t, r, b) => inside l t r b x y | None => False end.
#[global] Instance covers_dec d x y : Decision (covers d x y).
Proof. destruct d as [[[[] ?] ?]|]; cbn; apply _. Defined.

Definition dirty_ok (g : Geometry) (d : option (Z * Z * Z * Z)) : Prop :=
  match d with Some (l, t, r, b) => 0 ≤ l < r ∧ r ≤ width g ∧ 0 ≤ t < b ∧ b ≤ height g | None => True end.

Definition parser_ok (p : Parser) : Prop :=
  length (params p) = 8%nat ∧ Forall (λ v, 0 ≤ v) (params p) ∧ 0 ≤ nparams p ≤ 8 ∧ 0 ≤ cur p.

Record console_ok (c : Console) : Prop := {
  co_geo : geo_ok (geo c);
  co_shadow : buffer_ok c (shadow (pix c));
  co_screen : buffer_ok c (screen (pix c));
  co_dirty : dirty_ok (geo c) (dirty (pix c));
  co_synced : ∀ x y j, visible (geo c) x y j → ¬ covers (dirty (pix c)) x y →
    px (geo c) (screen (pix c)) x y j = px (geo c) (shadow (pix c)) x y j;
  co_cursor : 0 ≤ cursor_col c ≤ cols (geo c) ∧ 0 ≤ cursor_row c < rows (geo c);
  co_parser : parser_ok (parser c);
  co_depth : 0 ≤ batch_depth (pix c)
}.

(** A buffer shows a grid when every cell has its pixels. *)
Definition cell_color (f : Font) (cell : Cell) (x y : Z) : Z :=
  match cell with Blank color => color | Glyph ch fg bg => if glyph_bit f ch x y then fg else bg end.

Definition shown (g : Geometry) (b : list Z) (cells : Z → Z → Cell) : Prop :=
  ∀ row col x y j, 0 ≤ row < rows g → 0 ≤ col < cols g → 0 ≤ x < fwidth (font g) → 0 ≤ y < fheight (font g) → 0 ≤ j < bytes_per_pixel g →
    px g b (col * fwidth (font g) + x) (row * fheight (font g) + y) j =
    pixel_bytes g (cell_color (font g) (cells row col) x y) !!! Z.to_nat j.

Record shows (c : Console) (t : Tty) : Prop := {
  sh_cells : shown (geo c) (shadow (pix c)) (grid t);
  sh_cursor : cursor_col c = tcol t ∧ cursor_row c = trow t;
  sh_pen : pen c = tpen t;
  sh_parser : parser c = tparser t
}.

Lemma cell_visible g row col x y j : geo_ok g → 0 ≤ row < rows g → 0 ≤ col < cols g → 0 ≤ x < fwidth (font g) →
  0 ≤ y < fheight (font g) → 0 ≤ j < bytes_per_pixel g → visible g (col * fwidth (font g) + x) (row * fheight (font g) + y) j.
Proof. intros Hg Hr Hc Hx Hy Hj. destruct (text_fits g Hg) as (_ & _ & Hw & Hh & _). split; [nia|]. split; [nia|done]. Qed.

(** The cell a pixel is in. *)
Lemma cell_unique w a x b y : 0 ≤ x < w → 0 ≤ y < w → a * w + x = b * w + y → a = b ∧ x = y.
Proof. intros Hx Hy E. assert (a = b) by nia. subst. split; [done|lia]. Qed.

Lemma inside_cell w h col row col' row' x y : 0 ≤ x < w → 0 ≤ y < h →
  inside (col' * w) (row' * h) ((col' + 1) * w) ((row' + 1) * h) (col * w + x) (row * h + y) ↔ col = col' ∧ row = row'.
Proof. intros Hx Hy. unfold inside. split; [|intros [-> ->]; lia]. intros [H1 H2]. split; nia. Qed.

(** ** Drawing keeps the invariant *)
Lemma draw_ok c b' d : console_ok c → buffer_ok c b' → dirty_ok (geo c) d → (∀ x y, covers (dirty (pix c)) x y → covers d x y) →
  (∀ x y j, visible (geo c) x y j → ¬ covers d x y → px (geo c) b' x y j = px (geo c) (shadow (pix c)) x y j) →
  console_ok (set_dirty (set_shadow c b') d).
Proof.
  intros [H1 H2 H3 H4 H5 H6 H7 H8] Hb Hd Hc Hp. split; try done. cbn. intros x y j V Hn.
  rewrite Hp by done. apply H5; [done|]. intros Hx. by apply Hn, Hc.
Qed.

Lemma mark_dirty_spec c x y w h : geo_ok (geo c) → dirty_ok (geo c) (dirty (pix c)) → 0 ≤ x → 0 ≤ y → 0 < w → 0 < h →
  x + w ≤ width (geo c) → y + h ≤ height (geo c) →
  ∃ d, mark_dirty x y w h c = (Ok tt, set_dirty c d) ∧ dirty_ok (geo c) d ∧
    (∀ x' y', covers (dirty (pix c)) x' y' → covers d x' y') ∧ (∀ x' y', inside x y (x + w) (y + h) x' y' → covers d x' y').
Proof.
  intros Hg Hd Hx Hy Hw Hh Hxw Hyh. unfold mark_dirty, modify. rewrite (clip_x c Hg x w Hxw), (clip_y c Hg y h Hyh).
  rewrite (proj2 (Z.leb_gt (x + w) x)), (proj2 (Z.leb_gt (y + h) y)) by lia. cbn [orb].
  destruct (dirty (pix c)) as [[[[l t] r] b]|]; eexists; (split; [reflexivity|]); cbn in *; unfold inside.
  - split; [lia|]. split; intros; lia.
  - split; [lia|]. by split.
Qed.

(** ** Simulation *)

(** The console does [m], after which it shows [t]. *)
Definition does (m : M Console Empty_set unit) (c : Console) (t : Tty) : Prop :=
  ∃ c', m c = (Ok tt, c') ∧ console_ok c' ∧ shows c' t ∧ geo c' = geo c ∧ batch_depth (pix c') = batch_depth (pix c).

Lemma does_bind m k c t t' : does m c t →
  (∀ c', console_ok c' → shows c' t → geo c' = geo c → batch_depth (pix c') = batch_depth (pix c) → does k c' t') → does (m ;;! k) c t'.
Proof.
  intros (c1 & E & Ho & Hs & Eg & Ed) Hk. destruct (Hk c1 Ho Hs Eg Ed) as (c2 & E2 & Ho2 & Hs2 & Eg2 & Ed2).
  exists c2. rewrite (bind_ok _ _ _ _ _ E). split; [done|]. split; [done|]. split; [done|]. split; congruence.
Qed.

Lemma does_cursor c t F col row : console_ok c → shows c t → F c = set_cursor c col row → 0 ≤ col ≤ cols (geo c) → 0 ≤ row < rows (geo c) →
  does (modify F) c (t_at t col row).
Proof.
  intros Ho [S1 S2 S3 S4] EF Hc Hr. eexists. unfold modify. rewrite EF. split; [reflexivity|]. destruct Ho as [H1 H2 H3 H4 H5 H6 H7 H8].
  split; [by split|]. split; [|done]. by split.
Qed.

Lemma does_parser c t (F : Parser → Parser) : console_ok c → shows c t → parser_ok (F (parser c)) →
  does (modify_parser F) c (t_parse t (F (tparser t))).
Proof.
  intros Ho [S1 S2 S3 S4] Hp. eexists. split; [reflexivity|]. destruct Ho as [H1 H2 H3 H4 H5 H6 H7 H8].
  split; [by split|]. split; [|done]. split; cbn; [done|done|done|by rewrite S4].
Qed.

Lemma does_esc c t e : console_ok c → shows c t → does (set_esc e) c (t_esc t e).
Proof.
  intros Ho Hs. pose proof (co_parser _ Ho) as Hp.
  exact (does_parser c t (λ p, mkParser e (params p) (nparams p) (cur p) (have_cur p)) Ho Hs Hp).
Qed.

Lemma does_draw c t ch col row : console_ok c → shows c t → 0 ≤ ch → 0 ≤ col < cols (geo c) → row = cursor_row c →
  does (draw_glyph ch col row) c (t_fill t ch col (col + 1)).
Proof.
  intros Ho [S1 S2 S3 S4] Hch Hcol Er. pose proof Ho as [Hg H2 H3 H4 H5 H6 H7 H8]. assert (Hrow : 0 ≤ row < rows (geo c)) by lia.
  destruct (draw_glyph_spec c Hg ch col row H2 Hch Hcol Hrow) as (b' & E & Hb' & Hp).
  destruct (text_fits _ Hg) as (Hw & Hh & Hcw & Hrh & _). set (w := fwidth (font (geo c))) in *. set (h := fheight (font (geo c))) in *.
  destruct (mark_dirty_spec (set_shadow c b') (col * w) (row * h) w h Hg H4) as (d & Em & Hd & Hold & Hnew); [cbn [geo set_shadow set_pix]; nia..|].
  eexists. split; [rewrite E; exact Em|]. split; [|split; [|done]].
  - apply (draw_ok c b' d); try done. intros x y j V Hn. rewrite Hp by done. rewrite decide_False; [done|].
    intros Hi. apply Hn, Hnew. unfold inside in *. lia.
  - split; cbn; [|done|done|done]. intros r k x y j Hr Hk Hx Hy Hj.
    rewrite Hp by (by apply cell_visible). fold w h in Hx, Hy |- *. destruct S2 as [_ S2].
    destruct (decide (inside _ _ _ _ _ _)) as [D|D]; rewrite inside_cell in D by done.
    + destruct D as [-> ->]. rewrite bool_decide_eq_true_2 by (split; [by rewrite <- S2|lia]). cbn. unfold glyph_color. rewrite S3.
      by rewrite !Z.add_simpl_l.
    + rewrite bool_decide_eq_false_2 by (intros [? ?]; apply D; split; [lia|congruence]). by apply S1.
Qed.

(** The text moves up by a line. *)
Lemma scroll_pixels c : geo_ok (geo c) → buffer_ok c (shadow (pix c)) →
  let h := fheight (font (geo c)) in let R := rows (geo c) in
  ∃ b', scroll c = mark_dirty 0 0 (width (geo c)) (R * h) (set_shadow c b') ∧ buffer_ok c b' ∧
    ∀ x y j, visible (geo c) x y j → px (geo c) b' x y j =
      if decide (y < (R - 1) * h) then px (geo c) (shadow (pix c)) x (y + h) j
      else if decide (y < R * h) then pixel_bytes (geo c) DEFAULT_BG !!! Z.to_nat j else px (geo c) (shadow (pix c)) x y j.
Proof.
  intros Hg Hb h R. destruct (text_fits _ Hg) as (_ & Hh & _ & Hrh & Hw & Hht & Hp). fold h R in Hh, Hrh.
  pose proof (proj2 (go_some _ Hg)) as HR. fold R in HR. set (P := pitch (geo c)) in *.
  unfold scroll, bind at 1, reads at 1. unfold bind at 1, reads at 1. fold h R P.
  destruct (slice (shadow (pix c)) (h * P) (R * (h * P) - h * P)) as [moved|] eqn:Em.
  2:{ rewrite slice_Some in Em; [done|nia|nia|]. rewrite Hb. fold P. nia. }
  unfold bind at 1, lift at 1. cbn [expect]. pose proof (length_slice _ _ _ _ Em) as Hlm.
  destruct (splice (shadow (pix c)) 0 moved) as [b1|] eqn:E1; [|rewrite splice_Some in E1; [done|lia|rewrite Hlm, Hb; fold P; nia]].
  unfold bind at 1, update_shadow, bind at 1, reads at 1. unfold bind at 1, lift at 1. rewrite E1. cbn [expect]. unfold modify at 1.
  assert (Hb1 : buffer_ok c b1) by (unfold buffer_ok; by rewrite (length_splice _ _ _ _ E1)).
  destruct (fill_rect_spec (set_shadow c b1) Hg 0 ((R - 1) * h) (width (geo c)) h DEFAULT_BG Hb1) as (b2 & E2 & Hb2 & Hp2); [cbn; nia..|].
  rewrite (bind_ok _ _ _ _ _ E2). exists b2. replace (R * (h * P) / P) with (R * h) by (rewrite Z.mul_assoc, Z.div_mul by lia; done).
  split; [done|]. split; [done|]. intros x y j V. rewrite Hp2 by done. destruct V as (Vx & Vy & Vj). pose proof (visible_range _ Hg x y j (conj Vx (conj Vy Vj))) as Vr.
  destruct (decide (inside _ _ _ _ _ _)) as [D|D]; unfold inside in D.
  - rewrite decide_False, decide_True by lia. done.
  - cbn [geo set_shadow set_pix shadow pix]. unfold px. rewrite !list_lookup_total_alt, (lookup_splice _ _ _ _ _ E1), Hlm, Z2Nat.id by lia.
    fold P in Vr |- *. assert (Hin : 0 ≤ x * bytes_per_pixel (geo c) + j < P).
    { pose proof (go_pitch _ Hg). pose proof (go_bpp _ Hg). fold P in H. nia. }
    destruct (decide (y < (R - 1) * h)) as [L|L].
    + rewrite decide_True by nia. rewrite Nat.sub_0_r. rewrite <- (Nat2Z.id (Z.to_nat _)), Z2Nat.id by lia.
      rewrite <- !list_lookup_total_alt, (slice_lookup _ _ _ _ _ Em) by nia. f_equal. rewrite <- Z2Nat.inj_add by nia. f_equal. lia.
    + rewrite (decide_False (P:=y < R * h)) by lia. by rewrite decide_False by nia.
Qed.

Lemma does_scroll c t : console_ok c → shows c t → tcol t = 0 → rows (geo c) ≤ trow t + 1 →
  does scroll c (t_newline (rows (geo c)) t).
Proof.
  intros Ho [S1 S2 S3 S4] Hc Hl. pose proof Ho as [Hg H2 H3 H4 H5 H6 H7 H8].
  destruct (scroll_pixels c Hg H2) as (b' & E & Hb' & Hp). destruct (text_fits _ Hg) as (Hw & Hh & Hcw & Hrh & HW & HH & _).
  destruct (mark_dirty_spec (set_shadow c b') 0 0 (width (geo c)) (rows (geo c) * fheight (font (geo c))) Hg H4) as (d & Em & Hd & Hold & Hnew);
    [cbn [geo set_shadow set_pix]; nia..|].
  eexists. split; [rewrite E; exact Em|]. split; [|split; [|done]].
  - apply (draw_ok c b' d); try done. intros x y j V Hn. rewrite Hp by done.
    assert (¬ (y < rows (geo c) * fheight (font (geo c)))). { intros Hy. apply Hn, Hnew. destruct V as (? & ? & ?). unfold inside. lia. }
    by rewrite !decide_False by nia.
  - unfold t_newline. rewrite (proj2 (Z.leb_le _ _)) by done. split; cbn; [|lia|done|done].
    intros r k x y j Hr Hk Hx Hy Hj. rewrite Hp by (by apply cell_visible). destruct (Z.ltb_spec r (rows (geo c) - 1)).
    + rewrite decide_True by nia. replace (r * fheight (font (geo c)) + y + fheight (font (geo c))) with ((r + 1) * fheight (font (geo c)) + y) by lia.
      apply S1; try done. lia.
    + rewrite decide_False, decide_True by nia. done.
Qed.

Lemma does_newline c t : console_ok c → shows c t → does newline c (t_newline (rows (geo c)) t).
Proof.
  intros Ho Hs. pose proof (co_cursor _ Ho) as [Hc Hr]. pose proof (go_some _ (co_geo _ Ho)) as Hsome.
  apply (does_bind _ _ c (t_at t 0 (trow t))).
  { pose proof (sh_cursor _ _ Hs) as [_ <-]. apply does_cursor; try done. lia. }
  intros c1 Ho1 Hs1 Eg1 Ed1. pose proof (sh_cursor _ _ Hs1) as [Ec1 Er1]. cbn in Ec1, Er1. pose proof (co_cursor _ Ho1) as [_ Hr1].
  rewrite <- Eg1 in *. unfold does, bind at 1, get at 1. destruct (Z.leb_spec (rows (geo c1)) (cursor_row c1 + 1)) as [L|L]; rewrite Er1 in L.
  - replace (t_newline (rows (geo c1)) t) with (t_newline (rows (geo c1)) (t_at t 0 (trow t))); [by apply does_scroll|].
    unfold t_newline. cbn. by rewrite (proj2 (Z.leb_le _ _)) by done.
  - replace (t_newline (rows (geo c1)) t) with (t_at (t_at t 0 (trow t)) 0 (trow t + 1)).
    + apply does_cursor; try done; [by rewrite Ec1, Er1|lia..].
    + unfold t_newline. by rewrite (proj2 (Z.leb_gt _ _)) by done.
Qed.

Lemma newline_cursor t R : 0 ≤ trow t < R → tcol (t_newline R t) = 0 ∧ 0 ≤ trow (t_newline R t) < R.
Proof. intros Hr. unfold t_newline. destruct (Z.leb_spec R (trow t + 1)); cbn; lia. Qed.

Lemma does_printable c t ch : console_ok c → shows c t → 0 ≤ ch → does (put_printable ch) c (t_printable (cols (geo c)) (rows (geo c)) t ch).
Proof.
  intros Ho Hs Hch. pose proof (co_cursor _ Ho) as [Hc Hr]. pose proof (go_some _ (co_geo _ Ho)) as Hsome.
  pose proof (sh_cursor _ _ Hs) as [Ec Er]. unfold put_printable, t_printable. unfold does, bind at 1, get at 1.
  set (t1 := if cols (geo c) <=? tcol t then t_newline (rows (geo c)) t else t).
  assert (Ht1 : 0 ≤ tcol t1 < cols (geo c)).
  { unfold t1. destruct (Z.leb_spec (cols (geo c)) (tcol t)); [|lia]. destruct (newline_cursor t (rows (geo c))) as [-> _]; lia. }
  apply (does_bind _ _ c t1).
  { unfold t1. rewrite Ec. destruct (cols (geo c) <=? tcol t); [by apply does_newline|]. by exists c. }
  intros c1 Ho1 Hs1 Eg1 Ed1. unfold does, bind at 1, get at 1. pose proof (sh_cursor _ _ Hs1) as [Ec1 Er1].
  apply (does_bind _ _ c1 (t_fill t1 ch (tcol t1) (tcol t1 + 1))).
  { rewrite Ec1. apply does_draw; try done. by rewrite Eg1. }
  intros c2 Ho2 Hs2 Eg2 Ed2. pose proof (sh_cursor _ _ Hs2) as [Ec2 Er2]. cbn in Ec2, Er2. pose proof (co_cursor _ Ho2) as [_ Hr2].
  apply does_cursor; try done; [by rewrite Ec2, Er2|cbn [tcol t_fill]; rewrite Eg2, Eg1; lia|cbn [trow t_fill]; lia].
Qed.

Lemma does_backspace c t : console_ok c → shows c t →
  does backspace c (if tcol t =? 0 then t else t_fill (t_at t (tcol t - 1) (trow t)) 32 (tcol t - 1) (tcol t - 1 + 1)).
Proof.
  intros Ho Hs. pose proof (co_cursor _ Ho) as [Hc Hr]. pose proof (sh_cursor _ _ Hs) as [Ec Er].
  unfold backspace, does, bind at 1, get at 1. rewrite Ec. destruct (Z.eqb_spec (tcol t) 0) as [E0|E0]; [by exists c|].
  apply (does_bind _ _ c (t_at t (tcol t - 1) (trow t))).
  { apply does_cursor; try done; [by rewrite Ec, Er|lia..]. }
  intros c1 Ho1 Hs1 Eg1 Ed1. unfold does, bind at 1, get at 1. pose proof (sh_cursor _ _ Hs1) as [Ec1 Er1]. cbn in Ec1, Er1.
  rewrite Ec1. apply does_draw; try done. rewrite Eg1. lia.
Qed.

Lemma does_clear c t : console_ok c → shows c t → does clear c (t_clear t).
Proof.
  intros Ho Hs. pose proof Ho as [Hg H2 H3 H4 H5 H6 H7 H8]. destruct (text_fits _ Hg) as (Hw & Hh & Hcw & Hrh & HW & HH & _).
  destruct (fill_rect_spec c Hg 0 0 (width (geo c)) (height (geo c)) (bg (pen c)) H2) as (b' & E & Hb' & Hp); [lia..|].
  destruct (mark_dirty_spec (set_shadow c b') 0 0 (width (geo c)) (height (geo c)) Hg H4) as (d & Em & Hd & Hold & Hnew); [cbn; lia..|].
  unfold clear, does, bind at 1, reads at 1. unfold bind at 1, reads at 1. rewrite (bind_ok _ _ _ _ _ E), (bind_ok _ _ _ _ _ Em).
  eexists. split; [reflexivity|]. split; [|split; [|done]].
  - assert (Ho' : console_ok (set_dirty (set_shadow c b') d)).
    { apply (draw_ok c b' d); try done. intros x y j V Hn. exfalso. apply Hn, Hnew. destruct V as (? & ? & ?). unfold inside. lia. }
    destruct Ho' as [K1 K2 K3 K4 K5 K6 K7 K8]. split; try done. cbn. pose proof (go_some _ Hg). lia.
  - destruct Hs as [S1 S2 S3 S4]. split; cbn; [|done|done|done]. intros r k x y j Hr Hk Hx Hy Hj. pose proof (cell_visible _ _ _ _ _ _ Hg Hr Hk Hx Hy Hj) as V.
    rewrite Hp by done. rewrite decide_True; [by rewrite S3|]. destruct V as (? & ? & ?). unfold inside. lia.
Qed.

(** Only the cells of the grid matter. *)
Lemma shows_grid c t t' : shows c t → (∀ r k, grid t' r k = grid t r k) → tcol t' = tcol t → trow t' = trow t → tpen t' = tpen t →
  tparser t' = tparser t → shows c t'.
Proof.
  intros [S1 S2 S3 S4] Hgr Ec Er Ep Eq. split; [|by rewrite Ec, Er|by rewrite Ep|by rewrite Eq].
  intros r k x y j Hr Hk Hx Hy Hj. rewrite Hgr. by apply S1.
Qed.

Lemma does_grid m c t t' : does m c t → (∀ r k, grid t' r k = grid t r k) → tcol t' = tcol t → trow t' = trow t → tpen t' = tpen t →
  tparser t' = tparser t → does m c t'.
Proof. intros (c' & E & Ho & Hs & R) Hgr Ec Er Ep Eq. exists c'. split; [done|]. split; [done|]. split; [by apply (shows_grid c' t)|done]. Qed.

(** ** Tabs *)
Lemma next_tab_eq col : 0 ≤ col < 2^63 → Z.land (col + 4) (not64 3) = next_tab col.
Proof.
  intros Hc. pose proof (align_down_spec (col + 4) 2 ltac:(lia) ltac:(lia)) as E. unfold align_down in E. change (2 ^ 2 - 1) with 3 in E.
  rewrite E. unfold next_tab. change (2 ^ 2) with 4. replace (col + 4) with (col + 1 * 4) by lia. rewrite Z.div_add by done. done.
Qed.

Lemma does_tab fuel next : ∀ c t, console_ok c → shows c t → tcol t ≤ next ≤ cols (geo c) → next - tcol t ≤ Z.of_nat fuel →
  does (tab_loop fuel next) c (t_at (t_fill t 32 (tcol t) next) next (trow t)).
Proof.
  induction fuel as [|fuel IH]; intros c t Ho Hs Hn Hf; cbn [tab_loop]; unfold does, bind at 1, get at 1;
    pose proof (sh_cursor _ _ Hs) as [Ec Er]; rewrite Ec.
  - rewrite (proj2 (Z.leb_le _ _)) by lia. exists c. split; [done|]. split; [done|]. split; [|done].
    apply (shows_grid c t _ Hs); try done; [|cbn; lia]. intros r k. cbn. rewrite bool_decide_eq_false_2; [done|]. lia.
  - destruct (Z.leb_spec next (tcol t)) as [L|L].
    + exists c. split; [done|]. split; [done|]. split; [|done].
      apply (shows_grid c t _ Hs); try done; [|cbn; lia]. intros r k. cbn. rewrite bool_decide_eq_false_2; [done|]. lia.
    + apply (does_bind _ _ c (t_printable (cols (geo c)) (rows (geo c)) t 32)); [by apply does_printable|].
      intros c1 Ho1 Hs1 Eg1 Ed1. unfold t_printable in Hs1. rewrite (proj2 (Z.leb_gt _ _)) in Hs1 by lia.
      eapply does_grid; [apply (IH c1 _ Ho1 Hs1); cbn; rewrite ?Eg1; lia|..]; try done. intros r k. cbn.
      repeat case_bool_decide; try done; lia.
Qed.

(** A tab stop beyond the last column is never reached. *)
Lemma tab_hangs fuel next : ∀ c t, console_ok c → shows c t → cols (geo c) < next → fst (tab_loop fuel next c) = Diverge.
Proof.
  induction fuel as [|fuel IH]; intros c t Ho Hs Hn; cbn [tab_loop]; unfold bind at 1, get at 1;
    pose proof (co_cursor _ Ho) as [Hc _]; rewrite (proj2 (Z.leb_gt _ _)) by lia; [done|].
  destruct (does_printable c t 32 Ho Hs ltac:(done)) as (c1 & E & Ho1 & Hs1 & Eg1 & _). rewrite (bind_ok _ _ _ _ _ E).
  apply (IH c1 _ Ho1 Hs1). by rewrite Eg1.
Qed.

(** ** Escape sequences *)
Lemma extended_color_used p i col used : extended_color p i = Some (col, used) → 0 ≤ used.
Proof. unfold extended_color. repeat case_match; intros [= <- <-]; lia. Qed.

Lemma sgr_used ps i p : 0 ≤ snd (sgr_step ps i p).
Proof.
  unfold sgr_step. repeat (case_match; cbn [snd]; try lia). by eapply extended_color_used.
Qed.

Lemma sgr_loop_total ps fuel : ∀ i p, nparams ps - i ≤ Z.of_nat fuel → is_Some (sgr_loop fuel ps i p).
Proof.
  induction fuel as [|fuel IH]; intros i p Hf; cbn [sgr_loop]; destruct (Z.leb_spec (nparams ps) i); try done; [lia|].
  pose proof (sgr_used ps i p) as Hu. destruct (sgr_step ps i p) as [p' used]. cbn in Hu. apply IH. lia.
Qed.

Lemma push_param_ok p : parser_ok p → parser_ok (push_param p) ∧ 0 < nparams (push_param p).
Proof.
  intros (Hl & Hf & Hn & Hc). unfold push_param. assert (Hv : 0 ≤ if have_cur p then cur p else 0) by (destruct (have_cur p); lia).
  destruct (Z.ltb_spec (nparams p) 8); (split; [|cbn; lia]); (split; [|split; [|cbn; lia]]); cbn; try done.
  - by rewrite length_insert.
  - by apply Forall_insert.
Qed.

Lemma param_nonneg p i : parser_ok p → 0 ≤ param p i.
Proof.
  intros (_ & Hf & _). unfold param. rewrite list_lookup_total_alt. destruct (params p !! Z.to_nat i) eqn:E; [|done]. cbn.
  rewrite Forall_lookup in Hf. by apply (Hf _ _ E).
Qed.

Lemma does_sgr c t : console_ok c → shows c t →
  does apply_sgr c (mkTty (grid t) (tcol t) (trow t) (default (tpen t) (sgr_loop 8 (tparser t) 0 (tpen t))) (tparser t)).
Proof.
  intros Ho [S1 S2 S3 S4]. destruct Ho as [H1 H2 H3 H4 H5 H6 H7 H8]. pose proof H7 as (_ & _ & Hn & _).
  unfold does, apply_sgr. rewrite <- S3, <- S4. destruct (sgr_loop_total (parser c) 8 0 (pen c)) as [p E]; [lia|]. rewrite E.
  eexists. split; [reflexivity|]. split; [by split|]. split; [|done]. by split.
Qed.

Lemma does_csi c t ch : console_ok c → shows c t → does (put_csi ch) c (t_csi t ch).
Proof.
  intros Ho Hs. pose proof (co_parser _ Ho) as Hp. pose proof (push_param_ok _ Hp) as [Hpp Hpn]. unfold put_csi, t_csi.
  pose proof (does_parser c t push_param Ho Hs Hpp) as Hpush. destruct (is_digit ch) eqn:Ed.
  { apply (does_parser c t (λ p, mkParser (esc p) (params p) (nparams p) (Z.min (cur p * 10 + (ch - 48)) 65535) true) Ho Hs).
    destruct Hp as (? & ? & ? & ?). unfold is_digit in Ed. apply andb_true_iff in Ed as [E1%Z.leb_le E2%Z.leb_le]. split; [done|]. split; [done|]. split; [done|]. cbn. lia. }
  destruct (Z.eqb_spec ch 59) as [->|]; [done|].
  destruct (Z.eqb_spec ch 109) as [->|]; [|destruct (Z.eqb_spec ch 68) as [->|]; [|destruct (Z.eqb_spec ch 74) as [->|]]]; cbn [orb Z.eqb Pos.eqb].
  - eapply does_bind; [exact Hpush|]. intros c1 Ho1 Hs1 _ _. eapply does_bind; [by apply does_sgr|]. intros c2 Ho2 Hs2 _ _. by apply does_esc.
  - eapply does_bind; [exact Hpush|]. intros c1 Ho1 Hs1 Eg1 _. unfold does, bind at 1, reads at 1.
    pose proof (sh_cursor _ _ Hs1) as [Ec Er]. pose proof (co_cursor _ Ho1) as [Hc Hr]. pose proof (sh_parser _ _ Hs1) as Epp. cbn in Epp.
    rewrite (sh_parser _ _ Hs) in Hpn. rewrite Epp, (proj2 (Z.ltb_lt _ _)) by done.
    eapply does_bind; [|intros c2 Ho2 Hs2 _ _; by apply does_esc].
    pose proof (param_nonneg (push_param (tparser t)) 0 ltac:(by rewrite <- (sh_parser _ _ Hs))) as Hq.
    cbn in Ec, Er. apply does_cursor; try done; [cbn; by rewrite Ec, Er|cbn; lia|cbn; lia].
  - eapply does_bind; [exact Hpush|]. intros c1 Ho1 Hs1 _ _. eapply does_bind; [by apply does_clear|]. intros c2 Ho2 Hs2 _ _. by apply does_esc.
  - by apply does_esc.
Qed.

(** ** A character *)
Lemma does_char c t ch : console_ok c → shows c t → 0 ≤ ch →
  match t_char (cols (geo c)) (rows (geo c)) t ch with
  | Some t' => does (put_char ch) c t'
  | None => fst (put_char ch c) = Diverge
  end.
Proof.
  intros Ho Hs Hch. unfold put_char, t_char. destruct (ch =? 27); [by apply does_esc|]. unfold does, bind at 1, reads at 1.
  pose proof (sh_parser _ _ Hs) as Ep. rewrite Ep. unfold bind at 1, reads at 1. rewrite Ep. destruct (esc (tparser t)).
  2:{ destruct (ch =? 91); [|by apply does_esc]. apply (does_parser c t (λ p, mkParser Csi (params p) 0 0 false)); try done.
      destruct (co_parser _ Ho) as (? & ? & ? & ?). split; [done|]. split; [done|]. cbn. lia. }
  2:{ by apply does_csi. }
  pose proof (co_cursor _ Ho) as [Hc Hr]. pose proof (sh_cursor _ _ Hs) as [Ec Er]. unfold put_normal, t_normal.
  destruct (ch =? 10); [by apply does_newline|]. destruct (ch =? 13).
  { apply does_cursor; try done; [by rewrite Er|lia|lia]. }
  destruct (ch =? 8); [by apply does_backspace|]. destruct (ch =? 9); [|by apply does_printable].
  unfold bind at 1, get at 1. unfold bind at 1, get at 1.
  assert (Hcols : cols (geo c) < 2^63).
  { destruct (text_fits _ (co_geo _ Ho)) as (? & _ & ? & _). pose proof (proj1 (sizes_small c (co_geo _ Ho))). nia. }
  rewrite next_tab_eq, Ec by lia.
  assert (Ht : tcol t < next_tab (tcol t) ≤ tcol t + 4) by (unfold next_tab; Z.div_mod_to_equations; lia).
  destruct (Z.leb_spec (next_tab (tcol t)) (cols (geo c))) as [L|L].
  - apply does_tab; try done; [lia|]. unfold TAB_FUEL. lia.
  - by apply (tab_hangs TAB_FUEL (next_tab (tcol t)) c t).
Qed.

(** ** Copying to the screen *)
Lemma flush_rows c x0 w n : geo_ok (geo c) → buffer_ok c (shadow (pix c)) → 0 ≤ x0 → 0 ≤ w → x0 + w ≤ width (geo c) →
  ∀ y0 v, buffer_ok c v → 0 ≤ y0 → y0 + Z.of_nat n ≤ height (geo c) →
  ∃ v', mfor (seqZ y0 (Z.of_nat n)) (λ py, flush_row (py * pitch (geo c) + x0 * bytes_per_pixel (geo c)) (w * bytes_per_pixel (geo c))) (set_screen c v) =
      (Ok tt, set_screen c v') ∧ buffer_ok c v' ∧
    ∀ x y j, visible (geo c) x y j → px (geo c) v' x y j =
      if decide (inside x0 y0 (x0 + w) (y0 + Z.of_nat n) x y) then px (geo c) (shadow (pix c)) x y j else px (geo c) v x y j.
Proof.
  intros Hg Hsh Hx Hw Hxw. pose proof (go_bpp _ Hg) as Hbpp. induction n as [|n IH]; intros y0 v Hv Hy Hn.
  - exists v. split; [done|]. split; [done|]. intros x y j _. rewrite decide_False; [done|]. unfold inside. lia.
  - rewrite seqZ_cons by lia. cbn [mfor]. replace (Z.pred (Z.of_nat (S n))) with (Z.of_nat n) by lia.
    set (o := y0 * pitch (geo c) + x0 * bytes_per_pixel (geo c)). set (k := w * bytes_per_pixel (geo c)).
    destruct (row_range _ Hg y0 x0 w ltac:(lia) Hx Hw Hxw) as [R1 R2]. fold o k in R1, R2.
    destruct (slice (shadow (pix c)) o k) as [row|] eqn:Es; [|rewrite slice_Some in Es; [done|lia|unfold k; nia|by rewrite Hsh]].
    pose proof (length_slice _ _ _ _ Es) as Hl.
    destruct (px_splice _ Hg v y0 x0 w row Hv ltac:(lia) Hx Hw Hxw Hl) as (v1 & E1 & Hl1 & Hp1). fold o in E1.
    assert (Hv1 : buffer_ok c v1) by (unfold buffer_ok; by rewrite Hl1).
    assert (Ef : flush_row o k (set_screen c v) = (Ok tt, set_screen c v1)).
    { unfold flush_row, bind, reads, lift, modify. cbn [pix set_screen set_pix shadow screen]. rewrite Es. cbn [expect]. by rewrite E1. }
    rewrite (bind_ok _ _ _ _ _ Ef). destruct (IH (Z.succ y0) v1) as (v' & E' & Hv' & Hp'); [done|lia..|].
    exists v'. split; [exact E'|]. split; [done|]. intros x y j V. rewrite Hp', Hp1 by done. unfold inside.
    destruct (decide (y = y0 ∧ x0 ≤ x < x0 + w)) as [D|D].
    + rewrite decide_False, decide_True by lia. rewrite (slice_lookup _ _ _ _ _ Es) by (destruct V as (? & ? & ?); unfold k; nia).
      destruct D as [-> D]. destruct V as (? & ? & ?). unfold px. rewrite <- Z2Nat.inj_add by nia. f_equal. unfold o. f_equal. lia.
    + destruct (decide (x0 ≤ x < x0 + w ∧ Z.succ y0 ≤ y < Z.succ y0 + Z.of_nat n)); [rewrite decide_True by lia|rewrite decide_False by lia]; done.
Qed.

Lemma flush_spec c t : console_ok c → shows c t →
  ∃ c', flush_pending c = (Ok tt, c') ∧ console_ok c' ∧ shows c' t ∧ geo c' = geo c ∧ batch_depth (pix c') = batch_depth (pix c) ∧
    dirty (pix c') = None ∧ shown (geo c') (screen (pix c')) (grid t).
Proof.
  intros Ho Hs. pose proof Ho as [Hg H2 H3 H4 H5 H6 H7 H8].
  assert (Hclean : ∀ c', console_ok c' → shows c' t → dirty (pix c') = None → shown (geo c') (screen (pix c')) (grid t)).
  { intros c' [G1 _ _ _ G5 _ _ _] [S1 _ _ _] Ed r k x y j Hr Hk Hx Hy Hj. rewrite G5; [by apply S1|by apply cell_visible|rewrite Ed; by intros []]. }
  unfold flush_pending, bind at 1, reads at 1. destruct (dirty (pix c)) as [[[[l tp] r] b]|] eqn:Ed.
  2:{ exists c. split; [done|]. split; [done|]. split; [done|]. split; [done|]. split; [done|]. split; [done|by apply Hclean]. }
  destruct H4 as (L1 & L2 & L3 & L4). set (c0 := set_dirty c None). unfold bind at 1, modify at 1. fold c0.
  unfold flush_rect, bind at 1, reads at 1. rewrite (clip_x c0 Hg l (r - l)), (clip_y c0 Hg tp (b - tp)) by (cbn; lia).
  rewrite (proj2 (Z.leb_gt (l + (r - l)) l)), (proj2 (Z.leb_gt (tp + (b - tp)) tp)) by lia. cbn [orb].
  replace (l + (r - l) - l) with (r - l) by lia. replace (tp + (b - tp) - tp) with (Z.of_nat (Z.to_nat (b - tp))) by lia.
  destruct (flush_rows c0 l (r - l) (Z.to_nat (b - tp)) Hg H2 ltac:(lia) ltac:(lia) ltac:(cbn; lia) tp (screen (pix c)) H3 ltac:(lia) ltac:(cbn; lia))
    as (v' & E & Hv' & Hp). replace (set_screen c0 (screen (pix c))) with c0 in E by (by destruct c as [? [] ? ? ? ?]).
  rewrite (bind_ok _ _ _ _ _ E). unfold modify. match goal with |- context [(Ok tt, ?K)] => set (c1 := K) end. exists c1. split; [done|].
  assert (Ho1 : console_ok c1).
  { split; try done. cbn. intros x y j V _. rewrite Hp by done. destruct (decide (inside _ _ _ _ _ _)) as [D|D]; [done|].
    apply H5; [done|]. cbn. unfold inside in *. lia. }
  assert (Hs1 : shows c1 t) by (destruct Hs as [S1 S2 S3 S4]; by split).
  split; [done|]. split; [done|]. split; [done|]. split; [done|]. split; [done|]. by apply Hclean.
Qed.

(** ** Text *)
Lemma does_chars s : ∀ c t, console_ok c → shows c t → Forall (λ ch, 0 ≤ ch) s →
  match t_chars (cols (geo c)) (rows (geo c)) t s with
  | Some t' => does (mfor s put_char) c t'
  | None => fst (mfor s put_char c) = Diverge
  end.
Proof.
  induction s as [|ch s IH]; intros c t Ho Hs Hf; cbn [t_chars mfor]; [by exists c|]. apply Forall_cons in Hf as [Hch Hf].
  pose proof (does_char c t ch Ho Hs Hch) as H1. destruct (t_char _ _ t ch) as [t1|]; cbn [mbind option_bind].
  - destruct H1 as (c1 & E1 & Ho1 & Hs1 & Eg1 & Ed1). specialize (IH c1 t1 Ho1 Hs1 Hf). rewrite Eg1 in IH.
    destruct (t_chars _ _ t1 s) as [t2|].
    + destruct IH as (c2 & E2 & Ho2 & Hs2 & Eg2 & Ed2). exists c2. rewrite (bind_ok _ _ _ _ _ E1). split; [done|]. split; [done|]. split; [done|]. split; congruence.
    + by rewrite (bind_ok _ _ _ _ _ E1).
  - unfold bind. destruct (put_char ch c) as [r c1]. cbn in H1. by rewrite H1.
Qed.


(** C23: The loop that draws a tab ends exactly when the next tab stop is at or
    before the last column.  A tab written after a full line, for one, leaves
    the kernel drawing spaces for ever. *)
Theorem tab_ends_iff c t : console_ok c → shows c t →
  (∃ fuel c', tab_loop fuel (next_tab (cursor_col c)) c = (Ok tt, c')) ↔ next_tab (cursor_col c) ≤ cols (geo c).
Proof.
  intros Ho Hs. pose proof (co_cursor _ Ho) as [Hc _]. split.
  - intros (fuel & c' & E). destruct (Z.le_gt_cases (next_tab (cursor_col c)) (cols (geo c))) as [|L]; [done|].
    pose proof (tab_hangs fuel _ c t Ho Hs L) as H. by rewrite E in H.
  - intros L. exists 4%nat. rewrite (proj1 (sh_cursor _ _ Hs)) in *.
    assert (Ht : tcol t < next_tab (tcol t) ≤ tcol t + 4) by (unfold next_tab; Z.div_mod_to_equations; lia).
    destruct (does_tab 4 (next_tab (tcol t)) c t Ho Hs ltac:(lia) ltac:(lia)) as (c' & E & _). by exists c'.
Qed.

(** ** The first console *)
Definition ascii_ok (a : list Z) : Prop := length a = 128%nat ∧ Forall (λ i, 0 ≤ i) a.

Lemma ascii_tokens_ok i tokens : 0 ≤ i → ∀ a, ascii_ok a → ascii_ok (ascii_tokens i tokens a).
Proof.
  intros Hi. induction tokens as [|[|cp [|? ?]] tokens IH]; intros a Ha; cbn [ascii_tokens]; [done|by apply IH| |by apply IH].
  apply IH. destruct (_ && _); [|done]. destruct Ha as [Hl Hf]. split; [by rewrite length_insert|]. by apply Forall_insert.
Qed.

Lemma ascii_records_ok n : ∀ i table a, 0 ≤ i → ascii_ok a → ascii_ok (ascii_records n i table a).
Proof.
  induction n as [|n IH]; intros i table a Hi Ha; cbn [ascii_records]; [done|]. destruct (position _ _) as [e|]; [|done].
  apply IH; [lia|]. by apply ascii_tokens_ok.
Qed.

Lemma font_header_range data hs n cs w h u : bytes_ok data → font_header data = Some (hs, n, cs, w, h, u) →
  0 ≤ hs ∧ 0 ≤ n ∧ 0 ≤ cs ∧ 0 ≤ w ∧ 0 ≤ h.
Proof.
  intros Hb. assert (Hr : ∀ o v, le_at 4 data o = Some v → 0 ≤ v).
  { intros o v. unfold le_at. destruct (slice data o 4) as [s|] eqn:E; [|done]. intros [= <-].
    apply (bytes_ok_slice _ _ _ _ Hb) in E. pose proof (le_value_range s E). lia. }
  assert (Hn : ∀ i, 0 ≤ data !!! i).
  { intros i. rewrite list_lookup_total_alt. destruct (data !! i) eqn:E; [|done]. cbn. unfold bytes_ok in Hb. rewrite Forall_lookup in Hb.
    by destruct (Hb _ _ E). }
  unfold font_header. destruct (_ && _).
  - destruct (le_at 4 data 8) as [v1|] eqn:E1; [|done]. destruct (le_at 4 data 16) as [v2|] eqn:E2; [|done].
    destruct (le_at 4 data 20) as [v3|] eqn:E3; [|done]. destruct (le_at 4 data 28) as [v4|] eqn:E4; [|done].
    destruct (le_at 4 data 24) as [v5|] eqn:E5; [|done]. destruct (le_at 4 data 12) as [v6|] eqn:E6; [|done].
    intros [= <- <- <- <- <- <-]. split_and!; by eapply Hr.
  - destruct (_ && _); [|done]. intros [= <- <- <- <- <- <-]. split_and!; try done; [|by apply Hn..]. by destruct (negb _).
Qed.

Lemma Font_parse_ok data f : bytes_ok data → Font_parse data = Some f → font_ok f.
Proof.
  intros Hb. unfold Font_parse. destruct (font_header data) as [[[[[[hs n] cs] w] h] u]|] eqn:Eh; [|done]. cbn [mbind option_bind].
  destruct (font_header_range _ _ _ _ _ _ _ Hb Eh) as (R1 & R2 & R3 & R4 & R5).
  destruct (Z.eqb_spec w 0); [done|]. destruct (Z.eqb_spec h 0); [done|]. destruct (Z.eqb_spec n 0); [done|]. cbn [orb].
  destruct (Z.ltb_spec cs ((w + 7) / 8 * h)); [done|].
  destruct (checked_mul n cs) as [size|] eqn:Em; [|done]. cbn [mbind option_bind]. apply checked_mul_inv in Em as [-> _].
  destruct (checked_add hs _) as [e|] eqn:Ea; [|done]. cbn [mbind option_bind].
  destruct (_ <? _); [done|]. destruct (slice data hs _) as [gl|] eqn:Es; [|done]. intros [= <-].
  split; cbn; [lia|done|done|by rewrite (length_slice _ _ _ _ Es)|].
  assert (Hn : ascii_ok (replicate 128 u16_max)) by (split; [done|apply Forall_replicate; done]).
  destruct u; [|exact Hn]. by apply ascii_records_ok.
Qed.

(** What the bootloader promises of a framebuffer: lines do not overlap, and
    it is memory. *)
Record fb_ok (fb : FbInfo) (video : list Z) : Prop := {
  fb_sizes : 0 ≤ fb_width fb ∧ 0 ≤ fb_height fb;
  fb_lines : fb_width fb * (fb_bpp fb / 8) ≤ fb_pitch fb;
  fb_bytes : Z.of_nat (length video) = fb_pitch fb * fb_height fb;
  fb_memory : fb_pitch fb * fb_height fb < 2^63
}.

Definition new_tty : Tty := mkTty (λ _ _, Blank DEFAULT_BG) 0 0 (mkPen DEFAULT_FG DEFAULT_BG false) new_parser.

(** The screen is blank after the first clearing, whatever it held. *)
Lemma first_clear fb f video : font_ok f → fb_ok fb video → 1 ≤ fb_bpp fb / 8 ≤ 4 → 0 < fb_width fb / fwidth f → 0 < fb_height fb / fheight f →
  ∃ c', (clear ;;! flush_pending) (new_console fb f video) = (Ok tt, c') ∧ console_ok c' ∧ shows c' new_tty ∧
    shown (geo c') (screen (pix c')) (grid new_tty) ∧ batch_depth (pix c') = 0.
Proof.
  intros Hf [[F1 F2] F3 F4 F5] Hbpp Hc Hr. set (c := new_console fb f video).
  assert (Hg : geo_ok (geo c)) by (by split).
  destruct (text_fits _ Hg) as (Hw & Hh & Hcw & Hrh & HW & HH & HP).
  assert (Hs : buffer_ok c (shadow (pix c))).
  { unfold buffer_ok, c. cbn. rewrite length_replicate. unfold u64_max. cbn in HP, HH. nia. }
  destruct (fill_rect_spec c Hg 0 0 (width (geo c)) (height (geo c)) (bg (pen c)) Hs) as (b' & E & Hb' & Hp); [lia..|].
  set (full := Some (0, 0, width (geo c), height (geo c))).
  assert (Em : mark_dirty 0 0 (width (geo c)) (height (geo c)) (set_shadow c b') = (Ok tt, set_dirty (set_shadow c b') full)).
  { unfold mark_dirty, modify. rewrite (clip_x (set_shadow c b') Hg 0), (clip_y (set_shadow c b') Hg 0) by (cbn; lia).
    rewrite !Z.add_0_l, (proj2 (Z.leb_gt (width (geo c)) 0)), (proj2 (Z.leb_gt (height (geo c)) 0)) by lia. done. }
  set (c1 := set_cursor (set_dirty (set_shadow c b') full) 0 0).
  assert (Ecl : clear c = (Ok tt, c1)).
  { unfold clear, bind at 1, reads at 1. unfold bind at 1, reads at 1. by rewrite (bind_ok _ _ _ _ _ E), (bind_ok _ _ _ _ _ Em). }
  assert (Ho : console_ok c1).
  { split; try done.
    - intros x y j (V1 & V2 & _) Hn. exfalso. apply Hn. change (covers full x y). unfold covers, full, inside.
      change (geo c1) with (geo c) in *. lia.
    - change (0 ≤ 0 ≤ cols (geo c) ∧ 0 ≤ 0 < rows (geo c)). pose proof (go_some _ Hg). lia.
    - split; [done|]. split; [by apply Forall_replicate|]. cbn. lia. }
  assert (Hsh : shows c1 new_tty).
  { split; [|done..]. change (shadow (pix c1)) with b'. change (geo c1) with (geo c). intros r k x y j Hr' Hk Hx Hy Hj.
    pose proof (cell_visible _ _ _ _ _ _ Hg Hr' Hk Hx Hy Hj) as V. rewrite Hp by done.
    rewrite decide_True; [done|]. destruct V as (? & ? & ?). unfold inside. lia. }
  rewrite (bind_ok _ _ _ _ _ Ecl). destruct (flush_spec c1 new_tty Ho Hsh) as (c2 & E2 & Ho2 & Hs2 & Eg2 & Ed2 & _ & Hsc).
  exists c2. split; [done|]. split; [done|]. split; [done|]. split; [done|]. by rewrite Ed2.
Qed.

(** Setting up the console on a framebuffer, with any bytes as the font
    file, does not panic: there is no console when the pixel format is not
    supported, the font is not a PSF font or the screen is too small for a
    character, and otherwise a well-formed one that shows an empty terminal,
    on the framebuffer too. *)
Theorem console_starts fb data video : bytes_ok data → fb_ok fb video →
  match init (Some fb) data video with
  | Ok (Some c) => console_ok c ∧ shows c new_tty ∧ shown (geo c) (screen (pix c)) (grid new_tty) ∧ batch_depth (pix c) = 0
  | Ok None => (fb_bpp fb ≠ 24 ∧ fb_bpp fb ≠ 32) ∨ Font_parse data = None ∨
      ∃ f, Font_parse data = Some f ∧ (fb_width fb < fwidth f ∨ fb_height fb < fheight f)
  | _ => False
  end.
Proof.
  intros Hb Hfb. pose proof (fb_sizes _ _ Hfb) as [F1 F2]. unfold init.
  destruct (negb (fb_bpp fb =? 32) && negb (fb_bpp fb =? 24)) eqn:Ebpp.
  { left. apply andb_true_iff in Ebpp as [E1%negb_true_iff%Z.eqb_neq E2%negb_true_iff%Z.eqb_neq]. done. }
  assert (Hbpp : 1 ≤ fb_bpp fb / 8 ≤ 4).
  { apply andb_false_iff in Ebpp as [E%negb_false_iff%Z.eqb_eq|E%negb_false_iff%Z.eqb_eq]; rewrite E; by vm_compute. }
  destruct (Font_parse data) as [f|] eqn:Ef; [|by right; left].
  pose proof (Font_parse_ok data f Hb Ef) as Hf. pose proof (fo_size _ Hf) as (W & H & _).
  cbn [geo new_console cols rows]. pose proof (Z.div_pos _ _ F1 W) as Pc. pose proof (Z.div_pos _ _ F2 H) as Pr.
  destruct (Z.eqb_spec (fb_width fb / fwidth f) 0) as [Ec|Ec].
  { right; right; exists f; split; [done|left; apply Z.div_small_iff in Ec; lia]. }
  destruct (Z.eqb_spec (fb_height fb / fheight f) 0) as [Er|Er]; cbn [orb].
  { right; right; exists f; split; [done|right; apply Z.div_small_iff in Er; lia]. }
  destruct (first_clear fb f video Hf Hfb Hbpp) as (c' & -> & R); [lia..|]. exact R.
Qed.
