(* ===== verification/ConsoleDemo.v ===== *)
(** * A console of two lines of four characters

    A font of one-line glyphs on a screen of 32 by 2 pixels, on which the
    theorems on the console are applied. *)
From Stdlib Require Import String.
From stdpp Require Import base numbers list.
From Stdlib Require Import ZArith Lia Bool.
From S2P Require Import Prelude Bytes Str Console ConsolePix ConsoleInv.
Import Console.

(** A PSF1 font: glyph [i] is the bits of [i]. *)
Definition demo_font : list Z := [0x36; 0x04; 0; 1] ++ seqZ 0 256.
Definition demo_fb : FbInfo := mkFb 32 2 128 32.
Definition demo_video : list Z := replicate 256 7.
Definition demo_parsed : Font := default (mkFont [] [] 0 0 1 1 0 []) (Font_parse demo_font).
Definition demo_console : Console := snd ((clear ;;! flush_pending) (new_console demo_fb demo_parsed demo_video)).

Lemma demo_fb_ok : fb_ok demo_fb demo_video.
Proof. split; vm_compute; intuition discriminate. Qed.

Lemma demo_font_bytes : bytes_ok demo_font.
Proof. apply bytes_okb_ok. vm_compute. reflexivity. Qed.

Lemma demo_init_runs : init (Some demo_fb) demo_font demo_video = Ok (Some demo_console).
Proof. vm_compute. reflexivity. Qed.

Lemma demo_parsed_ok : Font_parse demo_font = Some demo_parsed.
Proof. vm_compute. reflexivity. Qed.

Lemma demo_console_ok : console_ok demo_console ∧ shows demo_console new_tty.
Proof.
  destruct (first_clear demo_fb demo_parsed demo_video (Font_parse_ok _ _ demo_font_bytes demo_parsed_ok) demo_fb_ok) as (c & E & Ho & Hs & _).
  - vm_compute. intuition discriminate.
  - vm_compute. reflexivity.
  - vm_compute. reflexivity.
  - unfold demo_console. rewrite E. exact (conj Ho Hs).
Qed.

Lemma demo_sizes : cols (geo demo_console) = 4 ∧ rows (geo demo_console) = 2 ∧ batch_depth (pix demo_console) = 0.
Proof. vm_compute. intuition reflexivity. Qed.

Lemma console_starts_witness : console_ok demo_console ∧ shown (geo demo_console) (screen (pix demo_console)) (grid new_tty).
Proof.
  pose proof (console_starts demo_fb demo_font demo_video demo_font_bytes demo_fb_ok) as H. rewrite demo_init_runs in H.
  destruct H as (H1 & _ & H3 & _). exact (conj H1 H3).
Defined.

(** A red x, then one on the next line. *)
Definition demo_text : list Z := [27] ++ lit "[31mx" ++ [10] ++ lit "x".

Lemma demo_text_chars : Forall (λ ch, 0 ≤ ch) demo_text.
Proof. apply (Forall_impl is_byte); [apply bytes_okb_ok; vm_compute; reflexivity|]. intros ch [H _]. exact H. Qed.


(** A full line. *)
Definition demo_full : Console := snd (write_chars (lit "abcd") demo_console).

Lemma demo_full_ok : ∃ t, console_ok demo_full ∧ shows demo_full t.
Proof.
  pose proof (does_chars (lit "abcd") demo_console new_tty (proj1 demo_console_ok) (proj2 demo_console_ok)) as H.
  destruct demo_sizes as (Ec & Er & Eb). rewrite Ec, Er in H.
  destruct (t_chars 4 2 new_tty (lit "abcd")) as [t'|] eqn:Et; [|vm_compute in Et; discriminate Et].
  destruct H as (c1 & E & Ho & Hs & _ & Ed).
  { apply (Forall_impl is_byte); [apply bytes_okb_ok; vm_compute; reflexivity|]. intros ch [H _]. exact H. }
  destruct (flush_spec c1 t' Ho Hs) as (c2 & E2 & Ho2 & Hs2 & _). exists t'.
  assert (Ef : demo_full = c2); [|rewrite Ef; exact (conj Ho2 Hs2)].
  unfold demo_full, write_chars. rewrite (bind_ok _ _ _ _ _ E). unfold bind at 1, reads at 1. rewrite Ed, Eb. cbn [Z.eqb]. rewrite E2. reflexivity.
Qed.

(** Here a tab never ends. *)
Lemma tab_ends_iff_witness : ¬ ∃ fuel c', tab_loop fuel 8 demo_full = (Ok tt, c').
Proof.
  destruct demo_full_ok as (t & Ho & Hs). destruct (tab_ends_iff demo_full t Ho Hs) as [H _].
  assert (E4 : cursor_col demo_full = 4) by (vm_compute; reflexivity). rewrite E4 in H. intros Hx.
  assert (Hc : cols (geo demo_full) = 4) by (vm_compute; reflexivity). rewrite Hc in H.
  exact (H Hx eq_refl).
Defined.
