(* ===== verification/Keyboard.v ===== *)
(** * The keyboard and the serial port: [drivers/ps2.rs], [serial.rs]

    The port-mapped devices are a parameter: reading a port returns a byte and
    changes the device, writing changes it.  The keyboard's interrupt handler
    turns scancodes into bytes in a ring buffer; bringing up the controller and
    writing to the serial port talk to the device, every wait of the former
    bounded.  Log lines are left out. *)
From Stdlib Require Import String.
From stdpp Require Import base numbers list.
From Stdlib Require Import ZArith Lia Bool.
From S2P Require Import Prelude Bytes Str.

(** A device behind the ports of the processor. *)
Class Ports (D : Type) := { inb : Z → D → Z * D; outb : Z → Z → D → D }.

Module Keyboard.

(** ** The ring buffer *)
Definition BUFFER_CAP : Z := 256.

Record RingBuffer := mkRing { buf : list Z; head : Z; tail : Z; len : Z }.
Definition RingBuffer_new : RingBuffer := mkRing (replicate 256 0) 0 0 0.

Definition push (byte : Z) (r : RingBuffer) : RingBuffer :=
  let r := if len r =? BUFFER_CAP then mkRing (buf r) (head r) ((tail r + 1) mod BUFFER_CAP) (len r - 1) else r in
  mkRing (<[Z.to_nat (head r) := byte]> (buf r)) ((head r + 1) mod BUFFER_CAP) (tail r) (len r + 1).

Definition pop (r : RingBuffer) : option Z * RingBuffer :=
  if len r =? 0 then (None, r)
  else (Some (buf r !!! Z.to_nat (tail r)), mkRing (buf r) (head r) ((tail r + 1) mod BUFFER_CAP) (len r - 1)).

(** ** Scancodes *)
Definition SET1_UNSHIFTED : list Z :=
  [0; 27; 49; 50; 51; 52; 53; 54;
   55; 56; 57; 48; 45; 61; 8; 9;
   113; 119; 101; 114; 116; 121; 117; 105;
   111; 112; 91; 93; 10; 0; 97; 115;
   100; 102; 103; 104; 106; 107; 108; 59;
   39; 96; 0; 92; 122; 120; 99; 118;
   98; 110; 109; 44; 46; 47; 0; 42;
   0; 32; 0; 0; 0; 0; 0; 0;
   0; 0; 0; 0; 0; 0; 0; 55;
   56; 57; 45; 52; 53; 54; 43; 49;
   50; 51; 48; 46; 0; 0; 0; 0;
   0; 0; 0; 0; 0; 0; 0; 0].

Definition SET1_SHIFTED : list Z :=
  [0; 27; 33; 64; 35; 36; 37; 94;
   38; 42; 40; 41; 95; 43; 8; 9;
   81; 87; 69; 82; 84; 89; 85; 73;
   79; 80; 123; 125; 10; 0; 65; 83;
   68; 70; 71; 72; 74; 75; 76; 58;
   34; 126; 0; 124; 90; 88; 67; 86;
   66; 78; 77; 60; 62; 63; 0; 42;
   0; 32; 0; 0; 0; 0; 0; 0;
   0; 0; 0; 0; 0; 0; 0; 55;
   56; 57; 45; 52; 53; 54; 43; 49;
   50; 51; 48; 46; 0; 0; 0; 0;
   0; 0; 0; 0; 0; 0; 0; 0].

Definition SCANCODE_LSHIFT : Z := 0x2a.
Definition SCANCODE_RSHIFT : Z := 0x36.
Definition SCANCODE_CAPS_LOCK : Z := 0x3a.
Definition BREAK_BIT : Z := 0x80.
Definition EXTENDED_PREFIX : Z := 0xe0.

Record Keys := mkKeys {
  ASCII_QUEUE : RingBuffer; SHIFT_HELD : bool; CAPS_LOCK : bool; EXPECT_EXTENDED : bool
}.
Definition Keys_new : Keys := mkKeys RingBuffer_new false false false.

Definition push_escape (sequence : list Z) (k : Keys) : Keys :=
  mkKeys (foldl (λ q b, push b q) (ASCII_QUEUE k) sequence) (SHIFT_HELD k) (CAPS_LOCK k) (EXPECT_EXTENDED k).

(** The escape sequence of an extended key. *)
Definition extended_sequence (make_code : Z) : list Z :=
  if make_code =? 0x48 then 27 :: lit "[A"
  else if make_code =? 0x50 then 27 :: lit "[B"
  else if make_code =? 0x4d then 27 :: lit "[C"
  else if make_code =? 0x4b then 27 :: lit "[D"
  else if make_code =? 0x47 then 27 :: lit "[H"
  else if make_code =? 0x4f then 27 :: lit "[F"
  else if make_code =? 0x53 then 27 :: lit "[3~"
  else [].

Definition handle_scancode (code : Z) (k : Keys) : Keys :=
  if code =? EXTENDED_PREFIX then mkKeys (ASCII_QUEUE k) (SHIFT_HELD k) (CAPS_LOCK k) true
  else
    let is_break := negb (Z.land code BREAK_BIT =? 0) in
    let make_code := Z.land code (255 - BREAK_BIT) in
    let extended := EXPECT_EXTENDED k in
    let k := mkKeys (ASCII_QUEUE k) (SHIFT_HELD k) (CAPS_LOCK k) false in
    if extended then (if is_break then k else push_escape (extended_sequence make_code) k)
    else if (make_code =? SCANCODE_LSHIFT) || (make_code =? SCANCODE_RSHIFT) then
      mkKeys (ASCII_QUEUE k) (negb is_break) (CAPS_LOCK k) false
    else if make_code =? SCANCODE_CAPS_LOCK then
      if is_break then k else mkKeys (ASCII_QUEUE k) (SHIFT_HELD k) (negb (CAPS_LOCK k)) false
    else if is_break then k
    else if 0x60 <=? make_code then k
    else
      let shift := SHIFT_HELD k in
      let caps := CAPS_LOCK k in
      let ascii := (if shift then SET1_SHIFTED else SET1_UNSHIFTED) !!! Z.to_nat make_code in
      if ascii =? 0 then k
      else
        let ascii := if caps && is_lower ascii then to_ascii_uppercase ascii
                     else if caps && is_upper ascii && shift then to_ascii_lowercase ascii else ascii in
        mkKeys (push ascii (ASCII_QUEUE k)) shift caps false.

Definition try_read_byte (k : Keys) : option Z * Keys :=
  let '(o, q) := pop (ASCII_QUEUE k) in (o, mkKeys q (SHIFT_HELD k) (CAPS_LOCK k) (EXPECT_EXTENDED k)).

(** ** The controller *)
Section Controller.
Context {D : Type} `{Ports D}.
Notation IO := (M D Empty_set).

Definition DATA_PORT : Z := 0x60.
Definition STATUS_PORT : Z := 0x64.
Definition read_port (p : Z) : IO Z := λ d, let '(v, d) := inb p d in (Ok v, d).
Definition write_port (p v : Z) : IO unit := λ d, (Ok tt, outb p v d).

(** Up to [n] looks at the status register for a bit with the given value. *)
Fixpoint wait_status (n : nat) (bit : Z) (set : bool) : IO bool :=
  match n with
  | O => ret false
  | S n =>
      let! v := read_port STATUS_PORT in
      if Bool.eqb (negb (Z.land v bit =? 0)) set then ret true else wait_status n bit set
  end.

Definition WAITS : nat := Z.to_nat 100000.
Definition wait_input_clear : IO bool := wait_status WAITS 2 false.
Definition wait_output_full : IO bool := wait_status WAITS 1 true.

Definition write_command (cmd : Z) : IO bool :=
  let! ok := wait_input_clear in
  if negb ok then ret false else write_port STATUS_PORT cmd ;;! ret true.
Definition write_data (byte : Z) : IO bool :=
  let! ok := wait_input_clear in
  if negb ok then ret false else write_port DATA_PORT byte ;;! ret true.
Definition read_data : IO (option Z) :=
  let! ok := wait_output_full in
  if negb ok then ret None else let! v := read_port DATA_PORT in ret (Some v).

(** Empty the output buffer. *)
Fixpoint drain (n : nat) : IO unit :=
  match n with
  | O => ret tt
  | S n =>
      let! v := read_port STATUS_PORT in
      if Z.land v 1 =? 0 then ret tt else read_port DATA_PORT ;;! drain n
  end.

(** The acknowledgement and the pass code of the keyboard's reset, in either order. *)
Fixpoint reset_answers (n : nat) (saw : bool) : IO bool :=
  match n with
  | O => ret saw
  | S n =>
      let! o := read_data in
      match o with
      | Some v => reset_answers n (saw || (v =? 0xfa) || (v =? 0xaa))
      | None => ret saw
      end
  end.

(** Whether the keyboard is ready. *)
Definition init : IO bool :=
  let! st := read_port STATUS_PORT in
  if st =? 0xff then ret false
  else
    write_command 0xad ;;!
    write_command 0xa7 ;;!
    drain WAITS ;;!
    let! ok := write_command 0xaa in
    if negb ok then ret false
    else
      let! r := read_data in
      if negb (bool_decide (r = Some 0x55)) then ret false
      else
        let! ok := write_command 0xab in
        if negb ok then ret false
        else
          let! r := read_data in
          if negb (bool_decide (r = Some 0x00)) then ret false
          else
            let! ok := write_command 0x20 in
            if negb ok then ret false
            else
              let! r := read_data in
              match r with
              | None => ret false
              | Some config =>
                  let config := Z.lor config (Z.lor 1 0x40) in
                  let! ok := write_command 0x60 in
                  let! ok := if (ok : bool) then write_data config else ret false in
                  if negb ok then ret false
                  else
                    let! ok := write_command 0xae in
                    if negb ok then ret false
                    else
                      let! ok := write_data 0xff in
                      if negb ok then ret false else reset_answers 2 false
              end.
End Controller.
End Keyboard.

Module Serial.
Section Serial.
Context {D : Type} `{Ports D}.
Notation IO := (M D Empty_set).

Definition COM1 : Z := 0x3f8.

Definition serial_init : IO unit :=
  mfor [(1, 0x00); (3, 0x80); (0, 0x03); (1, 0x00); (3, 0x03); (2, 0xc7); (4, 0x0b)]
    (λ '(o, v), Keyboard.write_port (COM1 + o) v).

Definition is_transmit_empty : IO bool :=
  let! v := Keyboard.read_port (COM1 + 5) in ret (negb (Z.land v 0x20 =? 0)).

(** The wait for the transmitter is not bounded in the source; [fuel] bounds it here. *)
Fixpoint write_byte (fuel : nat) (byte : Z) : IO unit :=
  let! ok := is_transmit_empty in
  if (ok : bool) then Keyboard.write_port COM1 byte
  else match fuel with O => diverge | S fuel => write_byte fuel byte end.

Definition serial_try_read_byte : IO (option Z) :=
  let! v := Keyboard.read_port (COM1 + 5) in
  if negb (Z.land v 1 =? 0) then let! b := Keyboard.read_port COM1 in ret (Some b) else ret None.

(** Line feeds go out after a carriage return. *)
Definition wire (byte : Z) : list Z := if byte =? 10 then [13; 10] else [byte].
Definition write_str (fuel : nat) (s : list Z) : IO unit := mfor s (λ b, mfor (wire b) (write_byte fuel)).
End Serial.
End Serial.
