(* ===== verification/KeyQueue.v ===== *)
(** * The keyboard as a bounded queue

    The ring buffer holds the last 256 bytes not read yet: whatever is typed
    and read, in any order, the driver behaves as a list to which the bytes of
    each key press are appended, and from which the oldest are dropped. *)
From Stdlib Require Import String.
From stdpp Require Import base numbers list.
From Stdlib Require Import ZArith Lia Bool.
From S2P Require Import Prelude Bytes Str Keyboard.
Import Keyboard.

(** ** The ring buffer *)
Record ring_ok (r : RingBuffer) : Prop := {
  ri_buf : length (buf r) = 256%nat;
  ri_tail : 0 ≤ tail r < BUFFER_CAP;
  ri_len : 0 ≤ len r ≤ BUFFER_CAP;
  ri_head : head r = (tail r + len r) mod BUFFER_CAP
}.

(** What is in the buffer, oldest first. *)
Definition contents (r : RingBuffer) : list Z :=
  List.map (λ i, buf r !!! Z.to_nat ((tail r + i) mod BUFFER_CAP)) (seqZ 0 (len r)).

(** The last 256 elements. *)
Definition keep (l : list Z) : list Z := drop (length l - 256) l.

Lemma length_contents r : ring_ok r → length (contents r) = Z.to_nat (len r).
Proof. intros Hr. unfold contents. by rewrite length_map, length_seqZ. Qed.

Lemma contents_lookup r (i : nat) : ring_ok r → Z.of_nat i < len r → contents r !! i = Some (buf r !!! Z.to_nat ((tail r + Z.of_nat i) mod BUFFER_CAP)).
Proof.
  intros Hr Hi. unfold contents. change (List.map ?F ?L) with (F <$> L). rewrite list_lookup_fmap, lookup_seqZ_lt by lia. cbn. by rewrite Z.add_0_l.
Qed.

Lemma pop_contents r : ring_ok r →
  match contents r with
  | [] => pop r = (None, r)
  | x :: l => ∃ r', pop r = (Some x, r') ∧ ring_ok r' ∧ contents r' = l
  end.
Proof.
  intros Hr. pose proof (length_contents r Hr) as Hl. pose proof Hr as [H1 H2 H3 H4]. unfold pop, BUFFER_CAP in *. destruct (contents r) as [|x l] eqn:E; cbn in Hl.
  - by rewrite (proj2 (Z.eqb_eq _ _)) by lia.
  - rewrite (proj2 (Z.eqb_neq _ _)) by lia. set (r' := mkRing _ _ _ _).
    assert (Hx : buf r !!! Z.to_nat (tail r) = x).
    { pose proof (contents_lookup r 0 Hr ltac:(lia)) as Hx. rewrite E in Hx. injection Hx as ->. unfold BUFFER_CAP. rewrite Z.add_0_r, Z.mod_small by lia. done. }
    assert (Hr' : ring_ok r').
    { unfold r'. split; cbn; [done|apply Z.mod_pos_bound; done|unfold BUFFER_CAP; lia|]. unfold BUFFER_CAP. rewrite H4, Zplus_mod_idemp_l. f_equal. lia. }
    exists r'. split; [by rewrite Hx|]. split; [done|]. apply list_eq. intros i.
    destruct (decide (Z.of_nat i < len r')) as [Hi|Hi].
    + rewrite contents_lookup by done. pose proof (contents_lookup r (S i) Hr) as Hs. rewrite E in Hs. change ((x :: l) !! S i) with (l !! i) in Hs.
      unfold r' in *. cbn in Hi |- *. rewrite Hs by lia. unfold BUFFER_CAP. rewrite Zplus_mod_idemp_l.
      by replace (tail r + 1 + Z.of_nat i) with (tail r + Z.of_nat (S i)) by lia.
    + rewrite lookup_ge_None_2 by (rewrite length_contents by done; lia). symmetry. apply lookup_ge_None_2. unfold r' in Hi. cbn in Hi. lia.
Qed.

Lemma push_eq r b : len r ≠ BUFFER_CAP →
  push b r = mkRing (<[Z.to_nat (head r) := b]> (buf r)) ((head r + 1) mod BUFFER_CAP) (tail r) (len r + 1).
Proof. intros Hl. unfold push. by rewrite (proj2 (Z.eqb_neq _ _) Hl). Qed.

Lemma push_room r b : ring_ok r → len r < BUFFER_CAP → ring_ok (push b r) ∧ contents (push b r) = contents r ++ [b].
Proof.
  intros Hr Hlt. pose proof Hr as [H1 H2 H3 H4]. rewrite push_eq by (unfold BUFFER_CAP in *; lia). unfold BUFFER_CAP in *.
  set (r' := mkRing _ _ _ _). assert (Hr' : ring_ok r').
  { unfold r'. split; cbn [buf head tail len]; unfold BUFFER_CAP; [by rewrite length_insert|done|lia|]. rewrite H4, Zplus_mod_idemp_l. f_equal. lia. }
  split; [done|]. apply list_eq. intros i. destruct (decide (Z.of_nat i < len r')) as [Hi|Hi].
  - rewrite contents_lookup by done. unfold r' in *. cbn [buf head tail len] in *. rewrite H4. unfold BUFFER_CAP.
    destruct (decide (Z.of_nat i = len r)) as [Ei|Ei].
    + rewrite Ei, list_lookup_total_insert_eq; [|rewrite H1; pose proof (Z.mod_pos_bound (tail r + len r) 256 ltac:(done)); lia].
      rewrite lookup_app_r by (rewrite length_contents by done; lia). rewrite length_contents by done.
      by replace (i - Z.to_nat (len r))%nat with O by lia.
    + rewrite list_lookup_total_insert_ne.
      * rewrite lookup_app_l by (rewrite length_contents by done; lia). by rewrite contents_lookup by (done || lia).
      * intros E. apply Z2Nat.inj in E; [|apply Z.mod_pos_bound; done..]. apply Ei. Z.div_mod_to_equations. lia.
  - rewrite !lookup_ge_None_2; [done|rewrite length_app, length_contents by done; unfold r' in Hi; cbn [len length] in *; lia|rewrite length_contents by done; lia].
Qed.

Lemma push_contents r b : ring_ok r → ring_ok (push b r) ∧ contents (push b r) = keep (contents r ++ [b]).
Proof.
  intros Hr. pose proof (length_contents r Hr) as Hl. pose proof (ri_len _ Hr) as Hlen. unfold BUFFER_CAP in Hlen.
  destruct (decide (len r = 256)) as [E|E].
  - pose proof (pop_contents r Hr) as Hp. destruct (contents r) as [|x l] eqn:Ec; [cbn in Hl; lia|].
    destruct Hp as (r' & Ep & Hr' & Ec'). unfold pop in Ep. rewrite (proj2 (Z.eqb_neq _ _)) in Ep by lia. injection Ep as _ Er'.
    assert (Epush : push b r = push b r').
    { rewrite (push_eq r') by (rewrite <- Er'; cbn; unfold BUFFER_CAP; lia). unfold push. rewrite E. cbn [Z.eqb]. rewrite <- Er', E. done. }
    rewrite Epush. destruct (push_room r' b Hr') as [Ho Hc]; [rewrite <- Er'; cbn; unfold BUFFER_CAP; lia|]. split; [done|].
    rewrite Hc, Ec'. unfold keep. cbn [app length] in *. rewrite length_app. cbn [length].
    replace (S (length l + 1) - 256)%nat with 1%nat by lia. done.
  - destruct (push_room r b Hr) as [Ho Hc]; [unfold BUFFER_CAP; lia|]. split; [done|]. rewrite Hc. unfold keep.
    rewrite length_app, Hl. cbn [length]. by replace (Z.to_nat (len r) + 1 - 256)%nat with O by lia.
Qed.

(** Dropping early or late makes no difference. *)
Lemma keep_keep l m : keep (keep l ++ m) = keep (l ++ m).
Proof.
  unfold keep. rewrite !length_app, length_drop. rewrite <- (drop_app_le l m (length l - 256)) by lia. rewrite drop_drop. f_equal. lia.
Qed.

Lemma push_all_contents s : ∀ r, ring_ok r →
  ring_ok (foldl (λ q b, push b q) r s) ∧ contents (foldl (λ q b, push b q) r s) = keep (contents r ++ s).
Proof.
  induction s as [|b s IH]; intros r Hr; cbn [foldl].
  - split; [done|]. rewrite app_nil_r. unfold keep. pose proof (length_contents r Hr). pose proof (ri_len _ Hr). unfold BUFFER_CAP in *.
    by replace (length (contents r) - 256)%nat with O by lia.
  - destruct (push_contents r b Hr) as [Ho Hc]. destruct (IH _ Ho) as [Ho' Hc']. split; [done|].
    rewrite Hc', Hc, keep_keep. by rewrite <- app_assoc.
Qed.

(** ** Keys *)

(** The state of the modifiers, and the bytes a scancode stands for. *)
Record Mods := mkMods { shift : bool; caps : bool; prefixed : bool }.

Definition letter_case (m : Mods) (ch : Z) : Z :=
  if is_lower ch || is_upper ch then if xorb (shift m) (caps m) then to_ascii_uppercase ch else to_ascii_lowercase ch else ch.

Definition key_spec (code : Z) (m : Mods) : list Z * Mods :=
  if code =? EXTENDED_PREFIX then ([], mkMods (shift m) (caps m) true)
  else
    let key := code mod 128 in
    let pressed := code <? 128 in
    let after := mkMods (shift m) (caps m) false in
    if prefixed m then (if pressed then extended_sequence key else [], after)
    else if bool_decide (key ∈ [SCANCODE_LSHIFT; SCANCODE_RSHIFT]) then ([], mkMods pressed (caps m) false)
    else if key =? SCANCODE_CAPS_LOCK then ([], if pressed then mkMods (shift m) (negb (caps m)) false else after)
    else if negb pressed then ([], after)
    else match (if shift m then SET1_SHIFTED else SET1_UNSHIFTED) !! Z.to_nat key with
         | None | Some 0 => ([], after)
         | Some ch => ([letter_case m ch], after)
         end.

(** The driver and the queue side by side. *)
Inductive kb_event := Scan (code : Z) | ReadByte.

Fixpoint kb_run (k : Keys) (evs : list kb_event) : list (option Z) :=
  match evs with
  | [] => []
  | Scan code :: evs => kb_run (handle_scancode code k) evs
  | ReadByte :: evs => let '(o, k) := try_read_byte k in o :: kb_run k evs
  end.

Fixpoint queue_run (q : list Z) (m : Mods) (evs : list kb_event) : list (option Z) :=
  match evs with
  | [] => []
  | Scan code :: evs => let '(bytes, m) := key_spec code m in queue_run (keep (q ++ bytes)) m evs
  | ReadByte :: evs => match q with [] => None :: queue_run [] m evs | b :: q => Some b :: queue_run q m evs end
  end.

Record keys_match (k : Keys) (q : list Z) (m : Mods) : Prop := {
  km_ring : ring_ok (ASCII_QUEUE k);
  km_queue : contents (ASCII_QUEUE k) = q;
  km_mods : m = mkMods (SHIFT_HELD k) (CAPS_LOCK k) (EXPECT_EXTENDED k)
}.

Lemma keep_contents r : ring_ok r → keep (contents r ++ []) = contents r.
Proof. intros Hr. exact (eq_sym (proj2 (push_all_contents [] r Hr))). Qed.

(** The tables agree with their letters: shifted ones are upper case. *)
Lemma table_case (key : nat) (ch : Z) (sh cp : bool) : (if sh then SET1_SHIFTED else SET1_UNSHIFTED) !! key = Some ch →
  (if cp && is_lower ch then to_ascii_uppercase ch else if cp && is_upper ch && sh then to_ascii_lowercase ch else ch) =
  letter_case (mkMods sh cp false) ch.
Proof.
  intros E. assert (Hall : Forall (λ ch, (if cp && is_lower ch then to_ascii_uppercase ch
    else if cp && is_upper ch && sh then to_ascii_lowercase ch else ch) = letter_case (mkMods sh cp false) ch)
    (if sh then SET1_SHIFTED else SET1_UNSHIFTED)).
  { destruct sh, cp; repeat (apply Forall_cons_2; [reflexivity|]); apply Forall_nil_2. }
  rewrite Forall_lookup in Hall. by apply (Hall key).
Qed.

Lemma scan_matches code k q m : 0 ≤ code < 256 → keys_match k q m →
  let '(bytes, m') := key_spec code m in keys_match (handle_scancode code k) (keep (q ++ bytes)) m'.
Proof.
  intros Hcode [Hr <- ->]. unfold key_spec, handle_scancode. cbn [shift caps prefixed].
  destruct (code =? EXTENDED_PREFIX). { split; cbn; [done|by rewrite keep_contents|done]. }
  assert (Eb : negb (Z.land code BREAK_BIT =? 0) = negb (code <? 128)).
  { unfold BREAK_BIT. change 128 with (2 ^ 7) at 1. rewrite land_pow2_test by lia. destruct (Z.ltb_spec code 128); cbn [negb].
    - apply not_true_iff_false. rewrite Z.testbit_true by lia. change (2 ^ 7) with 128. rewrite Z.div_small by lia. done.
    - apply Z.testbit_true; [lia|]. change (2 ^ 7) with 128. replace (code / 128) with 1 by (Z.div_mod_to_equations; lia). done. }
  assert (Em : Z.land code (255 - BREAK_BIT) = code mod 128) by exact (land_mask code 7 ltac:(lia)).
  rewrite Eb, Em. clear Eb Em. pose proof (Z.mod_pos_bound code 128 ltac:(done)) as Hk. set (key := code mod 128) in *. clearbody key.
  assert (Hsame : ∀ s c e, keys_match (mkKeys (ASCII_QUEUE k) s c e) (keep (contents (ASCII_QUEUE k) ++ [])) (mkMods s c e)).
  { intros s c e. split; cbn; [done|by rewrite keep_contents|done]. }
  destruct (EXPECT_EXTENDED k).
  { destruct (code <? 128); cbn [negb]; [|apply Hsame]. destruct (push_all_contents (extended_sequence key) _ Hr) as [Ho Hc]. by split. }
  destruct (Z.eqb_spec key SCANCODE_LSHIFT) as [->|N1]; [rewrite negb_involutive; apply Hsame|].
  destruct (Z.eqb_spec key SCANCODE_RSHIFT) as [->|N2]; [rewrite negb_involutive; apply Hsame|].
  rewrite bool_decide_eq_false_2 by (rewrite !elem_of_cons, elem_of_nil; tauto). cbn [orb].
  destruct (key =? SCANCODE_CAPS_LOCK); [destruct (code <? 128); apply Hsame|].
  destruct (code <? 128); cbn [negb]; [|apply Hsame]. cbn [SHIFT_HELD CAPS_LOCK].
  set (T := if SHIFT_HELD k then SET1_SHIFTED else SET1_UNSHIFTED).
  assert (HT : length T = 96%nat) by (unfold T; by destruct (SHIFT_HELD k)).
  destruct (Z.leb_spec 0x60 key) as [L|L]; [rewrite lookup_ge_None_2 by lia; apply Hsame|].
  destruct (lookup_lt_is_Some_2 T (Z.to_nat key)) as [ch Hch]; [lia|]. rewrite Hch, (list_lookup_total_correct _ _ _ Hch).
  destruct (Z.eqb_spec ch 0) as [->|N0]; [apply Hsame|].
  rewrite (table_case _ _ _ (CAPS_LOCK k) Hch). destruct (push_contents (ASCII_QUEUE k) (letter_case (mkMods (SHIFT_HELD k) (CAPS_LOCK k) false) ch) Hr) as [Ho Hc].
  destruct ch; [done|by split..].
Qed.


