(* ===== verification/Terminal.v ===== *)
(** * The terminal of a process: the line editor of [syscall.rs]

    Reading from the terminal reads a line with editing in the kernel: bytes
    come from the keyboards and the serial port (in the order the polling loop
    of [next_byte] finds them: [input]), and everything shown goes to the serial
    port and, when there is one, to the console.  A read with no byte left to
    come waits for ever. *)
From Stdlib Require Import String.
From stdpp Require Import base numbers list.
From Stdlib Require Import ZArith Lia Bool.
From S2P Require Import Prelude Bytes Str Console Keyboard.

Module Terminal.

Record Term := mkTerm {
  input : list Z;
  serial_out : list Z;
  CONSOLE : option Console.Console;
  HISTORY : list (list Z)
}.
Notation T := (M Term Empty_set).

Definition HISTORY_CAP : Z := 32.

Definition console_write (bytes : list Z) : T unit := λ t,
  let text := decode_utf8_lossy bytes in
  let serial := serial_out t ++ concat (List.map Serial.wire (encode_utf8 text)) in
  match CONSOLE t with
  | None => (Ok tt, mkTerm (input t) serial None (HISTORY t))
  | Some c => let '(r, c) := Console.write_chars text c in (r, mkTerm (input t) serial (Some c) (HISTORY t))
  end.

Definition next_byte : T Z := λ t,
  match input t with
  | [] => (Diverge, t)
  | b :: rest => (Ok b, mkTerm rest (serial_out t) (CONSOLE t) (HISTORY t))
  end.

Inductive EditAction := Up | Down | Left | Right | Home | End_ | Delete | Unknown.

Definition decode_escape : T EditAction :=
  let! b := next_byte in
  if negb (b =? 91) then ret Unknown
  else
    let! b := next_byte in
    if b =? 65 then ret Up
    else if b =? 66 then ret Down
    else if b =? 67 then ret Right
    else if b =? 68 then ret Left
    else if b =? 72 then ret Home
    else if b =? 70 then ret End_
    else if b =? 51 then next_byte ;;! ret Delete
    else ret Unknown.

(** The digits of a number, last first; a [usize] has at most twenty. *)
Fixpoint itoa_loop (fuel : nat) (n : Z) : list Z :=
  match fuel with
  | O => []
  | S fuel => if 0 <? n then 48 + n mod 10 :: itoa_loop fuel (n / 10) else []
  end.
Definition itoa (n : Z) : list Z := if n =? 0 then lit "0" else rev (itoa_loop 20 n).

Definition cursor_left (n : Z) : T unit :=
  if n =? 0 then ret tt else console_write (27 :: lit "[" ++ itoa n ++ lit "D").

Definition len (l : list Z) : Z := Z.of_nat (length l).

(** The new line, with the cursor at its end. *)
Definition replace_line (line : list Z) (cursor : Z) (new_line : list Z) : T (list Z * Z) :=
  cursor_left cursor ;;!
  mfor (seqZ 0 (len line)) (λ _, console_write (lit " ")) ;;!
  cursor_left (len line) ;;!
  console_write new_line ;;!
  ret (new_line, len new_line).

Definition redraw_tail (line : list Z) (from cursor : Z) : T unit :=
  console_write (drop (Z.to_nat from) line) ;;!
  console_write (lit " ") ;;!
  cursor_left (len line - cursor + 1).

(** The variables of the loop. *)
Record Edit := mkEdit { line : list Z; cursor : Z; history_pos : option Z }.

Definition history_entry (t : Term) (i : Z) : list Z := HISTORY t !!! Z.to_nat i.

Definition recall (e : Edit) (pos : option Z) (new_line : list Z) : T Edit :=
  let! r := replace_line (line e) (cursor e) new_line in ret (mkEdit (fst r) (snd r) pos).

(** [Vec::remove] and [Vec::insert] inside the line. *)
Definition remove_at (l : list Z) (i : Z) : list Z := take (Z.to_nat i) l ++ drop (S (Z.to_nat i)) l.
Definition insert_at (l : list Z) (i b : Z) : list Z := take (Z.to_nat i) l ++ b :: drop (Z.to_nat i) l.

Definition edit_action (e : Edit) (a : EditAction) : T Edit :=
  match a with
  | Left =>
      if 0 <? cursor e then cursor_left 1 ;;! ret (mkEdit (line e) (cursor e - 1) (history_pos e)) else ret e
  | Right =>
      if cursor e <? len (line e)
      then console_write (take 1 (drop (Z.to_nat (cursor e)) (line e))) ;;! ret (mkEdit (line e) (cursor e + 1) (history_pos e))
      else ret e
  | Home => cursor_left (cursor e) ;;! ret (mkEdit (line e) 0 (history_pos e))
  | End_ => console_write (drop (Z.to_nat (cursor e)) (line e)) ;;! ret (mkEdit (line e) (len (line e)) (history_pos e))
  | Delete =>
      if cursor e <? len (line e)
      then let l := remove_at (line e) (cursor e) in
           redraw_tail l (cursor e) (cursor e) ;;! ret (mkEdit l (cursor e) (history_pos e))
      else ret e
  | Up =>
      let! t := get in
      match HISTORY t with
      | [] => ret e
      | _ =>
          let next_pos := match history_pos e with
                          | None => Z.of_nat (length (HISTORY t)) - 1
                          | Some p => if p =? 0 then 0 else p - 1
                          end in
          recall e (Some next_pos) (history_entry t next_pos)
      end
  | Down =>
      let! t := get in
      match history_pos e with
      | None => ret e
      | Some p =>
          if p + 1 <? Z.of_nat (length (HISTORY t)) then recall e (Some (p + 1)) (history_entry t (p + 1))
          else recall e None []
      end
  | Unknown => ret e
  end.

(** One turn of the loop: [inr] when the line is complete. *)
Definition edit_turn (max : Z) (e : Edit) : T (Edit + list Z) :=
  let! byte := next_byte in
  if (byte =? 13) || (byte =? 10) then
    console_write [10] ;;!
    ret (inr (if len (line e) <? max then line e ++ [10] else line e))
  else if byte =? 27 then
    let! a := decode_escape in
    let! e := edit_action e a in ret (inl e)
  else if (byte =? 8) || (byte =? 127) then
    if 0 <? cursor e then
      let l := remove_at (line e) (cursor e - 1) in
      console_write [8] ;;!
      redraw_tail l (cursor e - 1) (cursor e - 1) ;;!
      ret (inl (mkEdit l (cursor e - 1) (history_pos e)))
    else ret (inl e)
  else if len (line e) + 1 <? max then
    if cursor e =? len (line e) then
      console_write [byte] ;;! ret (inl (mkEdit (line e ++ [byte]) (cursor e + 1) (history_pos e)))
    else
      let l := insert_at (line e) (cursor e) byte in
      console_write (drop (Z.to_nat (cursor e)) l) ;;!
      mfor (seqZ 0 (len l - (cursor e + 1))) (λ _, console_write [8]) ;;!
      ret (inl (mkEdit l (cursor e + 1) (history_pos e)))
  else ret (inl e).

(** Every turn takes a byte of the input, which bounds the turns. *)
Fixpoint edit_loop (fuel : nat) (max : Z) (e : Edit) : T (list Z) :=
  match fuel with
  | O => diverge
  | S fuel =>
      let! r := edit_turn max e in
      match r with inl e => edit_loop fuel max e | inr l => ret l end
  end.

Definition remember (l : list Z) : T unit := λ t,
  let stored := take (length l - 1) l in
  let h := HISTORY t in
  (Ok tt,
   if bool_decide (last h = Some stored) then t
   else
     let h := if Z.of_nat (length h) =? HISTORY_CAP then tail h else h in
     mkTerm (input t) (serial_out t) (CONSOLE t) (h ++ [stored])).

Definition read_line (max : Z) : T (list Z) :=
  if max =? 0 then ret []
  else
    let! t := get in
    let! l := edit_loop (S (length (input t))) max (mkEdit [] 0 None) in
    (if 1 <? len l then remember l else ret tt) ;;!
    ret l.
End Terminal.
