(* ===== verification/EditShow.v ===== *)
(** * What the line editor shows

    The editor and the console together: after every key the line on the
    screen is the line being edited, with the cursor where the editor has it.
    A character typed in the middle of a line is the exception. *)
From Stdlib Require Import String.
From stdpp Require Import base numbers list.
From Stdlib Require Import ZArith Lia Bool.
From S2P Require Import Prelude Bytes Str Console ConsolePix ConsoleInv Keyboard Terminal.
Import Console Terminal.

(** ** Text on the abstract terminal *)
Definition printable (ch : Z) : Prop := 32 ≤ ch < 127.

Lemma decode_ascii bs : Forall (λ b, 0 ≤ b < 128) bs → decode_utf8_lossy bs = bs.
Proof.
  intros Hb. unfold decode_utf8_lossy, decode_utf8. assert (E : ∀ fuel, (length bs ≤ fuel)%nat → decode_fuel fuel bs = Some <$> bs).
  { induction Hb as [|b bs Hb _ IH]; intros fuel Hf; [by destruct fuel|]. destruct fuel as [|fuel]; [cbn in Hf; lia|]. cbn [decode_fuel].
    assert (Ec : decode_char (b :: bs) = (1%nat, Some b)) by (unfold decode_char; by rewrite (proj2 (Z.ltb_lt _ _)) by lia).
    rewrite Ec. cbn [drop fmap list_fmap]. f_equal. apply IH. cbn in Hf. lia. }
  rewrite E by done. clear. induction bs as [|b bs IH]; [done|]. cbn. by rewrite IH.
Qed.

Lemma printable_ascii s : Forall printable s → Forall (λ b, 0 ≤ b < 128) s.
Proof. intros H. eapply Forall_impl; [exact H|]. intros ch Hc. unfold printable in Hc. lia. Qed.

Section Abstract.
Context (tcols trows : Z).
Notation t_char := (t_char tcols trows).
Notation t_chars := (t_chars tcols trows).

Lemma t_chars_app s s' : ∀ t, t_chars t (s ++ s') = t ← t_chars t s; t_chars t s'.
Proof. induction s as [|ch s IH]; intros t; [done|]. cbn. destruct (t_char t ch) as [t1|]; [apply IH|done]. Qed.

(** Printable characters, inside the line. *)
Record wrote (t t' : Tty) (s : list Z) : Prop := {
  wr_cursor : tcol t' = tcol t + len s ∧ trow t' = trow t;
  wr_pen : tpen t' = tpen t;
  wr_parser : tparser t' = tparser t;
  wr_grid : ∀ r k, grid t' r k = if decide (r = trow t ∧ tcol t ≤ k < tcol t + len s)
    then Glyph (s !!! Z.to_nat (k - tcol t)) (fg (tpen t)) (bg (tpen t)) else grid t r k
}.

Lemma t_prints s : ∀ t, esc (tparser t) = Normal → Forall printable s → tcol t + len s ≤ tcols → ∃ t', t_chars t s = Some t' ∧ wrote t t' s.
Proof.
  induction s as [|ch s IH]; intros t He Hs Hl.
  - exists t. split; [done|]. split; try done; [unfold len; cbn; lia|]. intros r k. rewrite decide_False; [done|]. unfold len. cbn. lia.
  - apply Forall_cons in Hs as [Hch Hs]. unfold printable in Hch. unfold len in *. cbn [length] in *.
    assert (E1 : t_char t ch = Some (t_at (t_fill t ch (tcol t) (tcol t + 1)) (tcol t + 1) (trow t))).
    { unfold ConsoleInv.t_char. rewrite (proj2 (Z.eqb_neq ch 27)), He by lia. unfold t_normal.
      rewrite (proj2 (Z.eqb_neq ch 10)), (proj2 (Z.eqb_neq ch 13)), (proj2 (Z.eqb_neq ch 8)), (proj2 (Z.eqb_neq ch 9)) by lia.
      unfold t_printable. by rewrite (proj2 (Z.leb_gt _ _)) by lia. }
    cbn [ConsoleInv.t_chars]. rewrite E1. cbn [mbind option_bind].
    destruct (IH (t_at (t_fill t ch (tcol t) (tcol t + 1)) (tcol t + 1) (trow t)) He Hs) as (t' & -> & [W1 W2 W3 W4]); [cbn; unfold len; lia|].
    exists t'. split; [done|]. cbn in W1, W2, W3, W4. split; [unfold len in *; cbn [length]; split; lia|done|done|]. intros r k. rewrite W4. unfold len. cbn [length].
    destruct (decide (r = trow t ∧ tcol t + 1 ≤ k < _)) as [D|D].
    + rewrite decide_True by (cbn [length]; lia). f_equal. replace (Z.to_nat (k - tcol t)) with (S (Z.to_nat (k - (tcol t + 1)))) by lia. done.
    + case_bool_decide as B.
      * rewrite decide_True by (cbn [length]; lia). f_equal. by replace (Z.to_nat (k - tcol t)) with O by lia.
      * rewrite decide_False by (cbn [length]; lia). done.
Qed.

(** A number in an escape sequence. *)
Definition csi_number (t : Tty) (v : Z) (hv : bool) : Tty :=
  t_parse t (mkParser Csi (params (tparser t)) 0 v hv).

Lemma t_digits fuel : ∀ n t, 0 ≤ n ≤ 65535 → n < 10 ^ Z.of_nat fuel →
  t_chars (csi_number t 0 false) (rev (itoa_loop fuel n)) = Some (csi_number t n (0 <? n)).
Proof.
  induction fuel as [|fuel IH]; intros n t Hn Hf.
  - assert (n = 0) as -> by (cbn in Hf; lia). done.
  - cbn [itoa_loop]. destruct (Z.ltb_spec 0 n) as [L|L]; [|assert (n = 0) as -> by lia; done].
    cbn [rev]. rewrite t_chars_app, IH by (try (rewrite Nat2Z.inj_succ, Z.pow_succ_r in Hf by lia); Z.div_mod_to_equations; lia). cbn [mbind option_bind ConsoleInv.t_chars].
    pose proof (Z.mod_pos_bound n 10 ltac:(done)) as Hm. set (d := n mod 10) in *.
    assert (E : t_char (csi_number t (n / 10) (0 <? n / 10)) (48 + d) = Some (csi_number t n true)); [|by rewrite E].
    unfold ConsoleInv.t_char. rewrite (proj2 (Z.eqb_neq (48 + d) 27)) by lia. cbn [esc tparser csi_number t_parse]. unfold t_csi, is_digit.
    rewrite (proj2 (Z.leb_le 48 (48 + d))), (proj2 (Z.leb_le (48 + d) 57)) by lia. cbn [andb].
    unfold csi_number, t_parse. cbn. do 3 f_equal. unfold d. Z.div_mod_to_equations. lia.
Qed.

Definition left_text (n : Z) : list Z := 27 :: lit "[" ++ itoa n ++ lit "D".

Record moved (t t' : Tty) (col : Z) : Prop := {
  mv_cursor : tcol t' = col ∧ trow t' = trow t;
  mv_pen : tpen t' = tpen t;
  mv_parser : esc (tparser t') = Normal ∧ length (params (tparser t')) = length (params (tparser t));
  mv_grid : grid t' = grid t
}.

Lemma t_left t n : esc (tparser t) = Normal → length (params (tparser t)) = 8%nat → 0 < n ≤ 65535 →
  ∃ t', t_chars t (left_text n) = Some t' ∧ moved t t' (Z.max (tcol t - n) 0).
Proof.
  intros He Hp Hn. unfold left_text. change (lit "[") with [91]. change (lit "D") with [68].
  change (27 :: [91] ++ itoa n ++ [68]) with ([27; 91] ++ itoa n ++ [68]).
  rewrite t_chars_app. assert (E : t_chars t [27; 91] = Some (csi_number t 0 false)) by done. rewrite E. cbn [mbind option_bind].
  unfold itoa. rewrite (proj2 (Z.eqb_neq n 0)) by lia. rewrite t_chars_app, t_digits by (done || lia). rewrite (proj2 (Z.ltb_lt 0 n)) by lia.
  cbn [mbind option_bind]. eexists. split; [reflexivity|]. destruct (params (tparser t)) as [|p0 ps] eqn:Eps; [done|].
  split; cbn; rewrite ?Eps; done.
Qed.
End Abstract.

(** ** The line on the screen *)
Section Display.
Context (tcols trows : Z) (t0 : Tty).
Notation t_chars := (t_chars tcols trows).
Notation col0 := (tcol t0).
Notation row0 := (trow t0).

(** The cell [k] places after the start of the line. *)
Definition line_cell (t : Tty) (k : Z) : Cell := grid t row0 (col0 + k).

(** Cells after the line are as they were at the start, or spaces. *)
Definition shows_line (l : list Z) (t : Tty) : Prop := ∀ k, 0 ≤ k → col0 + k < tcols →
  match l !! Z.to_nat k with
  | Some ch => line_cell t k = Glyph ch (fg (tpen t0)) (bg (tpen t0))
  | None => line_cell t k = line_cell t0 k ∨ line_cell t k = Glyph 32 (fg (tpen t0)) (bg (tpen t0))
  end.

Record displays (t : Tty) (l : list Z) (cur : Z) : Prop := {
  di_cursor : tcol t = col0 + cur ∧ trow t = row0;
  di_pen : tpen t = tpen t0;
  di_parser : esc (tparser t) = Normal ∧ length (params (tparser t)) = 8%nat;
  di_line : shows_line l t;
  di_rest : ∀ r k, r ≠ row0 ∨ k < col0 → grid t r k = grid t0 r k
}.

Lemma display_left t l cur n : displays t l cur → 0 ≤ col0 → 0 < n ≤ 65535 → n ≤ cur →
  ∃ t', t_chars t (left_text n) = Some t' ∧ displays t' l (cur - n).
Proof.
  intros [[D1 D2] D3 [D4 D5] D6 D7] Hc Hn Hle. destruct (t_left tcols trows t n D4 D5 Hn) as (t' & E & [[M1 M1'] M2 [M3 M3'] M4]).
  exists t'. split; [done|]. split; [split; [lia|congruence]|congruence|split; [done|congruence]| |].
  - unfold shows_line, line_cell. rewrite M4. exact D6.
  - intros r k. rewrite M4. apply D7.
Qed.

(** Writing [s] at the cursor: the line [l'] is then shown if it agrees with
    [s] there, and with what was shown elsewhere. *)
Lemma display_write t l cur s l' : displays t l cur → 0 ≤ cur → Forall printable s → col0 + cur + len s ≤ tcols →
  (∀ k, 0 ≤ k → col0 + k < tcols →
     if decide (cur ≤ k < cur + len s)
     then l' !! Z.to_nat k = Some (s !!! Z.to_nat (k - cur)) ∨ (l' !! Z.to_nat k = None ∧ s !!! Z.to_nat (k - cur) = 32)
     else l' !! Z.to_nat k = l !! Z.to_nat k) →
  ∃ t', t_chars t s = Some t' ∧ displays t' l' (cur + len s).
Proof.
  intros [[D1 D2] D3 [D4 D5] D6 D7] Hc Hs Hfit Hl. destruct (t_prints tcols trows s t D4 Hs ltac:(lia)) as (t' & E & [[W1 W1'] W2 W3 W4]).
  exists t'. split; [done|]. split; [split; [lia|congruence]|congruence|by rewrite W3| |].
  - intros k Hk Hk'. specialize (Hl k Hk Hk'). unfold line_cell. rewrite W4, D2, D1, D3.
    destruct (decide (cur ≤ k < cur + len s)) as [D|D].
    + rewrite decide_True by lia. replace (col0 + k - (col0 + cur)) with (k - cur) by lia. destruct Hl as [->|[-> ->]]; [done|by right].
    + rewrite decide_False by lia. rewrite Hl. exact (D6 k Hk Hk').
  - intros r k Hr. rewrite W4, decide_False by lia. by apply D7.
Qed.

End Display.

(** ** The editor at work *)
Section Editor.
Context (tcols trows : Z) (t0 : Tty) (max : Z).
Context (Hcol : 0 ≤ tcol t0) (Hroom : tcol t0 + max ≤ tcols) (Hmax : max ≤ 65535).

(** The console shows the line, and the cursor in it. *)
Definition at_line (tm : Term) (l : list Z) (cur : Z) : Prop := ∃ c t, CONSOLE tm = Some c ∧ console_ok c ∧ shows c t ∧
  cols (geo c) = tcols ∧ rows (geo c) = trows ∧ displays tcols t0 t l cur.

Definition same_rest (tm tm' : Term) : Prop := input tm' = input tm ∧ HISTORY tm' = HISTORY tm.

(** [m] leaves the line [l] on the screen. *)
Definition leaves (m : M Term Empty_set unit) (tm : Term) (l : list Z) (cur : Z) : Prop :=
  ∃ tm', m tm = (Ok tt, tm') ∧ at_line tm' l cur ∧ same_rest tm tm'.

Lemma leaves_bind m k tm l cur l' cur' : leaves m tm l cur →
  (∀ tm', at_line tm' l cur → same_rest tm tm' → leaves k tm' l' cur') → leaves (m ;;! k) tm l' cur'.
Proof.
  intros (tm1 & E & Ha & [R1 R2]) Hk. destruct (Hk tm1 Ha (conj R1 R2)) as (tm2 & E2 & Ha2 & [R3 R4]).
  exists tm2. rewrite (bind_ok _ _ _ _ _ E). split; [done|]. split; [done|]. split; congruence.
Qed.

Lemma leaves_text tm l cur s l' cur' : at_line tm l cur → Forall (λ b, 0 ≤ b < 128) s →
  (∀ t, displays tcols t0 t l cur → ∃ t', t_chars tcols trows t s = Some t' ∧ displays tcols t0 t' l' cur') → leaves (console_write s) tm l' cur'.
Proof.
  intros (c & t & Ec & Ho & Hs & E1 & E2 & Hd) Ha Ht. destruct (Ht t Hd) as (t' & Et & Hd').
  unfold leaves, console_write. rewrite Ec, (decode_ascii s Ha).
  assert (Hf : Forall (λ ch, 0 ≤ ch) s) by (eapply Forall_impl; [exact Ha|]; cbv beta; intros b Hb; lia).
  pose proof (does_chars s c t Ho Hs Hf) as Hdo. rewrite E1, E2, Et in Hdo. destruct Hdo as (c1 & Er & Ho1 & Hs1 & Eg1 & _).
  unfold write_chars. rewrite (bind_ok _ _ _ _ _ Er). unfold bind at 1, reads at 1.
  destruct (batch_depth (pix c1) =? 0).
  - destruct (flush_spec c1 t' Ho1 Hs1) as (c2 & -> & Ho2 & Hs2 & Eg2 & _). eexists. split; [reflexivity|]. split; [|done].
    exists c2, t'. rewrite Eg2, Eg1. done.
  - eexists. split; [reflexivity|]. split; [|done]. exists c1, t'. rewrite Eg1. done.
Qed.

Lemma itoa_ascii n : Forall (λ b, 0 ≤ b < 128) (itoa n).
Proof.
  unfold itoa. destruct (n =? 0); [by repeat constructor|]. apply Forall_rev. generalize 20%nat. intros fuel. revert n.
  induction fuel as [|fuel IH]; intros n; cbn [itoa_loop]; [done|]. destruct (0 <? n); [|done].
  constructor; [|apply IH]. pose proof (Z.mod_pos_bound n 10 ltac:(done)). cbv beta. lia.
Qed.

Lemma leaves_left tm l cur n : at_line tm l cur → 0 ≤ n ≤ cur → n ≤ 65535 → leaves (cursor_left n) tm l (cur - n).
Proof using Hcol.
  intros Ha Hn Hm. unfold cursor_left. destruct (Z.eqb_spec n 0) as [->|N].
  { exists tm. split; [done|]. by rewrite Z.sub_0_r. }
  apply (leaves_text tm l cur); [done| |].
  - change (lit "[" ++ itoa n ++ lit "D") with (91 :: itoa n ++ [68]). constructor; [done|]. constructor; [done|].
    apply Forall_app. split; [apply itoa_ascii|]. by repeat constructor.
  - intros t Hd. apply (display_left tcols trows t0 t l cur n); [done|done|lia|lia].
Qed.

Lemma leaves_write tm l cur s l' : at_line tm l cur → 0 ≤ cur → Forall printable s → tcol t0 + cur + len s ≤ tcols →
  (∀ k, 0 ≤ k → tcol t0 + k < tcols →
     if decide (cur ≤ k < cur + len s)
     then l' !! Z.to_nat k = Some (s !!! Z.to_nat (k - cur)) ∨ (l' !! Z.to_nat k = None ∧ s !!! Z.to_nat (k - cur) = 32)
     else l' !! Z.to_nat k = l !! Z.to_nat k) → leaves (console_write s) tm l' (cur + len s).
Proof.
  intros Ha Hc Hs Hfit Hl. apply (leaves_text tm l cur); [done|by apply printable_ascii|]. intros t Hd. by apply (display_write tcols trows t0 t l cur).
Qed.

Lemma leaves_redraw tm l l' cur : at_line tm l cur → 0 ≤ cur → cur ≤ len l' → len l = len l' + 1 → len l < max →
  Forall printable l' → (∀ k, (k < Z.to_nat cur)%nat → l' !! k = l !! k) → leaves (redraw_tail l' cur cur) tm l' cur.
Proof using Hcol Hroom Hmax.
  intros Ha Hc Hcl Hlen Hlt Hp Hpre. unfold redraw_tail.
  set (l1 := l' ++ [l !!! length l']). unfold len in *.
  assert (Hl1 : ∀ k, ¬ (cur ≤ Z.of_nat k < Z.of_nat (length l')) → l1 !! k = l !! k).
  { intros k Hk. unfold l1. destruct (decide (k < length l')%nat) as [L|L].
    - rewrite lookup_app_l by done. apply Hpre. lia.
    - rewrite lookup_app_r by lia. destruct (decide (k = length l')) as [->|].
      + rewrite Nat.sub_diag. symmetry. apply list_lookup_lookup_total_lt. lia.
      + rewrite !lookup_ge_None_2 by (cbn; lia). done. }
  assert (Hs1 : len (drop (Z.to_nat cur) l') = len l' - cur) by (unfold len; rewrite length_drop; lia).
  apply (leaves_bind _ _ tm l1 (cur + len (drop (Z.to_nat cur) l'))).
  { apply (leaves_write tm l cur); [done|done|by apply Forall_drop|rewrite Hs1; unfold len; lia|]. rewrite Hs1. unfold len. intros k Hk Hk'. case_decide as D.
    - left. destruct (lookup_lt_is_Some_2 l' (Z.to_nat k)) as [x Hx]; [lia|]. unfold l1. rewrite lookup_app_l, Hx by lia. f_equal. symmetry.
      apply list_lookup_total_correct. rewrite lookup_drop. by replace (Z.to_nat cur + Z.to_nat (k - cur))%nat with (Z.to_nat k) by lia.
    - apply Hl1. lia. }
  rewrite Hs1. replace (cur + (len l' - cur)) with (len l') by lia. intros tm1 Ha1 _.
  apply (leaves_bind _ _ tm1 l' (len l' + len [32])).
  { apply (leaves_write tm1 l1 (len l')); [done|unfold len; lia|by repeat constructor|unfold len; cbn; lia|]. unfold len. intros k Hk Hk'. cbn [length]. case_decide as D.
    - right. split; [apply lookup_ge_None_2; lia|]. by replace (Z.to_nat (k - Z.of_nat (length l'))) with O by lia.
    - unfold l1. destruct (decide (k < Z.of_nat (length l'))); [by rewrite lookup_app_l by lia|]. rewrite !lookup_ge_None_2; [done|rewrite length_app; cbn; lia|lia]. }
  intros tm2 Ha2 _. pose proof (leaves_left tm2 l' _ (Z.of_nat (length l') - cur + 1) Ha2) as H. unfold len in H. cbn [length] in H.
  replace (Z.of_nat (length l') + Z.of_nat 1 - (Z.of_nat (length l') - cur + 1)) with cur in H by lia. apply H; lia.
Qed.

(** Spaces over the line. *)
Lemma leaves_spaces l n : ∀ i tm, at_line tm (replicate i 32 ++ drop i l) (Z.of_nat i) → (i + n = length l)%nat → len l < max → Forall printable l →
  leaves (mfor (seqZ (Z.of_nat i) (Z.of_nat n)) (λ _, console_write (lit " "))) tm (replicate (length l) 32) (len l).
Proof using Hroom.
  induction n as [|n IH]; intros i tm Ha Hi Hl Hp.
  - exists tm. split; [done|]. split; [|done]. rewrite Nat.add_0_r in Hi. subst i. rewrite drop_all, app_nil_r in Ha. exact Ha.
  - rewrite seqZ_cons by lia. cbn [mfor]. replace (Z.pred (Z.of_nat (S n))) with (Z.of_nat n) by lia. replace (Z.succ (Z.of_nat i)) with (Z.of_nat (S i)) by lia.
    apply (leaves_bind _ _ tm (replicate (S i) 32 ++ drop (S i) l) (Z.of_nat i + len [32])).
    + apply (leaves_write tm (replicate i 32 ++ drop i l)); [done|lia|by repeat constructor|unfold len in *; cbn; lia|]. unfold len in *. cbn [length].
      intros k Hk Hk'. case_decide as D.
      * left. replace (Z.to_nat k) with i by lia. replace (Z.to_nat (k - Z.of_nat i)) with O by lia. rewrite lookup_app_l by (rewrite length_replicate; lia).
        by rewrite lookup_replicate_2 by lia.
      * destruct (decide (k < Z.of_nat i)).
        -- rewrite !lookup_app_l by (rewrite length_replicate; lia). by rewrite !lookup_replicate_2 by lia.
        -- rewrite !lookup_app_r by (rewrite length_replicate; lia). rewrite !length_replicate, !lookup_drop. f_equal. lia.
    + unfold len in *. cbn [length]. replace (Z.of_nat i + Z.of_nat 1) with (Z.of_nat (S i)) by lia. intros tm1 Ha1 _. apply IH; try done. lia.
Qed.

(** A line of spaces is an empty line. *)
Lemma blank_line tm n cur : at_line tm (replicate n 32) cur → at_line tm [] cur.
Proof.
  intros (c & t & Ec & Ho & Hs & E1 & E2 & [D1 D2 D3 D4 D5]). exists c, t. split; [done|]. split; [done|]. split; [done|]. split; [done|]. split; [done|].
  split; try done. intros k Hk Hk'. specialize (D4 k Hk Hk'). cbn. destruct (replicate n 32 !! Z.to_nat k) as [ch|] eqn:E; [|done].
  apply lookup_replicate in E as [-> _]. by right.
Qed.

Lemma leaves_replace tm l cur new : at_line tm l cur → 0 ≤ cur ≤ len l → len l < max → len new < max → Forall printable l → Forall printable new →
  ∃ tm', replace_line l cur new tm = (Ok (new, len new), tm') ∧ at_line tm' new (len new) ∧ same_rest tm tm'.
Proof using Hcol Hroom Hmax.
  intros Ha Hc Hl Hn Hp Hpn. unfold replace_line.
  destruct (leaves_left tm l cur cur Ha ltac:(lia) ltac:(lia)) as (tm1 & E1 & Ha1 & [R1 R1']). rewrite Z.sub_diag in Ha1.
  destruct (leaves_spaces l (length l) 0 tm1 Ha1 eq_refl Hl Hp) as (tm2 & E2 & Ha2 & [R2 R2']). change (Z.of_nat 0) with 0 in E2. fold (len l) in E2.
  destruct (leaves_left tm2 _ _ (len l) Ha2 ltac:(lia) ltac:(lia)) as (tm3 & E3 & Ha3 & [R3 R3']). rewrite Z.sub_diag in Ha3. apply blank_line in Ha3.
  destruct (leaves_write tm3 [] 0 new new Ha3 ltac:(lia) Hpn ltac:(lia)) as (tm4 & E4 & Ha4 & [R4 R4']).
  { intros k Hk Hk'. unfold len in *. case_decide as D.
    - left. rewrite Z.sub_0_r. apply list_lookup_lookup_total_lt. lia.
    - rewrite lookup_ge_None_2 by lia. done. }
  exists tm4. rewrite (bind_ok _ _ _ _ _ E1), (bind_ok _ _ _ _ _ E2), (bind_ok _ _ _ _ _ E3), (bind_ok _ _ _ _ _ E4).
  split; [done|]. split; [done|]. split; congruence.
Qed.

(** ** Keys *)
Definition history_ok (h : list (list Z)) : Prop := Forall (λ l, Forall printable l ∧ len l < max) h.

Record edit_ok (e : Edit) (tm : Term) : Prop := {
  eo_cursor : 0 ≤ cursor e ≤ len (line e);
  eo_len : len (line e) < max;
  eo_line : Forall printable (line e);
  eo_history : history_ok (HISTORY tm);
  eo_pos : match history_pos e with Some p => 0 ≤ p < Z.of_nat (length (HISTORY tm)) | None => True end;
  eo_screen : at_line tm (line e) (cursor e)
}.

Definition goes {A} (m : M Term Empty_set A) (tm : Term) (P : A → Term → Prop) : Prop :=
  ∃ a tm', m tm = (Ok a, tm') ∧ P a tm' ∧ same_rest tm tm'.

Lemma leaves_goes m tm (e : Edit) l cur pos : leaves m tm l cur → edit_ok e tm → 0 ≤ cur ≤ len l → len l < max → Forall printable l →
  match pos with Some p => 0 ≤ p < Z.of_nat (length (HISTORY tm)) | None => True end →
  goes (m ;;! ret (mkEdit l cur pos)) tm edit_ok.
Proof.
  intros (tm' & E & Ha & [R1 R2]) [_ _ _ H4 _ _] Hc Hl Hp Hpos. exists (mkEdit l cur pos), tm'. rewrite (bind_ok _ _ _ _ _ E). split; [done|]. split; [|done].
  split; try done; by rewrite R2.
Qed.

Lemma remove_at_ok l i : 0 ≤ i < len l → len l = len (remove_at l i) + 1 ∧ (∀ k, (k < Z.to_nat i)%nat → remove_at l i !! k = l !! k) ∧
  (Forall printable l → Forall printable (remove_at l i)).
Proof.
  intros Hi. unfold remove_at, len in *. split; [rewrite length_app, length_take, length_drop; lia|]. split.
  - intros k Hk. rewrite lookup_app_l by (rewrite length_take; lia). by rewrite lookup_take_lt by lia.
  - intros Hp. apply Forall_app. split; [by apply Forall_take|by apply Forall_drop].
Qed.

Lemma recall_ok e pos new tm : edit_ok e tm → Forall printable new → len new < max →
  match pos with Some p => 0 ≤ p < Z.of_nat (length (HISTORY tm)) | None => True end → goes (recall e pos new) tm edit_ok.
Proof using Hcol Hroom Hmax.
  intros [H1 H2 H3 H4 H5 H6] Hp Hl Hpos. destruct (leaves_replace tm (line e) (cursor e) new H6 H1 H2 Hl H3 Hp) as (tm' & E & Ha & [R1 R2]).
  exists (mkEdit new (len new) pos), tm'. unfold recall. rewrite (bind_ok _ _ _ _ _ E). split; [done|]. split; [|done].
  split; try done; cbn; [unfold len; lia|by rewrite R2|by rewrite R2].
Qed.

Lemma history_entry_ok tm i : history_ok (HISTORY tm) → 0 ≤ i < Z.of_nat (length (HISTORY tm)) →
  Forall printable (history_entry tm i) ∧ len (history_entry tm i) < max.
Proof.
  intros Hh Hi. unfold history_entry. destruct (lookup_lt_is_Some_2 (HISTORY tm) (Z.to_nat i)) as [x Hx]; [lia|].
  rewrite (list_lookup_total_correct _ _ _ Hx). unfold history_ok in Hh. rewrite Forall_lookup in Hh. by apply (Hh _ _ Hx).
Qed.

Lemma edit_action_ok e a tm : edit_ok e tm → goes (edit_action e a) tm edit_ok.
Proof using Hcol Hroom Hmax.
  intros He. pose proof He as [H1 H2 H3 H4 H5 H6]. assert (Hstay : goes (ret e) tm edit_ok) by (by exists e, tm).
  unfold edit_action. destruct a.
  - unfold goes, bind at 1, get at 1. destruct (HISTORY tm) as [|h0 hs] eqn:Eh; [exact Hstay|]. rewrite <- Eh in *.
    set (p := match history_pos e with None => _ | Some _ => _ end).
    assert (Hp : 0 ≤ p < Z.of_nat (length (HISTORY tm))).
    { unfold p. destruct (history_pos e) as [q|]; [destruct (Z.eqb_spec q 0); lia|rewrite Eh; cbn; lia]. }
    destruct (history_entry_ok tm p H4 Hp) as [He1 He2]. by apply recall_ok.
  - unfold goes, bind at 1, get at 1. destruct (history_pos e) as [q|] eqn:Eq; [|exact Hstay].
    destruct (Z.ltb_spec (q + 1) (Z.of_nat (length (HISTORY tm)))) as [L|L].
    + destruct (history_entry_ok tm (q + 1) H4 ltac:(lia)) as [He1 He2]. apply recall_ok; try done. lia.
    + apply recall_ok; try done. unfold len. cbn. unfold len in *. lia.
  - destruct (Z.ltb_spec 0 (cursor e)); [|exact Hstay]. apply (leaves_goes _ _ e); try done; [apply leaves_left; [done|lia|lia]|lia].
  - destruct (Z.ltb_spec (cursor e) (len (line e))) as [L|L]; [|exact Hstay].
    apply (leaves_goes _ _ e); try done; [|lia]. unfold len in *.
    assert (E1 : len (take 1 (drop (Z.to_nat (cursor e)) (line e))) = 1) by (unfold len; rewrite length_take, length_drop; lia).
    replace (cursor e + 1) with (cursor e + len (take 1 (drop (Z.to_nat (cursor e)) (line e)))) by lia.
    apply (leaves_write tm (line e)); [done|lia|by apply Forall_take, Forall_drop|lia|]. rewrite E1. intros k Hk Hk'. case_decide as D; [|done].
    left. replace (Z.to_nat k) with (Z.to_nat (cursor e)) by lia. replace (Z.to_nat (k - cursor e)) with O by lia.
    destruct (lookup_lt_is_Some_2 (line e) (Z.to_nat (cursor e))) as [x Hx]; [lia|]. rewrite Hx. f_equal. symmetry. apply list_lookup_total_correct.
    rewrite lookup_take_lt, lookup_drop by lia. by rewrite Nat.add_0_r.
  - apply (leaves_goes _ _ e); try done; [|unfold len in *; lia]. rewrite <- (Z.sub_diag (cursor e)). apply leaves_left; [done|lia|lia].
  - apply (leaves_goes _ _ e); try done; [|unfold len in *; lia]. unfold len in *.
    assert (E1 : len (drop (Z.to_nat (cursor e)) (line e)) = Z.of_nat (length (line e)) - cursor e) by (unfold len; rewrite length_drop; lia).
    replace (Z.of_nat (length (line e))) with (cursor e + len (drop (Z.to_nat (cursor e)) (line e))) by lia.
    apply (leaves_write tm (line e)); [done|lia|by apply Forall_drop|lia|]. rewrite E1. intros k Hk Hk'. case_decide as D; [|done].
    left. destruct (lookup_lt_is_Some_2 (line e) (Z.to_nat k)) as [x Hx]; [lia|]. rewrite Hx. f_equal. symmetry. apply list_lookup_total_correct.
    rewrite lookup_drop. by replace (Z.to_nat (cursor e) + Z.to_nat (k - cursor e))%nat with (Z.to_nat k) by lia.
  - destruct (Z.ltb_spec (cursor e) (len (line e))) as [L|L]; [|exact Hstay].
    destruct (remove_at_ok (line e) (cursor e) ltac:(lia)) as (R1 & R2 & R3). specialize (R3 H3).
    apply (leaves_goes _ _ e); try done; [|lia|lia]. apply (leaves_redraw tm (line e)); try done; lia.
  - exact Hstay.
Qed.

(** ** Turns of the loop *)
Lemma leaves_backspace tm l cur : at_line tm l cur → 0 < cur ≤ len l → leaves (console_write [8]) tm (<[Z.to_nat (cur - 1) := 32]> l) (cur - 1).
Proof using Hcol.
  intros Ha Hc. apply (leaves_text tm l cur); [done|by repeat constructor|]. intros t [[D1 D2] D3 [D4 D5] D6 D7].
  eexists. split.
  { cbn [t_chars]. unfold t_char. rewrite D4. unfold t_normal. cbn [Z.eqb Pos.eqb]. rewrite (proj2 (Z.eqb_neq (tcol t) 0)) by lia. reflexivity. }
  split; cbn; [split; [lia|done]|done|done| |].
  - intros k Hk Hk'. specialize (D6 k Hk Hk'). unfold line_cell in *. cbn. rewrite D2, D1. unfold len in Hc. case_bool_decide as B.
    + replace (Z.to_nat k) with (Z.to_nat (cur - 1)) by lia. rewrite list_lookup_insert_eq by lia. by rewrite D3.
    + by rewrite list_lookup_insert_ne by lia.
  - intros r k Hr. rewrite bool_decide_eq_false_2; [by apply D7|]. lia.
Qed.

(** Keys for which the screen stays right: all but a character typed before
    the end of a line that has room for it. *)
Definition calm (b : Z) (e : Edit) : Prop :=
  b ∈ [10; 13; 27; 8; 127] ∨ (printable b ∧ (cursor e = len (line e) ∨ max ≤ len (line e) + 1)).

Definition with_input (tm : Term) (i : list Z) : Term := mkTerm i (serial_out tm) (CONSOLE tm) (HISTORY tm).

Lemma edit_ok_input e tm i : edit_ok e tm → edit_ok e (with_input tm i).
Proof. intros [H1 H2 H3 H4 H5 H6]. by split. Qed.

(** A turn: the line is complete, or goes on, or the rest of an escape
    sequence is still to come. *)
Inductive turn_end (e : Edit) (tm : Term) : res Empty_set (Edit + list Z) * Term → Prop :=
  | te_done tm' : HISTORY tm' = HISTORY tm → turn_end e tm (Ok (inr (line e ++ [10])), tm')
  | te_edit e' tm' : edit_ok e' tm' → HISTORY tm' = HISTORY tm → turn_end e tm (Ok (inl e'), tm')
  | te_wait tm' : (length (input tm) < 4)%nat → turn_end e tm (Diverge, tm').

Lemma goes_turn e0 tm tm0 (m : M Term Empty_set Edit) : goes m tm edit_ok → HISTORY tm = HISTORY tm0 →
  turn_end e0 tm0 ((let! e := m in ret (inl e)) tm).
Proof. intros (e' & tm' & E & Ho & [R1 R2]) Eh. rewrite (bind_ok _ _ _ _ _ E). apply te_edit; [done|congruence]. Qed.

Lemma escape_turn e tm i : edit_ok e tm → input tm = 27 :: i →
  turn_end e tm ((let! a := decode_escape in let! e := edit_action e a in ret (inl e)) (with_input tm i)).
Proof using Hcol Hroom Hmax.
  intros He Hi. assert (Hact : ∀ a j, turn_end e tm ((let! e := edit_action e a in ret (inl e)) (with_input tm j))).
  { intros a j. apply goes_turn; [|done]. by apply edit_action_ok, edit_ok_input. }
  destruct i as [|b1 i]; [apply te_wait; rewrite Hi; cbn; lia|].
  assert (E1 : decode_escape (with_input tm (b1 :: i)) =
    (if negb (b1 =? 91) then ret Unknown else
       let! b := next_byte in
       if b =? 65 then ret Up else if b =? 66 then ret Down else if b =? 67 then ret Right else if b =? 68 then ret Left
       else if b =? 72 then ret Home else if b =? 70 then ret End_ else if b =? 51 then next_byte ;;! ret Delete else ret Unknown) (with_input tm i)) by done.
  unfold bind at 1. rewrite E1. clear E1. destruct (negb (b1 =? 91)); [apply Hact|].
  destruct i as [|b2 i]; [apply te_wait; rewrite Hi; cbn; lia|].
  unfold bind at 1, next_byte at 1. cbn [input with_input serial_out CONSOLE HISTORY].
  change (mkTerm i (serial_out tm) (CONSOLE tm) (HISTORY tm)) with (with_input tm i).
  destruct (b2 =? 65); [apply Hact|]. destruct (b2 =? 66); [apply Hact|]. destruct (b2 =? 67); [apply Hact|]. destruct (b2 =? 68); [apply Hact|].
  destruct (b2 =? 72); [apply Hact|]. destruct (b2 =? 70); [apply Hact|]. destruct (b2 =? 51); [|apply Hact].
  destruct i as [|b3 i]; [apply te_wait; rewrite Hi; cbn; lia|]. apply Hact.
Qed.

Lemma newline_written tm l cur : at_line tm l cur → ∃ tm', console_write [10] tm = (Ok tt, tm') ∧ HISTORY tm' = HISTORY tm.
Proof.
  intros (c & t & Ec & Ho & Hs & E1 & E2 & Hd). unfold console_write. rewrite Ec. change (decode_utf8_lossy [10]) with [10].
  pose proof (does_chars [10] c t Ho Hs ltac:(by repeat constructor)) as H. cbn [t_chars] in H. unfold t_char in H.
  rewrite (proj1 (di_parser _ _ _ _ _ Hd)) in H. cbn in H. destruct H as (c1 & Er & Ho1 & Hs1 & _).
  unfold write_chars. rewrite (bind_ok _ _ _ _ _ Er). unfold bind at 1, reads at 1. destruct (batch_depth (pix c1) =? 0); [|by eexists].
  destruct (flush_spec c1 _ Ho1 Hs1) as (c2 & -> & _). by eexists.
Qed.

Lemma edit_turn_end e tm b rest : edit_ok e tm → input tm = b :: rest → calm b e → turn_end e tm (edit_turn max e tm).
Proof using Hcol Hroom Hmax.
  intros He Hi Hb. unfold edit_turn, bind at 1, next_byte at 1. rewrite Hi. fold (with_input tm rest).
  pose proof (edit_ok_input e tm rest He) as He'. pose proof He' as [H1 H2 H3 H4 H5 H6]. set (tm1 := with_input tm rest) in *.
  destruct ((b =? 13) || (b =? 10)) eqn:E10.
  { destruct (newline_written tm1 _ _ H6) as (tm2 & E & Eh). rewrite (bind_ok _ _ _ _ _ E), (proj2 (Z.ltb_lt _ _)) by done. by apply te_done. }
  destruct (Z.eqb_spec b 27) as [->|N27]; [by apply escape_turn|]. destruct ((b =? 8) || (b =? 127)) eqn:E8.
  { destruct (Z.ltb_spec 0 (cursor e)) as [L|L]; [|by apply te_edit].
    destruct (remove_at_ok (line e) (cursor e - 1) ltac:(lia)) as (R1 & R2 & R3). specialize (R3 H3).
    destruct (leaves_bind (console_write [8]) (redraw_tail (remove_at (line e) (cursor e - 1)) (cursor e - 1) (cursor e - 1)) tm1 _ _
      (remove_at (line e) (cursor e - 1)) (cursor e - 1) (leaves_backspace tm1 _ _ H6 ltac:(lia))) as (tm2 & E & Ha & [Q1 Q2]).
    - intros tm2 Ha _. apply (leaves_redraw tm2 (<[Z.to_nat (cursor e - 1) := 32]> (line e))); try done; [lia|lia|unfold len in *; rewrite length_insert; lia..|].
      intros k Hk. rewrite list_lookup_insert_ne by lia. by apply R2.
    - assert (E' : (console_write [8] ;;! (redraw_tail (remove_at (line e) (cursor e - 1)) (cursor e - 1) (cursor e - 1) ;;!
        ret (inl (mkEdit (remove_at (line e) (cursor e - 1)) (cursor e - 1) (history_pos e))))) tm1 =
        (Ok (inl (mkEdit (remove_at (line e) (cursor e - 1)) (cursor e - 1) (history_pos e)) : Edit + list Z), tm2)).
      { revert E. unfold bind. destruct (console_write [8] tm1) as [[[]| | |] tm3]; try done. by intros ->. }
      rewrite E'. apply te_edit; [|exact Q2]. split; cbn; try done; [lia|lia|by rewrite Q2|by rewrite Q2]. }
  apply orb_false_iff in E8 as [N8%Z.eqb_neq N127%Z.eqb_neq].
  apply orb_false_iff in E10 as [N13%Z.eqb_neq N10%Z.eqb_neq].
  destruct (Z.ltb_spec (len (line e) + 1) max) as [L|L]; [|by apply te_edit].
  destruct Hb as [Hb|[Hp [Hc|Hc]]]; [rewrite !elem_of_cons, elem_of_nil in Hb; tauto| |lia]. rewrite (proj2 (Z.eqb_eq _ _)) by done.
  assert (E1 : len [b] = 1) by done.
  destruct (leaves_write tm1 (line e) (cursor e) [b] (line e ++ [b]) H6) as (tm2 & E & Ha & [Q1 Q2]); [lia|by constructor|lia| |].
  { rewrite E1. unfold len in *. intros k Hk Hk'. case_decide as D.
    - left. rewrite lookup_app_r by lia. replace (Z.to_nat k - length (line e))%nat with O by lia. by replace (Z.to_nat (k - cursor e)) with O by lia.
    - destruct (decide (k < cursor e)); [by rewrite lookup_app_l by lia|]. rewrite !lookup_ge_None_2; [done|lia|rewrite length_app; cbn; lia]. }
  rewrite (bind_ok _ _ _ _ _ E). apply te_edit; [|exact Q2].
  assert (El : len (line e ++ [b]) = len (line e) + 1) by (unfold len; rewrite length_app; cbn; lia).
  split; cbn [line cursor history_pos]; [lia|lia|apply Forall_app; split; [done|by apply Forall_singleton]|by rewrite Q2|by rewrite Q2|by rewrite E1 in Ha].
Qed.
End Editor.

(** Turns of the loop, one calm key after another. *)
Inductive calm_turns (max : Z) (e : Edit) (tm : Term) : Edit → Term → Prop :=
  | ct_start : calm_turns max e tm e tm
  | ct_turn e1 tm1 b rest e2 tm2 : calm_turns max e tm e1 tm1 → input tm1 = b :: rest → calm max b e1 →
      edit_turn max e1 tm1 = (Ok (inl e2), tm2) → calm_turns max e tm e2 tm2.

