(* ===== verification/EditDemo.v ===== *)
(** * A line edited on the small console

    Typing "ab", moving left and deleting the a, on the console of two lines of
    four characters; and what a character typed before the end does to the
    screen. *)
From Stdlib Require Import String.
From stdpp Require Import base numbers list.
From Stdlib Require Import ZArith Lia Bool.
From S2P Require Import Prelude Bytes Str Console ConsolePix ConsoleInv ConsoleDemo Keyboard Terminal EditShow.
Import Console Terminal.

Definition edit_tm0 : Term := mkTerm (lit "ab" ++ [27] ++ lit "[D" ++ [127]) [] (Some demo_console) [].
Definition edit_e0 : Edit := mkEdit [] 0 None.
Definition edit_tm1 : Term := snd (edit_turn 4 edit_e0 edit_tm0).
Definition edit_e1 : Edit := mkEdit (lit "a") 1 None.
Definition edit_tm2 : Term := snd (edit_turn 4 edit_e1 edit_tm1).
Definition edit_e2 : Edit := mkEdit (lit "ab") 2 None.
Definition edit_tm3 : Term := snd (edit_turn 4 edit_e2 edit_tm2).
Definition edit_e3 : Edit := mkEdit (lit "ab") 1 None.
Definition edit_tm4 : Term := snd (edit_turn 4 edit_e3 edit_tm3).
Definition edit_e4 : Edit := mkEdit (lit "b") 0 None.

Lemma turned (e e' : Edit) (tm : Term) : fst (edit_turn 4 e tm) = Ok (inl e') → edit_turn 4 e tm = (Ok (inl e'), snd (edit_turn 4 e tm)).
Proof. destruct (edit_turn 4 e tm) as [r tm']. cbn [fst snd]. intros ->. reflexivity. Qed.

Lemma edit_turns_demo : calm_turns 4 edit_e0 edit_tm0 edit_e4 edit_tm4.
Proof.
  apply (ct_turn 4 edit_e0 edit_tm0 edit_e3 edit_tm3 127 []).
  2: vm_compute; reflexivity.
  2: left; rewrite !elem_of_cons; tauto.
  2: apply (turned edit_e3 edit_e4 edit_tm3); vm_compute; reflexivity.
  apply (ct_turn 4 edit_e0 edit_tm0 edit_e2 edit_tm2 27 (lit "[D" ++ [127])).
  2: vm_compute; reflexivity.
  2: left; rewrite !elem_of_cons; tauto.
  2: apply (turned edit_e2 edit_e3 edit_tm2); vm_compute; reflexivity.
  apply (ct_turn 4 edit_e0 edit_tm0 edit_e1 edit_tm1 98 ([27] ++ lit "[D" ++ [127])).
  2: vm_compute; reflexivity.
  2: right; split; [unfold printable; lia|left; vm_compute; reflexivity].
  2: apply (turned edit_e1 edit_e2 edit_tm1); vm_compute; reflexivity.
  apply (ct_turn 4 edit_e0 edit_tm0 edit_e0 edit_tm0 97 (lit "b" ++ [27] ++ lit "[D" ++ [127])).
  2: vm_compute; reflexivity.
  2: right; split; [unfold printable; lia|left; vm_compute; reflexivity].
  2: apply (turned edit_e0 edit_e1 edit_tm0); vm_compute; reflexivity.
  apply ct_start.
Qed.


(** For a b typed between a and c the editor writes "bc" and walks back with
    a backspace, which blanks the c. *)
Lemma middle_insert_erases :
  (λ t, (grid t 0 0, grid t 0 1, grid t 0 2)) <$> t_chars 4 2 new_tty (lit "ac" ++ left_text 1 ++ lit "bc" ++ [8]) =
  Some (Glyph 97 DEFAULT_FG DEFAULT_BG, Glyph 98 DEFAULT_FG DEFAULT_BG, Glyph 32 DEFAULT_FG DEFAULT_BG).
Proof. vm_compute. reflexivity. Qed.

(** A line recalled from the history can be longer than the caller asked for,
    and then comes back without its newline. *)
Lemma recalled_line_too_long :
  fst (read_line 3 (mkTerm ([27] ++ lit "[A" ++ [10]) [] None [lit "clear"])) = Ok (lit "clear").
Proof. vm_compute. reflexivity. Qed.
