(* ===== verification/Fmt.v ===== *)
(** * Formatted text

    What the sources use of [core::fmt]: numbers in decimal and in hexadecimal,
    padding to a width counted in characters, and [str::trim]. *)
From Stdlib Require Import String.
From stdpp Require Import base numbers list.
From Stdlib Require Import ZArith Lia Bool.
From S2P Require Import Prelude Bytes Str.

(** The digits of a number below [2^64] in a base of at least ten, last first. *)
Definition digit_char (lower : bool) (d : Z) : Z := if d <? 10 then 48 + d else (if lower then 87 else 55) + d.
Fixpoint digits (fuel : nat) (base n : Z) (lower : bool) : list Z :=
  match fuel with
  | O => []
  | S fuel => digit_char lower (n mod base) :: if n <? base then [] else digits fuel base (n / base) lower
  end.

(** [{}] and [{:X}] of an unsigned number. *)
Definition fmt_dec (n : Z) : str := rev (digits 20 10 n true).
Definition fmt_hex (n : Z) : str := rev (digits 16 16 n false).
(** [{:0wX}]. *)
Definition fmt_hex_pad (w : nat) (n : Z) : str := let s := fmt_hex n in replicate (w - length s) 48 ++ s.

Definition chars (s : str) : nat := length (decode_utf8_lossy s).
(** [{:<w}] and [{:>w}]. *)
Definition pad_right (w : nat) (s : str) : str := s ++ replicate (w - chars s) SPACE.
Definition pad_left (w : nat) (s : str) : str := replicate (w - chars s) SPACE ++ s.

(** [char::is_whitespace]. *)
Definition is_whitespace (c : Z) : bool :=
  in_range 9 13 c || in_range 0x2000 0x200a c ||
  existsb (Z.eqb c) [0x20; 0x85; 0xa0; 0x1680; 0x2028; 0x2029; 0x202f; 0x205f; 0x3000].
Fixpoint drop_while (p : Z → bool) (s : list Z) : list Z :=
  match s with
  | [] => []
  | c :: s' => if p c then drop_while p s' else s
  end.
(** [str::trim], on characters. *)
Definition trim (cs : list Z) : list Z := rev (drop_while is_whitespace (rev (drop_while is_whitespace cs))).

(** ** What a printed number says *)
Definition digits_value (base : Z) (ds : list Z) : Z := foldr (λ d v, d - 48 + base * v) 0 ds.

Lemma digits_decimal fuel n : 0 ≤ n < 10 ^ Z.of_nat fuel → (0 < fuel)%nat →
  digits_value 10 (digits fuel 10 n true) = n ∧ Forall (λ d, is_digit d = true) (digits fuel 10 n true).
Proof.
  revert n. induction fuel as [|fuel IH]; [lia|]. intros n Hn _. cbn [digits]. unfold digit_char.
  assert (0 ≤ n mod 10 < 10) by (apply Z.mod_pos_bound; lia). rewrite (proj2 (Z.ltb_lt (n mod 10) 10)) by lia.
  assert (Hd : is_digit (48 + n mod 10) = true) by (unfold is_digit; lia).
  destruct (Z.ltb_spec n 10) as [L|L].
  - cbn. rewrite Z.mod_small by lia. split; [lia|]. rewrite Z.mod_small in Hd by lia. by repeat constructor.
  - rewrite Nat2Z.inj_succ, Z.pow_succ_r in Hn by lia.
    assert (Hf : (0 < fuel)%nat) by (destruct fuel; [cbn in Hn; lia|lia]).
    assert (Hq : 0 ≤ n / 10 < 10 ^ Z.of_nat fuel) by (split; [apply Z.div_pos; lia|apply Z.div_lt_upper_bound; lia]).
    destruct (IH (n / 10) Hq Hf) as [Ev Hds].
    split; [|by constructor]. unfold digits_value in *. cbn [foldr]. rewrite Ev. pose proof (Z.div_mod n 10). lia.
Qed.

(** A printed number reads back. *)
Lemma fmt_dec_value n : 0 ≤ n < 2^64 → digits_value 10 (rev (fmt_dec n)) = n ∧ Forall (λ d, is_digit d = true) (fmt_dec n).
Proof.
  intros Hn. unfold fmt_dec. rewrite rev_involutive.
  destruct (digits_decimal 20 n) as [Ev Hd]; [cbn; lia|lia|]. split; [done|]. by apply Forall_rev.
Qed.
