(* ===== verification/FsProbe.v ===== *)
(** * Identifying filesystems: [fs_probe.rs]

    Which filesystem a device holds, by its signatures, and the label, identifier
    and space that its metadata gives.  A read that fails is [None]; the arrays
    have fixed sizes and constant indices inside them. *)
From Stdlib Require Import String.
From stdpp Require Import base numbers list.
From Stdlib Require Import ZArith Lia Bool.
From S2P Require Import Prelude Bytes Str Block Partition FatNames Fat32 Fmt.

Module FsProbe.

Inductive FsType := TFat32 | Vfat | ExFat | Ntfs | Ext4 | LinuxSwap | Unknown.
#[global] Instance FsType_eq_dec : EqDecision FsType.
Proof. solve_decision. Defined.

Record FsInfo := mkFsInfo {
  kind : FsType; version : str; label : str; uuid : str; available : option Z; used_percent : option Z
}.

Definition fs_name (t : FsType) : str :=
  match t with
  | TFat32 => lit "fat32" | Vfat => lit "vfat" | ExFat => lit "exfat" | Ntfs => lit "ntfs"
  | Ext4 => lit "ext4" | LinuxSwap => lit "swap" | Unknown => lit "unknown"
  end.

(** [&b[at..at + n]] and [u64::from_le_bytes] in an array. *)
Definition part (b : list Z) (at_ n : nat) : list Z := take n (drop at_ b).
Definition u64le (b : list Z) (at_ : nat) : Z := u32le b at_ + 2^32 * u32le b (4 + at_).
Definition sat_mul (a b : Z) : Z := Z.min (a * b) u64_max.
Definition sat_add (a b : Z) : Z := Z.min (a + b) u64_max.
Definition sat_sub (a b : Z) : Z := Z.max (a - b) 0.

Definition hex_byte (b : Z) : str := [digit_char true (Z.shiftr b 4); digit_char true (Z.land b 15)].
Fixpoint hex_uuid_from (i : Z) (bytes : list Z) : str :=
  match bytes with
  | [] => []
  | b :: bytes =>
      (if (i =? 4) || (i =? 6) || (i =? 8) || (i =? 10) then [45] else []) ++ hex_byte b ++ hex_uuid_from (i + 1) bytes
  end.
Definition hex_uuid : list Z → str := hex_uuid_from 0.

Definition text (bytes : list Z) : str :=
  let end_ := default (length bytes) (position (Z.eqb 0) bytes) in
  encode_utf8 (trim (decode_utf8_lossy (take end_ bytes))).

(** [{:04X}-{:04X}] of a serial number's halves, nothing for zero. *)
Definition serial_text (serial : Z) : str :=
  if serial =? 0 then [] else fmt_hex_pad 4 (Z.shiftr serial 16) ++ [45] ++ fmt_hex_pad 4 (Z.land serial 0xffff).

Section Probe.
Context {D : Type} `{BlockDevice D}.
Notation R := (res Empty_set).

Definition try_read (lba : Z) (device : D) : R (option (list Z)) :=
  match read_sector lba device with
  | Ok s => Ok (Some s)
  | Err _ => Ok None
  | Panic => Panic
  | Diverge => Diverge
  end.

(** The [n] sectors from [i], [None] when one cannot be read. *)
Fixpoint read_page (n : nat) (i : Z) (device : D) : R (option (list Z)) :=
  match n with
  | O => Ok (Some [])
  | S n =>
      let? s := try_read i device in
      match s with
      | None => Ok None
      | Some s => let? rest := read_page n (i + 1) device in Ok (rest ≫= λ r, Some (s ++ r))
      end
  end.

Definition detect (device : D) : R FsType :=
  let? b := try_read 0 device in
  match b with
  | None => Ok Unknown
  | Some boot =>
      if str_eqb (part boot 3 8) (lit "EXFAT   ") then Ok ExFat
      else if str_eqb (part boot 3 8) (lit "NTFS    ") then Ok Ntfs
      else if str_eqb (part boot 510 2) [0x55; 0xaa] && (u16le boot 11 =? SECTOR_SIZE) && is_power_of_two (byte_of boot 13) then
        if (byte_of boot 17 =? 0) && (byte_of boot 18 =? 0) && (byte_of boot 22 =? 0) && (byte_of boot 23 =? 0)
        then Ok TFat32 else Ok Vfat
      else
        let? ext :=
          if 2 <? sector_count device then
            let? s := try_read 2 device in
            Ok (match s with Some sb => str_eqb (part sb 56 2) [0x53; 0xef] | None => false end)
          else Ok false in
        if (ext : bool) then Ok Ext4
        else if 8 <=? sector_count device then
          let? p := read_page 8 0 device in
          match p with
          | Some page =>
              if str_eqb (part page 4086 10) (lit "SWAPSPACE2") || str_eqb (part page 4086 10) (lit "SWAP-SPACE")
              then Ok LinuxSwap else Ok Unknown
          | None => Ok Unknown
          end
        else Ok Unknown
  end.

(** ** FAT *)
Definition fat_space (device : D) (boot : list Z) : R (option Z * option Z) :=
  let spc := byte_of boot 13 in
  let data_start := sat_add (u16le boot 14) (sat_mul (byte_of boot 16) (u32le boot 36)) in
  let clusters := sat_sub (u32le boot 32) data_start / Z.max spc 1 in
  let fsinfo := u16le boot 48 in
  if fsinfo <? sector_count device then
    let? s := try_read fsinfo device in
    match s with
    | Some sector =>
        if (u32le sector 0 =? 0x41615252) && (u32le sector 484 =? 0x61417272) && negb (u32le sector 488 =? u32_max) then
          let free := Z.min (u32le sector 488) clusters in
          let? used :=
            if clusters =? 0 then Ok None
            else let? u := sub64 clusters free in let? u := mul64 u 100 in Ok (Some (wrap8 (u / clusters))) in
          Ok (Some (sat_mul (sat_mul free spc) SECTOR_SIZE), used)
        else Ok (None, None)
    | None => Ok (None, None)
    end
  else Ok (None, None).

(** ** exFAT: the volume label of the root directory *)
Definition label_units (entry : list Z) : list Z :=
  List.map (λ i, u16le entry (2 + i * 2)) (seq 0 (Nat.min (Z.to_nat (byte_of entry 1)) 15)).

(** [Some l] ends the search, with a label or without one. *)
Fixpoint exfat_entries (entries : list (list Z)) : option (option str) :=
  match entries with
  | [] => None
  | e :: entries =>
      if byte_of e 0 =? 0 then Some None
      else if byte_of e 0 =? 0x83 then Some (Some (from_utf16_lossy (label_units e)))
      else exfat_entries entries
  end.

Fixpoint exfat_sectors (n : nat) (first_lba s : Z) (device : D) : R (option (option str)) :=
  match n with
  | O => Ok None
  | S n =>
      let? d := try_read (sat_add first_lba s) device in
      match d with
      | None => Ok (Some None)
      | Some dir =>
          match exfat_entries (List.map (λ k, part dir (k * 32) 32) (seq 0 16)) with
          | Some l => Ok (Some l)
          | None => exfat_sectors n first_lba (s + 1) device
          end
      end
  end.

(** At most [fuel] clusters of the root directory, from [cluster]. *)
Fixpoint exfat_label (fuel : nat) (spc fat_start heap_start cluster : Z) (device : D) : R (option str) :=
  match fuel with
  | O => Ok None
  | S fuel =>
      if cluster <? 2 then Ok None
      else
        let first_lba := sat_add heap_start (sat_mul (cluster - 2) spc) in
        let? l := exfat_sectors (Z.to_nat (Z.min spc 8)) first_lba 0 device in
        match l with
        | Some l => Ok l
        | None =>
            let fat_sector := sat_add fat_start (cluster * 4 / SECTOR_SIZE) in
            let? f := try_read fat_sector device in
            match f with
            | None => Ok None
            | Some fat =>
                let cluster := u32le fat (Z.to_nat (cluster * 4 mod SECTOR_SIZE)) in
                if 0xfffffff8 <=? cluster then Ok None
                else exfat_label fuel spc fat_start heap_start cluster device
            end
        end
  end.

(** ** ext4 *)
Definition ext_blocks (sb : list Z) : Z * Z :=
  if negb (Z.land (u32le sb 96) 0x80 =? 0)
  then (Z.lor (u32le sb 4) (Z.shiftl (u32le sb 336) 32), Z.lor (u32le sb 12) (Z.shiftl (u32le sb 344) 32))
  else (u32le sb 4, u32le sb 12).

Definition ext_space (sb : list Z) : R (option Z * option Z) :=
  let block_size := Z.shiftl 1024 (Z.min (u32le sb 24) 6) in
  let '(blocks, free) := ext_blocks sb in
  if blocks =? 0 then Ok (None, None)
  else
    let free := Z.min free blocks in
    let? u := sub64 blocks free in
    let? u := mul64 u 100 in
    Ok (Some (sat_mul free block_size), Some (wrap8 (u / blocks))).

(** ** All of it *)
Definition inspect_kind (device : D) (k : FsType) (boot : list Z) : R FsInfo :=
  match k with
  | TFat32 =>
      let? sp := fat_space device boot in
      Ok (mkFsInfo k (lit "FAT32") (text (part boot 71 11)) (serial_text (u32le boot 67)) (fst sp) (snd sp))
  | Vfat =>
      Ok (mkFsInfo k (if (byte_of boot 22 =? 0) && (byte_of boot 23 =? 0) then lit "FAT32" else lit "FAT")
            (text (part boot 43 11)) (serial_text (u32le boot 39)) None None)
  | ExFat =>
      let? l :=
        if (byte_of boot 108 =? 9) && (byte_of boot 109 <? 16)
        then exfat_label 16 (Z.shiftl 1 (byte_of boot 109)) (u64le boot 80) (u64le boot 88) (u32le boot 96) device
        else Ok None in
      let percent := byte_of boot 112 in
      let serial := u32le boot 100 in
      Ok (mkFsInfo k (fmt_dec (byte_of boot 105) ++ [DOT] ++ fmt_dec (byte_of boot 107)) (default [] l)
            (if serial =? 0 then [] else fmt_hex_pad 8 serial)
            (if percent <=? 100 then Some (sat_mul (sat_mul (sector_count device) SECTOR_SIZE) (100 - percent) / 100) else None)
            (if percent <=? 100 then Some percent else None))
  | Ntfs =>
      let serial := u64le boot 72 in
      Ok (mkFsInfo k [] [] (if serial =? 0 then [] else fmt_hex_pad 16 serial) None None)
  | Ext4 =>
      let? s := try_read 2 device in
      match s with
      | None => Ok (mkFsInfo k [] [] [] None None)
      | Some sb =>
          let? sp := ext_space sb in
          Ok (mkFsInfo k (lit "1.0") (text (part sb 120 16)) (hex_uuid (part sb 104 16)) (fst sp) (snd sp))
      end
  | LinuxSwap =>
      let? p := read_page 8 0 device in
      Ok (match p with
          | Some page => mkFsInfo k (fmt_dec (u32le page 1024)) (text (part page 1052 16)) (hex_uuid (part page 1036 16)) None None
          | None => mkFsInfo k [] [] [] None None
          end)
  | Unknown => Ok (mkFsInfo k [] [] [] None None)
  end.

Definition inspect (device : D) : R FsInfo :=
  let? k := detect device in
  let? b := try_read 0 device in
  match b with
  | None => Ok (mkFsInfo k [] [] [] None None)
  | Some boot => inspect_kind device k boot
  end.
End Probe.

(** ** Every device can be inspected

    [r] is a value that satisfies [P]; it is not an error, and no panic. *)
Definition gives {A} (r : res Empty_set A) (P : A → Prop) : Prop := ∃ a, r = Ok a ∧ P a.

Lemma gives_bind {A B} (r : res Empty_set A) (f : A → res Empty_set B) (P : A → Prop) (Q : B → Prop) :
  gives r P → (∀ a, P a → gives (f a) Q) → gives (res_bind r f) Q.
Proof. intros (a & -> & Ha) Hf. by apply Hf. Qed.

Lemma gives_ok {A} (a : A) (P : A → Prop) : P a → gives (Ok a) P.
Proof. intros. by exists a. Qed.

(** What is reported: sizes that fit, and a percentage. *)
Definition space_ok (sp : option Z * option Z) : Prop :=
  (∀ a, fst sp = Some a → 0 ≤ a ≤ u64_max) ∧ (∀ p, snd sp = Some p → 0 ≤ p ≤ 100).
Definition info_ok (i : FsInfo) : Prop := space_ok (available i, used_percent i).

Lemma no_space : space_ok (None, None).
Proof. by split. Qed.

Lemma sat_mul_range a b : 0 ≤ a → 0 ≤ b → 0 ≤ sat_mul a b ≤ u64_max.
Proof. intros. unfold sat_mul, u64_max. pose proof (Z.mul_nonneg_nonneg a b). lia. Qed.

Lemma percent_range used total : 0 ≤ used ≤ total → 0 < total → 0 ≤ wrap8 (used * 100 / total) ≤ 100.
Proof.
  intros Hu Ht. assert (0 ≤ used * 100 / total ≤ 100).
  { split; [apply Z.div_pos; lia|]. apply Z.div_le_upper_bound; lia. }
  unfold wrap8. rewrite Z.mod_small by lia. done.
Qed.

(** The only sum that may not fit: the used blocks of an ext4 volume, times a hundred. *)
Definition ext_overflows (sb : list Z) : Prop :=
  u64_max < (fst (ext_blocks sb) - Z.min (snd (ext_blocks sb)) (fst (ext_blocks sb))) * 100.

Lemma ext_blocks_range sb : bytes_ok sb → 0 ≤ fst (ext_blocks sb) < 2^64 ∧ 0 ≤ snd (ext_blocks sb) < 2^64.
Proof.
  intros Hb. assert (Hw : ∀ i j, 0 ≤ Z.lor (u32le sb i) (Z.shiftl (u32le sb j) 32) < 2^64).
  { intros i j. pose proof (u32le_range sb i Hb). pose proof (u32le_range sb j Hb). apply lor_range; [lia..|].
    rewrite Z.shiftl_mul_pow2 by lia. lia. }
  unfold ext_blocks. destruct (negb _); cbn [fst snd]; [by split|].
  pose proof (u32le_range sb 4 Hb). pose proof (u32le_range sb 12 Hb). lia.
Qed.

Lemma ext_space_spec sb : bytes_ok sb →
  (ext_overflows sb ∧ ext_space sb = Panic) ∨ (¬ ext_overflows sb ∧ gives (ext_space sb) space_ok).
Proof.
  intros Hb. pose proof (ext_blocks_range sb Hb) as [H1 H2]. pose proof (u32le_range sb 24 Hb) as H3.
  unfold ext_space, ext_overflows. destruct (ext_blocks sb) as [blocks free]. cbn [fst snd] in *.
  destruct (Z.eqb_spec blocks 0) as [->|N0].
  { right. split; [unfold u64_max; lia|]. by apply gives_ok, no_space. }
  unfold sub64, checked_sub. rewrite (proj2 (Z.leb_le _ _)) by lia. cbn [res_bind expect].
  unfold mul64, checked_mul. destruct (Z.leb_spec ((blocks - Z.min free blocks) * 100) u64_max) as [L|L]; cbn [res_bind expect].
  - right. split; [lia|]. apply gives_ok. split; cbn [fst snd]; intros ? [= <-].
    + apply sat_mul_range; [lia|]. apply Z.shiftl_nonneg. lia.
    + apply percent_range; lia.
  - by left.
Qed.

Section Total.
Context {D : Type} `{BlockDevice D} (device : D) (Hdev : reads_sectors device).

Lemma try_read_gives lba : gives (try_read lba device) (λ o, ∀ s, o = Some s → sector_ok s ∧ read_sector lba device = Ok s).
Proof using Hdev.
  destruct Hdev as [_ Hr]. specialize (Hr lba). unfold try_read. destruct (read_sector lba device); try done; apply gives_ok; [|done].
  intros s' [= <-]. by split.
Qed.

Lemma read_page_gives n : ∀ i, gives (read_page n i device) (λ o, True).
Proof using Hdev.
  induction n as [|n IH]; intros i; cbn [read_page]; [by apply gives_ok|].
  eapply gives_bind; [apply try_read_gives|]. intros [s|] _; [|by apply gives_ok].
  eapply gives_bind; [apply IH|]. intros. by apply gives_ok.
Qed.

Lemma detect_gives : gives (detect device) (λ _, True).
Proof using Hdev.
  unfold detect. eapply gives_bind; [apply try_read_gives|]. intros [boot|] _; [|by apply gives_ok].
  repeat (case_match; [by apply gives_ok|]). case_match; [case_match; by apply gives_ok|].
  apply (gives_bind _ _ (λ _, True)).
  { case_match; [|by apply gives_ok]. eapply gives_bind; [apply try_read_gives|]. intros. by apply gives_ok. }
  intros ext _. destruct ext; [by apply gives_ok|]. case_match; [|by apply gives_ok].
  eapply gives_bind; [apply read_page_gives|]. intros [page|] _; [case_match|]; by apply gives_ok.
Qed.

Lemma fat_space_gives boot : bytes_ok boot → gives (fat_space device boot) space_ok.
Proof using Hdev.
  intros Hb. unfold fat_space. pose proof (byte_of_range boot 13 Hb) as Hspc. pose proof (u32le_range boot 32 Hb) as Ht.
  set (clusters := sat_sub _ _ / _).
  assert (Hc : 0 ≤ clusters < 2^32).
  { unfold clusters, sat_sub. pose proof (u16le_range boot 14 Hb). pose proof (byte_of_range boot 16 Hb). pose proof (u32le_range boot 36 Hb).
    pose proof (sat_mul_range (byte_of boot 16) (u32le boot 36)).
    assert (0 ≤ sat_add (u16le boot 14) (sat_mul (byte_of boot 16) (u32le boot 36))) by (unfold sat_add, u64_max; lia).
    split; [apply Z.div_pos; lia|]. apply Z.div_lt_upper_bound; nia. }
  case_match; [|by apply gives_ok, no_space].
  eapply gives_bind; [apply try_read_gives|]. intros [sector|] Hs; [|by apply gives_ok, no_space].
  destruct (Hs sector eq_refl) as [[_ Hsb] _]. pose proof (u32le_range sector 488 Hsb) as Hf.
  case_match; [|by apply gives_ok, no_space].
  eapply (gives_bind _ _ (λ u, ∀ p, u = Some p → 0 ≤ p ≤ 100)).
  - destruct (Z.eqb_spec clusters 0) as [E|E]; [by apply gives_ok|].
    unfold sub64, checked_sub. rewrite (proj2 (Z.leb_le _ _)) by lia. cbn [res_bind expect].
    unfold mul64, checked_mul. rewrite (proj2 (Z.leb_le _ _)) by (unfold u64_max; lia). cbn [res_bind expect].
    apply gives_ok. intros p [= <-]. apply percent_range; lia.
  - intros u Hu. apply gives_ok. split; cbn [fst snd]; [|done]. intros a [= <-].
    apply sat_mul_range; [|unfold SECTOR_SIZE; lia]. apply sat_mul_range; lia.
Qed.

Lemma exfat_sectors_gives n : ∀ first_lba s, gives (exfat_sectors n first_lba s device) (λ _, True).
Proof using Hdev.
  induction n as [|n IH]; intros first_lba s; cbn [exfat_sectors]; [by apply gives_ok|].
  eapply gives_bind; [apply try_read_gives|]. intros [dir|] _; [|by apply gives_ok]. case_match; [by apply gives_ok|apply IH].
Qed.

Lemma exfat_label_gives fuel : ∀ spc fat_start heap_start cluster, gives (exfat_label fuel spc fat_start heap_start cluster device) (λ _, True).
Proof using Hdev.
  induction fuel as [|fuel IH]; intros; cbn [exfat_label]; [by apply gives_ok|]. case_match; [by apply gives_ok|].
  eapply gives_bind; [apply exfat_sectors_gives|]. intros [l|] _; [by apply gives_ok|].
  eapply gives_bind; [apply try_read_gives|]. intros [fat|] _; [|by apply gives_ok]. case_match; [by apply gives_ok|apply IH].
Qed.

Lemma inspect_kind_gives k boot : bytes_ok boot → k ≠ Ext4 → gives (inspect_kind device k boot) (λ i, kind i = k ∧ info_ok i).
Proof using Hdev.
  intros Hb Hk. destruct k; cbn [inspect_kind]; try done; try (apply gives_ok; split; [done|apply no_space]).
  - eapply gives_bind; [by apply fat_space_gives|]. intros [a u] Hsp. by apply gives_ok.
  - apply (gives_bind _ _ (λ _, True)); [case_match; [apply exfat_label_gives|by apply gives_ok]|]. intros l _.
    apply gives_ok. split; [done|]. pose proof (byte_of_range boot 112 Hb) as Hp. destruct Hdev as [Hn _].
    destruct (Z.leb_spec (byte_of boot 112) 100) as [L|L]; split; cbn; try done; intros ? [= <-]; [|lia].
    assert (0 ≤ sat_mul (sat_mul (sector_count device) SECTOR_SIZE) (100 - byte_of boot 112) ≤ u64_max).
    { apply sat_mul_range; [|lia]. apply sat_mul_range; unfold SECTOR_SIZE; lia. }
    split; [apply Z.div_pos; lia|]. etransitivity; [apply Z.div_le_upper_bound with (q := u64_max); unfold u64_max in *; lia|done].
  - eapply gives_bind; [apply read_page_gives|]. intros [page|] _; apply gives_ok; (split; [done|apply no_space]).
Qed.

(** C27: Inspecting a device ends, whatever it holds, and reports the kind that
    [detect] finds, an available size that fits in 64 bits and at most a hundred
    percent used; the one exception is an ext4 superblock that claims so many
    used blocks that a hundred times their number overflows, where the kernel
    panics. *)
Theorem inspect_total :
  (∃ k i, detect device = Ok k ∧ inspect device = Ok i ∧ kind i = k ∧ info_ok i) ∨
  (detect device = Ok Ext4 ∧ inspect device = Panic ∧ ∃ sb, read_sector 2 device = Ok sb ∧ ext_overflows sb).
Proof using Hdev.
  destruct detect_gives as (k & Ek & _). destruct (try_read_gives 0) as (o & Eo & Ho). unfold inspect. rewrite Ek. cbn [res_bind].
  rewrite Eo. cbn [res_bind]. destruct o as [boot|].
  2:{ left. exists k. eexists. split; [done|]. split; [done|]. split; [done|]. apply no_space. }
  destruct (Ho boot eq_refl) as [[_ Hb] _].
  destruct (decide (k = Ext4)) as [->|Hk].
  - cbn [inspect_kind]. destruct (try_read_gives 2) as (o2 & E2 & Ho2). rewrite E2. cbn [res_bind]. destruct o2 as [sb|].
    2:{ left. exists Ext4. eexists. split; [done|]. split; [done|]. split; [done|]. apply no_space. }
    destruct (Ho2 sb eq_refl) as [[_ Hsb] Er].
    destruct (ext_space_spec sb Hsb) as [[Hov E]|[_ (sp & E & Hsp)]]; rewrite E; cbn [res_bind].
    + right. repeat split; try done. by exists sb.
    + left. exists Ext4. eexists. split; [done|]. split; [done|]. split; [done|]. by destruct sp.
  - left. destruct (inspect_kind_gives k boot Hb Hk) as (i & -> & Hi & Hio). by exists k, i.
Qed.
End Total.

(** A disk with an ext4 superblock whose 64-bit block count is 2^63. *)
Definition demo_ext4 : MemoryBlockDevice :=
  mkMemDev (replicate 1028 0 ++ le_bytes 4 0 ++ replicate 48 0 ++ [0x53; 0xef] ++ replicate 38 0 ++ le_bytes 4 0x80
            ++ replicate 236 0 ++ le_bytes 4 (2^31) ++ replicate 172 0) ∅.

Lemma inspect_total_witness : reads_sectors demo_ext4 ∧ detect demo_ext4 = Ok Ext4 ∧ inspect demo_ext4 = Panic.
Proof.
  assert (Hr : reads_sectors demo_ext4).
  { apply (image_reads _ 3); [|by vm_compute..]. unfold bytes_ok. rewrite !Forall_app.
    split_and!; first [apply Forall_replicate; unfold is_byte; lia | apply le_bytes_ok
                      | repeat constructor; unfold is_byte; lia]. }
  split; [done|]. destruct (inspect_total demo_ext4 Hr) as [(k & i & _ & E & _)|(E1 & E2 & _)]; [|exact (conj E1 E2)].
  exfalso. assert (inspect demo_ext4 = Panic) as E' by by vm_compute. rewrite E' in E. discriminate E.
Defined.
End FsProbe.
