(* ===== verification/Syscall.v ===== *)
(** * System calls: [syscall.rs]

    The handlers behind [syscall_dispatch].  The state is the kernel's (threads,
    memory, filesystems, processes, descriptors) with the terminal, the
    registered block devices and the random number generator.  A call runs as
    one step, up to where it gives the processor away: [Outcome] tells what is
    left to do then.  The processor's random number instruction and time stamp
    counter are parameters. *)
From Stdlib Require Import String.
From stdpp Require Import base numbers list gmap sets.
From Stdlib Require Import ZArith Lia Bool.
From S2P Require Import Prelude Bytes Str Block Partition Vfs Mem Pmm Vmm Elf Scheduler Process Console Keyboard Terminal Fmt FsProbe.
Import Process.

Module Syscall.

(** ** Constants *)
Definition SYS_READ : Z := 0.
Definition SYS_WRITE : Z := 1.
Definition SYS_OPEN : Z := 2.
Definition SYS_CLOSE : Z := 3.
Definition SYS_SCHED_YIELD : Z := 24.
Definition SYS_GETPID : Z := 39.
Definition SYS_EXIT : Z := 60.
Definition SYS_WAIT4 : Z := 61.
Definition SYS_KILL : Z := 62.
Definition SYS_LIST_FILES : Z := 9001.
Definition SYS_READ_FILE : Z := 9002.
Definition SYS_UPTIME_MS : Z := 9003.
Definition SYS_SLEEP_MS : Z := 9004.
Definition SYS_EXEC : Z := 9005.
Definition SYS_LIST_PROCESSES : Z := 9006.
Definition SYS_MKDIR : Z := 9007.
Definition SYS_REMOVE : Z := 9008.
Definition SYS_SYNC : Z := 9009.
Definition SYS_LIST_BLOCK_DEVICES : Z := 9010.
Definition SYS_PANIC : Z := 9011.
Definition SYS_MOUNT : Z := 9012.
Definition TEST_SYSCALL_NUM : Z := 0x42.

Definition EBADF : Z := 9.
Definition EFAULT : Z := 14.
Definition ENOENT : Z := 2.
Definition ENOSYS : Z := 38.
Definition ENAMETOOLONG : Z := 36.
Definition ERANGE : Z := 34.
Definition ESRCH : Z := 3.
Definition EROFS : Z := 30.
Definition ENOSPC : Z := 28.
Definition EINVAL : Z := 22.
Definition EIO : Z := 5.
Definition EEXIST : Z := 17.
Definition ENOTDIR : Z := 20.
Definition EISDIR : Z := 21.
Definition ENOTEMPTY : Z := 39.
Definition ECHILD : Z := 10.
Definition E2BIG : Z := 7.
Definition ENOMEM : Z := 12.
Definition ENOEXEC : Z := 8.
Definition EAGAIN : Z := 11.
Definition ENODEV : Z := 19.

Definition O_WRONLY : Z := 1.
Definition O_RDWR : Z := 2.
Definition O_CREAT : Z := 0x40.
Definition O_TRUNC : Z := 0x200.
Definition O_APPEND : Z := 0x400.

Definition MAX_WRITE : Z := 4096.
Definition MAX_NAME : Z := 255.

Definition errno (e : Z) : Z := wrap64 (- e).

Definition fs_errno (error : Vfs.FsError) : Z :=
  errno (match error with
         | Vfs.ReadOnly => EROFS
         | Vfs.NoSpace => ENOSPC
         | Vfs.InvalidName | Vfs.InvalidPath => EINVAL
         | Vfs.Io => EIO
         | Vfs.NotFound => ENOENT
         | Vfs.NotDirectory => ENOTDIR
         | Vfs.IsDirectory => EISDIR
         | Vfs.AlreadyExists => EEXIST
         | Vfs.DirectoryNotEmpty => ENOTEMPTY
         | _ => EIO
         end).

(** What is left to do when a call gives up the processor or is over. *)
Inductive Outcome :=
  | Return (rax : Z)
  | Later (rax : Z)
  | WaitTerminal (buf n : Z)
  | WaitChild (pid status_ptr options : Z)
  | Gone.

Record SyscallFrame := mkFrame { rax : Z; rdi : Z; rsi : Z; rdx : Z; r10 : Z }.

(** ** The descriptor table *)
Definition is_fd (pid fd : Z) (f : OpenFile) : bool := (f_pid f =? pid) && (f_fd f =? fd).

(** [(3..).find(..)]: among the first [len + 1] candidates one is free. *)
Definition free_fd (pid : Z) (files : list OpenFile) : Z :=
  default 3 (List.find (λ fd, negb (existsb (is_fd pid fd) files)) (seqZ 3 (Z.of_nat (length files) + 1))).

Definition with_offset (f : OpenFile) (o : Z) : OpenFile :=
  mkFile (f_pid f) (f_fd f) (f_kind f) (f_path f) o (f_readable f) (f_writable f) (f_append f).

(** ** State *)
Section Calls.
Context {D : Type} `{BlockDevice D}.
Context (has_rdrand : bool) (rdrand : nat → option Z) (rdtsc : nat → Z).
Context (thread_trampoline user_thread_main : Z).

Record Sys := mkSys {
  kern : Kernel (D:=D);
  term : Terminal.Term;
  DEVICES : list (RegisteredDevice Vfs.Handle);
  TERMINAL_READER : bool;
  URANDOM_STATE : Z;
  clock : nat;
  TEST : option Z
}.

Notation S := (M Sys Empty_set).

Definition set_kern (s : Sys) (k : Kernel (D:=D)) : Sys :=
  mkSys k (term s) (DEVICES s) (TERMINAL_READER s) (URANDOM_STATE s) (clock s) (TEST s).
Definition set_term (s : Sys) (t : Terminal.Term) : Sys :=
  mkSys (kern s) t (DEVICES s) (TERMINAL_READER s) (URANDOM_STATE s) (clock s) (TEST s).
Definition set_reader (s : Sys) (b : bool) : Sys :=
  mkSys (kern s) (term s) (DEVICES s) b (URANDOM_STATE s) (clock s) (TEST s).
Definition set_random (s : Sys) (u : Z) (c : nat) : Sys :=
  mkSys (kern s) (term s) (DEVICES s) (TERMINAL_READER s) u c (TEST s).
Definition set_test (s : Sys) (t : option Z) : Sys :=
  mkSys (kern s) (term s) (DEVICES s) (TERMINAL_READER s) (URANDOM_STATE s) (clock s) t.

Definition on_kern {E A} (m : M (Kernel (D:=D)) E A) : M Sys E A := λ s, let '(r, k) := m (kern s) in (r, set_kern s k).
Definition on_term {A} (m : M Terminal.Term Empty_set A) : S A := λ s, let '(r, t) := m (term s) in (r, set_term s t).
Definition on_cpu {A} (m : M Scheduler.KState Empty_set A) : S A := on_kern (on_sched m).
Definition fs_call {A} (m : M (Vfs.VfsState D) Vfs.FsError A) : S (A + Vfs.FsError) := on_kern (catch (on_vfs m)).
Definition reads {A} (f : Sys → A) : S A := λ s, (Ok (f s), s).
Definition modify (f : Sys → Sys) : S unit := λ s, (Ok tt, f s).
Definition set_open_files (s : Sys) (l : list OpenFile) : Sys := set_kern s (set_files (kern s) l).

Definition current_pid : S Z := reads (λ s, Scheduler.current_id (Process.sched (kern s))).
Definition open_files : S (list OpenFile) := reads (λ s, OPEN_FILES (kern s)).
Definition memory_of (s : Sys) : Vmm.VState := Scheduler.vst (Process.sched (kern s)).

(** [vmm::copy_from_user], [copy_to_user] and [validate_user_range]. *)
Definition get_user (n : nat) (src : Z) : S (option (list Z)) := λ s, (Vmm.copy_from_user n src (memory_of s), s).
Definition put_user (dst : Z) (bytes : list Z) : S bool := on_cpu (Scheduler.on_vmm (Vmm.copy_to_user dst bytes)).
Definition check_user (addr len : Z) (write : bool) : S bool := λ s, (Vmm.validate_user_range addr len write (memory_of s), s).

(** Put bytes in user memory and return their number. *)
Definition answer (buf : Z) (bytes : list Z) : S Z :=
  let! ok := put_user buf bytes in
  ret (if (ok : bool) then Z.of_nat (length bytes) else errno EFAULT).

(** ** Random numbers *)
Definition rotate_left (x n : Z) : Z := Z.lor (wrap64 (Z.shiftl x n)) (Z.shiftr x (64 - n)).

(** Up to [n] tries of the instruction. *)
Fixpoint rdrand_tries (n : nat) : S (option Z) :=
  match n with
  | O => ret None
  | Datatypes.S n => λ s,
      let s' := set_random s (URANDOM_STATE s) (Datatypes.S (clock s)) in
      match rdrand (clock s) with
      | Some v => (Ok (Some v), s')
      | None => rdrand_tries n s'
      end
  end.

Definition scramble (v : Z) : Z :=
  let v := Z.lxor v (Z.shiftr v 12) in
  let v := Z.lxor v (wrap64 (Z.shiftl v 25)) in
  let v := Z.lxor v (Z.shiftr v 27) in
  if v =? 0 then 0xA0761D6478BD642F else v.

(** Nothing else changes the state inside the call, so the exchange succeeds. *)
Definition urandom_word : S Z :=
  let! o := if has_rdrand then rdrand_tries 10 else ret None in
  match o with
  | Some v => ret v
  | None =>
      let! old := reads URANDOM_STATE in
      let! value :=
        if old =? 0 then
          let! up := on_cpu Scheduler.uptime_ms in
          let! pid := current_pid in
          ret (Z.lxor (Z.lxor 0x9E3779B97F4A7C15 (rotate_left up 19)) pid)
        else ret old in
      λ s,
        let value := scramble (Z.lxor value (rdtsc (clock s))) in
        (Ok (wrap64 (value * 0x2545F4914F6CDD1D)), set_random s value (Datatypes.S (clock s)))
  end.

(** The chunks of eight bytes, the last cut short. *)
Fixpoint random_bytes (words : nat) : S (list Z) :=
  match words with
  | O => ret []
  | Datatypes.S words => let! w := urandom_word in let! rest := random_bytes words in ret (le_bytes 8 w ++ rest)
  end.
Definition fill_urandom (n : Z) : S (list Z) :=
  let! bytes := random_bytes (Z.to_nat ((n + 7) / 8)) in ret (take (Z.to_nat n) bytes).

(** ** Files *)

(** The part of [sys_read] that reads a line from the terminal. *)
Definition terminal_read (buf n : Z) : S Outcome :=
  let! busy := reads TERMINAL_READER in
  if (busy : bool) then on_cpu Scheduler.yield_now ;;! ret (WaitTerminal buf n)
  else
    modify (λ s, set_reader s true) ;;!
    let! line := on_term (Terminal.read_line n) in
    modify (λ s, set_reader s false) ;;!
    let! r := answer buf line in ret (Return r).

(** ... and the part that reads a file. *)
Definition file_read (pid fd buf n : Z) : S Z :=
  let! files := open_files in
  match position (is_fd pid fd) files, List.find (is_fd pid fd) files with
  | Some i, Some file =>
      let! r := fs_call (Vfs.read_at (f_path file) (f_offset file) n) in
      match r with
      | inr error => ret (fs_errno error)
      | inl data =>
          let read := Z.of_nat (length data) in
          let! ok := put_user buf data in
          if negb ok then ret (errno EFAULT)
          else
            let! offset := lift (add64 (f_offset file) read) in
            modify (λ s, set_open_files s (<[i := with_offset file offset]> files)) ;;!
            ret read
      end
  | _, _ => ret (errno EBADF)
  end.

Definition sys_read (fd buf len : Z) : S Outcome :=
  let n := Z.min len MAX_WRITE in
  if n =? 0 then ret (Return 0)
  else
    let! pid := current_pid in
    let! files := open_files in
    match List.find (is_fd pid fd) files with
    | None => ret (Return (errno EBADF))
    | Some file =>
        if negb (f_readable file) then ret (Return (errno EBADF))
        else
          let! ok := check_user buf n true in
          if negb ok then ret (Return (errno EFAULT))
          else
            match f_kind file with
            | Null => ret (Return 0)
            | Zero => let! r := answer buf (replicate (Z.to_nat n) 0) in ret (Return r)
            | Urandom => let! data := fill_urandom n in let! r := answer buf data in ret (Return r)
            | Stdin | Console => terminal_read buf n
            | File => let! r := file_read pid fd buf n in ret (Return r)
            | Stdout | Stderr => ret (Return (errno EBADF))
            end
    end.

Definition device_kind (path : str) : option FdKind :=
  if str_eqb path (lit "/device/console") then Some Console
  else if str_eqb path (lit "/device/null") then Some Null
  else if str_eqb path (lit "/device/zero") then Some Zero
  else if str_eqb path (lit "/device/urandom") then Some Urandom
  else None.

Definition flag (flags bits : Z) : bool := negb (Z.land flags bits =? 0).

Definition push_file (kind : FdKind) (path : str) (offset flags : Z) (append : bool) : S Z :=
  let access := Z.land flags 3 in
  let! pid := current_pid in
  let! files := open_files in
  let fd := free_fd pid files in
  modify (λ s, set_open_files s (files ++
    [mkFile pid fd kind path offset ((access =? 0) || (access =? O_RDWR)) ((access =? O_WRONLY) || (access =? O_RDWR)) append])) ;;!
  ret fd.

(** The size of the file, created when it is not there and [O_CREAT] asks for it. *)
Definition open_size (path : str) (flags : Z) : S (Z + Z) :=
  let! r := fs_call (Vfs.file_size path) in
  match r with
  | inl size => ret (inl size)
  | inr _ =>
      if flag flags O_CREAT then
        let! r := fs_call (Vfs.create_file path) in
        ret (match r with inl _ => inl 0 | inr error => inr (fs_errno error) end)
      else ret (inr (errno ENOENT))
  end.

Definition open_file (path : str) (flags : Z) : S Z :=
  let! r := open_size path flags in
  match r with
  | inr e => ret e
  | inl size =>
      let! r := if flag flags O_TRUNC then fs_call (Vfs.truncate path) else ret (inl tt) in
      match r with
      | inr error => ret (fs_errno error)
      | inl _ =>
          push_file File path (if flag flags O_APPEND && negb (flag flags O_TRUNC) then size else 0) flags (flag flags O_APPEND)
      end
  end.

(** A path of at most [MAX_NAME] bytes; [inr] is the error number. *)
Definition user_path (ptr len too_long not_text : Z) : S (str + Z) :=
  if MAX_NAME <? len then ret (inr (errno too_long))
  else
    let! o := get_user (Z.to_nat len) ptr in
    ret (match o with
         | None => inr (errno EFAULT)
         | Some bytes => match from_utf8 bytes with Some path => inl path | None => inr (errno not_text) end
         end).

Definition sys_open (path_ptr path_len flags : Z) : S Z :=
  let access := Z.land flags 3 in
  let allowed := Z.lor (Z.lor (Z.lor (Z.lor O_WRONLY O_RDWR) O_CREAT) O_TRUNC) O_APPEND in
  if flag flags (not64 allowed) || (access =? Z.lor O_WRONLY O_RDWR) || (flag flags (Z.lor O_TRUNC O_APPEND) && (access =? 0))
  then ret (errno EINVAL)
  else
    let! r := user_path path_ptr path_len ENAMETOOLONG ENOENT in
    match r with
    | inr e => ret e
    | inl path =>
        match device_kind path with
        | Some kind =>
            if flag flags (Z.lor (Z.lor O_CREAT O_TRUNC) O_APPEND) then ret (errno EINVAL)
            else push_file kind [] 0 flags false
        | None => open_file path flags
        end
    end.

Definition sys_close (fd : Z) : S Z :=
  let! pid := current_pid in
  let! files := open_files in
  match position (is_fd pid fd) files with
  | Some i => modify (λ s, set_open_files s (Scheduler.swap_remove i files)) ;;! ret 0
  | None => ret (errno EBADF)
  end.

(** The part of [sys_write] that writes a file, from the descriptor as it was. *)
Definition file_write (pid fd : Z) (file0 : OpenFile) (data : list Z) : S Z :=
  let! files := open_files in
  match position (is_fd pid fd) files, List.find (is_fd pid fd) files with
  | Some i, Some file =>
      let! r := if f_append file0 then fs_call (Vfs.file_size (f_path file0)) else ret (inl (f_offset file0)) in
      match r with
      | inr error => ret (fs_errno error)
      | inl offset =>
          let! r := fs_call (Vfs.write_at (f_path file0) offset data) in
          match r with
          | inr error => ret (fs_errno error)
          | inl written =>
              let! o := lift (add64 offset written) in
              modify (λ s, set_open_files s (<[i := with_offset file o]> files)) ;;!
              ret written
          end
      end
  | _, _ => ret (errno EBADF)
  end.

Definition sys_write (fd buf len : Z) : S Z :=
  let n := Z.min len MAX_WRITE in
  if n =? 0 then ret 0
  else
    let! pid := current_pid in
    let! files := open_files in
    match List.find (is_fd pid fd) files with
    | None => ret (errno EBADF)
    | Some file =>
        if negb (f_writable file) then ret (errno EBADF)
        else
          let! o := get_user (Z.to_nat n) buf in
          match o with
          | None => ret (errno EFAULT)
          | Some data =>
              match f_kind file with
              | Stdout | Stderr | Console => on_term (Terminal.console_write data) ;;! ret n
              | Null | Zero | Urandom => ret n
              | File => file_write pid fd file data
              | Stdin => ret (errno EBADF)
              end
          end
    end.

Definition sys_path_mutation (path_ptr path_len : Z) (make_dir : bool) : S Z :=
  if (path_len =? 0) || (MAX_NAME <? path_len) then ret (errno EINVAL)
  else
    let! r := user_path path_ptr path_len EINVAL EINVAL in
    match r with
    | inr e => ret e
    | inl path =>
        let! r := fs_call (if make_dir then Vfs.create_dir path else Vfs.remove path) in
        ret (match r with inl _ => 0 | inr error => fs_errno error end)
    end.

Definition sys_sync : S Z :=
  let! r := fs_call Vfs.sync in ret (match r with inl _ => 0 | inr error => fs_errno error end).

Definition sys_read_file (name_ptr name_len buf buf_len : Z) : S Z :=
  let! r := user_path name_ptr name_len ENAMETOOLONG ENOENT in
  match r with
  | inr e => ret e
  | inl name =>
      let cap := Z.min buf_len MAX_WRITE in
      let! r := fs_call (Vfs.file_size name) in
      match r with
      | inr _ => ret (errno ENOENT)
      | inl file_size =>
          if cap <? file_size then ret (errno ERANGE)
          else
            let! r := fs_call (Vfs.read_all name) in
            match r with
            | inr _ => ret (errno ENOENT)
            | inl data => if cap <? Z.of_nat (length data) then ret (errno ERANGE) else answer buf data
            end
      end
  end.

(** ** Strings and vectors of strings in user memory *)
Fixpoint copy_string_loop (fuel : nat) (ptr i : Z) (bytes : list Z) : S (str + Z) :=
  match fuel with
  | O => ret (inr (errno ENAMETOOLONG))
  | Datatypes.S fuel =>
      match checked_add ptr i with
      | None => ret (inr (errno EFAULT))
      | Some address =>
          let! o := get_user 1 address in
          match o with
          | None => ret (inr (errno EFAULT))
          | Some byte =>
              let b := byte !!! 0%nat in
              if b =? 0 then ret (match from_utf8 bytes with Some s => inl s | None => inr (errno EINVAL) end)
              else if i =? MAX_NAME then ret (inr (errno ENAMETOOLONG))
              else copy_string_loop fuel ptr (i + 1) (bytes ++ [b])
          end
      end
  end.
Definition copy_user_string (ptr : Z) : S (str + Z) := copy_string_loop 256 ptr 0 [].

Fixpoint copy_vector_loop (fuel : nat) (ptr i : Z) (values : list str) : S (list str + Z) :=
  match fuel with
  | O => ret (inr (errno E2BIG))
  | Datatypes.S fuel =>
      match checked_add ptr (i * 8) with
      | None => ret (inr (errno EFAULT))
      | Some address =>
          let! o := get_user 8 address in
          match o with
          | None => ret (inr (errno EFAULT))
          | Some raw =>
              let string_ptr := le_value raw in
              if string_ptr =? 0 then ret (inl values)
              else
                let! r := copy_user_string string_ptr in
                match r with
                | inr e => ret (inr e)
                | inl v => copy_vector_loop fuel ptr (i + 1) (values ++ [v])
                end
          end
      end
  end.
Definition copy_user_vector (ptr : Z) (fallback : option str) : S (list str + Z) :=
  if ptr =? 0 then ret (inl (option_list fallback)) else copy_vector_loop 32 ptr 0 [].

(** ** Processes *)
Definition spawn_errno (e : SpawnError) : Z :=
  match e with
  | NotFound => errno ENOENT
  | ElfError _ => errno ENOEXEC
  | NoMemory => errno ENOMEM
  | NoThread => errno EAGAIN
  end.

Definition sys_exec (path_ptr path_len argv_ptr env_ptr : Z) : S Z :=
  let! r := user_path path_ptr path_len ENAMETOOLONG ENOENT in
  match r with
  | inr e => ret e
  | inl path =>
      let! r := copy_user_vector argv_ptr (Some path) in
      match r with
      | inr e => ret e
      | inl argv =>
          let! r := copy_user_vector env_ptr None in
          match r with
          | inr e => ret e
          | inl env =>
              let! r := on_kern (catch (spawn_with thread_trampoline user_thread_main path argv env)) in
              ret (match r with inl pid => pid | inr e => spawn_errno e end)
          end
      end
  end.

Definition sys_kill (pid signal : Z) : S Outcome :=
  let! self := current_pid in
  if negb (pid =? self) then ret (Return (errno ESRCH))
  else if signal =? 0 then ret (Return 0)
  else if (signal =? 9) || (signal =? 15) then on_kern (exit_current (128 + signal)) ;;! ret Gone
  else ret (Return (errno ENOSYS)).

(** One turn of the loop of [sys_waitpid]. *)
Definition waitpid_turn (pid status_ptr options : Z) : S Outcome :=
  let! self := current_pid in
  let! procs := reads (λ s, PROCS (kern s)) in
  let '(r, procs) := take_child_exit_status self pid procs in
  modify (λ s, set_kern s (set_procs (kern s) procs)) ;;!
  match r with
  | None => ret (Return (errno ECHILD))
  | Some (Some (child_pid, status)) =>
      let! ok := if status_ptr =? 0 then ret true else put_user status_ptr (le_bytes 4 (wrap32 status)) in
      ret (Return (if (ok : bool) then child_pid else errno EFAULT))
  | Some None =>
      if negb (Z.land options 1 =? 0) then ret (Return 0)
      else on_cpu Scheduler.yield_now ;;! ret (WaitChild pid status_ptr options)
  end.

Definition sys_waitpid (pid status_ptr options : Z) : S Outcome :=
  if flag options (not64 1) then ret (Return (errno EINVAL))
  else
    let! ok := if status_ptr =? 0 then ret true else check_user status_ptr 4 true in
    if negb ok then ret (Return (errno EFAULT)) else waitpid_turn pid status_ptr options.

(** ** Listings *)
Definition join_lines (es : list str) : str :=
  foldl (λ out e, (if bool_decide (out = []) then out else out ++ [10]) ++ e) [] es.

(** A text of at most the asked length. *)
Definition answer_text (buf len : Z) (out : str) : S Z :=
  if Z.min len MAX_WRITE <? Z.of_nat (length out) then ret (errno ERANGE) else answer buf out.

Definition sys_list_files (buf len : Z) : S Z :=
  let! r := fs_call Vfs.list_files in
  answer_text buf len (join_lines (match r with inl es => es | inr _ => [] end)).

Definition process_row (p : ProcessInfo) : str :=
  pad_right 4 (fmt_dec (info_pid p)) ++ [SPACE] ++
  pad_right 8 (match info_status p with Some _ => lit "EXITED" | None => lit "RUNNING" end) ++ [SPACE] ++ info_name p ++ [10].

Definition sys_list_processes (buf len : Z) : S Z :=
  let! procs := reads (λ s, PROCS (kern s)) in
  answer_text buf len (lit "PID  STATE    NAME" ++ [10] ++ concat (List.map process_row (list_procs procs))).

(** The largest unit that the size reaches, with one decimal. *)
Fixpoint size_units (units : list (Z * Z)) (bytes : Z) : str :=
  match units with
  | [] => fmt_dec bytes ++ lit "B"
  | (unit, base) :: units =>
      if base <=? bytes then
        let tenths := FsProbe.sat_mul bytes 10 / base in
        fmt_dec (tenths / 10) ++ (if tenths mod 10 =? 0 then [] else DOT :: fmt_dec (tenths mod 10)) ++ [unit]
      else size_units units bytes
  end.
Definition format_lsblk_size : Z → str := size_units [(84, 2^40); (71, 2^30); (77, 2^20); (75, 2^10)].

Definition write_lsblk_row (name : str) (info : FsProbe.FsInfo) (mount tree : str) : str :=
  let fstype := match FsProbe.kind info with
                | FsProbe.TFat32 | FsProbe.Vfat => lit "vfat"
                | FsProbe.Unknown => []
                | other => FsProbe.fs_name other
                end in
  let avail := match FsProbe.available info with Some n => format_lsblk_size n | None => [] end in
  let used := match FsProbe.used_percent info with Some n => fmt_dec n ++ lit "%" | None => [] end in
  tree ++ join SPACE [pad_right 10 name; pad_right 6 fstype; pad_right 5 (FsProbe.version info); pad_right 12 (FsProbe.label info);
    pad_right 36 (FsProbe.uuid info); pad_left 7 avail; pad_left 6 used; mount] ++ [10].

Definition LAST_BRANCH : str := [0xe2; 0x94; 0x94; 0xe2; 0x94; 0x80].
Definition BRANCH : str := [0xe2; 0x94; 0x9c; 0xe2; 0x94; 0x80].

Fixpoint lsblk_parts (name : str) (device : Vfs.Dyn D) (parts : list Partition) : res Empty_set str :=
  match parts with
  | [] => Ok []
  | p :: parts =>
      let? row :=
        match PartitionDevice_new device (part_start_lba p) (part_sectors p) with
        | None => Ok []
        | Some view =>
            let? info := FsProbe.inspect view in
            let part_name := if starts_with (lit "nvme") name then name ++ lit "p" ++ fmt_dec (index p) else name ++ fmt_dec (index p) in
            Ok (write_lsblk_row part_name info [] (match parts with [] => LAST_BRANCH | _ => BRANCH end))
        end in
      let? rest := lsblk_parts name device parts in
      Ok (row ++ rest)
  end.

Fixpoint lsblk_rows (devices : list (RegisteredDevice Vfs.Handle)) (v : Vfs.VfsState D) : res Empty_set str :=
  match devices with
  | [] => Ok []
  | r :: devices =>
      let device := Vfs.get_device (reg_device r) (Vfs.store v) in
      let? info := FsProbe.inspect device in
      let mountpoint := default [] (Vfs.mountpoint_for_device (reg_name r) v) in
      let? parts :=
        match scan device with
        | Ok parts => lsblk_parts (reg_name r) device parts
        | Err _ => Ok []
        | Panic => Panic
        | Diverge => Diverge
        end in
      let? rest := lsblk_rows devices v in
      Ok (write_lsblk_row (reg_name r) info mountpoint [] ++ parts ++ rest)
  end.

Definition LSBLK_HEADER : str :=
  lit "NAME        FSTYPE FSVER LABEL        UUID                                 FSAVAIL FSUSE% MOUNTPOINTS" ++ [10].

Definition sys_list_block_devices (buf len : Z) : S Z :=
  let! s := get in
  let! rows := lift (lsblk_rows (DEVICES s) (Process.vfs (kern s))) in
  answer_text buf len (LSBLK_HEADER ++ rows).

Definition sys_mount (device_ptr mountpoint_ptr : Z) : S Z :=
  let! r := copy_user_string device_ptr in
  match r with
  | inr e => ret e
  | inl device_path =>
      let! r := copy_user_string mountpoint_ptr in
      match r with
      | inr e => ret e
      | inl mountpoint =>
          match strip_prefix (lit "/device/") device_path with
          | None => ret (errno ENODEV)
          | Some device_name =>
              if bool_decide (device_name = []) || contains SLASH device_name then ret (errno ENODEV)
              else
                let! devices := reads DEVICES in
                match find_device device_name devices with
                | None => ret (errno ENODEV)
                | Some device =>
                    let! r := fs_call (Vfs.mount_fat32_device mountpoint device_name device) in
                    ret (match r with inl _ => 0 | inr error => fs_errno error end)
                end
          end
      end
  end.

(** ** The dispatcher *)
Definition done (m : S Z) : S Outcome := let! r := m in ret (Return r).

Definition syscall_dispatch (f : SyscallFrame) : S Outcome :=
  let n := rax f in
  if n =? SYS_OPEN then done (sys_open (rdi f) (rsi f) (rdx f))
  else if n =? SYS_CLOSE then done (sys_close (rdi f))
  else if n =? SYS_READ then sys_read (rdi f) (rsi f) (rdx f)
  else if n =? SYS_WRITE then done (sys_write (rdi f) (rsi f) (rdx f))
  else if n =? SYS_LIST_FILES then done (sys_list_files (rdi f) (rsi f))
  else if n =? SYS_LIST_PROCESSES then done (sys_list_processes (rdi f) (rsi f))
  else if n =? SYS_LIST_BLOCK_DEVICES then done (sys_list_block_devices (rdi f) (rsi f))
  else if n =? SYS_MKDIR then done (sys_path_mutation (rdi f) (rsi f) true)
  else if n =? SYS_REMOVE then done (sys_path_mutation (rdi f) (rsi f) false)
  else if n =? SYS_SYNC then done sys_sync
  else if n =? SYS_MOUNT then done (sys_mount (rdi f) (rsi f))
  else if n =? SYS_PANIC then panic
  else if n =? SYS_READ_FILE then done (sys_read_file (rdi f) (rsi f) (rdx f) (r10 f))
  else if n =? SYS_UPTIME_MS then done (on_cpu Scheduler.uptime_ms)
  else if n =? SYS_SLEEP_MS then on_cpu (Scheduler.sleep_ms (rdi f)) ;;! ret (Later 0)
  else if n =? SYS_EXEC then done (sys_exec (rdi f) (rsi f) (rdx f) (r10 f))
  else if n =? SYS_WAIT4 then sys_waitpid (rdi f) (rsi f) (rdx f)
  else if n =? SYS_KILL then sys_kill (rdi f) (rsi f)
  else if n =? SYS_SCHED_YIELD then on_cpu Scheduler.yield_now ;;! ret (Later 0)
  else if n =? SYS_GETPID then done current_pid
  else if n =? SYS_EXIT then on_kern (exit_current (Z.land (rdi f) 0xff)) ;;! ret Gone
  else if n =? TEST_SYSCALL_NUM then
    modify (λ s, set_test s (Some (rdi f))) ;;! on_cpu Scheduler.exit ;;! ret Gone
  else ret (Return (errno ENOSYS)).

(** A call that has given up the processor, when its thread runs again. *)
Definition resume (o : Outcome) : S Outcome :=
  match o with
  | Later r => ret (Return r)
  | WaitTerminal buf n => terminal_read buf n
  | WaitChild pid status_ptr options => waitpid_turn pid status_ptr options
  | o => ret o
  end.
End Calls.
Arguments Sys : clear implicits.
End Syscall.
