(* ===== verification/SysFiles.v ===== *)
(** * The descriptor table

    Descriptor numbers are unique within a process, opening takes the least free
    one, and what one process does with its descriptors does not show in the
    lookups of another. *)
From stdpp Require Import base numbers list gmap sets.
From Stdlib Require Import ZArith Lia Bool.
From S2P Require Import Prelude Bytes Str Block Vfs Scheduler SchedInv Process Syscall.
Import Scheduler Process Syscall.

(** No process has two descriptors of the same number. *)
Definition fd_key (f : OpenFile) : Z * Z := (f_pid f, f_fd f).
Definition fds_ok (l : list OpenFile) : Prop := NoDup (List.map fd_key l).

Lemma is_fd_true q fd f : is_fd q fd f = true ↔ fd_key f = (q, fd).
Proof. unfold is_fd, fd_key. rewrite andb_true_iff, !Z.eqb_eq. split; [intros [-> ->]; done|by intros [= -> ->]]. Qed.

Lemma find_key q fd l f : List.find (is_fd q fd) l = Some f → f ∈ l ∧ fd_key f = (q, fd).
Proof. intros [H1 H2]%find_some. rewrite list_elem_of_In. split; [done|]. by apply is_fd_true. Qed.

Lemma key_unique l f g : fds_ok l → f ∈ l → g ∈ l → fd_key f = fd_key g → f = g.
Proof.
  intros Hn. unfold fds_ok in Hn. induction l as [|x l IH]; [by intros ?%elem_of_nil|].
  cbn [List.map] in Hn. apply NoDup_cons in Hn as [Hx Hn].
  assert (Hin : ∀ y, y ∈ l → fd_key y = fd_key x → False).
  { intros y Hy E. apply Hx. rewrite <- E. apply list_elem_of_In, in_map. by apply list_elem_of_In. }
  intros Hf Hg E. apply elem_of_cons in Hf as [->|Hf], Hg as [->|Hg]; [done| | |by apply IH].
  - exfalso. by apply (Hin g).
  - exfalso. by apply (Hin f).
Qed.

(** A lookup depends only on what is in the table. *)
Lemma find_iff l q fd f : fds_ok l → List.find (is_fd q fd) l = Some f ↔ f ∈ l ∧ fd_key f = (q, fd).
Proof.
  intros Hn. split; [apply find_key|]. intros [Hin Hk].
  destruct (List.find (is_fd q fd) l) as [g|] eqn:E.
  - apply find_key in E as [Hg Ek]. f_equal. apply (key_unique l); congruence.
  - exfalso. apply list_elem_of_In in Hin. apply (find_none _ _ E) in Hin.
    rewrite (proj2 (is_fd_true q fd f) Hk) in Hin. done.
Qed.

Lemma find_same l l' q fd : fds_ok l → fds_ok l' → (∀ f, f_pid f = q → f ∈ l' ↔ f ∈ l) →
  List.find (is_fd q fd) l' = List.find (is_fd q fd) l.
Proof.
  intros Hl Hl' Hs.
  assert (H : ∀ f, List.find (is_fd q fd) l' = Some f ↔ List.find (is_fd q fd) l = Some f).
  { intros f. rewrite !find_iff by done. split; intros [H1 H2]; (split; [|done]); apply Hs; try done; by injection H2. }
  destruct (List.find (is_fd q fd) l') as [f|] eqn:E; [symmetry; by apply H|].
  destruct (List.find (is_fd q fd) l) as [f|]; [|done]. by apply H.
Qed.

(** ** What a process may do to the table *)
Record own (p : Z) (l l' : list OpenFile) : Prop := {
  own_ok : fds_ok l → fds_ok l';
  own_other : fds_ok l → ∀ q fd, q ≠ p → List.find (is_fd q fd) l' = List.find (is_fd q fd) l
}.

Lemma own_refl p l : own p l l.
Proof. by split. Qed.

Lemma own_trans p l1 l2 l3 : own p l1 l2 → own p l2 l3 → own p l1 l3.
Proof. intros [H1 H2] [H3 H4]. split; [tauto|]. intros Hn q fd Hq. rewrite H4, H2 by tauto. done. Qed.

Lemma fds_ok_perm l l' : l ≡ₚ l' → fds_ok l → fds_ok l'.
Proof. intros Hp Hn. unfold fds_ok. by rewrite <- Hp. Qed.

Lemma own_from p l l' : (fds_ok l → fds_ok l') → (∀ f, f_pid f ≠ p → f ∈ l' ↔ f ∈ l) → own p l l'.
Proof. intros H1 H2. split; [done|]. intros Hn q fd Hq. apply find_same; [done|tauto|]. intros f <-. by apply H2. Qed.

(** [List.find] and [position] meet the same element. *)
Lemma position_find {A} (p : A → bool) l :
  match position p l with
  | Some i => ∃ x, l !! i = Some x ∧ List.find p l = Some x
  | None => List.find p l = None
  end.
Proof. induction l as [|x l IH]; [done|]. cbn. destruct (p x); [by exists x|]. destruct (position p l); [exact IH|exact IH]. Qed.

Lemma position_is_fd p fd l i : position (is_fd p fd) l = Some i → ∃ f, l !! i = Some f ∧ List.find (is_fd p fd) l = Some f ∧ fd_key f = (p, fd).
Proof.
  intros E. pose proof (position_find (is_fd p fd) l) as H. rewrite E in H. destruct H as (f & H1 & H2). exists f.
  split; [done|]. split; [done|]. apply (find_key _ _ _ _ H2).
Qed.

(** ** Closing *)
Lemma own_close p fd l i : position (is_fd p fd) l = Some i → own p l (swap_remove i l).
Proof.
  intros (f & Hf & _ & Hk)%position_is_fd. pose proof (swap_remove_perm i l f Hf) as Hp. apply own_from.
  - intros Hn. apply (fds_ok_perm _ _ Hp) in Hn. unfold fds_ok in *. cbn [List.map] in Hn. by apply NoDup_cons in Hn as [_ ?].
  - intros g Hg. generalize dependent (swap_remove i l). intros l' Hp. rewrite Hp, elem_of_cons. split; [by right|].
    intros [-> |]; [|done]. injection Hk as <- _. done.
Qed.

(** ** Moving the offset *)
Lemma map_key_insert l i f o : l !! i = Some f → List.map fd_key (<[i := with_offset f o]> l) = List.map fd_key l.
Proof.
  intros Hf. change (fd_key <$> <[i := with_offset f o]> l = fd_key <$> l). rewrite list_fmap_insert. apply list_insert_id.
  by rewrite list_lookup_fmap, Hf.
Qed.

Lemma own_seek p fd l i f o : l !! i = Some f → fd_key f = (p, fd) → own p l (<[i := with_offset f o]> l).
Proof.
  intros Hf Hk. apply own_from; [unfold fds_ok; by rewrite (map_key_insert l i f o Hf)|].
  intros g Hg. assert (Hp : f_pid f = p) by (by injection Hk). rewrite !list_elem_of_lookup. split; intros [j Hj]; exists j.
  - destruct (decide (i = j)) as [<-|Hne]; [|by rewrite list_lookup_insert_ne in Hj].
    rewrite list_lookup_insert_eq in Hj by (by eapply lookup_lt_Some). injection Hj as <-. cbn in Hg. done.
  - rewrite list_lookup_insert_ne; [done|]. intros <-. rewrite Hf in Hj. injection Hj as <-. done.
Qed.

(** ** Opening *)

(** The candidates of a process are more than its descriptors. *)
Lemma free_fd_exists p l : ∃ fd, List.find (λ fd, negb (existsb (is_fd p fd) l)) (seqZ 3 (Z.of_nat (length l) + 1)) = Some fd.
Proof.
  destruct (List.find _ _) as [fd|] eqn:E; [by exists fd|]. exfalso.
  assert (Hall : ∀ fd, fd ∈ seqZ 3 (Z.of_nat (length l) + 1) → fd ∈ List.map f_fd l).
  { intros fd Hfd. apply list_elem_of_In in Hfd. apply (find_none _ _ E) in Hfd. apply negb_false_iff, existsb_exists in Hfd as (f & Hin & Hk).
    apply is_fd_true in Hk. injection Hk as _ <-. apply list_elem_of_In. by apply in_map. }
  assert (Hs : seqZ 3 (Z.of_nat (length l) + 1) ⊆+ List.map f_fd l) by (apply NoDup_submseteq; [apply NoDup_seqZ|done]).
  apply submseteq_length in Hs. rewrite length_seqZ, length_map in Hs. lia.
Qed.

(** The least number from 3 on that the process does not use. *)
Lemma free_fd_spec p l : 3 ≤ free_fd p l ∧ List.find (is_fd p (free_fd p l)) l = None ∧
  ∀ fd, 3 ≤ fd < free_fd p l → is_Some (List.find (is_fd p fd) l).
Proof.
  unfold free_fd. destruct (free_fd_exists p l) as [fd E]. rewrite E. cbn [default]. revert E.
  assert (Hex : ∀ fd, existsb (is_fd p fd) l = true ↔ is_Some (List.find (is_fd p fd) l)).
  { intros x. split.
    - intros (f & Hf & Hk)%existsb_exists. destruct (List.find _ _) eqn:E; [done|]. by rewrite (find_none _ _ E f Hf) in Hk.
    - intros [f [Hf Hk]%find_some]. apply existsb_exists. by exists f. }
  generalize (Z.of_nat (length l) + 1) as n. intros n E.
  assert (Hgen : ∀ k a, List.find (λ fd, negb (existsb (is_fd p fd) l)) (seqZ a (Z.of_nat k)) = Some fd →
    a ≤ fd ∧ existsb (is_fd p fd) l = false ∧ ∀ x, a ≤ x < fd → existsb (is_fd p x) l = true).
  { induction k as [|k IH]; intros a; [done|]. rewrite seqZ_cons by lia. cbn [List.find].
    destruct (existsb (is_fd p a) l) eqn:Ea; cbn [negb].
    - replace (Z.pred (Z.of_nat (S k))) with (Z.of_nat k) by lia. intros (H1 & H2 & H3)%IH. split; [lia|]. split; [done|].
      intros x Hx. destruct (decide (x = a)) as [->|]; [done|]. apply H3. lia.
    - intros [= <-]. split; [lia|]. split; [done|]. intros; lia. }
  destruct (Z.lt_ge_cases n 0) as [Hn|Hn]; [by rewrite seqZ_nil in E by lia|].
  rewrite <- (Z2Nat.id n) in E by lia. apply Hgen in E as (H1 & H2 & H3). split; [done|]. split.
  - destruct (List.find (is_fd p fd) l) eqn:Ef; [|done]. by rewrite (proj2 (Hex fd)) in H2.
  - intros x Hx. apply Hex. by apply H3.
Qed.

Lemma own_open p l f : f_pid f = p → f_fd f = free_fd p l → own p l (l ++ [f]).
Proof.
  intros Hp Hfd. apply own_from.
  - intros Hn. apply (fds_ok_perm (f :: l)); [by rewrite Permutation_app_comm|]. unfold fds_ok. cbn [List.map].
    apply NoDup_cons. split; [|done]. intros Hin. apply list_elem_of_In, in_map_iff in Hin as (g & Hk & Hg).
    destruct (free_fd_spec p l) as (_ & E & _). apply (find_none _ _ E) in Hg.
    rewrite (proj2 (is_fd_true p (free_fd p l) g)) in Hg; [done|]. rewrite Hk. unfold fd_key. by rewrite Hp, Hfd.
  - intros g Hg. rewrite elem_of_app, list_elem_of_singleton. split; [|by left]. intros [| ->]; done.
Qed.

(** ** The streams of a process, and its end *)
Lemma fds_ok_filter (P : OpenFile → bool) l : fds_ok l → fds_ok (List.filter P l).
Proof.
  unfold fds_ok. induction l as [|f l IH]; [done|]. cbn. intros [Hf Hn]%NoDup_cons.
  destruct (P f); cbn; [|by apply IH]. apply NoDup_cons. split; [|by apply IH]. contradict Hf.
  apply list_elem_of_In, in_map_iff in Hf as (g & Hk & Hg). apply filter_In in Hg as [Hg _]. rewrite <- Hk.
  apply list_elem_of_In. by apply in_map.
Qed.

Lemma own_exit p l : own p l (close_process_files p l).
Proof.
  apply own_from; [apply fds_ok_filter|]. intros f Hf. unfold close_process_files.
  rewrite !list_elem_of_In, filter_In. split; [by intros [? _]|]. intros ?. split; [done|]. by apply negb_true_iff, Z.eqb_neq.
Qed.

Lemma own_start p l : own p l (init_process_files p l).
Proof.
  unfold init_process_files. apply own_from.
  - intros Hn. unfold fds_ok. rewrite map_app. apply NoDup_app. split; [by apply fds_ok_filter|]. split.
    + intros k Hk Hin. apply list_elem_of_In, in_map_iff in Hk as (f & <- & Hf). apply filter_In in Hf as [_ Hf].
      apply negb_true_iff, Z.eqb_neq in Hf. cbn [List.map fd_key f_pid f_fd] in Hin. unfold fd_key in Hin. set_solver.
    + cbn. repeat (apply NoDup_cons; split; [set_solver|]). apply NoDup_nil_2.
  - intros f Hf. rewrite elem_of_app, !list_elem_of_In, filter_In, negb_true_iff, Z.eqb_neq.
    split; [|by left]. intros [[? _]|Hin]; [done|]. exfalso. by destruct Hin as [<-|[<-|[<-|[]]]].
Qed.
