(* ===== verification/SysInv.v ===== *)
(** * What a system call may touch

    A call that returns to its caller has changed nothing of the kernel's threads
    and page tables, no descriptor of another process, and no byte of memory but
    the caller's own, in the buffer that the call names. *)
From stdpp Require Import base numbers list gmap sets.
From Stdlib Require Import ZArith Lia Bool.
From S2P Require Import Prelude Bytes Str Block Fat32 Vfs Mem Pmm Vmm VmmTables VmmUser Scheduler SchedInv Process Console Terminal.
From S2P Require Import Syscall SysFiles.
Import Vmm Scheduler Process Syscall.

(** ** Lines of the terminal *)
Definition LINE_MAX : Z := 4096.
Definition hist_ok (h : list (list Z)) : Prop := Forall (λ l, Z.of_nat (length l) < LINE_MAX) h.

Lemma bind_Ok {S E A B} (m : M S E A) (f : A → M S E B) s b s' : bind m f s = (Ok b, s') → ∃ a s1, m s = (Ok a, s1) ∧ f a s1 = (Ok b, s').
Proof. unfold bind. destruct (m s) as [[a|e| |] s1]; [|done..]. by exists a, s1. Qed.

(** A step of the editor keeps the history; what it returns satisfies [Q]. *)
Definition edits {A} (m : M Terminal.Term Empty_set A) (Q : A → Prop) : Prop :=
  ∀ t a t', hist_ok (Terminal.HISTORY t) → m t = (Ok a, t') → Terminal.HISTORY t' = Terminal.HISTORY t ∧ Q a.

Create HintDb edits.
Lemma edits_ret {A} (a : A) (Q : A → Prop) : Q a → edits (ret a) Q.
Proof. by intros ? ? ? ? ? [= <- <-]. Qed.
Lemma edits_bind {A B} (m : M Terminal.Term Empty_set A) (f : A → M Terminal.Term Empty_set B) (P : A → Prop) (Q : B → Prop) :
  edits m P → (∀ a, P a → edits (f a) Q) → edits (bind m f) Q.
Proof.
  intros Hm Hf t b t' Hh (a & t1 & E1 & E2)%bind_Ok. destruct (Hm _ _ _ Hh E1) as [H1 Pa].
  destruct (Hf a Pa t1 b t') as [H2 Qb]; [by rewrite H1|done|]. by rewrite H2.
Qed.
Lemma edits_write bs : edits (Terminal.console_write bs) (λ _, True).
Proof.
  intros t a t' _. unfold Terminal.console_write. destruct (Terminal.CONSOLE t) as [c|]; [|by intros [= <- <-]].
  destruct (Console.write_chars _ c) as [r c']. by intros [= -> <-].
Qed.
Lemma edits_byte : edits Terminal.next_byte (λ _, True).
Proof. intros t a t' _. unfold Terminal.next_byte. destruct (Terminal.input t); [done|]. by intros [= <- <-]. Qed.
#[export] Hint Resolve edits_ret edits_write edits_byte : edits.

(** Go through the steps of a computation of the terminal. *)
Ltac edit_steps :=
  repeat first
    [ eapply edits_bind; [solve [eauto with edits]|]; intros ? _
    | apply edits_ret; [] | case_match ]; eauto with edits.

Lemma edits_each {X} (xs : list X) f : (∀ x, edits (f x) (λ _, True)) → edits (mfor xs f) (λ _, True).
Proof. intros Hf. induction xs as [|x xs IH]; cbn [mfor]; [by apply edits_ret|]. by eapply edits_bind; [apply Hf|]. Qed.
Lemma edits_left n : edits (Terminal.cursor_left n) (λ _, True).
Proof. unfold Terminal.cursor_left. edit_steps. Qed.
#[export] Hint Resolve edits_left edits_each : edits.
Lemma edits_tail l from c : edits (Terminal.redraw_tail l from c) (λ _, True).
Proof. unfold Terminal.redraw_tail. edit_steps. Qed.
Lemma edits_escape : edits Terminal.decode_escape (λ _, True).
Proof. unfold Terminal.decode_escape. edit_steps. Qed.
#[export] Hint Resolve edits_tail edits_escape : edits.

Definition short (l : list Z) : Prop := Z.of_nat (length l) < LINE_MAX.
Definition edit_short (e : Terminal.Edit) : Prop := short (Terminal.line e).

Lemma edits_recall e pos l : short l → edits (Terminal.recall e pos l) edit_short.
Proof.
  intros Hl. unfold Terminal.recall. eapply (edits_bind _ _ (λ r, fst r = l)).
  - unfold Terminal.replace_line. edit_steps.
  - intros r ->. by apply edits_ret.
Qed.

Lemma short_entry t i : hist_ok (Terminal.HISTORY t) → short (Terminal.history_entry t i).
Proof.
  intros Hh. unfold Terminal.history_entry, short. rewrite list_lookup_total_alt.
  destruct (Terminal.HISTORY t !! Z.to_nat i) as [l|] eqn:E; [|done]. by apply (Forall_lookup_1 _ _ _ _ Hh E).
Qed.

Lemma edits_get {B} (f : Terminal.Term → M Terminal.Term Empty_set B) (Q : B → Prop) :
  (∀ t, hist_ok (Terminal.HISTORY t) → edits (f t) Q) → edits (bind get f) Q.
Proof. intros Hf t b t' Hh E. unfold bind, get in E. by apply (Hf t Hh t). Qed.

Lemma short_remove l i : short l → short (Terminal.remove_at l i).
Proof. unfold short, Terminal.remove_at. rewrite length_app, length_take, length_drop. lia. Qed.

Lemma edits_action e a : edit_short e → edits (Terminal.edit_action e a) edit_short.
Proof.
  intros He. destruct a; cbn [Terminal.edit_action].
  - apply edits_get. intros t Hh. pose proof (λ i, short_entry t i Hh) as Hs. edit_steps; by apply edits_recall.
  - apply edits_get. intros t Hh. pose proof (λ i, short_entry t i Hh) as Hs. edit_steps; by apply edits_recall.
  - edit_steps.
  - edit_steps.
  - edit_steps.
  - edit_steps.
  - edit_steps. unfold edit_short. by apply short_remove.
  - edit_steps.
Qed.

Lemma edits_turn max e : max ≤ LINE_MAX → edit_short e →
  edits (Terminal.edit_turn max e) (λ r, match r with inl e => edit_short e | inr l => Z.of_nat (length l) ≤ LINE_MAX end).
Proof.
  intros Hm He. unfold Terminal.edit_turn. eapply edits_bind; [apply edits_byte|]. intros b _.
  destruct (_ || _); [|destruct (b =? 27); [|destruct (_ || _)]].
  - edit_steps; unfold edit_short, short in He; [rewrite length_app; simpl|]; lia.
  - eapply edits_bind; [apply edits_escape|]. intros a _. eapply edits_bind; [by apply edits_action|]. intros e' He'. by apply edits_ret.
  - edit_steps. unfold edit_short. by apply short_remove.
  - destruct (Z.ltb_spec (Terminal.len (Terminal.line e) + 1) max); [|by apply edits_ret]. unfold Terminal.len in *.
    edit_steps; unfold edit_short, short; cbn [Terminal.line].
    + rewrite length_app. simpl. lia.
    + unfold Terminal.insert_at. rewrite length_app. cbn [length]. rewrite length_take, length_drop. lia.
Qed.

Lemma edits_loop max fuel : ∀ e, max ≤ LINE_MAX → edit_short e → edits (Terminal.edit_loop fuel max e) (λ l, Z.of_nat (length l) ≤ LINE_MAX).
Proof.
  induction fuel as [|fuel IH]; intros e Hm He; cbn [Terminal.edit_loop]; [by intros ? ? ?|].
  eapply edits_bind; [by apply edits_turn|]. intros [e'|l] Hr; [by apply IH|by apply edits_ret].
Qed.

(** A line read is no longer than the longest that can be asked for, nor is one
    that is remembered. *)
Lemma read_line_short max t l t' : max ≤ LINE_MAX → hist_ok (Terminal.HISTORY t) → Terminal.read_line max t = (Ok l, t') →
  Z.of_nat (length l) ≤ LINE_MAX ∧ hist_ok (Terminal.HISTORY t').
Proof.
  intros Hm Hh. unfold Terminal.read_line. destruct (max =? 0); [intros [= <- <-]; done|].
  intros (t1 & t2 & [= <- <-] & E)%bind_Ok. apply bind_Ok in E as (l1 & t3 & E1 & E).
  destruct (edits_loop max _ (Terminal.mkEdit [] 0 None) Hm ltac:(done) t l1 t3 Hh E1) as [Eh Hl].
  apply bind_Ok in E as (u & t4 & E2 & [= <- <-]). split; [done|]. destruct (1 <? Terminal.len l1); [|injection E2 as _ <-; by rewrite Eh].
  unfold Terminal.remember in E2. injection E2 as _ <-. rewrite Eh. case_bool_decide; [by rewrite Eh|]. cbn [Terminal.HISTORY].
  apply Forall_app. split.
  - destruct (_ =? _); [|done]. destruct (Terminal.HISTORY t); [done|]. by apply Forall_cons in Hh as [_ ?].
  - constructor; [|done]. rewrite length_take. unfold LINE_MAX in *. lia.
Qed.

(** ** Reads are no longer than asked for *)
Lemma read_loop_length {D} `{BlockDevice D} fs fuel : ∀ cluster ic steps wanted acc (st : FatState D) r st',
  Z.of_nat (length acc) ≤ wanted → read_loop (D:=D) fs fuel cluster ic steps wanted acc st = (Ok r, st') → Z.of_nat (length r) ≤ wanted.
Proof.
  induction fuel as [|fuel IH]; intros cluster ic steps wanted acc st r st' Ha E; cbn [read_loop] in E;
    (destruct (_ <? wanted) in E; [|by injection E as <- _]); [done|].
  destruct (_ <=? steps) in E; [done|]. apply bind_Ok in E as (data & s1 & _ & E). apply bind_Ok in E as (piece & s2 & E2 & E).
  apply bind_Ok in E as (c & s3 & _ & E). eapply IH; [|exact E]. injection E2 as E2 _.
  destruct (slice data ic _) as [p|] eqn:Es; [|done]. injection E2 as ->. apply length_slice in Es. rewrite length_app. lia.
Qed.

Lemma vfs_read_length {D} `{BlockDevice D} path offset n (st st' : Vfs.VfsState D) data : 0 ≤ n →
  Vfs.read_at path offset n st = (Ok data, st') → Z.of_nat (length data) ≤ n.
Proof.
  intros Hn E. unfold Vfs.read_at in E. apply bind_Ok in E as (p & s1 & _ & E). apply bind_Ok in E as ([[i mount] inner] & s2 & _ & E).
  destruct (Vfs.fs mount) as [|f dev hint inv].
  - apply bind_Ok in E as (o & s3 & _ & E). apply bind_Ok in E as (d & s4 & _ & E).
    destruct (_ <=? offset) in E; injection E as <- _; [cbn; lia|]. rewrite length_take, length_drop. lia.
  - unfold mmap_err, Vfs.on_fat in E. destruct (_ !! i) as [[? []]|] in E; try done.
    destruct (Fat32.read_at _ inner offset n _) as [r fst'] eqn:Er in E. destruct r as [d| | |]; try done. injection E as <- _.
    unfold Fat32.read_at in Er. apply bind_Ok in Er as ([entry cluster] & t1 & _ & Er). destruct (is_dir entry); [done|].
    destruct (_ || _) eqn:Eo in Er; [by injection Er as <- _|]. apply orb_false_iff in Eo as [Eo _]. apply Z.leb_gt in Eo.
    unfold read_from in Er. apply bind_Ok in Er as ([c steps] & t2 & _ & Er). apply read_loop_length in Er; [|cbn; lia]. lia.
Qed.

(** ** The judgement *)
Section Calls.
Context {D : Type} `{BlockDevice D}.
Implicit Types s : Sys D.

Definition self s : Z := current_id (sched (kern s)).
Definition files s : list OpenFile := OPEN_FILES (kern s).
Definition vmem s : memory := phys_mem (pst (memory_of s)).
Definition root s : Z := current_cr3 (memory_of s).

(** The page tables of the running process are well-formed, its pages are its
    own, and the remembered lines are not too long. *)
Definition good s : Prop :=
  (∃ pm, vm_inv (pst (memory_of s)) pm (root s) ∧ user_ok (vmem s) pm (root s)) ∧ hist_ok (Terminal.HISTORY (term s)).

(** Threads, timers, frames and page tables are as before; only bytes that the
    process may write itself, from [buf] on and at most [limit] of them, may
    differ. *)
Record confined (buf limit : Z) s s' : Prop := {
  cf_sched : sched (kern s') = set_vst (sched (kern s)) (set_pst (memory_of s) (set_phys_mem (pst (memory_of s)) (vmem s')));
  cf_look : ∀ v, look (vmem s') (root s) v = look (vmem s) (root s) v;
  cf_walk : ∀ write v, uwalk write (vmem s') (root s) v = uwalk write (vmem s) (root s) v;
  cf_out : ∀ x, (∀ k, 0 ≤ k < limit → uwalk true (vmem s) (root s) (buf + k) ≠ Some x) → read8 (vmem s') x = read8 (vmem s) x
}.

Record acted (buf limit : Z) s s' : Prop := {
  ac_self : self s' = self s;
  ac_files : own (self s) (files s) (files s');
  ac_mem : good s → good s' ∧ confined buf limit s s'
}.

(** Nothing of that changes. *)
Record quiet s s' : Prop := {
  q_sched : sched (kern s') = sched (kern s);
  q_files : files s' = files s;
  q_hist : Terminal.HISTORY (term s') = Terminal.HISTORY (term s)
}.

Lemma still_refl s : quiet s s.
Proof. done. Qed.
Lemma still_trans s1 s2 s3 : quiet s1 s2 → quiet s2 s3 → quiet s1 s3.
Proof. intros [] []. split; congruence. Qed.

Lemma set_mem_same (v : VState) : set_pst v (set_phys_mem (pst v) (phys_mem (pst v))) = v.
Proof. by destruct v as [[] ? ? ? ?]. Qed.
Lemma set_same (s : KState) : set_vst s (set_pst (vst s) (set_phys_mem (pst (vst s)) (phys_mem (pst (vst s))))) = s.
Proof. rewrite set_mem_same. by destruct s. Qed.

(** Files of the process may change, memory does not. *)
Lemma acted_files buf limit s s' : sched (kern s') = sched (kern s) → own (self s) (files s) (files s') →
  Terminal.HISTORY (term s') = Terminal.HISTORY (term s) → acted buf limit s s'.
Proof.
  intros Es Ho Eh. split; [unfold self; by rewrite Es|done|]. unfold good, vmem, root, memory_of. rewrite Eh.
  intros Hg. rewrite Es. split; [done|]. split; unfold vmem, root, memory_of; rewrite Es; [by rewrite set_same|done..].
Qed.

Lemma acted_quiet buf limit s s' : quiet s s' → acted buf limit s s'.
Proof. intros [E1 E2 E3]. apply acted_files; [done| |done]. rewrite E2. apply own_refl. Qed.

Lemma acted_trans buf limit s1 s2 s3 : acted buf limit s1 s2 → acted buf limit s2 s3 → acted buf limit s1 s3.
Proof.
  intros [A1 A2 A3] [B1 B2 B3]. split; [congruence|rewrite A1 in B2; by eapply own_trans|].
  intros Hg. destruct (A3 Hg) as [Hg2 [C1 C2 C3 C4]]. destruct (B3 Hg2) as [Hg3 [E1 E2 E3 E4]].
  assert (Er : root s2 = root s1) by (unfold root, memory_of; by rewrite C1).
  rewrite Er in *. split; [done|]. split.
  - rewrite E1. unfold memory_of. rewrite C1. done.
  - intros v. by rewrite E2, C2.
  - intros w v. by rewrite E3, C3.
  - intros x Hx. rewrite E4, C4; [done|done|]. intros k Hk. rewrite C3. by apply Hx.
Qed.

Lemma acted_mono buf limit limit' s s' : limit ≤ limit' → acted buf limit s s' → acted buf limit' s s'.
Proof.
  intros Hl [A1 A2 A3]. split; [done..|]. intros Hg. destruct (A3 Hg) as [Hg2 [C1 C2 C3 C4]]. split; [done|]. split; [done..|].
  intros x Hx. apply C4. intros k Hk. apply Hx. lia.
Qed.

(** Every run of [m] that ends with a value of [P] acts within the buffer. *)
Definition does (buf limit : Z) {A} (m : M (Sys D) Empty_set A) (P : A → Prop) : Prop :=
  ∀ s a s', m s = (Ok a, s') → P a → acted buf limit s s'.

Lemma does_seq buf limit {A B} (m : M (Sys D) Empty_set A) (f : A → M (Sys D) Empty_set B) P :
  does buf limit m (λ _, True) → (∀ a, does buf limit (f a) P) → does buf limit (bind m f) P.
Proof. intros Hm Hf s b s' (a & s1 & E1 & E2)%bind_Ok Pb. eapply acted_trans; [by eapply Hm|by eapply Hf]. Qed.

(** ** The quiet parts *)
Definition silent {A} (m : M (Sys D) Empty_set A) : Prop := ∀ s a s', m s = (Ok a, s') → quiet s s'.

Lemma does_quiet buf limit {A} (m : M (Sys D) Empty_set A) P : silent m → does buf limit m P.
Proof. intros Hm s a s' E _. eapply acted_quiet, Hm, E. Qed.

Lemma silent_ret {A} (a : A) : silent (ret a).
Proof. by intros ? ? ? [= <- <-]. Qed.
Lemma silent_bind {A B} (m : M (Sys D) Empty_set A) (f : A → M (Sys D) Empty_set B) :
  silent m → (∀ a, silent (f a)) → silent (bind m f).
Proof. intros Hm Hf s b s' (a & s1 & E1 & E2)%bind_Ok. eapply still_trans; [by eapply Hm|by eapply Hf]. Qed.
Lemma silent_reads {A} (f : Sys D → A) : silent (reads f).
Proof. by intros ? ? ? [= <- <-]. Qed.
Lemma silent_get : silent get.
Proof. by intros ? ? ? [= <- <-]. Qed.
Lemma silent_lift {A} (r : res Empty_set A) : silent (lift r).
Proof. by intros ? ? ? [= _ <-]. Qed.
Lemma silent_get_user n src : silent (get_user n src).
Proof. by intros ? ? ? [= _ <-]. Qed.
Lemma silent_check_user addr len w : silent (check_user addr len w).
Proof. by intros ? ? ? [= _ <-]. Qed.
Lemma silent_fs_call {A} (m : M (Vfs.VfsState D) Vfs.FsError A) : silent (fs_call m).
Proof.
  intros s r s'. unfold fs_call, on_kern, catch, on_vfs. destruct (m (Process.vfs (kern s))) as [[a|e| |] v]; by intros [= _ <-].
Qed.
Lemma silent_write bs : silent (on_term (Terminal.console_write bs)).
Proof.
  intros s a s'. unfold on_term, Terminal.console_write. destruct (Terminal.CONSOLE (term s)) as [c|]; [|by intros [= _ <-]].
  destruct (Console.write_chars _ c) as [r c']. by intros [= _ <-].
Qed.
Lemma silent_uptime : silent (on_cpu uptime_ms).
Proof.
  intros s a s'. unfold on_cpu, on_kern, on_sched, uptime_ms. destruct (HZ _ =? 0); by intros [= _ <-].
Qed.
End Calls.
Create HintDb sys.
#[export] Hint Resolve silent_ret silent_reads silent_get silent_lift silent_get_user silent_check_user silent_fs_call silent_write silent_uptime : sys.

(** Go through the steps of a call. *)
Ltac silent_steps := repeat first [ apply silent_bind; [solve [eauto with sys]|]; intros ? | case_match ]; eauto with sys.
Ltac does_steps :=
  repeat first
    [ solve [eauto with sys]
    | apply does_seq; [first [solve [eauto with sys]|apply does_quiet; solve [eauto with sys]]|]; intros ?
    | case_match ]; try solve [apply does_quiet; eauto with sys | eauto with sys].

Section Handlers.
Context {D : Type} `{BlockDevice D}.
Context (has_rdrand : bool) (rdrand : nat → option Z) (rdtsc : nat → Z) (tramp main : Z).
Implicit Types s : Sys D.

Lemma silent_pid : silent (current_pid (D:=D)).
Proof. apply silent_reads. Qed.
Lemma silent_files : silent (open_files (D:=D)).
Proof. apply silent_reads. Qed.
#[local] Hint Resolve silent_pid silent_files : sys.

Lemma silent_user_path ptr len e1 e2 : silent (user_path (D:=D) ptr len e1 e2).
Proof. unfold user_path. silent_steps. Qed.
Lemma silent_string fuel : ∀ ptr i bytes, silent (copy_string_loop (D:=D) fuel ptr i bytes).
Proof. induction fuel as [|fuel IH]; intros; cbn [copy_string_loop]; silent_steps. Qed.
Lemma silent_vector fuel : ∀ ptr i vs, silent (copy_vector_loop (D:=D) fuel ptr i vs).
Proof.
  induction fuel as [|fuel IH]; intros; cbn [copy_vector_loop]; silent_steps.
  apply silent_bind; [apply silent_string|]. intros [v|e]; silent_steps.
Qed.
Lemma silent_user_vector ptr fb : silent (copy_user_vector (D:=D) ptr fb).
Proof. unfold copy_user_vector. case_match; [apply silent_ret|apply silent_vector]. Qed.
Lemma silent_user_string ptr : silent (copy_user_string (D:=D) ptr).
Proof. apply silent_string. Qed.
#[local] Hint Resolve silent_user_path silent_user_vector silent_user_string : sys.

Lemma silent_tries n : silent (rdrand_tries (D:=D) rdrand n).
Proof.
  induction n as [|n IH]; cbn [rdrand_tries]; [apply silent_ret|]. intros s a s'. destruct (rdrand (clock s)); [by intros [= _ <-]|].
  intros E. eapply still_trans; [|by eapply IH]. done.
Qed.
#[local] Hint Resolve silent_tries : sys.
Lemma silent_word : silent (urandom_word (D:=D) has_rdrand rdrand rdtsc).
Proof.
  unfold urandom_word. apply silent_bind; [case_match; eauto with sys|]. intros [v|]; [apply silent_ret|].
  apply silent_bind; [apply silent_reads|]. intros old. apply silent_bind; [silent_steps|]. by intros v s a s' [= _ <-].
Qed.
Lemma silent_random n : silent (random_bytes (D:=D) has_rdrand rdrand rdtsc n) ∧
  ∀ s a s', random_bytes (D:=D) has_rdrand rdrand rdtsc n s = (Ok a, s') → length a = (8 * n)%nat.
Proof.
  induction n as [|n [IH1 IH2]]; cbn [random_bytes]; [split; [apply silent_ret|by intros ? ? ? [= <- _]]|]. split.
  - apply silent_bind; [apply silent_word|]. intros w. apply silent_bind; [apply IH1|]. intros; apply silent_ret.
  - intros s a s' (w & s1 & _ & (rest & s2 & E & [= <- _])%bind_Ok)%bind_Ok. change (length (le_bytes 8 w ++ rest) = (8 * S n)%nat). rewrite length_app, length_le_bytes, (IH2 _ _ _ E). lia.
Qed.
Lemma silent_urandom n : silent (fill_urandom (D:=D) has_rdrand rdrand rdtsc n).
Proof. unfold fill_urandom. apply silent_bind; [apply silent_random|]. intros; apply silent_ret. Qed.
#[local] Hint Resolve silent_urandom : sys.
Lemma urandom_length n s a s' : fill_urandom (D:=D) has_rdrand rdrand rdtsc n s = (Ok a, s') → 0 ≤ n → Z.of_nat (length a) = n.
Proof.
  intros (b & s1 & E & [= <- _])%bind_Ok Hn. apply silent_random in E. rewrite length_take, E. Z.div_mod_to_equations. lia.
Qed.

(** ** Copies to the caller *)
Lemma put_user_run buf bytes s ok s' : put_user (D:=D) buf bytes s = (Ok ok, s') →
  ∃ v, copy_to_user buf bytes (memory_of s) = (Ok ok, v) ∧ s' = set_kern s (set_sched (kern s) (set_vst (sched (kern s)) v)).
Proof.
  unfold put_user, on_cpu, on_kern, on_sched, on_vmm, memory_of. destruct (copy_to_user buf bytes _) as [[b|[]| |] v]; [|done..].
  intros [= <- <-]. by exists v.
Qed.

Lemma does_put buf limit bytes P : 0 ≤ buf ≤ u64_max → Z.of_nat (length bytes) ≤ limit → does buf limit (put_user (D:=D) buf bytes) P.
Proof.
  intros Hb Hl s ok s' (v & E & ->)%put_user_run _. apply (acted_mono buf (Z.of_nat (length bytes))); [done|].
  split; [done|apply own_refl|]. intros [(pm & Hi & Hu) Hh].
  destruct (copy_to_user_run (memory_of s) pm buf bytes Hi Hu Hb) as [[E' _]|(p' & E' & _ & Hc & Hi' & Hu' & Hlk & Hw)];
    rewrite E in E'; injection E' as -> ->.
  - split; [by split; [exists pm|]|]. split; try done. unfold vmem. cbn. by rewrite set_mem_same.
  - split; [by split; [exists pm|]|]. split; try done; [|apply Hc]. unfold vmem. cbn. do 2 f_equal. apply (cp_state _ _ _ _ _ Hc).
Qed.
#[local] Hint Resolve does_put : sys.

Lemma does_answer buf limit bytes P : 0 ≤ buf ≤ u64_max → Z.of_nat (length bytes) ≤ limit → does buf limit (answer (D:=D) buf bytes) P.
Proof. intros. unfold answer. does_steps. Qed.
#[local] Hint Resolve does_answer : sys.

Lemma does_text buf len out P : 0 ≤ buf ≤ u64_max → does buf (Z.min len MAX_WRITE) (answer_text (D:=D) buf len out) P.
Proof. intros Hb. unfold answer_text. destruct (Z.ltb_spec (Z.min len MAX_WRITE) (Z.of_nat (length out))); does_steps. Qed.
#[local] Hint Resolve does_text : sys.

(** ** Descriptors *)
Lemma does_push buf limit kind path offset flags append P : does buf limit (push_file (D:=D) kind path offset flags append) P.
Proof.
  intros s fd s' E _. unfold push_file in E.
  apply bind_Ok in E as (p & s1 & [= <- <-] & E). apply bind_Ok in E as (l & s1 & [= <- <-] & E).
  apply bind_Ok in E as (u & s1 & [= _ <-] & [= _ <-]). apply acted_files; [done| |done]. by apply own_open.
Qed.
#[local] Hint Resolve does_push : sys.

Lemma does_close buf limit fd P : does buf limit (sys_close (D:=D) fd) P.
Proof.
  intros s r s' E _. unfold sys_close in E.
  apply bind_Ok in E as (p & s1 & [= <- <-] & E). apply bind_Ok in E as (l & s1 & [= <- <-] & E).
  destruct (position _ _) as [i|] eqn:Ei; [|injection E as _ <-; by apply acted_quiet].
  apply bind_Ok in E as (u & s1 & [= _ <-] & [= _ <-]). apply acted_files; [done| |done]. by apply (own_close _ fd).
Qed.

(** Setting the offset of a descriptor that is still in its place. *)
Lemma acted_seek buf limit p fd s s1 i f o : acted buf limit s s1 → files s1 = files s → p = self s →
  files s !! i = Some f → fd_key f = (p, fd) → acted buf limit s (set_open_files s1 (<[i := with_offset f o]> (files s))).
Proof.
  intros Ha Ef -> Hf Hk. eapply acted_trans; [exact Ha|]. apply acted_files; [done| |done]. rewrite (ac_self _ _ _ _ Ha), Ef. by eapply own_seek.
Qed.

Lemma put_user_files buf bytes s ok s' : put_user (D:=D) buf bytes s = (Ok ok, s') → files s' = files s.
Proof. by intros (v & _ & ->)%put_user_run. Qed.

Lemma fs_call_inl {A} (m : M (Vfs.VfsState D) Vfs.FsError A) s a s' : fs_call m s = (Ok (inl a), s') →
  ∃ v, m (Process.vfs (kern s)) = (Ok a, v) ∧ s' = set_kern s (set_vfs (kern s) v).
Proof.
  unfold fs_call, on_kern, catch, on_vfs. destruct (m (Process.vfs (kern s))) as [[b|e| |] v]; try done. intros [= -> <-]. by exists v.
Qed.

Lemma does_file_read buf n p fd s r s' : 0 ≤ buf ≤ u64_max → 0 ≤ n → p = self s →
  file_read (D:=D) p fd buf n s = (Ok r, s') → acted buf n s s'.
Proof.
  intros Hb Hn Hp E. unfold file_read in E. apply bind_Ok in E as (l & s1 & [= <- <-] & E).
  destruct (position _ _) as [i|] eqn:Ei; [|injection E as _ <-; by apply acted_quiet].
  apply position_is_fd in Ei as (f & Hf & Hfind & Hk). rewrite Hfind in E.
  apply bind_Ok in E as (o & s1 & E1 & E). pose proof (silent_fs_call _ _ _ _ E1) as Hq.
  destruct o as [data|e]; [|injection E as _ <-; by apply acted_quiet].
  assert (Hlen : Z.of_nat (length data) ≤ n) by (apply fs_call_inl in E1 as (v & E1 & _); by eapply vfs_read_length).
  apply bind_Ok in E as (ok & s2 & E2 & E). pose proof (does_put buf n data (λ _, True) Hb Hlen _ _ _ E2 I) as Ha.
  assert (Ha2 : acted buf n s s2) by (eapply acted_trans; [by apply acted_quiet|done]).
  destruct ok; cbn [negb] in E; [|by injection E as _ <-].
  apply bind_Ok in E as (off & s3 & E3 & E). injection E3 as E3 <-. apply bind_Ok in E as (u & s4 & [= _ <-] & [= _ <-]).
  apply (acted_seek buf n p fd s s2); try done. by rewrite (put_user_files _ _ _ _ _ E2), (q_files _ _ Hq).
Qed.

Lemma does_file_write buf limit p fd f0 data s r s' : p = self s → file_write (D:=D) p fd f0 data s = (Ok r, s') → acted buf limit s s'.
Proof.
  intros Hp E. unfold file_write in E. apply bind_Ok in E as (l & s1 & [= <- <-] & E).
  destruct (position _ _) as [i|] eqn:Ei; [|injection E as _ <-; by apply acted_quiet].
  apply position_is_fd in Ei as (f & Hf & Hfind & Hk). rewrite Hfind in E.
  apply bind_Ok in E as (o & s1 & E1 & E).
  assert (Hq : quiet s s1) by (destruct (f_append f0); [by eapply silent_fs_call|by injection E1 as _ <-]).
  destruct o as [offset|e]; [|injection E as _ <-; by apply acted_quiet].
  apply bind_Ok in E as (o & s2 & E2 & E). apply silent_fs_call in E2. pose proof (still_trans _ _ _ Hq E2) as Hq2.
  destruct o as [written|e]; [|injection E as _ <-; by apply acted_quiet].
  apply bind_Ok in E as (off & s3 & E3 & E). injection E3 as E3 <-. apply bind_Ok in E as (u & s4 & [= _ <-] & [= _ <-]).
  apply (acted_seek buf limit p fd s s2); try done; [by apply acted_quiet|apply Hq2].
Qed.

(** ** The handlers *)
Definition is_return (o : Outcome) : Prop := match o with Return _ => True | _ => False end.
#[global] Instance is_return_dec o : Decision (is_return o).
Proof. destruct o; apply _. Defined.

Lemma does_done buf limit (m : M (Sys D) Empty_set Z) : does buf limit m (λ _, True) → does buf limit (done m) is_return.
Proof. intros Hm. unfold done. apply does_seq; [done|]. intros. apply does_quiet, silent_ret. Qed.

Lemma does_open buf limit ptr len flags P : does buf limit (sys_open (D:=D) ptr len flags) P.
Proof.
  unfold sys_open, open_file. assert (Hsz : ∀ path, silent (open_size (D:=D) path flags)) by (intros; unfold open_size; silent_steps).
  does_steps.
Qed.

Lemma does_write buf limit fd ubuf len s r s' : sys_write (D:=D) fd ubuf len s = (Ok r, s') → acted buf limit s s'.
Proof.
  unfold sys_write. destruct (_ =? 0); [intros [= _ <-]; by apply acted_quiet|].
  intros (p & s1 & [= <- <-] & E)%bind_Ok. apply bind_Ok in E as (l & s1 & [= <- <-] & E).
  destruct (List.find _ _) as [f|]; [|injection E as _ <-; by apply acted_quiet].
  destruct (negb _); [injection E as _ <-; by apply acted_quiet|].
  apply bind_Ok in E as (o & s1 & [= E1 <-] & E). destruct o as [data|]; [|injection E as _ <-; by apply acted_quiet].
  destruct (f_kind f); try (injection E as _ <-; by apply acted_quiet); try by eapply does_file_write.
  all: apply bind_Ok in E as (u & s2 & E2 & [= _ <-]); by eapply acted_quiet, silent_write.
Qed.

Lemma does_terminal buf n s v s' : 0 ≤ buf ≤ u64_max → n ≤ LINE_MAX → terminal_read (D:=D) buf n s = (Ok (Return v), s') → acted buf LINE_MAX s s'.
Proof.
  intros Hb Hn. unfold terminal_read. intros (busy & s1 & [= <- <-] & E)%bind_Ok. destruct (TERMINAL_READER s).
  { by apply bind_Ok in E as (u & s1 & _ & [=]). }
  apply bind_Ok in E as (u & s1 & [= _ <-] & E). apply bind_Ok in E as (line & s2 & E2 & E).
  apply bind_Ok in E as (u' & s3 & [= _ <-] & E). apply bind_Ok in E as (r & s4 & E4 & [= _ <-]).
  unfold on_term in E2. cbn in E2. destruct (Terminal.read_line n (term s)) as [rl t'] eqn:El. injection E2 as -> <-.
  set (s2 := set_reader _ false) in E4. assert (Hs2 : sched (kern s2) = sched (kern s) ∧ files s2 = files s) by done.
  destruct Hs2 as [Es Ef]. unfold answer in E4. apply bind_Ok in E4 as (ok & s5 & E5 & [= _ <-]).
  assert (Hfs : files s5 = files s) by (by rewrite (put_user_files _ _ _ _ _ E5)).
  pose proof E5 as (w & _ & Es5)%put_user_run.
  split; [by rewrite Es5|rewrite Hfs; apply own_refl|]. intros [Hm Hh].
  destruct (read_line_short n (term s) line t' Hn Hh El) as [Hl Hh'].
  assert (Hg2 : good s2) by (split; [exact Hm|exact Hh']).
  destruct (ac_mem _ _ _ _ (does_put buf LINE_MAX line (λ _, True) Hb Hl _ _ _ E5 I) Hg2) as [Hg5 [C1 C2 C3 C4]].
  split; [done|]. split; [exact C1|exact C2|exact C3|exact C4].
Qed.

(** Where the bytes read by a descriptor go. *)
Definition read_limit s (fd len : Z) : Z :=
  match List.find (is_fd (self s) fd) (files s) with
  | Some f => match f_kind f with Stdin | Console => LINE_MAX | _ => Z.min len MAX_WRITE end
  | None => 0
  end.

Lemma does_read fd buf len s v s' : 0 ≤ buf ≤ u64_max → 0 ≤ len →
  sys_read (D:=D) has_rdrand rdrand rdtsc fd buf len s = (Ok (Return v), s') → acted buf (read_limit s fd len) s s'.
Proof.
  intros Hb Hlen. unfold sys_read. destruct (Z.eqb_spec (Z.min len MAX_WRITE) 0); [intros [= _ <-]; by apply acted_quiet|].
  intros (p & s1 & [= <- <-] & E)%bind_Ok. apply bind_Ok in E as (l & s1 & [= <- <-] & E). unfold read_limit, self, files.
  destruct (List.find _ _) as [f|]; [|injection E as _ <-; by apply acted_quiet].
  destruct (negb _); [injection E as _ <-; by apply acted_quiet|].
  apply bind_Ok in E as (ok & s1 & [= E1 <-] & E). destruct (negb ok); [injection E as _ <-; by apply acted_quiet|].
  assert (Hn : 0 ≤ Z.min len MAX_WRITE ≤ LINE_MAX) by (unfold MAX_WRITE, LINE_MAX; lia).
  destruct (f_kind f); try (injection E as _ <-; by apply acted_quiet); try by (eapply does_terminal; [done| |exact E]; lia).
  - apply bind_Ok in E as (r & s2 & E2 & [= _ <-]). eapply (does_answer buf _ _ (λ _, True)); [done| |exact E2|done]. rewrite length_replicate. lia.
  - apply bind_Ok in E as (data & s2 & E2 & E). apply bind_Ok in E as (r & s3 & E3 & [= _ <-]).
    eapply acted_trans; [by eapply acted_quiet, silent_urandom|].
    eapply (does_answer buf _ _ (λ _, True)); [done| |exact E3|done]. rewrite (urandom_length _ _ _ _ E2) by lia. done.
  - apply bind_Ok in E as (r & s2 & E2 & [= _ <-]). eapply does_file_read; [done|lia| |exact E2]. done.
Qed.

Lemma does_waitpid_turn pid ptr options : 0 ≤ ptr ≤ u64_max →
  does ptr (if ptr =? 0 then 0 else 4) (waitpid_turn (D:=D) pid ptr options) is_return.
Proof.
  intros Hp. unfold waitpid_turn. apply does_seq; [apply does_quiet, silent_pid|]. intros p.
  apply does_seq; [apply does_quiet, silent_reads|]. intros procs. destruct (take_child_exit_status p pid procs) as [r procs'].
  apply does_seq. { intros s u s' [= _ <-] _. by apply acted_quiet. } intros u.
  destruct r as [[[child st]|]|]; [|destruct (negb _)|]; try (apply does_quiet, silent_ret).
  - apply does_seq; [|intros; apply does_quiet, silent_ret]. destruct (ptr =? 0); [apply does_quiet, silent_ret|].
    apply does_put; [done|]. by rewrite length_le_bytes.
  - intros s o s' (w & s1 & _ & [= <- _])%bind_Ok Hr. done.
Qed.

Lemma does_waitpid pid ptr options : 0 ≤ ptr ≤ u64_max →
  does ptr (if ptr =? 0 then 0 else 4) (sys_waitpid (D:=D) pid ptr options) is_return.
Proof.
  intros Hp. unfold sys_waitpid. destruct (flag _ _); [apply does_quiet, silent_ret|].
  apply does_seq; [apply does_quiet; case_match; eauto with sys|]. intros ok. destruct (negb ok); [apply does_quiet, silent_ret|].
  by apply does_waitpid_turn.
Qed.

Lemma does_read_file ptr len buf cap P : 0 ≤ buf ≤ u64_max →
  does buf (Z.min cap MAX_WRITE) (sys_read_file (D:=D) ptr len buf cap) P.
Proof.
  intros Hb. unfold sys_read_file. does_steps.
Qed.

Lemma does_mount buf limit p1 p2 P : does buf limit (sys_mount (D:=D) p1 p2) P.
Proof. unfold sys_mount. apply does_quiet. silent_steps. Qed.

Lemma does_kill buf limit p sig : does buf limit (sys_kill (D:=D) p sig) is_return.
Proof.
  unfold sys_kill. does_steps. intros s o s' (u & s1 & _ & [= <- _])%bind_Ok Hr. done.
Qed.
End Handlers.
