(* ===== verification/SysSafe.v ===== *)
(** * Calls do not leave their process

    The two theorems on everything [syscall_dispatch] may do: where a call that
    returns has written, and whose descriptors a call has changed. *)
From stdpp Require Import base numbers list gmap sets.
From Stdlib Require Import ZArith Lia Bool.
From S2P Require Import Prelude Bytes Str Block Fat32 Vfs Mem Pmm Vmm VmmTables VmmUser Elf Scheduler SchedInv Process Console Terminal.
From S2P Require Import Syscall SysFiles SysInv.
Import Vmm Scheduler Process Syscall.

(** The registers hold 64-bit values. *)
Definition u64 (x : Z) : Prop := 0 ≤ x ≤ u64_max.
Definition regs_ok (f : SyscallFrame) : Prop := u64 (rdi f) ∧ u64 (rsi f) ∧ u64 (rdx f) ∧ u64 (r10 f).

(** Decide which call it is. *)
Ltac dispatch_cases := repeat match goal with
  | |- context [?n =? ?c] => destruct (Z.eqb_spec n c) as [->|] end.

Section Safe.
Context {D : Type} `{BlockDevice D}.
Context (has_rdrand : bool) (rdrand : nat → option Z) (rdtsc : nat → Z) (tramp main : Z).
Implicit Types s : Sys D.
Notation dispatch := (syscall_dispatch has_rdrand rdrand rdtsc tramp main).

(** The buffer that a call names for its results, and its size. *)
Definition buffer (f : SyscallFrame) s : Z * Z :=
  let n := rax f in
  if n =? SYS_READ then (rsi f, read_limit s (rdi f) (rdx f))
  else if (n =? SYS_LIST_FILES) || (n =? SYS_LIST_PROCESSES) || (n =? SYS_LIST_BLOCK_DEVICES) then (rdi f, Z.min (rsi f) MAX_WRITE)
  else if n =? SYS_READ_FILE then (rdx f, Z.min (r10 f) MAX_WRITE)
  else if n =? SYS_WAIT4 then (rsi f, if rsi f =? 0 then 0 else 4)
  else (0, 0).

Lemma does_sys_sync buf limit P : does buf limit (sys_sync (D:=D)) P.
Proof. unfold sys_sync. does_steps. Qed.
Lemma does_mutation buf limit p n mk P : does buf limit (sys_path_mutation (D:=D) p n mk) P.
Proof. pose proof (silent_user_path (D:=D)). unfold sys_path_mutation. does_steps. Qed.
Lemma does_list_files buf len P : u64 buf → does buf (Z.min len MAX_WRITE) (sys_list_files (D:=D) buf len) P.
Proof. intros. unfold sys_list_files. apply does_seq; [apply does_quiet, silent_fs_call|]. intros. by apply does_text. Qed.
Lemma does_list_processes buf len P : u64 buf → does buf (Z.min len MAX_WRITE) (sys_list_processes (D:=D) buf len) P.
Proof. intros. unfold sys_list_processes. does_steps. by apply does_text. Qed.
Lemma does_list_devices buf len P : u64 buf → does buf (Z.min len MAX_WRITE) (sys_list_block_devices (D:=D) buf len) P.
Proof. intros. unfold sys_list_block_devices. does_steps. by apply does_text. Qed.

Lemma does_switch buf limit (m : M (Sys D) Empty_set unit) o : ¬ is_return o → does buf limit (m ;;! ret o) is_return.
Proof. intros Ho s o' s' (u & s1 & _ & [= <- _])%bind_Ok Hr. done. Qed.

Lemma dispatch_acts f s v s' : regs_ok f → rax f ≠ SYS_EXEC → dispatch f s = (Ok (Return v), s') →
  acted (fst (buffer f s)) (snd (buffer f s)) s s'.
Proof.
  intros (H1 & H2 & H3 & H4) Hx. unfold syscall_dispatch.
  assert (Hdo : ∀ buf limit (m : M (Sys D) Empty_set Outcome), does buf limit m is_return → m s = (Ok (Return v), s') → acted buf limit s s').
  { intros buf limit m Hm E. by apply (Hm _ _ _ E). }
  assert (Hbuf : ∀ n, rax f = n → buffer f s = buffer (mkFrame n (rdi f) (rsi f) (rdx f) (r10 f)) s) by (by intros n <-; destruct f).
  repeat match goal with |- (if rax f =? ?c then _ else _) _ = _ → _ =>
    destruct (Z.eqb_spec (rax f) c) as [En|]; [try rewrite (Hbuf _ En)|] end; try done; try by apply does_read, H3.
  all: apply Hdo; try apply does_done;
    first [apply does_open|apply does_close|intros ? ? ? E _; by eapply does_write|by apply does_list_files|by apply does_list_processes
      |by apply does_list_devices|apply does_mutation|apply does_sys_sync|apply does_mount|by apply does_read_file|by apply does_waitpid
      |apply does_kill|apply does_quiet, silent_uptime|apply does_quiet, silent_pid|apply does_quiet, silent_ret|apply does_switch; by intros []].
Qed.


(** ** Starting a program, and leaving the processor *)
Lemma on_sched_files {E A} (m : M KState Empty_set A) (k k' : Kernel (D:=D)) (r : res E A) :
  on_sched m k = (r, k') → OPEN_FILES k' = OPEN_FILES k.
Proof. unfold on_sched. destruct (m _). by intros [= _ <-]. Qed.
Lemma on_vfs_files {A} (m : M (Vfs.VfsState D) Vfs.FsError A) (k k' : Kernel (D:=D)) r :
  on_vfs m k = (r, k') → OPEN_FILES k' = OPEN_FILES k.
Proof. unfold on_vfs. destruct (m _). by intros [= _ <-]. Qed.
Lemma on_memory_files {E A} (m : M PState E A) (k k' : Kernel (D:=D)) r : on_memory m k = (r, k') → OPEN_FILES k' = OPEN_FILES k.
Proof. unfold on_memory. destruct (m _). by intros [= _ <-]. Qed.
Lemma drop_files a (e : SpawnError) (k k' : Kernel (D:=D)) (r : res SpawnError Z) :
  (drop_space a ;;! fail e) k = (r, k') → OPEN_FILES k' = OPEN_FILES k ∧ ∀ p, r ≠ Ok p.
Proof.
  unfold bind, drop_space. destruct (on_sched _ k) as [r1 k1] eqn:E1. apply on_sched_files in E1. by destruct r1; intros [= <- <-].
Qed.

Lemma spawn_files path argv env (k k' : Kernel (D:=D)) r : spawn_with tramp main path argv env k = (r, k') →
  OPEN_FILES k' = match r with Ok p => init_process_files p (OPEN_FILES k) | _ => OPEN_FILES k end.
Proof.
  unfold spawn_with, bind at 1, mmap_err. destruct (on_vfs _ k) as [r1 k1] eqn:E1. apply on_vfs_files in E1.
  destruct r1 as [image|e| |]; cbn [map_err]; try by intros [= <- <-].
  unfold bind at 1. destruct (on_sched _ k1) as [r2 k2] eqn:E2. apply on_sched_files in E2.
  destruct r2 as [[a|]|e| |]; try by intros [= <- <-]; congruence.
  unfold bind at 1, catch. destruct (on_memory _ k2) as [r3 k3] eqn:E3. apply on_memory_files in E3.
  destruct r3 as [entry|e| |]; try by intros [= <- <-]; congruence.
  2:{ intros E. apply drop_files in E as [E Hr]. destruct r as [z|e'| |]; [by destruct (Hr z)|congruence..]. }
  unfold bind at 1. destruct (on_sched _ k3) as [r4 k4] eqn:E4. apply on_sched_files in E4.
  destruct r4 as [[rsp|]|e| |]; try by intros [= <- <-]; congruence.
  2:{ intros E. apply drop_files in E as [E Hr]. destruct r as [z|e'| |]; [by destruct (Hr z)|congruence..]. }
  unfold start_thread, bind at 1. destruct (on_sched _ k4) as [r5 k5] eqn:E5. apply on_sched_files in E5.
  destruct r5 as [[p|]|e| |]; intros [= <- <-]; try congruence. cbn. congruence.
Qed.

Lemma on_cpu_files {A} (m : M KState Empty_set A) s r s' : on_cpu m s = (r, s') → files s' = files s.
Proof.
  unfold on_cpu, on_kern. destruct (on_sched m (kern s)) as [r1 k1] eqn:E. apply on_sched_files in E. intros [= _ <-]. done.
Qed.

Lemma exit_files code s r s' : on_kern (exit_current code) s = (r, s') → files s' = close_process_files (self s) (files s).
Proof.
  unfold on_kern, exit_current, bind at 1. cbv beta zeta. destruct (on_sched exit _) as [r1 k1] eqn:E. apply on_sched_files in E.
  intros [= _ <-]. exact E.
Qed.

(** The calls that give up the processor. *)
Definition gives_up (m : M (Sys D) Empty_set Outcome) : Prop := ∀ s o s', m s = (Ok o, s') → ¬ is_return o → own (self s) (files s) (files s').

Lemma gives_up_done m : gives_up (done m).
Proof. intros s o s' (r & s1 & _ & [= <- _])%bind_Ok Ho. by destruct Ho. Qed.
Lemma gives_up_ret o : gives_up (ret o).
Proof. intros s o' s' [= _ <-] _. apply own_refl. Qed.
Lemma gives_up_cpu {A} (m : M KState Empty_set A) o : gives_up (on_cpu m ;;! ret o).
Proof. intros s o' s' (u & s1 & E & [= _ <-])%bind_Ok _. rewrite (on_cpu_files _ _ _ _ E). apply own_refl. Qed.
Lemma gives_up_exit code o : gives_up (on_kern (exit_current code) ;;! ret o).
Proof. intros s o' s' (u & s1 & E & [= _ <-])%bind_Ok _. rewrite (exit_files _ _ _ _ E). apply own_exit. Qed.
Lemma gives_up_bind {A} (m : M (Sys D) Empty_set A) f : silent m → (∀ a, gives_up (f a)) → gives_up (bind m f).
Proof.
  intros Hm Hf s o s' (a & s1 & E1 & E2)%bind_Ok Ho. apply Hm in E1 as [Q1 Q2 _]. specialize (Hf a s1 o s' E2 Ho).
  unfold self in *. by rewrite Q1, Q2 in Hf.
Qed.

Lemma gives_up_terminal buf n : gives_up (terminal_read (D:=D) buf n).
Proof.
  unfold terminal_read. apply gives_up_bind; [apply silent_reads|]. intros [|]; [apply gives_up_cpu|].
  intros s o s' (u & s1 & _ & E)%bind_Ok Ho. apply bind_Ok in E as (l & s2 & _ & E). apply bind_Ok in E as (u2 & s3 & _ & E).
  apply bind_Ok in E as (r & s4 & _ & [= <- _]). by destruct Ho.
Qed.

Lemma gives_up_read fd buf len : gives_up (sys_read (D:=D) has_rdrand rdrand rdtsc fd buf len).
Proof.
  unfold sys_read. destruct (_ =? 0); [apply gives_up_ret|]. apply gives_up_bind; [apply silent_pid|]. intros p.
  apply gives_up_bind; [apply silent_files|]. intros l. destruct (List.find _ _) as [f|]; [|apply gives_up_ret].
  destruct (negb _); [apply gives_up_ret|]. apply gives_up_bind; [apply silent_check_user|]. intros ok.
  destruct (negb ok); [apply gives_up_ret|]. destruct (f_kind f); try apply gives_up_ret; try apply gives_up_terminal; try apply gives_up_done.
  apply gives_up_bind; [apply silent_urandom|]. intros. apply gives_up_done.
Qed.

Lemma gives_up_turn pid ptr options : gives_up (waitpid_turn (D:=D) pid ptr options).
Proof.
  unfold waitpid_turn. apply gives_up_bind; [apply silent_pid|]. intros p. apply gives_up_bind; [apply silent_reads|]. intros l.
  destruct (take_child_exit_status p pid l) as [r l']. apply gives_up_bind; [by intros ? ? ? [= _ <-]|]. intros _.
  destruct r as [[[c st]|]|]; [|destruct (negb _)|]; try apply gives_up_ret; try apply gives_up_cpu.
  intros s o s' (ok & s1 & _ & [= <- _])%bind_Ok Ho. by destruct Ho.
Qed.

Lemma gives_up_waitpid pid ptr options : gives_up (sys_waitpid (D:=D) pid ptr options).
Proof.
  unfold sys_waitpid. destruct (flag _ _); [apply gives_up_ret|]. apply gives_up_bind; [case_match; eauto with sys|]. intros ok.
  destruct (negb ok); [apply gives_up_ret|apply gives_up_turn].
Qed.

Lemma gives_up_kill p sig : gives_up (sys_kill (D:=D) p sig).
Proof.
  unfold sys_kill. apply gives_up_bind; [apply silent_pid|]. intros q. repeat (case_match; try apply gives_up_ret). apply gives_up_exit.
Qed.

Lemma dispatch_gives_up f : gives_up (dispatch f).
Proof.
  unfold syscall_dispatch. repeat (destruct (rax f =? _)); try apply gives_up_done; try apply gives_up_cpu; try apply gives_up_ret.
  - apply gives_up_read.
  - by intros s o s'.
  - apply gives_up_waitpid.
  - apply gives_up_kill.
  - apply gives_up_exit.
  - apply gives_up_bind; [by intros ? ? ? [= _ <-]|]. intros. apply gives_up_cpu.
Qed.

Lemma exec_files ptr len argv env s p s' : sys_exec (D:=D) tramp main ptr len argv env s = (Ok p, s') → own p (files s) (files s').
Proof.
  unfold sys_exec. intros (r & s1 & E1 & E)%bind_Ok. apply silent_user_path in E1 as [_ Q1 _]. rewrite <- Q1. clear Q1.
  destruct r as [path|e]; [|injection E as _ <-; apply own_refl].
  apply bind_Ok in E as (r & s2 & E2 & E). apply silent_user_vector in E2 as [_ Q2 _]. rewrite <- Q2. clear Q2.
  destruct r as [av|e]; [|injection E as _ <-; apply own_refl].
  apply bind_Ok in E as (r & s3 & E3 & E). apply silent_user_vector in E3 as [_ Q3 _]. rewrite <- Q3. clear Q3.
  destruct r as [ev|e]; [|injection E as _ <-; apply own_refl].
  apply bind_Ok in E as (r & s4 & E4 & E5). unfold on_kern, catch in E4.
  destruct (spawn_with tramp main path av ev (kern s3)) as [r1 k1] eqn:Es. apply spawn_files in Es.
  destruct r1 as [q|e| |]; try done; injection E4 as <- <-; injection E5 as <- <-; unfold files; cbn; rewrite Es;
    [apply own_start|apply own_refl].
Qed.

(** What a waiting call has kept is what it was given. *)
Definition pending (o : Outcome) : Prop :=
  match o with WaitTerminal buf n => u64 buf ∧ n ≤ LINE_MAX | WaitChild _ ptr _ => u64 ptr | _ => True end.

Lemma resume_files o s o' s' : pending o → resume o s = (Ok o', s') → own (self s) (files s) (files s').
Proof.
  intros Hp E. destruct o as [v|v|buf n|pid ptr op|]; cbn [resume] in E; try (injection E as _ <-; apply own_refl).
  - destruct (decide (is_return o')) as [Hret|Hn]; [|by eapply gives_up_terminal]. destruct o'; try done.
    destruct Hp as [Hb Hn]. by eapply does_terminal.
  - destruct (decide (is_return o')) as [Hret|Hn]; [|by eapply gives_up_turn]. by eapply (does_waitpid_turn pid ptr op Hp).
Qed.

Lemma dispatch_files f s o s' : regs_ok f → dispatch f s = (Ok o, s') →
  own (self s) (files s) (files s') ∨ ∃ p, rax f = SYS_EXEC ∧ o = Return p ∧ own p (files s) (files s').
Proof.
  intros Hr E. destruct (decide (is_return o)) as [Hret|Hn]; [|left; by eapply dispatch_gives_up].
  destruct o as [v| | | |]; try done. destruct (decide (rax f = SYS_EXEC)) as [Hx|Hx]; [|left; by eapply dispatch_acts].
  right. exists v. split; [done|]. split; [done|]. unfold syscall_dispatch in E. rewrite Hx in E. cbn -[sys_exec] in E.
  apply bind_Ok in E as (p & s1 & E & [= <- <-]). by eapply exec_files.
Qed.

End Safe.
