(* ===== verification/SysExec.v ===== *)
(** * Arguments from one process to another

    The strings and vectors that [SYS_EXEC] copies out of its caller's memory are
    those that the new program finds on its stack. *)
From stdpp Require Import base numbers list gmap sets.
From Stdlib Require Import ZArith Lia Bool.
From S2P Require Import Prelude Bytes Str Block Vfs Mem Pmm Vmm VmmTables VmmUser VmmSpace Elf ElfParse ElfLoad Scheduler SchedInv.
From S2P Require Import Process ProcSpace ProcStack ProcSpawn Console Terminal Syscall SysFiles SysInv SysSafe.
Import Vmm Elf Scheduler Process Syscall.

(** ** What is in user memory *)
Definition holds (v : VState) (ptr : Z) (bytes : list Z) : Prop :=
  u64 ptr ∧ user_range false v ptr (Z.of_nat (length bytes)) ∧
  user_bytes (phys_mem (pst v)) (current_cr3 v) ptr (length bytes) = bytes.

(** A string with its terminator, that the kernel accepts. *)
Record string_in (v : VState) (ptr : Z) (w : str) : Prop := {
  si_bytes : holds v ptr (w ++ [0]);
  si_text : 0 ∉ w ∧ from_utf8 w = Some w;
  si_short : Z.of_nat (length w) ≤ MAX_NAME
}.

(** A vector of pointers to strings, with its terminator. *)
Record vector_in (v : VState) (ptr : Z) (ws : list str) : Prop := {
  vi_strings : ∃ ps, holds v ptr (concat (List.map (le_bytes 8) (ps ++ [0]))) ∧ Forall2 (λ p w, p ≠ 0 ∧ string_in v p w) ps ws;
  vi_short : (length ws < 32)%nat;
  vi_set : ptr ≠ 0
}.

(** An argument that may be left out. *)
Definition args_in (v : VState) (ptr : Z) (fallback ws : list str) : Prop := (ptr = 0 ∧ ws = fallback) ∨ vector_in v ptr ws.

Lemma args_text v ptr fallback ws : args_in v ptr fallback ws → Forall (λ w, 0 ∉ w) fallback → Forall (λ w, 0 ∉ w) ws.
Proof.
  intros [[_ ->]|[(ps & _ & Hps) _ _]] Hf; [done|]. clear Hf. induction Hps as [|p w ps ws [_ Hw] _ IH]; constructor; [|done]. apply Hw.
Qed.

(** A part of what is held is held. *)
Lemma holds_part v ptr a b c : holds v ptr (a ++ b ++ c) → ptr + Z.of_nat (length a) ≤ u64_max → holds v (ptr + Z.of_nat (length a)) b.
Proof.
  intros (Hp & Hr & Hb) Hle. rewrite !length_app in *. split; [unfold u64 in *; lia|]. split.
  - destruct Hr as [H0|[H1 H2]]; [left; lia|]. right. split; [lia|]. intros k Hk. rewrite <- Z.add_assoc. apply H2. lia.
  - rewrite !user_bytes_app in Hb. apply app_inj_1 in Hb as [_ Hb]; [|unfold user_bytes; rewrite length_map, length_seqZ; lia].
    apply app_inj_1 in Hb as [Hb _]; [done|]. unfold user_bytes. rewrite length_map, length_seqZ. lia.
Qed.

(** User memory ends before the last address. *)
Lemma holds_end v ptr bytes : holds v ptr bytes → bytes ≠ [] → ptr + Z.of_nat (length bytes) ≤ USER_SPACE_END.
Proof. intros (_ & [H0|[H1 _]] & _) Hn; [|done]. destruct bytes; [done|]. simpl in H0. lia. Qed.

Section Reads.
Context {D : Type} `{BlockDevice D} (s : Sys D) (pm : Pmm).
Notation v := (memory_of s).
Context (Hinv : vm_inv (pst v) pm (current_cr3 v)).

Lemma get_user_holds ptr bytes : holds v ptr bytes → get_user (length bytes) ptr s = (Ok (Some bytes), s).
Proof using Hinv.
  intros (Hp & Hr & Hb). unfold get_user. destruct (copy_from_user_run v pm (length bytes) ptr Hinv Hp) as [[_ Hn]|[E _]]; [done|].
  by rewrite E, Hb.
Qed.

Lemma copy_string_spec w : ∀ fuel ptr i done, string_in v ptr (done ++ w) → i = Z.of_nat (length done) → (length w < fuel)%nat →
  copy_string_loop fuel ptr i done s = (Ok (inl (done ++ w)), s).
Proof using Hinv.
  induction w as [|b w IH]; intros fuel ptr i done Hs -> Hf; (destruct fuel as [|fuel]; [simpl in Hf; lia|]); cbn [copy_string_loop];
    pose proof Hs as [Hb [H0 Ht] Hl]; pose proof (holds_end _ _ _ Hb ltac:(intros E; by apply app_eq_nil in E as [_ ?])) as Hend;
    unfold USER_SPACE_END, MAX_NAME in *; rewrite !length_app in *; cbn [length] in *;
    (rewrite checked_add_Some by (unfold u64_max in *; destruct Hb as [Hu _]; unfold u64 in Hu; lia)).
  - pose proof (holds_part v ptr done [0] []) as Hp. rewrite app_nil_r in *. specialize (Hp Hb ltac:(unfold u64_max; lia)).
    rewrite (bind_ok _ _ _ _ _ (get_user_holds _ _ Hp)). cbn. by rewrite Ht.
  - pose proof (holds_part v ptr done [b] (w ++ [0])) as Hp. rewrite <- app_assoc in Hb. specialize (Hp Hb ltac:(unfold u64_max; lia)).
    rewrite (bind_ok _ _ _ _ _ (get_user_holds _ _ Hp)). cbn [lookup_total list_lookup_total]. 
    destruct (Z.eqb_spec b 0) as [->|]; [exfalso; apply H0; set_solver|].
    rewrite (proj2 (Z.eqb_neq _ _)) by lia. replace (done ++ b :: w) with ((done ++ [b]) ++ w) by (by rewrite <- app_assoc).
    apply IH; [by rewrite <- app_assoc|rewrite length_app; simpl; lia|lia].
Qed.

Lemma copy_user_string_spec ptr w : string_in v ptr w → copy_user_string ptr s = (Ok (inl w), s).
Proof using Hinv. intros Hs. apply (copy_string_spec w 256 ptr 0 []); [done|done|]. destruct Hs as [_ _ Hl]. unfold MAX_NAME in Hl. lia. Qed.

Lemma length_words ps : length (concat (List.map (le_bytes 8) ps)) = (8 * length ps)%nat.
Proof. induction ps as [|p ps IH]; [done|]. cbn [List.map concat length]. rewrite length_app, length_le_bytes, IH. lia. Qed.

Lemma copy_vector_spec ps : ∀ ws fuel ptr i qs done, Forall2 (λ p w, p ≠ 0 ∧ string_in v p w) ps ws →
  holds v ptr (concat (List.map (le_bytes 8) (qs ++ ps ++ [0]))) → i = Z.of_nat (length qs) → (length ps < fuel)%nat →
  copy_vector_loop fuel ptr i done s = (Ok (inl (done ++ ws)), s).
Proof using Hinv.
  induction ps as [|p ps IH]; intros ws fuel ptr i qs done Hps Hb -> Hf; (destruct fuel as [|fuel]; [simpl in Hf; lia|]); cbn [copy_vector_loop];
    pose proof (holds_end _ _ _ Hb) as Hend; rewrite length_words, !length_app in Hend; cbn [length] in Hend;
    (specialize (Hend ltac:(intros E; apply (f_equal length) in E; rewrite length_words, !length_app in E; simpl in E; lia)));
    unfold USER_SPACE_END in Hend; pose proof (proj1 Hb) as Hu; unfold u64 in Hu; unfold u64_max in *;
    (rewrite checked_add_Some by (unfold u64_max; lia)); rewrite !map_app, !concat_app in Hb; cbn [List.map concat] in Hb;
    rewrite ?app_nil_r in Hb.
  - inversion Hps; subst. pose proof (holds_part v ptr _ (le_bytes 8 0) [] ltac:(by rewrite app_nil_r)) as Hp.
    rewrite length_words in Hp. specialize (Hp ltac:(unfold u64_max; lia)).
    replace (ptr + Z.of_nat (length qs) * 8) with (ptr + Z.of_nat (8 * length qs)) by lia.
    rewrite (bind_ok _ _ _ _ _ (get_user_holds _ _ Hp)). by rewrite app_nil_r.
  - inversion Hps as [|? w ? ws' [Hp0 Hw] Hps']; subst. pose proof Hb as Hb'. rewrite <- app_assoc in Hb'.
    apply holds_part in Hb' as Hp; rewrite length_words in *; [|unfold u64_max; lia].
    replace (ptr + Z.of_nat (length qs) * 8) with (ptr + Z.of_nat (8 * length qs)) by lia.
    rewrite (bind_ok _ _ _ _ _ (get_user_holds _ _ Hp)).
    assert (Hpr : 0 ≤ p < 2^64) by (pose proof (proj1 (si_bytes _ _ _ Hw)) as Hpu; unfold u64, u64_max in Hpu; lia).
    rewrite le_value_bytes by done. rewrite (proj2 (Z.eqb_neq _ _) Hp0).
    rewrite (bind_ok _ _ _ _ _ (copy_user_string_spec p w Hw)).
    replace (done ++ w :: ws') with ((done ++ [w]) ++ ws') by (by rewrite <- app_assoc).
    apply (IH ws' fuel ptr _ (qs ++ [p])); [done| |rewrite length_app; simpl; lia|simpl in Hf; lia].
    rewrite <- app_assoc, !map_app, !concat_app. cbn [List.map concat app]. rewrite ?app_nil_r, <- ?app_assoc. rewrite <- ?app_assoc in Hb. exact Hb.
Qed.

Lemma copy_user_vector_spec ptr fallback ws : args_in v ptr (option_list fallback) ws → copy_user_vector ptr fallback s = (Ok (inl ws), s).
Proof using Hinv.
  unfold copy_user_vector. intros [[-> ->]|[(ps & Hb & Hps) Hl Hn]]; [done|]. rewrite (proj2 (Z.eqb_neq _ _) Hn).
  apply (copy_vector_spec ps ws 32 ptr 0 [] []); [done|done|done|]. by rewrite (Forall2_length _ _ _ Hps).
Qed.

Lemma user_path_spec ptr path e1 e2 : holds v ptr path → from_utf8 path = Some path → Z.of_nat (length path) ≤ MAX_NAME →
  user_path ptr (Z.of_nat (length path)) e1 e2 s = (Ok (inl path), s).
Proof using Hinv.
  intros Hb Ht Hl. unfold user_path. rewrite (proj2 (Z.ltb_ge _ _) Hl), Nat2Z.id, (bind_ok _ _ _ _ _ (get_user_holds _ _ Hb)). by rewrite Ht.
Qed.
End Reads.

(** ** The new program *)
Section Exec.
Context {D : Type} `{BlockDevice D} (tramp main : Z).

(** [SYS_EXEC] after everything has been copied out of the caller's memory. *)
Lemma exec_spawns (s : Sys D) pm ptr path argv_ptr env_ptr argv env :
  vm_inv (pst (memory_of s)) pm (root s) → holds (memory_of s) ptr path → from_utf8 path = Some path → Z.of_nat (length path) ≤ MAX_NAME →
  args_in (memory_of s) argv_ptr [path] argv → args_in (memory_of s) env_ptr [] env →
  sys_exec tramp main ptr (Z.of_nat (length path)) argv_ptr env_ptr s =
    (let! r := on_kern (catch (spawn_with tramp main path argv env)) in
     ret (match r with inl pid => pid | inr e => spawn_errno e end)) s.
Proof.
  intros Hi Hb Ht Hl Ha He. unfold sys_exec.
  rewrite (bind_ok _ _ _ _ _ (user_path_spec s pm Hi ptr path ENAMETOOLONG ENOENT Hb Ht Hl)).
  rewrite (bind_ok _ _ _ _ _ (copy_user_vector_spec s pm Hi argv_ptr (Some path) argv Ha)).
  by rewrite (bind_ok _ _ _ _ _ (copy_user_vector_spec s pm Hi env_ptr None env He)).
Qed.

End Exec.
