(* ===== verification/SysRead.v ===== *)
(** * Reading a file, waiting for a child

    The functional behaviour of two calls as a program sees it: a file read
    piece by piece, and the exit status of a child. *)
From stdpp Require Import base numbers list gmap sets.
From Stdlib Require Import ZArith Lia Bool.
From S2P Require Import Prelude Bytes Str Block Initramfs Vfs Mem Pmm Vmm VmmTables VmmUser Elf Scheduler SchedInv Process Console Terminal.
From S2P Require Import Syscall SysFiles SysInv SysSafe.
Import Vmm Scheduler Process Syscall.

(** ** A file of the archive *)
Definition archive_file {D} (st : Vfs.VfsState D) (path : str) (data : list Z) : Prop :=
  ∃ p i mount inner, Vfs.normalize path = Ok p ∧ Vfs.route (Vfs.MOUNTS st) p = Some (i, mount, inner) ∧
    Vfs.fs mount = Vfs.Initramfs ∧ Initramfs.find (Vfs.ram st) inner = Ok (Some data).

Lemma archive_read {D} `{BlockDevice D} (st : Vfs.VfsState D) path data offset n : archive_file st path data → 0 ≤ offset → 0 ≤ n →
  Vfs.read_at path offset n st = (Ok (take (Z.to_nat n) (drop (Z.to_nat offset) data)), st).
Proof.
  intros (p & i & mount & inner & En & Er & Ef & Ed) Ho Hn. unfold Vfs.read_at, bind at 1, lift at 1. rewrite En.
  unfold bind at 1, Vfs.routed. rewrite Er. cbn [ok_or]. cbv beta iota. rewrite Ef. unfold bind at 1, Vfs.from_ram. rewrite Ed.
  unfold bind at 1, lift. cbn [ok_or]. destruct (Z.leb_spec (Z.of_nat (length data)) offset) as [L|L]; [by rewrite drop_ge, take_nil by lia|].
  unfold ret. do 2 f_equal. destruct (Z.le_gt_cases n (Z.of_nat (length data) - offset)); [by rewrite Z.min_l by lia|].
  rewrite Z.min_r by lia. rewrite !take_ge; [done|rewrite length_drop; lia..].
Qed.

Section Read.
Context {D : Type} `{BlockDevice D}.
Context (has_rdrand : bool) (rdrand : nat → option Z) (rdtsc : nat → Z).
Implicit Types s : Sys D.
Notation read := (sys_read has_rdrand rdrand rdtsc).

(** A program that reads a file to its end, [len] bytes at a time, through the
    buffer [buf]; [fuel] bounds the calls. *)
Fixpoint read_to_end (fuel : nat) (fd buf len : Z) s : option (list Z) :=
  match fuel with
  | O => None
  | Datatypes.S fuel =>
      match read fd buf len s with
      | (Ok (Return r), s') =>
          if r =? 0 then Some []
          else if r <? 2^63 then
            match copy_from_user (Z.to_nat r) buf (memory_of s') with
            | Ok (Some bytes) => app bytes <$> read_to_end fuel fd buf len s'
            | _ => None
            end
          else None
      | _ => None
      end
  end.

(** The descriptor reads the file from [offset] on. *)
Record reading (fd : Z) (data : list Z) (offset : Z) s : Prop := {
  rd_good : good s;
  rd_fds : fds_ok (files s);
  rd_file : ∃ f, List.find (is_fd (self s) fd) (files s) = Some f ∧ f_readable f = true ∧ f_kind f = File ∧ f_offset f = offset ∧
    archive_file (Process.vfs (kern s)) (f_path f) data
}.

Lemma check_user_ok buf n s pm : vm_inv (pst (memory_of s)) pm (root s) → u64 buf → 0 ≤ n → user_range true (memory_of s) buf n →
  check_user buf n true s = (Ok true, s).
Proof.
  intros Hi Hb Hn Hr. unfold check_user. destruct (validate_user_range_spec true (memory_of s) pm buf n Hi Hb Hn) as (b & E & Hb').
  rewrite E. by rewrite (proj2 Hb' Hr).
Qed.

(** Copying to a range that may be written succeeds; the bytes are there, the
    range may still be written, and nothing else is different. *)
Lemma put_user_ok buf bytes s : good s → u64 buf → user_range true (memory_of s) buf (Z.of_nat (length bytes)) →
  ∃ s', put_user buf bytes s = (Ok true, s') ∧ good s' ∧ copy_from_user (length bytes) buf (memory_of s') = Ok (Some bytes) ∧
    (∀ w a n, user_range w (memory_of s) a n → user_range w (memory_of s') a n) ∧
    self s' = self s ∧ files s' = files s ∧ PROCS (kern s') = PROCS (kern s) ∧ Process.vfs (kern s') = Process.vfs (kern s).
Proof.
  intros [(pm & Hi & Hu) Hh] Hb Hr.
  destruct (copy_to_user_run (memory_of s) pm buf bytes Hi Hu Hb) as [[_ Hn]|(p' & E & _ & Hc & Hi' & Hu' & _ & Hw)]; [done|].
  exists (set_kern s (set_sched (kern s) (set_vst (sched (kern s)) (set_pst (memory_of s) p')))).
  split; [unfold put_user, on_cpu, on_kern, on_sched, on_vmm; change (vst (sched (kern s))) with (memory_of s); by rewrite E|].
  split; [split; [by exists pm|done]|]. split; [by apply (copied_reads (memory_of s) pm)|]. split; [|done].
  intros w a n [->|[H1 H2]]; [by left|right]. split; [done|]. intros k Hk. destruct (H2 k Hk) as [q Hq]. exists q.
  change (uwalk w (phys_mem p') (current_cr3 (memory_of s)) (a + k) = Some q). by rewrite Hw.
Qed.

Lemma find_position {A} (p : A → bool) l x : List.find p l = Some x → ∃ i, position p l = Some i ∧ l !! i = Some x.
Proof.
  intros E. pose proof (position_find p l) as H0. destruct (position p l) as [i|]; [|congruence]. destruct H0 as (y & Hy & Ey).
  exists i. split; [done|]. congruence.
Qed.

Lemma find_seek fd p l i f o : fds_ok l → l !! i = Some f → fd_key f = (p, fd) →
  List.find (is_fd p fd) (<[i := with_offset f o]> l) = Some (with_offset f o).
Proof.
  intros Hn Hf Hk. apply find_iff.
  - unfold fds_ok. by rewrite (map_key_insert l i f o Hf).
  - split; [|done]. apply list_elem_of_lookup. exists i. apply list_lookup_insert_eq. by eapply lookup_lt_Some.
Qed.

(** One call: the next piece of the file is in the buffer, and the descriptor has moved on. *)
Lemma read_step fd buf len data offset s : reading fd data offset s → u64 buf → 0 < len → 0 ≤ offset →
  Z.of_nat (length data) + MAX_WRITE ≤ u64_max → offset ≤ Z.of_nat (length data) →
  user_range true (memory_of s) buf (Z.min len MAX_WRITE) →
  let piece := take (Z.to_nat (Z.min len MAX_WRITE)) (drop (Z.to_nat offset) data) in
  ∃ s', read fd buf len s = (Ok (Return (Z.of_nat (length piece))), s') ∧ reading fd data (offset + Z.of_nat (length piece)) s' ∧
    copy_from_user (length piece) buf (memory_of s') = Ok (Some piece) ∧ user_range true (memory_of s') buf (Z.min len MAX_WRITE).
Proof.
  intros [Hg Hfd (f & Ef & Hrd & Hkind & Ho & Ha)] Hb Hlen Hoff Hdata Hle Hr piece.
  set (n := Z.min len MAX_WRITE) in *. assert (Hn : 0 < n ≤ MAX_WRITE) by (unfold n, MAX_WRITE; lia).
  assert (Hpl : Z.of_nat (length piece) ≤ n) by (unfold piece; rewrite length_take; lia).
  pose proof Hg as [(pm & Hi & Hu) Hh].
  destruct (find_position _ _ _ Ef) as (i & Ei & Hfi). pose proof (proj2 (find_key _ _ _ _ Ef)) as Hk.
  assert (Hr' : user_range true (memory_of s) buf (Z.of_nat (length piece))).
  { destruct Hr as [?|[H1 H2]]; [lia|]. right. split; [lia|]. intros k Hk'. apply H2. lia. }
  destruct (put_user_ok buf piece s Hg Hb Hr') as (s1 & Ep & Hg1 & Hcf & Hrange & E1 & E2 & E3 & E4).
  assert (Eread : fs_call (Vfs.read_at (f_path f) (f_offset f) n) s = (Ok (inl piece), s)).
  { unfold fs_call, on_kern, catch, on_vfs. rewrite Ho, (archive_read _ _ data offset n Ha Hoff ltac:(lia)). by destruct s as [[]]. }
  exists (set_open_files s1 (<[i := with_offset f (offset + Z.of_nat (length piece))]> (files s))).
  split; [|split; [|split; [exact Hcf|by apply Hrange]]].
  - unfold sys_read. fold n. rewrite (proj2 (Z.eqb_neq n 0)) by lia. unfold bind at 1, current_pid, reads. fold (self s).
    unfold bind at 1, open_files, reads. fold (files s). rewrite Ef, Hrd. cbn [negb].
    rewrite (bind_ok _ _ _ _ _ (check_user_ok buf n s pm Hi Hb ltac:(lia) Hr)). cbn [negb]. rewrite Hkind.
    unfold bind at 1, file_read. unfold bind at 1, open_files, reads. fold (files s). rewrite Ei, Ef.
    rewrite (bind_ok _ _ _ _ _ Eread), (bind_ok _ _ _ _ _ Ep). cbn [negb]. unfold add64. rewrite Ho, checked_add_Some by lia. done.
  - split; [split; [apply Hg1|apply Hg1]| |].
    + unfold fds_ok. unfold files. cbn. by rewrite (map_key_insert _ i f).
    + exists (with_offset f (offset + Z.of_nat (length piece))). unfold files, self. cbn. fold (self s1). rewrite E1.
      split; [by apply find_seek|]. split; [done|]. split; [done|]. split; [done|]. by rewrite E4.
Qed.

(** A piece cut short drops like the whole. *)
Lemma take_length_drop {A} n (l : list A) : drop (length (take n l)) l = drop n l.
Proof. rewrite length_take. destruct (decide (n ≤ length l)%nat); [by rewrite Nat.min_l|]. by rewrite Nat.min_r, !drop_ge by lia. Qed.

(** C12: A file of the archive is read in order and to its end.  A program that
    calls read until nothing is left, with any length and any buffer of its
    own that is long enough, gets exactly the bytes of the file from the
    descriptor's offset on; one call more than there are bytes is enough. *)
Theorem read_gives_file fd buf len data : u64 buf → 0 < len → Z.of_nat (length data) + MAX_WRITE ≤ u64_max →
  ∀ fuel offset s, 0 ≤ offset ≤ Z.of_nat (length data) → reading fd data offset s →
  user_range true (memory_of s) buf (Z.min len MAX_WRITE) → (length data - Z.to_nat offset < fuel)%nat →
  read_to_end fuel fd buf len s = Some (drop (Z.to_nat offset) data).
Proof.
  intros Hb Hlen Hd. induction fuel as [|fuel IH]; intros offset s Ho Hs Hr Hf; [lia|]. cbn [read_to_end].
  destruct (read_step fd buf len data offset s Hs Hb Hlen ltac:(lia) Hd ltac:(lia) Hr) as (s' & E & Hs' & Hcf & Hr').
  set (piece := take _ _) in *. rewrite E.
  assert (Hpl : length piece = Nat.min (Z.to_nat (Z.min len MAX_WRITE)) (length data - Z.to_nat offset)) by (unfold piece; by rewrite length_take, length_drop).
  unfold MAX_WRITE, u64_max in *.
  destruct (Z.eqb_spec (Z.of_nat (length piece)) 0) as [E0|N0]; [by rewrite drop_ge by lia|].
  rewrite (proj2 (Z.ltb_lt _ _)) by lia. rewrite Nat2Z.id, Hcf. rewrite (IH (offset + Z.of_nat (length piece)) s' ltac:(lia) Hs' Hr') by lia. cbn. f_equal.
  rewrite Z2Nat.inj_add, Nat2Z.id, <- drop_drop by lia.
  unfold piece. rewrite take_length_drop. apply take_drop.
Qed.
End Read.

(** ** The exit status of a child *)
Lemma position_alter {A} (p q : A → bool) (g : A → A) l i x : position p l = Some i → l !! i = Some x →
  (∀ j y, l !! j = Some y → p y = true → j = i) → (∀ j y, j ≠ i → l !! j = Some y → q y = false) → q (g x) = true →
  position q (alter g i l) = Some i.
Proof.
  revert i x. induction l as [|y l IH]; [done|]. intros i x Ep Hx Hu Hq Hg. cbn in Ep. destruct (p y) eqn:Ey.
  - injection Ep as <-. injection Hx as ->. cbn. by rewrite Hg.
  - destruct (position p l) as [k|] eqn:Ek; [|done]. injection Ep as <-. cbn in *. rewrite (Hq 0%nat y) by done.
    rewrite (IH k x); [done|done|done| | |done].
    + intros j z Hj Hz. specialize (Hu (S j) z Hj Hz). lia.
    + intros j z Hn Hj. apply (Hq (S j) z); [lia|done].
Qed.

Lemma pid_unique procs i j r r' : NoDup (List.map pid procs) → procs !! i = Some r → procs !! j = Some r' → pid r = pid r' → i = j.
Proof.
  intros Hn Hi Hj E. apply (NoDup_lookup (List.map pid procs) i j (pid r)); [done| |].
  - change ((pid <$> procs) !! i = Some (pid r)). by rewrite list_lookup_fmap, Hi.
  - change ((pid <$> procs) !! j = Some (pid r)). by rewrite list_lookup_fmap, Hj, E.
Qed.

Lemma delete_alter {A} (g : A → A) i (l : list A) : delete i (alter g i l) = delete i l.
Proof. revert i. induction l as [|x l IH]; intros [|i]; [done..|]. cbn. f_equal. apply IH. Qed.

Lemma position_pid procs i r : NoDup (List.map pid procs) → procs !! i = Some r → position (λ x, pid x =? pid r) procs = Some i.
Proof.
  intros Hn Hi. pose proof (position_find (λ x, pid x =? pid r) procs) as Hf. destruct (position _ procs) as [j|].
  - destruct Hf as (y & Hy & Ey). apply find_some in Ey as [_ Ey]. apply Z.eqb_eq in Ey. f_equal. by apply (pid_unique procs j i y r).
  - exfalso. assert (Hin : In r procs) by (apply list_elem_of_In, list_elem_of_lookup; by exists i).
    apply (find_none _ _ Hf) in Hin. by rewrite Z.eqb_refl in Hin.
Qed.

(** The parent takes the status that the child left, and with it the record. *)
Lemma take_recorded procs r code : NoDup (List.map pid procs) → r ∈ procs → pid r ≠ 0 → pid r ≠ u64_max →
  ∃ rest, take_child_exit_status (parent r) (pid r) (record_exit (pid r) code procs) = (Some (Some (pid r, code)), rest) ∧
    procs ≡ₚ r :: rest ∧ take_child_exit_status (parent r) (pid r) rest = (None, rest).
Proof.
  intros Hn [i Hi]%list_elem_of_lookup H0 Hm. unfold record_exit. rewrite (position_pid procs i r Hn Hi).
  set (ex := λ x : Proc, mkProc (pid x) (parent x) (pname x) (Some code)). set (procs' := alter ex i procs).
  assert (Hi' : procs' !! i = Some (ex r)) by (unfold procs'; by rewrite list_lookup_alter_eq, Hi).
  assert (Hrest : procs ≡ₚ r :: swap_remove i procs').
  { rewrite (delete_Permutation procs i r Hi). constructor.
    apply (Permutation_cons_inv (a := ex r)). rewrite <- (swap_remove_perm i procs' _ Hi'), <- (delete_alter ex i procs).
    symmetry. by apply delete_Permutation. }
  exists (swap_remove i procs'). unfold take_child_exit_status at 1.
  rewrite (proj2 (Z.eqb_neq _ _) H0), (proj2 (Z.eqb_neq _ _) Hm). cbn [orb].
  set (child := λ x : Proc, _). assert (Hc : child (ex r) = true) by (unfold child; cbn; by rewrite !Z.eqb_refl).
  assert (Hex : existsb child procs' = true).
  { apply existsb_exists. exists (ex r). split; [|done]. apply list_elem_of_In, list_elem_of_lookup. by exists i. }
  rewrite Hex. cbn [negb].
  assert (Epos : position (λ x, child x && has_exited x) procs' = Some i).
  { apply (position_alter (λ x, pid x =? pid r) _ ex procs i r); [by apply position_pid|done| | |by rewrite Hc].
    - intros j y Hj Hy%Z.eqb_eq. by apply (pid_unique procs j i y r).
    - intros j y Hj Hy. unfold child. destruct (Z.eqb_spec (pid y) (pid r)) as [E|]; [|by rewrite andb_false_r].
      exfalso. apply Hj. by apply (pid_unique procs j i y r). }
  unfold child in Epos. rewrite Epos, Hi'. split; [done|]. split; [done|]. unfold take_child_exit_status.
  rewrite (proj2 (Z.eqb_neq _ _) H0), (proj2 (Z.eqb_neq _ _) Hm). cbn [orb]. fold child.
  destruct (existsb child (swap_remove i procs')) eqn:E; [|done]. exfalso. apply existsb_exists in E as (x & Hx & Hcx).
  unfold child in Hcx. apply andb_true_iff in Hcx as [_ Hcx%Z.eqb_eq]. rewrite Hrest in Hn. cbn [List.map] in Hn.
  apply NoDup_cons in Hn as [Hn _]. apply Hn. rewrite <- Hcx. apply list_elem_of_In. by apply in_map.
Qed.

Section Wait.
Context {D : Type} `{BlockDevice D}.
Implicit Types s : Sys D.

Lemma wait_turn c ptr options s : waitpid_turn (D:=D) c ptr options s =
  let '(r, procs) := take_child_exit_status (self s) c (PROCS (kern s)) in
  (match r with
   | None => ret (Return (errno ECHILD))
   | Some (Some (child_pid, status)) =>
       let! ok := if ptr =? 0 then ret true else put_user ptr (le_bytes 4 (wrap32 status)) in
       ret (Return (if (ok : bool) then child_pid else errno EFAULT))
   | Some None =>
       if negb (Z.land options 1 =? 0) then ret (Return 0)
       else on_cpu yield_now ;;! ret (WaitChild c ptr options)
   end) (set_kern s (set_procs (kern s) procs)).
Proof. unfold waitpid_turn, bind at 1, current_pid, reads. unfold bind at 1. fold (self s). by destruct (take_child_exit_status _ _ _). Qed.

(** C13: A parent gets its child's exit status, once.  After a child has exited
    with a code, its parent's wait for it returns the child's identifier and
    stores the code, as 32 bits, where the parent asked for it; the record is
    gone and the others are as they were; a second wait says that there is no
    such child. *)
Theorem wait_gets_status s procs r code ptr options : good s → u64 ptr → (options = 0 ∨ options = 1) →
  NoDup (List.map pid procs) → r ∈ procs → parent r = self s → pid r ≠ 0 → pid r ≠ u64_max →
  PROCS (kern s) = record_exit (pid r) code procs → (ptr = 0 ∨ user_range true (memory_of s) ptr 4) →
  ∃ s', sys_waitpid (pid r) ptr options s = (Ok (Return (pid r)), s') ∧ procs ≡ₚ r :: PROCS (kern s') ∧
    (ptr ≠ 0 → copy_from_user 4 ptr (memory_of s') = Ok (Some (le_bytes 4 (wrap32 code)))) ∧
    sys_waitpid (pid r) ptr options s' = (Ok (Return (errno ECHILD)), s').
Proof.
  intros Hg Hp Ho Hn Hr Hpar H0 Hm Eprocs Hptr.
  destruct (take_recorded procs r code Hn Hr H0 Hm) as (rest & Et & Hperm & Et2). rewrite Hpar in Et, Et2.
  assert (Hf : flag options (not64 1) = false) by (by destruct Ho as [-> | ->]).
  assert (Hstep : ∀ s1, good s1 → (ptr = 0 ∨ user_range true (memory_of s1) ptr 4) →
    sys_waitpid (pid r) ptr options s1 = waitpid_turn (pid r) ptr options s1).
  { intros s1 [(pm & Hi & _) _] Hr1. unfold sys_waitpid. rewrite Hf. destruct (Z.eqb_spec ptr 0) as [->|Hne]; [done|].
    destruct Hr1 as [?|Hr1]; [done|]. by rewrite (bind_ok _ _ _ _ _ (check_user_ok ptr 4 s1 pm Hi Hp ltac:(lia) Hr1)). }
  set (s0 := set_kern s (set_procs (kern s) rest)).
  assert (Hs0 : good s0) by exact Hg.
  assert (Hend : ∀ s', good s' → self s' = self s → PROCS (kern s') = rest → (ptr = 0 ∨ user_range true (memory_of s') ptr 4) →
    sys_waitpid (pid r) ptr options s' = (Ok (Return (errno ECHILD)), s')).
  { intros s' Hg' E1 E2 Hr'. rewrite Hstep, wait_turn, E1, E2, Et2 by done. rewrite <- E2. unfold ret. f_equal. by destruct s' as [[]]. }
  rewrite Hstep, wait_turn, Eprocs, Et by done. fold s0. destruct (Z.eqb_spec ptr 0) as [->|Hne].
  - exists s0. split; [done|]. split; [done|]. split; [done|]. apply Hend; [done|done|done|by left].
  - destruct Hptr as [?|Hr1]; [done|].
    destruct (put_user_ok ptr (le_bytes 4 (wrap32 code)) s0 Hs0 Hp) as (s' & E & Hg' & Hcf & Hrange & E1 & _ & E3 & _).
    { by rewrite length_le_bytes. }
    exists s'. rewrite (bind_ok _ _ _ _ _ E). rewrite length_le_bytes in Hcf. split; [done|]. rewrite E3. split; [done|]. split; [done|].
    apply Hend; [done|by rewrite E1|by rewrite E3|]. right. by apply Hrange.
Qed.
End Wait.
