(* ===== verification/SysDemo.v ===== *)
(** * A process that makes calls

    The machine of [ProcDemo] with a page of user memory that holds a path and
    an argument vector, an archive, a descriptor open on it and a child that has
    exited, on which the theorems on system calls are applied. *)
From Stdlib Require Import String.
From stdpp Require Import base numbers list gmap sets.
From Stdlib Require Import ZArith Lia Bool.
From S2P Require Import Prelude Bytes Str Block Initramfs Vfs Mem Pmm Vmm VmmTables VmmUser VmmSpace VmmDemo Elf ElfParse ElfLoad ElfDemo.
From S2P Require Import Scheduler SchedInv SchedDemo Process ProcSpace ProcStack ProcSpawn ProcDemo Console Terminal.
From S2P Require Import Syscall SysFiles SysInv SysSafe SysExec SysRead.
Import Vmm Elf Scheduler Process Syscall.

(** Frame 258 is the page. *)
Definition sd_mem0 : PState := snd (alloc_frame_zeroed proc_mem).
Definition sd_pm0 : Pmm := default demo_pmm (PMM sd_mem0).
Definition sd_mem1 : PState := snd (map demo_root demo_virt (258 * PAGE_SIZE) USER_RW sd_mem0).
Definition sd_pm : Pmm := default demo_pmm (PMM sd_mem1).
Definition sd_v1 : VState := mkV sd_mem1 (Some demo_root) demo_root demo_root 0 0.

(** The path and an option, each with its terminator, then the vector of both. *)
Definition sd_bytes : list Z :=
  lit "/usr/init" ++ [0] ++ lit "-v" ++ [0; 0; 0; 0] ++ le_bytes 8 demo_virt ++ le_bytes 8 (demo_virt + 10) ++ le_bytes 8 0.
Definition sd_v : VState := snd (copy_to_user demo_virt sd_bytes sd_v1).

Lemma sd_state0 : vm_inv sd_mem0 sd_pm0 demo_root ∧ 258 < total_frames sd_pm0 ∧ 258 ∉ free_set sd_pm0 ∧
  (∀ x, read8 (phys_mem sd_mem0) x = 0) ∧ 80 ≤ Z.of_nat (size (free_set sd_pm0)).
Proof.
  destruct proc_state as (H & I & T & N & Hn & M).
  destruct (alloc_demo proc_mem proc_pm 258 H I M) as (p & H' & I' & F & E & T' & M'); [vm_compute; reflexivity|].
  change (snd (alloc_frame_zeroed proc_mem)) with sd_mem0 in H', M'.
  assert (Ep : sd_pm0 = p) by (unfold sd_pm0; rewrite H'; reflexivity). rewrite Ep.
  assert (Hc : 80 <= free_frames sd_pm0) by (vm_compute; discriminate).
  split; [|split; [|split; [|split; [exact M'|]]]].
  - split; [exact H'|exact I'|rewrite T', T; lia|].
    apply (zero_tree (phys_mem sd_mem0) p 257); [exact M'|rewrite T', T; lia|]. rewrite E, elem_of_difference. intros [Hin _]. exact (N Hin).
  - rewrite T', T. lia.
  - rewrite E, elem_of_difference, elem_of_singleton. clear. tauto.
  - rewrite Ep, (inv_count _ I') in Hc. lia.
Qed.

#[local] Opaque sd_mem0 sd_pm0.

Lemma sd_page : vm_inv sd_mem1 sd_pm demo_root ∧ user_half (phys_mem sd_mem1) sd_pm demo_root ∧ 77 ≤ Z.of_nat (size (free_set sd_pm)).
Proof.
  destruct sd_state0 as (Hi & T & N & M & Hz).
  destruct (page_demo sd_mem0 sd_pm0 Hi T N ltac:(lia) M) as (s' & pm' & Er & Hm & Hh).
  assert (Es : sd_mem1 = s') by (unfold sd_mem1; rewrite Er; reflexivity).
  assert (Ep : sd_pm = pm').
  { unfold sd_pm. rewrite Es, (vi_pmm _ _ _ (mp_inv _ _ _ _ _ _ _ Hm)). reflexivity. }
  rewrite Es, Ep. split; [exact (mp_inv _ _ _ _ _ _ _ Hm)|]. split; [exact Hh|]. pose proof (mp_size _ _ _ _ _ _ _ Hm). lia.
Qed.

Lemma sd_user_ok : user_ok (phys_mem sd_mem1) sd_pm demo_root.
Proof. destruct sd_page as (Hi & Hh & _). exact (user_half_ok _ _ _ (vi_tree _ _ _ Hi) Hh). Qed.

#[local] Opaque sd_mem1 sd_pm.

Lemma sd_memory : vm_inv (pst sd_v) sd_pm demo_root ∧ user_ok (phys_mem (pst sd_v)) sd_pm demo_root ∧ current_cr3 sd_v = demo_root ∧
  VMM sd_v = Some demo_root.
Proof.
  destruct sd_page as (Hi & _ & _).
  destruct (copy_to_user_run sd_v1 sd_pm demo_virt sd_bytes Hi sd_user_ok) as [[E _]|(p' & E & _ & _ & Hi' & Hu' & _)].
  - unfold demo_virt, u64_max. lia.
  - exfalso. assert (Ef : fst (copy_to_user demo_virt sd_bytes sd_v1) = Ok true) by (vm_compute; reflexivity).
    rewrite E in Ef. discriminate Ef.
  - unfold sd_v. rewrite E. cbn [snd]. split; [exact Hi'|]. split; [exact Hu'|]. split; reflexivity.
Qed.

Lemma mem_okb m : forallb (λ x, (0 <=? snd x) && (snd x <? 256)) (map_to_list m) = true → mem_ok m.
Proof.
  intros Hf a. unfold read8, is_byte. destruct (m !! a) as [b|] eqn:E; cbn; [|lia].
  rewrite forallb_forall in Hf. specialize (Hf (a, b)). rewrite <- list_elem_of_In, elem_of_map_to_list in Hf.
  specialize (Hf E). cbn in Hf. lia.
Qed.

Lemma sd_mem_ok : mem_ok (phys_mem (pst sd_v)).
Proof. apply mem_okb. vm_compute. reflexivity. Qed.

(** Ranges and contents, by computation. *)
Lemma sd_range w a n : 0 ≤ a ≤ u64_max → 0 ≤ n → validate_user_range a n w sd_v = Ok true → user_range w sd_v a n.
Proof.
  intros Ha Hn E. destruct sd_memory as (Hi & _ & Ec & _). rewrite <- Ec in Hi.
  destruct (validate_user_range_spec w sd_v sd_pm a n Hi Ha Hn) as (b & E' & Hb). rewrite E in E'. injection E' as <-. by apply Hb.
Qed.

Lemma sd_holds a bytes : 0 ≤ a ≤ u64_max → validate_user_range a (Z.of_nat (length bytes)) false sd_v = Ok true →
  user_bytes (phys_mem (pst sd_v)) (current_cr3 sd_v) a (length bytes) = bytes → holds sd_v a bytes.
Proof. intros Ha Hr Hb. split; [exact Ha|]. split; [apply sd_range; [exact Ha|lia|exact Hr]|exact Hb]. Qed.

#[local] Opaque sd_v.

(** ** The kernel's state: the caller is thread 0, its child 7 has exited with 42. *)
Definition sd_procs : list Proc := [mkProc 3 0 (lit "sh") None; mkProc 7 0 (lit "child") None].
Definition sd_files : list OpenFile :=
  init_process_files 0 (init_process_files 3 []) ++ [mkFile 0 3 File (lit "/usr/init") 0 true false false].
Definition sd_sys : Sys MemoryBlockDevice :=
  mkSys (mkKernel (mkK (mkSched (Some boot_thread) [] [] None [] [] 0 1) ∅ true 0 false 0 0 0 0 sd_v) proc_vfs
    (record_exit 7 42 sd_procs) sd_files) (Terminal.mkTerm [] [] None []) [] false 0 0 None.

(** No random number instruction. *)
Notation sd_dispatch := (syscall_dispatch (D:=MemoryBlockDevice) false (λ _, None) (λ n, Z.of_nat n) 1 3).

Lemma sd_good : good sd_sys.
Proof.
  destruct sd_memory as (Hi & Hu & Ec & _). split; [|constructor]. exists sd_pm. unfold root, vmem.
  change (memory_of sd_sys) with sd_v. rewrite Ec. split; [exact Hi|exact Hu].
Qed.

Lemma sd_fds : fds_ok (files sd_sys).
Proof. apply (bool_decide_unpack _). vm_compute. exact I. Qed.

Lemma sd_archive : archive_file proc_vfs (lit "/usr/init") demo_image.
Proof.
  exists (lit "/usr/init"), 0%nat, (Vfs.mkMount (lit "/") Vfs.Initramfs None), (lit "usr/init").
  split; [vm_compute; reflexivity|]. split; [vm_compute; reflexivity|]. split; [reflexivity|vm_compute; reflexivity].
Qed.

Definition sd_frame (n a b c : Z) : SyscallFrame := mkFrame n a b c 0.

Lemma sd_regs n a b c : u64 a → u64 b → u64 c → regs_ok (sd_frame n a b c).
Proof. intros Ha Hb Hc. split; [exact Ha|]. split; [exact Hb|]. split; [exact Hc|]. by split. Qed.



Lemma read_gives_file_witness :
  read_to_end false (λ _, None) (λ n, Z.of_nat n) 200 3 (demo_virt + 100) 50 sd_sys = Some demo_image.
Proof.
  apply (read_gives_file false (λ _, None) (λ n, Z.of_nat n) 3 (demo_virt + 100) 50 demo_image) with (offset := 0).
  - unfold u64, demo_virt, u64_max. lia.
  - lia.
  - vm_compute. discriminate.
  - split; [lia|vm_compute; discriminate].
  - split; [exact sd_good|exact sd_fds|]. exists (mkFile 0 3 File (lit "/usr/init") 0 true false false).
    split; [vm_compute; reflexivity|]. split; [reflexivity|]. split; [reflexivity|]. split; [reflexivity|exact sd_archive].
  - change (memory_of sd_sys) with sd_v. apply sd_range; [unfold demo_virt, u64_max; lia|unfold MAX_WRITE; lia|vm_compute; reflexivity].
  - vm_compute. lia.
Defined.

Lemma wait_gets_status_witness : ∃ s', sys_waitpid 7 (demo_virt + 64) 0 sd_sys = (Ok (Return 7), s') ∧
  copy_from_user 4 (demo_virt + 64) (memory_of s') = Ok (Some [42; 0; 0; 0]) ∧
  sys_waitpid 7 (demo_virt + 64) 0 s' = (Ok (Return (errno ECHILD)), s').
Proof.
  destruct (wait_gets_status sd_sys sd_procs (mkProc 7 0 (lit "child") None) 42 (demo_virt + 64) 0) as (s' & E & _ & Hc & E2).
  - exact sd_good.
  - unfold u64, demo_virt, u64_max. lia.
  - by left.
  - apply (bool_decide_unpack _). vm_compute. exact I.
  - right. left.
  - reflexivity.
  - discriminate.
  - discriminate.
  - reflexivity.
  - right. change (memory_of sd_sys) with sd_v. apply sd_range; [unfold demo_virt, u64_max; lia|lia|vm_compute; reflexivity].
  - exists s'. split; [exact E|]. split; [|exact E2]. apply Hc. discriminate.
Defined.

Lemma sd_string a w : 0 ≤ a ≤ u64_max → validate_user_range a (Z.of_nat (length (w ++ [0]))) false sd_v = Ok true →
  user_bytes (phys_mem (pst sd_v)) (current_cr3 sd_v) a (length (w ++ [0])) = w ++ [0] → forallb (λ b, negb (b =? 0)) w = true →
  from_utf8 w = Some w → Z.of_nat (length w) ≤ MAX_NAME → string_in sd_v a w.
Proof.
  intros Ha Hr Hb H0 Ht Hl. split; [by apply sd_holds|split; [|done]|done]. intros Hin. rewrite forallb_forall in H0.
  apply list_elem_of_In in Hin. specialize (H0 _ Hin). done.
Qed.

Lemma sd_string0 : string_in sd_v demo_virt (lit "/usr/init").
Proof.
  apply sd_string; [unfold demo_virt, u64_max; lia|vm_compute; reflexivity|vm_compute; reflexivity|vm_compute; reflexivity
    |vm_compute; reflexivity|vm_compute; discriminate].
Qed.
Lemma sd_string1 : string_in sd_v (demo_virt + 10) (lit "-v").
Proof.
  apply sd_string; [unfold demo_virt, u64_max; lia|vm_compute; reflexivity|vm_compute; reflexivity|vm_compute; reflexivity
    |vm_compute; reflexivity|vm_compute; discriminate].
Qed.

Lemma sd_args : args_in sd_v (demo_virt + 16) [lit "/usr/init"] proc_argv.
Proof.
  right. split; [|vm_compute; lia|discriminate]. exists [demo_virt; demo_virt + 10]. split.
  - apply sd_holds; [unfold demo_virt, u64_max; lia|vm_compute; reflexivity|vm_compute; reflexivity].
  - apply Forall2_cons; split; [split; [discriminate|exact sd_string0]|].
    apply Forall2_cons; split; [split; [discriminate|exact sd_string1]|apply Forall2_nil; exact I].
Qed.

