(* ===== verification/Hw.v ===== *)
(** * Devices: registers, direct memory access and the clock

    A driver sees its device through registers (in memory or behind ports) and
    through memory that both share.  The device is a parameter: a type [D] of
    device states with the instance of [Hw] below, which says what each access
    does.  An access may change all of memory, because the device runs at the
    same time; so may the other threads when the driver gives up the processor.
    The device also runs, and may write memory, before every volatile read of
    shared memory ([hw_run]).

    Registers are addressed as the code does, by the virtual addresses that
    [vmm::map_mmio] returns; shared memory by its physical address.  Frames
    lie below [2^52], so an offset added to the address of a frame does not
    overflow and is written as a plain sum. *)
From stdpp Require Import base numbers list gmap.
From Stdlib Require Import ZArith Lia Bool.
From S2P Require Import Prelude Bytes Mem Pmm Vmm.

Class Hw (D : Type) := {
  (** A volatile read and write of some bytes at an address. *)
  hw_read : Z → Z → D * Vmm.VState → Z * (D * Vmm.VState);
  hw_write : Z → Z → Z → D * Vmm.VState → D * Vmm.VState;
  (** [in] and [out] of some bytes at a port. *)
  hw_in : Z → Z → D * Vmm.VState → Z * (D * Vmm.VState);
  hw_out : Z → Z → Z → D * Vmm.VState → D * Vmm.VState;
  (** The device running by itself. *)
  hw_run : D * Vmm.VState → D * Vmm.VState;
  (** [pit::uptime_ms()] and [scheduler::yield_now()]. *)
  hw_time : D * Vmm.VState → Z * (D * Vmm.VState);
  hw_yield : D * Vmm.VState → D * Vmm.VState
}.

(** [x & !m] on integers of one width. *)
Notation andnot := Z.ldiff (only parsing).

(** ** Words in memory *)
Definition read32 (m : memory) (a : Z) : Z := le_value (read_bytes m a 4).
Definition write32 (m : memory) (a v : Z) : memory := write_bytes m a (le_bytes 4 v).
Definition read16 (m : memory) (a : Z) : Z := le_value (read_bytes m a 2).

Section Access.
Context {D E : Type} `{Hw D}.
Notation HM := (M (D * Vmm.VState) E).

Definition empty_err (e : Empty_set) : E := match e with end.

Definition memory_of (e : D * Vmm.VState) : memory := phys_mem (Vmm.pst e.2).
Definition set_memory (m : memory) (e : D * Vmm.VState) : D * Vmm.VState :=
  (e.1, Vmm.set_pst e.2 (set_phys_mem (Vmm.pst e.2) m)).

(** Registers. *)
Definition reg_read (n a : Z) : HM Z := λ e, let '(v, e) := hw_read n a e in (Ok v, e).
Definition reg_write (n a v : Z) : HM unit := λ e, (Ok tt, hw_write n a v e).
Definition port_in (n a : Z) : HM Z := λ e, let '(v, e) := hw_in n a e in (Ok v, e).
Definition port_out (n a v : Z) : HM unit := λ e, (Ok tt, hw_out n a v e).
Definition now : HM Z := λ e, let '(t, e) := hw_time e in (Ok t, e).
Definition yield_now : HM unit := λ e, (Ok tt, hw_yield e).

(** Shared memory: plain accesses, and volatile reads. *)
Definition mem_get {A} (f : memory → A) : HM A := λ e, (Ok (f (memory_of e)), e).
Definition mem_set (f : memory → memory) : HM unit := λ e, (Ok tt, set_memory (f (memory_of e)) e).
Definition mem_volatile {A} (f : memory → A) : HM A := λ e, let e := hw_run e in (Ok (f (memory_of e)), e).

(** The kernel's own functions. *)
Definition on_vmm {A} (m : Vmm.V A) : HM A := λ e, let '(r, v) := m e.2 in (map_err empty_err r, (e.1, v)).
Definition on_pmm {A} (m : M PState Empty_set A) : HM A := on_vmm (Vmm.on_pmm m).
End Access.

Lemma memory_of_set {D} (m : memory) (e : D * Vmm.VState) : memory_of (set_memory m e) = m.
Proof. done. Qed.

Lemma read32_write32_eq m a v : 0 ≤ v < 2^32 → read32 (write32 m a v) a = v.
Proof.
  intros Hv. unfold read32, write32. pose proof (read_write_bytes_eq m a (le_bytes 4 v)) as E.
  rewrite length_le_bytes in E. rewrite E. by apply le_value_bytes.
Qed.

Lemma read32_range m a : mem_ok m → 0 ≤ read32 m a < 2^32.
Proof.
  intros Hm. pose proof (le_value_range (read_bytes m a 4) (read_bytes_ok m a 4 Hm)) as H.
  by rewrite length_read_bytes in H.
Qed.
