(* ===== verification/Hid.v ===== *)
(** * USB keyboards: descriptors and reports ([drivers/usb/xhci.rs])

    The parts of the driver that touch no hardware: finding the keyboard in a
    configuration descriptor, the polling interval, turning the 8-byte reports
    of the HID boot protocol into characters, and the queue they wait in. *)
From Stdlib Require Import String.
From stdpp Require Import base numbers list.
From Stdlib Require Import ZArith Lia Bool.
From S2P Require Import Prelude Bytes Str.

Module Hid.

(** ** Requests and descriptors *)
Definition setup_packet (request_type request value index length : Z) : Z :=
  Z.lor (Z.lor (Z.lor (Z.lor request_type (Z.shiftl request 8)) (Z.shiftl value 16))
    (Z.shiftl index 32)) (Z.shiftl length 48).

Record BootKeyboardEndpoint := mkEndpoint {
  configuration : Z; interface : Z; dci : Z; max_packet : Z; interval : Z
}.

(** [config[i]]. *)
Definition at_ (config : list Z) (i : Z) : res Empty_set Z := expect (config !! Z.to_nat i).

(** [u16::from_le_bytes([config[i], config[i + 1]])]. *)
Definition u16_at (config : list Z) (i : Z) : res Empty_set Z :=
  let? lo := at_ config i in let? hi := at_ config (i + 1) in Ok (lo + 256 * hi).

(** An interface descriptor: [Some] its number when it is a boot keyboard. *)
Definition boot_interface (config : list Z) (offset : Z) : res Empty_set (option Z) :=
  let? alternate := at_ config (offset + 3) in
  let? class := at_ config (offset + 5) in
  let? subclass := at_ config (offset + 6) in
  let? protocol := at_ config (offset + 7) in
  if (alternate =? 0) && (class =? 3) && (subclass =? 1) && (protocol =? 1)
  then let? number := at_ config (offset + 2) in Ok (Some number) else Ok None.

(** An endpoint descriptor of boot keyboard interface [iface]. *)
Definition interrupt_in (config : list Z) (offset configuration iface speed : Z) :
    res Empty_set (option BootKeyboardEndpoint) :=
  let? address := at_ config (offset + 2) in
  let? attributes := at_ config (offset + 3) in
  let? packet := u16_at config (offset + 4) in
  let packet := Z.land packet 0x07ff in
  if negb (Z.land address 0x80 =? 0) && negb (Z.land address 0x0f =? 0) && (Z.land attributes 0x03 =? 0x03)
     && (8 <=? packet) && (negb (speed =? 2) || (packet =? 8))
  then let? step := at_ config (offset + 6) in
       Ok (Some (mkEndpoint configuration iface (Z.land address 0x0f * 2 + 1) packet (Z.max step 1)))
  else Ok None.

Fixpoint find_loop (fuel : nat) (config : list Z) (total configuration speed offset : Z) (keyboard_iface : option Z) :
    res Empty_set (option BootKeyboardEndpoint) :=
  if offset + 2 <=? total then
    match fuel with
    | O => Diverge
    | S fuel =>
        let? len := at_ config offset in
        let? kind := at_ config (offset + 1) in
        if (len <? 2) || (total <? offset + len) then Ok None
        else if (kind =? 4) && (9 <=? len) then
          let? iface := boot_interface config offset in
          find_loop fuel config total configuration speed (offset + len) iface
        else match keyboard_iface with
             | Some iface =>
                 if (kind =? 5) && (7 <=? len) then
                   let? found := interrupt_in config offset configuration iface speed in
                   match found with
                   | Some endpoint => Ok (Some endpoint)
                   | None => find_loop fuel config total configuration speed (offset + len) keyboard_iface
                   end
                 else find_loop fuel config total configuration speed (offset + len) keyboard_iface
             | None => find_loop fuel config total configuration speed (offset + len) keyboard_iface
             end
    end
  else Ok None.

Definition find_boot_keyboard (config : list Z) (speed : Z) : res Empty_set (option BootKeyboardEndpoint) :=
  if Z.of_nat (length config) <? 9 then Ok None
  else
    let? kind := at_ config 1 in
    if negb (kind =? 2) then Ok None
    else
      let? total := u16_at config 2 in
      if (total <? 9) || (Z.of_nat (length config) <? total) then Ok None
      else
        let? configuration := at_ config 5 in
        find_loop (length config) config total configuration speed 9 None.

(** [31 - microframes.leading_zeros()] is the logarithm, rounded down. *)
Definition xhci_interval (speed descriptor_interval : Z) : option Z :=
  let interval := Z.max descriptor_interval 1 in
  if (speed =? 1) || (speed =? 2) then
    if interval * 8 <=? u32_max then Some (Z.log2 (interval * 8)) else None
  else if ((speed =? 3) || (speed =? 4)) && (interval <=? 16) then Some (interval - 1)
  else None.

(** ** Reports *)
Definition HID_UNSHIFTED : list Z :=
  [0; 0; 0; 0] ++ lit "abcdefghijklmnopqrstuvwxyz1234567890" ++ [10; 27; 8; 9] ++ lit " -=[]\" ++ [0] ++ lit ";'`,./".

Definition HID_SHIFTED : list Z :=
  [0; 0; 0; 0] ++ lit "ABCDEFGHIJKLMNOPQRSTUVWXYZ!@#$%^&*()" ++ [10; 27; 8; 9] ++ lit " _+{}|" ++ [0] ++ lit ":" ++ [34] ++ lit "~<>?".

Definition HID_KEYCODE_CAPS_LOCK : Z := 0x39.
Definition MOD_LSHIFT : Z := Z.shiftl 1 1.
Definition MOD_RSHIFT : Z := Z.shiftl 1 5.

(** One round of the loop: caps lock, the output array and how much of it is
    used. *)
Definition translate_key (shift : bool) (prev_keys : list Z) (st : bool * list Z * nat) (code : Z) : bool * list Z * nat :=
  let '(caps_lock, output, count) := st in
  if (code =? 0) || bool_decide (code ∈ prev_keys) then st
  else if code =? HID_KEYCODE_CAPS_LOCK then (negb caps_lock, output, count)
  else if Z.of_nat (length HID_UNSHIFTED) <=? code then st
  else
    let ascii := (if shift then HID_SHIFTED else HID_UNSHIFTED) !!! Z.to_nat code in
    if ascii =? 0 then st
    else
      let ascii :=
        if caps_lock && is_lower ascii then to_ascii_uppercase ascii
        else if caps_lock && is_upper ascii && shift then to_ascii_lowercase ascii
        else ascii in
      (caps_lock, <[count := ascii]> output, S count).

(** The new [prev_keys] and [caps_lock], and the result. *)
Definition translate_boot_report (prev_keys : list Z) (caps_lock : bool) (report : list Z) :
    list Z * bool * (list Z * nat) :=
  let shift := negb (Z.land (report !!! 0%nat) (Z.lor MOD_LSHIFT MOD_RSHIFT) =? 0) in
  let keys := [report !!! 2%nat; report !!! 3%nat; report !!! 4%nat; report !!! 5%nat; report !!! 6%nat; report !!! 7%nat] in
  let '(caps_lock, output, count) := foldl (translate_key shift prev_keys) (caps_lock, replicate 6 0, O) keys in
  (keys, caps_lock, (output, count)).

(** The self-test run at boot, as the flag it computes. *)
Definition self_test : bool :=
  let report := replicate 8 0 in
  let a := <[2%nat := 0x04]> report in
  let '(prev, caps, (pressed, pressed_len)) := translate_boot_report (replicate 6 0) false a in
  let '(prev, caps, (_, held_len)) := translate_boot_report prev caps a in
  let '(prev, caps, (_, released_len)) := translate_boot_report prev caps report in
  let '(prev, caps, (shifted, shifted_len)) := translate_boot_report prev caps (<[0%nat := MOD_LSHIFT]> a) in
  let '(prev, caps, (_, caps_len)) := translate_boot_report prev caps (<[2%nat := HID_KEYCODE_CAPS_LOCK]> report) in
  let '(prev, caps, _) := translate_boot_report prev caps report in
  let '(prev, caps, (capitalized, capitalized_len)) := translate_boot_report prev caps a in
  bool_decide (pressed_len = 1%nat) && (pressed !!! 0%nat =? 97) && bool_decide (held_len = 0%nat)
  && bool_decide (released_len = 0%nat) && bool_decide (shifted_len = 1%nat) && (shifted !!! 0%nat =? 65)
  && bool_decide (caps_len = 0%nat) && caps && bool_decide (capitalized_len = 1%nat) && (capitalized !!! 0%nat =? 65).

(** ** The queue *)
Record RingBuffer := mkRing { buf : list Z; head : Z; tail : Z; len : Z }.
Definition RingBuffer_new : RingBuffer := mkRing (replicate 256 0) 0 0 0.

Definition push (byte : Z) (r : RingBuffer) : RingBuffer :=
  let r := if len r =? 256 then mkRing (buf r) (head r) ((tail r + 1) mod 256) (len r - 1) else r in
  mkRing (<[Z.to_nat (head r) := byte]> (buf r)) ((head r + 1) mod 256) (tail r) (len r + 1).

Definition pop (r : RingBuffer) : option Z * RingBuffer :=
  if len r =? 0 then (None, r)
  else (Some (buf r !!! Z.to_nat (tail r)), mkRing (buf r) (head r) ((tail r + 1) mod 256) (len r - 1)).
End Hid.
