(* ===== verification/HidInv.v ===== *)
(** * USB keyboards: what reports type and which endpoint is found

    [report_spec] says what a report types: the keys that were not down
    before, in order, a letter in upper case when exactly one of shift and caps
    lock is on.  The queue of characters is the one of [KeyQueue].  A
    configuration is a list of interfaces with their endpoints;
    [find_boot_keyboard] on its bytes finds the first suitable endpoint of a
    boot keyboard. *)
From Stdlib Require Import String.
From stdpp Require Import base numbers list.
From Stdlib Require Import ZArith Lia Bool.
From S2P Require Import Prelude Bytes Str Keyboard KeyQueue Hid.

(** ** Reports *)
Definition key_char (shift caps : bool) (code : Z) : list Z :=
  match (if shift then Hid.HID_SHIFTED else Hid.HID_UNSHIFTED) !! Z.to_nat code with
  | None | Some 0 => []
  | Some ch => [letter_case (mkMods shift caps false) ch]
  end.

(** The characters of the keys that are newly down, and caps lock after. *)
Fixpoint typed (shift caps : bool) (prev keys : list Z) : list Z * bool :=
  match keys with
  | [] => ([], caps)
  | code :: keys =>
      if bool_decide (code = 0 ∨ code ∈ prev) then typed shift caps prev keys
      else if code =? Hid.HID_KEYCODE_CAPS_LOCK then typed shift (negb caps) prev keys
      else let '(chars, caps') := typed shift caps prev keys in (key_char shift caps code ++ chars, caps')
  end.

(** Either shift key. *)
Definition shifted (report : list Z) : bool := Z.testbit (report !!! 0%nat) 1 || Z.testbit (report !!! 0%nat) 5.

Definition report_spec (prev : list Z) (caps : bool) (report : list Z) : list Z * bool :=
  typed (shifted report) caps prev (drop 2 report).

Lemma shift_test x : negb (Z.land x (Z.lor Hid.MOD_LSHIFT Hid.MOD_RSHIFT) =? 0) = Z.testbit x 1 || Z.testbit x 5.
Proof.
  change (Z.lor Hid.MOD_LSHIFT Hid.MOD_RSHIFT) with (Z.lor (2^1) (2^5)). rewrite Z.land_lor_distr_r.
  rewrite <- (land_pow2_test x 1), <- (land_pow2_test x 5) by lia.
  pose proof (Z.lor_eq_0_iff (Z.land x (2^1)) (Z.land x (2^5))).
  destruct (Z.eqb_spec (Z.lor (Z.land x (2^1)) (Z.land x (2^5))) 0), (Z.eqb_spec (Z.land x (2^1)) 0), (Z.eqb_spec (Z.land x (2^5)) 0); tauto.
Qed.

(** The case of the character in the table and the case rule agree. *)
Lemma usb_table_case (code : nat) (ch : Z) (sh cp : bool) :
  (if sh then Hid.HID_SHIFTED else Hid.HID_UNSHIFTED) !! code = Some ch →
  (if cp && is_lower ch then to_ascii_uppercase ch
   else if cp && is_upper ch && sh then to_ascii_lowercase ch else ch) = letter_case (mkMods sh cp false) ch.
Proof.
  intros E. apply list_elem_of_lookup_2 in E.
  assert (Hall : ∀ sh cp, Forall (λ ch, (if cp && is_lower ch then to_ascii_uppercase ch
     else if cp && is_upper ch && sh then to_ascii_lowercase ch else ch) = letter_case (mkMods sh cp false) ch)
     (if sh : bool then Hid.HID_SHIFTED else Hid.HID_UNSHIFTED)).
  { intros [] []; repeat (apply Forall_cons_2; [reflexivity|]); apply Forall_nil_2. }
  by apply (proj1 (Forall_forall _ _) (Hall sh cp)).
Qed.

Lemma tables_length (sh : bool) : length (if sh then Hid.HID_SHIFTED else Hid.HID_UNSHIFTED) = 57%nat.
Proof. by destruct sh. Qed.

Lemma translate_key_spec shift prev caps out count code : 0 ≤ code →
  Hid.translate_key shift prev (caps, out, count) code =
  if bool_decide (code = 0 ∨ code ∈ prev) then (caps, out, count)
  else if code =? Hid.HID_KEYCODE_CAPS_LOCK then (negb caps, out, count)
  else match key_char shift caps code with
       | [] => (caps, out, count)
       | ch :: _ => (caps, <[count := ch]> out, S count)
       end.
Proof.
  intros Hc. unfold Hid.translate_key, key_char.
  replace ((code =? 0) || bool_decide (code ∈ prev)) with (bool_decide (code = 0 ∨ code ∈ prev)).
  2: { rewrite bool_decide_or. f_equal. destruct (Z.eqb_spec code 0); [by apply bool_decide_eq_true|by apply bool_decide_eq_false]. }
  case_bool_decide; [done|]. destruct (code =? Hid.HID_KEYCODE_CAPS_LOCK); [done|].
  pose proof (tables_length shift) as Hl.
  destruct (Z.leb_spec (Z.of_nat (length Hid.HID_UNSHIFTED)) code) as [Hge|Hlt]; change (Z.of_nat (length Hid.HID_UNSHIFTED)) with 57 in *.
  - rewrite lookup_ge_None_2 by (rewrite Hl; lia). done.
  - destruct (lookup_lt_is_Some_2 (if shift then Hid.HID_SHIFTED else Hid.HID_UNSHIFTED) (Z.to_nat code)) as [ch E]; [rewrite Hl; lia|].
    rewrite (list_lookup_total_correct _ _ _ E), E. destruct (Z.eqb_spec ch 0) as [-> |Hn]; [done|].
    rewrite (usb_table_case _ _ shift caps E). by destruct ch.
Qed.

Lemma translate_keys shift prev keys : ∀ caps out count chars caps',
  Forall (λ c, 0 ≤ c) keys → (count + length keys ≤ length out)%nat →
  typed shift caps prev keys = (chars, caps') →
  ∃ out', foldl (Hid.translate_key shift prev) (caps, out, count) keys = (caps', out', (count + length chars)%nat) ∧
          take (count + length chars) out' = take count out ++ chars ∧ length out' = length out ∧ (length chars ≤ length keys)%nat.
Proof.
  induction keys as [|code keys IH]; intros caps out count chars caps' Hk Hl Ht.
  - injection Ht as <- <-. exists out. simpl. rewrite Nat.add_0_r, app_nil_r. done.
  - apply Forall_cons in Hk as [Hc Hk]. simpl in Hl. cbn [foldl]. rewrite translate_key_spec by done. simpl in Ht.
    case_bool_decide; [|destruct (code =? Hid.HID_KEYCODE_CAPS_LOCK)].
    1-2: destruct (IH _ out count _ _ Hk ltac:(lia) Ht) as (out' & -> & ? & ? & ?); exists out'; simpl; repeat split; auto; lia.
    destruct (typed shift caps prev keys) as [rest c1] eqn:Er. injection Ht as <- <-.
    assert (Hk1 : key_char shift caps code = [] ∨ ∃ ch, key_char shift caps code = [ch]).
    { unfold key_char. destruct ((if shift then Hid.HID_SHIFTED else Hid.HID_UNSHIFTED) !! Z.to_nat code) as [[|?|?]|]; eauto. }
    destruct Hk1 as [-> | [ch ->]]; simpl.
    + destruct (IH _ out count _ _ Hk ltac:(lia) Er) as (out' & -> & ? & ? & ?). exists out'. repeat split; auto; lia.
    + destruct (IH _ (<[count := ch]> out) (S count) _ _ Hk ltac:(rewrite length_insert; lia) Er) as (out' & -> & E & Hlen & ?).
      exists out'. rewrite length_insert in Hlen. replace (count + S (length rest))%nat with (S count + length rest)%nat by lia.
      split; [done|]. split; [|split; [done|lia]]. rewrite E.
      rewrite (take_S_r _ _ ch) by (apply list_lookup_insert_eq; lia). rewrite take_insert_ge by lia. by rewrite <- app_assoc.
Qed.

(** [translate_boot_report] types what a report says. *)
Lemma translate_spec prev caps report chars caps' :
  length report = 8%nat → bytes_ok report → report_spec prev caps report = (chars, caps') →
  ∃ out, Hid.translate_boot_report prev caps report = (drop 2 report, caps', (out, length chars)) ∧ take (length chars) out = chars.
Proof.
  intros Hl Hb Hs. unfold Hid.translate_boot_report.
  do 9 (destruct report as [|? report]; try discriminate Hl).
  change (foldl _ _ _) with (foldl (Hid.translate_key (negb (Z.land z (Z.lor Hid.MOD_LSHIFT Hid.MOD_RSHIFT) =? 0)) prev) (caps, replicate 6 0, O) [z1; z2; z3; z4; z5; z6]).
  rewrite shift_test. unfold report_spec, shifted in Hs. change (([z; z0; z1; z2; z3; z4; z5; z6] : list Z) !!! 0%nat) with z in Hs. simpl drop in Hs.
  destruct (translate_keys (Z.testbit z 1 || Z.testbit z 5) prev [z1; z2; z3; z4; z5; z6] caps (replicate 6 0) 0 chars caps') as (out & -> & E & _ & _); try done.
  { apply (Forall_impl is_byte); [|intros x Hx; unfold is_byte in Hx; lia]. by repeat (apply Forall_cons in Hb as [? Hb]; try (apply Forall_cons_2; [done|])). }
  exists out. done.
Qed.

(** ** The queue *)
Definition as_keyboard (r : Hid.RingBuffer) : Keyboard.RingBuffer :=
  Keyboard.mkRing (Hid.buf r) (Hid.head r) (Hid.tail r) (Hid.len r).

Lemma push_same b r : as_keyboard (Hid.push b r) = Keyboard.push b (as_keyboard r).
Proof. unfold Hid.push, Keyboard.push, as_keyboard, Keyboard.BUFFER_CAP. simpl. by destruct (Hid.len r =? 256). Qed.

Lemma pop_same r : let '(b, r') := Hid.pop r in Keyboard.pop (as_keyboard r) = (b, as_keyboard r').
Proof. unfold Hid.pop, Keyboard.pop, as_keyboard, Keyboard.BUFFER_CAP. simpl. by destruct (Hid.len r =? 0). Qed.

Definition queue_ok (r : Hid.RingBuffer) : Prop := ring_ok (as_keyboard r).
Definition queued (r : Hid.RingBuffer) : list Z := contents (as_keyboard r).

Lemma push_all_queued bs : ∀ r, queue_ok r →
  queue_ok (foldl (λ q b, Hid.push b q) r bs) ∧ queued (foldl (λ q b, Hid.push b q) r bs) = keep (queued r ++ bs).
Proof.
  induction bs as [|b bs IH]; intros r Hr; [by rewrite app_nil_r; split; [|symmetry; rewrite <- (app_nil_r (queued r)); apply keep_contents]|].
  simpl. pose proof (push_contents (as_keyboard r) b Hr) as [Ho Hc]. rewrite <- push_same in Ho, Hc.
  destruct (IH (Hid.push b r) Ho) as [? ->]. split; [done|].
  unfold queued in *. by rewrite Hc, keep_keep, <- app_assoc.
Qed.

Lemma pop_queued r : queue_ok r →
  match queued r with
  | [] => Hid.pop r = (None, r)
  | b :: q => ∃ r', Hid.pop r = (Some b, r') ∧ queue_ok r' ∧ queued r' = q
  end.
Proof.
  intros Hr. pose proof (pop_contents (as_keyboard r) Hr) as Hp. pose proof (pop_same r) as Hs. unfold queued.
  destruct (contents (as_keyboard r)) as [|b q] eqn:E.
  - unfold Hid.pop in *. destruct (Hid.len r =? 0); [done|]. rewrite Hs in Hp. injection Hp as ?. discriminate.
  - destruct Hp as (r1 & Hp & Ho & Hc). destruct (Hid.pop r) as [o r'] eqn:Ep. rewrite Hs in Hp. injection Hp as -> <-. eauto.
Qed.

(** ** Configurations *)
Record EndpointDesc := mkEp { ep_address : Z; ep_attributes : Z; ep_packet : Z; ep_interval : Z; ep_extra : list Z }.
Inductive item := Ep (e : EndpointDesc) | Other (kind : Z) (body : list Z).
Record InterfaceDesc := mkIface { if_number : Z; if_alternate : Z; if_endpoints : Z; if_class : Z; if_subclass : Z; if_protocol : Z; if_string : Z; if_items : list item }.
Record Configuration := mkConf { conf_value : Z; conf_string : Z; conf_attributes : Z; conf_power : Z; conf_lead : list item; conf_ifaces : list InterfaceDesc }.

(** Their bytes. *)
Definition item_bytes (i : item) : list Z :=
  match i with
  | Ep e => [7 + Z.of_nat (length (ep_extra e)); 5; ep_address e; ep_attributes e; ep_packet e mod 256; ep_packet e / 256; ep_interval e] ++ ep_extra e
  | Other kind body => [2 + Z.of_nat (length body); kind] ++ body
  end.
Definition iface_head (i : InterfaceDesc) : list Z :=
  [9; 4; if_number i; if_alternate i; if_endpoints i; if_class i; if_subclass i; if_protocol i; if_string i].
Definition iface_bytes (i : InterfaceDesc) : list Z := iface_head i ++ concat (map item_bytes (if_items i)).
Definition conf_body (c : Configuration) : list Z :=
  concat (map item_bytes (conf_lead c)) ++ concat (map iface_bytes (conf_ifaces c)).
Definition conf_bytes (c : Configuration) : list Z :=
  let total := 9 + Z.of_nat (length (conf_body c)) in
  [9; 2; total mod 256; total / 256; Z.of_nat (length (conf_ifaces c)); conf_value c; conf_string c; conf_attributes c; conf_power c] ++ conf_body c.

(** The suitable endpoints of boot keyboards, in order: interrupt endpoints to
    the host with a number and packets of at least 8 bytes, exactly 8 at low
    speed. *)
Definition boot_keyboard (i : InterfaceDesc) : bool :=
  (if_alternate i =? 0) && (if_class i =? 3) && (if_subclass i =? 1) && (if_protocol i =? 1).
Definition suitable (speed : Z) (e : EndpointDesc) : bool :=
  Z.testbit (ep_address e) 7 && negb (ep_address e mod 16 =? 0) && (ep_attributes e mod 4 =? 3)
  && (8 <=? ep_packet e mod 2048) && (negb (speed =? 2) || (ep_packet e mod 2048 =? 8)).
Definition endpoint_of (c : Configuration) (i : InterfaceDesc) (e : EndpointDesc) : Hid.BootKeyboardEndpoint :=
  Hid.mkEndpoint (conf_value c) (if_number i) (ep_address e mod 16 * 2 + 1) (ep_packet e mod 2048) (Z.max (ep_interval e) 1).
Definition item_keyboards (c : Configuration) (speed : Z) (i : InterfaceDesc) (it : item) : list Hid.BootKeyboardEndpoint :=
  match it with Ep e => if suitable speed e then [endpoint_of c i e] else [] | Other _ _ => [] end.
Definition iface_keyboards (c : Configuration) (speed : Z) (i : InterfaceDesc) : list Hid.BootKeyboardEndpoint :=
  if boot_keyboard i then flat_map (item_keyboards c speed i) (if_items i) else [].
Definition keyboards_of (c : Configuration) (speed : Z) : list Hid.BootKeyboardEndpoint :=
  flat_map (iface_keyboards c speed) (conf_ifaces c).

(** Lengths that fit their byte; other descriptors are not interfaces or
    endpoints. *)
Definition item_ok (i : item) : Prop :=
  match i with
  | Ep e => 7 + Z.of_nat (length (ep_extra e)) < 256 ∧ 0 ≤ ep_packet e
  | Other kind body => 2 + Z.of_nat (length body) < 256 ∧ kind ≠ 4 ∧ kind ≠ 5
  end.
Definition conf_ok (c : Configuration) : Prop :=
  Forall item_ok (conf_lead c) ∧ Forall (λ i, Forall item_ok (if_items i)) (conf_ifaces c) ∧
  Z.of_nat (length (conf_body c)) < 2^16 - 9.

Section FindLoop.
Context (config : list Z) (configuration speed : Z).
Notation total := (Z.of_nat (length config)).
Notation find fuel off iface := (Hid.find_loop fuel config total configuration speed off iface).

(** The bytes from [off] on are [d] and then [rest]. *)
Definition here (off : Z) (d rest : list Z) : Prop := 0 ≤ off ∧ drop (Z.to_nat off) config = d ++ rest.

Lemma here_at off d rest i x : here off d rest → d !! Z.to_nat i = Some x → 0 ≤ i → Hid.at_ config (off + i) = Ok x.
Proof.
  intros [Ho Hd] Hx Hi. unfold Hid.at_. rewrite Z2Nat.inj_add by lia.
  rewrite <- lookup_drop, Hd, (lookup_app_l_Some _ _ _ _ Hx). done.
Qed.

Lemma here_next off d rest d' rest' : here off d rest → rest = d' ++ rest' → here (off + Z.of_nat (length d)) d' rest'.
Proof.
  intros [Ho Hd] ->. split; [lia|]. replace (Z.to_nat (off + Z.of_nat (length d))) with (Z.to_nat off + length d)%nat by lia.
  rewrite <- drop_drop, Hd. by rewrite drop_app_length.
Qed.

Lemma here_length off d rest : here off d rest → (d ≠ [] ∨ off ≤ total) → off + Z.of_nat (length d + length rest) = total.
Proof.
  intros [Ho Hd] Hne. apply (f_equal length) in Hd. rewrite length_drop, length_app in Hd.
  destruct Hne as [Hne|]; [|lia]. destruct d; [done|]. simpl in *. lia.
Qed.

(** Over one descriptor. *)
Lemma find_item fuel off iface it rest :
  here off (item_bytes it) rest → item_ok it →
  find (S fuel) off iface =
  match iface, it with
  | Some n, Ep e =>
      if suitable speed e then Ok (Some (Hid.mkEndpoint configuration n (ep_address e mod 16 * 2 + 1) (ep_packet e mod 2048) (Z.max (ep_interval e) 1)))
      else find fuel (off + Z.of_nat (length (item_bytes it))) iface
  | _, _ => find fuel (off + Z.of_nat (length (item_bytes it))) iface
  end.
Proof.
  intros Hh Hok. assert (Hne : item_bytes it ≠ []) by by destruct it.
  pose proof (here_length _ _ _ Hh (or_introl Hne)) as Hlen.
  assert (Hl2 : (2 ≤ length (item_bytes it))%nat) by (destruct it; simpl; lia).
  cbn [Hid.find_loop]. rewrite (proj2 (Z.leb_le _ _)) by lia.
  pose proof (λ i x, here_at off _ _ i x Hh) as Hat.
  assert (H0 : Hid.at_ config off = Ok (Z.of_nat (length (item_bytes it)))).
  { rewrite <- (Z.add_0_r off). apply Hat; [|lia]. destruct it; simpl; f_equal; lia. }
  rewrite H0. cbn [res_bind].
  assert (Hfit : (Z.of_nat (length (item_bytes it)) <? 2) || (total <? off + Z.of_nat (length (item_bytes it))) = false).
  { apply orb_false_iff. split; apply Z.ltb_ge; lia. }
  destruct it as [e|kind body].
  - rewrite (Hat 1 5 eq_refl ltac:(lia)). cbn [res_bind]. rewrite Hfit. change ((5 =? 4) && _) with false. cbn [andb].
    destruct iface as [n|]; [|done].
    assert (Hge : (7 <=? Z.of_nat (length (item_bytes (Ep e)))) = true) by (apply Z.leb_le; simpl; lia).
    change (5 =? 5) with true. rewrite Hge. cbn [andb]. unfold Hid.interrupt_in, Hid.u16_at.
    replace (off + 4 + 1) with (off + 5) by lia.
    rewrite (Hat 2 (ep_address e) eq_refl ltac:(lia)), (Hat 3 (ep_attributes e) eq_refl ltac:(lia)), (Hat 4 (ep_packet e mod 256) eq_refl ltac:(lia)), (Hat 5 (ep_packet e / 256) eq_refl ltac:(lia)).
    cbn [res_bind].
    replace (ep_packet e mod 256 + 256 * (ep_packet e / 256)) with (ep_packet e) by (pose proof (Z.div_mod (ep_packet e) 256); lia).
    change 0x07ff with (2^11 - 1). change 0x0f with (2^4 - 1). change 0x03 with (2^2 - 1) at 1. rewrite !land_mask by lia.
    change 0x80 with (2^7). rewrite land_pow2_test by lia. change (2^11) with 2048. change (2^4) with 16. change (2^2) with 4. fold (suitable speed e).
    destruct (suitable speed e); [|done]. rewrite (Hat 6 (ep_interval e) eq_refl ltac:(lia)). done.
  - destruct Hok as (_ & H4 & H5). rewrite (Hat 1 kind eq_refl ltac:(lia)). cbn [res_bind]. rewrite Hfit.
    rewrite (proj2 (Z.eqb_neq kind 4)), (proj2 (Z.eqb_neq kind 5)) by done. cbn [andb]. by destruct iface.
Qed.

Lemma find_items its : ∀ fuel off iface rest,
  here off (concat (map item_bytes its)) rest → Forall item_ok its → (length its ≤ fuel)%nat →
  match iface, flat_map (λ it, match it with Ep e => if suitable speed e then [e] else [] | Other _ _ => [] end) its with
  | Some n, e :: _ => find fuel off iface = Ok (Some (Hid.mkEndpoint configuration n (ep_address e mod 16 * 2 + 1) (ep_packet e mod 2048) (Z.max (ep_interval e) 1)))
  | _, _ => find fuel off iface = find (fuel - length its) (off + Z.of_nat (length (concat (map item_bytes its)))) iface
  end.
Proof.
  induction its as [|it its IH]; intros fuel off iface rest Hh Hok Hf.
  - simpl. rewrite Z.add_0_r, Nat.sub_0_r. by destruct iface.
  - apply Forall_cons in Hok as [Hi Hok]. destruct fuel as [|fuel]; [simpl in Hf; lia|]. cbn [map concat] in *. rewrite <- app_assoc in Hh || idtac.
    assert (Hh1 : here off (item_bytes it) (concat (map item_bytes its) ++ rest)) by (destruct Hh as [? Hh]; split; [done|by rewrite app_assoc]).
    pose proof (here_next _ _ _ _ _ Hh1 eq_refl) as Hh2.
    pose proof (find_item fuel off iface it _ Hh1 Hi) as Hs.
    pose proof (IH fuel _ iface rest Hh2 Hok ltac:(simpl in Hf; lia)) as Hr.
    rewrite length_app, Nat2Z.inj_add, Z.add_assoc. cbn [length]. change (S fuel - S (length its))%nat with (fuel - length its)%nat.
    destruct iface as [n|]; [|by rewrite Hs].
    destruct it as [e|kind body]; cbn [flat_map app]; [|by rewrite Hs].
    destruct (suitable speed e); [exact Hs|by rewrite Hs].
Qed.

Lemma iface_head_cons i : iface_head i ≠ [].
Proof. done. Qed.

Lemma find_head fuel off iface i rest :
  here off (iface_head i) rest →
  find (S fuel) off iface = find fuel (off + 9) (if boot_keyboard i then Some (if_number i) else None).
Proof.
  intros Hh. pose proof (here_length _ _ _ Hh (or_introl (iface_head_cons i))) as Hlen. change (length (iface_head i)) with 9%nat in Hlen.
  cbn [Hid.find_loop]. rewrite (proj2 (Z.leb_le _ _)) by lia.
  pose proof (λ i x, here_at off _ _ i x Hh) as Hat. unfold Hid.boot_interface.
  replace (Hid.at_ config off) with (Hid.at_ config (off + 0)) by (f_equal; lia).
  rewrite (Hat 0 9 eq_refl ltac:(lia)), (Hat 1 4 eq_refl ltac:(lia)). cbn [res_bind].
  rewrite (proj2 (Z.ltb_ge total (off + 9))) by lia. change ((9 <? 2) || false) with false. change ((4 =? 4) && (9 <=? 9)) with true. cbv iota.
  rewrite (Hat 3 (if_alternate i) eq_refl ltac:(lia)), (Hat 5 (if_class i) eq_refl ltac:(lia)), (Hat 6 (if_subclass i) eq_refl ltac:(lia)), (Hat 7 (if_protocol i) eq_refl ltac:(lia)).
  cbn [res_bind]. fold (boot_keyboard i). destruct (boot_keyboard i); [|done]. by rewrite (Hat 2 (if_number i) eq_refl ltac:(lia)).
Qed.

(** How many descriptors interfaces have. *)
Definition descriptors (ifs : list InterfaceDesc) : nat := sum_list_with (λ i, S (length (if_items i))) ifs.

Lemma find_ifaces c ifs : conf_value c = configuration → ∀ fuel off iface,
  here off (concat (map iface_bytes ifs)) [] → off ≤ total → Forall (λ i, Forall item_ok (if_items i)) ifs → (descriptors ifs ≤ fuel)%nat →
  find fuel off iface = Ok (head (flat_map (iface_keyboards c speed) ifs)).
Proof.
  intros Hv. induction ifs as [|i ifs IH]; intros fuel off iface Hh Ho Hok Hf.
  - pose proof (here_length _ _ _ Hh (or_intror Ho)) as Hlen. simpl in Hlen. destruct fuel; simpl; rewrite (proj2 (Z.leb_gt _ _)) by lia; done.
  - apply Forall_cons in Hok as [Hi Hok]. cbn [map concat] in Hh. unfold iface_bytes in Hh at 1. cbn [descriptors sum_list_with] in Hf.
    destruct fuel as [|fuel]; [lia|].
    assert (Hh0 : here off (iface_head i) (concat (map item_bytes (if_items i)) ++ concat (map iface_bytes ifs))).
    { destruct Hh as [? Hh]. split; [done|]. by rewrite Hh, app_nil_r, app_assoc. }
    pose proof (here_next _ _ _ _ _ Hh0 eq_refl) as Hh1. change (Z.of_nat (length (iface_head i))) with 9 in Hh1.
    pose proof (here_next _ _ _ (concat (map iface_bytes ifs)) [] Hh1 ltac:(by rewrite app_nil_r)) as Hh2.
    pose proof (here_length _ _ _ Hh0 (or_introl (iface_head_cons i))) as Hlen.
    rewrite length_app in Hlen. change (length (iface_head i)) with 9%nat in Hlen.
    rewrite (find_head _ _ _ _ _ Hh0). cbn [flat_map]. unfold iface_keyboards at 1.
    pose proof (find_items (if_items i) fuel _ (if boot_keyboard i then Some (if_number i) else None) _ Hh1 Hi ltac:(unfold descriptors in Hf; lia)) as Hit.
    pose proof (λ ifc, IH (fuel - length (if_items i))%nat _ ifc Hh2 ltac:(lia) Hok ltac:(unfold descriptors in *; lia)) as Hrest.
    destruct (boot_keyboard i); [|rewrite Hit; apply Hrest].
    assert (Hmap : flat_map (item_keyboards c speed i) (if_items i) =
      map (endpoint_of c i) (flat_map (λ it, match it with Ep e => if suitable speed e then [e] else [] | Other _ _ => [] end) (if_items i))).
    { clear. induction (if_items i) as [|it its IHi]; [done|]. cbn [flat_map]. rewrite IHi, map_app. f_equal. destruct it; [|done]. simpl. by destruct (suitable speed e). }
    rewrite Hmap. destruct (flat_map _ (if_items i)) as [|e es]; [rewrite Hit; apply Hrest|].
    rewrite Hit. cbn. unfold endpoint_of. by rewrite Hv.
Qed.

(** The loop ends on any bytes. *)
Lemma find_loop_total fuel : ∀ t off iface,
  t ≤ total → 0 ≤ off → t - off < Z.of_nat fuel → bytes_ok config →
  ∃ o, Hid.find_loop fuel config t configuration speed off iface = Ok o.
Proof.
  induction fuel as [|fuel IH]; intros t off iface Ht Ho Hf Hb; cbn [Hid.find_loop].
  - rewrite (proj2 (Z.leb_gt _ _)) by lia. eauto.
  - destruct (Z.leb_spec (off + 2) t); [|eauto].
    assert (Hat : ∀ i, 0 ≤ i < total → ∃ x, Hid.at_ config i = Ok x ∧ is_byte x).
    { intros i Hi. unfold Hid.at_. destruct (lookup_lt_is_Some_2 config (Z.to_nat i)) as [x E]; [lia|]. rewrite E.
      exists x. split; [done|]. by apply (Forall_lookup_1 _ _ _ _ Hb E). }
    destruct (Hat off ltac:(lia)) as (len & -> & Hlen). destruct (Hat (off + 1) ltac:(lia)) as (kind & -> & _). cbn [res_bind].
    destruct (Z.ltb_spec len 2), (Z.ltb_spec t (off + len)); cbn [orb]; eauto.
    assert (Hnext : ∀ ifc, ∃ o, Hid.find_loop fuel config t configuration speed (off + len) ifc = Ok o) by (intros; apply IH; auto; lia).
    destruct ((kind =? 4) && (9 <=? len)) eqn:E4.
    { apply andb_true_iff in E4 as [_ E9]. apply Z.leb_le in E9. unfold Hid.boot_interface.
      destruct (Hat (off + 3) ltac:(lia)) as (? & -> & _), (Hat (off + 5) ltac:(lia)) as (? & -> & _), (Hat (off + 6) ltac:(lia)) as (? & -> & _), (Hat (off + 7) ltac:(lia)) as (? & -> & _), (Hat (off + 2) ltac:(lia)) as (? & -> & _).
      cbn [res_bind]. match goal with |- context [if ?b then Ok (Some _) else _] => destruct b end; cbn [res_bind]; apply Hnext. }
    destruct iface as [n|]; [|apply Hnext]. destruct ((kind =? 5) && (7 <=? len)) eqn:E5; [|apply Hnext].
    apply andb_true_iff in E5 as [_ E7]. apply Z.leb_le in E7. unfold Hid.interrupt_in, Hid.u16_at.
    destruct (Hat (off + 2) ltac:(lia)) as (? & -> & _), (Hat (off + 3) ltac:(lia)) as (? & -> & _), (Hat (off + 4) ltac:(lia)) as (? & -> & _), (Hat (off + 4 + 1) ltac:(lia)) as (? & -> & _), (Hat (off + 6) ltac:(lia)) as (? & -> & _).
    cbn [res_bind]. match goal with |- context [if ?b then Ok (Some _) else _] => destruct b end; cbn [res_bind]; [eauto|apply Hnext].
Qed.
End FindLoop.

Lemma descriptors_bound ifs : (descriptors ifs ≤ length (concat (map iface_bytes ifs)))%nat.
Proof.
  induction ifs as [|i ifs IH]; [done|]. cbn [map concat descriptors sum_list_with]. unfold iface_bytes at 1. rewrite length_app, length_app. unfold descriptors in IH.
  assert ((length (if_items i) ≤ length (concat (map item_bytes (if_items i))))%nat).
  { clear. induction (if_items i) as [|it its IH]; [done|]. simpl. rewrite length_app. destruct it; simpl; lia. }
  change (length (iface_head i)) with 9%nat. lia.
Qed.

Lemma find_total config speed : bytes_ok config → ∃ o, Hid.find_boot_keyboard config speed = Ok o.
Proof.
  intros Hb. unfold Hid.find_boot_keyboard. destruct (Z.ltb_spec (Z.of_nat (length config)) 9); [eauto|].
  assert (Hat : ∀ i, 0 ≤ i < 9 → ∃ x, Hid.at_ config i = Ok x).
  { intros i Hi. unfold Hid.at_. destruct (lookup_lt_is_Some_2 config (Z.to_nat i)) as [x E]; [lia|]. rewrite E. by exists x. }
  unfold Hid.u16_at. destruct (Hat 1 ltac:(lia)) as [? ->], (Hat 2 ltac:(lia)) as [? ->], (Hat (2 + 1) ltac:(lia)) as [? ->], (Hat 5 ltac:(lia)) as [? ->]. cbn [res_bind].
  destruct (negb _); [eauto|]. destruct (Z.ltb_spec (x0 + 256 * x1) 9), (Z.ltb_spec (Z.of_nat (length config)) (x0 + 256 * x1)); cbn [orb]; eauto.
  apply find_loop_total; [lia|lia|lia|done].
Qed.

Lemma find_conf c speed : conf_ok c → Hid.find_boot_keyboard (conf_bytes c) speed = Ok (head (keyboards_of c speed)).
Proof.
  intros (Hlead & His & Hlen). set (total := 9 + Z.of_nat (length (conf_body c))).
  assert (Hl : Z.of_nat (length (conf_bytes c)) = total) by (unfold conf_bytes; rewrite length_app; cbn [length]; unfold total; lia).
  unfold Hid.find_boot_keyboard. rewrite Hl. destruct (Z.ltb_spec total 9); [unfold total in *; lia|].
  assert (Hat : ∀ i x, 0 ≤ i < 9 → conf_bytes c !! Z.to_nat i = Some x → Hid.at_ (conf_bytes c) i = Ok x) by (intros i x _ E; unfold Hid.at_; by rewrite E).
  unfold Hid.u16_at. rewrite (Hat 1 2), (Hat 2 (total mod 256)), (Hat (2 + 1) (total / 256)), (Hat 5 (conf_value c)) by (done || lia). cbn [res_bind].
  change (negb (2 =? 2)) with false. cbv iota.
  replace (total mod 256 + 256 * (total / 256)) with total by (pose proof (Z.div_mod total 256); lia).
  rewrite (proj2 (Z.ltb_ge total 9)), (proj2 (Z.ltb_ge total total)) by lia. cbn [orb].
  rewrite <- Hl. set (config := conf_bytes c).
  assert (Hh : here config 9 (concat (map item_bytes (conf_lead c))) (concat (map iface_bytes (conf_ifaces c)))) by done.
  assert (Hle : (length (conf_lead c) ≤ length (concat (map item_bytes (conf_lead c))))%nat).
  { clear. induction (conf_lead c) as [|it its IH]; [done|]. simpl. rewrite length_app. destruct it; simpl; lia. }
  pose proof (descriptors_bound (conf_ifaces c)) as Hd.
  assert (Hb : length config = (9 + (length (concat (map item_bytes (conf_lead c))) + length (concat (map iface_bytes (conf_ifaces c)))))%nat).
  { unfold config, conf_bytes, conf_body. rewrite length_app, length_app. done. }
  pose proof (find_items config (conf_value c) speed (conf_lead c) (length config) 9 None _ Hh Hlead ltac:(lia)) as ->.
  pose proof (here_next config _ _ _ (concat (map iface_bytes (conf_ifaces c))) [] Hh ltac:(by rewrite app_nil_r)) as Hh2.
  apply find_ifaces; [done|exact Hh2|lia|done|lia].
Qed.

(** Looking for the keyboard in a configuration descriptor ends without a
    read outside of it on any bytes, and on the bytes of a configuration gives
    the first suitable endpoint of its boot keyboard interfaces, or none when
    there is none, with the numbers the descriptors have. *)
Theorem boot_keyboard_found bytes c speed :
  bytes_ok bytes → conf_ok c →
  (∃ o, Hid.find_boot_keyboard bytes speed = Ok o) ∧
  Hid.find_boot_keyboard (conf_bytes c) speed = Ok (head (keyboards_of c speed)).
Proof. intros Hb Hc. split; [by apply find_total|by apply find_conf]. Qed.

(** A mouse and a keyboard, with the report descriptors between. *)
Definition demo_conf : Configuration :=
  mkConf 1 0 0xa0 50 []
    [mkIface 0 0 1 3 1 2 0 [Other 0x21 [0x11; 1; 0; 1; 0x22; 52; 0]; Ep (mkEp 0x81 3 4 10 [])];
     mkIface 1 0 2 3 1 1 0 [Other 0x21 [0x11; 1; 0; 1; 0x22; 63; 0]; Ep (mkEp 0x02 3 8 10 []); Ep (mkEp 0x83 3 8 10 [])]].

Lemma boot_keyboard_found_witness :
  (∃ o, Hid.find_boot_keyboard [9; 2; 255; 255; 1] 1 = Ok o) ∧
  Hid.find_boot_keyboard (conf_bytes demo_conf) 1 = Ok (Some (Hid.mkEndpoint 1 1 7 8 10)).
Proof.
  apply (boot_keyboard_found [9; 2; 255; 255; 1] demo_conf 1).
  - apply bytes_okb_ok. vm_compute. reflexivity.
  - split; [apply Forall_nil_2|]. split; [|vm_compute; reflexivity].
    repeat (apply Forall_cons_2; [repeat (apply Forall_cons_2; [cbn; lia|]); apply Forall_nil_2|]). apply Forall_nil_2.
Defined.
