(* ===== verification/Xhci.v ===== *)
(** * The USB host controller: [drivers/usb/xhci.rs]

    Commands and transfers are 16-byte blocks (TRBs) in rings that the driver
    writes and the controller reads; the controller answers in an event ring.
    A [Ring]'s pointer [trbs] is its frame [phys] in the direct map.  A loop
    that waits on the clock or on the controller takes the fuel [fuel]; log
    lines are left out, but not the register reads among their arguments.

    Code that the source writes as closures over local variables returns them
    instead: the condition of [spin_until] returns [Some] what it found.  The
    early [return]s of a function are errors of the monad, caught where it
    ends. *)
From Stdlib Require Import String.
From stdpp Require Import base numbers list gmap.
From Stdlib Require Import ZArith Lia Bool.
From S2P Require Import Prelude Bytes Str Mem Pmm Vmm Hw Hid.

Module Xhci.

(** ** Registers and constants *)
Definition USBCMD_RUN : Z := Z.shiftl 1 0.
Definition USBCMD_HCRST : Z := Z.shiftl 1 1.
Definition USBSTS_HCH : Z := Z.shiftl 1 0.
Definition USBSTS_CNR : Z := Z.shiftl 1 11.
Definition PORTSC_CCS : Z := Z.shiftl 1 0.
Definition PORTSC_PED : Z := Z.shiftl 1 1.
Definition PORTSC_PR : Z := Z.shiftl 1 4.
Definition PORTSC_WPR : Z := Z.shiftl 1 31.
Definition PORTSC_SPEED_MASK : Z := Z.shiftl 0xf 10.
Definition PORTSC_WRC : Z := Z.shiftl 1 19.
Definition PORTSC_PRC : Z := Z.shiftl 1 21.
Definition PORTSC_CSC : Z := Z.shiftl 1 17.
Definition PORTSC_WRITE_ONE_MASK : Z := Z.lor PORTSC_PED (Z.shiftl 0x7f 17).
Definition ERDP_BUSY : Z := Z.shiftl 1 3.
Definition TRB_CYCLE : Z := Z.shiftl 1 0.
Definition TRB_TOGGLE_CYCLE : Z := Z.shiftl 1 1.
Definition TRB_CHAIN : Z := Z.shiftl 1 4.
Definition TRB_IOC : Z := Z.shiftl 1 5.
Definition KEYBOARD_REPORT_QUEUE_DEPTH : nat := 8.
Definition COMPLETION_SUCCESS : Z := 1.
Definition COMPLETION_SHORT_PACKET : Z := 13.
Definition RING_SIZE : Z := 16.
Definition USBLEGCTLSTS_DISABLE_SMI : Z := Z.lor (Z.lor (Z.shiftl 0x7 1) (Z.shiftl 0xff 5)) (Z.shiftl 0x7 17).
Definition USBLEGCTLSTS_SMI_EVENTS : Z := Z.shiftl 0x7 29.

(** Byte offsets of the fields of [CapRegs], [OpRegs], [RuntimeRegs]. *)
Definition cap_length : Z := 0x00.
Definition hcs_params1 : Z := 0x04.
Definition hcc_params1 : Z := 0x10.
Definition dboff : Z := 0x14.
Definition rtsoff : Z := 0x18.
Definition usbcmd : Z := 0x00.
Definition usbsts : Z := 0x04.
Definition crcr_lo : Z := 0x18.
Definition crcr_hi : Z := 0x1c.
Definition dcbaap_lo : Z := 0x30.
Definition dcbaap_hi : Z := 0x34.
Definition config : Z := 0x38.
Definition ir0_erstsz : Z := 0x28.
Definition ir0_erstba_lo : Z := 0x30.
Definition ir0_erstba_hi : Z := 0x34.
Definition ir0_erdp_lo : Z := 0x38.
Definition ir0_erdp_hi : Z := 0x3c.

(** ** Transfer request blocks *)
Record Trb := mkTrb { parameter : Z; status : Z; control : Z }.

Definition trb_type (control : Z) : Z := Z.land (Z.shiftr control 10) 0x3f.
Definition make_type (t : Z) : Z := Z.shiftl (Z.land t 0x3f) 10.

Definition TRB_TYPE_NORMAL : Z := 1.
Definition TRB_TYPE_SETUP_STAGE : Z := 2.
Definition TRB_TYPE_DATA_STAGE : Z := 3.
Definition TRB_TYPE_STATUS_STAGE : Z := 4.
Definition TRB_TYPE_LINK : Z := 6.
Definition TRB_TYPE_ENABLE_SLOT : Z := 9.
Definition TRB_TYPE_DISABLE_SLOT : Z := 10.
Definition TRB_TYPE_ADDRESS_DEVICE : Z := 11.
Definition TRB_TYPE_CONFIGURE_ENDPOINT : Z := 12.
Definition TRB_TYPE_EVALUATE_CONTEXT : Z := 13.
Definition TRB_TYPE_TRANSFER_EVENT : Z := 32.
Definition TRB_TYPE_COMMAND_COMPLETION : Z := 33.

(** A TRB in memory. *)
Definition trb_bytes (t : Trb) : list Z := le_bytes 8 (parameter t) ++ le_bytes 4 (status t) ++ le_bytes 4 (control t).
Definition write_trb (m : memory) (a : Z) (t : Trb) : memory := write_bytes m a (trb_bytes t).
Definition read_trb (m : memory) (a : Z) : Trb := mkTrb (read64 m a) (read32 m (a + 8)) (read32 m (a + 12)).

(** [(control & !TRB_CYCLE) | cycle]. *)
Definition with_cycle (t : Trb) (cycle : Z) : Trb :=
  mkTrb (parameter t) (status t) (Z.lor (andnot (control t) TRB_CYCLE) cycle).

(** ** Rings *)
Record Ring := mkRing { phys : Z; enqueue : Z; cycle : Z }.

(** The address the TRB was written at, the ring after it, and memory. *)
Definition push (r : Ring) (trb : Trb) (m : memory) : Z * Ring * memory :=
  let trb := with_cycle trb (cycle r) in
  let slot_phys := phys r + enqueue r * 16 in
  let m := write_trb m slot_phys trb in
  let enqueue := enqueue r + 1 in
  if enqueue =? RING_SIZE - 1 then
    let link := phys r + (RING_SIZE - 1) * 16 in
    let existing := read_trb m link in
    let m := write_trb m link (with_cycle existing (cycle r)) in
    (slot_phys, mkRing (phys r) 0 (Z.lxor (cycle r) 1), m)
  else (slot_phys, mkRing (phys r) enqueue (cycle r), m).

(** ** The driver's data *)
Record UsbKeyboard := mkKeyboard {
  port : Z; slot_id : Z; dci : Z; ring : Ring;
  kb_output_ctx_phys : Z; kb_ep0_ring_phys : Z;
  report_phys : list Z; report_enqueue : Z; report_dequeue : Z;
  prev_keys : list Z
}.

Record Controller := mkController {
  op : Z; rt : Z; db : Z;
  max_ports : Z; context_size : Z;
  cmd_ring : Ring; event_ring : Ring; event_cycle : Z; event_dequeue : Z;
  dcbaa_phys : Z; input_ctx_phys : Z; output_ctx_phys : Z; ep0_ring_phys : Z;
  c_slot_id : Z;
  keyboards : list UsbKeyboard; scanned_ports : list Z; last_port_scan_ms : Z
}.

Definition set_cmd_ring (r : Ring) (c : Controller) : Controller :=
  mkController (op c) (rt c) (db c) (max_ports c) (context_size c) r (event_ring c) (event_cycle c) (event_dequeue c)
    (dcbaa_phys c) (input_ctx_phys c) (output_ctx_phys c) (ep0_ring_phys c) (c_slot_id c) (keyboards c) (scanned_ports c) (last_port_scan_ms c).
Definition set_dequeue (cyc dq : Z) (c : Controller) : Controller :=
  mkController (op c) (rt c) (db c) (max_ports c) (context_size c) (cmd_ring c) (event_ring c) cyc dq
    (dcbaa_phys c) (input_ctx_phys c) (output_ctx_phys c) (ep0_ring_phys c) (c_slot_id c) (keyboards c) (scanned_ports c) (last_port_scan_ms c).
Definition set_device (out ep0 slot : Z) (c : Controller) : Controller :=
  mkController (op c) (rt c) (db c) (max_ports c) (context_size c) (cmd_ring c) (event_ring c) (event_cycle c) (event_dequeue c)
    (dcbaa_phys c) (input_ctx_phys c) out ep0 slot (keyboards c) (scanned_ports c) (last_port_scan_ms c).
Definition set_keyboards (ks : list UsbKeyboard) (c : Controller) : Controller :=
  mkController (op c) (rt c) (db c) (max_ports c) (context_size c) (cmd_ring c) (event_ring c) (event_cycle c) (event_dequeue c)
    (dcbaa_phys c) (input_ctx_phys c) (output_ctx_phys c) (ep0_ring_phys c) (c_slot_id c) ks (scanned_ports c) (last_port_scan_ms c).
Definition set_scan (ports : list Z) (last : Z) (c : Controller) : Controller :=
  mkController (op c) (rt c) (db c) (max_ports c) (context_size c) (cmd_ring c) (event_ring c) (event_cycle c) (event_dequeue c)
    (dcbaa_phys c) (input_ctx_phys c) (output_ctx_phys c) (ep0_ring_phys c) (c_slot_id c) (keyboards c) ports last.

(** The statics of the module. *)
Record Statics := mkStatics {
  CONTROLLERS : list Controller; POLLING : bool; CAPS_LOCK : bool;
  EP0_RING_STATE : Z * Z; ASCII_QUEUE : Hid.RingBuffer
}.
Definition set_controllers (cs : list Controller) (polling : bool) (s : Statics) : Statics :=
  mkStatics cs polling (CAPS_LOCK s) (EP0_RING_STATE s) (ASCII_QUEUE s).
Definition set_ep0 (e : Z * Z) (s : Statics) : Statics :=
  mkStatics (CONTROLLERS s) (POLLING s) (CAPS_LOCK s) e (ASCII_QUEUE s).
Definition set_keys (caps : bool) (q : Hid.RingBuffer) (s : Statics) : Statics :=
  mkStatics (CONTROLLERS s) (POLLING s) caps (EP0_RING_STATE s) q.

Definition try_read_byte (s : Statics) : option Z * Statics :=
  let '(b, q) := Hid.pop (ASCII_QUEUE s) in (b, set_keys (CAPS_LOCK s) q s).

Section Driver.
Context {D : Type} `{Hw D} (fuel : nat).

(** A function without a controller works on the machine and the statics; one
    with [c: &mut Controller] on the controller too. *)
Record Drv := mkDrv { env : D * Vmm.VState; statics : Statics; ctl : Controller }.
Notation HM := (M (D * Vmm.VState) unit).
Notation U := (M (D * Vmm.VState * Statics) unit).
Notation X := (M Drv unit).

Definition on_env {A} (m : HM A) : X A := λ s, let '(r, e) := m (env s) in (r, mkDrv e (statics s) (ctl s)).
Definition get_ctl : X Controller := λ s, (Ok (ctl s), s).
Definition set_ctl (f : Controller → Controller) : X unit := λ s, (Ok tt, mkDrv (env s) (statics s) (f (ctl s))).
Definition get_statics : X Statics := λ s, (Ok (statics s), s).
Definition set_statics (f : Statics → Statics) : X unit := λ s, (Ok tt, mkDrv (env s) (f (statics s)) (ctl s)).

(** [let Some(x) = o else { return ... }]. *)
Definition or_return {S A} (o : option A) : M S unit A := match o with Some a => ret a | None => fail tt end.
Definition ensure {S} (b : bool) : M S unit unit := if b then ret tt else fail tt.
(** The body of a function with early returns: whether it reached its end. *)
Definition reached {S E} (m : M S unit unit) : M S E bool :=
  let! r := catch m in ret (match r with inl _ => true | inr _ => false end).

Definition reg_read32 (a : Z) : HM Z := reg_read 4 a.
Definition reg_write32 (a v : Z) : HM unit := reg_write 4 a v.
Definition reg_write64_split (lo hi v : Z) : HM unit :=
  reg_write32 lo (wrap32 v) ;;! reg_write32 hi (wrap32 (Z.shiftr v 32)).

(** [Ring::push] on a ring in memory. *)
Definition ring_push (r : Ring) (t : Trb) : HM (Z * Ring) :=
  let! p := mem_get (push r t) in
  let '(a, r, m) := p in
  mem_set (λ _, m) ;;! ret (a, r).

Definition allocate (with_link : bool) : HM (option Ring) :=
  let! o := on_pmm alloc_frame_zeroed in
  match o with
  | None => ret None
  | Some phys =>
      (if with_link then
         mem_set (λ m, write_trb m (phys + (RING_SIZE - 1) * 16)
                         (mkTrb phys 0 (Z.lor (Z.lor (make_type TRB_TYPE_LINK) TRB_TOGGLE_CYCLE) TRB_CYCLE)))
       else ret tt) ;;!
      ret (Some (mkRing phys 0 1))
  end.
Definition Ring_new : HM (option Ring) := allocate true.
Definition Ring_new_event : HM (option Ring) := allocate false.

(** ** Waiting *)
Fixpoint spin_loop {A} (n : nat) (deadline : Z) (cond : X (option A)) : X (option A) :=
  match n with
  | O => diverge
  | S n =>
      let! r := cond in
      match r with
      | Some a => ret (Some a)
      | None =>
          let! t := on_env now in
          if deadline <=? t then ret None
          else on_env yield_now ;;! spin_loop n deadline cond
      end
  end.

Definition spin_until {A} (timeout_ms : Z) (cond : X (option A)) : X (option A) :=
  let! t := on_env now in
  spin_loop fuel (Z.min (t + timeout_ms) u64_max) cond.

(** A condition on a register. *)
Definition when (a : Z) (p : Z → bool) : X (option unit) :=
  let! v := on_env (reg_read32 a) in ret (if p v then Some tt else None).
Definition wait_reg (timeout_ms a : Z) (p : Z → bool) : X bool :=
  let! r := spin_until timeout_ms (when a p) in ret (bool_decide (is_Some r)).

(** [x & mask != 0]. *)
Definition any (x mask : Z) : bool := negb (Z.land x mask =? 0).

(** ** Taking the controller over *)
Fixpoint handoff_loop (n : nat) (base offset : Z) : X unit :=
  match n with
  | O => ret tt
  | S n =>
      if offset =? 0 then ret tt
      else
        let cap_ptr := base + 4 * offset in
        let! cap_dword := on_env (reg_read32 cap_ptr) in
        let cap_id := Z.land cap_dword 0xff in
        let next := Z.land (Z.shiftr cap_dword 8) 0xff in
        if cap_id =? 1 then
          (if any cap_dword (Z.shiftl 1 16) then
             on_env (reg_write32 cap_ptr (Z.lor cap_dword (Z.shiftl 1 24))) ;;!
             ignore (wait_reg 5000 cap_ptr (λ v, negb (any v (Z.shiftl 1 16))))
           else ret tt) ;;!
          let! ctl := on_env (reg_read32 (cap_ptr + 4)) in
          on_env (reg_write32 (cap_ptr + 4) (Z.lor (Z.land ctl USBLEGCTLSTS_DISABLE_SMI) USBLEGCTLSTS_SMI_EVENTS))
        else if next =? 0 then ret tt
        else handoff_loop n base (offset + next)
  end.
Definition request_bios_handoff (base xecp_offset_dwords : Z) : X unit := handoff_loop 256 base xecp_offset_dwords.

Definition reset_controller (op : Z) : X bool :=
  reached
    (let! cmd := on_env (reg_read32 (op + usbcmd)) in
     (if any cmd USBCMD_RUN then
        on_env (reg_write32 (op + usbcmd) 0) ;;!
        let! halted := wait_reg 1000 (op + usbsts) (λ v, any v USBSTS_HCH) in ensure halted
      else ret tt) ;;!
     on_env (reg_write32 (op + usbcmd) USBCMD_HCRST) ;;!
     let! done := wait_reg 1000 (op + usbcmd) (λ v, negb (any v USBCMD_HCRST)) in
     ensure done ;;!
     let! ready := wait_reg 1000 (op + usbsts) (λ v, negb (any v USBSTS_CNR)) in
     ensure ready).

Definition portsc (c : Controller) (port : Z) : Z := op c + 0x400 + (port - 1) * 0x10.

(** ** Reports *)
Definition queue_report_read (k : UsbKeyboard) : HM UsbKeyboard :=
  let buffer := report_enqueue k in
  let! p := ring_push (ring k) (mkTrb (report_phys k !!! Z.to_nat buffer) 8 (Z.lor (make_type TRB_TYPE_NORMAL) TRB_IOC)) in
  ret (mkKeyboard (port k) (slot_id k) (dci k) p.2 (kb_output_ctx_phys k) (kb_ep0_ring_phys k) (report_phys k)
         ((buffer + 1) mod Z.of_nat KEYBOARD_REPORT_QUEUE_DEPTH) (report_dequeue k) (prev_keys k)).

Definition ring_endpoint_doorbell (db : Z) (k : UsbKeyboard) : HM unit := reg_write32 (db + 4 * slot_id k) (dci k).

Definition submit_report_read (db : Z) (k : UsbKeyboard) : HM UsbKeyboard :=
  let! k := queue_report_read k in
  ring_endpoint_doorbell db k ;;! ret k.

Definition set_report (dequeue : Z) (prev : list Z) (k : UsbKeyboard) : UsbKeyboard :=
  mkKeyboard (port k) (slot_id k) (dci k) (ring k) (kb_output_ctx_phys k) (kb_ep0_ring_phys k) (report_phys k)
    (report_enqueue k) dequeue prev.

Definition handle_report (k : UsbKeyboard) (buffer : Z) : X UsbKeyboard :=
  let! report := on_env (mem_get (λ m, read_bytes m (report_phys k !!! Z.to_nat buffer) 8)) in
  let! s := get_statics in
  let '(prev, caps, (bytes, count)) := Hid.translate_boot_report (prev_keys k) (CAPS_LOCK s) report in
  set_statics (λ s, set_keys caps (foldl (λ q b, Hid.push b q) (ASCII_QUEUE s) (take count bytes)) s) ;;!
  ret (set_report (report_dequeue k) prev k).

(** The first keyboard that a transfer event is for. *)
Definition addressed (ev : Trb) (k : UsbKeyboard) : bool :=
  (slot_id k =? wrap8 (Z.shiftr (control ev) 24)) && (dci k =? Z.land (Z.shiftr (control ev) 16) 0x1f).

Definition completion_code (ev : Trb) : Z := Z.land (Z.shiftr (status ev) 24) 0xff.
Definition delivered (code : Z) : bool := (code =? COMPLETION_SUCCESS) || (code =? COMPLETION_SHORT_PACKET).

Definition dispatch_keyboard_event (ev : Trb) : X unit :=
  if negb (trb_type (control ev) =? TRB_TYPE_TRANSFER_EVENT) then ret tt
  else
    let! c := get_ctl in
    match list_find (λ k, addressed ev k = true) (keyboards c) with
    | None => ret tt
    | Some (i, k) =>
        let! k := (if delivered (completion_code ev) then handle_report k (report_dequeue k)
                   else ret (set_report (report_dequeue k) (replicate 6 0) k)) in
        let k := set_report ((report_dequeue k + 1) mod Z.of_nat KEYBOARD_REPORT_QUEUE_DEPTH) (prev_keys k) k in
        let! k := on_env (submit_report_read (db c) k) in
        set_ctl (λ c, set_keyboards (<[i := k]> (keyboards c)) c)
    end.

(** ** Events *)
Definition poll_event_ring : X (option Trb) :=
  let! c := get_ctl in
  let! trb := on_env (mem_volatile (λ m, read_trb m (phys (event_ring c) + event_dequeue c * 16))) in
  if negb (Z.land (control trb) TRB_CYCLE =? event_cycle c) then ret None
  else
    let '(cyc, dq) := if event_dequeue c + 1 =? RING_SIZE then (Z.lxor (event_cycle c) 1, 0) else (event_cycle c, event_dequeue c + 1) in
    set_ctl (set_dequeue cyc dq) ;;!
    on_env (reg_write64_split (rt c + ir0_erdp_lo) (rt c + ir0_erdp_hi) (Z.lor (phys (event_ring c) + dq * 16) ERDP_BUSY)) ;;!
    ret (Some trb).

(** An event that is not the one waited for goes to the keyboards. *)
Definition await {A} (wanted : Trb → option A) : X (option A) :=
  let! e := poll_event_ring in
  match e with
  | None => ret None
  | Some ev =>
      match wanted ev with
      | Some a => ret (Some a)
      | None => dispatch_keyboard_event ev ;;! ret None
      end
  end.

(** The completion code and the slot. *)
Definition do_command (trb : Trb) : X (option (Z * Z)) :=
  let! c := get_ctl in
  let! p := on_env (ring_push (cmd_ring c) trb) in
  let '(slot_phys, r) := p in
  set_ctl (set_cmd_ring r) ;;!
  on_env (reg_write32 (db c) 0) ;;!
  spin_until 1000 (await (λ ev,
    if (trb_type (control ev) =? TRB_TYPE_COMMAND_COMPLETION) && (parameter ev =? slot_phys)
    then Some (completion_code ev, wrap8 (Z.land (Z.shiftr (control ev) 24) 0xff)) else None)).

Definition succeeded (o : option (Z * Z)) : bool := match o with Some (code, _) => code =? COMPLETION_SUCCESS | None => false end.

Definition control_transfer (setup : Z) (data : option (Z * Z)) (data_is_in : bool) : X bool :=
  let! c := get_ctl in
  let! s := get_statics in
  let '(enq, cyc) := EP0_RING_STATE s in
  let r := mkRing (ep0_ring_phys c) enq cyc in
  let transfer_type := match data with Some _ => if data_is_in then 3 else 2 | None => 0 end in
  let! p := on_env (ring_push r (mkTrb setup 8
              (Z.lor (Z.lor (Z.lor (make_type TRB_TYPE_SETUP_STAGE) TRB_CHAIN) (Z.shiftl transfer_type 16)) (Z.shiftl 1 6)))) in
  let r := p.2 in
  let! r := match data with
            | Some (buf_phys, len) =>
                let! p := on_env (ring_push r (mkTrb buf_phys len
                            (Z.lor (Z.lor (make_type TRB_TYPE_DATA_STAGE) TRB_CHAIN) (if data_is_in then Z.shiftl 1 16 else 0)))) in
                ret p.2
            | None => ret r
            end in
  let status_is_in := negb data_is_in || bool_decide (data = None) in
  let! p := on_env (ring_push r (mkTrb 0 0
              (Z.lor (Z.lor (make_type TRB_TYPE_STATUS_STAGE) TRB_IOC) (if status_is_in then Z.shiftl 1 16 else 0)))) in
  let '(status_slot_phys, r) := p in
  set_statics (set_ep0 (enqueue r, cycle r)) ;;!
  on_env (reg_write32 (db c + 4 * c_slot_id c) 1) ;;!
  let! saw := spin_until 1000 (await (λ ev,
    if (trb_type (control ev) =? TRB_TYPE_TRANSFER_EVENT) && (parameter ev =? status_slot_phys)
    then Some (delivered (completion_code ev)) else None)) in
  ret (default false saw).

Definition control_transfer_in (setup buf_phys len : Z) : X bool := control_transfer setup (Some (buf_phys, len)) true.
Definition control_transfer_out (setup : Z) : X bool := control_transfer setup None false.

(** ** Setting a keyboard up *)
Definition input_context_entry (ctx_phys context_size index : Z) : Z := ctx_phys + index * context_size.

(** [*entry.add(i) = v]. *)
Definition poke (entry i v : Z) : HM unit := mem_set (λ m, write32 m (entry + 4 * i) v).
Definition zero_page (a : Z) : HM unit := mem_set (λ m, fill_bytes m a 0 PAGE_SIZE).

Definition slot_command (t parameter slot : Z) : Trb := mkTrb parameter 0 (Z.lor (make_type t) (Z.shiftl slot 24)).

(** A command that must succeed. *)
Definition must_command (trb : Trb) : X unit := let! o := do_command trb in ensure (succeeded o).
Definition must {S} (m : M S unit bool) : M S unit unit := let! b := m in ensure b.

(** The port's speed after its reset. *)
Definition reset_port (a : Z) (sc : Z) : X Z :=
  let initial_speed := Z.shiftr (Z.land sc PORTSC_SPEED_MASK) 10 in
  let '(reset_bit, reset_change) := if initial_speed =? 4 then (PORTSC_WPR, PORTSC_WRC) else (PORTSC_PR, PORTSC_PRC) in
  on_env (reg_write32 a (Z.lor (andnot sc PORTSC_WRITE_ONE_MASK) reset_change)) ;;!
  let! before_reset := on_env (reg_read32 a) in
  on_env (reg_write32 a (Z.lor (andnot before_reset PORTSC_WRITE_ONE_MASK) reset_bit)) ;;!
  let! changed := wait_reg 1000 a (λ v, any v reset_change) in
  (if changed then ret tt else (let! _ := on_env (reg_read32 a) in ret tt) ;;! fail tt) ;;!
  let! after_reset := on_env (reg_read32 a) in
  on_env (reg_write32 a (Z.lor (Z.lor (andnot after_reset PORTSC_WRITE_ONE_MASK) reset_change) PORTSC_CSC)) ;;!
  ensure (any after_reset PORTSC_PED) ;;!
  ret (Z.shiftr (Z.land after_reset PORTSC_SPEED_MASK) 10).

(** The context of endpoint 0, with its packet size. *)
Definition ep0_context (c : Controller) (packet : Z) : HM unit :=
  let ep0_ctx := input_context_entry (input_ctx_phys c) (context_size c) 2 in
  poke ep0_ctx 1 (Z.lor (Z.lor (Z.shiftl 4 3) (Z.shiftl packet 16)) (Z.shiftl 3 1)) ;;!
  poke ep0_ctx 2 (wrap32 (Z.lor (ep0_ring_phys c) 1)) ;;!
  poke ep0_ctx 3 (Z.shiftr (ep0_ring_phys c) 32).

(** Enable a slot and give the device an address. *)
Definition address_device (port speed : Z) : X unit :=
  let! o := do_command (mkTrb 0 0 (make_type TRB_TYPE_ENABLE_SLOT)) in
  let! cs := or_return o in
  let '(code, slot) := cs in
  ensure ((code =? COMPLETION_SUCCESS) && negb (slot =? 0)) ;;!
  set_ctl (λ c, set_device (output_ctx_phys c) (ep0_ring_phys c) slot c) ;;!
  let! c := get_ctl in
  on_env (zero_page (input_ctx_phys c)) ;;!
  on_env (zero_page (output_ctx_phys c)) ;;!
  on_env (poke (input_context_entry (input_ctx_phys c) (context_size c) 0) 1 3) ;;!
  let slot_ctx := input_context_entry (input_ctx_phys c) (context_size c) 1 in
  on_env (poke slot_ctx 0 (Z.lor (Z.shiftl speed 20) (Z.shiftl 1 27))) ;;!
  on_env (poke slot_ctx 1 (Z.shiftl port 16)) ;;!
  let! max_packet0 := (if (speed =? 1) || (speed =? 2) then ret 8
                       else if speed =? 3 then ret 64 else if speed =? 4 then ret 512 else fail tt) in
  on_env (ep0_context c max_packet0) ;;!
  on_env (mem_set (λ m, write64 m (dcbaa_phys c + 8 * c_slot_id c) (output_ctx_phys c))) ;;!
  must_command (slot_command TRB_TYPE_ADDRESS_DEVICE (input_ctx_phys c) (c_slot_id c)).

(** Full- and low-speed devices: the packet size of endpoint 0. *)
Definition read_packet_size (speed : Z) : X unit :=
  if (speed =? 1) || (speed =? 2) then
    let! o := on_env (on_pmm alloc_frame_zeroed) in
    let! device_desc_phys := or_return o in
    must (control_transfer_in (Hid.setup_packet 0x80 6 (Z.shiftl 1 8) 0 8) device_desc_phys 8) ;;!
    let! packet_size := on_env (mem_volatile (λ m, read8 m (device_desc_phys + 7))) in
    ensure (if speed =? 1 then bool_decide (packet_size ∈ [8; 16; 32; 64]) else packet_size =? 8) ;;!
    if negb (packet_size =? 8) then
      let! c := get_ctl in
      let control_ctx := input_context_entry (input_ctx_phys c) (context_size c) 0 in
      on_env (mem_set (λ m, fill_bytes m control_ctx 0 (context_size c / 4 * 4))) ;;!
      on_env (poke control_ctx 1 (Z.shiftl 1 1)) ;;!
      on_env (ep0_context c packet_size) ;;!
      must_command (slot_command TRB_TYPE_EVALUATE_CONTEXT (input_ctx_phys c) (c_slot_id c))
    else ret tt
  else ret tt.

(** The boot keyboard in the device's configuration. *)
Definition read_configuration (speed : Z) : X (Hid.BootKeyboardEndpoint * Z) :=
  let! o := on_env (on_pmm alloc_frame_zeroed) in
  let! desc := or_return o in
  must (control_transfer_in (Hid.setup_packet 0x80 6 (Z.shiftl 2 8) 0 9) desc 9) ;;!
  let! lo := on_env (mem_volatile (λ m, read8 m (desc + 2))) in
  let! hi := on_env (mem_volatile (λ m, read8 m (desc + 3))) in
  let total_length := Z.lor lo (Z.shiftl hi 8) in
  ensure ((9 <=? total_length) && (total_length <=? PAGE_SIZE)) ;;!
  must (control_transfer_in (Hid.setup_packet 0x80 6 (Z.shiftl 2 8) 0 total_length) desc total_length) ;;!
  let! cfg := on_env (mem_get (λ m, read_bytes m desc (Z.to_nat total_length))) in
  let! o := lift (map_err empty_err (Hid.find_boot_keyboard cfg speed)) in
  let! keyboard := or_return o in
  let! interval := or_return (Hid.xhci_interval speed (Hid.interval keyboard)) in
  ret (keyboard, interval).

(** Select the configuration, the boot protocol, and reports only on change. *)
Definition select_configuration (keyboard : Hid.BootKeyboardEndpoint) : X unit :=
  must (control_transfer_out (Hid.setup_packet 0x00 9 (Hid.configuration keyboard) 0 0)) ;;!
  must (control_transfer_out (Hid.setup_packet 0x21 0x0b 0 (Hid.interface keyboard) 0)) ;;!
  let! _ := control_transfer_out (Hid.setup_packet 0x21 0x0a 0 (Hid.interface keyboard) 0) in ret tt.

(** [for dword in 0..n { *dst.add(dword) = read_volatile(src.add(dword)) }]. *)
Definition copy_dwords (dst src : Z) (n : nat) : HM unit :=
  mfor (seqZ 0 (Z.of_nat n)) (λ i, let! v := mem_volatile (λ m, read32 m (src + 4 * i)) in poke dst i v).

(** Configure the endpoint of the keyboard; its transfer ring. *)
Definition configure_endpoint (keyboard : Hid.BootKeyboardEndpoint) (interval : Z) : X Ring :=
  let! o := on_env Ring_new in
  let! kb_ring := or_return o in
  let! c := get_ctl in
  let dci := Hid.dci keyboard in
  let control_ctx := input_context_entry (input_ctx_phys c) (context_size c) 0 in
  on_env (mem_set (λ m, fill_bytes m control_ctx 0 (context_size c / 4 * 4))) ;;!
  on_env (poke control_ctx 1 (Z.lor (Z.shiftl 1 0) (Z.shiftl 1 dci))) ;;!
  let slot_ctx := input_context_entry (input_ctx_phys c) (context_size c) 1 in
  on_env (copy_dwords slot_ctx (output_ctx_phys c) (Z.to_nat (context_size c / 4))) ;;!
  let! first := on_env (mem_get (λ m, read32 m slot_ctx)) in
  on_env (poke slot_ctx 0 (Z.lor (andnot first (Z.shiftl 0x1f 27)) (Z.shiftl dci 27))) ;;!
  let ep1in_ctx := input_context_entry (input_ctx_phys c) (context_size c) (dci + 1) in
  on_env (poke ep1in_ctx 1 (Z.lor (Z.lor (Z.shiftl 7 3) (Z.shiftl (Hid.max_packet keyboard) 16)) (Z.shiftl 3 1))) ;;!
  on_env (poke ep1in_ctx 0 (Z.shiftl interval 16)) ;;!
  on_env (poke ep1in_ctx 2 (wrap32 (Z.lor (phys kb_ring) 1))) ;;!
  on_env (poke ep1in_ctx 3 (Z.shiftr (phys kb_ring) 32)) ;;!
  on_env (poke ep1in_ctx 4 8) ;;!
  must_command (slot_command TRB_TYPE_CONFIGURE_ENDPOINT (input_ctx_phys c) (c_slot_id c)) ;;!
  ret kb_ring.

(** The report buffers; when one cannot be had, the others go back. *)
Fixpoint alloc_reports (n : nat) (got : list Z) : HM (list Z) :=
  match n with
  | O => ret got
  | S n =>
      let! o := on_pmm alloc_frame_zeroed in
      match o with
      | None => mfor (filter (λ p, p ≠ 0) got) (λ p, on_pmm (free_frame p)) ;;! fail tt
      | Some p => alloc_reports n (got ++ [p])
      end
  end.

Fixpoint queue_reads (n : nat) (k : UsbKeyboard) : HM UsbKeyboard :=
  match n with
  | O => ret k
  | S n => let! k := queue_report_read k in queue_reads n k
  end.

(** The keyboard's record, with a read posted for every buffer. *)
Definition start_reports (port dci : Z) (kb_ring : Ring) : X unit :=
  let! reports := on_env (alloc_reports KEYBOARD_REPORT_QUEUE_DEPTH []) in
  let! c := get_ctl in
  let device := mkKeyboard port (c_slot_id c) dci kb_ring (output_ctx_phys c) (ep0_ring_phys c) reports 0 0 (replicate 6 0) in
  let! device := on_env (queue_reads KEYBOARD_REPORT_QUEUE_DEPTH device) in
  set_ctl (λ c, set_keyboards (keyboards c ++ [device]) c) ;;!
  on_env (ring_endpoint_doorbell (db c) device) ;;!
  set_ctl (λ c, set_device 0 0 (c_slot_id c) c).

Definition try_setup_keyboard (port : Z) : X bool :=
  reached
    (let! c := get_ctl in
     let a := portsc c port in
     let! sc := on_env (reg_read32 a) in
     ensure (any sc PORTSC_CCS) ;;!
     let! o := on_env (on_pmm alloc_frame_zeroed) in
     let! out := or_return o in
     set_ctl (λ c, set_device out (ep0_ring_phys c) (c_slot_id c) c) ;;!
     let! o := on_env Ring_new in
     let! ep0_ring := or_return o in
     set_ctl (λ c, set_device (output_ctx_phys c) (phys ep0_ring) (c_slot_id c) c) ;;!
     let! speed := reset_port a sc in
     address_device port speed ;;!
     read_packet_size speed ;;!
     let! found := read_configuration speed in
     let '(keyboard, interval) := found in
     select_configuration keyboard ;;!
     let! kb_ring := configure_endpoint keyboard interval in
     start_reports port (Hid.dci keyboard) kb_ring).

Definition cleanup_failed_setup : X unit :=
  let! c := get_ctl in
  let! r := catch
    ((if negb (c_slot_id c =? 0) then
        must_command (slot_command TRB_TYPE_DISABLE_SLOT 0 (c_slot_id c)) ;;!
        on_env (mem_set (λ m, write64 m (dcbaa_phys c + 8 * c_slot_id c) 0)) ;;!
        set_ctl (λ c, set_device (output_ctx_phys c) (ep0_ring_phys c) 0 c)
      else ret tt) ;;!
     let! c := get_ctl in
     (if negb (output_ctx_phys c =? 0) then
        on_env (on_pmm (free_frame (output_ctx_phys c))) ;;! set_ctl (λ c, set_device 0 (ep0_ring_phys c) (c_slot_id c) c)
      else ret tt) ;;!
     (if negb (ep0_ring_phys c =? 0) then
        on_env (on_pmm (free_frame (ep0_ring_phys c))) ;;! set_ctl (λ c, set_device (output_ctx_phys c) 0 (c_slot_id c) c)
      else ret tt) ;;!
     on_env (zero_page (input_ctx_phys c)) ;;!
     set_statics (set_ep0 (0, 1))) in
  ret tt.

(** ** Plugging and unplugging *)
Definition disable_keyboard_slot (k : UsbKeyboard) : X bool :=
  let! o := do_command (slot_command TRB_TYPE_DISABLE_SLOT 0 (slot_id k)) in
  let result := succeeded o in
  (if result then
     let! c := get_ctl in
     on_env (mem_set (λ m, write64 m (dcbaa_phys c + 8 * slot_id k) 0))
   else ret tt) ;;!
  ret result.

Definition free_keyboard (k : UsbKeyboard) : HM unit :=
  mfor (report_phys k) (λ p, on_pmm (free_frame p)) ;;!
  on_pmm (free_frame (phys (ring k))) ;;!
  on_pmm (free_frame (kb_output_ctx_phys k)) ;;!
  on_pmm (free_frame (kb_ep0_ring_phys k)).

Definition poll_root_port (p : Z) : X unit :=
  let! c := get_ctl in
  let! sc := on_env (reg_read32 (portsc c p)) in
  if negb (any sc PORTSC_CCS) then
    let! gone :=
      match list_find (λ k, port k = p) (keyboards c) with
      | Some (i, k) =>
          set_ctl (λ c, set_keyboards (delete i (keyboards c)) c) ;;!
          let! disabled := disable_keyboard_slot k in
          if (disabled : bool) then on_env (free_keyboard k) ;;! ret true
          else set_ctl (λ c, set_keyboards (keyboards c ++ [k]) c) ;;! ret false
      | None => ret true
      end in
    if (gone : bool) then set_ctl (λ c, set_scan (filter (λ q, q ≠ p) (scanned_ports c)) (last_port_scan_ms c) c) else ret tt
  else if bool_decide (p ∈ scanned_ports c) then ret tt
  else
    set_ctl (λ c, set_scan (scanned_ports c ++ [p]) (last_port_scan_ms c) c) ;;!
    let! ready := try_setup_keyboard p in
    if (ready : bool) then
      set_ctl (λ c, set_device (output_ctx_phys c) (ep0_ring_phys c) 0 c) ;;! set_statics (set_ep0 (0, 1))
    else cleanup_failed_setup.

Definition poll_root_ports : X unit :=
  let! t := on_env now in
  let! c := get_ctl in
  if Z.max (t - last_port_scan_ms c) 0 <? 250 then ret tt
  else
    set_ctl (λ c, set_scan (scanned_ports c) t c) ;;!
    mfor (seqZ 1 (max_ports c)) poll_root_port.

(** [while let Some(ev) = poll_event_ring(c)]. *)
Fixpoint drain (n : nat) : X unit :=
  match n with
  | O => diverge
  | S n =>
      let! e := poll_event_ring in
      match e with
      | Some ev => dispatch_keyboard_event ev ;;! drain n
      | None => ret tt
      end
  end.

(** Run [m] on a controller that is not in the registry. *)
Definition with_controller {A} (c : Controller) (m : X A) : U (A * Controller) := λ s,
  let '(r, d) := m (mkDrv s.1 s.2 c) in
  (match r with Ok a => Ok (a, ctl d) | Err e => Err e | Panic => Panic | Diverge => Diverge end, (env d, statics d)).

Fixpoint service_all (cs : list Controller) : U (list Controller) :=
  match cs with
  | [] => ret []
  | c :: cs =>
      let! r := with_controller c (drain fuel ;;! poll_root_ports) in
      let! cs := service_all cs in
      ret (r.2 :: cs)
  end.

Definition poll : U unit := λ s,
  if POLLING s.2 then (Ok tt, s)
  else
    (let! cs := service_all (CONTROLLERS s.2) in
     λ s, (Ok tt, (s.1, set_controllers cs false s.2)))
      (s.1, set_controllers [] true s.2).

(** ** Bringing a controller up *)
Definition probe_port (p : Z) : X unit :=
  let! c := get_ctl in
  let! sc := on_env (reg_read32 (portsc c p)) in
  (if any sc PORTSC_CCS && negb (bool_decide (p ∈ scanned_ports c))
   then set_ctl (λ c, set_scan (scanned_ports c ++ [p]) (last_port_scan_ms c) c) else ret tt) ;;!
  let! ready := try_setup_keyboard p in
  (if (ready : bool) then
     set_ctl (λ c, set_device (output_ctx_phys c) (ep0_ring_phys c) 0 c) ;;! set_statics (set_ep0 (0, 1))
   else ret tt) ;;!
  let! c := get_ctl in
  if negb (c_slot_id c =? 0) || negb (output_ctx_phys c =? 0) || negb (ep0_ring_phys c =? 0)
  then cleanup_failed_setup else ret tt.

(** A controller's rings and tables: the rings, the device contexts and the
    event ring's segment table. *)
Definition allocate_tables : HM (Ring * Ring * Z * Z * Z) :=
  let! o := Ring_new in let! cmd := or_return o in
  let! o := Ring_new_event in let! event := or_return o in
  let! o := on_pmm alloc_frame_zeroed in let! dcbaa := or_return o in
  let! o := on_pmm alloc_frame_zeroed in let! input := or_return o in
  let! o := on_pmm alloc_frame_zeroed in let! erst := or_return o in
  mem_set (λ m, write64 m erst (phys event)) ;;!
  poke erst 2 RING_SIZE ;;!
  poke erst 3 0 ;;!
  ret (cmd, event, dcbaa, input, erst).

Definition program_controller (op rt max_slots : Z) (cmd event : Ring) (dcbaa erst : Z) : HM unit :=
  reg_write64_split (op + dcbaap_lo) (op + dcbaap_hi) dcbaa ;;!
  reg_write64_split (op + crcr_lo) (op + crcr_hi) (Z.lor (phys cmd) 1) ;;!
  reg_write32 (rt + ir0_erstsz) 1 ;;!
  reg_write64_split (rt + ir0_erstba_lo) (rt + ir0_erstba_hi) erst ;;!
  reg_write64_split (rt + ir0_erdp_lo) (rt + ir0_erdp_hi) (phys event) ;;!
  reg_write32 (op + config) max_slots ;;!
  reg_write32 (op + usbcmd) USBCMD_RUN.

(** The controller of [probe], before its fields are known. *)
Definition no_controller : Controller :=
  mkController 0 0 0 0 0 (mkRing 0 0 1) (mkRing 0 0 1) 1 0 0 0 0 0 0 [] [] 0.

(** [base]: what [map_mmio] returned, once the device decodes memory and may
    use the bus. *)
Definition bring_up (base : Z) : X unit :=
  let! _ := on_env (reg_read32 base) in
  let! hcs := on_env (reg_read32 (base + hcs_params1)) in
  let! hcc := on_env (reg_read32 (base + hcc_params1)) in
  let! dbo := on_env (reg_read32 (base + dboff)) in
  let! rts := on_env (reg_read32 (base + rtsoff)) in
  let! len := on_env (reg_read 1 (base + cap_length)) in
  let max_slots := Z.land hcs 0xff in
  let max_ports := Z.land (Z.shiftr hcs 24) 0xff in
  let size := if any hcc (Z.shiftl 1 2) then 64 else 32 in
  ensure (negb (max_slots =? 0) && negb (max_ports =? 0)) ;;!
  let op := base + len in
  let rt := base + andnot rts 0x1f in
  let db := base + andnot dbo 0x3 in
  let xecp_dwords := Z.land (Z.shiftr hcc 16) 0xffff in
  (if negb (xecp_dwords =? 0) then request_bios_handoff base xecp_dwords else ret tt) ;;!
  must (reset_controller op) ;;!
  let! t := on_env allocate_tables in
  let '(cmd, event, dcbaa, input, erst) := t in
  on_env (program_controller op rt max_slots cmd event dcbaa erst) ;;!
  must (wait_reg 1000 (op + usbsts) (λ v, negb (any v USBSTS_HCH))) ;;!
  set_ctl (λ _, mkController op rt db max_ports size cmd event 1 0 dcbaa input 0 0 0 [] [] 0) ;;!
  mfor (seqZ 1 max_ports) probe_port.
End Driver.
End Xhci.
