(* ===== verification/UsbRing.v ===== *)
(** * The rings of the USB controller

    [Ring::push] writes a block with the ring's cycle bit and wraps around by
    the link block at the end; the controller reads blocks as long as their
    cycle bit is the one it expects ([next_trb], the consumer that xHCI 4.9
    specifies).  Both together are a queue, as long as at most 14 blocks are
    pending: with 15, a reader that has not followed the link yet would find
    its cycle bit overwritten and stop for good. *)
From stdpp Require Import base numbers list gmap.
From Stdlib Require Import ZArith Lia Bool.
From S2P Require Import Prelude Bytes Mem Pmm Vmm Hw Xhci.
Import Xhci.

Ltac Zify.zify_post_hook ::= Z.to_euclidean_division_equations.

(** ** Blocks in memory *)
Record trb_ok (t : Trb) : Prop := {
  trb_parameter : 0 ≤ parameter t < 2^64;
  trb_status : 0 ≤ status t < 2^32;
  trb_control : 0 ≤ control t < 2^32
}.

Lemma length_trb_bytes t : length (trb_bytes t) = 16%nat.
Proof. done. Qed.

Lemma read_bytes_split m a n k bs cs :
  length bs = n → read_bytes m a (n + k) = bs ++ cs →
  read_bytes m a n = bs ∧ read_bytes m (a + Z.of_nat n) k = cs.
Proof.
  revert a bs. induction n as [|n IH]; intros a bs Hl Hr.
  - destruct bs; [|done]. by rewrite Z.add_0_r.
  - destruct bs as [|b bs]; [done|]. simpl in Hr. injection Hr as Hb Hr. injection Hl as Hl.
    destruct (IH _ _ Hl Hr) as [E1 E2]. split; simpl; [by rewrite Hb, E1|].
    rewrite <- E2. f_equal. lia.
Qed.

Lemma read_write_trb_eq m a t : trb_ok t → read_trb (write_trb m a t) a = t.
Proof.
  intros [Hp Hs Hc]. pose proof (read_write_bytes_eq m a (trb_bytes t)) as E. rewrite length_trb_bytes in E.
  unfold trb_bytes in E at 2. apply (read_bytes_split _ _ 8 8) in E as [E1 E]; [|apply length_le_bytes].
  apply (read_bytes_split _ _ 4 4) in E as [E2 E3]; [|apply length_le_bytes].
  unfold write_trb, read_trb, read64, read32. rewrite E1.
  change (Z.of_nat 8) with 8 in *. change (Z.of_nat 4) with 4 in *. rewrite <- Z.add_assoc in E3. change (8 + 4) with 12 in E3. rewrite E2, E3.
  rewrite !le_value_bytes; [by destruct t|..]; done.
Qed.

Lemma read_write_trb_ne m a b t : b + 16 ≤ a ∨ a + 16 ≤ b → read_trb (write_trb m a t) b = read_trb m b.
Proof.
  intros Hd. unfold read_trb, write_trb, read64, read32.
  rewrite !read_write_bytes_ne; [done|..]; rewrite length_trb_bytes; lia.
Qed.

(** ** The cycle bit *)
Lemma with_cycle_bit t c : c = 0 ∨ c = 1 → Z.land (control (with_cycle t c)) TRB_CYCLE = c.
Proof.
  intros Hc. simpl. change TRB_CYCLE with (Z.ones 1).
  rewrite Z.land_lor_distr_l, Z.ldiff_ones_r, Z.shiftl_mul_pow2, !Z.land_ones by lia.
  change (2^1) with 2. rewrite Z.mod_mul by lia. destruct Hc as [-> | ->]; done.
Qed.

Lemma with_cycle_type t c : c = 0 ∨ c = 1 → trb_type (control (with_cycle t c)) = trb_type (control t).
Proof.
  intros Hc. unfold trb_type. simpl. f_equal. rewrite Z.shiftr_lor, Z.shiftr_ldiff.
  replace (Z.shiftr TRB_CYCLE 10) with 0 by done. rewrite Z.ldiff_0_r.
  destruct Hc as [-> | ->]; simpl; apply Z.lor_0_r.
Qed.

Lemma with_cycle_ok t c : c = 0 ∨ c = 1 → trb_ok t → trb_ok (with_cycle t c).
Proof.
  intros Hc [Hp Hs Ht]. split; [done..|]. simpl. apply lor_range; [lia| |destruct Hc; lia].
  split; [apply Z.ldiff_nonneg; lia|]. apply bits_bounded; [lia|apply Z.ldiff_nonneg; lia|].
  intros i Hi. rewrite Z.ldiff_spec, (testbit_high (control t) 32) by lia. done.
Qed.

Lemma with_cycle_twice t c d : c = 0 ∨ c = 1 → with_cycle (with_cycle t c) d = with_cycle t d.
Proof.
  intros Hc. unfold with_cycle. simpl. f_equal. f_equal. bitwise i.
  destruct Hc as [-> | ->]; [rewrite Z.bits_0|change 1 with TRB_CYCLE]; destruct (Z.testbit (control t) i), (Z.testbit TRB_CYCLE i); done.
Qed.

(** ** The consumer *)
Record Reader := mkReader { place : Z; ccs : Z }.

(** The block at the reader's place, if its cycle bit is the expected one; a
    link leads on, the expected bit toggled if it says so. *)
Definition peek_trb (m : memory) (base : Z) (r : Reader) : option (Trb * Reader) :=
  let t := read_trb m (base + place r * 16) in
  if Z.land (control t) TRB_CYCLE =? ccs r then
    if trb_type (control t) =? TRB_TYPE_LINK
    then Some (t, mkReader ((parameter t - base) / 16) (if any (control t) TRB_TOGGLE_CYCLE then Z.lxor (ccs r) 1 else ccs r))
    else Some (t, mkReader (place r + 1) (ccs r))
  else None.

Definition next_trb (m : memory) (base : Z) (r : Reader) : option (Trb * Reader) :=
  match peek_trb m base r with
  | Some (t, r') => if trb_type (control t) =? TRB_TYPE_LINK then peek_trb m base r' else Some (t, r')
  | None => None
  end.

(** ** Producer and consumer after [p] pushes and [n] reads *)
Definition cyc (k : Z) : Z := 1 - k / 15 mod 2.

Lemma cyc_bit k : cyc k = 0 ∨ cyc k = 1.
Proof. unfold cyc. lia. Qed.

Lemma cyc_flip k j : k / 15 = j / 15 + 1 → cyc k = Z.lxor (cyc j) 1.
Proof. intros E. assert (cyc k = 1 - cyc j) as -> by (unfold cyc; rewrite E; lia). destruct (cyc_bit j) as [-> | ->]; done. Qed.

Definition link_trb (base c : Z) : Trb := mkTrb base 0 (Z.lor (Z.lor (make_type TRB_TYPE_LINK) TRB_TOGGLE_CYCLE) c).

(** The ring after the blocks of [hist] were pushed. *)
Record ring_inv (m : memory) (r : Ring) (hist : list Trb) : Prop := {
  inv_enqueue : enqueue r = Z.of_nat (length hist) mod 15;
  inv_cycle : cycle r = cyc (Z.of_nat (length hist));
  inv_written : ∀ j t, hist !! j = Some t → Z.of_nat (length hist) - 15 ≤ Z.of_nat j →
    read_trb m (phys r + Z.of_nat j mod 15 * 16) = with_cycle t (cyc (Z.of_nat j));
  inv_fresh : ∀ i, Z.of_nat (length hist) ≤ i < 15 → Z.land (control (read_trb m (phys r + i * 16))) TRB_CYCLE = 0;
  inv_link : read_trb m (phys r + 15 * 16) =
    link_trb (phys r) (if Z.of_nat (length hist) <? 15 then 1 else cyc (Z.of_nat (length hist) - 15))
}.

(** A link is followed only when the next block is wanted. *)
Definition reader_at (n : Z) : Reader :=
  if n =? 0 then mkReader 0 1 else if n mod 15 =? 0 then mkReader 15 (cyc (n - 1)) else mkReader (n mod 15) (cyc n).

Definition pushable (t : Trb) : Prop := trb_ok t ∧ trb_type (control t) ≠ TRB_TYPE_LINK.

Lemma link_type base c : c = 0 ∨ c = 1 → trb_type (control (link_trb base c)) = TRB_TYPE_LINK.
Proof. by intros [-> | ->]. Qed.
Lemma link_cycle base c : c = 0 ∨ c = 1 → Z.land (control (link_trb base c)) TRB_CYCLE = c.
Proof. by intros [-> | ->]. Qed.
Lemma link_toggle base c : c = 0 ∨ c = 1 → any (control (link_trb base c)) TRB_TOGGLE_CYCLE = true.
Proof. by intros [-> | ->]. Qed.
Lemma link_ok base c : c = 0 ∨ c = 1 → 0 ≤ base < 2^64 → trb_ok (link_trb base c).
Proof. intros [-> | ->]; split; try done; vm_compute; split; congruence. Qed.
Lemma link_with_cycle base c d : c = 0 ∨ c = 1 → d = 0 ∨ d = 1 → with_cycle (link_trb base c) d = link_trb base d.
Proof. by intros [-> | ->] [-> | ->]. Qed.

Lemma push_inv m r hist t :
  0 ≤ phys r < 2^64 → ring_inv m r hist → pushable t →
  ∃ r' m', push r t m = (phys r + enqueue r * 16, r', m') ∧ phys r' = phys r ∧ ring_inv m' r' (hist ++ [t]) ∧
    (∀ a, a + 16 ≤ phys r ∨ phys r + 256 ≤ a → read_trb m' a = read_trb m a) ∧
    (∀ a n, a + Z.of_nat n ≤ phys r ∨ phys r + 256 ≤ a → read_bytes m' a n = read_bytes m a n).
Proof.
  intros Hb [He Hc Hw Hf Hl] [Ht Htype]. set (p := Z.of_nat (length hist)) in *.
  pose proof (cyc_bit p) as Hbit. unfold push. rewrite Hc.
  set (m1 := write_trb m (phys r + enqueue r * 16) (with_cycle t (cyc p))).
  assert (Hslot : read_trb m1 (phys r + enqueue r * 16) = with_cycle t (cyc p)).
  { apply read_write_trb_eq. by apply with_cycle_ok. }
  assert (Hother : ∀ i, 0 ≤ i ≤ 15 → i ≠ enqueue r → read_trb m1 (phys r + i * 16) = read_trb m (phys r + i * 16)).
  { intros i Hi Hne. apply read_write_trb_ne. lia. }
  assert (Hout : ∀ a, a + 16 ≤ phys r ∨ phys r + 256 ≤ a → read_trb m1 a = read_trb m a).
  { intros a Ha. apply read_write_trb_ne. lia. }
  assert (Houtb : ∀ a n, a + Z.of_nat n ≤ phys r ∨ phys r + 256 ≤ a → read_bytes m1 a n = read_bytes m a n).
  { intros a n Ha. apply read_write_bytes_ne. rewrite length_trb_bytes. lia. }
  assert (Hw1 : ∀ j t', (hist ++ [t]) !! j = Some t' → p + 1 - 15 ≤ Z.of_nat j →
            read_trb m1 (phys r + Z.of_nat j mod 15 * 16) = with_cycle t' (cyc (Z.of_nat j))).
  { intros j t' Hj Hge. apply lookup_app_Some in Hj as [Hj | [Hlen Hj]].
    - pose proof (lookup_lt_Some _ _ _ Hj). rewrite Hother by lia. apply Hw; [done|lia].
    - apply list_lookup_singleton_Some in Hj as [Hj ->].
      replace (Z.of_nat j) with p by lia. by rewrite <- He. }
  assert (Hf1 : ∀ i, p + 1 ≤ i < 15 → Z.land (control (read_trb m1 (phys r + i * 16))) TRB_CYCLE = 0).
  { intros i Hi. rewrite Hother by lia. apply Hf. lia. }
  assert (Hlen : Z.of_nat (length (hist ++ [t])) = p + 1) by (rewrite length_app; simpl; lia).
  destruct (Z.eqb_spec (enqueue r + 1) (RING_SIZE - 1)) as [Hwrap|Hwrap]; change (RING_SIZE - 1) with 15 in *.
  - rewrite Hother, Hl by lia. rewrite link_with_cycle by (destruct (p <? 15); auto using cyc_bit).
    set (m2 := write_trb m1 (phys r + 15 * 16) (link_trb (phys r) (cyc p))).
    exists (mkRing (phys r) 0 (Z.lxor (cyc p) 1)), m2. split; [done|]. split; [done|]. split; [split|split]; simpl.
    + rewrite Hlen. lia.
    + rewrite Hlen. symmetry. apply cyc_flip. lia.
    + intros j t' Hj Hge. unfold m2. rewrite read_write_trb_ne by lia. apply Hw1; [done|lia].
    + intros i Hi. lia.
    + rewrite Hlen. destruct (Z.ltb_spec (p + 1) 15); [lia|].
      unfold m2. rewrite read_write_trb_eq by (apply link_ok; [apply cyc_bit|done]).
      f_equal. unfold cyc. do 2 f_equal. lia.
    + intros a Ha. unfold m2. rewrite read_write_trb_ne by lia. by apply Hout.
    + intros a n Ha. unfold m2, write_trb. rewrite read_write_bytes_ne by (rewrite length_trb_bytes; lia). by apply Houtb.
  - exists (mkRing (phys r) (enqueue r + 1) (cyc p)), m1. split; [done|]. split; [done|]. split; [split|split]; simpl; [| | |..|done|done].
    + rewrite Hlen. lia.
    + rewrite Hlen. unfold cyc. do 2 f_equal. lia.
    + intros j t' Hj Hge. apply Hw1; [done|lia].
    + intros i Hi. apply Hf1. lia.
    + rewrite Hlen, Hother, Hl by lia. f_equal.
      destruct (Z.ltb_spec p 15), (Z.ltb_spec (p + 1) 15); [done|lia|lia|]. unfold cyc. do 2 f_equal. lia.
Qed.

(** The next block read is the oldest pending one; without one, there is none. *)
Lemma next_inv m r hist n :
  ring_inv m r hist → Forall pushable hist → (n ≤ length hist ≤ n + 14)%nat →
  next_trb m (phys r) (reader_at (Z.of_nat n)) =
  match hist !! n with
  | Some t => Some (with_cycle t (cyc (Z.of_nat n)), reader_at (Z.of_nat (S n)))
  | None => None
  end.
Proof.
  intros [He Hc Hw Hf Hl] Hok Hn. set (p := Z.of_nat (length hist)) in *.
  assert (Hslot : ∀ c, c = cyc (Z.of_nat n) → 0 ≤ c →
    peek_trb m (phys r) (mkReader (Z.of_nat n mod 15) c) =
    match hist !! n with
    | Some t => Some (with_cycle t (cyc (Z.of_nat n)), mkReader (Z.of_nat n mod 15 + 1) c)
    | None => None
    end ∧ (∀ t, hist !! n = Some t → trb_type (control (with_cycle t (cyc (Z.of_nat n)))) ≠ TRB_TYPE_LINK)).
  { intros c -> _. unfold peek_trb. cbn [place ccs]. pose proof (cyc_bit (Z.of_nat n)) as Hbit.
    destruct (hist !! n) as [t|] eqn:E.
    - rewrite (Hw n t E) by lia. rewrite with_cycle_bit, Z.eqb_refl by done.
      pose proof (Forall_lookup_1 _ _ _ _ Hok E) as [_ Htype]. rewrite with_cycle_type by done.
      destruct (Z.eqb_spec (trb_type (control t)) TRB_TYPE_LINK); [done|]. split; [done|].
      intros t' [= <-]. by rewrite with_cycle_type.
    - apply lookup_ge_None in E. split; [|done].
      destruct (Z.lt_ge_cases p 15) as [Hlt|Hge].
      + rewrite Hf by lia. replace (cyc (Z.of_nat n)) with 1 by (unfold cyc; lia). done.
      + destruct (lookup_lt_is_Some_2 hist (n - 15)) as [t' Et]; [lia|].
        pose proof (Hw _ _ Et ltac:(lia)) as Hold.
        replace (Z.of_nat (n - 15) mod 15) with (Z.of_nat n mod 15) in Hold by lia.
        rewrite Hold, with_cycle_bit by apply cyc_bit.
        rewrite (cyc_flip (Z.of_nat n) (Z.of_nat (n - 15))) by lia.
        destruct (cyc_bit (Z.of_nat (n - 15))) as [-> | ->]; done. }
  unfold next_trb.
  assert (Hfwd : ∀ c, c = cyc (Z.of_nat n) → mkReader (Z.of_nat n mod 15 + 1) c = reader_at (Z.of_nat (S n))).
  { intros c ->. unfold reader_at. destruct (Z.eqb_spec (Z.of_nat (S n)) 0); [lia|].
    destruct (Z.eqb_spec (Z.of_nat (S n) mod 15) 0); f_equal; [lia|f_equal; lia|lia|unfold cyc; do 2 f_equal; lia]. }
  unfold reader_at at 1. destruct (Z.eqb_spec (Z.of_nat n) 0) as [E0|E0].
  - assert (n = 0%nat) as -> by lia. destruct (Hslot 1 eq_refl ltac:(lia)) as [Hp Hnl].
    change (Z.of_nat 0 mod 15) with 0 in Hp. rewrite Hp.
    destruct (hist !! 0%nat) as [t|]; [|done].
    destruct (Z.eqb_spec (trb_type (control (with_cycle t (cyc (Z.of_nat 0))))) TRB_TYPE_LINK) as [El|]; [by destruct (Hnl t eq_refl)|].
    do 2 f_equal.
  - destruct (Z.eqb_spec (Z.of_nat n mod 15) 0) as [E15|E15].
    + unfold peek_trb at 1. cbn [place ccs]. rewrite Hl. destruct (Z.ltb_spec p 15); [lia|].
      assert (Hcp : cyc (p - 15) = cyc (Z.of_nat n - 1)) by (unfold cyc; do 2 f_equal; lia).
      rewrite Hcp. rewrite link_cycle, Z.eqb_refl, link_type, Z.eqb_refl, link_toggle by apply cyc_bit.
      rewrite link_type by apply cyc_bit. rewrite Z.eqb_refl. cbn [parameter link_trb].
      replace ((phys r - phys r) / 16) with (Z.of_nat n mod 15) by (rewrite Z.sub_diag, E15; done).
      rewrite <- (cyc_flip (Z.of_nat n)) by lia.
      destruct (Hslot _ eq_refl) as [-> _]; [destruct (cyc_bit (Z.of_nat n)); lia|].
      destruct (hist !! n); [|done]. do 2 f_equal. by apply Hfwd.
    + destruct (Hslot _ eq_refl) as [-> Hnl]; [destruct (cyc_bit (Z.of_nat n)); lia|].
      destruct (hist !! n) as [t|]; [|done].
      destruct (Z.eqb_spec (trb_type (control (with_cycle t (cyc (Z.of_nat n))))) TRB_TYPE_LINK) as [El|]; [by destruct (Hnl t eq_refl)|].
      do 2 f_equal. by apply Hfwd.
Qed.

(** ** A new ring *)
Lemma read64_zero m a : (∀ x, a ≤ x < a + 8 → read8 m x = 0) → read64 m a = 0.
Proof.
  intros Hz. unfold read64. rewrite (read_bytes_ext m ∅ a 8); [|intros x Hx; by rewrite Hz by lia]. vm_compute. done.
Qed.

Lemma read32_zero m a : (∀ x, a ≤ x < a + 4 → read8 m x = 0) → read32 m a = 0.
Proof.
  intros Hz. unfold read32. rewrite (read_bytes_ext m ∅ a 4); [|intros x Hx; by rewrite Hz by lia]. vm_compute. done.
Qed.

Lemma fresh_ring_inv m base : 0 ≤ base < 2^64 →
  ring_inv (write_trb (fill_bytes m base 0 Pmm.PAGE_SIZE) (base + 15 * 16) (link_trb base 1)) (mkRing base 0 1) [].
Proof.
  intros Hb. split; cbn [phys enqueue cycle length]; [done|done|done| |].
  - intros i Hi. rewrite read_write_trb_ne by lia. cbn [control read_trb]. rewrite read32_zero; [done|].
    intros x Hx. rewrite read8_fill by (unfold Pmm.PAGE_SIZE; lia). apply decide_True. unfold Pmm.PAGE_SIZE. lia.
  - change (15 * 16) with 240. apply read_write_trb_eq. apply link_ok; [by right|done].
Qed.

Section NewRing.
Context {D : Type} `{Hw D}.

(** [Ring::new] either finds no free frame or returns an empty ring in a frame
    that was free. *)
Lemma Ring_new_spec (e : D * Vmm.VState) p :
  Pmm.PMM (Vmm.pst e.2) = Some p → Pmm.pmm_inv p →
  (Pmm.free_set p = ∅ ∧ (Ring_new e).1 = Ok None) ∨
  ∃ f r e', f ∈ Pmm.free_set p ∧ Ring_new e = (Ok (Some r), e') ∧ phys r = f * Pmm.PAGE_SIZE ∧
            0 ≤ phys r < 2^64 ∧ ring_inv (memory_of e') r [].
Proof.
  intros Hp Hi. unfold Ring_new, allocate, bind, on_pmm, on_vmm, Vmm.on_pmm.
  destruct (Pmm.alloc_frame_zeroed_spec _ p Hp Hi) as [[Hf ->] | (f & p' & Hf & -> & _)]; [by left|right].
  set (base := f * Pmm.PAGE_SIZE).
  assert (Hb : 0 ≤ base < 2^64).
  { unfold base. apply Pmm.elem_of_free_set in Hf as [Hf _]. pose proof (Pmm.inv_addr p Hi). unfold u64_max, Pmm.PAGE_SIZE in *. lia. }
  eexists f, (mkRing base 0 1), _. split; [done|]. split; [reflexivity|]. split; [done|]. split; [done|].
  apply (fresh_ring_inv (Pmm.phys_mem (Vmm.pst e.2)) base Hb).
Qed.
End NewRing.

(** ** The ring is a queue *)
Inductive ring_op := Post (t : Trb) | Take.

(** The driver posts, the controller takes. *)
Fixpoint ring_run (m : memory) (r : Ring) (rd : Reader) (ops : list ring_op) : list (option Trb) :=
  match ops with
  | [] => []
  | Post t :: ops => let '(_, r, m) := push r t m in ring_run m r rd ops
  | Take :: ops =>
      match next_trb m (phys r) rd with
      | Some (t, rd) => Some t :: ring_run m r rd ops
      | None => None :: ring_run m r rd ops
      end
  end.

Fixpoint fifo_run (q : list Trb) (ops : list ring_op) : list (option Trb) :=
  match ops with
  | [] => []
  | Post t :: ops => fifo_run (q ++ [t]) ops
  | Take :: ops =>
      match q with
      | t :: q => Some t :: fifo_run q ops
      | [] => None :: fifo_run [] ops
      end
  end.

(** At most 14 blocks are ever pending. *)
Fixpoint in_flight (n : nat) (ops : list ring_op) : bool :=
  match ops with
  | [] => true
  | Post _ :: ops => (n <? 14)%nat && in_flight (S n) ops
  | Take :: ops => in_flight (pred n) ops
  end.

Definition posts_ok (ops : list ring_op) : Prop := Forall (λ o, match o with Post t => pushable t | Take => True end) ops.

(** Blocks without their cycle bits. *)
Definition content (t : Trb) : Trb := with_cycle t 0.
Definition contents_of (l : list (option Trb)) : list (option Trb) := map (option_map content) l.

Lemma ring_run_fifo ops : ∀ m r hist n,
  0 ≤ phys r < 2^64 → ring_inv m r hist → Forall pushable hist → (n ≤ length hist ≤ n + 14)%nat →
  posts_ok ops → in_flight (length hist - n) ops = true →
  contents_of (ring_run m r (reader_at (Z.of_nat n)) ops) = contents_of (fifo_run (drop n hist) ops).
Proof.
  induction ops as [|[t|] ops IH]; intros m r hist n Hb Hi Hok Hn Hp Hf; [done|..]; apply Forall_cons in Hp as [Ht Hp]; cbn [ring_run fifo_run in_flight] in *.
  - apply andb_true_iff in Hf as [Hlt Hf]. apply Nat.ltb_lt in Hlt.
    destruct (push_inv m r hist t Hb Hi Ht) as (r' & m' & -> & Hr & Hi' & _).
    rewrite (IH m' r' (hist ++ [t]) n); [by rewrite drop_app_le by lia|by rewrite Hr|done| | |done|].
    + apply Forall_app. auto.
    + rewrite length_app. simpl. lia.
    + rewrite length_app. simpl. by replace (length hist + 1 - n)%nat with (S (length hist - n)) by lia.
  - rewrite (next_inv m r hist n Hi Hok Hn). destruct (hist !! n) as [t|] eqn:E.
    + rewrite (drop_S _ _ _ E). simpl. pose proof (lookup_lt_Some _ _ _ E).
      f_equal; [f_equal; apply with_cycle_twice, cyc_bit|].
      apply (IH m r hist (S n)); try done; [lia|].
      by replace (length hist - S n)%nat with (pred (length hist - n)) by lia.
    + apply lookup_ge_None in E. rewrite drop_ge by lia. simpl. f_equal.
      rewrite (IH m r hist n); try done; [by rewrite drop_ge by lia|].
      replace (length hist - n)%nat with O in * by lia. done.
Qed.

(** C38: A ring made by [Ring::new] and the controller that reads it are a
    queue: however pushes and reads are interleaved, each read gives the oldest
    block not read yet, as it was pushed, or nothing when there is none, as long
    as at most 14 blocks are pending. *)
Theorem ring_is_queue (D : Type) `{Hw D} (e e' : D * Vmm.VState) p r ops :
  PMM (Vmm.pst e.2) = Some p → pmm_inv p → Ring_new e = (Ok (Some r), e') → posts_ok ops → in_flight 0 ops = true →
  contents_of (ring_run (memory_of e') r (mkReader 0 1) ops) = contents_of (fifo_run [] ops).
Proof.
  intros Hp Hi Hn Hok Hf. destruct (Ring_new_spec e p Hp Hi) as [[_ E] | (f & r0 & e0 & _ & E & _ & Hr & Hinv)]; [by rewrite Hn in E|].
  rewrite Hn in E. injection E as <- <-. apply (ring_run_fifo ops (memory_of e') r [] 0); try done; simpl; lia.
Qed.
