(* ===== verification/UsbInput.v ===== *)
(** * Typing on a USB keyboard

    A keyboard that has been set up, its controller and the program that reads
    characters, in any order of steps: the controller completes the next read
    that is posted in the keyboard's transfer ring (it writes the report to the
    buffer and an event to the event ring, as xHCI 4.9 and 6.4.2.1 have it),
    the driver handles the next event (one round of the loop of [poll]), the
    program reads a character. *)
From stdpp Require Import base numbers list gmap.
From Stdlib Require Import ZArith Lia Bool ZifyNat.
From S2P Require Import Prelude Bytes Mem Pmm Vmm Hw Keyboard KeyQueue Hid HidInv Xhci UsbRing.
Import Xhci.

Ltac Zify.zify_post_hook ::= Z.to_euclidean_division_equations.

Section Input.
Context {D : Type} `{Hw D}.
Notation Drv := (@Drv D).

(** One round of [while let Some(ev) = poll_event_ring(c)]. *)
Definition service_event : M Drv unit bool :=
  let! e := poll_event_ring in
  match e with
  | Some ev => dispatch_keyboard_event ev ;;! ret true
  | None => ret false
  end.


(** ** The controller *)
Record Session := mkSession { driver : Drv; reader : Reader; produced : Z }.

Definition kb_of (s : Session) : option UsbKeyboard := head (keyboards (ctl (driver s))).

(** The cycle bit of the event ring's [j]-th event. *)
Definition ecyc (j : Z) : Z := 1 - j / 16 mod 2.

Definition transfer_event (k : UsbKeyboard) (trb code j : Z) : Trb :=
  mkTrb trb (Z.shiftl code 24)
    (Z.lor (Z.lor (Z.lor (Z.shiftl (slot_id k) 24) (Z.shiftl (dci k) 16)) (make_type TRB_TYPE_TRANSFER_EVENT)) (ecyc j)).

(** The controller takes the next read of the transfer ring and completes it
    with a code and a report; without one the keyboard is not asked. *)
Definition complete (code : Z) (report : list Z) (s : Session) : Session :=
  let d := driver s in
  let m := memory_of (env d) in
  match kb_of s with
  | Some k =>
      match next_trb m (phys (ring k)) (reader s) with
      | Some (t, rd) =>
          let m := write_bytes m (parameter t) report in
          let m := write_trb m (phys (event_ring (ctl d)) + produced s mod 16 * 16)
                     (transfer_event k (phys (ring k) + (place rd - 1) * 16) code (produced s)) in
          mkSession (mkDrv (set_memory m (env d)) (statics d) (ctl d)) rd (produced s + 1)
      | None => s
      end
  | None => s
  end.

Inductive kb_step := Complete (code : Z) (report : list Z) | Service | Read.

Fixpoint session_run (s : Session) (steps : list kb_step) : option (list (option Z)) :=
  match steps with
  | [] => Some []
  | Complete code report :: steps => session_run (complete code report s) steps
  | Service :: steps =>
      match service_event (driver s) with
      | (Ok _, d) => session_run (mkSession d (reader s) (produced s)) steps
      | _ => None
      end
  | Read :: steps =>
      let d := driver s in
      let '(b, st) := try_read_byte (statics d) in
      cons b <$> session_run (mkSession (mkDrv (env d) st (ctl d)) (reader s) (produced s)) steps
  end.

(** ** What the program sees: reports wait (eight of them, the keyboard is not
    asked for more), then type their characters, of which the last 256 wait. *)
Record Typing := mkTyping { waiting : list (Z * list Z); down : list Z; caps_on : bool; chars : list Z }.

Definition type_report (code : Z) (report : list Z) (t : Typing) : Typing :=
  if delivered code then
    let '(cs, caps) := report_spec (down t) (caps_on t) report in
    mkTyping (waiting t) (drop 2 report) caps (keep (chars t ++ cs))
  else mkTyping (waiting t) (replicate 6 0) (caps_on t) (chars t).

Fixpoint typing_run (t : Typing) (steps : list kb_step) : list (option Z) :=
  match steps with
  | [] => []
  | Complete code report :: steps =>
      typing_run (if (length (waiting t) <? 8)%nat then mkTyping (waiting t ++ [(code, report)]) (down t) (caps_on t) (chars t) else t) steps
  | Service :: steps =>
      typing_run (match waiting t with
                  | (code, report) :: w => type_report code report (mkTyping w (down t) (caps_on t) (chars t))
                  | [] => t
                  end) steps
  | Read :: steps =>
      match chars t with
      | b :: cs => Some b :: typing_run (mkTyping (waiting t) (down t) (caps_on t) cs) steps
      | [] => None :: typing_run t steps
      end
  end.

(** ** Events as numbers *)
Lemma ecyc_bit j : ecyc j = 0 ∨ ecyc j = 1.
Proof. unfold ecyc. lia. Qed.

Lemma ecyc_next j : ecyc (j + 16) ≠ ecyc j.
Proof. unfold ecyc. lia. Qed.

Section Event.
Context (kb : UsbKeyboard) (ptr code j : Z).
Hypothesis Hslot : 0 ≤ slot_id kb < 256.
Hypothesis Hdci : 0 ≤ dci kb < 32.
Hypothesis Hcode : 0 ≤ code < 256.

Lemma event_control : control (transfer_event kb ptr code j) = ecyc j + 32 * 2^10 + dci kb * 2^16 + slot_id kb * 2^24.
Proof.
  unfold transfer_event, make_type. cbn [control]. change (Z.shiftl (Z.land TRB_TYPE_TRANSFER_EVENT 63) 10) with (32 * 2^10).
  rewrite !Z.shiftl_mul_pow2 by lia. pose proof (ecyc_bit j).
  rewrite Z.lor_comm, (Z.lor_comm _ (32 * 2^10)), Z.lor_assoc, (lor_low_high (ecyc j)) by lia.
  rewrite (Z.lor_comm (slot_id kb * 2^24)), Z.lor_assoc.
  rewrite (lor_low_high (ecyc j + 32 * 2^10) (dci kb) 16) by lia.
  rewrite (lor_low_high _ (slot_id kb) 24) by lia. done.
Qed.

Lemma event_cycle_bit : Z.land (control (transfer_event kb ptr code j)) TRB_CYCLE = ecyc j.
Proof. rewrite event_control. change TRB_CYCLE with (2^1 - 1). rewrite land_mask by lia. pose proof (ecyc_bit j). lia. Qed.

Lemma event_type : trb_type (control (transfer_event kb ptr code j)) = TRB_TYPE_TRANSFER_EVENT.
Proof.
  unfold trb_type. rewrite event_control. change 0x3f with (2^6 - 1). rewrite land_mask, Z.shiftr_div_pow2 by lia.
  pose proof (ecyc_bit j). unfold TRB_TYPE_TRANSFER_EVENT. lia.
Qed.

Lemma event_addressed : addressed (transfer_event kb ptr code j) kb = true.
Proof.
  unfold addressed, wrap8. rewrite event_control. change 0x1f with (2^5 - 1). rewrite land_mask, !Z.shiftr_div_pow2 by lia.
  pose proof (ecyc_bit j). apply andb_true_iff. split; apply Z.eqb_eq; lia.
Qed.

Lemma event_code : completion_code (transfer_event kb ptr code j) = code.
Proof.
  unfold completion_code, transfer_event. cbn [status]. change 0xff with (2^8 - 1).
  rewrite land_mask, Z.shiftr_div_pow2, Z.shiftl_mul_pow2 by lia. lia.
Qed.

Lemma event_ok : 0 ≤ ptr < 2^64 → trb_ok (transfer_event kb ptr code j).
Proof.
  intros Hp. split; [done| |rewrite event_control; pose proof (ecyc_bit j); lia].
  unfold transfer_event. cbn [status]. rewrite Z.shiftl_mul_pow2 by lia. lia.
Qed.
End Event.

(** ** The invariant *)

(** The device leaves memory alone while the driver runs: the controller's
    writes are the steps [Complete]. *)
Definition steady : Prop := (∀ n a v e, (hw_write n a v e).2 = e.2) ∧ (∀ e, (hw_run e).2 = e.2).

Definition apart (a n b k : Z) : Prop := a + n ≤ b ∨ b + k ≤ a.

(** The transfer ring at [R], the event ring at [E] and the buffers. *)
Record layout (R E : Z) (bufs : list Z) : Prop := {
  lay_count : length bufs = 8%nat;
  lay_ring : 0 ≤ R ∧ R + 256 ≤ 2^64;
  lay_range : ∀ i b, bufs !! i = Some b → 0 ≤ b < 2^64;
  lay_rings : apart R 256 E 256;
  lay_buf_ring : ∀ i b, bufs !! i = Some b → apart b 8 R 256;
  lay_buf_event : ∀ i b, bufs !! i = Some b → apart b 8 E 256;
  lay_bufs : ∀ i j b b', bufs !! i = Some b → bufs !! j = Some b' → i ≠ j → apart b 8 b' 8
}.

Definition report_trb (b : Z) : Trb := mkTrb b 8 (Z.lor (make_type TRB_TYPE_NORMAL) TRB_IOC).

(** After [k] events: a read is posted for every buffer, in order from the one
    whose event comes next. *)
Record reads_inv (m : memory) (kb : UsbKeyboard) (hist : list Trb) (k : nat) : Prop := {
  ri_ring : ring_inv m (ring kb) hist;
  ri_length : length hist = (8 + k)%nat;
  ri_posts : ∀ j, (j < 8 + k)%nat → hist !! j = Some (report_trb (report_phys kb !!! (j mod 8)%nat));
  ri_enqueue : report_enqueue kb = Z.of_nat (k mod 8);
  ri_dequeue : report_dequeue kb = Z.of_nat (k mod 8)
}.

(** The events not handled yet, and their reports; past them the cycle bits
    are those of the lap before. *)
Record events_inv (m : memory) (kb : UsbKeyboard) (E a : Z) (k : nat) (w : list (Z * list Z)) : Prop := {
  ev_pending : ∀ i code report, w !! i = Some (code, report) →
    0 ≤ code < 256 ∧ length report = 8%nat ∧ bytes_ok report ∧
    (∃ ptr, read_trb m (E + (a + Z.of_nat i) mod 16 * 16) = transfer_event kb ptr code (a + Z.of_nat i)) ∧
    read_bytes m (report_phys kb !!! ((k + i) mod 8)%nat) 8 = report;
  ev_stale : ∀ j, a + Z.of_nat (length w) ≤ j < a + 16 →
    Z.land (control (read_trb m (E + j mod 16 * 16))) TRB_CYCLE ≠ ecyc j
}.

Record session_inv (s : Session) (t : Typing) : Prop := {
  si_inv : ∃ kb hist k a,
    let d := driver s in let c := ctl d in let m := memory_of (env d) in
    keyboards c = [kb] ∧ 0 ≤ slot_id kb < 256 ∧ 0 ≤ dci kb < 32 ∧
    layout (phys (ring kb)) (phys (event_ring c)) (report_phys kb) ∧
    reads_inv m kb hist k ∧ (length (waiting t) ≤ 8)%nat ∧ 0 ≤ a ∧
    events_inv m kb (phys (event_ring c)) a k (waiting t) ∧
    event_dequeue c = a mod 16 ∧ event_cycle c = ecyc a ∧
    reader s = reader_at (Z.of_nat (k + length (waiting t))) ∧ produced s = a + Z.of_nat (length (waiting t)) ∧
    prev_keys kb = down t ∧ CAPS_LOCK (statics d) = caps_on t ∧
    queue_ok (ASCII_QUEUE (statics d)) ∧ queued (ASCII_QUEUE (statics d)) = chars t
}.

(** ** Frames of memory *)
Lemma read_trb_write_ne m a bs b : apart b 16 a (Z.of_nat (length bs)) → read_trb (write_bytes m a bs) b = read_trb m b.
Proof. intros Ha. unfold read_trb, read64, read32, apart in *. rewrite !read_write_bytes_ne; [done|lia..]. Qed.

Lemma ring_inv_ext m m' r hist :
  (∀ i, 0 ≤ i ≤ 15 → read_trb m' (phys r + i * 16) = read_trb m (phys r + i * 16)) → ring_inv m r hist → ring_inv m' r hist.
Proof.
  intros He [Hq Hc Hw Hf Hl]. split; [done|done|..].
  - intros j t Hj Hge. rewrite He by lia. by apply Hw.
  - intros i Hi. rewrite He by lia. by apply Hf.
  - rewrite (He 15) by lia. done.
Qed.

Lemma posts_pushable kb hist k m : reads_inv m kb hist k → layout (phys (ring kb)) 0 (report_phys kb) ∨ (∃ E, layout (phys (ring kb)) E (report_phys kb)) → Forall pushable hist.
Proof.
  intros [_ Hl Hp _ _] Hlay. apply Forall_lookup. intros j t Hj. pose proof (lookup_lt_Some _ _ _ Hj).
  rewrite Hp in Hj by lia. injection Hj as <-.
  assert (Hb : 0 ≤ report_phys kb !!! (j mod 8)%nat < 2^64).
  { assert (∃ E, layout (phys (ring kb)) E (report_phys kb)) as [E L] by (destruct Hlay; eauto).
    destruct (lookup_lt_is_Some_2 (report_phys kb) (j mod 8)) as [b Eb]; [rewrite (lay_count _ _ _ L); lia|].
    rewrite (list_lookup_total_correct _ _ _ Eb). by apply (lay_range _ _ _ L _ _ Eb). }
  split; [|done]. split; [done|simpl; lia|vm_compute; split; congruence].
Qed.

Lemma buf_lookup R E bufs i : layout R E bufs → ∃ b, bufs !! (i mod 8)%nat = Some b ∧ bufs !!! (i mod 8)%nat = b.
Proof.
  intros L. destruct (lookup_lt_is_Some_2 bufs (i mod 8)) as [b Eb]; [rewrite (lay_count _ _ _ L); lia|].
  exists b. split; [done|]. by apply list_lookup_total_correct.
Qed.

(** ** The controller's step *)
Lemma reader_place n : 1 ≤ place (reader_at (Z.of_nat (S n))) ≤ 15.
Proof. unfold reader_at. destruct (Z.eqb_spec (Z.of_nat (S n)) 0), (Z.eqb_spec (Z.of_nat (S n) mod 15) 0); simpl; lia. Qed.

Lemma complete_inv code report s t :
  0 ≤ code < 256 → length report = 8%nat → bytes_ok report → session_inv s t →
  session_inv (complete code report s)
    (if (length (waiting t) <? 8)%nat then mkTyping (waiting t ++ [(code, report)]) (down t) (caps_on t) (chars t) else t).
Proof.
  intros Hcode Hlen Hbytes Hinv. pose proof Hinv as [(kb & hist & k & a & Hk & Hs & Hd & L & R & Hw & Ha & [Hp Hst] & Hdq & Hcy & Hrd & Hpr & Hrest)].
  set (w := waiting t) in *. set (m := memory_of (env (driver s))) in *. set (E := phys (event_ring (ctl (driver s)))) in *.
  pose proof (posts_pushable kb hist k m R (or_intror (ex_intro _ E L))) as Hpush.
  pose proof R as [Hri Hl Hposts _ _].
  unfold complete, kb_of. rewrite Hk. cbn [head]. fold m E. rewrite Hrd, (next_inv m (ring kb) hist (k + length w) Hri Hpush) by lia.
  destruct (Nat.ltb_spec (length w) 8) as [Hlt|Hge].
  2: { rewrite lookup_ge_None_2 by lia. exact Hinv. }
  rewrite Hposts by lia. cbn [parameter with_cycle].
  destruct (buf_lookup _ _ _ (k + length w) L) as (b & Hb & Hbt). cbn [parameter with_cycle report_trb]. rewrite Hbt.
  set (m1 := write_bytes m b report). rewrite Hpr.
  set (ev := transfer_event kb _ code _). set (m2 := write_trb m1 _ ev).
  pose proof (lay_buf_event _ _ _ L _ _ Hb) as Hbe. pose proof (lay_buf_ring _ _ _ L _ _ Hb) as Hbr. pose proof (lay_rings _ _ _ L) as Hre.
  fold E in Hbe, Hre. unfold apart in *.
  assert (Hring : ∀ i, 0 ≤ i ≤ 15 → read_trb m2 (phys (ring kb) + i * 16) = read_trb m (phys (ring kb) + i * 16)).
  { intros i Hi. unfold m2, m1. rewrite read_write_trb_ne by lia. apply read_trb_write_ne. unfold apart. rewrite Hlen. lia. }
  assert (Hslots : ∀ j, (j mod 16) ≠ ((a + Z.of_nat (length w)) mod 16) → read_trb m2 (E + j mod 16 * 16) = read_trb m (E + j mod 16 * 16)).
  { intros j Hj. unfold m2, m1. rewrite read_write_trb_ne by lia. apply read_trb_write_ne. unfold apart. rewrite Hlen. lia. }
  constructor. exists kb, hist, k, a. cbv zeta. cbn [driver reader produced waiting down caps_on chars env statics ctl].
  rewrite memory_of_set, length_app. cbn [length]. fold E.
  split; [done|]. split; [done|]. split; [done|]. split; [done|]. split; [|split; [lia|split; [done|]]].
  { destruct R as [? ? ? ? ?]. split; try done. by apply (ring_inv_ext m). }
  split; [split|].
  - intros i c r Hi. apply lookup_app_Some in Hi as [Hi | [Hge Hi]].
    + destruct (Hp i c r Hi) as (? & ? & ? & (ptr & Hev) & Hr). pose proof (lookup_lt_Some _ _ _ Hi).
      split; [done|]. split; [done|]. split; [done|]. split; [exists ptr; rewrite Hslots by lia; done|].
      rewrite <- Hr. destruct (buf_lookup _ _ _ (k + i) L) as (b' & Hb' & ->).
      pose proof (lay_buf_event _ _ _ L _ _ Hb') as Hbe'. pose proof (lay_bufs _ _ _ L _ _ _ _ Hb Hb' ltac:(lia)) as Hbb. fold E in Hbe'. unfold apart in *.
      unfold m2, m1, write_trb. rewrite read_write_bytes_ne by (rewrite length_trb_bytes; lia). apply read_write_bytes_ne. rewrite Hlen. lia.
    + apply list_lookup_singleton_Some in Hi as [Hi [= <- <-]]. assert (i = length w) as -> by lia.
      split; [done|]. split; [done|]. split; [done|]. split.
      * eexists. unfold m2. rewrite read_write_trb_eq; [reflexivity|]. apply event_ok; [done..|].
        replace (k + length w + 1)%nat with (S (k + length w)) by lia. pose proof (reader_place (k + length w)). pose proof (lay_ring _ _ _ L). lia.
      * rewrite Hbt. unfold m2, write_trb. rewrite read_write_bytes_ne by (rewrite length_trb_bytes; lia).
        unfold m1. rewrite <- Hlen at 1. apply read_write_bytes_eq.
  - intros j Hj. rewrite length_app in Hj. cbn [length] in Hj. rewrite Hslots by lia. apply Hst. lia.
  - split; [done|]. split; [done|]. split; [f_equal; lia|]. split; [lia|done].
Qed.

(** ** The driver's step *)
Section Service.
Hypothesis Hsteady : steady.

Lemma steady_write n a v (e : D * Vmm.VState) : (hw_write n a v e).2 = e.2.
Proof. apply Hsteady. Qed.
Lemma steady_run (e : D * Vmm.VState) : (hw_run e).2 = e.2.
Proof. apply Hsteady. Qed.
Lemma memory_steady (e e' : D * Vmm.VState) : e'.2 = e.2 → memory_of e' = memory_of e.
Proof. unfold memory_of. by intros ->. Qed.

Definition event_at (d : Drv) : Trb :=
  read_trb (memory_of (env d)) (phys (event_ring (ctl d)) + event_dequeue (ctl d) * 16).

Lemma poll_none d : Z.land (control (event_at d)) TRB_CYCLE ≠ event_cycle (ctl d) →
  ∃ e, e.2 = (env d).2 ∧ poll_event_ring d = (Ok None, mkDrv e (statics d) (ctl d)).
Proof.
  intros Hn. exists (hw_run (env d)). split; [apply steady_run|].
  unfold poll_event_ring, get_ctl, on_env, mem_volatile, bind, ret. cbn [env statics ctl].
  rewrite (memory_steady _ _ (steady_run (env d))). fold (event_at d). by rewrite (proj2 (Z.eqb_neq _ _) Hn).
Qed.

Lemma poll_some d a : event_dequeue (ctl d) = a mod 16 → event_cycle (ctl d) = ecyc a → 0 ≤ a →
  Z.land (control (event_at d)) TRB_CYCLE = ecyc a →
  ∃ e, e.2 = (env d).2 ∧
    poll_event_ring d = (Ok (Some (event_at d)), mkDrv e (statics d) (set_dequeue (ecyc (a + 1)) ((a + 1) mod 16) (ctl d))).
Proof.
  intros Hdq Hcy Ha Hbit.
  assert (Hadv : (if event_dequeue (ctl d) + 1 =? RING_SIZE then (Z.lxor (event_cycle (ctl d)) 1, 0) else (event_cycle (ctl d), event_dequeue (ctl d) + 1))
                 = (ecyc (a + 1), (a + 1) mod 16)).
  { rewrite Hdq, Hcy. unfold RING_SIZE. destruct (Z.eqb_spec (a mod 16 + 1) 16).
    - f_equal; [|lia]. replace (ecyc (a + 1)) with (1 - ecyc a) by (unfold ecyc; lia). by destruct (ecyc_bit a) as [-> | ->].
    - f_equal; [unfold ecyc; lia|lia]. }
  unfold poll_event_ring, get_ctl, on_env, mem_volatile, bind at 1 2, ret. cbn [env statics ctl].
  rewrite (memory_steady _ _ (steady_run (env d))). fold (event_at d). rewrite Hbit, Hcy, Z.eqb_refl, <- Hcy, Hadv. cbn [negb].
  eexists. split; cycle 1.
  - unfold bind, set_ctl, reg_write64_split, reg_write32, reg_write, bind. cbn [env statics ctl]. reflexivity.
  - by rewrite !steady_write, steady_run.
Qed.

(** Posting a read. *)
Definition set_posted (r : Ring) (enqueue : Z) (k : UsbKeyboard) : UsbKeyboard :=
  mkKeyboard (port k) (slot_id k) (dci k) r (kb_output_ctx_phys k) (kb_ep0_ring_phys k) (report_phys k) enqueue (report_dequeue k) (prev_keys k).

Definition frame_kept (R : Z) (m m' : memory) : Prop :=
  (∀ a, apart a 16 R 256 → read_trb m' a = read_trb m a) ∧
  (∀ a n, apart a (Z.of_nat n) R 256 → read_bytes m' a n = read_bytes m a n).

Lemma queue_inv (e : D * Vmm.VState) kb hist E :
  layout (phys (ring kb)) E (report_phys kb) → ring_inv (memory_of e) (ring kb) hist →
  report_enqueue kb = Z.of_nat (length hist mod 8) →
  ∃ m' r', queue_report_read kb e = (Ok (set_posted r' (Z.of_nat (S (length hist) mod 8)) kb), set_memory m' e) ∧
    phys r' = phys (ring kb) ∧ ring_inv m' r' (hist ++ [report_trb (report_phys kb !!! (length hist mod 8)%nat)]) ∧
    frame_kept (phys (ring kb)) (memory_of e) m'.
Proof.
  intros L Hri Heq. pose proof (lay_ring _ _ _ L).
  destruct (buf_lookup _ _ _ (length hist) L) as (b & Hb & Hbt). pose proof (lay_range _ _ _ L _ _ Hb).
  assert (Hpb : pushable (report_trb b)) by (split; [split; [done|simpl; lia|vm_compute; split; congruence]|done]).
  destruct (push_inv (memory_of e) (ring kb) hist (report_trb b) ltac:(lia) Hri Hpb) as (r' & m' & Hpush & Hr & Hinv & Ho & Hob).
  unfold queue_report_read, ring_push, mem_get, mem_set, bind, ret.
  rewrite Heq, Nat2Z.id, Hbt. fold (report_trb b). rewrite Hpush. cbn [snd].
  replace ((Z.of_nat (length hist mod 8) + 1) mod Z.of_nat KEYBOARD_REPORT_QUEUE_DEPTH) with (Z.of_nat (S (length hist) mod 8)) by (unfold KEYBOARD_REPORT_QUEUE_DEPTH; lia).
  exists m', r'. split; [reflexivity|]. split; [done|]. split; [done|]. unfold frame_kept, apart. split; [intros; apply Ho; lia|intros; apply Hob; lia].
Qed.

Lemma submit_inv (e : D * Vmm.VState) db kb hist k E :
  layout (phys (ring kb)) E (report_phys kb) → ring_inv (memory_of e) (ring kb) hist → length hist = (8 + k)%nat →
  report_enqueue kb = Z.of_nat (k mod 8) →
  ∃ e' r', submit_report_read db kb e = (Ok (set_posted r' (Z.of_nat (S k mod 8)) kb), e') ∧ phys r' = phys (ring kb) ∧
    ring_inv (memory_of e') r' (hist ++ [report_trb (report_phys kb !!! (k mod 8)%nat)]) ∧
    frame_kept (phys (ring kb)) (memory_of e) (memory_of e').
Proof.
  intros L Hri Hl Heq. destruct (queue_inv e kb hist E L Hri) as (m' & r' & Hq & Hr & Hinv & Hf).
  { rewrite Hl, Heq. f_equal. lia. }
  replace (length hist mod 8)%nat with (k mod 8)%nat in * by lia. replace (S (length hist) mod 8)%nat with (S k mod 8)%nat in * by lia.
  assert (Hm : ∀ n x v, memory_of (hw_write n x v (set_memory m' e)) = m') by (intros; rewrite (memory_steady (set_memory m' e)) by apply steady_write; apply memory_of_set).
  unfold submit_report_read, ring_endpoint_doorbell, reg_write32, reg_write, bind, ret. rewrite Hq.
  eexists _, r'. split; [reflexivity|]. rewrite Hm. done.
Qed.

Lemma handle_report_eq (d : Drv) kb buffer report cs caps :
  read_bytes (memory_of (env d)) (report_phys kb !!! Z.to_nat buffer) 8 = report → length report = 8%nat → bytes_ok report →
  report_spec (prev_keys kb) (CAPS_LOCK (statics d)) report = (cs, caps) →
  handle_report kb buffer d =
    (Ok (set_report (report_dequeue kb) (drop 2 report) kb),
     mkDrv (env d) (set_keys caps (foldl (λ q b, Hid.push b q) (ASCII_QUEUE (statics d)) cs) (statics d)) (ctl d)).
Proof.
  intros Hr Hl Hb Hs. destruct (translate_spec _ _ _ _ _ Hl Hb Hs) as (out & Ht & Hout).
  unfold handle_report, on_env, mem_get, get_statics, set_statics, bind, ret. rewrite Hr. cbn [env statics ctl]. rewrite Ht. cbn [env statics ctl].
  by rewrite Hout.
Qed.

(** What handling an event does to the statics. *)
Definition after_report (code : Z) (report : list Z) (kb : UsbKeyboard) (st : Statics) : Statics :=
  if delivered code then
    let '(cs, caps) := report_spec (prev_keys kb) (CAPS_LOCK st) report in
    set_keys caps (foldl (λ q b, Hid.push b q) (ASCII_QUEUE st) cs) st
  else st.
Definition keys_after (code : Z) (report : list Z) : list Z := if delivered code then drop 2 report else replicate 6 0.

Lemma dispatch_eq (d : Drv) kb hist k ptr code j report E :
  keyboards (ctl d) = [kb] → 0 ≤ slot_id kb < 256 → 0 ≤ dci kb < 32 → 0 ≤ code < 256 →
  layout (phys (ring kb)) E (report_phys kb) → reads_inv (memory_of (env d)) kb hist k →
  length report = 8%nat → bytes_ok report → read_bytes (memory_of (env d)) (report_phys kb !!! (k mod 8)%nat) 8 = report →
  ∃ e' r' kb', dispatch_keyboard_event (transfer_event kb ptr code j) d =
      (Ok tt, mkDrv e' (after_report code report kb (statics d)) (set_keyboards [kb'] (ctl d))) ∧
    kb' = mkKeyboard (port kb) (slot_id kb) (dci kb) r' (kb_output_ctx_phys kb) (kb_ep0_ring_phys kb) (report_phys kb)
            (Z.of_nat (S k mod 8)) (Z.of_nat (S k mod 8)) (keys_after code report) ∧
    phys r' = phys (ring kb) ∧
    reads_inv (memory_of e') kb' (hist ++ [report_trb (report_phys kb !!! (k mod 8)%nat)]) (S k) ∧
    (∀ a, apart a 16 (phys (ring kb)) 256 → read_trb (memory_of e') a = read_trb (memory_of (env d)) a) ∧
    (∀ a n, apart a (Z.of_nat n) (phys (ring kb)) 256 → read_bytes (memory_of e') a n = read_bytes (memory_of (env d)) a n).
Proof.
  intros Hk Hs Hd Hc L [Hri Hl Hposts Hen Hde] Hlen Hb Hr.
  unfold dispatch_keyboard_event. rewrite event_type by done. change (negb (_ =? _)) with false. cbv iota.
  unfold get_ctl. unfold bind at 1. rewrite Hk. cbn [list_find]. rewrite decide_True by (by apply event_addressed). cbn [fst snd].
  rewrite event_code by done.
  set (kb1 := set_report (Z.of_nat (S k mod 8)) (keys_after code report) kb).
  set (d1 := mkDrv (env d) (after_report code report kb (statics d)) (ctl d)).
  assert (Hhandled : (if delivered code then handle_report kb (report_dequeue kb) else ret (set_report (report_dequeue kb) (replicate 6 0) kb)) d
    = (Ok (set_report (report_dequeue kb) (keys_after code report) kb), d1)).
  { unfold d1, after_report, keys_after. destruct (delivered code); [|by destruct d].
    destruct (report_spec (prev_keys kb) (CAPS_LOCK (statics d)) report) as [cs caps] eqn:Es.
    apply handle_report_eq; try done. by rewrite Hde, Nat2Z.id. }
  rewrite (bind_ok _ _ _ _ _ Hhandled). cbn [report_dequeue prev_keys set_report].
  replace ((report_dequeue kb + 1) mod Z.of_nat KEYBOARD_REPORT_QUEUE_DEPTH) with (Z.of_nat (S k mod 8)) by (rewrite Hde; unfold KEYBOARD_REPORT_QUEUE_DEPTH; lia).
  change (set_report (Z.of_nat (S k mod 8)) (keys_after code report) (set_report (report_dequeue kb) (keys_after code report) kb)) with kb1.
  destruct (submit_inv (env d1) (db (ctl d)) kb1 hist k E L Hri Hl Hen) as (e' & r' & Hsub & Hr' & Hinv & Hf1 & Hf2).
  unfold on_env, bind. rewrite Hsub. unfold set_ctl, d1. cbn [env statics ctl]. rewrite Hk.
  exists e', r'. eexists. split; [reflexivity|]. split; [reflexivity|]. split; [done|]. split; [|split; [exact Hf1|exact Hf2]].
  split; cbn [ring report_phys report_enqueue report_dequeue]; [done|rewrite length_app; simpl; lia| |done|done].
  intros i Hi. destruct (decide (i < 8 + k)%nat).
  - rewrite lookup_app_l by lia. by apply Hposts.
  - rewrite lookup_app_r by lia. replace (i - length hist)%nat with O by lia. replace (i mod 8)%nat with (k mod 8)%nat by lia. done.
Qed.

Lemma type_report_queue code report w dn cp ch kb st :
  prev_keys kb = dn → CAPS_LOCK st = cp → queue_ok (ASCII_QUEUE st) → queued (ASCII_QUEUE st) = ch →
  let st' := after_report code report kb st in
  type_report code report (mkTyping w dn cp ch) = mkTyping w (keys_after code report) (CAPS_LOCK st') (queued (ASCII_QUEUE st')) ∧
  queue_ok (ASCII_QUEUE st').
Proof.
  intros <- <- Hok <-. unfold type_report, after_report, keys_after. cbn [down caps_on chars waiting]. destruct (delivered code); [|done].
  destruct (report_spec (prev_keys kb) (CAPS_LOCK st) report) as [cs caps]. cbn [CAPS_LOCK ASCII_QUEUE set_keys].
  destruct (push_all_queued cs _ Hok) as [? ->]. done.
Qed.

Lemma service_inv s t : session_inv s t →
  ∃ more d, service_event (driver s) = (Ok more, d) ∧
    session_inv (mkSession d (reader s) (produced s))
      (match waiting t with
       | (code, report) :: w => type_report code report (mkTyping w (down t) (caps_on t) (chars t))
       | [] => t
       end).
Proof.
  intros [(kb & hist & k & a & Hk & Hs & Hd & L & R & Hw & Ha & [Hp Hst] & Hdq & Hcy & Hrd & Hpr & Hdown & Hcaps & Hqok & Hq)].
  destruct t as [w dn cp ch]. cbn [waiting down caps_on chars] in *. set (d := driver s) in *.
  destruct w as [|[code report] w].
  - destruct (poll_none d) as (e & He & Hpoll).
    { unfold event_at. rewrite Hdq, Hcy. apply Hst. simpl. lia. }
    exists false, (mkDrv e (statics d) (ctl d)). split; [unfold service_event, bind; by rewrite Hpoll|].
    constructor. exists kb, hist, k, a. cbv zeta. cbn [driver reader produced waiting env statics ctl].
    rewrite (memory_steady _ _ He). by repeat (split; [done|]).
  - destruct (Hp 0%nat code report eq_refl) as (Hcode & Hlen & Hb & (ptr & Hev) & Hrep). rewrite Z.add_0_r in Hev. rewrite Nat.add_0_r in Hrep.
    assert (Hat : event_at d = transfer_event kb ptr code a) by (unfold event_at; by rewrite Hdq).
    destruct (poll_some d a Hdq Hcy Ha) as (e & He & Hpoll); [rewrite Hat; by apply event_cycle_bit|]. rewrite Hat in Hpoll.
    set (c1 := set_dequeue (ecyc (a + 1)) ((a + 1) mod 16) (ctl d)) in *. set (d1 := mkDrv e (statics d) c1) in *.
    assert (Hm : memory_of (env d1) = memory_of (env d)) by (by apply memory_steady).
    destruct (dispatch_eq d1 kb hist k ptr code a report (phys (event_ring (ctl d)))) as (e' & r' & kb' & Hdisp & Hkb' & Hr' & R' & Hf1 & Hf2); try done.
    { by rewrite Hm. } { by rewrite Hm. }
    eexists true, _. split; [unfold service_event, bind; rewrite Hpoll, Hdisp; reflexivity|].
    destruct (type_report_queue code report w dn cp ch kb (statics d)) as [-> Hqok']; try done.
    constructor. exists kb', (hist ++ [report_trb (report_phys kb !!! (k mod 8)%nat)]), (S k), (a + 1). cbv zeta.
    cbn [driver reader produced waiting down caps_on chars env statics ctl keyboards set_keyboards event_ring event_dequeue event_cycle c1 set_dequeue].
    rewrite Hkb'. cbn [slot_id dci ring report_phys prev_keys]. rewrite <- Hkb'. cbn [length] in *.
    split; [done|]. split; [done|]. split; [done|]. split; [by rewrite Hr'|]. split; [done|]. split; [lia|]. split; [lia|]. split; [|].
    2: { split; [done|]. split; [done|]. split; [rewrite Hrd; f_equal; lia|]. split; [lia|]. done. }
    pose proof (lay_rings _ _ _ L) as Hre. unfold apart in Hre.
    assert (Hslot : ∀ j, 0 ≤ j → read_trb (memory_of e') (phys (event_ring (ctl d)) + j mod 16 * 16) = read_trb (memory_of (env d)) (phys (event_ring (ctl d)) + j mod 16 * 16)).
    { intros j Hj. rewrite Hf1, Hm; [done|]. unfold apart. lia. }
    split.
    + intros i c r Hi. destruct (Hp (S i) c r Hi) as (? & ? & ? & (ptr' & Hev') & Hrep'). split; [done|]. split; [done|]. split; [done|].
      rewrite Hkb'. cbn [report_phys]. split.
      * exists ptr'. rewrite Hslot by lia. replace (a + 1 + Z.of_nat i) with (a + Z.of_nat (S i)) by lia. done.
      * replace (S k + i)%nat with (k + S i)%nat by lia. rewrite Hf2, Hm; [done|].
        destruct (buf_lookup _ _ _ (k + S i) L) as (b & Hb' & ->). apply (lay_buf_ring _ _ _ L _ _ Hb').
    + intros j Hj. rewrite Hslot by lia. destruct (decide (j = a + 16)) as [-> |].
      * replace ((a + 16) mod 16) with (a mod 16) by lia. rewrite Hev, event_cycle_bit by done. apply not_eq_sym, ecyc_next.
      * apply Hst. simpl. lia.
Qed.
End Service.
End Input.
