(* ===== verification/UsbStart.v ===== *)
(** * From a configured keyboard to its characters

    [start_reports] gives a configured keyboard its buffers and posts a read
    for each; from there on the characters that a program reads are those of
    the reports, whatever the order of the steps. *)
From stdpp Require Import base numbers list gmap.
From Stdlib Require Import ZArith Lia Bool ZifyNat.
From S2P Require Import Prelude Bytes Mem Pmm Vmm Hw Keyboard KeyQueue Hid HidInv Xhci UsbRing UsbInput.
Import Xhci.

Section Start.
Context {D : Type} `{Hw D}.
Notation Drv := (@Drv D).

(** ** Buffers *)
Lemma fill_out m a v n b k : 0 ≤ n → apart b (Z.of_nat k) a n → read_bytes (fill_bytes m a v n) b k = read_bytes m b k.
Proof. intros Hn Ha. apply read_bytes_ext. intros x Hx. rewrite read8_fill by done. apply decide_False. unfold apart in Ha. lia. Qed.

Lemma alloc_reports_spec n : ∀ got (e : D * Vmm.VState) p bufs e',
  PMM (Vmm.pst e.2) = Some p → pmm_inv p → alloc_reports n got e = (Ok bufs, e') →
  ∃ fs p', bufs = got ++ map (λ f, f * PAGE_SIZE) fs ∧ length fs = n ∧ NoDup fs ∧ (∀ f, f ∈ fs → f ∈ free_set p) ∧
    PMM (Vmm.pst e'.2) = Some p' ∧ pmm_inv p' ∧ e'.1 = e.1 ∧
    (∀ a k, (∀ f, f ∈ free_set p → apart a (Z.of_nat k) (f * PAGE_SIZE) PAGE_SIZE) → read_bytes (memory_of e') a k = read_bytes (memory_of e) a k).
Proof.
  induction n as [|n IH]; intros got e p bufs e' Hp Hi Ha.
  - injection Ha as <- <-. exists [], p. rewrite app_nil_r. split; [done|]. split; [done|]. split; [constructor|]. split; [set_solver|]. done.
  - cbn [alloc_reports] in Ha. unfold bind at 1, on_pmm, on_vmm, Vmm.on_pmm in Ha.
    destruct (alloc_frame_zeroed_spec _ p Hp Hi) as [[_ Hn] | (f & p1 & Hf & Hn & Hi1 & Hs1 & _)]; rewrite Hn in Ha; cbn in Ha.
    { exfalso. clear -Ha. revert Ha. generalize (set_PMM (Vmm.pst e.2) p). intros s0. unfold bind. destruct (mfor _ _ _) as [[] ?]; discriminate. }
    pose proof (λ Hx, IH _ _ p1 _ _ Hx Hi1 Ha) as IH1. specialize (IH1 eq_refl).
    destruct IH1 as (fs & p' & -> & Hl & Hnd & Hin & Hp' & Hi' & He1 & Hm).
    exists (f :: fs), p'. rewrite <- app_assoc. split; [done|]. split; [simpl; lia|]. split.
    { constructor; [|done]. intros Hc. apply Hin in Hc. rewrite Hs1 in Hc. set_solver. }
    split. { intros g Hg. apply elem_of_cons in Hg as [-> |Hg]; [done|]. apply Hin in Hg. rewrite Hs1 in Hg. set_solver. }
    split; [done|]. split; [done|]. split; [done|]. intros a k Hap. rewrite Hm.
    + unfold memory_of. cbn. apply fill_out; [done|]. by apply Hap.
    + intros g Hg. apply Hap. rewrite Hs1 in Hg. set_solver.
Qed.

(** ** The first reads *)
Lemma queue_reads_inv n : ∀ (e : D * Vmm.VState) kb hist E,
  layout (phys (ring kb)) E (report_phys kb) → ring_inv (memory_of e) (ring kb) hist →
  report_enqueue kb = Z.of_nat (length hist mod 8) →
  (∀ j, (j < length hist)%nat → hist !! j = Some (report_trb (report_phys kb !!! (j mod 8)%nat))) →
  ∃ m' r' hist', queue_reads n kb e = (Ok (set_posted r' (Z.of_nat (length hist' mod 8)) kb), set_memory m' e) ∧
    phys r' = phys (ring kb) ∧ ring_inv m' r' hist' ∧ length hist' = (length hist + n)%nat ∧
    (∀ j, (j < length hist')%nat → hist' !! j = Some (report_trb (report_phys kb !!! (j mod 8)%nat))) ∧
    frame_kept (phys (ring kb)) (memory_of e) m'.
Proof.
  induction n as [|n IH]; intros e kb hist E L Hri Hen Hp.
  - exists (memory_of e), (ring kb), hist. split; [|by rewrite Nat.add_0_r].
    cbn [queue_reads]. unfold ret. rewrite <- Hen. f_equal; [by destruct kb|]. unfold set_memory, memory_of, Vmm.set_pst, set_phys_mem. by destruct e as [? [[]]].
  - destruct (queue_inv e kb hist E L Hri Hen) as (m1 & r1 & Hq & Hr1 & Hi1 & [Hf1 Hf1']).
    set (h1 := hist ++ [report_trb (report_phys kb !!! (length hist mod 8)%nat)]) in *.
    assert (Hl1 : length h1 = S (length hist)) by (unfold h1; rewrite length_app; simpl; lia).
    set (kb1 := set_posted r1 (Z.of_nat (S (length hist) mod 8)) kb) in *.
    destruct (IH (set_memory m1 e) kb1 h1 E) as (m' & r' & h' & Hqs & Hr & Hi & Hl & Hp' & [Hf Hf']).
    + cbn [kb1 ring report_phys set_posted]. by rewrite Hr1.
    + exact Hi1.
    + by rewrite Hl1.
    + intros j Hj. cbn [kb1 report_phys set_posted]. unfold h1. destruct (decide (j < length hist)%nat).
      * rewrite lookup_app_l by lia. by apply Hp.
      * rewrite lookup_app_r by lia. rewrite Hl1 in Hj. replace (j - length hist)%nat with O by lia. by replace j with (length hist) by lia.
    + exists m', r', h'. cbn [queue_reads]. rewrite (bind_ok _ _ _ _ _ Hq). fold kb1. rewrite Hqs. cbn [kb1 ring report_phys set_posted] in Hr, Hp', Hf, Hf'.
      rewrite Hr1 in *. split; [done|]. split; [done|]. split; [done|]. split; [lia|]. split; [exact Hp'|].
      split; [intros a Ha; by rewrite Hf, memory_of_set, Hf1|intros a k Ha; by rewrite Hf', memory_of_set, Hf1'].
Qed.

(** ** A configured keyboard

    The transfer ring is empty and the event ring has no event left; their
    frames are in use. *)
Record configured (d : Drv) (r : Ring) (p : Pmm) (a : Z) : Prop := {
  cf_pmm : PMM (Vmm.pst (env d).2) = Some p;
  cf_inv : pmm_inv p;
  cf_keyboards : keyboards (ctl d) = [];
  cf_ring : ring_inv (memory_of (env d)) r [];
  cf_frames : ∃ fr fe, phys r = fr * PAGE_SIZE ∧ phys (event_ring (ctl d)) = fe * PAGE_SIZE ∧
     fr ≠ fe ∧ 0 ≤ fr < total_frames p ∧ fr ∉ free_set p ∧ fe ∉ free_set p;
  cf_slot : 0 ≤ c_slot_id (ctl d) < 256;
  cf_event : 0 ≤ a ∧ event_dequeue (ctl d) = a mod 16 ∧ event_cycle (ctl d) = ecyc a;
  cf_stale : ∀ j, a ≤ j < a + 16 → Z.land (control (read_trb (memory_of (env d)) (phys (event_ring (ctl d)) + j mod 16 * 16))) TRB_CYCLE ≠ ecyc j;
  cf_queue : queue_ok (ASCII_QUEUE (statics d))
}.

Lemma frames_apart f g n : f ≠ g → 0 ≤ n ≤ PAGE_SIZE → apart (f * PAGE_SIZE) n (g * PAGE_SIZE) n.
Proof. unfold apart, PAGE_SIZE. lia. Qed.

Lemma start_inv (Hsteady : steady) d d' port dci r p a :
  configured d r p a → 0 ≤ dci < 32 → start_reports port dci r d = (Ok tt, d') →
  session_inv (mkSession d' (mkReader 0 1) a) (mkTyping [] (replicate 6 0) (CAPS_LOCK (statics d)) (queued (ASCII_QUEUE (statics d)))).
Proof.
  intros [Hp Hi Hk Hri (fr & fe & Hfr & Hfe & Hne & Hrange & Hur & Hue) Hslot (Ha & Hdq & Hcy) Hst Hqok] Hdci Hs.
  unfold start_reports in Hs. unfold on_env in Hs at 1. unfold bind in Hs at 1.
  destruct (alloc_reports KEYBOARD_REPORT_QUEUE_DEPTH [] (env d)) as [[bufs| | |] e1] eqn:Hal; try discriminate.
  destruct (alloc_reports_spec _ _ _ p _ _ Hp Hi Hal) as (fs & p1 & -> & Hl & Hnd & Hin & _ & _ & _ & Hm).
  cbn [app env statics ctl] in Hs. set (bufs := map (λ f, f * PAGE_SIZE) fs) in *.
  unfold get_ctl in Hs. unfold bind in Hs at 1. cbn [env statics ctl] in Hs.
  set (kb := mkKeyboard port (c_slot_id (ctl d)) dci r _ _ bufs 0 0 (replicate 6 0)) in *.
  assert (Hbuf : ∀ i b, bufs !! i = Some b → ∃ f, b = f * PAGE_SIZE ∧ fs !! i = Some f ∧ f ∈ free_set p ∧ 0 ≤ f < total_frames p).
  { intros i b Hb. unfold bufs in Hb. rewrite list_lookup_fmap in Hb. destruct (fs !! i) as [f|] eqn:Ef; [|done]. injection Hb as <-.
    exists f. assert (f ∈ free_set p) as Hf by (apply Hin; by eapply list_elem_of_lookup_2). pose proof (proj1 (elem_of_free_set f p) Hf). tauto. }
  pose proof (inv_addr p Hi) as Haddr.
  assert (L : layout (phys r) (phys (event_ring (ctl d))) bufs).
  { split.
    - unfold bufs. by rewrite length_fmap.
    - rewrite Hfr. unfold PAGE_SIZE, u64_max in *. lia.
    - intros i b Hb. destruct (Hbuf i b Hb) as (f & -> & _ & _ & Hf). unfold PAGE_SIZE, u64_max in *. lia.
    - rewrite Hfr, Hfe. apply frames_apart; [done|unfold PAGE_SIZE; lia].
    - intros i b Hb. destruct (Hbuf i b Hb) as (f & -> & _ & Hf & _). rewrite Hfr. assert (f ≠ fr) by congruence. unfold apart, PAGE_SIZE. lia.
    - intros i b Hb. destruct (Hbuf i b Hb) as (f & -> & _ & Hf & _). rewrite Hfe. assert (f ≠ fe) by congruence. unfold apart, PAGE_SIZE. lia.
    - intros i j b b' Hb Hb' Hij. destruct (Hbuf i b Hb) as (f & -> & Hf & _), (Hbuf j b' Hb') as (f' & -> & Hf' & _).
      apply frames_apart; [|unfold PAGE_SIZE; lia]. intros ->. apply Hij. by eapply NoDup_lookup. }
  assert (Hkept : ∀ x n g, g ∉ free_set p → g * PAGE_SIZE ≤ x → x + Z.of_nat n ≤ (g + 1) * PAGE_SIZE → read_bytes (memory_of e1) x n = read_bytes (memory_of (env d)) x n).
  { intros x n g Hg H1 H2. apply Hm. intros f Hf. assert (f ≠ g) by congruence. unfold apart, PAGE_SIZE in *. lia. }
  assert (Hkt : ∀ x g, g ∉ free_set p → g * PAGE_SIZE ≤ x → x + 16 ≤ (g + 1) * PAGE_SIZE → read_trb (memory_of e1) x = read_trb (memory_of (env d)) x).
  { intros x g Hg H1 H2. unfold read_trb, read64, read32. by rewrite !(Hkept _ _ g) by (exact Hg || lia). }
  assert (Hri1 : ring_inv (memory_of e1) (ring kb) []).
  { apply (ring_inv_ext (memory_of (env d))); [|exact Hri]. intros i Hix. apply (Hkt _ fr); [done|..]; cbn [ring kb]; rewrite Hfr; unfold PAGE_SIZE; lia. }
  destruct (queue_reads_inv 8 e1 kb [] _ L Hri1 eq_refl ltac:(simpl; lia)) as (m2 & r2 & hist & Hq & Hr2 & Hi2 & Hlen & Hposts & [Hf1 Hf2]).
  unfold on_env in Hs at 1. unfold bind in Hs at 1. cbn [env statics ctl] in Hs. change KEYBOARD_REPORT_QUEUE_DEPTH with 8%nat in Hs. rewrite Hq in Hs.
  unfold bind, set_ctl, on_env, ring_endpoint_doorbell, reg_write32, reg_write in Hs. cbn [env statics ctl] in Hs. injection Hs as <-.
  set (kb2 := set_posted r2 (Z.of_nat (length hist mod 8)) kb).
  constructor. exists kb2, hist, 0%nat, a. cbv zeta. cbn [driver reader produced waiting down caps_on chars env statics ctl length].
  rewrite (memory_steady (set_memory m2 e1)) by (apply steady_write; done). rewrite memory_of_set.
  cbn [keyboards set_keyboards set_device event_ring event_dequeue event_cycle]. rewrite Hk.
  split; [done|]. split; [done|]. split; [done|]. split; [cbn [ring report_phys kb2 set_posted]; by rewrite Hr2|].
  split; [split; cbn [ring report_phys report_enqueue report_dequeue kb2 set_posted]; try done|].
  { intros j Hj. apply Hposts. rewrite Hlen. simpl. lia. }
  { rewrite Hlen. done. }
  split; [lia|]. split; [done|]. split; [split; [done|]|].
  { intros j Hj. simpl in Hj. rewrite Hf1; [|pose proof (lay_rings _ _ _ L); unfold apart in *; cbn [ring kb] in *; lia].
    rewrite (Hkt _ fe); [|done|rewrite Hfe; unfold PAGE_SIZE; lia|rewrite Hfe; unfold PAGE_SIZE; lia]. apply Hst. lia. }
  split; [done|]. split; [done|]. split; [done|]. split; [lia|]. done.
Qed.

(** ** Steps *)
Definition steps_ok (steps : list kb_step) : Prop :=
  Forall (λ st, match st with Complete code report => 0 ≤ code < 256 ∧ length report = 8%nat ∧ bytes_ok report | _ => True end) steps.

Lemma session_typing (Hsteady : steady) steps : ∀ s t,
  session_inv s t → steps_ok steps → session_run s steps = Some (typing_run t steps).
Proof.
  induction steps as [|st steps IH]; intros s t Hs Hok; [done|]. apply Forall_cons in Hok as [Hst Hok].
  destruct st as [code report| |]; cbn [session_run typing_run].
  - destruct Hst as (? & ? & ?). apply IH; [|done]. by apply complete_inv.
  - destruct (service_inv Hsteady s t Hs) as (more & d & -> & Hs'). by apply IH.
  - destruct Hs as [(kb & hist & k & a & Hrest)]. destruct Hrest as (Hk & Hsl & Hd & L & R & Hw & Ha & Hev & Hdq & Hcy & Hrd & Hpr & Hdn & Hcp & Hqok & Hq).
    unfold try_read_byte. pose proof (pop_queued _ Hqok) as Hpop. rewrite Hq in Hpop.
    assert (Hgen : ∀ q cs, queue_ok q → queued q = cs →
      session_inv (mkSession (mkDrv (env (driver s)) (set_keys (CAPS_LOCK (statics (driver s))) q (statics (driver s))) (ctl (driver s))) (reader s) (produced s))
        (mkTyping (waiting t) (down t) (caps_on t) cs)).
    { intros q cs Hqo Hqs. constructor. exists kb, hist, k, a. cbv zeta. cbn. by repeat (split; [done|]). }
    destruct (chars t) as [|b cs] eqn:Ec.
    + rewrite Hpop. rewrite (IH _ t); [done| |done]. replace t with (mkTyping (waiting t) (down t) (caps_on t) []) by (destruct t; simpl in *; by subst). by apply Hgen.
    + destruct Hpop as (q & -> & Hqo & Hqs). by rewrite (IH _ _ (Hgen q cs Hqo Hqs) Hok).
Qed.
End Start.

