(* ===== verification/UsbDemo.v ===== *)
(** * A keyboard on a quiet controller

    A device that does nothing, with the demonstration machine of the frame
    allocator: frame 257 holds the transfer ring and frame 258 the event ring. *)
From stdpp Require Import base numbers list gmap.
From Stdlib Require Import ZArith Lia Bool.
From S2P Require Import Prelude Bytes Mem Pmm Vmm VmmDemo Hw Keyboard KeyQueue Hid HidInv Xhci UsbRing UsbInput UsbStart.
Import Xhci.

#[export] Instance quiet_hw : Hw unit := {
  hw_read := λ _ _ e, (0, e); hw_write := λ _ _ _ e, e; hw_in := λ _ _ e, (0, e); hw_out := λ _ _ _ e, e;
  hw_run := λ e, e; hw_time := λ e, (0, e); hw_yield := λ e, e
}.

Lemma quiet_steady : steady (D := unit).
Proof. done. Qed.

Definition demo_env : unit * Vmm.VState := (tt, Vmm.mkV demo_boot None 0 0 0 0).
Definition demo_ring : Ring := mkRing (257 * PAGE_SIZE) 0 1.
Definition demo_post (b : Z) : ring_op := Post (report_trb b).

Lemma demo_pushable b : 0 ≤ b < 2^64 → pushable (report_trb b).
Proof. intros Hb. split; [split; [done|simpl; lia|vm_compute; split; congruence]|vm_compute; discriminate]. Qed.

(** Twenty posts and takes around the end of the ring. *)
Definition demo_ops : list ring_op :=
  demo_post 1 :: concat (map (λ i, [demo_post (i + 2); Take]) (seqZ 0 20)) ++ [Take; Take].

Lemma ring_is_queue_witness :
  (Ring_new demo_env).1 = Ok (Some demo_ring) ∧
  contents_of (ring_run (memory_of (Ring_new demo_env).2) demo_ring (mkReader 0 1) demo_ops) =
  map (λ i, Some (report_trb (i + 1))) (seqZ 0 21) ++ [None].
Proof.
  assert (Hn : (Ring_new demo_env).1 = Ok (Some demo_ring)) by (vm_compute; reflexivity).
  split; [exact Hn|].
  rewrite (ring_is_queue unit demo_env (Ring_new demo_env).2 demo_pmm demo_ring demo_ops).
  - vm_compute. reflexivity.
  - reflexivity.
  - exact demo_inv.
  - rewrite (surjective_pairing (Ring_new demo_env)) at 1. rewrite Hn. reflexivity.
  - apply Forall_cons_2; [apply demo_pushable; lia|]. apply Forall_app_2; [|by repeat constructor].
    apply Forall_concat, Forall_fmap, Forall_seqZ. intros i Hi. apply Forall_cons_2; [apply demo_pushable; lia|]. by repeat constructor.
  - vm_compute. reflexivity.
Defined.

(** ** A session *)
Definition demo_memory : memory := write_trb (phys_mem demo_s0) (257 * PAGE_SIZE + 15 * 16) (link_trb (257 * PAGE_SIZE) 1).
Definition demo_controller : Controller :=
  mkController 0 0 0 1 32 (mkRing 0 0 1) (mkRing (258 * PAGE_SIZE) 0 1) 1 0 0 0 0 0 1 [] [] 0.
Definition demo_driver : @Drv unit :=
  mkDrv (tt, Vmm.mkV (set_phys_mem demo_s0 demo_memory) None 0 0 0 0)
    (mkStatics [] true false (0, 1) Hid.RingBuffer_new) demo_controller.

#[local] Opaque demo_s0 demo_pm0.

Lemma demo_configured : configured demo_driver demo_ring demo_pm0 0.
Proof.
  destruct demo_state0 as (Hp & Hi & Ht & H257 & H258 & _ & Hz).
  assert (Hzero : ∀ a, a + 16 ≤ 257 * PAGE_SIZE + 240 ∨ 257 * PAGE_SIZE + 256 ≤ a → control (read_trb demo_memory a) = 0).
  { intros a Ha. unfold demo_memory. rewrite read_write_trb_ne by lia. cbn [control read_trb]. apply read32_zero. intros x _. apply Hz. }
  constructor.
  - exact Hp.
  - exact Hi.
  - reflexivity.
  - change (memory_of (env demo_driver)) with demo_memory.
    constructor; cbn [phys enqueue cycle length demo_ring]; [reflexivity|reflexivity|intros j t Hj; discriminate Hj| |].
    + intros i Hi'. rewrite Hzero; [reflexivity|lia].
    + apply read_write_trb_eq, link_ok; [by right|unfold PAGE_SIZE; lia].
  - exists 257, 258. rewrite Ht. split; [reflexivity|]. split; [reflexivity|]. split; [lia|]. split; [lia|]. split; [exact H257|exact H258].
  - cbn [ctl demo_driver c_slot_id demo_controller]. lia.
  - split; [lia|]. split; reflexivity.
  - change (memory_of (env demo_driver)) with demo_memory. cbn [event_ring ctl demo_driver demo_controller phys].
    intros j Hj. rewrite Hzero by (unfold PAGE_SIZE; pose proof (Z.mod_pos_bound j 16); lia).
    replace (ecyc j) with 1 by (unfold ecyc; rewrite Z.div_small by lia; reflexivity). discriminate.
  - cbn [statics demo_driver ASCII_QUEUE]. split; vm_compute; split; congruence || reflexivity.
Qed.

#[local] Transparent demo_s0 demo_pm0.

(** An a, then with shift an a still held and a b; the c that the driver has
    not seen yet is not read. *)
Definition demo_steps : list kb_step :=
  [Complete 1 [0; 0; 4; 0; 0; 0; 0; 0]; Read; Service; Complete 1 [2; 0; 4; 5; 0; 0; 0; 0]; Complete 13 [0; 0; 6; 0; 0; 0; 0; 0];
   Service; Read; Read; Read; Service; Read].

Definition demo_started : @Drv unit := (start_reports 1 3 demo_ring demo_driver).2.

