(* ===== verification/Pci.v ===== *)
(** * The PCI bus: [drivers/usb/pci.rs], [drivers/usb/mod.rs]

    Configuration space is reached by writing an address to one port and
    accessing another.  The other drivers of the kernel have their own copies
    of [config_address] and [read_config32] with these bodies.  [usb_init]
    looks for host controllers and probes those that speak xHCI. *)
From stdpp Require Import base numbers list gmap.
From Stdlib Require Import ZArith Lia Bool.
From S2P Require Import Prelude Bytes Mem Pmm Vmm Hw Hid Xhci.

Module Pci.

Record PciLocation := mkLoc { bus : Z; device : Z; function : Z }.

Inductive ControllerKind := Uhci | Ohci | Ehci | Xhci_.
Definition from_prog_if (prog_if : Z) : option ControllerKind :=
  if prog_if =? 0x00 then Some Uhci else if prog_if =? 0x10 then Some Ohci
  else if prog_if =? 0x20 then Some Ehci else if prog_if =? 0x30 then Some Xhci_ else None.

Record UsbController := mkUsb { location : PciLocation; kind : ControllerKind; mmio_base : Z }.

Definition CONFIG_ADDRESS : Z := 0xcf8.
Definition CONFIG_DATA : Z := 0xcfc.

Definition config_address (loc : PciLocation) (offset : Z) : Z :=
  Z.lor (Z.lor (Z.lor (Z.lor (Z.shiftl 1 31) (Z.shiftl (bus loc) 16)) (Z.shiftl (device loc) 11)) (Z.shiftl (function loc) 8)) (Z.land offset 0xfc).

Section Bus.
Context {D E : Type} `{Hw D}.
Notation HM := (M (D * Vmm.VState) E).

Definition read_config32 (loc : PciLocation) (offset : Z) : HM Z :=
  port_out 4 CONFIG_ADDRESS (config_address loc offset) ;;! port_in 4 CONFIG_DATA.

Definition write_config16 (loc : PciLocation) (offset value : Z) : HM unit :=
  port_out 4 CONFIG_ADDRESS (config_address loc offset) ;;! port_out 2 CONFIG_DATA value.

Definition enable_mmio_bus_master (loc : PciLocation) : HM bool :=
  let! v := read_config32 loc 0x04 in
  let command := Z.lor (Z.lor (wrap16 v) (Z.shiftl 1 1)) (Z.shiftl 1 2) in
  write_config16 loc 0x04 command ;;!
  let! v := read_config32 loc 0x04 in
  ret (Z.land (wrap16 v) 0x6 =? 0x6).

(** The memory that a base address register names; 0 for an I/O register. *)
Definition bar0_base (loc : PciLocation) : HM Z :=
  let! bar0 := read_config32 loc 0x10 in
  if Z.land bar0 1 =? 0 then
    let base_low := andnot bar0 0xf in
    if Z.land (Z.shiftr bar0 1) 3 =? 2 then
      let! bar1 := read_config32 loc 0x14 in ret (Z.lor base_low (Z.shiftl bar1 32))
    else ret base_low
  else ret 0.

(** One function of a device: a host controller, if it is one. *)
Definition scan_function (loc : PciLocation) : HM (option UsbController) :=
  let! id := read_config32 loc 0x00 in
  if wrap16 (Z.land id 0xffff) =? 0xffff then ret None
  else
    let! class_reg := read_config32 loc 0x08 in
    let class := wrap8 (Z.shiftr class_reg 24) in
    let subclass := wrap8 (Z.shiftr class_reg 16) in
    let prog_if := wrap8 (Z.shiftr class_reg 8) in
    if negb (class =? 0x0c) || negb (subclass =? 0x03) then ret None
    else match from_prog_if prog_if with
         | None => ret None
         | Some kind => let! base := bar0_base loc in ret (Some (mkUsb loc kind base))
         end.

Fixpoint scan_functions (b d : Z) (fs : list Z) : HM (list UsbController) :=
  match fs with
  | [] => ret []
  | f :: fs =>
      let! o := scan_function (mkLoc b d f) in
      let! found := scan_functions b d fs in
      ret (match o with Some c => c :: found | None => found end)
  end.

Definition scan_device (b d : Z) : HM (list UsbController) :=
  let loc0 := mkLoc b d 0 in
  let! id := read_config32 loc0 0x00 in
  if wrap16 (Z.land id 0xffff) =? 0xffff then ret []
  else
    let! h := read_config32 loc0 0x0c in
    let header_type := Z.land (wrap8 (Z.shiftr h 16)) 0xff in
    let function_count := if negb (Z.land header_type 0x80 =? 0) then 8 else 1 in
    scan_functions b d (seqZ 0 function_count).

Fixpoint scan_all (slots : list (Z * Z)) : HM (list UsbController) :=
  match slots with
  | [] => ret []
  | (b, d) :: slots =>
      let! found := scan_device b d in
      let! rest := scan_all slots in
      ret (found ++ rest)
  end.

Definition slots : list (Z * Z) := flat_map (λ b, map (λ d, (b, d)) (seqZ 0 32)) (seqZ 0 256).
Definition find_usb_controllers : HM (list UsbController) := scan_all slots.
End Bus.

Section Usb.
Context {D : Type} `{Hw D} (fuel : nat).
Notation U := (M (D * Vmm.VState * Xhci.Statics) unit).

Definition on_machine {A} (m : M (D * Vmm.VState) unit A) : U A := λ s, let '(r, e) := m s.1 in (r, (e, s.2)).

(** [xhci::probe]: a controller that comes up joins the registry. *)
Definition probe (controller : UsbController) : U unit :=
  let! r := catch
    (Xhci.ensure (negb (mmio_base controller =? 0)) ;;!
     let! ok := on_machine (enable_mmio_bus_master (location controller)) in
     Xhci.ensure ok ;;!
     let! base := on_machine (on_vmm (Vmm.map_mmio (mmio_base controller) 0x10000)) in
     let! r := Xhci.with_controller Xhci.no_controller (Xhci.bring_up fuel base) in
     λ s, (Ok tt, (s.1, Xhci.set_controllers (Xhci.CONTROLLERS s.2 ++ [r.2]) (Xhci.POLLING s.2) s.2))) in
  ret tt.

Definition is_xhci (c : UsbController) : bool := match kind c with Xhci_ => true | _ => false end.

Definition usb_init : U unit :=
  let! controllers := on_machine find_usb_controllers in
  mfor (filter (λ c, is_xhci c = true) controllers) probe.
End Usb.
End Pci.
