(* ===== verification/Acpi.v ===== *)
(** * Interrupt hardware in the firmware's tables: [acpi.rs]

    Tables are read from memory through [map_mmio].  A read through a pointer
    is [peek]: inside the range that was mapped it gives the bytes at the
    physical address, and outside of it the model panics, so that a function
    that does not panic reads only what it has mapped.  Log lines are left
    out; an early [return None] is an error of the monad. *)
From Stdlib Require Import String.
From stdpp Require Import base numbers list gmap.
From Stdlib Require Import ZArith Lia Bool.
From S2P Require Import Prelude Bytes Str Mem Pmm Vmm.

Module Acpi.

Record IoApicInfo := mkIoApicInfo { id : Z; mmio_base : Z; gsi_base : Z }.
Record IsaOverride := mkOverride { isa_irq : Z; gsi : Z; flags : Z }.

Record MadtInfo := mkMadt {
  local_apic_addr : Z;
  ioapics : list IoApicInfo;
  ioapic_count : Z;
  overrides : list IsaOverride;
  override_count : Z
}.

Definition MAX_IOAPICS : Z := 4.
Definition MAX_OVERRIDES : Z := 16.

Definition override_for (info : MadtInfo) (irq : Z) : option (Z * Z) :=
  '(_, o) ← list_find (λ o, isa_irq o = irq) (take (Z.to_nat (override_count info)) (overrides info));
  Some (gsi o, flags o).

Definition checksum_ok (bytes : list Z) : bool := foldl (λ acc b, wrap8 (acc + b)) 0 bytes =? 0.

Definition A (T : Type) := M Vmm.VState unit T.

Definition ensure (b : bool) : A unit := if b then ret tt else fail tt.

(** A table: its address and how much of it is mapped. *)
Record Table := mkTable { address : Z; size : Z }.

Definition map_table (phys len : Z) : A Table :=
  mmap_err (λ e : Empty_set, match e with end) (Vmm.map_mmio phys len) ;;! ret (mkTable phys len).

Definition peek_bytes (t : Table) (at_ n : Z) : A (list Z) := λ s,
  (if (0 <=? at_) && (0 <=? n) && (at_ + n <=? size t)
   then Ok (read_bytes (phys_mem (Vmm.pst s)) (address t + at_) (Z.to_nat n)) else Panic, s).

Definition peek (t : Table) (at_ n : Z) : A Z := let! bs := peek_bytes t at_ n in ret (le_value bs).

(** The sizes of [RsdpV1], [RsdpV2], [SdtHeader] and [MadtHeader]. *)
Definition RSDP_V1_SIZE : Z := 20.
Definition RSDP_V2_SIZE : Z := 36.
Definition SDT_SIZE : Z := 36.
Definition MADT_SIZE : Z := 44.

Definition table_signature_is (phys_addr : Z) (sig : list Z) : A bool :=
  if phys_addr =? 0 then ret false
  else
    let! base := map_table phys_addr 4096 in
    let! s := peek_bytes base 0 4 in
    ret (str_eqb s sig).

(** ** The MADT *)
Definition add_ioapic (io : IoApicInfo) (info : MadtInfo) : MadtInfo :=
  mkMadt (local_apic_addr info) (<[Z.to_nat (ioapic_count info) := io]> (ioapics info)) (ioapic_count info + 1) (overrides info) (override_count info).
Definition add_override (o : IsaOverride) (info : MadtInfo) : MadtInfo :=
  mkMadt (local_apic_addr info) (ioapics info) (ioapic_count info) (<[Z.to_nat (override_count info) := o]> (overrides info)) (override_count info + 1).
Definition set_local_apic (a : Z) (info : MadtInfo) : MadtInfo :=
  mkMadt a (ioapics info) (ioapic_count info) (overrides info) (override_count info).

(** One entry, of [entry_type] and [entry_len] bytes at [offset]. *)
Definition parse_entry (base : Table) (offset entry_type entry_len : Z) (info : MadtInfo) : A MadtInfo :=
  if (entry_type =? 1) && (12 <=? entry_len) then
    if ioapic_count info <? MAX_IOAPICS then
      let! i := peek base (offset + 2) 1 in
      let! m := peek base (offset + 4) 4 in
      let! g := peek base (offset + 8) 4 in
      ret (add_ioapic (mkIoApicInfo i m g) info)
    else ret info
  else if (entry_type =? 2) && (10 <=? entry_len) then
    if override_count info <? MAX_OVERRIDES then
      let! i := peek base (offset + 3) 1 in
      let! g := peek base (offset + 4) 4 in
      let! f := peek base (offset + 8) 2 in
      ret (add_override (mkOverride i g f) info)
    else ret info
  else if (entry_type =? 5) && (12 <=? entry_len) then
    let! addr64 := peek base (offset + 4) 8 in
    ret (if negb (addr64 =? 0) then set_local_apic addr64 info else info)
  else ret info.

Fixpoint parse_entries (fuel : nat) (base : Table) (total_len offset : Z) (info : MadtInfo) : A MadtInfo :=
  if offset + 2 <=? total_len then
    match fuel with
    | O => diverge
    | S fuel =>
        let! entry_type := peek base offset 1 in
        let! entry_len := peek base (offset + 1) 1 in
        ensure (negb ((entry_len <? 2) || (total_len <? offset + entry_len))) ;;!
        let! info := parse_entry base offset entry_type entry_len info in
        parse_entries fuel base total_len (offset + entry_len) info
    end
  else ret info.

Definition no_info (lapic : Z) : MadtInfo :=
  mkMadt lapic (replicate 4 (mkIoApicInfo 0 0 0)) 0 (replicate 16 (mkOverride 0 0 0)) 0.

Definition parse_madt (madt_addr : Z) : A MadtInfo :=
  let! base := map_table madt_addr 0x10000 in
  let! total_len := peek base 4 4 in
  let! sig := peek_bytes base 0 4 in
  ensure (negb (negb (str_eqb sig (lit "APIC")) || (total_len <? MADT_SIZE) || (0x10000 <? total_len))) ;;!
  let! bytes := peek_bytes base 0 total_len in
  ensure (checksum_ok bytes) ;;!
  let! lapic := peek base 36 4 in
  let! info := parse_entries (Z.to_nat total_len) base total_len MADT_SIZE (no_info lapic) in
  ensure (negb (ioapic_count info =? 0)) ;;!
  ret info.

(** ** Finding it *)

(** The root table's address and whether it is an XSDT. *)
Definition root_table (rsdp_base : Table) : A (Z * bool) :=
  let! sig := peek_bytes rsdp_base 0 8 in
  ensure (str_eqb sig (lit "RSD PTR ")) ;;!
  let! rsdt := peek rsdp_base 16 4 in
  let! revision := peek rsdp_base 15 1 in
  let v1 : A (Z * bool) :=
    let! bytes := peek_bytes rsdp_base 0 RSDP_V1_SIZE in
    ensure (checksum_ok bytes) ;;! ret (rsdt, false) in
  if 2 <=? revision then
    let! len := peek rsdp_base 20 4 in
    let! v2_ok := (if (RSDP_V2_SIZE <=? len) && (len <=? 4096)
                   then let! bytes := peek_bytes rsdp_base 0 len in ret (checksum_ok bytes) else ret false) in
    let! xsdt := peek rsdp_base 24 8 in
    if v2_ok && negb (xsdt =? 0) then ret (xsdt, true) else v1
  else v1.

Fixpoint find_entry (fuel : nat) (sdt : Table) (sdt_len entry_size offset : Z) : A (option Z) :=
  if offset <? sdt_len then
    match fuel with
    | O => diverge
    | S fuel =>
        let! addr := peek sdt offset entry_size in
        let! found := table_signature_is addr (lit "APIC") in
        if (found : bool) then ret (Some addr) else find_entry fuel sdt sdt_len entry_size (offset + entry_size)
    end
  else ret None.

(** [response]: the address in the bootloader's answer, if there is one. *)
Definition find_madt_or_fail (response : option Z) : A MadtInfo :=
  let! rsdp_addr := (match response with Some a => ret a | None => fail tt end) in
  ensure (negb (rsdp_addr =? 0)) ;;!
  let! rsdp_base := map_table rsdp_addr 4096 in
  let! root := root_table rsdp_base in
  let '(sdt_addr, is_xsdt) := root in
  ensure (negb (sdt_addr =? 0)) ;;!
  let! sdt := map_table sdt_addr 0x10000 in
  let! sdt_len := peek sdt 4 4 in
  let! sig := peek_bytes sdt 0 4 in
  let entry_size := if (is_xsdt : bool) then 8 else 4 in
  ensure (negb (negb (str_eqb sig (lit (if is_xsdt then "XSDT" else "RSDT")))
                || (sdt_len <? SDT_SIZE) || (0x10000 <? sdt_len) || negb ((sdt_len - SDT_SIZE) mod entry_size =? 0))) ;;!
  let! bytes := peek_bytes sdt 0 sdt_len in
  ensure (checksum_ok bytes) ;;!
  let! found := find_entry (Z.to_nat sdt_len) sdt sdt_len entry_size SDT_SIZE in
  match found with
  | None => fail tt
  | Some madt_addr => parse_madt madt_addr
  end.

(** The early returns as [None]. *)
Definition find_madt (response : option Z) : M Vmm.VState Empty_set (option MadtInfo) := λ s,
  match find_madt_or_fail response s with
  | (Ok info, s) => (Ok (Some info), s)
  | (Err _, s) => (Ok None, s)
  | (Panic, s) => (Panic, s)
  | (Diverge, s) => (Diverge, s)
  end.
End Acpi.
