(* ===== verification/AcpiInv.v ===== *)
(** * Reading the firmware's tables

    Tables are written here by their meaning: a MADT is a list of entries, an
    RSDT or XSDT a list of addresses.  Reading their bytes gives back what they
    say. *)
From Stdlib Require Import String.
From stdpp Require Import base numbers list gmap.
From Stdlib Require Import ZArith Lia Bool.
From S2P Require Import Prelude Bytes Str Mem Pmm Vmm Acpi.
Import Acpi.

(** ** Bytes at an address *)
Definition stored (m : memory) (a : Z) (bs : list Z) : Prop := read_bytes m a (length bs) = bs.

Lemma read_bytes_parts m a n k : read_bytes m a (n + k) = read_bytes m a n ++ read_bytes m (a + Z.of_nat n) k.
Proof.
  revert a. induction n as [|n IH]; intros a; simpl; [by rewrite Z.add_0_r|].
  f_equal. rewrite IH. do 2 f_equal. lia.
Qed.

Lemma stored_app m a bs cs : stored m a (bs ++ cs) ↔ stored m a bs ∧ stored m (a + Z.of_nat (length bs)) cs.
Proof.
  unfold stored. rewrite length_app, read_bytes_parts. split.
  - intros E. apply app_inj_1 in E; [done|]. apply length_read_bytes.
  - intros [-> ->]. done.
Qed.

Lemma stored_mid m a pre bs post : stored m a (pre ++ bs ++ post) → stored m (a + Z.of_nat (length pre)) bs.
Proof. intros H. apply stored_app in H as [_ H]. by apply stored_app in H as [H _]. Qed.

(** ** Meanings *)
Inductive MadtEntry :=
  | EIoApic (i base gsi : Z)
  | EOverride (irq gsi flags : Z)
  | ELapic (addr : Z)
  | EOther (kind : Z) (body : list Z).

Definition entry_bytes (e : MadtEntry) : list Z :=
  match e with
  | EIoApic i b g => [1; 12; i; 0] ++ le_bytes 4 b ++ le_bytes 4 g
  | EOverride i g f => [2; 10; 0; i] ++ le_bytes 4 g ++ le_bytes 2 f
  | ELapic a => [5; 12; 0; 0] ++ le_bytes 8 a
  | EOther k body => [k; 2 + Z.of_nat (length body)] ++ body
  end.

Definition entry_ok (e : MadtEntry) : Prop :=
  match e with
  | EIoApic i b g => is_byte i ∧ 0 ≤ b < 2^32 ∧ 0 ≤ g < 2^32
  | EOverride i g f => is_byte i ∧ 0 ≤ g < 2^32 ∧ 0 ≤ f < 2^16
  | ELapic a => 0 ≤ a < 2^64
  | EOther k body => is_byte k ∧ k ∉ [1; 2; 5] ∧ 2 + Z.of_nat (length body) < 256
  end.

Definition ioapic_of (e : MadtEntry) : option IoApicInfo :=
  match e with EIoApic i b g => Some (mkIoApicInfo i b g) | _ => None end.
Definition override_of (e : MadtEntry) : option IsaOverride :=
  match e with EOverride i g f => Some (mkOverride i g f) | _ => None end.
(** The last address override that is not 0, or the header's address. *)
Definition lapic_of (header : Z) (es : list MadtEntry) : Z :=
  default header (last (omap (λ e, match e with ELapic a => if a =? 0 then None else Some a | _ => None end) es)).

(** What the code keeps: the first 4 I/O APICs and the first 16 overrides. *)
Record info_ok (header : Z) (es : list MadtEntry) (info : MadtInfo) : Prop := {
  io_lapic : local_apic_addr info = lapic_of header es;
  io_count : ioapic_count info = Z.of_nat (length (take 4 (omap ioapic_of es)));
  io_ioapics : take (Z.to_nat (ioapic_count info)) (ioapics info) = take 4 (omap ioapic_of es);
  io_room : length (ioapics info) = 4%nat;
  ov_count : override_count info = Z.of_nat (length (take 16 (omap override_of es)));
  ov_overrides : take (Z.to_nat (override_count info)) (overrides info) = take 16 (omap override_of es);
  ov_room : length (overrides info) = 16%nat
}.

(** The header of a table: signature, length, revision, checksum, and 26 bytes
    of names and versions. *)
Definition header_bytes (sig : list Z) (len rev sum : Z) (names : list Z) : list Z :=
  sig ++ le_bytes 4 len ++ [rev; sum] ++ names.
Definition sums_to_zero (bs : list Z) : Prop := foldr Z.add 0 bs mod 256 = 0.

Definition madt_body (lapic pcat : Z) (es : list MadtEntry) : list Z :=
  le_bytes 4 lapic ++ le_bytes 4 pcat ++ concat (map entry_bytes es).
Definition table_bytes (sig : list Z) (rev sum : Z) (names body : list Z) : list Z :=
  header_bytes sig (36 + Z.of_nat (length body)) rev sum names ++ body.

(** ** Reads *)
Lemma checksum_sum bs : checksum_ok bs = (foldr Z.add 0 bs mod 256 =? 0).
Proof.
  unfold checksum_ok. assert (∀ acc, 0 ≤ acc < 256 → foldl (λ acc b, wrap8 (acc + b)) acc bs = (acc + foldr Z.add 0 bs) mod 256) as Hf.
  { induction bs as [|b bs IH]; intros acc Ha; simpl; [rewrite Z.add_0_r; by rewrite Z.mod_small|].
    unfold wrap8 at 2. change (2^8) with 256. rewrite IH by (apply Z.mod_pos_bound; lia).
    rewrite Zplus_mod_idemp_l. f_equal. lia. }
  rewrite Hf by lia. done.
Qed.

Section Reads.
Context (s : Vmm.VState).
Notation m := (phys_mem (Vmm.pst s)).

Lemma peek_bytes_stored t at_ bs :
  0 ≤ at_ → at_ + Z.of_nat (length bs) ≤ size t → stored m (address t + at_) bs → peek_bytes t at_ (Z.of_nat (length bs)) s = (Ok bs, s).
Proof.
  intros Ha Hs Hb. unfold peek_bytes. rewrite (proj2 (Z.leb_le 0 at_)), (proj2 (Z.leb_le 0 (Z.of_nat _))), (proj2 (Z.leb_le _ (size t))) by lia.
  cbn [andb]. rewrite Nat2Z.id. by rewrite Hb.
Qed.

Lemma peek_stored t at_ n bs :
  Z.of_nat (length bs) = n → 0 ≤ at_ → at_ + n ≤ size t → stored m (address t + at_) bs → peek t at_ n s = (Ok (le_value bs), s).
Proof.
  intros <- Ha Hs Hb. unfold peek. rewrite (bind_ok _ _ _ _ _ (peek_bytes_stored t at_ bs Ha Hs Hb)). done.
Qed.

Lemma peek_ok t at_ n : 0 ≤ at_ → 0 ≤ n → at_ + n ≤ size t → mem_ok m →
  ∃ v, peek t at_ n s = (Ok v, s) ∧ 0 ≤ v < 256 ^ n.
Proof.
  intros Ha Hn Hs Hm. unfold peek, peek_bytes, bind, ret. rewrite (proj2 (Z.leb_le 0 at_)), (proj2 (Z.leb_le 0 n)), (proj2 (Z.leb_le _ (size t))) by lia.
  cbn [andb]. eexists. split; [reflexivity|]. pose proof (le_value_range _ (read_bytes_ok m (address t + at_) (Z.to_nat n) Hm)) as H.
  by rewrite length_read_bytes, Z2Nat.id in H.
Qed.

(** ** Entries *)
Definition apply_entry (info : MadtInfo) (e : MadtEntry) : MadtInfo :=
  match e with
  | EIoApic i b g => if ioapic_count info <? MAX_IOAPICS then add_ioapic (mkIoApicInfo i b g) info else info
  | EOverride i g f => if override_count info <? MAX_OVERRIDES then add_override (mkOverride i g f) info else info
  | ELapic a => if negb (a =? 0) then set_local_apic a info else info
  | EOther _ _ => info
  end.

Lemma entry_step fuel base total off info e :
  entry_ok e → stored m (address base + off) (entry_bytes e) → 0 ≤ off →
  off + Z.of_nat (length (entry_bytes e)) ≤ total → total ≤ size base →
  parse_entries (S fuel) base total off info s =
  parse_entries fuel base total (off + Z.of_nat (length (entry_bytes e))) (apply_entry info e) s.
Proof.
  intros He Hst Ho Ht Hsz. assert (Hl2 : 2 ≤ Z.of_nat (length (entry_bytes e))) by (destruct e; simpl; lia).
  cbn [parse_entries]. rewrite (proj2 (Z.leb_le _ _)) by lia.
  assert (Hat : ∀ pre bs post n, entry_bytes e = pre ++ bs ++ post → Z.of_nat (length bs) = n →
            peek base (off + Z.of_nat (length pre)) n s = (Ok (le_value bs), s)).
  { intros pre bs post n E Hn. apply peek_stored; [done|lia| |].
    - rewrite E, !length_app in Ht. lia.
    - rewrite E in Hst. rewrite Z.add_assoc. by apply stored_mid in Hst. }
  assert (Hkind : ∃ k, entry_bytes e = [k] ++ [Z.of_nat (length (entry_bytes e))] ++ drop 2 (entry_bytes e) ∧
            k = match e with EIoApic _ _ _ => 1 | EOverride _ _ _ => 2 | ELapic _ => 5 | EOther k _ => k end).
  { eexists. split; [|reflexivity]. destruct e; simpl; try done. do 2 f_equal. lia. }
  destruct Hkind as (k & Ek & Hk).
  pose proof (Hat [] [k] _ 1 Ek eq_refl) as H0. simpl in H0. rewrite Z.add_0_r, Z.mul_0_r, Z.add_0_r in H0 || rewrite Z.add_0_r in H0.
  pose proof (Hat [k] [Z.of_nat (length (entry_bytes e))] _ 1 Ek eq_refl) as H1. cbn [length] in H1. change (Z.of_nat 1) with 1 in H1.
  change (le_value [Z.of_nat (length (entry_bytes e))]) with (Z.of_nat (length (entry_bytes e)) + 256 * 0) in H1. rewrite Z.mul_0_r, Z.add_0_r in H1.
  rewrite (bind_ok _ _ _ _ _ H0), (bind_ok _ _ _ _ _ H1). unfold ensure.
  rewrite (proj2 (Z.ltb_ge _ 2)), (proj2 (Z.ltb_ge total _)) by lia. cbn [orb negb]. unfold bind at 1, ret.
  assert (Hp : parse_entry base off k (Z.of_nat (length (entry_bytes e))) info s = (Ok (apply_entry info e), s)); [|by rewrite (bind_ok _ _ _ _ _ Hp)].
  clear H0 H1 Ek. subst k. unfold parse_entry, apply_entry. destruct e as [i b g|i g f|a|k body]; cbn [entry_ok] in He.
  - change (Z.of_nat (length (entry_bytes (EIoApic i b g)))) with 12. cbn [Z.eqb Z.leb andb Pos.eqb]. change (12 <=? 12) with true. cbv iota.
    destruct (ioapic_count info <? MAX_IOAPICS); [|done]. destruct He as (? & ? & ?).
    rewrite (bind_ok _ _ _ _ _ (Hat [1; 12] [i] _ 1 eq_refl eq_refl)).
    rewrite (bind_ok _ _ _ _ _ (Hat [1; 12; i; 0] (le_bytes 4 b) _ 4 eq_refl eq_refl)).
    rewrite (bind_ok _ _ _ _ _ (Hat ([1; 12; i; 0] ++ le_bytes 4 b) (le_bytes 4 g) [] 4 eq_refl eq_refl)).
    rewrite !le_value_bytes by done. cbn [le_value]. by rewrite Z.mul_0_r, Z.add_0_r.
  - change (Z.of_nat (length (entry_bytes (EOverride i g f)))) with 10. cbn [Z.eqb Z.leb andb Pos.eqb]. change (10 <=? 10) with true. cbv iota.
    destruct (override_count info <? MAX_OVERRIDES); [|done]. destruct He as (? & ? & ?).
    rewrite (bind_ok _ _ _ _ _ (Hat [2; 10; 0] [i] _ 1 eq_refl eq_refl)).
    rewrite (bind_ok _ _ _ _ _ (Hat [2; 10; 0; i] (le_bytes 4 g) _ 4 eq_refl eq_refl)).
    rewrite (bind_ok _ _ _ _ _ (Hat ([2; 10; 0; i] ++ le_bytes 4 g) (le_bytes 2 f) [] 2 eq_refl eq_refl)).
    rewrite !le_value_bytes by done. cbn [le_value]. by rewrite Z.mul_0_r, Z.add_0_r.
  - change (Z.of_nat (length (entry_bytes (ELapic a)))) with 12. cbn [Z.eqb Z.leb andb Pos.eqb]. change (12 <=? 12) with true. cbv iota.
    rewrite (bind_ok _ _ _ _ _ (Hat [5; 12; 0; 0] (le_bytes 8 a) [] 8 eq_refl eq_refl)).
    by rewrite le_value_bytes by done.
  - destruct He as (_ & Hk & _). rewrite !not_elem_of_cons in Hk. destruct Hk as (H1 & H2 & H5 & _).
    rewrite (proj2 (Z.eqb_neq k 1)), (proj2 (Z.eqb_neq k 2)), (proj2 (Z.eqb_neq k 5)) by done. done.
Qed.

Lemma entries_run base total es : ∀ fuel off info,
  Forall entry_ok es → stored m (address base + off) (concat (map entry_bytes es)) → 0 ≤ off →
  total = off + Z.of_nat (length (concat (map entry_bytes es))) → total ≤ size base → (length es ≤ fuel)%nat →
  parse_entries fuel base total off info s = (Ok (foldl apply_entry info es), s).
Proof.
  induction es as [|e es IH]; intros fuel off info He Hst Ho Ht Hsz Hf.
  - simpl in Ht. destruct fuel; simpl; rewrite (proj2 (Z.leb_gt _ _)) by lia; done.
  - apply Forall_cons in He as [He Hes]. destruct fuel as [|fuel]; [simpl in Hf; lia|]. cbn [map concat] in *. rewrite length_app in Ht.
    apply stored_app in Hst as [Hst Hst']. rewrite (entry_step fuel base total off info e) by (done || lia).
    cbn [foldl]. apply IH; [done|by rewrite Z.add_assoc|lia|lia|done|simpl in Hf; lia].
Qed.

(** On any bytes the loop ends, within the table. *)
Lemma madt_entries_total base total fuel : ∀ off info,
  mem_ok m → 0 ≤ off → total ≤ size base → total - off < Z.of_nat fuel →
  ∃ r, parse_entries fuel base total off info s = (r, s) ∧ (r = Err tt ∨ ∃ i, r = Ok i).
Proof.
  intros off info Hm. revert off info. induction fuel as [|fuel IH]; intros off info Ho Hsz Hf; cbn [parse_entries].
  { rewrite (proj2 (Z.leb_gt _ _)) by lia. eauto. }
  destruct (Z.leb_spec (off + 2) total); [|eauto].
  destruct (peek_ok base off 1) as (k & Hk & _), (peek_ok base (off + 1) 1) as (len & Hlen & Hr); try (done || lia).
  rewrite (bind_ok _ _ _ _ _ Hk), (bind_ok _ _ _ _ _ Hlen). unfold ensure.
  destruct (Z.ltb_spec len 2), (Z.ltb_spec total (off + len)); cbn [orb negb]; unfold bind at 1, fail, ret; eauto.
  assert (Hp : ∃ i, parse_entry base off k len info s = (Ok i, s)).
  { unfold parse_entry. destruct (k =? 1), (Z.leb_spec 12 len), (k =? 2), (Z.leb_spec 10 len), (k =? 5); cbn [andb]; eauto;
      repeat match goal with |- context [if ?b then _ else _] => destruct b end; eauto;
      repeat match goal with |- context [bind (peek base ?o ?n) _ s] =>
        let H := fresh in let v := fresh in destruct (peek_ok base o n) as (v & H & _); [lia|lia|lia|done|]; rewrite (bind_ok _ _ _ _ _ H); clear H end; eauto. }
  destruct Hp as [i Hp]. rewrite (bind_ok _ _ _ _ _ Hp). apply IH; lia.
Qed.
End Reads.

(** ** What the entries say *)
Lemma no_info_ok header : info_ok header [] (no_info header).
Proof. done. Qed.

Lemma take_insert_count {T} (l : list T) n x xs cap :
  length l = cap → Z.of_nat (length xs) = n → n < Z.of_nat cap → take (Z.to_nat n) l = xs →
  take (Z.to_nat (n + 1)) (<[Z.to_nat n := x]> l) = xs ++ [x].
Proof.
  intros Hl Hn Hlt Ht. replace (Z.to_nat (n + 1)) with (S (Z.to_nat n)) by lia.
  rewrite (take_S_r _ _ x) by (apply list_lookup_insert_eq; lia). rewrite take_insert_ge by lia. by rewrite Ht.
Qed.

Lemma omap_snoc {T U} (f : T → option U) l x : omap f (l ++ [x]) = omap f l ++ match f x with Some y => [y] | None => [] end.
Proof. rewrite omap_app. by destruct (f x) eqn:E; simpl; rewrite E. Qed.

(** Appending within or past the capacity. *)
Lemma take_snoc {T} n (l : list T) x : take n (l ++ [x]) = if decide (length l < n)%nat then l ++ [x] else take n l.
Proof.
  case_decide; [by rewrite take_ge by (rewrite length_app; simpl; lia)|]. rewrite take_app_le by lia. done.
Qed.

Lemma apply_entry_ok header es info e : info_ok header es info → info_ok header (es ++ [e]) (apply_entry info e).
Proof.
  intros [Hl Hc Hi Hr Hoc Ho Hor]. destruct e as [i b g|i g f|a|k body]; cbn [apply_entry].
  - assert (Hlap : lapic_of header (es ++ [EIoApic i b g]) = lapic_of header es) by (unfold lapic_of; by rewrite omap_snoc, app_nil_r).
    assert (Hov : omap override_of (es ++ [EIoApic i b g]) = omap override_of es) by (by rewrite omap_snoc, app_nil_r).
    pose proof (omap_snoc ioapic_of es (EIoApic i b g)) as Hs. cbn [ioapic_of] in Hs.
    destruct (Z.ltb_spec (ioapic_count info) MAX_IOAPICS) as [Hlt|Hge]; unfold MAX_IOAPICS in *; rewrite Hc, length_take in Hlt || rewrite Hc, length_take in Hge.
    + assert (Hshort : (length (omap ioapic_of es) < 4)%nat) by lia. rewrite (take_ge (omap ioapic_of es)) in Hc, Hi by lia.
      split; cbn [local_apic_addr ioapic_count ioapics overrides override_count add_ioapic]; rewrite ?Hlap, ?Hov, ?Hs; try done.
      * rewrite take_snoc, decide_True, length_app by lia. simpl. lia.
      * rewrite take_snoc, decide_True by lia. apply (take_insert_count _ _ _ _ 4); [done|lia|lia|done].
      * by rewrite length_insert.
    + split; rewrite ?Hlap, ?Hov, ?Hs, ?take_snoc, ?decide_False by lia; done.
  - assert (Hlap : lapic_of header (es ++ [EOverride i g f]) = lapic_of header es) by (unfold lapic_of; by rewrite omap_snoc, app_nil_r).
    assert (Hio : omap ioapic_of (es ++ [EOverride i g f]) = omap ioapic_of es) by (by rewrite omap_snoc, app_nil_r).
    pose proof (omap_snoc override_of es (EOverride i g f)) as Hs. cbn [override_of] in Hs.
    destruct (Z.ltb_spec (override_count info) MAX_OVERRIDES) as [Hlt|Hge]; unfold MAX_OVERRIDES in *; rewrite Hoc, length_take in Hlt || rewrite Hoc, length_take in Hge.
    + assert (Hshort : (length (omap override_of es) < 16)%nat) by lia. rewrite (take_ge (omap override_of es)) in Hoc, Ho by lia.
      split; cbn [local_apic_addr ioapic_count ioapics overrides override_count add_override]; rewrite ?Hlap, ?Hio, ?Hs; try done.
      * rewrite take_snoc, decide_True, length_app by lia. simpl. lia.
      * rewrite take_snoc, decide_True by lia. apply (take_insert_count _ _ _ _ 16); [done|lia|lia|done].
      * by rewrite length_insert.
    + split; rewrite ?Hlap, ?Hio, ?Hs, ?take_snoc, ?decide_False by lia; done.
  - assert (Hio : omap ioapic_of (es ++ [ELapic a]) = omap ioapic_of es) by (by rewrite omap_snoc, app_nil_r).
    assert (Hov : omap override_of (es ++ [ELapic a]) = omap override_of es) by (by rewrite omap_snoc, app_nil_r).
    destruct (Z.eqb_spec a 0) as [-> |Hne]; cbn [negb]; split; cbn [local_apic_addr ioapic_count ioapics overrides override_count set_local_apic]; rewrite ?Hio, ?Hov; try done.
    + unfold lapic_of. by rewrite omap_snoc, app_nil_r.
    + unfold lapic_of. rewrite omap_snoc, (proj2 (Z.eqb_neq a 0)) by done. by rewrite last_snoc.
  - split; unfold lapic_of; rewrite ?omap_snoc, ?app_nil_r; done.
Qed.

Lemma entries_info header es : info_ok header es (foldl apply_entry (no_info header) es).
Proof. induction es as [|e es IH] using rev_ind; [done|]. rewrite foldl_snoc. by apply apply_entry_ok. Qed.

(** ** Whole tables *)
Section Tables.
Context (s : Vmm.VState).
Notation m := (phys_mem (Vmm.pst s)).

Lemma stored_at sig rev sum names body a pre bs post :
  stored m a (table_bytes sig rev sum names body) → table_bytes sig rev sum names body = pre ++ bs ++ post →
  ∀ t n, address t = a → Z.of_nat (length bs) = n → Z.of_nat (length (table_bytes sig rev sum names body)) ≤ size t →
  peek_bytes t (Z.of_nat (length pre)) n s = (Ok bs, s) ∧ peek t (Z.of_nat (length pre)) n s = (Ok (le_value bs), s).
Proof.
  intros Hst E t n <- <- Hsz. rewrite E, !length_app in Hsz. rewrite E in Hst. apply stored_mid in Hst.
  split; [apply peek_bytes_stored|apply peek_stored]; try done; lia.
Qed.

Lemma length_table sig rev sum names body : length sig = 4%nat → length names = 26%nat → length (table_bytes sig rev sum names body) = (36 + length body)%nat.
Proof. intros Hs Hn. unfold table_bytes, header_bytes. rewrite !length_app, !length_le_bytes, Hs, Hn. simpl. lia. Qed.

Lemma length_entries es : (length es ≤ length (concat (map entry_bytes es)))%nat.
Proof. induction es as [|e es IH]; [done|]. simpl. rewrite length_app. destruct e; simpl; lia. Qed.

(** The MADT at [a], once it is mapped. *)
Lemma parse_madt_spec s0 a v rev sum names lapic pcat es :
  let bytes := table_bytes (lit "APIC") rev sum names (madt_body lapic pcat es) in
  Vmm.map_mmio a 0x10000 s0 = (Ok v, s) → stored m a bytes → sums_to_zero bytes → Z.of_nat (length bytes) ≤ 0x10000 →
  length names = 26%nat → 0 ≤ lapic < 2^32 → Forall entry_ok es →
  parse_madt a s0 = (if decide (omap ioapic_of es = []) then Err tt else Ok (foldl apply_entry (no_info lapic) es), s).
Proof.
  intros bytes Hmap Hst Hsum Hlen Hn Hl He. set (t := mkTable a 0x10000).
  assert (Htl : length bytes = (36 + length (madt_body lapic pcat es))%nat) by (by apply length_table).
  assert (Hbl : length (madt_body lapic pcat es) = (8 + length (concat (map entry_bytes es)))%nat) by (unfold madt_body; rewrite !length_app; done).
  unfold parse_madt. assert (Hmt : map_table a 0x10000 s0 = (Ok t, s)) by (unfold map_table, mmap_err, bind; by rewrite Hmap).
  rewrite (bind_ok _ _ _ _ _ Hmt).
  pose proof (λ pre bs post E, stored_at _ _ _ _ _ a pre bs post Hst E t) as Hat.
  destruct (Hat (lit "APIC") (le_bytes 4 (36 + Z.of_nat (length (madt_body lapic pcat es)))) _ eq_refl 4 eq_refl eq_refl Hlen) as [_ H4].
  change (Z.of_nat (length (lit "APIC"))) with 4 in H4. rewrite (bind_ok _ _ _ _ _ H4). clear H4. rewrite le_value_bytes by lia.
  destruct (Hat [] (lit "APIC") _ eq_refl 4 eq_refl eq_refl Hlen) as [H0 _]. change (Z.of_nat (length ([] : list Z))) with 0 in H0. rewrite (bind_ok _ _ _ _ _ H0). clear H0.
  replace (36 + Z.of_nat (length (madt_body lapic pcat es))) with (Z.of_nat (length bytes)) by lia.
  change (str_eqb (lit "APIC") (lit "APIC")) with true. unfold ensure at 1, MADT_SIZE at 1.
  rewrite (proj2 (Z.ltb_ge _ 44)), (proj2 (Z.ltb_ge 0x10000 _)) by lia. cbn [negb orb]. unfold bind at 1, ret at 1.
  destruct (Hat [] bytes [] ltac:(by rewrite app_nil_r) (Z.of_nat (length bytes)) eq_refl eq_refl Hlen) as [Hall _].
  change (Z.of_nat (length ([] : list Z))) with 0 in Hall. rewrite (bind_ok _ _ _ _ _ Hall). clear Hall.
  rewrite checksum_sum. rewrite (proj2 (Z.eqb_eq _ 0) Hsum). unfold ensure at 1, bind at 1, ret at 1.
  set (hd := header_bytes (lit "APIC") (36 + Z.of_nat (length (madt_body lapic pcat es))) rev sum names).
  assert (Hhd : length hd = 36%nat) by (unfold hd, header_bytes; rewrite !length_app, length_le_bytes, Hn; done).
  destruct (Hat hd (le_bytes 4 lapic) _ eq_refl 4 eq_refl eq_refl Hlen) as [_ H36]. rewrite Hhd in H36. change (Z.of_nat 36) with 36 in H36.
  rewrite (bind_ok _ _ _ _ _ H36), le_value_bytes by done. clear H36.
  assert (Hent : parse_entries (Z.to_nat (Z.of_nat (length bytes))) t (Z.of_nat (length bytes)) MADT_SIZE (no_info lapic) s = (Ok (foldl apply_entry (no_info lapic) es), s)).
  { rewrite Nat2Z.id. pose proof (length_entries es). apply entries_run; [done| |done|unfold MADT_SIZE; lia|exact Hlen|lia].
    assert (Hb : bytes = (hd ++ le_bytes 4 lapic ++ le_bytes 4 pcat) ++ concat (map entry_bytes es) ++ []).
    { unfold bytes, table_bytes, madt_body, hd. by rewrite <- !app_assoc, app_nil_r. }
    rewrite Hb in Hst. apply stored_mid in Hst. rewrite !length_app, Hhd in Hst. exact Hst. }
  rewrite (bind_ok _ _ _ _ _ Hent). pose proof (entries_info lapic es) as Hio. rewrite (io_count _ _ _ Hio), length_take.
  destruct (decide (omap ioapic_of es = [])) as [-> |Hne]; [done|].
  destruct (Z.eqb_spec (Z.of_nat (4 `min` length (omap ioapic_of es))) 0) as [E0|]; [|done].
  destruct (omap ioapic_of es); [done|simpl in E0; lia].
Qed.

(** On any bytes, once they are mapped, the parser ends without reading
    outside of the 64 KiB. *)
Lemma parse_madt_total s0 a v :
  Vmm.map_mmio a 0x10000 s0 = (Ok v, s) → mem_ok m → ∃ r, parse_madt a s0 = (r, s) ∧ (r = Err tt ∨ ∃ i, r = Ok i).
Proof.
  intros Hmap Hm. set (t := mkTable a 0x10000). unfold parse_madt.
  assert (Hmt : map_table a 0x10000 s0 = (Ok t, s)) by (unfold map_table, mmap_err, bind; by rewrite Hmap).
  rewrite (bind_ok _ _ _ _ _ Hmt). destruct (peek_ok s t 4 4) as (len & Hlen & Hr); [done..|]. rewrite (bind_ok _ _ _ _ _ Hlen).
  assert (Hbs : ∀ n, 0 ≤ n ≤ 0x10000 → ∃ bs, peek_bytes t 0 n s = (Ok bs, s)).
  { intros n Hn. unfold peek_bytes. rewrite (proj2 (Z.leb_le 0 n)), (proj2 (Z.leb_le _ (size t))) by (cbn; lia). cbn [andb]. eauto. }
  destruct (Hbs 4) as [sig Hsig]; [lia|]. rewrite (bind_ok _ _ _ _ _ Hsig). unfold ensure at 1.
  destruct (negb (str_eqb sig (lit "APIC"))); [eauto|]. unfold MADT_SIZE at 1. destruct (Z.ltb_spec len 44); [eauto|]. destruct (Z.ltb_spec 0x10000 len); [eauto|].
  cbn [orb negb]. unfold bind at 1, ret at 1. destruct (Hbs len) as [bs Hb]; [lia|]. rewrite (bind_ok _ _ _ _ _ Hb). unfold ensure at 1.
  destruct (checksum_ok bs); [|eauto]. unfold bind at 1, ret at 1. destruct (peek_ok s t 36 4) as (lapic & Hl & _); [done..|]. rewrite (bind_ok _ _ _ _ _ Hl).
  destruct (madt_entries_total s t len (Z.to_nat len) MADT_SIZE (no_info lapic) Hm) as (r & Hp & [-> | [i ->]]); [done|cbn; lia|unfold MADT_SIZE; lia|..].
  - unfold bind at 1. rewrite Hp. eauto.
  - rewrite (bind_ok _ _ _ _ _ Hp). unfold ensure. destruct (negb (ioapic_count i =? 0)); unfold bind, ret, fail; eauto.
Qed.
End Tables.

(** ** From the root pointer *)
Definition rsdp_v1 (sum : Z) (oem : list Z) (rev rsdt : Z) : list Z := lit "RSD PTR " ++ [sum] ++ oem ++ [rev] ++ le_bytes 4 rsdt.
Definition rsdp_v2 (sum : Z) (oem : list Z) (rev rsdt xsdt xsum : Z) (tail : list Z) : list Z :=
  rsdp_v1 sum oem rev rsdt ++ le_bytes 4 36 ++ le_bytes 8 xsdt ++ [xsum] ++ tail.

(** The pointer at [a] names the root table: version 1 and an RSDT, or version
    2 and up with an XSDT. *)
Inductive points_to (m : memory) (a : Z) : Z → bool → Prop :=
  | points_rsdt sum oem rev rsdt :
      stored m a (rsdp_v1 sum oem rev rsdt) → sums_to_zero (rsdp_v1 sum oem rev rsdt) →
      length oem = 6%nat → rev < 2 → 0 ≤ rsdt < 2^32 → points_to m a rsdt false
  | points_xsdt sum oem rev rsdt xsdt xsum tail :
      stored m a (rsdp_v2 sum oem rev rsdt xsdt xsum tail) → sums_to_zero (rsdp_v2 sum oem rev rsdt xsdt xsum tail) →
      length oem = 6%nat → length tail = 3%nat → 2 ≤ rev → 0 < xsdt < 2^64 → points_to m a xsdt true.

Definition root_sig (is_xsdt : bool) : list Z := lit (if is_xsdt then "XSDT" else "RSDT").
Definition entry_width (is_xsdt : bool) : nat := if is_xsdt then 8 else 4.
Definition root_body (is_xsdt : bool) (addrs : list Z) : list Z := concat (map (le_bytes (entry_width is_xsdt)) addrs).

(** A range that is mapped already: mapping it again changes nothing. *)
Definition mapped (s : Vmm.VState) (a n : Z) : Prop := ∃ v, Vmm.map_mmio a n s = (Ok v, s).

(** The firmware's tables, all of them mapped: the root pointer, the root
    table, and in it the MADT after tables with other signatures. *)
Record firmware (s : Vmm.VState) (rsdp : Z) (header : Z) (es : list MadtEntry) : Prop := {
  fw_tables : ∃ root is_xsdt rev sum names before madt after mrev msum mnames pcat,
    let m := phys_mem (Vmm.pst s) in
    let root_bytes := table_bytes (root_sig is_xsdt) rev sum names (root_body is_xsdt (before ++ [madt] ++ after)) in
    let madt_bytes := table_bytes (lit "APIC") mrev msum mnames (madt_body header pcat es) in
    rsdp ≠ 0 ∧ mapped s rsdp 4096 ∧ points_to m rsdp root is_xsdt ∧
    root ≠ 0 ∧ mapped s root 0x10000 ∧ stored m root root_bytes ∧ sums_to_zero root_bytes ∧
    length names = 26%nat ∧ Z.of_nat (length root_bytes) ≤ 0x10000 ∧
    Forall (λ a, 0 ≤ a < 256 ^ Z.of_nat (entry_width is_xsdt)) (before ++ [madt]) ∧
    Forall (λ a, a = 0 ∨ mapped s a 4096 ∧ read_bytes m a 4 ≠ lit "APIC") before ∧
    madt ≠ 0 ∧ mapped s madt 4096 ∧ mapped s madt 0x10000 ∧ stored m madt madt_bytes ∧ sums_to_zero madt_bytes ∧
    length mnames = 26%nat ∧ Z.of_nat (length madt_bytes) ≤ 0x10000;
  fw_header : 0 ≤ header < 2^32;
  fw_entries : Forall entry_ok es
}.

Section Find.
Context (s : Vmm.VState).
Notation m := (phys_mem (Vmm.pst s)).

Lemma map_table_mapped a n : mapped s a n → map_table a n s = (Ok (mkTable a n), s).
Proof. intros [v Hv]. unfold map_table, mmap_err, bind. by rewrite Hv. Qed.

(** A field of bytes that are stored. *)
Lemma field a bytes t pre bs post n :
  stored m a bytes → bytes = pre ++ bs ++ post → address t = a → Z.of_nat (length bs) = n → Z.of_nat (length bytes) ≤ size t →
  peek_bytes t (Z.of_nat (length pre)) n s = (Ok bs, s) ∧ peek t (Z.of_nat (length pre)) n s = (Ok (le_value bs), s).
Proof.
  intros Hst -> <- <- Hsz. rewrite !length_app in Hsz. apply stored_mid in Hst.
  split; [apply peek_bytes_stored|apply peek_stored]; try done; lia.
Qed.

Lemma root_table_spec rsdp root is_xsdt : points_to m rsdp root is_xsdt → root_table (mkTable rsdp 4096) s = (Ok (root, is_xsdt), s).
Proof.
  intros [sum oem rev rsdt Hst Hsum Ho Hrev Hr|sum oem rev rsdt xsdt xsum tail Hst Hsum Ho Ht Hrev Hx]; unfold root_table; set (t := mkTable rsdp 4096).
  - assert (Hl : length (rsdp_v1 sum oem rev rsdt) = 20%nat) by (unfold rsdp_v1; rewrite !length_app, Ho; done).
    pose proof (λ pre bs post n E, field rsdp _ t pre bs post n Hst E eq_refl) as Hf. rewrite Hl in Hf. specialize (λ pre bs post n E L, Hf pre bs post n E L ltac:(cbn; lia)) as Hf'.
    destruct (Hf' [] (lit "RSD PTR ") _ 8 eq_refl eq_refl) as [H0 _]. change (Z.of_nat (length ([] : list Z))) with 0 in H0. rewrite (bind_ok _ _ _ _ _ H0).
    change (str_eqb (lit "RSD PTR ") (lit "RSD PTR ")) with true. unfold ensure at 1, bind at 1, ret at 1.
    destruct (Hf' (lit "RSD PTR " ++ [sum] ++ oem ++ [rev]) (le_bytes 4 rsdt) [] 4) as [_ H16]; [unfold rsdp_v1; by rewrite <- !app_assoc, app_nil_r|done|].
    replace (Z.of_nat (length (lit "RSD PTR " ++ [sum] ++ oem ++ [rev]))) with 16 in H16 by (rewrite !length_app, Ho; done).
    rewrite (bind_ok _ _ _ _ _ H16), le_value_bytes by done.
    destruct (Hf' (lit "RSD PTR " ++ [sum] ++ oem) [rev] (le_bytes 4 rsdt) 1) as [_ H15]; [unfold rsdp_v1; by rewrite <- !app_assoc|done|].
    replace (Z.of_nat (length (lit "RSD PTR " ++ [sum] ++ oem))) with 15 in H15 by (rewrite !length_app, Ho; done).
    rewrite (bind_ok _ _ _ _ _ H15). change (le_value [rev]) with (rev + 256 * 0). rewrite Z.mul_0_r, Z.add_0_r.
    rewrite (proj2 (Z.leb_gt 2 rev)) by lia.
    destruct (Hf' [] (rsdp_v1 sum oem rev rsdt) [] 20) as [Hall _]; [by rewrite app_nil_r|by rewrite Hl|]. change (Z.of_nat (length ([] : list Z))) with 0 in Hall.
    unfold RSDP_V1_SIZE. rewrite (bind_ok _ _ _ _ _ Hall), checksum_sum, (proj2 (Z.eqb_eq _ 0) Hsum). done.
  - assert (Hl : length (rsdp_v2 sum oem rev rsdt xsdt xsum tail) = 36%nat) by (unfold rsdp_v2, rsdp_v1; rewrite !length_app, Ho, Ht; done).
    pose proof (λ pre bs post n E, field rsdp _ t pre bs post n Hst E eq_refl) as Hf. rewrite Hl in Hf. specialize (λ pre bs post n E L, Hf pre bs post n E L ltac:(cbn; lia)) as Hf'.
    destruct (Hf' [] (lit "RSD PTR ") _ 8 eq_refl eq_refl) as [H0 _]. change (Z.of_nat (length ([] : list Z))) with 0 in H0. rewrite (bind_ok _ _ _ _ _ H0).
    change (str_eqb (lit "RSD PTR ") (lit "RSD PTR ")) with true. unfold ensure at 1, bind at 1, ret at 1.
    destruct (Hf' (lit "RSD PTR " ++ [sum] ++ oem ++ [rev]) (le_bytes 4 rsdt) (le_bytes 4 36 ++ le_bytes 8 xsdt ++ [xsum] ++ tail) 4) as [_ H16]; [unfold rsdp_v2, rsdp_v1; by rewrite <- !app_assoc|done|].
    replace (Z.of_nat (length (lit "RSD PTR " ++ [sum] ++ oem ++ [rev]))) with 16 in H16 by (rewrite !length_app, Ho; done).
    rewrite (bind_ok _ _ _ _ _ H16).
    destruct (Hf' (lit "RSD PTR " ++ [sum] ++ oem) [rev] (le_bytes 4 rsdt ++ le_bytes 4 36 ++ le_bytes 8 xsdt ++ [xsum] ++ tail) 1) as [_ H15]; [unfold rsdp_v2, rsdp_v1; by rewrite <- !app_assoc|done|].
    replace (Z.of_nat (length (lit "RSD PTR " ++ [sum] ++ oem))) with 15 in H15 by (rewrite !length_app, Ho; done).
    rewrite (bind_ok _ _ _ _ _ H15). change (le_value [rev]) with (rev + 256 * 0). rewrite Z.mul_0_r, Z.add_0_r.
    rewrite (proj2 (Z.leb_le 2 rev)) by lia.
    assert (Hv1 : length (rsdp_v1 sum oem rev rsdt) = 20%nat) by (unfold rsdp_v1; rewrite !length_app, Ho; done).
    destruct (Hf' (rsdp_v1 sum oem rev rsdt) (le_bytes 4 36) _ 4 eq_refl eq_refl) as [_ H20]. rewrite Hv1 in H20. change (Z.of_nat 20) with 20 in H20.
    rewrite (bind_ok _ _ _ _ _ H20), le_value_bytes by done. change ((RSDP_V2_SIZE <=? 36) && (36 <=? 4096)) with true. cbv iota.
    destruct (Hf' [] (rsdp_v2 sum oem rev rsdt xsdt xsum tail) [] 36) as [Hall _]; [by rewrite app_nil_r|by rewrite Hl|]. change (Z.of_nat (length ([] : list Z))) with 0 in Hall.
    destruct (Hf' (rsdp_v1 sum oem rev rsdt ++ le_bytes 4 36) (le_bytes 8 xsdt) ([xsum] ++ tail) 8) as [_ H24]; [unfold rsdp_v2; by rewrite <- !app_assoc|done|].
    rewrite length_app, Hv1 in H24. change (Z.of_nat (20 + length (le_bytes 4 36))) with 24 in H24.
    unfold bind at 1 2. rewrite Hall. unfold ret at 1. rewrite (bind_ok _ _ _ _ _ H24), checksum_sum, (proj2 (Z.eqb_eq _ 0) Hsum), le_value_bytes by (cbn; lia).
    rewrite (proj2 (Z.eqb_neq xsdt 0)) by lia. done.
Qed.

(** The first table with the signature of the MADT. *)
Lemma find_entry_spec root is_xsdt before madt after : ∀ fuel off pre bytes,
  bytes = pre ++ root_body is_xsdt (before ++ [madt] ++ after) → off = Z.of_nat (length pre) →
  stored m root bytes → Z.of_nat (length bytes) ≤ 0x10000 → (length before < fuel)%nat →
  Forall (λ a, 0 ≤ a < 256 ^ Z.of_nat (entry_width is_xsdt)) (before ++ [madt]) →
  Forall (λ a, a = 0 ∨ mapped s a 4096 ∧ read_bytes m a 4 ≠ lit "APIC") before →
  madt ≠ 0 → mapped s madt 4096 → read_bytes m madt 4 = lit "APIC" →
  find_entry fuel (mkTable root 0x10000) (Z.of_nat (length bytes)) (if is_xsdt then 8 else 4) off s = (Ok (Some madt), s).
Proof.
  induction before as [|a before IH]; intros fuel off pre bytes Hb Ho Hst Hlen Hf Hr Hbef Hne Hmm Hsig; (destruct fuel as [|fuel]; [simpl in Hf; lia|]);
    cbn [app] in Hb, Hr; apply Forall_cons in Hr as [Hra Hr]; unfold root_body in Hb; cbn [map concat] in Hb.
  all: assert (Hw : Z.of_nat (entry_width is_xsdt) = if is_xsdt then 8 else 4) by (by destruct is_xsdt).
  all: assert (Hll : ∀ x, Z.of_nat (length (le_bytes (entry_width is_xsdt) x)) = if is_xsdt then 8 else 4) by (intros; by rewrite length_le_bytes).
  all: destruct (field root bytes (mkTable root 0x10000) pre _ _ _ Hst Hb eq_refl (Hll _) Hlen) as [_ Hpk]; rewrite <- Ho in Hpk.
  all: cbn [find_entry]; rewrite (proj2 (Z.ltb_lt off _)) by (rewrite Ho, Hb, !length_app, length_le_bytes; destruct is_xsdt; simpl; lia).
  all: rewrite (bind_ok _ _ _ _ _ Hpk), le_value_bytes by done.
  - unfold table_signature_is at 1. rewrite (proj2 (Z.eqb_neq madt 0)) by done.
    assert (Hts : (let! base := map_table madt 4096 in let! sg := peek_bytes base 0 4 in ret (str_eqb sg (lit "APIC"))) s = (Ok true, s)).
    { rewrite (bind_ok _ _ _ _ _ (map_table_mapped _ _ Hmm)). unfold peek_bytes, bind, ret. cbn [address size]. rewrite Z.add_0_r.
      change (Z.to_nat 4) with 4%nat. rewrite Hsig. done. }
    rewrite (bind_ok _ _ _ _ _ Hts). done.
  - apply Forall_cons in Hbef as [Ha Hbef].
    assert (Hts : table_signature_is a (lit "APIC") s = (Ok false, s)).
    { unfold table_signature_is. destruct (Z.eqb_spec a 0); [done|]. destruct Ha as [?|[Hma Hsg]]; [done|].
      rewrite (bind_ok _ _ _ _ _ (map_table_mapped _ _ Hma)). unfold peek_bytes, bind, ret. cbn [address size]. rewrite Z.add_0_r.
      change (Z.to_nat 4) with 4%nat. change ((0 <=? 0) && (0 <=? 4) && (0 + 4 <=? 4096)) with true. cbv iota beta. unfold str_eqb. by rewrite bool_decide_eq_false_2. }
    rewrite (bind_ok _ _ _ _ _ Hts).
    apply (IH fuel _ (pre ++ le_bytes (entry_width is_xsdt) a) bytes); try done.
    + rewrite Hb. unfold root_body. by rewrite <- !app_assoc.
    + rewrite Ho, length_app, length_le_bytes, Nat2Z.inj_add, Hw. done.
    + simpl in Hf. lia.
Qed.

Lemma length_root_body is_xsdt addrs : length (root_body is_xsdt addrs) = (entry_width is_xsdt * length addrs)%nat.
Proof. unfold root_body. induction addrs as [|a addrs IH]; simpl; [lia|]. rewrite length_app, length_le_bytes, IH. lia. Qed.

Lemma find_madt_spec rsdp header es : firmware s rsdp header es →
  find_madt (Some rsdp) s = (Ok (if decide (omap ioapic_of es = []) then None else Some (foldl apply_entry (no_info header) es)), s).
Proof.
  intros [(root & is_xsdt & rev & sum & names & before & madt & after & mrev & msum & mnames & pcat &
    Hr0 & Hrm & Hpt & Hroot0 & Hrootm & Hrst & Hrsum & Hnames & Hrlen & Hrange & Hbef & Hm0 & Hm4 & Hm64 & Hmst & Hmsum & Hmn & Hmlen) Hh He].
  set (rb := table_bytes (root_sig is_xsdt) rev sum names (root_body is_xsdt (before ++ [madt] ++ after))) in *.
  set (t := mkTable root 0x10000).
  assert (Hsl : length (root_sig is_xsdt) = 4%nat) by (by destruct is_xsdt).
  assert (Hl : length rb = (36 + entry_width is_xsdt * length (before ++ [madt] ++ after))%nat) by (unfold rb; rewrite length_table, length_root_body; done).
  assert (Hsig : read_bytes (phys_mem (Vmm.pst s)) madt 4 = lit "APIC").
  { unfold table_bytes, header_bytes in Hmst. rewrite <- app_assoc in Hmst. by apply stored_app in Hmst as [E _]. }
  assert (E : find_madt_or_fail (Some rsdp) s = (if decide (omap ioapic_of es = []) then Err tt else Ok (foldl apply_entry (no_info header) es), s)).
  2: { unfold find_madt. rewrite E. by destruct (decide (omap ioapic_of es = [])). }
  unfold find_madt_or_fail. unfold bind at 1, ret at 1. unfold ensure at 1. rewrite (proj2 (Z.eqb_neq rsdp 0)) by done. unfold bind at 1, ret at 1. cbn [negb].
  rewrite (bind_ok _ _ _ _ _ (map_table_mapped _ _ Hrm)), (bind_ok _ _ _ _ _ (root_table_spec _ _ _ Hpt)).
  unfold ensure at 1. rewrite (proj2 (Z.eqb_neq root 0)) by done. unfold bind at 1, ret at 1. cbn [negb].
  rewrite (bind_ok _ _ _ _ _ (map_table_mapped _ _ Hrootm)). fold t.
  pose proof (λ pre bs post n E L, field root rb t pre bs post n Hrst E eq_refl L Hrlen) as Hf.
  assert (Hrb : rb = root_sig is_xsdt ++ le_bytes 4 (36 + Z.of_nat (length (root_body is_xsdt (before ++ [madt] ++ after)))) ++ ([rev; sum] ++ names ++ root_body is_xsdt (before ++ [madt] ++ after))).
  { unfold rb, table_bytes, header_bytes. by rewrite <- !app_assoc. }
  destruct (Hf _ _ _ 4 Hrb eq_refl) as [_ H4].
  rewrite Hsl in H4. change (Z.of_nat 4) with 4 in H4. rewrite length_root_body in H4.
  rewrite (bind_ok _ _ _ _ _ H4), le_value_bytes by (rewrite Hl in Hrlen; lia). clear H4.
  replace (36 + Z.of_nat (entry_width is_xsdt * length (before ++ [madt] ++ after))) with (Z.of_nat (length rb)) by lia.
  destruct (Hf [] (root_sig is_xsdt) _ 4 Hrb ltac:(by rewrite Hsl)) as [H0 _]. change (Z.of_nat (length ([] : list Z))) with 0 in H0.
  rewrite (bind_ok _ _ _ _ _ H0). clear H0. cbv beta zeta.
  assert (Heq : str_eqb (root_sig is_xsdt) (lit (if is_xsdt then "XSDT" else "RSDT")) = true) by (by apply bool_decide_eq_true_2). rewrite Heq.
  unfold SDT_SIZE at 1 2. rewrite (proj2 (Z.ltb_ge _ 36)), (proj2 (Z.ltb_ge 0x10000 _)) by lia.
  replace ((Z.of_nat (length rb) - 36) mod (if is_xsdt then 8 else 4) =? 0) with true.
  2: { symmetry. apply Z.eqb_eq. rewrite Hl. replace (Z.of_nat (36 + entry_width is_xsdt * length (before ++ [madt] ++ after)) - 36)
       with (Z.of_nat (length (before ++ [madt] ++ after)) * (if is_xsdt then 8 else 4)) by (destruct is_xsdt; simpl entry_width; lia). apply Z.mod_mul. by destruct is_xsdt. }
  unfold ensure at 1. cbn [negb orb]. unfold bind at 1, ret at 1.
  destruct (Hf [] rb [] (Z.of_nat (length rb)) ltac:(by rewrite app_nil_r) eq_refl) as [Hall _]. change (Z.of_nat (length ([] : list Z))) with 0 in Hall.
  rewrite (bind_ok _ _ _ _ _ Hall), checksum_sum, (proj2 (Z.eqb_eq _ 0) Hrsum). unfold ensure at 1, bind at 1, ret at 1.
  assert (Hfe : find_entry (Z.to_nat (Z.of_nat (length rb))) t (Z.of_nat (length rb)) (if is_xsdt then 8 else 4) SDT_SIZE s = (Ok (Some madt), s)).
  { rewrite Nat2Z.id. apply (find_entry_spec root is_xsdt before madt after _ _ (header_bytes (root_sig is_xsdt) (36 + Z.of_nat (length (root_body is_xsdt (before ++ [madt] ++ after)))) rev sum names) rb); try done.
    - unfold header_bytes. rewrite !length_app, Hsl, Hnames. done.
    - rewrite Hl, length_app. destruct is_xsdt; simpl; lia. }
  rewrite (bind_ok _ _ _ _ _ Hfe). destruct Hm64 as [v Hv]. by apply (parse_madt_spec s s madt v mrev msum mnames header pcat es).
Qed.
End Find.

