(* ===== verification/AcpiDemo.v ===== *)
(** * The tables of a small machine

    A version 2 root pointer, an XSDT that names a FADT and the MADT, and a
    MADT with one I/O APIC, the usual override of the timer's line, the
    processor's own entry and a 64-bit address of the local APIC.  The memory
    manager is not up, so mapping changes nothing. *)
From Stdlib Require Import String.
From stdpp Require Import base numbers list gmap.
From Stdlib Require Import ZArith Lia Bool.
From S2P Require Import Prelude Bytes Str Mem Pmm Vmm VmmDemo Acpi AcpiInv.
Import Acpi.

(** The byte that makes a table sum to 0. *)
Definition balance (f : Z → list Z) : Z := (- foldr Z.add 0 (f 0)) mod 256.

Definition demo_entries : list MadtEntry :=
  [EOther 0 [0; 0; 1; 0; 0; 0]; EIoApic 0 0xfec00000 0; EOverride 0 2 0; EOverride 9 9 0xd; ELapic 0xfee01000].
Definition demo_names : list Z := replicate 26 0x45.
Definition demo_madt_of (sum : Z) : list Z := table_bytes (lit "APIC") 4 sum demo_names (madt_body 0xfee00000 1 demo_entries).
Definition demo_xsdt_of (sum : Z) : list Z := table_bytes (root_sig true) 1 sum demo_names (root_body true ([0; 0x102000] ++ [0x103000] ++ [])).
Definition demo_rsdp_of (sum : Z) : list Z := rsdp_v2 sum (replicate 6 0x45) 2 0 0x101000 0 [0; 0; 0].

Definition demo_tables : memory :=
  let m := write_bytes ∅ 0x100000 (demo_rsdp_of (balance demo_rsdp_of)) in
  let m := write_bytes m 0x101000 (demo_xsdt_of (balance demo_xsdt_of)) in
  let m := write_bytes m 0x102000 (lit "FACP") in
  write_bytes m 0x103000 (demo_madt_of (balance demo_madt_of)).
Definition demo_machine : Vmm.VState := Vmm.mkV (mkPState demo_tables None 0) None 0 0 0 0.

Lemma tables_mapped a n : Vmm.map_mmio a n demo_machine = (Ok a, demo_machine) → mapped demo_machine a n.
Proof. intros E. by exists a. Qed.

Lemma demo_firmware : firmware demo_machine 0x100000 0xfee00000 demo_entries.
Proof.
  split.
  - exists 0x101000, true, 1, (balance demo_xsdt_of), demo_names, [0; 0x102000], 0x103000, [], 4, (balance demo_madt_of), demo_names, 1.
    cbv zeta. split_and!.
    1, 4, 12: lia.
    1, 3, 10, 11: apply tables_mapped; vm_compute; reflexivity.
    2-4, 8-10: vm_compute; reflexivity.
    2, 5: vm_compute; discriminate.
    + apply (points_xsdt _ _ (balance demo_rsdp_of) (replicate 6 0x45) 2 0 0x101000 0 [0; 0; 0]); [vm_compute; reflexivity..|lia|lia].
    + repeat apply Forall_cons_2; try apply Forall_nil_2; change (256 ^ Z.of_nat (entry_width true)) with (2^64); lia.
    + apply Forall_cons_2; [by left|]. apply Forall_cons_2; [|apply Forall_nil_2].
      right. split; [apply tables_mapped; vm_compute; reflexivity|vm_compute; discriminate].
  - lia.
  - repeat apply Forall_cons_2; try apply Forall_nil_2; cbn [entry_ok]; unfold is_byte; repeat split; try lia; try (simpl; lia). set_solver.
Qed.

