(* ===== verification/Irq.v ===== *)
(** * Interrupt controllers: [pic.rs], [ioapic.rs], [lapic.rs], [interrupts.rs]

    The old pair of 8259 controllers behind ports, the I/O APICs behind an
    index and a data register, the local APIC of the processor, and the choice
    between them that [main.rs] makes at boot.  The statics of the four modules
    are a record; an early [return] is an error of the monad. *)
From stdpp Require Import base numbers list gmap.
From Stdlib Require Import ZArith Lia Bool.
From S2P Require Import Prelude Bytes Mem Pmm Vmm Hw Acpi.

(** [cpuid] and the model-specific registers. *)
Class Cpu (D : Type) := {
  hw_cpuid : Z → D * Vmm.VState → Z * Z * Z * Z;
  hw_rdmsr : Z → D * Vmm.VState → Z;
  hw_wrmsr : Z → Z → D * Vmm.VState → D * Vmm.VState
}.

Module Irq.

Definition IRQ_BASE : Z := 32.

(** ** I/O APICs *)
Definition REG_ID : Z := 0x00.
Definition REG_VERSION : Z := 0x01.
Definition REG_REDIRECTION_BASE : Z := 0x10.
Definition REDIR_MASKED : Z := Z.shiftl 1 16.
Definition REDIR_ACTIVE_LOW : Z := Z.shiftl 1 13.
Definition REDIR_LEVEL_TRIGGERED : Z := Z.shiftl 1 15.

Record IoApic := mkIo { base : Z; gsi_start : Z; gsi_end : Z }.
Record Config := mkConfig { controllers : list IoApic; count : Z; cfg_overrides : list Acpi.IsaOverride; cfg_override_count : Z }.

Definition EMPTY : IoApic := mkIo 0 0 0.

Record Statics := mkStatics {
  CONFIG : option Config;
  LAPIC_BASE : Z; ENABLED : bool; APIC_ID : Z;
  APIC_ROUTING : bool
}.
Definition boot_statics : Statics := mkStatics None 0 false 0 false.
Definition set_config (c : Config) (s : Statics) : Statics := mkStatics (Some c) (LAPIC_BASE s) (ENABLED s) (APIC_ID s) (APIC_ROUTING s).
Definition set_lapic (b : Z) (on : bool) (i : Z) (s : Statics) : Statics := mkStatics (CONFIG s) b on i (APIC_ROUTING s).
Definition set_routing (on : bool) (s : Statics) : Statics := mkStatics (CONFIG s) (LAPIC_BASE s) (ENABLED s) (APIC_ID s) on.

(** The first override for the line, else the line itself with default flags;
    then the controller that has that interrupt. *)
Definition isa_route (config : Config) (irq : Z) : option (IoApic * Z * Z) :=
  let override_info := list_find (λ e, Acpi.isa_irq e = irq) (take (Z.to_nat (cfg_override_count config)) (cfg_overrides config)) in
  let '(gsi, flags) := match override_info with Some (_, e) => (Acpi.gsi e, Acpi.flags e) | None => (irq, 0) end in
  match list_find (λ io, gsi_start io ≤ gsi ∧ gsi < gsi_end io) (take (Z.to_nat (count config)) (controllers config)) with
  | Some (_, io) => Some (io, gsi - gsi_start io, flags)
  | None => None
  end.

Definition polarity_trigger (flags : Z) : option Z :=
  let polarity := Z.land flags 3 in
  let trigger := Z.land (Z.shiftr flags 2) 3 in
  if (polarity =? 2) || (trigger =? 2) then None
  else
    let bits := if polarity =? 3 then REDIR_ACTIVE_LOW else 0 in
    Some (if trigger =? 3 then Z.lor bits REDIR_LEVEL_TRIGGERED else bits).

Definition supports_isa_irq (irq : Z) (s : Statics) : bool :=
  match CONFIG s with
  | Some config =>
      match isa_route config irq with
      | Some (_, _, flags) => match polarity_trigger flags with Some _ => true | None => false end
      | None => false
      end
  | None => false
  end.

(** The low half of a redirection entry for the line: what firmware left in
    the fields it owns is kept, vector, delivery, polarity, trigger and mask
    are set. *)
Definition route_low (low irq mode_bits : Z) (masked : bool) : Z :=
  let low := andnot low (Z.lor (Z.lor (Z.lor 0x0fff REDIR_ACTIVE_LOW) REDIR_LEVEL_TRIGGERED) REDIR_MASKED) in
  let low := Z.lor low (IRQ_BASE + irq) in
  let low := Z.lor low mode_bits in
  if masked then Z.lor low REDIR_MASKED else andnot low REDIR_MASKED.

Section Controllers.
Context {D : Type} `{Hw D} `{Cpu D}.
Notation HM := (M (D * Vmm.VState) unit).
Notation I := (M (D * Vmm.VState * Statics) unit).

Definition on_hw {A} (m : HM A) : I A := λ s, let '(r, e) := m s.1 in (r, (e, s.2)).
Definition get_statics : I Statics := λ s, (Ok s.2, s).
Definition set_statics (f : Statics → Statics) : I unit := λ s, (Ok tt, (s.1, f s.2)).
Definition ensure {S} (b : bool) : M S unit unit := if b then ret tt else fail tt.
(** A function that returns whether it reached its end. *)
Definition reached {S} (m : M S unit unit) : M S unit bool :=
  let! r := catch m in ret (match r with inl _ => true | inr _ => false end).

Definition read_reg (base reg : Z) : HM Z := reg_write 4 base reg ;;! reg_read 4 (base + 0x10).
Definition write_reg (base reg value : Z) : HM unit := reg_write 4 base reg ;;! reg_write 4 (base + 0x10) value.

Definition redirection_read (io : IoApic) (index : Z) : HM (Z * Z) :=
  let reg := REG_REDIRECTION_BASE + index * 2 in
  let! low := read_reg (base io) reg in
  let! high := read_reg (base io) (reg + 1) in
  ret (low, high).

Definition redirection_write (io : IoApic) (index low high : Z) : HM unit :=
  let reg := REG_REDIRECTION_BASE + index * 2 in
  write_reg (base io) reg (Z.lor low REDIR_MASKED) ;;!
  write_reg (base io) (reg + 1) high ;;!
  write_reg (base io) reg low.

Definition mask_entry (io : IoApic) (index : Z) : HM unit :=
  let! p := redirection_read io index in
  redirection_write io index (Z.lor p.1 REDIR_MASKED) p.2.

(** One controller of the MADT joins the configuration. *)
Definition add_controller (info : Acpi.IoApicInfo) (config : Config) : HM Config :=
  ensure (negb (Acpi.mmio_base info =? 0)) ;;!
  let! b := on_vmm (Vmm.map_mmio (Acpi.mmio_base info) 0x20) in
  let! version := read_reg b REG_VERSION in
  let redir_count := Z.land (Z.shiftr version 16) 0xff + 1 in
  let gsi_start := Acpi.gsi_base info in
  let gsi_end := gsi_start + redir_count in
  ensure (gsi_end <=? u32_max) ;;!
  ensure (negb (existsb (λ c, (gsi_start <? Irq.gsi_end c) && (Irq.gsi_start c <? gsi_end)) (take (Z.to_nat (count config)) (controllers config)))) ;;!
  let io := mkIo b gsi_start gsi_end in
  mfor (seqZ 0 redir_count) (mask_entry io) ;;!
  let! _ := read_reg b REG_ID in
  ret (mkConfig (<[Z.to_nat (count config) := io]> (controllers config)) (count config + 1) (cfg_overrides config) (cfg_override_count config)).

Fixpoint add_controllers (infos : list Acpi.IoApicInfo) (config : Config) : HM Config :=
  match infos with
  | [] => ret config
  | info :: infos => let! config := add_controller info config in add_controllers infos config
  end.

Definition ioapic_init (madt : Acpi.MadtInfo) : I bool :=
  reached
    (ensure (negb ((Acpi.ioapic_count madt =? 0) || (4 <? Acpi.ioapic_count madt))) ;;!
     let config := mkConfig (replicate 4 EMPTY) 0 (Acpi.overrides madt) (Acpi.override_count madt) in
     let! config := on_hw (add_controllers (take (Z.to_nat (Acpi.ioapic_count madt)) (Acpi.ioapics madt)) config) in
     set_statics (set_config config)).

Definition lapic_id (s : Statics) : Z := wrap8 (APIC_ID s).

Definition set_isa_irq (irq : Z) (masked : bool) : I unit :=
  let! s := get_statics in
  match CONFIG s with
  | None => ret tt
  | Some config =>
      match isa_route config irq with
      | None => ret tt
      | Some (io, index, flags) =>
          match polarity_trigger flags with
          | None => ret tt
          | Some mode_bits =>
              let! p := on_hw (redirection_read io index) in
              on_hw (redirection_write io index (route_low p.1 irq mode_bits masked) (Z.shiftl (lapic_id s) 24))
          end
      end
  end.
Definition ioapic_unmask_isa_irq (irq : Z) : I unit := set_isa_irq irq false.
Definition ioapic_mask_isa_irq (irq : Z) : I unit := set_isa_irq irq true.

(** ** The local APIC *)
Definition LVT_MASKED : Z := Z.shiftl 1 16.
Definition SPURIOUS_VECTOR : Z := 0xff.
Definition SPURIOUS_APIC_ENABLE : Z := Z.shiftl 1 8.
Definition IA32_APIC_BASE : Z := 0x1b.
Definition APIC_BASE_EXTD : Z := Z.shiftl 1 10.
Definition APIC_BASE_EN : Z := Z.shiftl 1 11.
Definition APIC_BASE_ADDR_MASK : Z := 0x0000000ffffff000.

Definition lapic_read (reg : Z) : I Z := let! s := get_statics in on_hw (reg_read 4 (LAPIC_BASE s + reg)).
Definition lapic_write (reg val : Z) : I unit := let! s := get_statics in on_hw (reg_write 4 (LAPIC_BASE s + reg) val).

(** The local interrupts from the thermal one on, which exist as far as the
    version register says. *)
Definition lvt_registers : list (Z * Z) := [(1, 0x330); (2, 0x340); (3, 0x350); (4, 0x360); (5, 0x370)].

Definition lapic_init (madt_local_apic_addr : Z) : I bool :=
  reached
    (let! e := (λ s, (Ok s.1, s)) in
     let '(_, _, _, edx1) := hw_cpuid 1 e in
     ensure (negb (Z.land edx1 (Z.shiftl 1 9) =? 0)) ;;!
     let apic_base_msr := hw_rdmsr IA32_APIC_BASE e in
     ensure (Z.land apic_base_msr APIC_BASE_EXTD =? 0) ;;!
     let msr_addr := Z.land apic_base_msr APIC_BASE_ADDR_MASK in
     let phys_base := if negb (msr_addr =? 0) then msr_addr else madt_local_apic_addr in
     ensure (negb (phys_base =? 0)) ;;!
     (if Z.land apic_base_msr APIC_BASE_EN =? 0
      then on_hw (λ e, (Ok tt, hw_wrmsr IA32_APIC_BASE (Z.lor apic_base_msr APIC_BASE_EN) e)) else ret tt) ;;!
     let! virt_base := on_hw (on_vmm (Vmm.map_mmio phys_base 4096)) in
     set_statics (λ s, set_lapic virt_base (ENABLED s) (APIC_ID s) s) ;;!
     let! version := lapic_read 0x030 in
     let max_lvt := Z.land (Z.shiftr version 16) 0xff in
     lapic_write 0x320 LVT_MASKED ;;!
     mfor lvt_registers (λ '(n, reg), if n <=? max_lvt then lapic_write reg LVT_MASKED else ret tt) ;;!
     lapic_write 0x0f0 (Z.lor SPURIOUS_VECTOR SPURIOUS_APIC_ENABLE) ;;!
     set_statics (λ s, set_lapic (LAPIC_BASE s) true (APIC_ID s) s) ;;!
     let! v := lapic_read 0x020 in
     set_statics (λ s, set_lapic (LAPIC_BASE s) (ENABLED s) (Z.shiftr v 24) s)).

Definition lapic_end_of_interrupt : I unit := lapic_write 0x0b0 0.

(** ** The 8259 pair *)
Definition PIC1_COMMAND : Z := 0x20.
Definition PIC1_DATA : Z := 0x21.
Definition PIC2_COMMAND : Z := 0xa0.
Definition PIC2_DATA : Z := 0xa1.
Definition PIC_EOI : Z := 0x20.

Definition outb (port val : Z) : HM unit := port_out 1 port val.
Definition inb (port : Z) : HM Z := port_in 1 port.
Definition io_wait : HM unit := outb 0x80 0.

Definition pic_init : HM unit :=
  mfor [(PIC1_COMMAND, 0x11); (PIC2_COMMAND, 0x11); (PIC1_DATA, IRQ_BASE); (PIC2_DATA, IRQ_BASE + 8);
        (PIC1_DATA, 4); (PIC2_DATA, 2); (PIC1_DATA, 1); (PIC2_DATA, 1)] (λ '(port, val), outb port val ;;! io_wait) ;;!
  outb PIC1_DATA 0xff ;;!
  outb PIC2_DATA 0xff.

(** [1 << n] on a byte: a shift past its width panics. *)
Definition bit8 (n : Z) : HM Z := if n <? 8 then ret (Z.shiftl 1 n) else panic.

Definition pic_unmask (irq : Z) : HM unit :=
  if irq <? 8 then
    let! mask := inb PIC1_DATA in
    let! b := bit8 irq in
    outb PIC1_DATA (andnot mask b)
  else
    let! mask := inb PIC2_DATA in
    let! b := bit8 (irq - 8) in
    outb PIC2_DATA (andnot mask b) ;;!
    let! master_mask := inb PIC1_DATA in
    outb PIC1_DATA (andnot master_mask (Z.shiftl 1 2)).

Definition pic_mask (irq : Z) : HM unit :=
  if irq <? 8 then
    let! mask := inb PIC1_DATA in
    let! b := bit8 irq in
    outb PIC1_DATA (Z.lor mask b)
  else
    let! mask := inb PIC2_DATA in
    let! b := bit8 (irq - 8) in
    outb PIC2_DATA (Z.lor mask b).

Definition pic_end_of_interrupt (irq : Z) : HM unit :=
  (if 8 <=? irq then outb PIC2_COMMAND PIC_EOI else ret tt) ;;! outb PIC1_COMMAND PIC_EOI.

(** ** The choice *)
Definition use_apic : I unit := set_statics (set_routing true).
Definition unmask_isa_irq (irq : Z) : I unit :=
  let! s := get_statics in if APIC_ROUTING s then ioapic_unmask_isa_irq irq else on_hw (pic_unmask irq).
Definition mask_isa_irq (irq : Z) : I unit :=
  let! s := get_statics in if APIC_ROUTING s then ioapic_mask_isa_irq irq else on_hw (pic_mask irq).
Definition end_of_interrupt (irq : Z) : I unit :=
  let! s := get_statics in if APIC_ROUTING s then lapic_end_of_interrupt else on_hw (pic_end_of_interrupt irq).

(** The part of [_start] that sets interrupts up. *)
Definition start_interrupts (rsdp : option Z) : I unit :=
  on_hw pic_init ;;!
  let! found := on_hw (on_vmm (Acpi.find_madt rsdp)) in
  match found with
  | None => ret tt
  | Some madt =>
      let! io := ioapic_init madt in
      let! s := get_statics in
      if (io : bool) && supports_isa_irq 0 s && supports_isa_irq 1 s then
        let! local := lapic_init (Acpi.local_apic_addr madt) in
        if (local : bool) then use_apic else ret tt
      else ret tt
  end.
End Controllers.
End Irq.
