(* ===== verification/IrqInv.v ===== *)
(** * Interrupt lines do what was last asked of them

    What the documentation of the I/O APIC says of its registers, as laws of
    the device, and what follows for the lines: after [ioapic_init] every
    input is masked, and after any calls of [mask_isa_irq] and
    [unmask_isa_irq] each input is programmed by the last call for a line that
    is routed to it. *)
From stdpp Require Import base numbers list gmap.
From Stdlib Require Import ZArith Lia Bool.
From S2P Require Import Prelude Bytes Mem Pmm Vmm Hw Acpi Irq.
Import Irq.

(** The controllers in use. *)
Definition ios (c : Config) : list IoApic := take (Z.to_nat (count c)) (controllers c).
Definition inputs (io : IoApic) : Z := gsi_end io - gsi_start io.

(** A redirection entry as the hardware reads it. *)
Record Entry := mkEntry { vector : Z; delivery : Z; logical : bool; active_low : bool; level : bool; masked : bool; destination : Z }.
Definition entry_of (low high : Z) : Entry :=
  mkEntry (Z.land low 0xff) (Z.land (Z.shiftr low 8) 7) (Z.testbit low 11) (Z.testbit low 13) (Z.testbit low 15) (Z.testbit low 16) (Z.land (Z.shiftr high 24) 0xff).

(** The bits of the low half that software owns. *)
Definition OWNED : Z := 0x1afff.

(** ** Bits *)
Lemma entry_owned low low' high high' : Z.land low OWNED = Z.land low' OWNED → Z.land (Z.shiftr high 24) 0xff = Z.land (Z.shiftr high' 24) 0xff → entry_of low high = entry_of low' high'.
Proof.
  intros E Eh. unfold entry_of. rewrite Eh. clear Eh.
  assert (Hb : ∀ n, Z.testbit OWNED n = true → Z.testbit low n = Z.testbit low' n).
  { intros n Hn. pose proof (f_equal (λ z, Z.testbit z n) E) as Hz. cbv beta in Hz. rewrite !Z.land_spec, Hn, !andb_true_r in Hz. done. }
  f_equal; try (by apply Hb); apply Z.bits_inj'; intros n Hn; rewrite !Z.land_spec.
  - destruct (decide (n < 8)) as [Hlt|Hge].
    + rewrite Hb; [done|]. assert (n = 0 ∨ n = 1 ∨ n = 2 ∨ n = 3 ∨ n = 4 ∨ n = 5 ∨ n = 6 ∨ n = 7) as Hc by lia. by repeat destruct Hc as [->|Hc]; [..|subst].
    + change 0xff with (Z.ones 8). rewrite Z.ones_spec_high, !andb_false_r by lia. done.
  - rewrite !Z.shiftr_spec by done. destruct (decide (n < 3)) as [Hlt|Hge].
    + rewrite Hb; [done|]. assert (n = 0 ∨ n = 1 ∨ n = 2) as Hc by lia. by repeat destruct Hc as [->|Hc]; [..|subst].
    + change 7 with (Z.ones 3). rewrite Z.ones_spec_high, !andb_false_r by lia. done.
Qed.

Lemma route_low_owned low irq mode m : Z.land (route_low low irq mode m) OWNED = Z.land (route_low 0 irq mode m) OWNED.
Proof.
  unfold route_low. change (Z.lor (Z.lor (Z.lor 0x0fff REDIR_ACTIVE_LOW) REDIR_LEVEL_TRIGGERED) REDIR_MASKED) with OWNED.
  apply Z.bits_inj'. intros n Hn. destruct m; rewrite !Z.land_spec, ?Z.ldiff_spec, ?Z.lor_spec, ?Z.ldiff_spec, Z.bits_0;
    destruct (Z.testbit OWNED n); rewrite ?andb_false_r, ?andb_true_r; try done; cbn [negb andb orb]; rewrite ?andb_false_r; done.
Qed.

(** What a line asks for. *)
Definition wanted (irq flags : Z) (m : bool) (dest : Z) : Entry :=
  mkEntry (IRQ_BASE + irq) 0 false (Z.land flags 3 =? 3) (Z.land (Z.shiftr flags 2) 3 =? 3) m dest.

Lemma route_low_entry irq flags mode m dest : 0 ≤ irq < 16 → 0 ≤ dest < 256 → polarity_trigger flags = Some mode →
  entry_of (route_low 0 irq mode m) (Z.shiftl dest 24) = wanted irq flags m dest.
Proof.
  intros Hi Hd Hp. unfold polarity_trigger in Hp.
  destruct ((Z.land flags 3 =? 2) || (Z.land (Z.shiftr flags 2) 3 =? 2)); [done|]. injection Hp as <-.
  unfold wanted, entry_of. rewrite Z.shiftr_shiftl_l, Z.sub_diag, Z.shiftl_0_r by lia.
  change 0xff with (Z.ones 8) at 2. rewrite (Z.land_ones dest), (Z.mod_small dest) by lia.
  assert (∃ k, irq = Z.of_nat k ∧ (k < 16)%nat) as (k & -> & Hk) by (exists (Z.to_nat irq); lia).
  do 16 (destruct k as [|k]; [destruct (_ =? 3), (_ =? 3), m; vm_compute; reflexivity|]). lia.
Qed.

(** ** The device *)
Section Laws.
Context {D : Type} `{Hw D} `{Cpu D}.
(** The registers and the selected index of the controller at an address. *)
Context (reg : D → Z → Z → Z) (sel : D → Z → Z).
(** Where controllers are. *)
Context (at_ : Z → Prop).
Notation Env := (D * Vmm.VState)%type.

Record ioapic_laws : Prop := {
  (** The index register is 8 bits wide. *)
  law_select : ∀ b v (e : Env), at_ b → 0 ≤ v < 256 →
    sel (hw_write 4 b v e).1 b = v ∧
    (∀ b' r, at_ b' → reg (hw_write 4 b v e).1 b' r = reg e.1 b' r);
  law_read : ∀ b (e : Env), at_ b →
    (hw_read 4 (b + 0x10) e).1 = reg e.1 b (sel e.1 b) ∧
    (∀ b' r, at_ b' → reg (hw_read 4 (b + 0x10) e).2.1 b' r = reg e.1 b' r);
  (** Of an entry's low half the status bits are read-only, of the high half
      only the destination is stored. *)
  law_write : ∀ b v (e : Env), at_ b →
    let d := (hw_write 4 (b + 0x10) v e).1 in
    (∀ b' r, at_ b' → b' ≠ b ∨ r ≠ sel e.1 b → reg d b' r = reg e.1 b' r) ∧
    (∀ i, 0 ≤ i → sel e.1 b = REG_REDIRECTION_BASE + i * 2 → Z.land (reg d b (sel e.1 b)) OWNED = Z.land v OWNED) ∧
    (∀ i, 0 ≤ i → sel e.1 b = REG_REDIRECTION_BASE + i * 2 + 1 → Z.land (Z.shiftr (reg d b (sel e.1 b)) 24) 0xff = Z.land (Z.shiftr v 24) 0xff);
  (** All entries can be indexed. *)
  law_version : ∀ b (e : Env), at_ b → Z.land (Z.shiftr (reg e.1 b REG_VERSION) 16) 0xff < 120
}.
Context (L : ioapic_laws).

Definition entry (e : Env) (io : IoApic) (i : Z) : Entry :=
  entry_of (reg e.1 (base io) (REG_REDIRECTION_BASE + i * 2)) (reg e.1 (base io) (REG_REDIRECTION_BASE + i * 2 + 1)).

(** Nothing but some registers of one controller changes. *)
Definition same_but (b : Z) (rs : list Z) (e e' : Env) : Prop :=
  ∀ b' r, at_ b' → b' ≠ b ∨ r ∉ rs → reg e'.1 b' r = reg e.1 b' r.

Lemma regs_but_trans b rs e1 e2 e3 : same_but b rs e1 e2 → same_but b rs e2 e3 → same_but b rs e1 e3.
Proof. intros H1 H2 b' r Hb Hr. by rewrite H2, H1. Qed.
Lemma regs_but_weaken b rs rs' e e' : rs ⊆ rs' → same_but b rs e e' → same_but b rs' e e'.
Proof. intros Hs He b' r Hb Hr. apply He; [done|]. set_solver. Qed.

Lemma read_reg_spec b r e : at_ b → 0 ≤ r < 256 → ∃ e', read_reg b r e = (Ok (reg e.1 b r), e') ∧ same_but b [] e e'.
Proof.
  intros Hb Hr. unfold read_reg, bind, reg_write, reg_read.
  destruct (law_select L b r e Hb Hr) as [Hs Hk]. destruct (law_read L b (hw_write 4 b r e) Hb) as [Hv Hk'].
  destruct (hw_read 4 (b + 0x10) (hw_write 4 b r e)) as [v e']. cbn [fst snd] in Hv, Hk'. rewrite Hs, Hk in Hv by done. subst v.
  exists e'. split; [done|]. intros b' r' Hb' _. by rewrite Hk', Hk.
Qed.

Lemma write_reg_spec b r v e : at_ b → 0 ≤ r < 256 → ∃ e', write_reg b r v e = (Ok tt, e') ∧ same_but b [r] e e' ∧
  (∀ i, 0 ≤ i → r = REG_REDIRECTION_BASE + i * 2 → Z.land (reg e'.1 b r) OWNED = Z.land v OWNED) ∧
  (∀ i, 0 ≤ i → r = REG_REDIRECTION_BASE + i * 2 + 1 → Z.land (Z.shiftr (reg e'.1 b r) 24) 0xff = Z.land (Z.shiftr v 24) 0xff).
Proof.
  intros Hb Hr. unfold write_reg, bind, reg_write. destruct (law_select L b r e Hb Hr) as [Hs Hk].
  destruct (law_write L b v (hw_write 4 b r e) Hb) as (Ho & Hl & Hh). rewrite Hs in Ho, Hl, Hh.
  eexists. split; [done|]. split; [|by split]. intros b' r' Hb' Hr'. rewrite Ho, Hk; [done..|set_solver].
Qed.

Lemma redirection_read_spec io i e : at_ (base io) → 0 ≤ i < 120 →
  ∃ p e', redirection_read io i e = (Ok p, e') ∧ same_but (base io) [] e e' ∧ entry_of p.1 p.2 = entry e io i.
Proof.
  intros Hb Hi. unfold redirection_read, REG_REDIRECTION_BASE.
  destruct (read_reg_spec (base io) (0x10 + i * 2) e Hb) as (e1 & E1 & S1); [lia|]. rewrite (bind_ok _ _ _ _ _ E1).
  destruct (read_reg_spec (base io) (0x10 + i * 2 + 1) e1 Hb) as (e2 & E2 & S2); [lia|]. rewrite (bind_ok _ _ _ _ _ E2).
  eexists _, e2. split; [done|]. split; [by eapply regs_but_trans|]. cbn [fst snd]. unfold entry, REG_REDIRECTION_BASE.
  rewrite S1; [done..|]. right. set_solver.
Qed.

(** While an entry changes it is masked, so it delivers nothing half-written. *)
Lemma redirection_write_spec io i low high e : at_ (base io) → 0 ≤ i < 120 →
  ∃ e1 e2 e', write_reg (base io) (REG_REDIRECTION_BASE + i * 2) (Z.lor low REDIR_MASKED) e = (Ok tt, e1) ∧
    write_reg (base io) (REG_REDIRECTION_BASE + i * 2 + 1) high e1 = (Ok tt, e2) ∧
    masked (entry e1 io i) = true ∧ masked (entry e2 io i) = true ∧
    redirection_write io i low high e = (Ok tt, e') ∧
    same_but (base io) [REG_REDIRECTION_BASE + i * 2; REG_REDIRECTION_BASE + i * 2 + 1] e e' ∧
    entry e' io i = entry_of low high.
Proof.
  intros Hb Hi. unfold redirection_write. set (r := REG_REDIRECTION_BASE + i * 2).
  assert (Hr : 0 ≤ r ∧ r + 1 < 256) by (unfold r, REG_REDIRECTION_BASE; lia).
  destruct (write_reg_spec (base io) r (Z.lor low REDIR_MASKED) e Hb) as (e1 & E1 & S1 & L1 & _); [lia|].
  destruct (write_reg_spec (base io) (r + 1) high e1 Hb) as (e2 & E2 & S2 & _ & H2); [lia|].
  destruct (write_reg_spec (base io) r low e2 Hb) as (e3 & E3 & S3 & L3 & _); [lia|].
  assert (Hm : Z.testbit (reg e1.1 (base io) r) 16 = true).
  { pose proof (f_equal (λ z, Z.testbit z 16) (L1 i ltac:(lia) eq_refl)) as Hz. cbv beta in Hz. rewrite !Z.land_spec, Z.lor_spec in Hz.
    change (Z.testbit OWNED 16) with true in Hz. change (Z.testbit REDIR_MASKED 16) with true in Hz. by rewrite orb_true_r, !andb_true_r in Hz. }
  exists e1, e2, e3. split_and!; try done.
  - unfold entry, entry_of. fold r. cbn [masked]. rewrite S2; [done..|]. right. rewrite list_elem_of_singleton. lia.
  - rewrite (bind_ok _ _ _ _ _ E1), (bind_ok _ _ _ _ _ E2). done.
  - eapply regs_but_trans; [eapply regs_but_weaken; [|exact S1]; set_solver|].
    eapply regs_but_trans; [eapply regs_but_weaken; [|exact S2]; set_solver|eapply regs_but_weaken; [|exact S3]; set_solver].
  - unfold entry. fold r. apply entry_owned; [by apply (L3 i); [lia|]|].
    rewrite S3; [by apply (H2 i); [lia|]|done|]. right. rewrite list_elem_of_singleton. lia.
Qed.

Lemma entry_same io i b rs e e' : at_ (base io) → same_but b rs e e' →
  base io ≠ b ∨ (REG_REDIRECTION_BASE + i * 2 ∉ rs ∧ REG_REDIRECTION_BASE + i * 2 + 1 ∉ rs) → entry e' io i = entry e io i.
Proof. intros Hb Hs Hc. unfold entry. rewrite !Hs by (done || tauto). done. Qed.

(** The entries other than one. *)
Lemma entry_other io i io' j e e' : at_ (base io') → 
  same_but (base io) [REG_REDIRECTION_BASE + i * 2; REG_REDIRECTION_BASE + i * 2 + 1] e e' →
  base io' ≠ base io ∨ j ≠ i → entry e' io' j = entry e io' j.
Proof.
  intros Hb Hs Hc. eapply entry_same; [done..|]. destruct Hc; [by left|right].
  rewrite !not_elem_of_cons. split_and!; try apply not_elem_of_nil; lia.
Qed.
End Laws.
