(* ===== verification/IrqRoute.v ===== *)
(** * From boot to a line: the composition

    [start_interrupts] masks every input of every controller; from then on an
    input is programmed by the last call for a line routed to it. *)
From stdpp Require Import base numbers list gmap.
From Stdlib Require Import ZArith Lia Bool.
From S2P Require Import Prelude Bytes Mem Pmm Vmm Hw Acpi Irq IrqInv.
Import Irq.

Lemma bind_inv {S E A B} (m : M S E A) (f : A → M S E B) s b s' :
  bind m f s = (Ok b, s') → ∃ a s1, m s = (Ok a, s1) ∧ f a s1 = (Ok b, s').
Proof. unfold bind. destruct (m s) as [[a| | |] s1]; intros E1; try discriminate E1. by exists a, s1. Qed.

Lemma ensure_inv {S} b (s s' : S) u : ensure b s = (Ok u, s') → b = true ∧ s' = s.
Proof. unfold ensure, ret, fail. destruct b; intros E; [|discriminate E]. by injection E. Qed.

(** Take the first step of a run that succeeded. *)
Ltac step H x E := let e := fresh "e" in apply bind_inv in H as (x & e & E & H).

(** The calls of drivers. *)
Definition line_op : Type := Z * bool.
(** The last call that concerns an input of a controller. *)
Definition concerns (c : Config) (io : IoApic) (i : Z) (op : line_op) : Prop :=
  ∃ io' flags, isa_route c op.1 = Some (io', i, flags) ∧ base io' = base io ∧ polarity_trigger flags ≠ None.
#[export] Instance concerns_dec c io i op : Decision (concerns c io i op).
Proof.
  refine (match isa_route c op.1 as r return isa_route c op.1 = r → _ with
          | Some (io', j, flags) => λ E, cast_if_and3 (decide (j = i)) (decide (base io' = base io)) (decide (polarity_trigger flags ≠ None))
          | None => λ E, right _ end eq_refl); unfold concerns; rewrite E; try naive_solver.
Defined.
Definition last_op (c : Config) (io : IoApic) (i : Z) (ops : list line_op) : option line_op := last (filter (concerns c io i) ops).

(** ** The configuration *)
Record good (c : Config) : Prop := {
  good_room : length (controllers c) = 4%nat ∧ 0 ≤ count c ≤ 4;
  good_cover : ∀ io io' g, io ∈ ios c → io' ∈ ios c → gsi_start io ≤ g < gsi_end io → gsi_start io' ≤ g < gsi_end io' → io = io'
}.

Lemma route_ok c irq io i flags : isa_route c irq = Some (io, i, flags) → io ∈ ios c ∧ 0 ≤ i < inputs io.
Proof.
  unfold isa_route. destruct (match list_find _ _ with Some (_, e) => (Acpi.gsi e, Acpi.flags e) | None => (irq, 0) end) as [g f].
  destruct (list_find _ (take _ (controllers c))) as [[k io']|] eqn:E; [|done]. intros [= -> <- <-].
  apply list_find_Some in E as (Hk & Hc & _). split; [by eapply list_elem_of_lookup_2|]. unfold inputs. lia.
Qed.

Lemma wrap8_range x : 0 ≤ wrap8 x < 256.
Proof. unfold wrap8. apply Z.mod_pos_bound. lia. Qed.

Section Route.
Context {D : Type} `{Hw D} `{Cpu D}.
Context (reg : D → Z → Z → Z) (sel : D → Z → Z) (at_ : Z → Prop).
Notation Env := (D * Vmm.VState)%type.
Notation entry := (entry reg).
Context (L : ioapic_laws reg sel at_).

(** An access elsewhere leaves the controllers alone. *)
Definition apart (b : Z) : Prop := ∀ off (e : Env), 0 ≤ off < 4096 →
  (∀ b' r, at_ b' → reg (hw_read 4 (b + off) e).2.1 b' r = reg e.1 b' r) ∧
  ∀ v b' r, at_ b' → reg (hw_write 4 (b + off) v e).1 b' r = reg e.1 b' r.
Definition msr_apart : Prop := ∀ n v (e : Env) b r, at_ b → reg (hw_wrmsr n v e).1 b r = reg e.1 b r.
Definition kept (e e' : Env) : Prop := ∀ b r, at_ b → reg e'.1 b r = reg e.1 b r.

Lemma kept_entry e e' io i : at_ (base io) → kept e e' → entry e' io i = entry e io i.
Proof. intros Hb Hk. unfold IrqInv.entry. by rewrite !Hk. Qed.

Lemma on_vmm_device {A} (m : Vmm.V A) (e : Env) (r : res unit A) e' : on_vmm m e = (r, e') → e'.1 = e.1.
Proof. unfold on_vmm. destruct (m e.2). by intros [= _ <-]. Qed.

(** ** Masking every input *)
Lemma mask_entry_spec io i e : at_ (base io) → 0 ≤ i < 120 → ∃ e', mask_entry io i e = (Ok tt, e') ∧
  masked (entry e' io i) = true ∧ ∀ io' j, at_ (base io') → base io' ≠ base io ∨ j ≠ i → entry e' io' j = entry e io' j.
Proof.
  intros Hb Hi. unfold mask_entry. destruct (redirection_read_spec reg sel at_ L io i e Hb Hi) as (p & e1 & E1 & S1 & _). rewrite (bind_ok _ _ _ _ _ E1).
  destruct (redirection_write_spec reg sel at_ L io i (Z.lor p.1 REDIR_MASKED) p.2 e1 Hb Hi) as (_ & _ & e2 & _ & _ & _ & _ & E2 & S2 & Hn).
  exists e2. split; [done|]. split; [rewrite Hn; unfold entry_of; cbn [masked]; rewrite Z.lor_spec; apply orb_true_r|].
  intros io' j Hb' Hc. rewrite (entry_other reg at_ io i io' j e1 e2 Hb' S2 Hc). eapply entry_same; [done|exact S1|]. right. split; apply not_elem_of_nil.
Qed.

Lemma mask_inputs io ks : at_ (base io) → Forall (λ k, 0 ≤ k < 120) ks → ∀ e, ∃ e', mfor ks (mask_entry io) e = (Ok tt, e') ∧
  (∀ k, k ∈ ks → masked (entry e' io k) = true) ∧
  ∀ io' j, at_ (base io') → base io' ≠ base io ∨ j ∉ ks → entry e' io' j = entry e io' j.
Proof.
  intros Hb. induction 1 as [|k ks Hk Hks IH]; intros e.
  - exists e. split; [done|]. split; [by intros k Hk%elem_of_nil|done].
  - destruct (mask_entry_spec io k e Hb Hk) as (e1 & E1 & M1 & K1). destruct (IH e1) as (e2 & E2 & M2 & K2).
    exists e2. split; [simpl; by rewrite (bind_ok _ _ _ _ _ E1)|]. split.
    + intros j Hj. destruct (decide (j ∈ ks)); [by apply M2|]. apply elem_of_cons in Hj as [->|?]; [|done]. rewrite K2; [done..|by right].
    + intros io' j Hb' Hc. rewrite K2, K1; [done|done| |done|]; destruct Hc; set_solver.
Qed.

(** ** Bringing the controllers up *)
Definition all_masked (e : Env) (c : Config) : Prop := ∀ io i, io ∈ ios c → 0 ≤ i < inputs io → masked (entry e io i) = true.
(** The devices are where the configuration says, each at its own place. *)
Definition placed (c : Config) : Prop := Forall at_ (base <$> ios c) ∧ NoDup (base <$> ios c).
Definition small (c : Config) : Prop := Forall (λ io, inputs io ≤ 120) (ios c).

Lemma ios_snoc c io : length (controllers c) = 4%nat → 0 ≤ count c < 4 →
  ios (mkConfig (<[Z.to_nat (count c) := io]> (controllers c)) (count c + 1) (cfg_overrides c) (cfg_override_count c)) = ios c ++ [io].
Proof.
  intros Hl Hc. unfold ios. cbn [count controllers]. replace (Z.to_nat (count c + 1)) with (S (Z.to_nat (count c))) by lia.
  rewrite (take_S_r _ _ io) by (apply list_lookup_insert_eq; lia). by rewrite take_insert_ge.
Qed.

Lemma add_controller_spec info c e c' e' : add_controller info c e = (Ok c', e') → good c → count c < 4 →
  ∃ io, ios c' = ios c ++ [io] ∧ count c' = count c + 1 ∧ good c' ∧ cfg_overrides c' = cfg_overrides c ∧
    cfg_override_count c' = cfg_override_count c ∧
    (placed c' → small c → all_masked e c → small c' ∧ all_masked e' c').
Proof.
  intros Hr [[Hl Hc] Hcov] Hlt. unfold add_controller in Hr. step Hr u E0. apply ensure_inv in E0 as [_ ->].
  step Hr b E1. step Hr version E2. cbv zeta in Hr. set (n := Z.land (Z.shiftr version 16) 0xff + 1) in Hr.
  step Hr u1 E3. apply ensure_inv in E3 as [_ ->]. step Hr u2 E4. apply ensure_inv in E4 as [Hdis ->].
  step Hr u3 E5. step Hr idv E6. injection Hr as <- <-.
  set (io := mkIo b (Acpi.gsi_base info) (Acpi.gsi_base info + n)) in *.
  assert (Hn : 0 < n) by (unfold n; pose proof (Z.land_nonneg (Z.shiftr version 16) 0xff); lia).
  assert (Hfree : ∀ io', io' ∈ ios c → gsi_end io' ≤ gsi_start io ∨ gsi_end io ≤ gsi_start io').
  { intros io' Hin. apply negb_true_iff in Hdis. rewrite <- not_true_iff_false, existsb_exists in Hdis.
    destruct (decide (gsi_end io' ≤ gsi_start io ∨ gsi_end io ≤ gsi_start io')) as [?|Hx]; [done|]. destruct Hdis.
    exists io'. split; [by apply list_elem_of_In|]. unfold io in Hx. cbn [gsi_start gsi_end] in Hx. apply andb_true_iff. lia. }
  exists io. rewrite ios_snoc by (done || lia). split_and!; try done.
  - split; [cbn [controllers count]; rewrite length_insert; lia|]. rewrite ios_snoc by (done || lia).
    intros i1 i2 g [H1| ->%list_elem_of_singleton]%elem_of_app [H2| ->%list_elem_of_singleton]%elem_of_app G1 G2; [by eapply Hcov|..|done].
    + destruct (Hfree _ H1); lia.
    + destruct (Hfree _ H2); lia.
  - unfold placed, small, all_masked. rewrite ios_snoc, fmap_app by (done || lia). intros [Hat Hnd] Hsm Hma.
    apply Forall_app in Hat as [Hato Hatb]. apply Forall_cons in Hatb as [Hatb _]. apply NoDup_app in Hnd as (_ & Hnew & _).
    assert (K1 : kept e e0) by (intros b' r _; by rewrite (on_vmm_device _ _ _ _ E1)).
    destruct (read_reg_spec reg sel at_ L b REG_VERSION e0 Hatb) as (e9 & E9 & S9); [unfold REG_VERSION; lia|].
    rewrite E9 in E2. injection E2 as Ev ->.
    assert (Hn120 : n ≤ 120) by (pose proof (law_version _ _ _ L b e0 Hatb) as Hv; rewrite Ev in Hv; unfold n; lia).
    destruct (mask_inputs io (seqZ 0 n) Hatb) with (e := e1) as (e4 & E4 & M4 & K4); [apply Forall_seqZ; lia|].
    rewrite E4 in E5. injection E5 as _ ->.
    destruct (read_reg_spec reg sel at_ L b REG_ID e2 Hatb) as (e5 & E7 & S7); [unfold REG_ID; lia|]. rewrite E7 in E6. injection E6 as _ ->.
    split; [apply Forall_app_2; [done|]; constructor; [unfold inputs; cbn; lia|done]|].
    intros io' i [Hin| ->%list_elem_of_singleton]%elem_of_app Hi.
    + assert (Hb' : at_ (base io')) by (rewrite Forall_fmap, Forall_forall in Hato; by apply Hato).
      assert (Hne : base io' ≠ b) by (intros E; destruct (Hnew (base io')); [by apply list_elem_of_fmap_2|rewrite E; by left]).
      rewrite (entry_same reg at_ io' i b [] e2 e3 Hb' S7), K4, (entry_same reg at_ io' i b [] e0 e1 Hb' S9), (kept_entry e e0) by (done || by left).
      by apply Hma.
    + rewrite (entry_same reg at_ io i b [] e2 e3 Hatb S7) by (right; split; apply not_elem_of_nil).
      apply M4, elem_of_seqZ. unfold inputs in Hi. cbn in Hi. lia.
Qed.

Lemma add_controllers_spec infos : ∀ c e c' e', add_controllers infos c e = (Ok c', e') → good c → count c + Z.of_nat (length infos) ≤ 4 →
  (∃ l, ios c' = ios c ++ l) ∧ good c' ∧ cfg_overrides c' = cfg_overrides c ∧ cfg_override_count c' = cfg_override_count c ∧
  (placed c' → small c → all_masked e c → small c' ∧ all_masked e' c').
Proof.
  induction infos as [|info infos IH]; intros c e c' e' Hr Hg Hc; simpl in Hr.
  - injection Hr as <- <-. split_and!; try done. exists []. by rewrite app_nil_r.
  - step Hr c1 E1. simpl in Hc. destruct (add_controller_spec _ _ _ _ _ E1 Hg) as (io & Hio & Hc1 & Hg1 & Ho & Hoc & Hm); [lia|].
    destruct (IH _ _ _ _ Hr Hg1) as ([l Hl] & Hg' & Ho' & Hoc' & Hm'); [lia|].
    split; [exists (io :: l); by rewrite Hl, Hio, <- app_assoc|]. split_and!; [done|congruence..|].
    intros Hp Hs Ha. destruct Hm; [|done|done|by apply Hm'].
    destruct Hp as [Hat Hnd]. rewrite Hl, fmap_app in Hat, Hnd. split; [by apply Forall_app in Hat as [? _]|by apply NoDup_app in Hnd as [? _]].
Qed.

Notation St := (D * Vmm.VState * Statics)%type.

Lemma reached_inv {S} (m : M S unit unit) s s' : reached m s = (Ok true, s') → m s = (Ok tt, s').
Proof. unfold reached, catch, bind. destruct (m s) as [[[]|[]| |] s1]; intros E; try discriminate E. by injection E as ->. Qed.

Lemma on_hw_inv {A} (m : M Env unit A) (σ σ' : St) a : on_hw m σ = (Ok a, σ') → m σ.1 = (Ok a, σ'.1) ∧ σ'.2 = σ.2.
Proof. unfold on_hw. destruct (m σ.1) as [r e]. by intros [= -> <-]. Qed.

Lemma ioapic_init_spec madt (σ σ' : St) : ioapic_init madt σ = (Ok true, σ') → length (Acpi.ioapics madt) = 4%nat →
  ∃ c, σ'.2 = set_config c σ.2 ∧ good c ∧ cfg_overrides c = Acpi.overrides madt ∧ cfg_override_count c = Acpi.override_count madt ∧
    (placed c → small c ∧ all_masked σ'.1 c).
Proof.
  intros Hr Hlen. apply reached_inv in Hr. step Hr u E0. apply ensure_inv in E0 as [Hcnt ->]. cbv zeta in Hr. step Hr c E1.
  apply on_hw_inv in E1 as [E1 Es]. injection Hr as <-. cbn [fst snd].
  apply negb_true_iff, orb_false_iff in Hcnt as [_ Hcnt]. apply Z.ltb_ge in Hcnt.
  destruct (add_controllers_spec _ _ _ _ _ E1) as (_ & Hg & Ho & Hoc & Hm).
  - split; [split; [done|cbn; lia]|]. unfold ios. cbn. intros io io' g Hio. by apply elem_of_nil in Hio.
  - rewrite length_take. cbn [count]. lia.
  - exists c. rewrite Es. split_and!; try done. intros Hp. apply Hm; [done|constructor|]. intros io i Hio. by apply elem_of_nil in Hio.
Qed.

(** ** The local APIC leaves the lines alone *)
Definition step_kept (σ σ' : St) : Prop := σ'.2 = σ.2 ∧ (apart (LAPIC_BASE σ.2) → kept σ.1 σ'.1).

Lemma step_kept_trans σ1 σ2 σ3 : step_kept σ1 σ2 → step_kept σ2 σ3 → step_kept σ1 σ3.
Proof. intros [E1 K1] [E2 K2]. split; [congruence|]. rewrite E1 in K2. intros Ha b r Hb. by rewrite K2, K1. Qed.

Lemma lapic_read_kept off (σ σ' : St) v : 0 ≤ off < 4096 → lapic_read off σ = (Ok v, σ') → step_kept σ σ'.
Proof.
  intros Ho E. step E s E1. injection E1 as <- <-. apply on_hw_inv in E as [E Es]. split; [done|]. intros Ha b r Hb.
  destruct (Ha off σ.1 Ho) as [Hk _]. specialize (Hk b r Hb). unfold reg_read in E.
  destruct (hw_read 4 (LAPIC_BASE σ.2 + off) σ.1) as [v' e']. injection E as _ <-. exact Hk.
Qed.

Lemma lapic_write_kept off v (σ σ' : St) u : 0 ≤ off < 4096 → lapic_write off v σ = (Ok u, σ') → step_kept σ σ'.
Proof.
  intros Ho E. step E s E1. injection E1 as <- <-. apply on_hw_inv in E as [E Es]. split; [done|]. intros Ha b r Hb.
  destruct (Ha off σ.1 Ho) as [_ Hk]. injection E as _ <-. by apply Hk.
Qed.

Lemma lvt_kept (l : list (Z * Z)) max : Forall (λ p, 0 ≤ p.2 < 4096) l → ∀ (σ σ' : St) u,
  mfor l (λ '(n, reg), if n <=? max then lapic_write reg LVT_MASKED else ret tt) σ = (Ok u, σ') → step_kept σ σ'.
Proof.
  induction 1 as [|[n off] l Hp Hl IH]; intros σ σ' u Hr; simpl in Hr.
  - injection Hr as _ <-. by split.
  - step Hr u1 E1. eapply step_kept_trans; [|by eapply IH]. destruct (n <=? max); [by eapply lapic_write_kept|]. injection E1 as _ <-. by split.
Qed.

Lemma lapic_init_spec a (σ σ' : St) : lapic_init a σ = (Ok true, σ') → apart (LAPIC_BASE σ'.2) → msr_apart →
  kept σ.1 σ'.1 ∧ CONFIG σ'.2 = CONFIG σ.2.
Proof.
  intros Hr Ha Hmsr. apply reached_inv in Hr. step Hr e0 E0. injection E0 as <- <-.
  destruct (hw_cpuid 1 σ.1) as [[[? ?] ?] edx1]. set (msr := hw_rdmsr IA32_APIC_BASE σ.1) in Hr.
  step Hr u1 E1. apply ensure_inv in E1 as [_ ->]. cbv zeta in Hr. step Hr u2 E2. apply ensure_inv in E2 as [_ ->].
  set (phys := if negb (Z.land msr APIC_BASE_ADDR_MASK =? 0) then Z.land msr APIC_BASE_ADDR_MASK else a) in Hr.
  step Hr u3 E3. apply ensure_inv in E3 as [_ ->].
  step Hr u4 E4. step Hr virt E5. step Hr u5 E6. step Hr version E7. cbv zeta in Hr. step Hr u6 E8. step Hr u7 E9. step Hr u8 E10.
  step Hr u9 E11. step Hr v E12. injection Hr as <-.
  apply on_hw_inv in E5 as [E5 Es5]. injection E6 as _ <-. injection E11 as _ <-.
  apply lapic_read_kept in E7; [|lia]. apply lapic_write_kept in E8; [|lia]. apply lvt_kept in E9; [|repeat constructor; cbn; lia].
  apply lapic_write_kept in E10; [|lia]. apply lapic_read_kept in E12; [|lia].
  pose proof (step_kept_trans _ _ _ (step_kept_trans _ _ _ (step_kept_trans _ _ _ E7 E8) E9) E10) as [Eb Kb]. destruct E12 as [Ec Kc].
  cbn [fst snd set_lapic LAPIC_BASE CONFIG] in *. rewrite Ec in Ha |- *. cbn [set_lapic LAPIC_BASE CONFIG] in *. rewrite Eb in Ha, Kc |- *. cbn [set_lapic LAPIC_BASE CONFIG] in *.
  assert (K4 : kept σ.1 e.1 ∧ e.2 = σ.2).
  { destruct (Z.land msr APIC_BASE_EN =? 0).
    - apply on_hw_inv in E4 as [E4 Es4]. injection E4 as _ <-. split; [|done]. intros b r Hb. by apply Hmsr.
    - injection E4 as _ <-. by split. }
  destruct K4 as [K4 Es4]. rewrite Es5, Es4. split; [|done].
  intros b r Hb. rewrite Kc, Kb by done. rewrite (on_vmm_device _ _ _ _ E5). by apply K4.
Qed.

(** ** One call *)
Lemma set_isa_irq_spec irq m c (σ : St) : CONFIG σ.2 = Some c → placed c → small c → 0 ≤ irq < 16 →
  ∃ e', set_isa_irq irq m σ = (Ok tt, (e', σ.2)) ∧
    ∀ io i, io ∈ ios c → 0 ≤ i < inputs io →
      (∀ flags, isa_route c irq = Some (io, i, flags) → polarity_trigger flags ≠ None → entry e' io i = wanted irq flags m (lapic_id σ.2)) ∧
      (¬ concerns c io i (irq, m) → entry e' io i = entry σ.1 io i).
Proof.
  intros Hc [Hat Hnd] Hs Hi. unfold set_isa_irq, get_statics. unfold bind at 1. rewrite Hc.
  assert (Hid : ∀ (P : Prop), P → ∃ e', ret (S := St) (E := unit) tt σ = (Ok tt, (e', σ.2)) ∧ e' = σ.1 ∧ P) by (intros P HP; exists σ.1; by destruct σ).
  destruct (isa_route c irq) as [[[io0 i0] flags0]|] eqn:Er.
  2: { destruct (Hid True) as (e' & E & -> & _); [done|]. exists σ.1. split; [done|]. intros io i _ _. split; [done|by intros _]. }
  destruct (polarity_trigger flags0) as [mode|] eqn:Ep.
  2: { destruct (Hid True) as (e' & E & -> & _); [done|]. exists σ.1. split; [done|]. intros io i _ _. split; [|by intros _].
       intros flags [= -> -> ->] Hn. by rewrite Ep in Hn. }
  destruct (route_ok _ _ _ _ _ Er) as [Hin Hr]. rewrite Forall_fmap, Forall_forall in Hat. unfold small in Hs. rewrite Forall_forall in Hs.
  assert (Hb : at_ (base io0)) by (by apply Hat). assert (H120 : 0 ≤ i0 < 120) by (specialize (Hs _ Hin); lia).
  destruct (redirection_read_spec reg sel at_ L io0 i0 σ.1 Hb H120) as (p & e1 & E1 & S1 & _).
  destruct (redirection_write_spec reg sel at_ L io0 i0 (route_low p.1 irq mode m) (Z.shiftl (lapic_id σ.2) 24) e1 Hb H120) as (_ & _ & e2 & _ & _ & _ & _ & E2 & S2 & Hn).
  exists e2. split.
  { unfold bind, on_hw. rewrite E1. cbn [fst snd]. by rewrite E2. }
  intros io i Hio Hii. split.
  - intros flags [= -> -> ->] _. rewrite Hn. rewrite <- (route_low_entry irq flags mode m (lapic_id σ.2)); [|done|apply wrap8_range|done].
    apply entry_owned; [apply route_low_owned|done].
  - intros Hno. rewrite (entry_other reg at_ io0 i0 io i e1 e2 (Hat _ Hio) S2).
    + eapply entry_same; [by apply Hat|exact S1|]. right. split; apply not_elem_of_nil.
    + destruct (decide (base io = base io0)) as [Eb|]; [right|by left]. intros ->. destruct Hno. exists io0, flags0. cbn [fst]. split_and!; [done|done|by rewrite Ep].
Qed.

(** ** Any calls *)
Definition line_call (op : line_op) : M St unit unit := if op.2 then mask_isa_irq op.1 else unmask_isa_irq op.1.

Lemma last_op_cons c io i op ops : last_op c io i (op :: ops) =
  match last_op c io i ops with Some x => Some x | None => if decide (concerns c io i op) then Some op else None end.
Proof. unfold last_op. rewrite filter_cons. destruct (decide (concerns c io i op)); [apply last_cons|]. by destruct (last _). Qed.

Lemma concerns_route c io i op : NoDup (base <$> ios c) → io ∈ ios c → concerns c io i op →
  ∃ flags, isa_route c op.1 = Some (io, i, flags) ∧ polarity_trigger flags ≠ None.
Proof.
  intros Hnd Hin (io' & flags & Er & Eb & Hp). destruct (route_ok _ _ _ _ _ Er) as [Hin' _]. exists flags. split; [|done]. rewrite Er. repeat f_equal.
  apply list_elem_of_lookup in Hin as [k Hk], Hin' as [k' Hk'].
  assert (k = k') as ->; [|congruence]. eapply (NoDup_lookup (base <$> ios c)); [done|rewrite list_lookup_fmap, Hk; done|]. rewrite list_lookup_fmap, Hk'. simpl. by rewrite Eb.
Qed.

Lemma lines_run c s ops : CONFIG s = Some c → APIC_ROUTING s = true → placed c → small c → Forall (λ op : line_op, 0 ≤ op.1 < 16) ops →
  ∀ e, ∃ e', mfor ops line_call (e, s) = (Ok tt, (e', s)) ∧ ∀ io i, io ∈ ios c → 0 ≤ i < inputs io →
    match last_op c io i ops with
    | None => entry e' io i = entry e io i
    | Some (irq, m) => ∃ flags, isa_route c irq = Some (io, i, flags) ∧ entry e' io i = wanted irq flags m (lapic_id s)
    end.
Proof.
  intros Hc Hr Hp Hs. induction 1 as [|[irq m] ops Ho Hos IH]; intros e; [by exists e|].
  destruct (set_isa_irq_spec irq m c (e, s) Hc Hp Hs Ho) as (e1 & E1 & H1). destruct (IH e1) as (e2 & E2 & H2).
  exists e2. split.
  { simpl. rewrite (bind_ok _ _ _ tt (e1, s)); [done|]. unfold line_call. destruct m; cbn [fst snd]; unfold mask_isa_irq, unmask_isa_irq, get_statics, bind; cbn [fst snd]; by rewrite Hr. }
  intros io i Hio Hi. rewrite last_op_cons. specialize (H2 io i Hio Hi). destruct (H1 io i Hio Hi) as [Hw Hk].
  destruct (last_op c io i ops) as [[irq' m']|]; [done|]. destruct (decide (concerns c io i (irq, m))) as [Hcon|Hno].
  - destruct (concerns_route c io i _ (proj2 Hp) Hio Hcon) as (flags & Er & Hpt). exists flags. split; [done|]. rewrite H2. by apply Hw.
  - by rewrite H2, Hk.
Qed.
End Route.

(** ** What the tables give fits the arrays *)
Definition fits (i : Acpi.MadtInfo) : Prop :=
  length (Acpi.ioapics i) = 4%nat ∧ length (Acpi.overrides i) = 16%nat ∧ 0 ≤ Acpi.ioapic_count i ≤ 4 ∧ 0 ≤ Acpi.override_count i ≤ 16.

Lemma parse_entry_fits t off k n i s i' s' : Acpi.parse_entry t off k n i s = (Ok i', s') → fits i → fits i'.
Proof.
  unfold Acpi.parse_entry, Acpi.MAX_IOAPICS, Acpi.MAX_OVERRIDES, fits. intros Hr Hf.
  repeat match goal with
  | H : (if ?b then _ else _) _ = _ |- _ => destruct b eqn:?
  | H : bind _ _ _ = _ |- _ => let x := fresh "x" in let E := fresh "E" in step H x E
  | H : ret _ _ = _ |- _ => injection H as <- <-
  end; cbn; rewrite ?length_insert; try done; try lia. destruct (negb _); cbn; lia.
Qed.

Lemma parse_entries_fits t total fuel : ∀ off i s i' s', Acpi.parse_entries fuel t total off i s = (Ok i', s') → fits i → fits i'.
Proof.
  induction fuel as [|fuel IH]; intros off i s i' s' Hr Hf; simpl in Hr; destruct (_ <=? _); try (by injection Hr as <- <-).
  - discriminate Hr.
  - step Hr k E1. step Hr n E2. step Hr u E3. step Hr i1 E4. by eapply IH, parse_entry_fits.
Qed.

Lemma find_madt_fits rsdp s i s' : Acpi.find_madt rsdp s = (Ok (Some i), s') → fits i.
Proof.
  unfold Acpi.find_madt. destruct (Acpi.find_madt_or_fail rsdp s) as [[i1| | |] s1] eqn:Hr; intros E; try discriminate E. injection E as -> ->.
  unfold Acpi.find_madt_or_fail in Hr. step Hr a E1. step Hr u1 E2. step Hr t E3. step Hr root E4. destruct root as [sdt x].
  step Hr u2 E5. step Hr t2 E6. step Hr n1 E7. step Hr g1 E8. cbv zeta in Hr. step Hr u3 E9. step Hr bs E10. step Hr u4 E11. step Hr found E12.
  destruct found as [m|]; [|discriminate Hr]. unfold Acpi.parse_madt in Hr.
  step Hr t3 F1. step Hr n2 F2. step Hr g2 F3. step Hr u5 F4. step Hr bs' F5. step Hr u6 F6. step Hr lapic F7. step Hr i2 F8. step Hr u7 F9.
  injection Hr as <- <-. eapply parse_entries_fits; [exact F8|]. unfold fits. cbn. lia.
Qed.

Section Boot.
Context {D : Type} `{Hw D} `{Cpu D}.
Context (reg : D → Z → Z → Z) (sel : D → Z → Z) (at_ : Z → Prop).

(** Only [use_apic] changes the choice. *)
Definition keeps {A} (m : M (D * Vmm.VState * Statics) unit A) : Prop := ∀ σ, APIC_ROUTING (m σ).2.2 = APIC_ROUTING σ.2.

Lemma routing_bind {A B} (m : M _ unit A) (f : A → M _ unit B) : keeps m → (∀ a, keeps (f a)) → keeps (bind m f).
Proof. intros Hm Hf σ. unfold bind. specialize (Hm σ). destruct (m σ) as [[a| | |] σ1]; cbn [fst snd] in *; [|done..]. rewrite (Hf a σ1). done. Qed.
Lemma routing_on_hw {A} (m : M _ unit A) : keeps (on_hw m).
Proof. intros σ. unfold on_hw. by destruct (m σ.1). Qed.
Lemma routing_ret {A} (a : A) : keeps (ret a).
Proof. done. Qed.
Lemma routing_ensure b : keeps (ensure b).
Proof. by destruct b. Qed.
Lemma routing_set f : (∀ s, APIC_ROUTING (f s) = APIC_ROUTING s) → keeps (set_statics f).
Proof. intros Hf σ. apply Hf. Qed.
Lemma routing_get : keeps get_statics.
Proof. done. Qed.
Lemma routing_reached m : keeps m → keeps (reached m).
Proof. intros Hm σ. specialize (Hm σ). unfold reached, catch, bind. by destruct (m σ) as [[[]| | |] σ1]. Qed.
Lemma ioapic_init_keeps madt : keeps (ioapic_init madt).
Proof. apply routing_reached, routing_bind; [apply routing_ensure|intros _]. apply routing_bind; [apply routing_on_hw|intros c]. by apply routing_set. Qed.

Lemma lapic_access_keeps : (∀ r, keeps (lapic_read r)) ∧ ∀ r v, keeps (lapic_write r v).
Proof. split; intros; (apply routing_bind; [apply routing_get|intros; apply routing_on_hw]). Qed.

Lemma lapic_init_keeps a : keeps (lapic_init a).
Proof.
  destruct lapic_access_keeps as [Hr Hw]. apply routing_reached, routing_bind; [done|]. intros e. destruct (hw_cpuid 1 e) as [[[? ?] ?] ?].
  repeat (first [apply Hr | apply Hw | apply routing_ret | apply routing_ensure | apply routing_on_hw
    | match goal with |- keeps (if ?b then _ else _) => destruct b end | apply routing_bind; [|intros ?] | by apply routing_set]).
Qed.

Lemma start_interrupts_spec rsdp e e' s : ioapic_laws reg sel at_ → msr_apart reg at_ →
  start_interrupts rsdp (e, boot_statics) = (Ok tt, (e', s)) → APIC_ROUTING s = true → apart reg at_ (LAPIC_BASE s) →
  (∀ c, CONFIG s = Some c → placed at_ c) →
  ∃ c, CONFIG s = Some c ∧ good c ∧ placed at_ c ∧ small c ∧ all_masked reg e' c ∧
    0 ≤ cfg_override_count c ≤ Z.of_nat (length (cfg_overrides c)) ∧ supports_isa_irq 0 s = true ∧ supports_isa_irq 1 s = true.
Proof.
  intros L Hmsr Hr Hrt Ha Hpl. unfold start_interrupts in Hr. step Hr u E1. apply on_hw_inv in E1 as [_ Es1]. step Hr found E2.
  apply on_hw_inv in E2 as [E2 Es2]. cbn [snd] in Es1. rewrite Es1 in Es2.
  destruct found as [madt|]; [|injection Hr as ->; cbn in Es2; by subst s].
  unfold on_vmm in E2. destruct (Acpi.find_madt rsdp e0.1.2) as [[o|[]| |] v'] eqn:Ef; try discriminate E2. injection E2 as -> _.
  apply find_madt_fits in Ef as (Hlen & Hov & _ & Hoc).
  step Hr io E3. step Hr s2 E4. injection E4 as <- <-.
  pose proof (ioapic_init_keeps madt e1) as Hk. rewrite E3 in Hk. cbn [fst snd] in Hk. rewrite Es2 in Hk. cbn in Hk.
  destruct io; [|injection Hr as ->; cbn in Hk; congruence].
  destruct (ioapic_init_spec reg sel at_ L madt _ _ E3 Hlen) as (c & Ec & Hg & Ho & Hoc' & Hm).
  destruct (supports_isa_irq 0 e2.2) eqn:Es0; [|injection Hr as ->; cbn in Hk; congruence].
  destruct (supports_isa_irq 1 e2.2) eqn:Es1'; [|injection Hr as ->; cbn in Hk; congruence]. cbn [andb] in Hr.
  step Hr local E5. pose proof (lapic_init_keeps (Acpi.local_apic_addr madt) e2) as Hk2. rewrite E5 in Hk2. cbn [fst snd] in Hk2.
  destruct local; [|injection Hr as ->; cbn in Hk2; congruence]. injection Hr as <- <-.
  destruct (lapic_init_spec reg at_ _ _ _ E5) as [Hkept Hcfg]; [exact Ha|exact Hmsr|].
  assert (Hcs : CONFIG (set_routing true e3.2) = Some c) by (cbn; rewrite Hcfg, Ec; done).
  exists c. specialize (Hpl c Hcs). destruct (Hm Hpl) as [Hs Hmask]. split_and!; try done.
  - intros io i Hio Hi. rewrite (kept_entry reg at_ e2.1 e3.1); [by apply Hmask| |done]. destruct Hpl as [Hat _]. rewrite Forall_fmap, Forall_forall in Hat. by apply Hat.
  - rewrite Hoc'. lia.
  - rewrite Ho, Hoc', Hov. lia.
  - unfold supports_isa_irq in *. rewrite Hcs. by rewrite Ec in Es0.
  - unfold supports_isa_irq in *. rewrite Hcs. by rewrite Ec in Es1'.
Qed.

(** C34: whenever [_start] chooses the APICs, every input of every controller
    is masked when it is done, each interrupt belongs to one controller only,
    and the lines of the timer and the keyboard have a route.  From then on,
    for any sequence of [mask_isa_irq] and [unmask_isa_irq], an input is
    exactly what the last call for a line routed to it asks for (the line's
    vector, fixed delivery to this processor's APIC id, polarity and trigger of
    the firmware's override, masked or not), and an input no call concerns
    stays masked. *)
Theorem lines_follow_calls rsdp e e' s : ioapic_laws reg sel at_ → msr_apart reg at_ →
  start_interrupts rsdp (e, boot_statics) = (Ok tt, (e', s)) → APIC_ROUTING s = true → apart reg at_ (LAPIC_BASE s) →
  (∀ c, CONFIG s = Some c → placed at_ c) →
  ∃ c, CONFIG s = Some c ∧ good c ∧ supports_isa_irq 0 s = true ∧ supports_isa_irq 1 s = true ∧
    ∀ ops, Forall (λ op : line_op, 0 ≤ op.1 < 16) ops →
    ∃ e2, mfor ops line_call (e', s) = (Ok tt, (e2, s)) ∧ ∀ io i, io ∈ ios c → 0 ≤ i < inputs io →
      match last_op c io i ops with
      | None => masked (entry reg e2 io i) = true
      | Some (irq, m) => ∃ flags, isa_route c irq = Some (io, i, flags) ∧ entry reg e2 io i = wanted irq flags m (lapic_id s)
      end.
Proof.
  intros L Hmsr Hr Hrt Ha Hpl. destruct (start_interrupts_spec _ _ _ _ L Hmsr Hr Hrt Ha Hpl) as (c & Hc & Hg & Hp & Hs & Hm & _ & Hs0 & Hs1).
  exists c. split_and!; try done. intros ops Hops. destruct (lines_run reg sel at_ L c s ops Hc Hrt Hp Hs Hops e') as (e2 & E2 & H2).
  exists e2. split; [done|]. intros io i Hio Hi. specialize (H2 io i Hio Hi). destruct (last_op c io i ops) as [[irq m]|]; [done|]. rewrite H2. by apply Hm.
Qed.
End Boot.
