(* ===== verification/IrqDemo.v ===== *)
(** * Lines of the small machine

    The machine of [AcpiDemo] with one I/O APIC of 24 inputs, which firmware
    left unmasked, and a local APIC whose id is 5. *)
From Stdlib Require Import String.
From stdpp Require Import base numbers list gmap.
From Stdlib Require Import ZArith Lia Bool.
From S2P Require Import Prelude Bytes Str Mem Pmm Vmm Hw Acpi AcpiInv AcpiDemo Irq IrqInv IrqRoute.
Import Irq.

Record Board := mkBoard { index : Z; table : gmap Z Z }.
Definition IO_BASE : Z := 0xfec00000.

Definition board_reg (d : Board) (b r : Z) : Z := if r =? 1 then 0x170020 else default 0 (table d !! r).
Definition board_sel (d : Board) (b : Z) : Z := index d.
(** Bits 12 and 14 of an entry's low half are read-only; of the high half the
    destination is stored. *)
Definition stored_bits (r old v : Z) : Z :=
  if Z.even r then Z.lor (Z.land v 0x1afff) (Z.land old 0x5000) else Z.land v 0xff000000.

#[export] Instance board_hw : Hw Board := {
  hw_read := λ n a e, (if a =? IO_BASE + 0x10 then board_reg e.1 IO_BASE (index e.1) else if a =? 0xfee00020 then Z.shiftl 5 24 else 0x50014, e);
  hw_write := λ n a v e,
    if a =? IO_BASE then (mkBoard (Z.land v 0xff) (table e.1), e.2)
    else if a =? IO_BASE + 0x10 then (mkBoard (index e.1) (<[index e.1 := stored_bits (index e.1) (board_reg e.1 IO_BASE (index e.1)) v]> (table e.1)), e.2)
    else e;
  hw_in := λ _ _ e, (0, e); hw_out := λ _ _ _ e, e; hw_run := λ e, e; hw_time := λ e, (0, e); hw_yield := λ e, e
}.
#[export] Instance board_cpu : Cpu Board := {
  hw_cpuid := λ _ _, (0, 0, 0, 0x200); hw_rdmsr := λ _ _, 0xfee00900; hw_wrmsr := λ _ _ e, e
}.
Definition board_at (b : Z) : Prop := b = IO_BASE.

Lemma board_laws : ioapic_laws board_reg board_sel board_at.
Proof.
  split.
  - intros b v e -> Hv. cbn. split; [|done]. change 255 with (Z.ones 8). rewrite Z.land_ones by lia. apply Z.mod_small. lia.
  - intros b e ->. by cbn.
  - intros b v [[i t] vs] ->.
    change (hw_write 4 (IO_BASE + 0x10) v (mkBoard i t, vs)) with (mkBoard i (<[i := stored_bits i (board_reg (mkBoard i t) IO_BASE i) v]> t), vs).
    cbv zeta. cbn [fst snd]. unfold board_sel, board_reg, REG_REDIRECTION_BASE. cbn [index table].
    split_and!.
    + intros b' r -> [?|Hr]; [done|]. destruct (r =? 1); [done|]. by rewrite lookup_insert_ne.
    + intros k Hk ->. destruct (Z.eqb_spec (16 + k * 2) 1) as [|_]; [lia|]. rewrite lookup_insert_eq. cbn [from_option]. unfold id, stored_bits.
      replace (Z.even (16 + k * 2)) with true by (by rewrite Z.add_comm, Z.even_add, Z.even_mul, orb_true_r).
      apply Z.bits_inj'. intros n Hn. rewrite !Z.land_spec, Z.lor_spec, !Z.land_spec. unfold OWNED.
      assert (Hd : Z.testbit 0x5000 n && Z.testbit 0x1afff n = false) by (rewrite <- Z.land_spec; change (Z.land 0x5000 0x1afff) with 0; apply Z.bits_0).
      destruct (Z.testbit 0x1afff n), (Z.testbit 0x5000 n), (Z.testbit v n); try done; by rewrite ?andb_false_r.
    + intros k Hk ->. destruct (Z.eqb_spec (16 + k * 2 + 1) 1) as [|_]; [lia|]. rewrite lookup_insert_eq. cbn [from_option]. unfold id, stored_bits.
      replace (Z.even (16 + k * 2 + 1)) with false by (by rewrite (Z.add_comm 16), <- Z.add_assoc, Z.even_add, Z.even_mul, orb_true_r).
      rewrite Z.shiftr_land. change (Z.shiftr 0xff000000 24) with 0xff. by rewrite <- Z.land_assoc.
  - intros b e ->. by vm_compute.
Qed.

Lemma board_apart : apart board_reg board_at 0xfee00000.
Proof.
  intros off e Ho. split; [done|]. intros v b r ->. cbn. unfold IO_BASE.
  rewrite (proj2 (Z.eqb_neq (0xfee00000 + off) 0xfec00000)), (proj2 (Z.eqb_neq (0xfee00000 + off) (0xfec00000 + 16))) by lia. done.
Qed.

Definition board_start : Board * Vmm.VState := (mkBoard 0 ∅, demo_machine).
Definition board_up : res unit unit * (Board * Vmm.VState * Statics) := start_interrupts (Some 0x100000) (board_start, boot_statics).

(** The timer is line 0 on input 2, by the firmware's override; line 9 is
    active high and level triggered. *)
Lemma lines_follow_calls_witness :
  board_up.1 = Ok tt ∧ ∃ c e2 io, CONFIG board_up.2.2 = Some c ∧ ios c = [io] ∧
    mfor [(0, false); (9, false); (9, true)] line_call board_up.2 = (Ok tt, (e2, board_up.2.2)) ∧
    entry board_reg e2 io 2 = mkEntry 32 0 false false false false 5 ∧
    entry board_reg e2 io 9 = mkEntry 41 0 false false true true 5 ∧
    masked (entry board_reg e2 io 3) = true.
Proof.
  assert (Eo : board_up.1 = Ok tt) by (vm_compute; reflexivity). split; [exact Eo|].
  assert (Ec : CONFIG board_up.2.2 = Some (mkConfig [mkIo IO_BASE 0 24; EMPTY; EMPTY; EMPTY] 1
    (Acpi.mkOverride 0 2 0 :: Acpi.mkOverride 9 9 13 :: replicate 14 (Acpi.mkOverride 0 0 0)) 2)) by (vm_compute; reflexivity).
  destruct (lines_follow_calls board_reg board_sel board_at (Some 0x100000) board_start board_up.2.1 board_up.2.2) as (c & Hc & _ & _ & _ & Hops).
  - exact board_laws.
  - intros n v e b r Hb. reflexivity.
  - change (start_interrupts (Some 0x100000) (board_start, boot_statics)) with board_up.
    rewrite (surjective_pairing board_up) at 1. rewrite Eo, <- surjective_pairing. reflexivity.
  - vm_compute. reflexivity.
  - replace (LAPIC_BASE board_up.2.2) with 0xfee00000 by (vm_compute; reflexivity). exact board_apart.
  - intros c Hc. rewrite Ec in Hc. injection Hc as <-. split; [apply Forall_cons_2; [reflexivity|apply Forall_nil_2]|apply NoDup_singleton].
  - rewrite Ec in Hc. injection Hc as <-.
    destruct (Hops [(0, false); (9, false); (9, true)]) as (e2 & E2 & He).
    { repeat apply Forall_cons_2; try apply Forall_nil_2; cbn; lia. }
    eexists _, e2, (mkIo IO_BASE 0 24). split; [exact Ec|]. split; [reflexivity|]. split; [rewrite <- surjective_pairing in E2; exact E2|].
    assert (Hin : mkIo IO_BASE 0 24 ∈ ios (mkConfig [mkIo IO_BASE 0 24; EMPTY; EMPTY; EMPTY] 1
      (Acpi.mkOverride 0 2 0 :: Acpi.mkOverride 9 9 13 :: replicate 14 (Acpi.mkOverride 0 0 0)) 2)) by (apply list_elem_of_here).
    assert (Hid : lapic_id board_up.2.2 = 5) by (vm_compute; reflexivity). rewrite Hid in He.
    pose proof (He (mkIo IO_BASE 0 24) 2 Hin ltac:(unfold inputs; cbn; lia)) as H2. pose proof (He (mkIo IO_BASE 0 24) 9 Hin ltac:(unfold inputs; cbn; lia)) as H9. pose proof (He (mkIo IO_BASE 0 24) 3 Hin ltac:(unfold inputs; cbn; lia)) as H3.
    clear He. vm_compute in H3.
    destruct H2 as (f2 & R2 & ->). destruct H9 as (f9 & R9 & ->). vm_compute in R2, R9. injection R2 as <-. injection R9 as <-.
    split_and!; [reflexivity..|exact H3].
Defined.
