(* ===== verification/Trap.v ===== *)
(** * Traps: [gdt.rs] and [idt.rs]

    The descriptor tables as [gdt::init] and [idt::init] write them, the entry
    code in assembly as a list of instructions on a small machine, and
    [exception_handler] with the calls it makes.  The words of the stack are
    held by address; addresses are far from 0, so a push does not wrap. *)
From stdpp Require Import base numbers list gmap.
From Stdlib Require Import ZArith Lia Bool.
From S2P Require Import Prelude Bytes.

Module Trap.

(** ** The segment table *)
Definition KERNEL_CS : Z := 0x08.
Definition KERNEL_DS : Z := 0x10.
Definition USER_DS : Z := 0x18.
Definition USER_CS : Z := 0x20.
Definition TSS_SELECTOR : Z := 0x28.
Definition DOUBLE_FAULT_IST : Z := 1.
Definition DOUBLE_FAULT_STACK_SIZE : Z := 4096 * 5.
(** [size_of::<Tss>()], packed: 4 + 12 * 8 + 2 + 2. *)
Definition TSS_SIZE : Z := 104.

(** The fields of the TSS that are not always 0. *)
Record Tss := mkTss { rsp0 : Z; ist1 : Z; iomap_base : Z }.

Definition tss_descriptor (base limit : Z) : Z * Z :=
  let low := Z.lor (Z.lor (Z.lor (Z.lor (Z.land limit 0xffff)
    (Z.shiftl (Z.land base 0xffffff) 16))
    (Z.shiftl 0x89 40))
    (Z.shiftl (Z.land (Z.shiftr limit 16) 0xf) 48))
    (Z.shiftl (Z.land (Z.shiftr base 24) 0xff) 56) in
  let high := Z.shiftr base 32 in
  (low, high).

(** The table and the TSS that [init] leaves, for the addresses of the
    statics. *)
Definition gdt_init (tss_addr stack_addr : Z) (tss : Tss) : list Z * Tss :=
  let stack_top := stack_addr + DOUBLE_FAULT_STACK_SIZE in
  let tss := mkTss (rsp0 tss) stack_top TSS_SIZE in
  let '(tss_low, tss_high) := tss_descriptor tss_addr (TSS_SIZE - 1) in
  ([0; 0x00af9a000000ffff; 0x00cf92000000ffff; 0x00cff2000000ffff; 0x00affa000000ffff; tss_low; tss_high], tss).

(** ** The interrupt table *)
Definition IDT_ENTRIES : Z := 256.
Definition GATE_INTERRUPT : Z := 0x8e.
Definition IRQ_BASE : Z := 32.
Definition IRQ_COUNT : Z := 16.
Definition TOTAL_VECTORS : Z := IRQ_BASE + IRQ_COUNT.
Definition APIC_SPURIOUS_VECTOR : Z := 0xff.

Record Entry := mkEntry { offset_low : Z; selector : Z; ist : Z; type_attr : Z; offset_mid : Z; offset_high : Z; reserved : Z }.
Definition MISSING : Entry := mkEntry 0 0 0 0 0 0 0.
Definition Entry_new (handler selector ist type_attr : Z) : Entry :=
  mkEntry (wrap16 handler) selector ist type_attr (wrap16 (Z.shiftr handler 16)) (wrap32 (Z.shiftr handler 32)) 0.

(** [table] is [isr_stub_table], [spurious] the address of [isr_stub_255]. *)
Definition idt_init (table : list Z) (spurious : Z) (idt : list Entry) : option (list Entry) :=
  idt ← foldl (λ acc vector,
      idt ← acc;
      handler ← table !! Z.to_nat vector;
      let ist := if vector =? 8 then DOUBLE_FAULT_IST else 0 in
      Some (<[Z.to_nat vector := Entry_new handler KERNEL_CS ist GATE_INTERRUPT]> idt))
    (Some idt) (seqZ 0 TOTAL_VECTORS);
  Some (<[Z.to_nat APIC_SPURIOUS_VECTOR := Entry_new spurious KERNEL_CS 0 GATE_INTERRUPT]> idt).

(** ** The entry code *)
Inductive Reg := RAX | RBX | RCX | RDX | RSI | RDI | RBP | R8 | R9 | R10 | R11 | R12 | R13 | R14 | R15.
#[export] Instance Reg_eq_dec : EqDecision Reg.
Proof. solve_decision. Defined.

Record Machine := mkMachine { gpr : Reg → Z; rsp : Z; rip : Z; cs : Z; rflags : Z; ss : Z; stack : gmap Z Z }.

Inductive insn := PushImm (n : Z) | Push (r : Reg) | Pop (r : Reg) | MovRdiRsp | Cld | AddRsp (n : Z).

Definition set_gpr (r : Reg) (v : Z) (m : Machine) : Machine :=
  mkMachine (λ r', if decide (r' = r) then v else gpr m r') (rsp m) (rip m) (cs m) (rflags m) (ss m) (stack m).
Definition set_rsp (a : Z) (m : Machine) : Machine := mkMachine (gpr m) a (rip m) (cs m) (rflags m) (ss m) (stack m).
Definition push (v : Z) (m : Machine) : Machine :=
  mkMachine (gpr m) (rsp m - 8) (rip m) (cs m) (rflags m) (ss m) (<[rsp m - 8 := v]> (stack m)).
(** The word [k] places above the top. *)
Definition word (m : Machine) (k : Z) : Z := default 0 (stack m !! (rsp m + 8 * k)).

Definition exec1 (m : Machine) (i : insn) : Machine :=
  match i with
  | PushImm n => push n m
  | Push r => push (gpr m r) m
  | Pop r => set_rsp (rsp m + 8) (set_gpr r (word m 0) m)
  | MovRdiRsp => set_gpr RDI (rsp m) m
  | Cld => mkMachine (gpr m) (rsp m) (rip m) (cs m) (Z.ldiff (rflags m) (Z.shiftl 1 10)) (ss m) (stack m)
  | AddRsp n => set_rsp (rsp m + n) m
  end.
Definition exec (is_ : list insn) (m : Machine) : Machine := foldl exec1 m is_.

(** The vectors whose stub is [isr_err]. *)
Definition isr_err_vectors : list Z := [8; 10; 11; 12; 13; 14; 17; 21; 29; 30].
Definition isr_stub (num : Z) : list insn :=
  if bool_decide (num ∈ isr_err_vectors) then [PushImm num] else [PushImm 0; PushImm num].

Definition saved : list Reg := [RAX; RBX; RCX; RDX; RSI; RDI; RBP; R8; R9; R10; R11; R12; R13; R14; R15].
Definition isr_save : list insn := map Push saved ++ [MovRdiRsp; Cld].
Definition isr_restore : list insn := map Pop (rev saved) ++ [AddRsp 16].

(** [iretq]: the five words that the processor pushed. *)
Definition iretq (m : Machine) : Machine := mkMachine (gpr m) (word m 3) (word m 0) (word m 1) (word m 2) (word m 4) (stack m).

(** The whole path; [call] is [exception_handler], which may not return. *)
Definition isr (num : Z) (call : Machine → option Machine) (m : Machine) : option Machine :=
  m ← call (exec (isr_stub num ++ isr_save) m);
  Some (iretq (exec isr_restore m)).

Record InterruptFrame := mkFrame {
  f_regs : Reg → Z; vector : Z; error_code : Z;
  f_rip : Z; f_cs : Z; f_rflags : Z; f_rsp : Z; f_ss : Z
}.
(** The structure's fields from the address in [rdi] on, [r15] first. *)
Definition frame_at (m : Machine) : InterruptFrame :=
  let field k := default 0 (stack m !! (gpr m RDI + 8 * k)) in
  mkFrame (λ r, match r with
                | R15 => field 0 | R14 => field 1 | R13 => field 2 | R12 => field 3 | R11 => field 4 | R10 => field 5 | R9 => field 6 | R8 => field 7
                | RBP => field 8 | RDI => field 9 | RSI => field 10 | RDX => field 11 | RCX => field 12 | RBX => field 13 | RAX => field 14
                end)
    (field 15) (field 16) (field 17) (field 18) (field 19) (field 20) (field 21).

(** ** What to do about it *)

(** What the handler calls, on a kernel state [S]; [fatal] and [exit_current]
    do not come back. *)
Class TrapCalls (S : Type) := {
  end_of_interrupt : Z → M S Empty_set unit;
  preempt_if_needed : M S Empty_set unit;
  exit_current : Z → M S Empty_set unit;
  fatal : InterruptFrame → M S Empty_set unit
}.

Section Handler.
Context {S : Type} `{TrapCalls S}.
Definition IrqHandler : Type := M S Empty_set unit.
Definition Handlers : Type := list (option IrqHandler).
Definition no_handlers : Handlers := replicate (Z.to_nat IRQ_COUNT) None.

(** An index past the array panics. *)
Definition register_irq (irq : Z) (handler : IrqHandler) (hs : Handlers) : option Handlers :=
  if irq <? IRQ_COUNT then Some (<[Z.to_nat irq := Some handler]> hs) else None.

Definition irq_dispatch (hs : Handlers) (frame : InterruptFrame) : M S Empty_set unit :=
  let irq := wrap8 (vector frame - IRQ_BASE) in
  match hs !! Z.to_nat irq with
  | None => panic
  | Some handler =>
      (match handler with Some handler => handler | None => ret tt end) ;;!
      end_of_interrupt irq ;;!
      preempt_if_needed
  end.

Definition kill_user_process (frame : InterruptFrame) : M S Empty_set unit :=
  exit_current (if vector frame =? 14 then 139 else 128 + vector frame).

(** Whether the handler comes back to the interrupted code: [true] for a
    return, [false] after a call that ends the thread or the machine. *)
Definition exception_handler (hs : Handlers) (frame : InterruptFrame) : M S Empty_set bool :=
  if vector frame =? APIC_SPURIOUS_VECTOR then ret true
  else if IRQ_BASE <=? vector frame then irq_dispatch hs frame ;;! ret true
  else if (Z.land (f_cs frame) 3 =? 3) && negb (bool_decide (vector frame ∈ [2; 8; 18])) then kill_user_process frame ;;! ret false
  else if vector frame =? 3 then ret true
  else fatal frame ;;! ret false.
End Handler.
End Trap.
