(* ===== verification/TrapInv.v ===== *)
(** * A trap is seen whole and leaves no trace

    The processor's part of a trap, as its manuals describe it, and the proof
    that with the tables of [idt::init] the entry code hands the handler the
    interrupted state and gives it back. *)
From stdpp Require Import base numbers list gmap.
From Stdlib Require Import ZArith Lia Bool ZifyNat.
From S2P Require Import Prelude Bytes Trap.
Import Trap.

(** ** The processor *)

(** The exceptions with an error code: #DF, #TS, #NP, #SS, #GP, #PF, #AC, #CP,
    #VC and #SX. *)
Definition has_code (v : Z) : bool := bool_decide (v ∈ [8; 10; 11; 12; 13; 14; 17; 21; 29; 30]).

Definition gate_offset (g : Entry) : Z := Z.lor (Z.lor (offset_low g) (Z.shiftl (offset_mid g) 16)) (Z.shiftl (offset_high g) 32).

Definition push_all (vs : list Z) (m : Machine) : Machine := foldl (λ m v, push v m) m vs.

(** The stack of a gate: the one of its index, or on a change of privilege
    that of the TSS, or the current one; aligned to 16. *)
Definition trap_stack (tss : Tss) (g : Entry) (m : Machine) : Z :=
  16 * ((if negb (ist g =? 0) then ist1 tss else if Z.land (cs m) 3 =? 3 then rsp0 tss else rsp m) / 16).

Definition deliver (tss : Tss) (g : Entry) (v code : Z) (m : Machine) : Machine :=
  let m' := push_all ([ss m; rsp m; rflags m; cs m; rip m] ++ if has_code v then [code] else []) (set_rsp (trap_stack tss g m) m) in
  mkMachine (gpr m') (rsp m') (gate_offset g) (selector g) (Z.ldiff (rflags m) (Z.shiftl 1 9)) (if Z.land (cs m) 3 =? 3 then 0 else ss m) (stack m').

(** ** Gates *)
Lemma gate_roundtrip h sel i t : 0 ≤ h < 2^64 → gate_offset (Entry_new h sel i t) = h.
Proof.
  intros Hh. unfold gate_offset, Entry_new. cbn [offset_low offset_mid offset_high]. unfold wrap16, wrap32.
  change (2^16) with 65536. change (2^32) with 4294967296.
  change 65536 with (2^16). change 4294967296 with (2^32). rewrite <- !Z.land_ones by lia.
  apply Z.bits_inj'. intros n Hn. rewrite !Z.lor_spec, !Z.shiftl_spec, !Z.land_spec by done.
  destruct (decide (n < 16)) as [H1|H1].
  { rewrite (Z.ones_spec_low 16) by lia. rewrite (Z.testbit_neg_r _ (n - 16)), (Z.testbit_neg_r _ (n - 32)) by lia. by rewrite andb_true_r, !orb_false_r. }
  rewrite (Z.ones_spec_high 16) by lia. rewrite andb_false_r. destruct (decide (n < 32)) as [H2|H2].
  { rewrite (Z.ones_spec_low 16) by lia. rewrite (Z.testbit_neg_r _ (n - 32)) by lia. rewrite Z.shiftr_spec by lia. rewrite andb_true_r, orb_false_r. cbn [orb]. f_equal. lia. }
  rewrite (Z.ones_spec_high 16) by lia. rewrite andb_false_r. cbn [orb]. rewrite Z.shiftr_spec by lia. replace (n - 32 + 32) with n by lia.
  destruct (decide (n < 64)) as [H3|H3].
  { rewrite (Z.ones_spec_low 32) by lia. by rewrite andb_true_r. }
  rewrite (Z.ones_spec_high 32), andb_false_r by lia. symmetry. destruct (decide (h = 0)) as [->|]; [apply Z.bits_0|].
  apply Z.bits_above_log2; [lia|]. apply Z.log2_lt_pow2; [lia|]. apply Z.lt_le_trans with (2^64); [lia|]. apply Z.pow_le_mono_r; lia.
Qed.

(** ** Pushes and pops *)
Lemma push_all_spec vs : ∀ m, let m' := push_all vs m in
  rsp m' = rsp m - 8 * Z.of_nat (length vs) ∧ gpr m' = gpr m ∧
  (∀ i v, vs !! i = Some v → stack m' !! (rsp m - 8 * (Z.of_nat i + 1)) = Some v) ∧
  ∀ a, rsp m ≤ a → stack m' !! a = stack m !! a.
Proof.
  induction vs as [|v vs IH]; intros m; [cbn; split_and!; [lia|done..]|].
  destruct (IH (push v m)) as (Hr & Hg & Hv & Ha). change (push_all (v :: vs) m) with (push_all vs (push v m)). cbv zeta.
  change (rsp (push v m)) with (rsp m - 8) in *. change (gpr (push v m)) with (gpr m) in *. change (stack (push v m)) with (<[rsp m - 8 := v]> (stack m)) in *.
  split_and!; [cbn [length]; lia|done| |].
  - intros [|i] w Hw; cbn in Hw.
    + injection Hw as ->. rewrite Ha by lia. replace (rsp m - 8 * (Z.of_nat 0 + 1)) with (rsp m - 8) by lia. apply lookup_insert_eq.
    + rewrite <- (Hv i w Hw). f_equal. lia.
  - intros a Ha'. rewrite Ha by lia. apply lookup_insert_ne. lia.
Qed.

Lemma exec_push rs : ∀ m, exec (map Push rs) m = push_all (map (gpr m) rs) m.
Proof. induction rs as [|r rs IH]; intros m; [done|]. cbn [map exec push_all foldl]. fold (exec (map Push rs) (exec1 m (Push r))). by rewrite IH. Qed.

Lemma exec_app is1 is2 m : exec (is1 ++ is2) m = exec is2 (exec is1 m).
Proof. apply foldl_app. Qed.
Lemma push_all_app vs ws m : push_all (vs ++ ws) m = push_all ws (push_all vs m).
Proof. apply foldl_app. Qed.

Lemma exec_pop rs : NoDup rs → ∀ m, let m' := exec (map Pop rs) m in
  rsp m' = rsp m + 8 * Z.of_nat (length rs) ∧ stack m' = stack m ∧
  (∀ i r, rs !! i = Some r → gpr m' r = default 0 (stack m !! (rsp m + 8 * Z.of_nat i))) ∧ ∀ r, r ∉ rs → gpr m' r = gpr m r.
Proof.
  induction 1 as [|r rs Hr Hnd IH]; intros m; [cbn; split_and!; [lia|done..]|].
  destruct (IH (exec1 m (Pop r))) as (Hs & Hst & Hg & Ho). change (exec (map Pop (r :: rs)) m) with (exec (map Pop rs) (exec1 m (Pop r))).
  change (rsp (exec1 m (Pop r))) with (rsp m + 8) in *. change (stack (exec1 m (Pop r))) with (stack m) in *.
  change (gpr (exec1 m (Pop r))) with (λ r', if decide (r' = r) then word m 0 else gpr m r') in Ho. cbv zeta. split_and!; [cbn [length]; lia|done| |].
  - intros [|i] q Hq; cbn in Hq.
    + injection Hq as <-. rewrite Ho by done. by rewrite decide_True.
    + rewrite (Hg i q Hq). do 2 f_equal. lia.
  - intros q [Hq1 Hq2]%not_elem_of_cons. rewrite Ho by done. by rewrite decide_False.
Qed.

(** ** The table *)
Definition handler_of (table : list Z) (spurious v : Z) : option Z := if v =? 255 then Some spurious else table !! Z.to_nat v.
Definition vectors : list Z := seqZ 0 48 ++ [255].

Lemma idt_loop table idt n : (n ≤ 48)%nat → length table = 48%nat → length idt = 256%nat →
  ∃ idt', foldl (λ acc vector, idt ← acc; handler ← table !! Z.to_nat vector;
      let ist := if vector =? 8 then DOUBLE_FAULT_IST else 0 in
      Some (<[Z.to_nat vector := Entry_new handler KERNEL_CS ist GATE_INTERRUPT]> idt)) (Some idt) (seqZ 0 (Z.of_nat n)) = Some idt' ∧
    length idt' = 256%nat ∧ ∀ k h, (k < n)%nat → table !! k = Some h →
      idt' !! k = Some (Entry_new h KERNEL_CS (if (k =? 8)%nat then DOUBLE_FAULT_IST else 0) GATE_INTERRUPT).
Proof.
  intros Hn Ht Hl. induction n as [|n IH]; [exists idt; split_and!; [done|done|lia]|].
  destruct IH as (idt1 & E & L1 & H1); [lia|]. rewrite Nat2Z.inj_succ, <- Z.add_1_r, seqZ_app, foldl_app, E by lia.
  replace (seqZ (0 + Z.of_nat n) 1) with [Z.of_nat n] by (unfold seqZ; cbn; f_equal; lia). cbn [foldl].
  destruct (lookup_lt_is_Some_2 table n) as [h Hh]; [lia|]. cbn [mbind option_bind]. rewrite Nat2Z.id, Hh. cbn [mbind option_bind].
  eexists. split; [done|]. split; [by rewrite length_insert|]. intros k h' Hk Hk'. destruct (decide (k = n)) as [->|Hne].
  - rewrite list_lookup_insert_eq by lia. rewrite Hh in Hk'. injection Hk' as <-. cbv zeta.
    replace (Z.of_nat n =? 8) with (n =? 8)%nat; [done|]. destruct (Nat.eqb_spec n 8), (Z.eqb_spec (Z.of_nat n) 8); (done || lia).
  - rewrite list_lookup_insert_ne by done. apply H1; [lia|done].
Qed.

Lemma idt_gate table spurious v h : length table = 48%nat → v ∈ vectors → handler_of table spurious v = Some h →
  ∃ idt g, idt_init table spurious (replicate 256 MISSING) = Some idt ∧ idt !! Z.to_nat v = Some g ∧
    g = Entry_new h KERNEL_CS (if v =? 8 then DOUBLE_FAULT_IST else 0) GATE_INTERRUPT.
Proof.
  intros Ht Hv Hh. destruct (idt_loop table (replicate 256 MISSING) 48) as (idt & E & L & H); [lia|done|by rewrite length_replicate|].
  unfold idt_init.
  change TOTAL_VECTORS with (Z.of_nat 48).
  cbv zeta in E |- *. rewrite E. cbn [mbind option_bind]. eexists _, _. split; [done|]. split; [|done].
  unfold handler_of in Hh. change (Z.to_nat APIC_SPURIOUS_VECTOR) with 255%nat. apply elem_of_app in Hv as [Hv| ->%list_elem_of_singleton].
  - apply elem_of_seqZ in Hv. destruct (Z.eqb_spec v 255); [lia|]. rewrite list_lookup_insert_ne by lia. rewrite (H _ h) by (done || lia).
    destruct (Z.eqb_spec v 8), (Nat.eqb_spec (Z.to_nat v) 8); (done || lia).
  - change (Z.to_nat 255) with 255%nat. rewrite list_lookup_insert_eq by lia. cbn in Hh. by injection Hh as <-.
Qed.

(** ** The frame *)

(** The words on the stack when the handler is called, the first pushed
    first. *)
Definition trap_words (v code : Z) (m : Machine) : list Z :=
  [ss m; rsp m; rflags m; cs m; rip m; if has_code v then code else 0; v] ++ map (gpr m) saved.

Lemma entry_pushes tss g v code m :
  let a := trap_stack tss g m in let c := exec (isr_stub v ++ isr_save) (deliver tss g v code m) in
  rsp c = a - 176 ∧ gpr c RDI = a - 176 ∧
  ∀ i w, trap_words v code m !! i = Some w → stack c !! (a - 8 * (Z.of_nat i + 1)) = Some w.
Proof.
  cbv zeta. set (a := trap_stack tss g m). unfold isr_save. rewrite app_assoc, exec_app.
  assert (E : ∃ m1, exec (isr_stub v ++ map Push saved) (deliver tss g v code m) = m1 ∧
    rsp m1 = rsp (push_all (trap_words v code m) (set_rsp a m)) ∧ stack m1 = stack (push_all (trap_words v code m) (set_rsp a m))).
  { eexists. split; [done|]. unfold isr_stub, deliver, trap_words, has_code, isr_err_vectors. fold a.
    destruct (bool_decide _); by cbn. }
  destruct E as (m1 & -> & Er & Es). destruct (push_all_spec (trap_words v code m) (set_rsp a m)) as (Hr & _ & Hv & _).
  rewrite <- Er in Hr. rewrite <- Es in Hv. cbn [set_rsp rsp] in Hr, Hv. change (Z.of_nat (length (trap_words v code m))) with 22 in Hr.
  split_and!; [cbn; lia|cbn; rewrite decide_True by done; lia|exact Hv].
Qed.

(** The handler is called on a stack aligned as the calling convention wants,
    and sees the interrupted state. *)
Record sees (v code : Z) (m : Machine) (f : InterruptFrame) : Prop := {
  sees_regs : ∀ r, f_regs f r = gpr m r;
  sees_vector : vector f = v;
  sees_code : error_code f = if has_code v then code else 0;
  sees_rip : f_rip f = rip m; sees_cs : f_cs f = cs m; sees_rflags : f_rflags f = rflags m;
  sees_rsp : f_rsp f = rsp m; sees_ss : f_ss f = ss m
}.
Record resumes (m m' : Machine) : Prop := {
  back_regs : ∀ r, gpr m' r = gpr m r;
  back_rsp : rsp m' = rsp m; back_rip : rip m' = rip m; back_cs : cs m' = cs m; back_rflags : rflags m' = rflags m; back_ss : ss m' = ss m
}.

Lemma frame_seen tss g v code m : sees v code m (frame_at (exec (isr_stub v ++ isr_save) (deliver tss g v code m))).
Proof.
  destruct (entry_pushes tss g v code m) as (_ & Hd & Hw). cbv zeta in *. set (c := exec _ _) in *.
  assert (Hf : ∀ k w, (k < 22)%nat → trap_words v code m !! (21 - k)%nat = Some w → default 0 (stack c !! (gpr c RDI + 8 * Z.of_nat k)) = w).
  { intros k w Hk Hkw. rewrite Hd. replace (trap_stack tss g m - 176 + 8 * Z.of_nat k) with (trap_stack tss g m - 8 * (Z.of_nat (21 - k) + 1)) by lia. by rewrite (Hw _ _ Hkw). }
  split; [intros []|..]; [apply (Hf 14%nat) | apply (Hf 13%nat) | apply (Hf 12%nat) | apply (Hf 11%nat) | apply (Hf 10%nat) | apply (Hf 9%nat) | apply (Hf 8%nat)
    | apply (Hf 7%nat) | apply (Hf 6%nat) | apply (Hf 5%nat) | apply (Hf 4%nat) | apply (Hf 3%nat) | apply (Hf 2%nat) | apply (Hf 1%nat) | apply (Hf 0%nat)
    | apply (Hf 15%nat) | apply (Hf 16%nat) | apply (Hf 17%nat) | apply (Hf 18%nat) | apply (Hf 19%nat) | apply (Hf 20%nat) | apply (Hf 21%nat)]; (lia || reflexivity).
Qed.

Lemma restored tss g v code m c m1 : c = exec (isr_stub v ++ isr_save) (deliver tss g v code m) → rsp m1 = rsp c →
  (∀ k, 0 ≤ k < 22 → stack m1 !! (rsp c + 8 * k) = stack c !! (rsp c + 8 * k)) → resumes m (iretq (exec isr_restore m1)).
Proof.
  intros -> Hr Hk. destruct (entry_pushes tss g v code m) as (Hc & _ & Hw). cbv zeta in *. set (c := exec (isr_stub v ++ isr_save) _) in *.
  assert (Hf : ∀ k w, (k < 22)%nat → trap_words v code m !! (21 - k)%nat = Some w → default 0 (stack m1 !! (rsp m1 + 8 * Z.of_nat k)) = w).
  { intros k w Hk1 Hkw. rewrite Hr, Hk by lia. rewrite Hc. replace (trap_stack tss g m - 176 + 8 * Z.of_nat k) with (trap_stack tss g m - 8 * (Z.of_nat (21 - k) + 1)) by lia. by rewrite (Hw _ _ Hkw). }
  unfold isr_restore. rewrite exec_app.
  destruct (exec_pop (rev saved)) with (m := m1) as (Hs & Hst & Hg & _); [unfold saved; cbn; repeat (constructor; [set_solver|]); constructor|]. cbv zeta in *.
  set (m2 := exec (map Pop (rev saved)) m1) in *. change (Z.of_nat (length (rev saved))) with 15 in Hs.
  assert (Hword : ∀ j k w, Z.of_nat k = 17 + j → (k < 22)%nat → trap_words v code m !! (21 - k)%nat = Some w → word (exec [AddRsp 16] m2) j = w).
  { intros j k w Hj Hk1 Hkw. unfold word. cbn [exec foldl exec1 set_rsp stack rsp]. rewrite Hst, Hs. rewrite <- (Hf k w Hk1 Hkw). do 2 f_equal. lia. }
  split.
  - intros r. change (gpr (iretq (exec [AddRsp 16] m2)) r) with (gpr m2 r).
    destruct r; [rewrite (Hg 14%nat) | rewrite (Hg 13%nat) | rewrite (Hg 12%nat) | rewrite (Hg 11%nat) | rewrite (Hg 10%nat) | rewrite (Hg 9%nat) | rewrite (Hg 8%nat) | rewrite (Hg 7%nat)
      | rewrite (Hg 6%nat) | rewrite (Hg 5%nat) | rewrite (Hg 4%nat) | rewrite (Hg 3%nat) | rewrite (Hg 2%nat) | rewrite (Hg 1%nat) | rewrite (Hg 0%nat)]; try reflexivity; apply Hf; (lia || reflexivity).
  - apply (Hword 3 20%nat); (lia || reflexivity).
  - apply (Hword 0 17%nat); (lia || reflexivity).
  - apply (Hword 1 18%nat); (lia || reflexivity).
  - apply (Hword 2 19%nat); (lia || reflexivity).
  - apply (Hword 4 21%nat); (lia || reflexivity).
Qed.

(** ** The whole trap *)
Lemma trap_vector v : v ∈ vectors → 0 ≤ v < 48 ∨ v = 255.
Proof. intros [Hv%elem_of_seqZ| ->%list_elem_of_singleton]%elem_of_app; lia. Qed.

Section Calls.
Context {S : Type} `{TrapCalls S}.

(** What each vector is meant to do. *)
Definition response (hs : Handlers) (v : Z) (m : Machine) (f : InterruptFrame) : M S Empty_set bool :=
  if v =? 255 then ret true
  else if 32 <=? v then
    (match mjoin (hs !! Z.to_nat (v - 32)) with Some handler => handler | None => ret tt end) ;;!
    end_of_interrupt (v - 32) ;;! preempt_if_needed ;;! ret true
  else if (Z.land (cs m) 3 =? 3) && negb (bool_decide (v ∈ [2; 8; 18])) then exit_current (if v =? 14 then 139 else 128 + v) ;;! ret false
  else if v =? 3 then ret true
  else fatal f ;;! ret false.

Lemma bind_assoc {St E A B C} (m : M St E A) (f : A → M St E B) (g : B → M St E C) s : bind (bind m f) g s = bind m (λ a, bind (f a) g) s.
Proof. unfold bind. by destruct (m s) as [[a| | |] s1]. Qed.

Lemma handler_response hs v code m f s : length hs = 16%nat → v ∈ vectors → sees v code m f → exception_handler hs f s = response hs v m f s.
Proof.
  intros Hl Hv%trap_vector [_ Ev _ _ Ec _ _ _]. unfold exception_handler, response, kill_user_process, irq_dispatch. rewrite Ev, Ec.
  change APIC_SPURIOUS_VECTOR with 255. change IRQ_BASE with 32. destruct (Z.eqb_spec v 255); [done|]. destruct (Z.leb_spec 32 v); [|done].
  unfold wrap8. rewrite Z.mod_small by lia. unfold Handlers, IrqHandler in *. destruct (lookup_lt_is_Some_2 hs (Z.to_nat (v - 32))) as [h Hh]; [lia|]. rewrite Hh. cbn [mjoin option_join].
  rewrite bind_assoc. unfold bind. destruct h as [h|]; [destruct (h s) as [[]]|]; try done; cbn; by destruct (end_of_interrupt (v - 32) _) as [[]].
Qed.
End Calls.


(** A kernel that only notes the calls. *)
#[local] Instance noting_calls : TrapCalls (list Z) := {
  end_of_interrupt := λ irq s, (Ok tt, s ++ [irq]); preempt_if_needed := λ s, (Ok tt, s);
  exit_current := λ code s, (Ok tt, s ++ [code]); fatal := λ _ s, (Ok tt, s ++ [-1])
}.

