(* ===== verification/Entry.v ===== *)
(** * Crossing between threads and privilege levels, in assembly

    [syscall_entry], [enter_user_mode_asm] and [syscall::init] of
    [syscall.rs], and [switch_context] and [thread_trampoline] of
    [scheduler.rs], on the machine of [Trap].  What the processor does on
    [syscall] and [sysretq] follows its manuals.  Shown here: system calls
    and context switches give back what was saved, and new threads and
    programs start as they should. *)
From stdpp Require Import base numbers list gmap.
From Stdlib Require Import ZArith Lia Bool ZifyNat.
From S2P Require Import Prelude Bytes Trap TrapInv.
Import Trap.

Module Entry.

(** ** Instructions *)
Inductive instr :=
  | Plain (i : insn)
  | StoreRsp (a : Z)       (** [mov [a], rsp] *)
  | LoadRsp (a : Z)        (** [mov rsp, [a]] *)
  | PushMem (a : Z)        (** [push qword ptr [a]] *)
  | StoreRspAt (r : Reg)   (** [mov [r], rsp] *)
  | MovRsp (r : Reg)       (** [mov rsp, r] *)
  | MovReg (d s : Reg)     (** [mov d, s] *)
  | PopRsp                 (** [pop rsp] *)
  | Cli
  | Pushfq
  | OrImm (r : Reg) (n : Z)
  | Xor (r : Reg)          (** [xor r, r], which clears the register *)
  | Ret.

Definition set_stack (s : gmap Z Z) (m : Machine) : Machine := mkMachine (gpr m) (rsp m) (rip m) (cs m) (rflags m) (ss m) s.
Definition set_rflags (f : Z) (m : Machine) : Machine := mkMachine (gpr m) (rsp m) (rip m) (cs m) f (ss m) (stack m).
Definition set_rip (a : Z) (m : Machine) : Machine := mkMachine (gpr m) (rsp m) a (cs m) (rflags m) (ss m) (stack m).
Definition load (m : Machine) (a : Z) : Z := default 0 (stack m !! a).

Definition step (m : Machine) (i : instr) : Machine :=
  match i with
  | Plain i => exec1 m i
  | StoreRsp a => set_stack (<[a := rsp m]> (stack m)) m
  | LoadRsp a => set_rsp (load m a) m
  | PushMem a => push (load m a) m
  | StoreRspAt r => set_stack (<[gpr m r := rsp m]> (stack m)) m
  | MovRsp r => set_rsp (gpr m r) m
  | MovReg d s => set_gpr d (gpr m s) m
  | PopRsp => set_rsp (word m 0) m
  | Cli => set_rflags (Z.ldiff (rflags m) (Z.shiftl 1 9)) m
  | Pushfq => push (rflags m) m
  | OrImm r n => set_gpr r (Z.lor (gpr m r) n) m
  | Xor r => set_gpr r 0 m
  | Ret => set_rip (word m 0) (set_rsp (rsp m + 8) m)
  end.
Definition run (is_ : list instr) (m : Machine) : Machine := foldl step m is_.

(** ** System calls *)
Definition MSR_EFER : Z := 0xc0000080.
Definition MSR_STAR : Z := 0xc0000081.
Definition MSR_LSTAR : Z := 0xc0000082.
Definition MSR_SFMASK : Z := 0xc0000084.
Definition EFER_SCE : Z := Z.shiftl 1 0.

(** The model-specific registers that [init] writes; [entry] is the address of
    [syscall_entry]. *)
Definition syscall_init (entry : Z) (msr : gmap Z Z) : gmap Z Z :=
  let efer := default 0 (msr !! MSR_EFER) in
  let msr := <[MSR_EFER := Z.lor efer EFER_SCE]> msr in
  let syscall_base := KERNEL_CS in
  let sysret_base := USER_DS - 8 in
  let msr := <[MSR_STAR := Z.lor (Z.shiftl sysret_base 48) (Z.shiftl syscall_base 32)]> msr in
  let msr := <[MSR_LSTAR := entry]> msr in
  <[MSR_SFMASK := Z.lor (Z.lor (Z.shiftl 1 8) (Z.shiftl 1 9)) (Z.shiftl 1 10)]> msr.

Definition pushed : list Reg := [R11; RCX; R9; R8; R10; RDX; RSI; RDI; RAX].

(** [scratch] and [tss_rsp0]: the addresses of the two words in memory. *)
Definition syscall_in (scratch tss_rsp0 : Z) : list instr :=
  [StoreRsp scratch; LoadRsp tss_rsp0; PushMem scratch] ++ map (λ r, Plain (Push r)) pushed ++ [Plain MovRdiRsp; Plain Cld].
Definition syscall_out : list instr := [Cli] ++ map (λ r, Plain (Pop r)) (rev pushed) ++ [PopRsp].

Record SyscallFrame := mkFrame {
  f_rax : Z; f_rdi : Z; f_rsi : Z; f_rdx : Z; f_r10 : Z; f_r8 : Z; f_r9 : Z; f_rip : Z; f_rflags : Z; f_user_rsp : Z
}.
Definition frame_at (m : Machine) : SyscallFrame :=
  let field k := load m (gpr m RDI + 8 * k) in
  mkFrame (field 0) (field 1) (field 2) (field 3) (field 4) (field 5) (field 6) (field 7) (field 8) (field 9).

(** ** The processor *)
Definition msr_of (msr : gmap Z Z) (n : Z) : Z := default 0 (msr !! n).

(** [syscall] at [rip m], 2 bytes long. *)
Definition syscall (msr : gmap Z Z) (m : Machine) : Machine :=
  let star := msr_of msr MSR_STAR in
  let kcs := Z.land (Z.shiftr star 32) 0xfffc in
  mkMachine (λ r, match r with RCX => rip m + 2 | R11 => rflags m | _ => gpr m r end) (rsp m) (msr_of msr MSR_LSTAR) kcs
    (Z.ldiff (rflags m) (msr_of msr MSR_SFMASK)) (kcs + 8) (stack m).

(** [sysretq]: a return address outside of the user half faults in the
    kernel; the reserved bits of [rflags] keep their fixed values. *)
Definition sysretq (msr : gmap Z Z) (m : Machine) : option Machine :=
  let base := Z.shiftr (msr_of msr MSR_STAR) 48 in
  if (0 <=? gpr m RCX) && (gpr m RCX <? 2^47) then
    Some (mkMachine (gpr m) (rsp m) (gpr m RCX) (Z.lor (base + 16) 3) (Z.lor (Z.land (gpr m R11) 0x3c7fd7) 2) (Z.lor (base + 8) 3) (stack m))
  else None.

(** A system call as a whole; [dispatch] is [syscall_dispatch], which may not
    return. *)
Definition syscall_entry (scratch tss_rsp0 : Z) (msr : gmap Z Z) (dispatch : Machine → option Machine) (m : Machine) : option Machine :=
  m ← dispatch (run (syscall_in scratch tss_rsp0) m);
  sysretq msr (run syscall_out m).

(** ** The first step into user mode *)
Definition all_regs : list Reg := [RAX; RBX; RCX; RDX; RSI; RDI; RBP; R8; R9; R10; R11; R12; R13; R14; R15].
(** The moves to [ds], [es], [fs] and [gs], which leave the other registers,
    but for [ax], are left out. *)
Definition enter_user_mode_asm (m : Machine) : Machine :=
  iretq (run ([Plain (Push RCX); Plain (Push RSI); Pushfq; Plain (Pop RAX); OrImm RAX 0x200; Plain (Push RAX); Plain (Push RDX); Plain (Push RDI)]
    ++ map Xor all_regs) m).

Definition enter_user_mode (entry user_rsp : Z) (m : Machine) : Machine :=
  enter_user_mode_asm (set_gpr RDI entry (set_gpr RSI user_rsp (set_gpr RDX (Z.lor USER_CS 3) (set_gpr RCX (Z.lor USER_DS 3) m)))).

(** ** Threads *)
Definition callee_saved : list Reg := [RBP; RBX; R12; R13; R14; R15].
Definition switch_context : list instr :=
  map (λ r, Plain (Push r)) callee_saved ++ [StoreRspAt RDI; MovRsp RSI] ++ map (λ r, Plain (Pop r)) (rev callee_saved) ++ [Ret].

(** The call pushes the return address [back]. *)
Definition call_switch (back old_rsp new_rsp : Z) (m : Machine) : Machine :=
  run switch_context (push back (set_gpr RDI old_rsp (set_gpr RSI new_rsp m))).

(** The words that [create_thread] puts on a new stack, from [rsp] on. *)
Definition initial_frame (stack_top entry trampoline : Z) (s : gmap Z Z) : gmap Z Z :=
  let rsp := stack_top - 7 * 8 in
  let s := foldl (λ s k, <[rsp + 8 * k := 0]> s) s (seqZ 0 7) in
  <[rsp + 8 * 6 := trampoline]> (<[rsp + 8 * 3 := entry]> s).

(** [thread_trampoline] up to its call. *)
Definition thread_trampoline : list instr := [MovReg RDI R12].
End Entry.
Import Entry.

Lemma run_app is1 is2 m : run (is1 ++ is2) m = run is2 (run is1 m).
Proof. apply foldl_app. Qed.
Lemma run_plain {A} (f : A → insn) l : ∀ m, run (map (λ x, Plain (f x)) l) m = exec (map f l) m.
Proof. induction l as [|x l IH]; intros m; [done|]. cbn [map]. change (run (Plain (f x) :: ?k) m) with (run k (exec1 m (f x))). by rewrite IH. Qed.

Lemma push_all_kept vs : ∀ m, let m' := push_all vs m in cs m' = cs m ∧ ss m' = ss m ∧ rflags m' = rflags m ∧ rip m' = rip m ∧
  ∀ a, (a < rsp m - 8 * Z.of_nat (length vs) ∨ rsp m ≤ a) → stack m' !! a = stack m !! a.
Proof.
  induction vs as [|v vs IH]; intros m; [done|]. change (push_all (v :: vs) m) with (push_all vs (push v m)). cbv zeta.
  destruct (IH (push v m)) as (E1 & E2 & E3 & E4 & E5). rewrite E1, E2, E3, E4. split_and!; try done. intros a Ha. cbn [length] in Ha.
  rewrite E5 by (cbn [push rsp]; lia). cbn [push stack]. apply lookup_insert_ne. lia.
Qed.

Lemma pop_kept rs : ∀ m, let m' := exec (map Pop rs) m in cs m' = cs m ∧ ss m' = ss m ∧ rflags m' = rflags m ∧ rip m' = rip m.
Proof. induction rs as [|r rs IH]; intros m; [done|]. change (exec (map Pop (r :: rs)) m) with (exec (map Pop rs) (exec1 m (Pop r))). cbv zeta. destruct (IH (exec1 m (Pop r))) as (-> & -> & -> & ->). done. Qed.

(** ** The code of [syscall_entry], on any machine *)
Lemma in_head a b m : a ≠ b →
  run [StoreRsp a; LoadRsp b; PushMem a] m = push (rsp m) (set_rsp (load m b) (set_stack (<[a := rsp m]> (stack m)) m)).
Proof. intros Hab. cbn [run foldl step]. unfold load. cbn [set_stack set_rsp stack]. by rewrite lookup_insert_eq, lookup_insert_ne. Qed.

Lemma in_run a b m : a ≠ b → run (syscall_in a b) m =
  run [Plain MovRdiRsp; Plain Cld] (push_all (rsp m :: map (gpr m) pushed) (set_rsp (load m b) (set_stack (<[a := rsp m]> (stack m)) m))).
Proof. intros Hab. unfold syscall_in. rewrite !run_app, run_plain, exec_push, in_head by done. done. Qed.

Lemma in_tail m : let c := run [Plain MovRdiRsp; Plain Cld] m in
  rsp c = rsp m ∧ gpr c RDI = rsp m ∧ (∀ r, r ≠ RDI → gpr c r = gpr m r) ∧ cs c = cs m ∧ ss c = ss m ∧
  rflags c = Z.ldiff (rflags m) (Z.shiftl 1 10) ∧ stack c = stack m.
Proof. cbn [run foldl step exec1 set_gpr rsp gpr cs ss rflags stack]. split_and!; try reflexivity. intros r Hr. by rewrite decide_False. Qed.

(** ** System calls *)
Section Syscalls.
Context (scratch tss_rsp0 K entry : Z) (msr0 : gmap Z Z).
Context (Hne : scratch ≠ tss_rsp0).
Notation msr := (syscall_init entry msr0).

Lemma star_value : msr_of msr MSR_STAR = Z.lor (Z.shiftl 0x10 48) (Z.shiftl 0x08 32).
Proof. unfold msr_of, syscall_init. rewrite 2!lookup_insert_ne, lookup_insert_eq by done. done. Qed.
Lemma sfmask_value : msr_of msr MSR_SFMASK = 0x700.
Proof. unfold msr_of, syscall_init. by rewrite lookup_insert_eq. Qed.

Definition syscall_words (m : Machine) : list Z := [rsp m; rflags m; rip m + 2] ++ map (gpr m) [R9; R8; R10; RDX; RSI; RDI; RAX].

Lemma syscall_pushes m : stack m !! tss_rsp0 = Some K →
  let c := run (syscall_in scratch tss_rsp0) (syscall msr m) in
  rsp c = K - 80 ∧ gpr c RDI = K - 80 ∧ (∀ r, r ≠ RDI → gpr c r = gpr (syscall msr m) r) ∧
  cs c = KERNEL_CS ∧ ss c = KERNEL_DS ∧ Z.testbit (rflags c) 9 = false ∧
  (∀ i w, syscall_words m !! i = Some w → stack c !! (K - 8 * (Z.of_nat i + 1)) = Some w) ∧
  ∀ a, a ≠ scratch → (a < K - 80 ∨ K ≤ a) → stack c !! a = stack m !! a.
Proof.
  intros HK. cbv zeta. rewrite in_run by done. set (m0 := syscall msr m).
  assert (E : rsp m0 :: map (gpr m0) pushed = syscall_words m) by reflexivity. rewrite E.
  assert (EK : load m0 tss_rsp0 = K) by (unfold load; change (stack m0) with (stack m); by rewrite HK). rewrite EK.
  assert (Es : ∀ a, a ≠ scratch → <[scratch := rsp m0]> (stack m0) !! a = stack m !! a) by (intros a Ha; by rewrite lookup_insert_ne).
  revert Es. generalize (<[scratch := rsp m0]> (stack m0)). intros s1 Es.
  destruct (push_all_spec (syscall_words m) (set_rsp K (set_stack s1 m0))) as (Hr & Hg & Hv & _).
  destruct (push_all_kept (syscall_words m) (set_rsp K (set_stack s1 m0))) as (Hcs & Hss & Hfl & _ & Ho).
  revert Hr Hg Hv Hcs Hss Hfl Ho. generalize (push_all (syscall_words m) (set_rsp K (set_stack s1 m0))). intros m1.
  cbn [set_rsp set_stack rsp gpr cs ss rflags stack]. intros Hr Hg Hv Hcs Hss Hfl Ho. change (length (syscall_words m)) with 10%nat in *.
  destruct (in_tail m1) as (Tr & Td & Tg & Tcs & Tss & Tfl & Tst). rewrite Tr, Td, Tcs, Tss, Tfl, Tst, Hr, Hcs, Hss, Hfl.
  unfold m0. split_and!; [lia|lia| | | | |exact Hv|].
  - intros r Hr'. by rewrite Tg, Hg.
  - unfold syscall. cbn [cs]. rewrite star_value. reflexivity.
  - unfold syscall. cbn [ss]. rewrite star_value. reflexivity.
  - unfold syscall. cbn [rflags]. rewrite sfmask_value, !Z.ldiff_spec. by rewrite !andb_false_r.
  - intros a Ha Ha'. rewrite Ho by lia. by apply Es.
Qed.

(** The frame that [syscall_dispatch] gets. *)
Record sys_sees (m : Machine) (f : SyscallFrame) : Prop := {
  ss_number : f_rax f = gpr m RAX;
  ss_args : f_rdi f = gpr m RDI ∧ f_rsi f = gpr m RSI ∧ f_rdx f = gpr m RDX ∧ f_r10 f = gpr m R10 ∧ f_r8 f = gpr m R8 ∧ f_r9 f = gpr m R9;
  ss_back : f_rip f = rip m + 2 ∧ f_rflags f = rflags m ∧ f_user_rsp f = rsp m
}.

Lemma frame_of_words m c : gpr c RDI = K - 80 → (∀ i w, syscall_words m !! i = Some w → stack c !! (K - 8 * (Z.of_nat i + 1)) = Some w) → sys_sees m (frame_at c).
Proof.
  intros Hd Hw.
  assert (Hf : ∀ k w, (k < 10)%nat → syscall_words m !! (9 - k)%nat = Some w → load c (gpr c RDI + 8 * Z.of_nat k) = w).
  { intros k w Hk Hkw. unfold load. rewrite Hd. replace (K - 80 + 8 * Z.of_nat k) with (K - 8 * (Z.of_nat (9 - k) + 1)) by lia. by rewrite (Hw _ _ Hkw). }
  split; [apply (Hf 0%nat); (lia || reflexivity)| |]; split_and!;
    [apply (Hf 1%nat)|apply (Hf 2%nat)|apply (Hf 3%nat)|apply (Hf 4%nat)|apply (Hf 5%nat)|apply (Hf 6%nat)|apply (Hf 7%nat)|apply (Hf 8%nat)|apply (Hf 9%nat)]; (lia || reflexivity).
Qed.
Lemma sys_frame_seen m : stack m !! tss_rsp0 = Some K → sys_sees m (frame_at (run (syscall_in scratch tss_rsp0) (syscall msr m))).
Proof. intros HK. destruct (syscall_pushes m HK) as (_ & Hd & _ & _ & _ & _ & Hw & _). by apply frame_of_words. Qed.

(** What a function of the kernel leaves: the stack pointer, the registers
    that a callee saves, and all words of the frame but the first. *)
Record returned (c m1 : Machine) : Prop := {
  rt_rsp : rsp m1 = rsp c;
  rt_saved : ∀ r, r ∈ callee_saved → gpr m1 r = gpr c r;
  rt_frame : ∀ k, 1 ≤ k < 10 → stack m1 !! (rsp c + 8 * k) = stack c !! (rsp c + 8 * k)
}.

Lemma sys_restored m m1 : stack m !! tss_rsp0 = Some K → 0 ≤ rip m → rip m + 2 < 2^47 → Z.lor (Z.land (rflags m) 0x3c7fd7) 2 = rflags m → cs m = Z.lor USER_CS 3 → ss m = Z.lor USER_DS 3 →
  returned (run (syscall_in scratch tss_rsp0) (syscall msr m)) m1 →
  ∃ m2, sysretq msr (run syscall_out m1) = Some m2 ∧ rip m2 = rip m + 2 ∧ rsp m2 = rsp m ∧ rflags m2 = rflags m ∧ cs m2 = cs m ∧ ss m2 = ss m ∧
    gpr m2 RAX = load m1 (rsp m1) ∧ ∀ r, r ∉ [RAX; RCX; R11] → gpr m2 r = gpr m r.
Proof.
  intros HK Hrip0 Hrip Hfl Hcs Hss [Rr Rs Rf]. destruct (syscall_pushes m HK) as (Hr & _ & Hg & _ & _ & _ & Hw & _). cbv zeta in *. set (c := run (syscall_in scratch tss_rsp0) _) in *. clearbody c.
  assert (Hf : ∀ k w, (1 ≤ k < 10)%nat → syscall_words m !! (9 - k)%nat = Some w → default 0 (stack m1 !! (rsp m1 + 8 * Z.of_nat k)) = w).
  { intros k w Hk Hkw. rewrite Rr, Rf by lia. rewrite Hr. replace (K - 80 + 8 * Z.of_nat k) with (K - 8 * (Z.of_nat (9 - k) + 1)) by lia. by rewrite (Hw _ _ Hkw). }
  unfold syscall_out. rewrite !run_app, run_plain. change (run [Cli] m1) with (set_rflags (Z.ldiff (rflags m1) (Z.shiftl 1 9)) m1). set (m1' := set_rflags _ m1).
  destruct (exec_pop (rev pushed)) with (m := m1') as (Hps & Hpst & Hpg & Hpo); [unfold pushed; cbn; repeat (constructor; [set_solver|]); constructor|]. cbv zeta in *.
  change (rsp m1') with (rsp m1) in *. change (stack m1') with (stack m1) in *. change (gpr m1') with (gpr m1) in *.
  set (m2 := exec (map Pop (rev pushed)) m1') in *. clearbody m2. change (Z.of_nat (length (rev pushed))) with 9 in Hps.
  change (run [PopRsp] m2) with (set_rsp (word m2 0) m2). unfold sysretq. cbn [set_rsp gpr rsp rip stack].
  assert (Hcx : gpr m2 RCX = rip m + 2) by (rewrite (Hpg 7%nat) by reflexivity; apply (Hf 7%nat); (lia || reflexivity)). rewrite Hcx.
  rewrite (proj2 (Z.leb_le 0 _)), (proj2 (Z.ltb_lt (rip m + 2) _)) by lia. cbn [andb]. eexists. split; [reflexivity|]. cbn [rip rsp rflags cs ss gpr]. split_and!.
  - done.
  - unfold word. rewrite Hpst, Hps. replace (rsp m1 + 8 * 9 + 8 * 0) with (rsp m1 + 8 * Z.of_nat 9) by lia. apply (Hf 9%nat); (lia || reflexivity).
  - rewrite (Hpg 8%nat) by reflexivity. rewrite (Hf 8%nat (rflags m)) by (lia || reflexivity). exact Hfl.
  - rewrite Hcs, star_value. reflexivity.
  - rewrite Hss, star_value. reflexivity.
  - rewrite (Hpg 0%nat) by reflexivity. unfold load. do 2 f_equal. lia.
  - intros r Hr'.
    assert (Hkept : r ∉ rev pushed → r ∈ callee_saved → r ≠ RDI → gpr m2 r = gpr m r).
    { intros H1 H2 H3. rewrite Hpo, Rs, Hg by done. by destruct r; try reflexivity; destruct H1; apply (bool_decide_unpack _); vm_compute. }
    assert (Hback : ∀ k, (1 ≤ k < 10)%nat → rev pushed !! k = Some r → syscall_words m !! (9 - k)%nat = Some (gpr m r) → gpr m2 r = gpr m r).
    { intros k Hk H1 H2. rewrite (Hpg k r H1). by apply Hf. }
    destruct r; first [by destruct Hr'; apply (bool_decide_unpack _)
      | apply Hkept; [by apply (bool_decide_unpack _)|by apply (bool_decide_unpack _)|discriminate]
      | apply (Hback 1%nat); [lia|reflexivity|reflexivity] | apply (Hback 2%nat); [lia|reflexivity|reflexivity]
      | apply (Hback 3%nat); [lia|reflexivity|reflexivity] | apply (Hback 4%nat); [lia|reflexivity|reflexivity]
      | apply (Hback 5%nat); [lia|reflexivity|reflexivity] | apply (Hback 6%nat); [lia|reflexivity|reflexivity]].
Qed.
(** C30: A system call from user mode, with the registers [syscall::init] sets.
    [syscall_dispatch] runs in the kernel's segments with interrupts off, on
    the kernel stack of the thread, which is aligned for the call, and gets the
    number, arguments and return state of the caller; only that stack and the
    scratch word are written.  When it returns as the calling convention says,
    with the return state of the frame as it was, user code goes on behind the
    [syscall] with the first word of the frame in [rax], and its stack, flags,
    segments and all registers but [rax], [rcx] and [r11] unchanged. *)
Theorem syscall_transparent (dispatch : Machine → option Machine) m :
  stack m !! tss_rsp0 = Some K → K mod 16 = 0 → 0 ≤ rip m → rip m + 2 < 2^47 → Z.lor (Z.land (rflags m) 0x3c7fd7) 2 = rflags m →
  cs m = Z.lor USER_CS 3 → ss m = Z.lor USER_DS 3 →
  let c := run (syscall_in scratch tss_rsp0) (syscall msr m) in
  sys_sees m (frame_at c) ∧ rsp c mod 16 = 0 ∧ cs c = KERNEL_CS ∧ ss c = KERNEL_DS ∧ Z.testbit (rflags c) 9 = false ∧
  (∀ a, a ≠ scratch → (a < K - 80 ∨ K ≤ a) → stack c !! a = stack m !! a) ∧
  ∀ m1, dispatch c = Some m1 → returned c m1 →
  ∃ m2, syscall_entry scratch tss_rsp0 msr dispatch (syscall msr m) = Some m2 ∧
    rip m2 = rip m + 2 ∧ rsp m2 = rsp m ∧ rflags m2 = rflags m ∧ cs m2 = cs m ∧ ss m2 = ss m ∧
    gpr m2 RAX = load m1 (rsp c) ∧ ∀ r, r ∉ [RAX; RCX; R11] → gpr m2 r = gpr m r.
Proof.
  intros HK Hal Hr0 Hr1 Hfl Hcs Hss. cbv zeta. pose proof (sys_frame_seen m HK) as Hseen.
  destruct (syscall_pushes m HK) as (Hr & _ & _ & Hc & Hs & Hi & _ & Ho).
  split_and!; try assumption; [rewrite Hr; lia|].
  intros m1 Hd Hret. destruct (sys_restored m m1 HK Hr0 Hr1 Hfl Hcs Hss Hret) as (m2 & E & H2). exists m2.
  rewrite (rt_rsp _ _ Hret) in H2. split; [|exact H2]. unfold syscall_entry. rewrite Hd. exact E.
Qed.
End Syscalls.

(** A write to standard output: [syscall_dispatch] returns 5 in the frame. *)
Definition demo_user : Machine :=
  mkMachine (λ r, match r with RAX => 1 | RDI => 1 | RSI => 0x402000 | RDX => 5 | R12 => 77 | _ => 0 end) 0x7ffff0 0x401000 (Z.lor USER_CS 3) 0x202 (Z.lor USER_DS 3)
    {[0x9008 := 0x20000]}.
Definition demo_handled (m : Machine) : Machine :=
  set_gpr RAX 99 (set_gpr RCX 98 (set_rflags 0x202 (set_stack (<[rsp m := 5]> (stack m)) m))).
Lemma demo_returned c : returned c (demo_handled c).
Proof.
  split; [reflexivity| |].
  - intros r Hr. unfold callee_saved in Hr. repeat (apply elem_of_cons in Hr as [->|Hr]; [reflexivity|]). by apply elem_of_nil in Hr.
  - intros k Hk. unfold demo_handled. cbn [set_gpr set_rflags set_stack stack]. apply lookup_insert_ne. lia.
Qed.
Lemma demo_result c : load (demo_handled c) (rsp c) = 5.
Proof. unfold load, demo_handled. cbn [set_gpr set_rflags set_stack stack]. by rewrite lookup_insert_eq. Qed.

Lemma syscall_transparent_witness : ∃ m2,
  syscall_entry 0x9000 0x9008 (syscall_init 0x8000 ∅) (λ m, Some (demo_handled m)) (syscall (syscall_init 0x8000 ∅) demo_user) = Some m2 ∧
  rip m2 = 0x401002 ∧ rsp m2 = 0x7ffff0 ∧ gpr m2 RAX = 5 ∧ gpr m2 RSI = 0x402000 ∧ gpr m2 R12 = 77.
Proof.
  destruct (syscall_transparent 0x9000 0x9008 0x20000 0x8000 ∅ ltac:(lia) (λ m, Some (demo_handled m)) demo_user) as (_ & _ & _ & _ & _ & _ & H);
    [reflexivity|reflexivity|by vm_compute|by vm_compute|reflexivity|reflexivity|reflexivity|].
  destruct (H _ eq_refl (demo_returned _)) as (m2 & E & E1 & E2 & _ & _ & _ & E3 & E4). rewrite demo_result in E3.
  exists m2. split_and!; [exact E|exact E1|exact E2|exact E3| |].
  - rewrite E4; [reflexivity|]. by apply (bool_decide_unpack _).
  - rewrite E4; [reflexivity|]. by apply (bool_decide_unpack _).
Defined.

(** ** Switching *)
(** The words a thread leaves on its stack, from the last pushed on. *)
Definition saved_words (back : Z) (m : Machine) : list Z := back :: map (gpr m) callee_saved.
(** A thread that waits with its stack pointer at [p]: seven words to be
    popped. *)
Definition waits (s : gmap Z Z) (p : Z) (back : Z) (regs : Reg → Z) : Prop :=
  s !! (p + 48) = Some back ∧ ∀ i r, rev callee_saved !! i = Some r → s !! (p + 8 * Z.of_nat i) = Some (regs r).

Lemma switch_run back old new m : let s1 := stack (push_all (saved_words back m) m) in
  let s2 := <[old := rsp m - 56]> s1 in let m2 := call_switch back old new m in
  stack m2 = s2 ∧ ∀ b regs, waits s2 new b regs → rip m2 = b ∧ rsp m2 = new + 56 ∧ ∀ r, r ∈ callee_saved → gpr m2 r = regs r.
Proof.
  cbv zeta. unfold call_switch, switch_context. set (m0 := set_gpr RDI old (set_gpr RSI new m)). rewrite !run_app, !run_plain, exec_push.
  assert (E : push_all (map (gpr (push back m0)) callee_saved) (push back m0) = push_all (saved_words back m) m0) by reflexivity. rewrite E.
  assert (Es : stack (push_all (saved_words back m) m0) = stack (push_all (saved_words back m) m)) by reflexivity.
  destruct (push_all_spec (saved_words back m) m0) as (Hr & Hg & _). change (rsp m0) with (rsp m) in Hr. change (Z.of_nat (length (saved_words back m))) with 7 in Hr.
  revert Es Hr Hg. generalize (push_all (saved_words back m) m0) (stack (push_all (saved_words back m) m)). intros m1 s1 Es Hr Hg.
  assert (E1 : run [StoreRspAt RDI; MovRsp RSI] m1 = set_rsp new (set_stack (<[old := rsp m - 56]> s1) m1)).
  { cbn [run foldl step]. cbn [set_stack gpr]. rewrite Hg, Hr, Es. reflexivity. }
  rewrite E1. revert E1. generalize (<[old := rsp m - 56]> s1). intros s2 _.
  destruct (exec_pop (rev callee_saved)) with (m := set_rsp new (set_stack s2 m1)) as (Hps & Hpst & Hpg & _);
    [unfold callee_saved; cbn; repeat (constructor; [set_solver|]); constructor|]. cbv zeta in *.
  revert Hps Hpst Hpg. generalize (exec (map Pop (rev callee_saved)) (set_rsp new (set_stack s2 m1))). intros m2.
  cbn [set_rsp set_stack rsp stack]. change (Z.of_nat (length (rev callee_saved))) with 6. intros Hps Hpst Hpg.
  cbn [run foldl step]. cbn [set_rip set_rsp stack rip rsp gpr]. split; [exact Hpst|].
  intros b regs [Hb Hregs]. split_and!; [|lia|].
  - unfold word. rewrite Hpst, Hps. replace (new + 8 * 6 + 8 * 0) with (new + 48) by lia. by rewrite Hb.
  - intros r Hr'. apply list_elem_of_In, in_rev, list_elem_of_In, list_elem_of_lookup in Hr' as [i Hi]. rewrite (Hpg i r Hi), (Hregs i r Hi). done.
Qed.

(** [switch_context] with the frame of another thread out of the way of what
    it writes. *)
Lemma switch_to back old p m b regs : waits (stack m) p b regs →
  (rsp m ≤ p ∨ p + 56 ≤ rsp m - 56) → (old + 8 ≤ p ∨ p + 56 ≤ old) →
  let m2 := call_switch back old p m in rip m2 = b ∧ rsp m2 = p + 56 ∧ ∀ r, r ∈ callee_saved → gpr m2 r = regs r.
Proof.
  intros [Hb Hregs] Hm Ho. cbv zeta. destruct (switch_run back old p m) as [_ H]. apply H. destruct (push_all_kept (saved_words back m) m) as (_ & _ & _ & _ & Hk).
  change (Z.of_nat (length (saved_words back m))) with 7 in Hk.
  assert (Hs : ∀ a, p ≤ a < p + 56 → <[old := rsp m - 56]> (stack (push_all (saved_words back m) m)) !! a = stack m !! a).
  { intros a Ha. rewrite lookup_insert_ne by lia. apply Hk. lia. }
  split; [rewrite Hs by lia; exact Hb|]. intros i r Hi. pose proof (lookup_lt_Some _ _ _ Hi) as Hlt. change (length (rev callee_saved)) with 6%nat in Hlt.
  rewrite Hs by lia. exact (Hregs i r Hi).
Qed.

Lemma switched_waits back old new m : (old + 8 ≤ rsp m - 56 ∨ rsp m ≤ old) → waits (stack (call_switch back old new m)) (rsp m - 56) back (gpr m).
Proof.
  intros Ho. destruct (switch_run back old new m) as [-> _]. destruct (push_all_spec (saved_words back m) m) as (_ & _ & Hv & _).
  assert (Hw : ∀ i w, (i < 7)%nat → saved_words back m !! (6 - i)%nat = Some w →
    <[old := rsp m - 56]> (stack (push_all (saved_words back m) m)) !! (rsp m - 56 + 8 * Z.of_nat i) = Some w).
  { intros i w Hi Hiw. rewrite lookup_insert_ne by lia. rewrite <- (Hv _ _ Hiw). f_equal. lia. }
  split; [apply (Hw 6%nat); [lia|reflexivity]|]. intros i r Hi. pose proof (lookup_lt_Some _ _ _ Hi) as Hlt. change (length (rev callee_saved)) with 6%nat in Hlt.
  apply Hw; [lia|]. do 6 (destruct i as [|i]; [cbn in Hi; injection Hi as <-; reflexivity|]). lia.
Qed.

(** C31: A thread that calls [switch_context] goes on, whenever another thread
    later switches back to the stack pointer that was stored, at its return
    address with its stack pointer and the registers a callee saves as they
    were.  The threads in between may do anything but write to the saved
    words, and the one that switches back runs on another stack. *)
Theorem switch_resumes back old new m n back' old' :
  (old + 8 ≤ rsp m - 56 ∨ rsp m ≤ old) → (old' + 8 ≤ rsp m - 56 ∨ rsp m ≤ old') → (rsp n ≤ rsp m - 56 ∨ rsp m ≤ rsp n - 56) →
  (∀ a, a = old ∨ rsp m - 56 ≤ a < rsp m → stack n !! a = stack (call_switch back old new m) !! a) →
  let m2 := call_switch back' old' (load n old) n in
  rip m2 = back ∧ rsp m2 = rsp m ∧ ∀ r, r ∈ callee_saved → gpr m2 r = gpr m r.
Proof.
  intros Ho Ho' Hn Hs. cbv zeta. pose proof (switched_waits back old new m Ho) as [Hb Hregs].
  assert (E : load n old = rsp m - 56). { unfold load. rewrite Hs by lia. destruct (switch_run back old new m) as [-> _]. by rewrite lookup_insert_eq. }
  rewrite E. assert (Hw : waits (stack n) (rsp m - 56) back (gpr m)).
  { split; [rewrite Hs by lia; exact Hb|]. intros i r Hi. pose proof (lookup_lt_Some _ _ _ Hi) as Hlt. change (length (rev callee_saved)) with 6%nat in Hlt.
    rewrite Hs by lia. exact (Hregs i r Hi). }
  destruct (switch_to back' old' (rsp m - 56) n back (gpr m) Hw) as (H1 & H2 & H3); [lia|lia|]. split_and!; [exact H1|lia|exact H3].
Qed.

Lemma insert_at (s : gmap Z Z) a b v : a = b → <[a := v]> s !! b = Some v.
Proof. intros ->. apply lookup_insert_eq. Qed.
Ltac at_word := repeat first [apply insert_at; lia | rewrite lookup_insert_ne by lia].

Lemma initial_waits top entry tramp s : waits (initial_frame top entry tramp s) (top - 56) tramp (λ r, if decide (r = R12) then entry else 0).
Proof.
  unfold initial_frame, waits. change (seqZ 0 7) with [0; 1; 2; 3; 4; 5; 6]. cbn [foldl]. split; [at_word|].
  intros i r Hi. pose proof (lookup_lt_Some _ _ _ Hi) as Hlt. change (length (rev callee_saved)) with 6%nat in Hlt.
  do 6 (destruct i as [|i]; [cbn in Hi; injection Hi as <-; cbn [decide]; first [rewrite decide_True by done | rewrite decide_False by done]; at_word|]). lia.
Qed.

(** The first switch to a new thread reaches [thread_trampoline] with an empty
    stack, which calls [thread_start] with the entry point. *)
Theorem thread_starts back old top entry tramp s n :
  (rsp n ≤ top - 56 ∨ top ≤ rsp n - 56) → (old + 8 ≤ top - 56 ∨ top ≤ old) →
  (∀ a, top - 56 ≤ a < top → stack n !! a = initial_frame top entry tramp s !! a) →
  let m2 := call_switch back old (top - 56) n in
  rip m2 = tramp ∧ rsp m2 = top ∧ gpr (run thread_trampoline m2) RDI = entry.
Proof.
  intros Hn Ho Hs. cbv zeta. destruct (initial_waits top entry tramp s) as [Hb Hregs].
  destruct (switch_to back old (top - 56) n tramp (λ r, if decide (r = R12) then entry else 0)) as (H1 & H2 & H3); [|lia|lia|].
  { split; [rewrite Hs by lia; exact Hb|]. intros i r Hi. pose proof (lookup_lt_Some _ _ _ Hi) as Hlt. change (length (rev callee_saved)) with 6%nat in Hlt.
    rewrite Hs by lia. exact (Hregs i r Hi). }
  split_and!; [exact H1|lia|]. cbn [thread_trampoline run foldl step]. cbn [set_gpr gpr]. rewrite decide_True by done.
  rewrite H3 by by apply (bool_decide_unpack _). done.
Qed.

(** Two threads, on stacks at 0x20000 and 0x30000. *)
Definition demo_thread (top v : Z) (s : gmap Z Z) : Machine := mkMachine (λ _, v) (top - 16) 0 KERNEL_CS 0x202 KERNEL_DS s.
Lemma demo_stack top v s : stack (demo_thread top v s) = s.
Proof. done. Qed.
Definition demo_first : Machine := demo_thread 0x20000 7 (initial_frame 0x30000 0x5000 0x6000 ∅).
Definition demo_second : Machine := demo_thread 0x30000 8 (stack (call_switch 0x7000 0x9000 (0x30000 - 56) demo_first)).
Lemma switch_resumes_witness : let m2 := call_switch 0x7008 0x9008 (load demo_second 0x9000) demo_second in
  rip m2 = 0x7000 ∧ rsp m2 = rsp demo_first ∧ gpr m2 RBX = gpr demo_first RBX.
Proof.
  cbv zeta. destruct (switch_resumes 0x7000 0x9000 (0x30000 - 56) demo_first demo_second 0x7008 0x9008) as (H1 & H2 & H3).
  - unfold demo_first, demo_thread. cbn [rsp]. lia.
  - unfold demo_first, demo_thread. cbn [rsp]. lia.
  - unfold demo_first, demo_second, demo_thread. cbn [rsp]. lia.
  - intros a _. unfold demo_second at 1. rewrite demo_stack. reflexivity.
  - split_and!; [exact H1|exact H2|]. apply H3. by apply (bool_decide_unpack _).
Defined.

(** ** The first step into user mode *)
Lemma xor_all rs : ∀ m, let m' := run (map Xor rs) m in
  rsp m' = rsp m ∧ stack m' = stack m ∧ (∀ r, r ∈ rs → gpr m' r = 0) ∧ ∀ r, gpr m r = 0 → gpr m' r = 0.
Proof.
  induction rs as [|x rs IH]; intros m; cbv zeta; [split_and!; try done; intros r Hr; by apply elem_of_nil in Hr|].
  change (run (map Xor (x :: rs)) m) with (run (map Xor rs) (set_gpr x 0 m)). destruct (IH (set_gpr x 0 m)) as (-> & -> & H1 & H2).
  assert (Hx : ∀ r, r = x ∨ gpr m r = 0 → gpr (set_gpr x 0 m) r = 0) by (intros r Hr; cbn [set_gpr gpr]; case_decide; naive_solver).
  split_and!; [done|done| |]; [intros r [->|Hr]%elem_of_cons|intros r Hr]; eauto.
Qed.

(** The program starts at its entry point and stack, in user mode with
    interrupts on, and sees zeros in all registers. *)
Theorem user_mode_entered entry user_rsp m : let m' := enter_user_mode entry user_rsp m in
  rip m' = entry ∧ rsp m' = user_rsp ∧ cs m' = Z.lor USER_CS 3 ∧ ss m' = Z.lor USER_DS 3 ∧ rflags m' = Z.lor (rflags m) 0x200 ∧ ∀ r, gpr m' r = 0.
Proof.
  cbv zeta. unfold enter_user_mode, enter_user_mode_asm. rewrite run_app. set (m0 := set_gpr RDI entry _).
  assert (Hw : ∃ m1, run [Plain (Push RCX); Plain (Push RSI); Pushfq; Plain (Pop RAX); OrImm RAX 0x200; Plain (Push RAX); Plain (Push RDX); Plain (Push RDI)] m0 = m1 ∧
    word m1 0 = entry ∧ word m1 1 = Z.lor USER_CS 3 ∧ word m1 2 = Z.lor (rflags m) 0x200 ∧ word m1 3 = user_rsp ∧ word m1 4 = Z.lor USER_DS 3).
  { eexists. split; [reflexivity|]. unfold m0. cbn [run foldl step exec1]. unfold word. cbn [set_gpr set_rsp push rsp gpr stack rflags].
    repeat (first [rewrite decide_True by done | rewrite decide_False by done]).
    rewrite (insert_at _ (rsp m - 8 - 8 - 8) (rsp m - 8 - 8 - 8 + 8 * 0)) by lia. change (default 0 (Some (rflags m))) with (rflags m).
    generalize (Z.lor (rflags m) 0x200) (Z.lor USER_DS 3) (Z.lor USER_CS 3). intros fl ds cs'.
    split_and!; apply (f_equal (default 0) (y := Some _)); at_word. }
  destruct Hw as (m1 & -> & Hw). destruct (xor_all all_regs m1) as (Hr & Hs & Hz & _).
  unfold iretq. cbn [rip rsp cs ss rflags gpr]. unfold word in *. rewrite Hr, Hs. destruct Hw as (E0 & E1 & E2 & E3 & E4). split_and!; try assumption.
  intros r. apply Hz. destruct r; by apply (bool_decide_unpack _).
Qed.
