(* ===== verification/VirtioGpu.v ===== *)
(** * The display: [drivers/virtio_gpu.rs]

    The driver for the VirtIO GPU: finding it on the PCI bus, its
    capabilities, its queue in shared memory, and the commands that create,
    back, transfer and flush one image.  The device is a parameter ([Hw]); the
    driver's own structure is part of the state, so what a call changes before
    it fails stays changed.  A [None] or [false] in the middle of a function is
    an error of the monad.  Memory is addressed physically, fences are left
    out: every access is a step of its own. *)
From stdpp Require Import base numbers list gmap.
From Stdlib Require Import ZArith Lia Bool.
From S2P Require Import Prelude Bytes Mem Pmm Vmm Hw Hid Xhci Pci.

Module VirtioGpu.

Definition PCI_VENDOR_VIRTIO : Z := 0x1af4.
Definition PCI_DEVICE_GPU : Z := 0x1050.
Definition PCI_CAP_VENDOR : Z := 0x09.
Definition VIRTIO_F_VERSION_1 : Z := Z.shiftl 1 32.
Definition STATUS_ACKNOWLEDGE : Z := 1.
Definition STATUS_DRIVER : Z := 2.
Definition STATUS_DRIVER_OK : Z := 4.
Definition STATUS_FEATURES_OK : Z := 8.
Definition STATUS_FAILED : Z := 128.
Definition CAP_COMMON : Z := 1.
Definition CAP_NOTIFY : Z := 2.
Definition CAP_DEVICE : Z := 4.
Definition QUEUE_SIZE : Z := 64.
Definition RESOURCE_ID : Z := 1.
Definition PIXEL_FORMAT_B8G8R8X8_UNORM : Z := 2.
Definition MAX_WIDTH : Z := 4096.
Definition MAX_HEIGHT : Z := 2160.
Definition GPU_CMD_GET_DISPLAY_INFO : Z := 0x0100.
Definition GPU_CMD_RESOURCE_CREATE_2D : Z := 0x0101.
Definition GPU_CMD_SET_SCANOUT : Z := 0x0103.
Definition GPU_CMD_RESOURCE_FLUSH : Z := 0x0104.
Definition GPU_CMD_TRANSFER_TO_HOST_2D : Z := 0x0105.
Definition GPU_CMD_RESOURCE_ATTACH_BACKING : Z := 0x0106.
Definition GPU_RESP_OK_NODATA : Z := 0x1100.
Definition GPU_RESP_OK_DISPLAY_INFO : Z := 0x1101.
Definition DESC_NEXT : Z := 1.
Definition DESC_WRITE : Z := 2.
Definition COMMAND_PAGE_BYTES : Z := 4096.
Definition REQUEST_OFFSET : Z := 0.
Definition RESPONSE_OFFSET : Z := 2048.
Definition RESPONSE_CAPACITY : Z := COMMAND_PAGE_BYTES - RESPONSE_OFFSET.

Record PciRegion := mkRegion { base : Z; offset : Z; rlength : Z }.
Definition no_region : PciRegion := mkRegion 0 0 0.
Record VirtioCaps := mkCaps { caps_common : PciRegion; caps_notify : PciRegion; caps_multiplier : Z; caps_device : PciRegion }.
Record Descriptor := mkDesc { address : Z; dlength : Z; dflags : Z; next : Z }.
Definition desc_bytes (d : Descriptor) : list Z := le_bytes 8 (address d) ++ le_bytes 4 (dlength d) ++ le_bytes 2 (dflags d) ++ le_bytes 2 (next d).

Record VirtQueue := mkQueue { memory_ : Z; size : Z; avail_offset : Z; used_offset : Z; avail_index : Z; used_index : Z }.
Record Driver := mkDriver {
  queue : VirtQueue; command : Z; framebuffer : Z;
  width : Z; height : Z; pitch : Z;
  common : Z; notify : Z; notify_multiplier : Z; notify_length : Z; notify_offset : Z
}.
Definition set_queue (q : VirtQueue) (d : Driver) : Driver :=
  mkDriver q (command d) (framebuffer d) (width d) (height d) (pitch d) (common d) (notify d) (notify_multiplier d) (notify_length d) (notify_offset d).
Definition set_notify_offset (n : Z) (d : Driver) : Driver :=
  mkDriver (queue d) (command d) (framebuffer d) (width d) (height d) (pitch d) (common d) (notify d) (notify_multiplier d) (notify_length d) n.
Definition set_mode (w h p fb : Z) (d : Driver) : Driver :=
  mkDriver (queue d) (command d) fb w h p (common d) (notify d) (notify_multiplier d) (notify_length d) (notify_offset d).
Definition set_size (n : Z) (q : VirtQueue) : VirtQueue := mkQueue (memory_ q) n (avail_offset q) (used_offset q) (avail_index q) (used_index q).
Definition set_avail (n : Z) (q : VirtQueue) : VirtQueue := mkQueue (memory_ q) (size q) (avail_offset q) (used_offset q) n (used_index q).
Definition set_used (n : Z) (q : VirtQueue) : VirtQueue := mkQueue (memory_ q) (size q) (avail_offset q) (used_offset q) (avail_index q) n.

Definition avail_index_ptr (q : VirtQueue) : Z := memory_ q + avail_offset q + 2.
Definition avail_ring_ptr (q : VirtQueue) (i : Z) : Z := memory_ q + (avail_offset q + 4 + i * 2).
Definition used_index_ptr (q : VirtQueue) : Z := memory_ q + used_offset q + 2.
Definition descriptor (q : VirtQueue) (i : Z) : Z := memory_ q + i * 16.

(** [usize] arithmetic that gives [None]; [alignment] is a power of two. *)
Definition align_up (value alignment : Z) : option Z :=
  v ← checked_add value (alignment - 1); Some (Z.land v (not64 (alignment - 1))).

(** ** Commands, as bytes *)

(** [buf[at..].copy_from_slice(bs)] in range. *)
Definition put (at_ : nat) (bs : list Z) (buf : list Z) : list Z := take at_ buf ++ bs ++ drop (at_ + length bs) buf.
Definition command_header (cmd : Z) (buf : list Z) : list Z := put 0 (le_bytes 4 cmd) (put 0 (replicate 24 0) buf).
Definition zeros (n : nat) : list Z := replicate n 0.

Definition display_info_request : list Z := command_header GPU_CMD_GET_DISPLAY_INFO (zeros 24).
Definition create_request (w h : Z) : list Z :=
  take 40 (put 36 (le_bytes 4 h) (put 32 (le_bytes 4 w) (put 28 (le_bytes 4 PIXEL_FORMAT_B8G8R8X8_UNORM)
    (put 24 (le_bytes 4 RESOURCE_ID) (command_header GPU_CMD_RESOURCE_CREATE_2D (zeros 48)))))).
Definition attach_request (fb bytes : Z) : list Z :=
  put 40 (le_bytes 4 bytes) (put 32 (le_bytes 8 fb) (put 28 (le_bytes 4 1)
    (put 24 (le_bytes 4 RESOURCE_ID) (command_header GPU_CMD_RESOURCE_ATTACH_BACKING (zeros 48))))).
Definition scanout_request (w h : Z) : list Z :=
  put 44 (le_bytes 4 RESOURCE_ID) (put 40 (le_bytes 4 0) (put 36 (le_bytes 4 h)
    (put 32 (le_bytes 4 w) (command_header GPU_CMD_SET_SCANOUT (zeros 48))))).
Definition put_rect (x y w h : Z) (buf : list Z) : list Z :=
  put 36 (le_bytes 4 h) (put 32 (le_bytes 4 w) (put 28 (le_bytes 4 y) (put 24 (le_bytes 4 x) buf))).
Definition transfer_request (x y w h : Z) : list Z :=
  put 48 (le_bytes 4 RESOURCE_ID) (put_rect x y w h (command_header GPU_CMD_TRANSFER_TO_HOST_2D (zeros 56))).
Definition flush_request (x y w h : Z) : list Z :=
  put 40 (le_bytes 4 RESOURCE_ID) (put_rect x y w h (command_header GPU_CMD_RESOURCE_FLUSH (zeros 48))).

Section Gpu.
Context {D : Type} `{Hw D} (fuel : nat).
Notation HM := (M (D * Vmm.VState) unit).
Notation G := (M (D * Vmm.VState * Driver) unit).
Notation ensure := Xhci.ensure.
Notation or_return := Xhci.or_return.

(** ** Finding the device *)
Fixpoint find_function (b d : Z) (fs : list Z) : HM (option Pci.PciLocation) :=
  match fs with
  | [] => ret None
  | f :: fs =>
      let candidate := Pci.mkLoc b d f in
      let! id := Pci.read_config32 candidate 0 in
      if (wrap16 id =? PCI_VENDOR_VIRTIO) && (wrap16 (Z.shiftr id 16) =? PCI_DEVICE_GPU) then ret (Some candidate)
      else find_function b d fs
  end.

Fixpoint find_in (slots : list (Z * Z)) : HM (option Pci.PciLocation) :=
  match slots with
  | [] => ret None
  | (b, d) :: slots =>
      let location := Pci.mkLoc b d 0 in
      let! id := Pci.read_config32 location 0 in
      if negb (wrap16 id =? PCI_VENDOR_VIRTIO) then find_in slots
      else
        let! h := Pci.read_config32 location 0x0c in
        let header := wrap8 (Z.shiftr h 16) in
        let functions := if negb (Z.land header 0x80 =? 0) then 8 else 1 in
        let! found := find_function b d (seqZ 0 functions) in
        match found with Some c => ret (Some c) | None => find_in slots end
  end.
Definition find_gpu : HM (option Pci.PciLocation) := find_in Pci.slots.

Definition bar_base (location : Pci.PciLocation) (bar : Z) : HM Z :=
  ensure (bar <? 6) ;;!
  let! low := Pci.read_config32 location (0x10 + bar * 4) in
  ensure (Z.land low 1 =? 0) ;;!
  let kind := Z.land (Z.shiftr low 1) 3 in
  let address := andnot low 0xf in
  if kind =? 2 then
    ensure (bar <? 5) ;;!
    let! high := Pci.read_config32 location (0x10 + (bar + 1) * 4) in
    ret (Z.lor address (Z.shiftl high 32))
  else if kind =? 0 then ret address
  else fail tt.

(** An offset in configuration space, a byte. *)
Definition add8 (a b : Z) : HM Z := if a + b <? 256 then ret (a + b) else panic.

Definition parse_cap (location : Pci.PciLocation) (pointer header : Z) (caps : VirtioCaps) : HM VirtioCaps :=
  let cap_type := wrap8 (Z.shiftr header 24) in
  let len := wrap8 (Z.shiftr header 16) in
  let! p := add8 pointer 4 in let! v := Pci.read_config32 location p in let bar := wrap8 v in
  let! p := add8 pointer 8 in let! off := Pci.read_config32 location p in
  let! p := add8 pointer 12 in let! region_length := Pci.read_config32 location p in
  let! b := bar_base location bar in
  let region := mkRegion b off region_length in
  if cap_type =? CAP_COMMON then ret (mkCaps region (caps_notify caps) (caps_multiplier caps) (caps_device caps))
  else if cap_type =? CAP_DEVICE then ret (mkCaps (caps_common caps) (caps_notify caps) (caps_multiplier caps) region)
  else if (cap_type =? CAP_NOTIFY) && (20 <=? len) then
    let! p := add8 pointer 16 in let! mul := Pci.read_config32 location p in
    ret (mkCaps (caps_common caps) region mul (caps_device caps))
  else ret caps.

Fixpoint caps_loop (visits : nat) (location : Pci.PciLocation) (pointer : Z) (caps : VirtioCaps) : HM VirtioCaps :=
  match visits with
  | O => ret caps
  | S visits =>
      if pointer <? 0x40 then ret caps
      else
        let! header := Pci.read_config32 location pointer in
        let id := wrap8 header in
        let nxt := wrap8 (Z.shiftr header 8) in
        let len := wrap8 (Z.shiftr header 16) in
        let! caps := (if (id =? PCI_CAP_VENDOR) && (16 <=? len) then parse_cap location pointer header caps else ret caps) in
        if nxt =? 0 then ret caps else caps_loop visits location (Z.land nxt 0xfc) caps
  end.

Definition parse_caps (location : Pci.PciLocation) : HM VirtioCaps :=
  let! status := Pci.read_config32 location 0x04 in
  ensure (negb (Z.land status (Z.shiftl 1 20) =? 0)) ;;!
  let! v := Pci.read_config32 location 0x34 in
  let! caps := caps_loop 48 location (Z.land v 0xfc) (mkCaps no_region no_region 0 no_region) in
  ensure (negb ((base (caps_common caps) =? 0) || (rlength (caps_common caps) <? 56) || (base (caps_notify caps) =? 0)
    || (caps_multiplier caps =? 0) || (base (caps_device caps) =? 0) || (rlength (caps_device caps) <? 12))) ;;!
  ret caps.

Definition map_region (region : PciRegion) : HM Z :=
  ensure (offset region + rlength region <=? u32_max) ;;!
  ensure (negb ((base region =? 0) || (rlength region =? 0))) ;;!
  let! phys := or_return (checked_add (base region) (offset region)) in
  on_vmm (Vmm.map_mmio phys (rlength region)).

Definition allocate_dma (pages : Z) : HM Z :=
  let! o := on_pmm (alloc_contiguous pages) in
  let! physical := or_return o in
  let! n := or_return (checked_mul pages PAGE_SIZE) in
  mem_set (λ m, fill_bytes m physical 0 n) ;;!
  ret physical.

Definition VirtQueue_new : HM VirtQueue :=
  let desc_bytes := QUEUE_SIZE * 16 in
  let avail_offset := desc_bytes in
  let avail_bytes := 4 + QUEUE_SIZE * 2 in
  let! t := or_return (checked_add avail_offset avail_bytes) in
  let! used_offset := or_return (align_up t PAGE_SIZE) in
  let used_bytes := 4 + QUEUE_SIZE * 8 in
  let! t := or_return (checked_add used_offset used_bytes) in
  let! t := or_return (align_up t PAGE_SIZE) in
  let! memory := allocate_dma (t / PAGE_SIZE) in
  ret (mkQueue memory QUEUE_SIZE avail_offset used_offset 0 0).

(** ** The queue *)
Definition on_hw {A} (m : HM A) : G A := λ s, let '(r, e) := m s.1 in (r, (e, s.2)).
Definition get_driver : G Driver := λ s, (Ok s.2, s).
Definition set_driver (f : Driver → Driver) : G unit := λ s, (Ok tt, (s.1, f s.2)).

Definition set_status (value : Z) : G unit := let! d := get_driver in on_hw (reg_write 1 (common d + 20) value).
Definition read_status : G Z := let! d := get_driver in on_hw (reg_read 1 (common d + 20)).

Definition is_power_of_two (n : Z) : bool := (0 <? n) && (Z.land n (n - 1) =? 0).

Definition init_queue : G bool :=
  let! d := get_driver in
  let c := common d in
  on_hw (reg_write 2 (c + 22) 0) ;;!
  let! max_size := on_hw (reg_read 2 (c + 24)) in
  if max_size <? 2 then ret false
  else
    let size := Z.min max_size QUEUE_SIZE in
    if negb (is_power_of_two size) then ret false
    else
      set_driver (λ d, set_queue (set_size size (queue d)) d) ;;!
      on_hw (reg_write 2 (c + 24) size) ;;!
      let! notify_offset := on_hw (reg_read 2 (c + 30)) in
      let notify_byte_offset := notify_offset * notify_multiplier d in
      if notify_length d <? notify_byte_offset + 2 then ret false
      else
        set_driver (set_notify_offset notify_offset) ;;!
        on_hw (reg_write 8 (c + 32) (memory_ (queue d))) ;;!
        on_hw (reg_write 8 (c + 40) (memory_ (queue d) + avail_offset (queue d))) ;;!
        on_hw (reg_write 8 (c + 48) (memory_ (queue d) + used_offset (queue d))) ;;!
        on_hw (reg_write 2 (c + 28) 1) ;;!
        let! v := on_hw (reg_read 2 (c + 28)) in
        ret (v =? 1).

(** The loop of [submit], with the spins that are left. *)
Fixpoint wait_used (n : nat) (spins : Z) : G unit :=
  let! d := get_driver in
  let! idx := on_hw (mem_volatile (λ m, read16 m (used_index_ptr (queue d)))) in
  if idx =? used_index (queue d) then
    if spins =? 0 then fail tt
    else match n with O => diverge | S n => wait_used n (spins - 1) end
  else ret tt.

Definition SPINS : Z := 20000000.

Definition submit (request : list Z) (expected_response response_size : Z) : G Z :=
  let len := Z.of_nat (length request) in
  ensure (negb ((RESPONSE_OFFSET <? len) || (RESPONSE_CAPACITY <? response_size) || (len <? 24))) ;;!
  let! d := get_driver in
  let cmd := command d in
  let q := queue d in
  on_hw (mem_set (λ m, write_bytes (fill_bytes m cmd 0 COMMAND_PAGE_BYTES) (cmd + REQUEST_OFFSET) request)) ;;!
  on_hw (mem_set (λ m, write_bytes m (descriptor q 0) (desc_bytes (mkDesc (cmd + REQUEST_OFFSET) len DESC_NEXT 1)))) ;;!
  on_hw (mem_set (λ m, write_bytes m (descriptor q 1) (desc_bytes (mkDesc (cmd + RESPONSE_OFFSET) response_size DESC_WRITE 0)))) ;;!
  let ring_slot := avail_index q mod size q in
  on_hw (mem_set (λ m, write_bytes m (avail_ring_ptr q ring_slot) (le_bytes 2 0))) ;;!
  set_driver (λ d, set_queue (set_avail (wrap16 (avail_index q + 1)) (queue d)) d) ;;!
  on_hw (mem_set (λ m, write_bytes m (avail_index_ptr q) (le_bytes 2 (wrap16 (avail_index q + 1))))) ;;!
  on_hw (reg_write 2 (notify d + notify_offset d * notify_multiplier d) 0) ;;!
  wait_used fuel SPINS ;;!
  let used_slot := used_index q mod size q in
  let! used_len := on_hw (mem_volatile (λ m, read32 m (memory_ q + (used_offset q + 4 + used_slot * 8 + 4)))) in
  set_driver (λ d, set_queue (set_used (wrap16 (used_index q + 1)) (queue d)) d) ;;!
  let! response_type := on_hw (mem_get (λ m, read32 m (cmd + RESPONSE_OFFSET))) in
  ensure (response_type =? expected_response) ;;!
  ret used_len.

(** [.is_some()] and [.is_none()]. *)
Definition succeeded {A} (m : G A) : G bool := let! r := catch m in ret (match r with inl _ => true | inr _ => false end).

Definition get_display_info : G (Z * Z) :=
  let! response_len := submit display_info_request GPU_RESP_OK_DISPLAY_INFO RESPONSE_CAPACITY in
  ensure (negb (response_len <? 48)) ;;!
  let! d := get_driver in
  let response := command d + RESPONSE_OFFSET in
  let! enabled := on_hw (mem_get (λ m, read32 m (response + 24 + 16))) in
  let! w := on_hw (mem_get (λ m, read32 m (response + 24 + 8))) in
  let! h := on_hw (mem_get (λ m, read32 m (response + 24 + 12))) in
  ensure (negb ((enabled =? 0) || (w =? 0) || (h =? 0))) ;;!
  ret (w, h).

Definition setup_resource : G bool :=
  let! d := get_driver in
  let! ok := succeeded (submit (create_request (width d) (height d)) GPU_RESP_OK_NODATA 24) in
  if negb ok then ret false
  else
    let bytes := pitch d * height d in
    if u32_max <? bytes then ret false
    else
      let! ok := succeeded (submit (attach_request (framebuffer d) bytes) GPU_RESP_OK_NODATA 24) in
      if negb ok then ret false
      else succeeded (submit (scanout_request (width d) (height d)) GPU_RESP_OK_NODATA 24).

Definition present (x y w h : Z) : G bool :=
  let! d := get_driver in
  let x := Z.min x (width d) in
  let y := Z.min y (height d) in
  let w := Z.min w (width d - x) in
  let h := Z.min h (height d - y) in
  if (w =? 0) || (h =? 0) then ret true
  else
    let! ok := succeeded (submit (transfer_request x y w h) GPU_RESP_OK_NODATA 24) in
    if negb ok then ret false
    else succeeded (submit (flush_request x y w h) GPU_RESP_OK_NODATA 24).

(** ** Bringing it up *)
Definition negotiate : G unit :=
  let! d := get_driver in
  let c := common d in
  let! _ := set_status 0 in
  set_status STATUS_ACKNOWLEDGE ;;!
  set_status (Z.lor STATUS_ACKNOWLEDGE STATUS_DRIVER) ;;!
  on_hw (reg_write 1 c 0) ;;!
  let! features_low := on_hw (reg_read 4 (c + 4)) in
  on_hw (reg_write 1 c 1) ;;!
  let! features_high := on_hw (reg_read 4 (c + 4)) in
  let features := Z.lor features_low (Z.shiftl features_high 32) in
  let failed : G unit := set_status (Z.lor (Z.lor STATUS_ACKNOWLEDGE STATUS_DRIVER) STATUS_FAILED) ;;! fail tt in
  if Z.land features VIRTIO_F_VERSION_1 =? 0 then failed
  else
    on_hw (reg_write 1 (c + 8) 0) ;;!
    on_hw (reg_write 4 (c + 12) 0) ;;!
    on_hw (reg_write 1 (c + 8) 1) ;;!
    on_hw (reg_write 4 (c + 12) 1) ;;!
    set_status (Z.lor (Z.lor STATUS_ACKNOWLEDGE STATUS_DRIVER) STATUS_FEATURES_OK) ;;!
    let! status := read_status in
    let! ok := (if Z.land status STATUS_FEATURES_OK =? 0 then ret false else init_queue) in
    if negb ok then failed
    else set_status (Z.lor (Z.lor (Z.lor STATUS_ACKNOWLEDGE STATUS_DRIVER) STATUS_FEATURES_OK) STATUS_DRIVER_OK).

(** The image: its size, its memory, and the first frame. *)
Definition start_display (device : Z) : G unit :=
  let! info := catch get_display_info in
  let '(w, h) := match info with inl p => p | inr _ => (1280, 800) end in
  ensure (negb ((MAX_WIDTH <? w) || (MAX_HEIGHT <? h) || (w =? 0) || (h =? 0))) ;;!
  set_driver (λ d, set_mode w h (w * 4) (framebuffer d) d) ;;!
  let! bytes := or_return (checked_mul (w * 4) h) in
  let! t := or_return (align_up bytes PAGE_SIZE) in
  let! fb := on_hw (allocate_dma (t / PAGE_SIZE)) in
  set_driver (λ d, set_mode w h (w * 4) fb d) ;;!
  let! ok := setup_resource in
  ensure ok ;;!
  let! scanouts := on_hw (reg_read 4 (device + 8)) in
  ensure (negb (scanouts =? 0)) ;;!
  let! ok := present 0 0 w h in
  ensure ok.

Definition initialize (location : Pci.PciLocation) (caps : VirtioCaps) : HM Driver :=
  let! v := Pci.read_config32 location 0x04 in
  Pci.write_config16 location 0x04 (Z.lor (wrap16 v) 0x0006) ;;!
  let! c := map_region (caps_common caps) in
  let! n := map_region (caps_notify caps) in
  let! device := map_region (caps_device caps) in
  let! q := VirtQueue_new in
  let! cmd := allocate_dma 1 in
  let driver := mkDriver q cmd 0 0 0 0 c n (caps_multiplier caps) (rlength (caps_notify caps)) 0 in
  λ e, match (negotiate ;;! start_display device) (e, driver) with
       | (Ok _, (e, d)) => (Ok d, e)
       | (Err x, (e, _)) => (Err x, e)
       | (Panic, (e, _)) => (Panic, e)
       | (Diverge, (e, _)) => (Diverge, e)
       end.

(** ** The statics *)
Record FbInfo := mkFb { fb_addr : Z; fb_width : Z; fb_height : Z; fb_pitch : Z; fb_bpp : Z }.
Record Statics := mkStatics { GPU : option Driver; GPU_ACTIVE : bool; FRAMEBUFFER : option FbInfo }.
Notation T := (M (D * Vmm.VState * Statics) unit).

Definition use_gpu_backing (addr w h p : Z) (s : Statics) : Statics := mkStatics (GPU s) (GPU_ACTIVE s) (Some (mkFb addr w h p 32)).

Definition gpu_init : T unit := λ s,
  match catch (let! o := find_gpu in let! location := or_return o in let! caps := parse_caps location in initialize location caps) s.1 with
  | (Ok (inl driver), e) =>
      let hhdm := HHDM_OFFSET (Vmm.pst e.2) in
      let st := use_gpu_backing (hhdm + framebuffer driver) (width driver) (height driver) (pitch driver) (mkStatics (Some driver) (GPU_ACTIVE s.2) (FRAMEBUFFER s.2)) in
      (Ok tt, (e, mkStatics (GPU st) true (FRAMEBUFFER st)))
  | (Ok (inr _), e) => (Ok tt, (e, s.2))
  | (Err x, e) => (Err x, (e, s.2))
  | (Panic, e) => (Panic, (e, s.2))
  | (Diverge, e) => (Diverge, (e, s.2))
  end.

Definition present_rect (x y w h : Z) : T bool := λ s,
  if GPU_ACTIVE s.2 then
    match GPU s.2 with
    | None => (Ok false, s)
    | Some driver =>
        let '(r, (e, d)) := present x y w h (s.1, driver) in
        (match r with Ok _ => Ok true | Err x => Err x | Panic => Panic | Diverge => Diverge end,
         (e, mkStatics (Some d) (GPU_ACTIVE s.2) (FRAMEBUFFER s.2)))
    end
  else (Ok false, s).
End Gpu.
End VirtioGpu.
