(* ===== verification/GpuInv.v ===== *)
(** * What reaches the screen

    The device as the VirtIO specification describes it, for the two commands
    that [present] sends, and the theorem on what the screen shows after
    them. *)
From stdpp Require Import base numbers list gmap.
From Stdlib Require Import ZArith Lia Bool ZifyNat.
From S2P Require Import Prelude Bytes Mem Pmm Vmm Hw Hid Xhci Pci VirtioGpu.
Import VirtioGpu.

(** ** The device *)

(** One image of the device with its backing memory, and the screen. *)
Record Host := mkHost { res_width : Z; res_height : Z; backing : Z; image : Z → Z → Z; shown : Z → Z → Z }.

Definition field (req : list Z) (at_ n : nat) : Z := le_value (take n (drop at_ req)).
Definition inside (x y w h i j : Z) : bool := (x <=? i) && (i <? x + w) && (y <=? j) && (j <? y + h).

(** TRANSFER_TO_HOST_2D: a rectangle of 4 numbers, the place in the backing
    memory where its first row starts, and the image.  RESOURCE_FLUSH: a
    rectangle and the image.  Other commands are not described. *)
Definition gpu_exec (req : list Z) (m : memory) (g : Host) : option (Host * Z) :=
  let x := field req 24 4 in let y := field req 28 4 in let w := field req 32 4 in let h := field req 36 4 in
  let fits := (x + w <=? res_width g) && (y + h <=? res_height g) in
  if field req 0 4 =? GPU_CMD_TRANSFER_TO_HOST_2D then
    let start := field req 40 8 in
    if (field req 48 4 =? RESOURCE_ID) && fits then
      Some (mkHost (res_width g) (res_height g) (backing g)
        (λ i j, if inside x y w h i j then read32 m (backing g + start + (j - y) * (res_width g * 4) + (i - x) * 4) else image g i j) (shown g),
        GPU_RESP_OK_NODATA)
    else Some (g, 0x1203)
  else if field req 0 4 =? GPU_CMD_RESOURCE_FLUSH then
    if (field req 40 4 =? RESOURCE_ID) && fits then
      Some (mkHost (res_width g) (res_height g) (backing g) (image g) (λ i j, if inside x y w h i j then image g i j else shown g i j), GPU_RESP_OK_NODATA)
    else Some (g, 0x1203)
  else None.

Definition desc_at (m : memory) (a : Z) : Descriptor :=
  mkDesc (le_value (read_bytes m a 8)) (le_value (read_bytes m (a + 8) 4)) (le_value (read_bytes m (a + 12) 2)) (le_value (read_bytes m (a + 14) 2)).

(** The device takes the chain at its place [seen] of the ring, runs the
    command, and puts the answer and the chain's number where the driver
    looks. *)
Definition complete (q : VirtQueue) (seen : Z) (m : memory) (g : Host) : option (memory * Host) :=
  let head := read16 m (avail_ring_ptr q (seen mod size q)) in
  let d0 := desc_at m (descriptor q head) in
  let d1 := desc_at m (descriptor q (next d0)) in
  '(g, resp) ← gpu_exec (read_bytes m (address d0) (Z.to_nat (dlength d0))) m g;
  let m := write_bytes m (address d1) (le_bytes 4 resp ++ replicate 20 0) in
  let u := read16 m (used_index_ptr q) in
  let m := write_bytes m (memory_ q + (used_offset q + 4 + u mod size q * 8)) (le_bytes 4 head ++ le_bytes 4 24) in
  Some (write_bytes m (used_index_ptr q) (le_bytes 2 (wrap16 (u + 1))), g).

Section Laws.
Context {D : Type} `{Hw D}.
(** The device's image and screen, its place in the ring, and for how many
    more looks it keeps the driver waiting. *)
Context (host : D → Host) (seen : D → Z) (delay : D → nat).
(** The queue, the command page, the image memory and the notify register. *)
Context (B n C F Wd Ht N : Z).
Notation Env := (D * Vmm.VState)%type.
Definition Q (i : Z) : VirtQueue := mkQueue B n 1024 4096 i i.

Record gpu_laws (limit : nat) : Prop := {
  law_notify : ∀ v (e : Env), let e' := hw_write 2 N v e in
    e'.2 = e.2 ∧ host e'.1 = host e.1 ∧ seen e'.1 = seen e.1 ∧ (delay e'.1 ≤ limit)%nat;
  law_idle : ∀ (e : Env), read16 (memory_of e) (avail_index_ptr (Q 0)) = seen e.1 →
    (hw_run e).2 = e.2 ∧ host (hw_run e).1 = host e.1 ∧ seen (hw_run e).1 = seen e.1;
  law_wait : ∀ (e : Env) k, read16 (memory_of e) (avail_index_ptr (Q 0)) ≠ seen e.1 → delay e.1 = S k →
    (hw_run e).2 = e.2 ∧ host (hw_run e).1 = host e.1 ∧ seen (hw_run e).1 = seen e.1 ∧ delay (hw_run e).1 = k;
  law_complete : ∀ (e : Env) m g, read16 (memory_of e) (avail_index_ptr (Q 0)) ≠ seen e.1 → delay e.1 = O →
    complete (Q 0) (seen e.1) (memory_of e) (host e.1) = Some (m, g) →
    (hw_run e).2 = (set_memory m e).2 ∧ host (hw_run e).1 = g ∧ seen (hw_run e).1 = wrap16 (seen e.1 + 1)
}.

(** Where things are: apart from each other, and addresses fit. *)
Record placed : Prop := {
  pl_size : 0 < n ≤ 64;
  pl_bounds : 0 ≤ B ∧ 0 ≤ C ∧ C + 4096 ≤ 2^64;
  pl_dims : 0 ≤ Wd < 2^32 ∧ 0 ≤ Ht < 2^32;
  pl_bc : B + 8192 ≤ C ∨ C + 4096 ≤ B;
  pl_bf : B + 8192 ≤ F ∨ F + Wd * 4 * Ht ≤ B;
  pl_cf : C + 4096 ≤ F ∨ F + Wd * 4 * Ht ≤ C
}.

(** The driver between two commands. *)
Record ready (e : Env) (d : Driver) (i : Z) : Prop := {
  rd_queue : queue d = Q i;
  rd_index : 0 ≤ i < 65536;
  rd_seen : seen e.1 = i;
  rd_avail : read16 (memory_of e) (avail_index_ptr (Q 0)) = i;
  rd_used : read16 (memory_of e) (used_index_ptr (Q 0)) = i;
  rd_command : command d = C;
  rd_notify : notify d + notify_offset d * notify_multiplier d = N;
  rd_mode : framebuffer d = F ∧ width d = Wd ∧ height d = Ht;
  rd_host : res_width (host e.1) = Wd ∧ res_height (host e.1) = Ht ∧ backing (host e.1) = F
}.

(** The image memory is the same. *)
Definition same_pixels (m m' : memory) : Prop := ∀ a, F ≤ a < F + Wd * 4 * Ht → read8 m' a = read8 m a.
End Laws.

(** ** Memory *)
Lemma read16_write m a v : 0 ≤ v < 65536 → read16 (write_bytes m a (le_bytes 2 v)) a = v.
Proof. intros Hv. unfold read16. pose proof (read_write_bytes_eq m a (le_bytes 2 v)) as E. rewrite length_le_bytes in E. rewrite E. apply le_value_bytes. lia. Qed.
Lemma read16_other m a bs b : b + 2 ≤ a ∨ a + Z.of_nat (length bs) ≤ b → read16 (write_bytes m a bs) b = read16 m b.
Proof. intros Ha. unfold read16. by rewrite read_write_bytes_ne. Qed.

Definition desc_ok (d : Descriptor) : Prop := 0 ≤ address d < 2^64 ∧ 0 ≤ dlength d < 2^32 ∧ 0 ≤ dflags d < 65536 ∧ 0 ≤ next d < 65536.
Lemma length_desc d : length (desc_bytes d) = 16%nat.
Proof. done. Qed.

Lemma read_piece m a pre bs post : read_bytes (write_bytes m a (pre ++ bs ++ post)) (a + Z.of_nat (length pre)) (length bs) = bs.
Proof.
  apply list_eq. intros i. destruct (decide (i < length bs)%nat).
  - rewrite lookup_read_bytes, read8_write_bytes by done. rewrite !length_app, decide_True by lia.
    replace (Z.to_nat (a + Z.of_nat (length pre) + Z.of_nat i - a)) with (length pre + i)%nat by lia.
    rewrite lookup_total_app_r by lia. replace (length pre + i - length pre)%nat with i by lia. rewrite lookup_total_app_l by done. symmetry. by apply list_lookup_lookup_total_lt.
  - rewrite !lookup_ge_None_2; [done|lia|rewrite length_read_bytes; lia].
Qed.

Lemma desc_at_write m a d : desc_ok d → desc_at (write_bytes m a (desc_bytes d)) a = d.
Proof.
  intros (Ha & Hl & Hf & Hn). destruct d as [ad le fl nx]. cbn in Ha, Hl, Hf, Hn. unfold desc_at, desc_bytes. cbn [address dlength dflags next].
  pose proof (read_piece m a [] (le_bytes 8 ad) (le_bytes 4 le ++ le_bytes 2 fl ++ le_bytes 2 nx)) as E1.
  pose proof (read_piece m a (le_bytes 8 ad) (le_bytes 4 le) (le_bytes 2 fl ++ le_bytes 2 nx)) as E2.
  pose proof (read_piece m a (le_bytes 8 ad ++ le_bytes 4 le) (le_bytes 2 fl) (le_bytes 2 nx)) as E3.
  pose proof (read_piece m a (le_bytes 8 ad ++ le_bytes 4 le ++ le_bytes 2 fl) (le_bytes 2 nx) []) as E4.
  rewrite <- !app_assoc in E3. rewrite app_nil_r, <- !app_assoc in E4. rewrite !length_app, !length_le_bytes in *. cbn [length app] in E1.
  change (Z.of_nat 0) with 0 in E1. rewrite Z.add_0_r in E1.
  change (a + Z.of_nat 8) with (a + 8) in E2. change (a + Z.of_nat (8 + 4)) with (a + 12) in E3. change (a + Z.of_nat (8 + (4 + 2))) with (a + 14) in E4.
  rewrite E1, E2, E3, E4, !le_value_bytes by lia. done.
Qed.

Lemma desc_at_other m a bs b : b + 16 ≤ a ∨ a + Z.of_nat (length bs) ≤ b → desc_at (write_bytes m a bs) b = desc_at m b.
Proof. intros Ha. unfold desc_at. rewrite !read_write_bytes_ne by lia. done. Qed.

(** ** One command *)
Section Command.
Context (B n C F Wd Ht : Z) (P : placed B n C F Wd Ht).
Notation Q := (Q B n).
Notation same_pixels := (same_pixels F Wd Ht).

(** What [submit] writes before it notifies the device. *)
Definition driver_writes (req : list Z) (i rsize : Z) (m : memory) : memory :=
  let len := Z.of_nat (length req) in
  let m := write_bytes (fill_bytes m C 0 COMMAND_PAGE_BYTES) (C + REQUEST_OFFSET) req in
  let m := write_bytes m (descriptor (Q i) 0) (desc_bytes (mkDesc (C + REQUEST_OFFSET) len DESC_NEXT 1)) in
  let m := write_bytes m (descriptor (Q i) 1) (desc_bytes (mkDesc (C + RESPONSE_OFFSET) rsize DESC_WRITE 0)) in
  let m := write_bytes m (avail_ring_ptr (Q i) (i mod n)) (le_bytes 2 0) in
  write_bytes m (avail_index_ptr (Q i)) (le_bytes 2 (wrap16 (i + 1))).

Lemma ring_slot_range i : 0 ≤ i mod n < 64.
Proof. destruct P as [Hn _ _ _ _ _]. pose proof (Z.mod_pos_bound i n). lia. Qed.

(** Addresses of the model, as sums. *)
Ltac places := unfold avail_index_ptr, avail_ring_ptr, used_index_ptr, descriptor, REQUEST_OFFSET, RESPONSE_OFFSET, COMMAND_PAGE_BYTES, DESC_NEXT, DESC_WRITE in *;
  cbn [memory_ avail_offset used_offset size GpuInv.Q] in *.
Ltac away := rewrite ?length_app, ?length_desc, ?length_le_bytes, ?length_replicate; cbn [length]; lia.

Record posted (req : list Z) (i rsize : Z) (m m5 : memory) : Prop := {
  po_pixels : same_pixels m m5;
  po_avail : read16 m5 (avail_index_ptr (Q 0)) = wrap16 (i + 1);
  po_used : read16 m5 (used_index_ptr (Q 0)) = read16 m (used_index_ptr (Q 0));
  po_head : read16 m5 (avail_ring_ptr (Q 0) (i mod n)) = 0;
  po_d0 : desc_at m5 (descriptor (Q 0) 0) = mkDesc C (Z.of_nat (length req)) 1 1;
  po_d1 : desc_at m5 (descriptor (Q 0) 1) = mkDesc (C + 2048) rsize 2 0;
  po_request : read_bytes m5 C (length req) = req
}.

Lemma driver_writes_posted req i rsize m : (length req ≤ 2048)%nat → 0 ≤ rsize < 2^32 → posted req i rsize m (driver_writes req i rsize m).
Proof.
  intros Hl Hrs. pose proof (ring_slot_range i) as Hs. destruct P as [Hn (HB & HC & HC64) _ Hbc Hbf Hcf].
  assert (Hw : 0 ≤ wrap16 (i + 1) < 65536) by (apply (Z.mod_pos_bound _ 65536); lia).
  unfold driver_writes. places. rewrite Z.add_0_r. split; places.
  - intros a Ha. rewrite !read8_write_bytes, !decide_False by away. rewrite read8_fill, decide_False by lia. done.
  - by rewrite read16_write.
  - rewrite !read16_other by away. unfold read16. f_equal. apply read_bytes_ext. intros x Hx. rewrite read8_fill by lia. apply decide_False. lia.
  - rewrite read16_other by away. by rewrite read16_write.
  - rewrite !desc_at_other by away. apply desc_at_write. split_and!; cbn; lia.
  - do 2 rewrite desc_at_other by away. apply desc_at_write. split_and!; cbn; lia.
  - rewrite !read_write_bytes_ne by away. apply read_write_bytes_eq.
Qed.

Record answered (i : Z) (m5 m8 : memory) (resp : Z) : Prop := {
  an_pixels : same_pixels m5 m8;
  an_avail : read16 m8 (avail_index_ptr (Q 0)) = read16 m5 (avail_index_ptr (Q 0));
  an_used : read16 m8 (used_index_ptr (Q 0)) = wrap16 (i + 1);
  an_response : read32 m8 (C + RESPONSE_OFFSET) = resp
}.

Lemma complete_answered req i rsize m m5 g g' resp : posted req i rsize m m5 → read16 m (used_index_ptr (Q 0)) = i → 0 ≤ resp < 2^32 →
  gpu_exec req m5 g = Some (g', resp) → ∃ m8, complete (Q 0) i m5 g = Some (m8, g') ∧ answered i m5 m8 resp.
Proof.
  intros [_ _ Hu Hh H0 H1 Hr] Hi Hresp Hx. pose proof (ring_slot_range i) as Hs. destruct P as [Hn (HB & HC & HC64) _ Hbc Hbf Hcf].
  assert (Hw : 0 ≤ wrap16 (i + 1) < 65536) by (apply (Z.mod_pos_bound _ 65536); lia).
  unfold complete. change (size (Q 0)) with n. rewrite Hh, H0. cbn [next]. rewrite H1. cbn [address dlength]. rewrite Nat2Z.id, Hr, Hx. cbn [mbind option_bind].
  assert (Hu6 : read16 (write_bytes m5 (C + 2048) (le_bytes 4 resp ++ replicate 20 0)) (used_index_ptr (Q 0)) = i).
  { rewrite read16_other; [congruence|]. places. away. }
  rewrite Hu6. eexists. split; [done|]. split; places.
  - intros a Ha. rewrite !read8_write_bytes, !decide_False by away. done.
  - rewrite !read16_other by away. done.
  - by rewrite read16_write.
  - unfold read32. do 2 rewrite read_write_bytes_ne by away.
    pose proof (read_piece m5 (C + 2048) [] (le_bytes 4 resp) (replicate 20 0)) as E. cbn [app length] in E. rewrite Z.add_0_r, length_le_bytes in E.
    rewrite E. by apply le_value_bytes.
Qed.
End Command.
