(* ===== verification/GpuShow.v ===== *)
(** * The screen after [present]

    One command runs to its end in the time the device takes; [present] sends
    two of them. *)
From stdpp Require Import base numbers list gmap.
From Stdlib Require Import ZArith Lia Bool ZifyNat.
From S2P Require Import Prelude Bytes Mem Pmm Vmm Hw Hid Xhci Pci VirtioGpu GpuInv.
Import VirtioGpu.

Section Show.
Context {D : Type} {hw : Hw D} (fuel : nat).
Context (host : D → Host) (seen : D → Z) (delay : D → nat).
Context (B n C F Wd Ht N : Z) (limit : nat).
Context (P : placed B n C F Wd Ht) (L : gpu_laws host seen delay B n N limit).
Context (Hfuel : (limit ≤ fuel)%nat) (Hspins : Z.of_nat limit ≤ SPINS).
Notation Env := (D * Vmm.VState)%type.
Notation ready := (ready host seen B n C F Wd Ht N).
Notation same_pixels := (same_pixels F Wd Ht).
Notation Q := (Q B n).

Lemma same_trans m1 m2 m3 : same_pixels m1 m2 → same_pixels m2 m3 → same_pixels m1 m3.
Proof. intros H1 H2 a Ha. by rewrite H2, H1. Qed.

(** ** Waiting *)
Lemma memory_set m (e e' : Env) : e'.2 = (set_memory m e).2 → memory_of e' = m.
Proof. unfold memory_of. by intros ->. Qed.
Lemma memory_same (e e' : Env) : e'.2 = e.2 → memory_of e' = memory_of e.
Proof. unfold memory_of. by intros ->. Qed.

Lemma wait_used_spec k : ∀ f spins (e : Env) d i g m8 resp,
  (k ≤ f)%nat → Z.of_nat k ≤ spins → delay e.1 = k → used_index (queue d) = i → memory_ (queue d) = B → used_offset (queue d) = 4096 →
  seen e.1 = i → 0 ≤ i < 65536 → read16 (memory_of e) (avail_index_ptr (Q 0)) = wrap16 (i + 1) → read16 (memory_of e) (used_index_ptr (Q 0)) = i →
  complete (Q 0) i (memory_of e) (host e.1) = Some (m8, g) → answered B n C F Wd Ht i (memory_of e) m8 resp →
  ∃ e', wait_used f spins (e, d) = (Ok tt, (e', d)) ∧ memory_of e' = m8 ∧ host e'.1 = g ∧ seen e'.1 = wrap16 (i + 1).
Proof.
  assert (Hne : ∀ i, 0 ≤ i < 65536 → wrap16 (i + 1) ≠ i).
  { intros i Hi. unfold wrap16. change (2^16) with 65536. destruct (decide (i = 65535)) as [->|]; [done|]. rewrite Z.mod_small; lia. }
  induction k as [|k IH]; intros f spins e d i g m8 resp Hf Hsp Hd Hu HB Ho Hs Hi Ha Hui Hc Han;
    (assert (Hptr : used_index_ptr (queue d) = used_index_ptr (Q 0)) by (unfold used_index_ptr; rewrite HB, Ho; done));
    (assert (Hpend : read16 (memory_of e) (avail_index_ptr (Q 0)) ≠ seen e.1) by (rewrite Ha, Hs; by apply Hne)).
  - destruct (law_complete _ _ _ _ _ _ _ L e m8 g Hpend Hd) as (E2 & Hh & Hse); [by rewrite Hs|].
    exists (hw_run e). split.
    + assert (Er : read16 (memory_of (hw_run e)) (used_index_ptr (queue d)) =? used_index (queue d) = false).
      { rewrite (memory_set m8 e), Hptr, Hu by done. rewrite (an_used _ _ _ _ _ _ _ _ _ _ Han). apply Z.eqb_neq. by apply Hne. }
      destruct f; cbn [wait_used]; unfold bind at 1, get_driver, bind at 1, on_hw, mem_volatile; cbn [fst snd]; by rewrite Er.
    + split; [by apply (memory_set m8 e)|]. split; [done|]. by rewrite Hse, Hs.
  - destruct f as [|f]; [lia|]. destruct (law_wait _ _ _ _ _ _ _ L e k Hpend Hd) as (E2 & Hh & Hse & Hd').
    destruct (IH f (spins - 1) (hw_run e) d i g m8 resp) as (e' & Ee & Hm & Hg & Hs'); try done; try lia; rewrite ?(memory_same _ _ E2), ?Hh, ?Hse; try done.
    exists e'. split; [|done]. cbn [wait_used]. unfold bind at 1, get_driver, bind at 1, on_hw, mem_volatile. cbn [fst snd].
    rewrite (memory_same _ _ E2), Hptr, Hui, Hu, Z.eqb_refl. destruct (Z.eqb_spec spins 0); [lia|]. exact Ee.
Qed.

(** ** One command *)
Lemma on_hw_set {A} f (k : unit → M (Env * Driver) unit A) (e : Env) d :
  bind (on_hw (mem_set f)) k (e, d) = k tt (set_memory (f (memory_of e)) e, d).
Proof. done. Qed.

Lemma set_memory_set m m' (e : Env) : set_memory m (set_memory m' e) = set_memory m e.
Proof. by destruct e as [d []]. Qed.

Lemma submit_spec req (e : Env) d i : ready e d i → (24 ≤ length req ≤ 2048)%nat →
  (∀ m, same_pixels (memory_of e) m → ∃ g, gpu_exec req m (host e.1) = Some (g, GPU_RESP_OK_NODATA) ∧
    res_width g = Wd ∧ res_height g = Ht ∧ backing g = F) →
  ∃ e' d' m u, submit fuel req GPU_RESP_OK_NODATA 24 (e, d) = (Ok u, (e', d')) ∧ ready e' d' (wrap16 (i + 1)) ∧
    same_pixels (memory_of e) m ∧ same_pixels (memory_of e) (memory_of e') ∧ gpu_exec req m (host e.1) = Some (host e'.1, GPU_RESP_OK_NODATA).
Proof.
  intros [Hq Hi Hse Hav Hus Hcm Hno Hmode Hhost] Hlen Hex. unfold submit.
  replace (negb _) with true by (symmetry; apply negb_true_iff; unfold RESPONSE_OFFSET, RESPONSE_CAPACITY, COMMAND_PAGE_BYTES, RESPONSE_OFFSET; rewrite !orb_false_iff, !Z.ltb_ge; lia).
  unfold Xhci.ensure, bind at 1, ret at 1, bind at 1, get_driver at 1. cbn [snd]. rewrite Hq, Hcm.
  do 4 rewrite on_hw_set. rewrite !set_memory_set, !memory_of_set. unfold bind at 1, set_driver at 1. cbn [fst snd]. rewrite on_hw_set, set_memory_set, memory_of_set.
  change (avail_index (Q i)) with i. change (size (Q i)) with n. change (used_index (Q i)) with i.
  set (m5 := write_bytes _ (avail_index_ptr (Q i)) _). set (d1 := set_queue _ d).
  assert (Hpo : posted B n C F Wd Ht req i 24 (memory_of e) m5) by (apply driver_writes_posted; [done|lia|lia]).
  unfold bind at 1, on_hw at 1, reg_write at 1. cbn [fst snd]. rewrite Hno.
  destruct (law_notify _ _ _ _ _ _ _ L 0 (set_memory m5 e)) as (N2 & Nh & Ns & Nd). set (e1 := hw_write 2 N 0 (set_memory m5 e)) in *.
  assert (Hm1 : memory_of e1 = m5) by (by apply (memory_set m5 e)). cbn [fst] in Nh, Ns.
  destruct (Hex m5 (po_pixels _ _ _ _ _ _ _ _ _ _ _ Hpo)) as (g & Hg & Hgw).
  destruct (complete_answered B n C F Wd Ht P req i 24 (memory_of e) m5 (host e.1) g GPU_RESP_OK_NODATA Hpo Hus ltac:(done) Hg) as (m8 & Hc & Han).
  destruct (wait_used_spec (delay e1.1) fuel SPINS e1 d1 i g m8 GPU_RESP_OK_NODATA) as (e2 & Ew & Hm2 & Hh2 & Hs2);
    rewrite ?Hm1, ?Nh, ?Ns; try done; try lia; try (unfold d1; cbn; by rewrite Hq).
  { apply (po_avail _ _ _ _ _ _ _ _ _ _ _ Hpo). } { rewrite (po_used _ _ _ _ _ _ _ _ _ _ _ Hpo). done. }
  rewrite (bind_ok _ _ _ _ _ Ew). unfold bind at 1, on_hw at 1, mem_volatile at 1. cbn [fst snd].
  assert (Hav2 : read16 (memory_of e2) (avail_index_ptr (Q 0)) = wrap16 (i + 1)) by (rewrite Hm2, (an_avail _ _ _ _ _ _ _ _ _ _ Han); apply (po_avail _ _ _ _ _ _ _ _ _ _ _ Hpo)).
  destruct (law_idle _ _ _ _ _ _ _ L e2) as (I2 & Ih & Is); [by rewrite Hs2|]. set (e3 := hw_run e2) in *.
  assert (Hm3 : memory_of e3 = m8) by (by rewrite (memory_same _ _ I2)).
  unfold bind at 1, set_driver at 1. cbn [fst snd]. unfold bind at 1, on_hw at 1, mem_get at 1. cbn [fst snd]. rewrite Hm3, (an_response _ _ _ _ _ _ _ _ _ _ Han), Z.eqb_refl.
  unfold bind at 1, ret at 1. eexists e3, _, m5, _. split; [done|].
  assert (Hsp : same_pixels (memory_of e) m5) by exact (po_pixels _ _ _ _ _ _ _ _ _ _ _ Hpo).
  split_and!.
  - split; rewrite ?Hm3.
    + unfold d1. cbn. by rewrite Hq.
    + apply (Z.mod_pos_bound _ 65536). lia.
    + by rewrite Is, Hs2.
    + by rewrite <- Hm2.
    + apply (an_used _ _ _ _ _ _ _ _ _ _ Han).
    + done.
    + done.
    + done.
    + by rewrite Ih, Hh2.
  - done.
  - rewrite Hm3. eapply same_trans; [done|]. apply (an_pixels _ _ _ _ _ _ _ _ _ _ Han).
  - by rewrite Ih, Hh2.
Qed.

(** ** Two commands *)
Lemma transfer_fields x y w h : 0 ≤ x < 2^32 → 0 ≤ y < 2^32 → 0 ≤ w < 2^32 → 0 ≤ h < 2^32 → let r := transfer_request x y w h in
  field r 0 4 = GPU_CMD_TRANSFER_TO_HOST_2D ∧ field r 24 4 = x ∧ field r 28 4 = y ∧ field r 32 4 = w ∧ field r 36 4 = h ∧ field r 40 8 = 0 ∧ field r 48 4 = RESOURCE_ID.
Proof.
  intros Hx Hy Hw Hh. cbv zeta. split_and!; [reflexivity|..|reflexivity|reflexivity]; unfold field.
  - by apply (le_value_bytes 4 x).
  - by apply (le_value_bytes 4 y).
  - by apply (le_value_bytes 4 w).
  - by apply (le_value_bytes 4 h).
Qed.

Lemma flush_fields x y w h : 0 ≤ x < 2^32 → 0 ≤ y < 2^32 → 0 ≤ w < 2^32 → 0 ≤ h < 2^32 → let r := flush_request x y w h in
  field r 0 4 = GPU_CMD_RESOURCE_FLUSH ∧ field r 24 4 = x ∧ field r 28 4 = y ∧ field r 32 4 = w ∧ field r 36 4 = h ∧ field r 40 4 = RESOURCE_ID.
Proof.
  intros Hx Hy Hw Hh. cbv zeta. split_and!; [reflexivity|..|reflexivity]; unfold field.
  - by apply (le_value_bytes 4 x).
  - by apply (le_value_bytes 4 y).
  - by apply (le_value_bytes 4 w).
  - by apply (le_value_bytes 4 h).
Qed.

(** The pixel that the console drew at a place. *)
Definition pixel (m : memory) (i j : Z) : Z := read32 m (F + j * (Wd * 4) + i * 4).

Lemma pixel_same m m' i j : same_pixels m m' → 0 ≤ i < Wd → 0 ≤ j < Ht → pixel m' i j = pixel m i j.
Proof. intros Hs Hi Hj. unfold pixel, read32. f_equal. apply read_bytes_ext. intros a Ha. apply Hs. nia. Qed.

Lemma present_spec x y w h (e : Env) d i : ready e d i → 0 ≤ x → 0 ≤ y → x + w ≤ Wd → y + h ≤ Ht → 0 < w → 0 < h →
  ∃ e' d' i', present fuel x y w h (e, d) = (Ok true, (e', d')) ∧ ready e' d' i' ∧ same_pixels (memory_of e) (memory_of e') ∧
    ∀ a b, shown (host e'.1) a b = if inside x y w h a b then pixel (memory_of e) (a - x) (b - y) else shown (host e.1) a b.
Proof.
  intros Hr Hx Hy Hxw Hyh Hw Hh. destruct P as [_ _ [HW HH] _ _ _]. pose proof (rd_host _ _ _ _ _ _ _ _ _ _ _ _ Hr) as (Hrw & Hrh & Hbk).
  destruct (transfer_fields x y w h) as (T0 & T1 & T2 & T3 & T4 & T5 & T6); [lia..|].
  destruct (flush_fields x y w h) as (F0 & F1 & F2 & F3 & F4 & F5); [lia..|].
  unfold present. unfold bind at 1, get_driver. cbn [snd]. destruct (rd_mode _ _ _ _ _ _ _ _ _ _ _ _ Hr) as (_ & -> & ->). cbv zeta.
  rewrite (Z.min_l x), (Z.min_l y), (Z.min_l w), (Z.min_l h) by lia. rewrite (proj2 (Z.eqb_neq w 0)), (proj2 (Z.eqb_neq h 0)) by lia. cbn [orb].
  destruct (submit_spec (transfer_request x y w h) e d i Hr) as (e1 & d1 & m & u & E1 & R1 & S1 & S1' & X1); [cbn; lia| |].
  { intros m Hm. unfold gpu_exec. rewrite T0, T1, T2, T3, T4, T5, T6, Hrw, Hrh, Hbk. rewrite (proj2 (Z.leb_le (x + w) Wd)), (proj2 (Z.leb_le (y + h) Ht)) by done. eexists. split; [reflexivity|]. done. }
  assert (Hok1 : succeeded (submit fuel (transfer_request x y w h) GPU_RESP_OK_NODATA 24) (e, d) = (Ok true, (e1, d1))).
  { unfold succeeded, catch, bind. by rewrite E1. }
  rewrite (bind_ok _ _ _ _ _ Hok1). cbn [negb].
  pose proof (rd_host _ _ _ _ _ _ _ _ _ _ _ _ R1) as (Hrw1 & Hrh1 & Hbk1).
  destruct (submit_spec (flush_request x y w h) e1 d1 _ R1) as (e2 & d2 & m2 & u2 & E2 & R2 & S2 & S2' & X2); [cbn; lia| |].
  { intros m' Hm'. unfold gpu_exec. rewrite F0, F1, F2, F3, F4, F5, Hrw1, Hrh1. rewrite (proj2 (Z.leb_le (x + w) Wd)), (proj2 (Z.leb_le (y + h) Ht)) by done. eexists. split; [reflexivity|]. done. }
  exists e2, d2, (wrap16 (wrap16 (i + 1) + 1)). split; [unfold succeeded, catch, bind; by rewrite E2|]. split; [done|]. split; [by eapply same_trans|].
  intros a b. unfold gpu_exec in X2. rewrite F0, F1, F2, F3, F4, F5, Hrw1, Hrh1, (proj2 (Z.leb_le (x + w) Wd)), (proj2 (Z.leb_le (y + h) Ht)) in X2 by done.
  cbn [andb] in X2. change (GPU_CMD_RESOURCE_FLUSH =? GPU_CMD_TRANSFER_TO_HOST_2D) with false in X2. change (GPU_CMD_RESOURCE_FLUSH =? GPU_CMD_RESOURCE_FLUSH) with true in X2.
  change (RESOURCE_ID =? RESOURCE_ID) with true in X2. cbv iota in X2. cbn [andb] in X2. cbv iota in X2. apply (f_equal (option_map fst)) in X2. cbn [option_map fst] in X2. injection X2 as X2. rewrite <- X2. cbn [shown].
  unfold gpu_exec in X1. rewrite T0, T1, T2, T3, T4, T5, T6, Hrw, Hrh, (proj2 (Z.leb_le (x + w) Wd)), (proj2 (Z.leb_le (y + h) Ht)) in X1 by done.
  change (GPU_CMD_TRANSFER_TO_HOST_2D =? GPU_CMD_TRANSFER_TO_HOST_2D) with true in X1. change (RESOURCE_ID =? RESOURCE_ID) with true in X1. cbn [andb] in X1. cbv iota in X1.
  apply (f_equal (option_map fst)) in X1. cbn [option_map fst] in X1. injection X1 as X1. rewrite <- X1. cbn [shown image]. rewrite Hbk.
  destruct (inside x y w h a b) eqn:Ein; [|done]. unfold inside in Ein. rewrite !andb_true_iff in Ein.
  rewrite <- (pixel_same (memory_of e) m) by (done || lia). unfold pixel. f_equal. lia.
Qed.

(** C35: [present] asks the device for the part of its rectangle that is on
    the screen, and for nothing outside of it: the image memory, and every
    place of the screen outside of the rectangle, stay as they are, and the
    driver is ready for the next call.  Inside, the screen shows the pixels of
    the image memory counted from its first one: those that were drawn at
    [(a - x, b - y)].  That is the drawn picture exactly for a rectangle that
    starts at the origin, such as the whole screen; the offset of any other
    rectangle in the image memory is never sent. *)
Theorem present_shows x y w h (e : Env) d i : ready e d i → 0 ≤ x → 0 ≤ y → 0 ≤ w → 0 ≤ h →
  let x' := Z.min x Wd in let y' := Z.min y Ht in let w' := Z.min w (Wd - x') in let h' := Z.min h (Ht - y') in
  ∃ e' d' i', present fuel x y w h (e, d) = (Ok true, (e', d')) ∧ ready e' d' i' ∧ same_pixels (memory_of e) (memory_of e') ∧
    ∀ a b, shown (host e'.1) a b = if inside x' y' w' h' a b then pixel (memory_of e) (a - x') (b - y') else shown (host e.1) a b.
Proof.
  intros Hr Hx Hy Hw Hh. cbv zeta. set (x' := Z.min x Wd). set (y' := Z.min y Ht). set (w' := Z.min w (Wd - x')). set (h' := Z.min h (Ht - y')).
  assert (HWH : 0 ≤ Wd ∧ 0 ≤ Ht) by (destruct P as [_ _ [? ?] _ _ _]; lia). destruct (rd_mode _ _ _ _ _ _ _ _ _ _ _ _ Hr) as (_ & HW & HH).
  destruct (decide (w' = 0 ∨ h' = 0)) as [Hz|Hnz].
  - exists e, d, i. split.
    + unfold present, bind at 1, get_driver. cbn [snd]. rewrite HW, HH. fold x' y'. cbv zeta. fold w' h'.
      replace ((w' =? 0) || (h' =? 0)) with true; [done|]. symmetry. rewrite orb_true_iff, !Z.eqb_eq. done.
    + split; [done|]. split; [done|]. intros a b. replace (inside x' y' w' h' a b) with false; [done|]. symmetry. apply not_true_iff_false. unfold inside. rewrite !andb_true_iff. lia.
  - destruct (present_spec x' y' w' h' e d i Hr) as (e' & d' & i' & E & Hrest); [lia..|]. exists e', d', i'. split; [|done].
    rewrite <- E. unfold present. rewrite !(bind_ok get_driver _ (e, d) d (e, d)) by done. cbv beta zeta. rewrite HW, HH. fold x' y'. fold w' h'.
    rewrite (Z.min_l x' Wd), (Z.min_l y' Ht), (Z.min_l w' (Wd - x')), (Z.min_l h' (Ht - y')) by lia. done.
Qed.
End Show.

(** ** A small screen

    A device that answers at the first look, with an image of 4 by 2 pixels
    whose colours are 1 to 8. *)
Record Card := mkCard { card_host : Host; card_seen : Z }.
Definition card_queue : VirtQueue := Q 0x10000 64 0.

Definition card_run (e : Card * Vmm.VState) : Card * Vmm.VState :=
  if read16 (memory_of e) (avail_index_ptr card_queue) =? card_seen e.1 then e
  else match complete card_queue (card_seen e.1) (memory_of e) (card_host e.1) with
       | Some (m, g) => (mkCard g (wrap16 (card_seen e.1 + 1)), (set_memory m e).2)
       | None => e
       end.

#[export] Instance card_hw : Hw Card := {
  hw_read := λ _ _ e, (0, e); hw_write := λ _ _ _ e, e; hw_in := λ _ _ e, (0, e); hw_out := λ _ _ _ e, e;
  hw_run := card_run; hw_time := λ e, (0, e); hw_yield := λ e, e
}.

Lemma card_laws : gpu_laws card_host card_seen (λ _, O) 0x10000 64 0x5000 0.
Proof.
  split.
  - intros v e. done.
  - intros e E. unfold hw_run, card_hw, card_run. change card_queue with (Q 0x10000 64 0). rewrite (proj2 (Z.eqb_eq _ _) E). done.
  - intros e k _ E. discriminate E.
  - intros e m g E _ Hc. unfold hw_run, card_hw, card_run. change card_queue with (Q 0x10000 64 0). rewrite (proj2 (Z.eqb_neq _ _) E), Hc. done.
Qed.

Lemma card_placed : placed 0x10000 64 0x20000 0x30000 4 2.
Proof. split; lia. Qed.

Definition card_memory : memory := write_bytes ∅ 0x30000 (concat (map (le_bytes 4) (seqZ 1 8))).
Definition card_start : Card * Vmm.VState :=
  (mkCard (mkHost 4 2 0x30000 (λ _ _, 0) (λ _ _, 0)) 0, Vmm.mkV (mkPState card_memory None 0) None 0 0 0 0).
Definition card_driver : Driver := mkDriver (Q 0x10000 64 0) 0x20000 0x30000 4 2 16 0x4000 0x5000 4 64 0.

Lemma card_ready : ready card_host card_seen 0x10000 64 0x20000 0x30000 4 2 0x5000 card_start card_driver 0.
Proof. split; try reflexivity; try (repeat split; reflexivity). Qed.

(** The whole screen shows what was drawn; the pixel at (1, 0) alone shows the
    one at the origin, whose colour is 1. *)
Lemma present_shows_witness :
  (∃ e' d', present 0 0 0 4 2 (card_start, card_driver) = (Ok true, (e', d')) ∧ shown (card_host e'.1) 1 0 = 2 ∧ shown (card_host e'.1) 3 1 = 8) ∧
  ∃ e' d', present 0 1 0 1 1 (card_start, card_driver) = (Ok true, (e', d')) ∧ shown (card_host e'.1) 1 0 = 1.
Proof.
  split.
  - destruct (present_shows 0 card_host card_seen (λ _, O) 0x10000 64 0x20000 0x30000 4 2 0x5000 0 card_placed card_laws
      (le_n 0) ltac:(unfold SPINS; lia) 0 0 4 2 card_start card_driver 0 card_ready) as (e' & d' & i' & E & _ & _ & Hs); [lia..|].
    exists e', d'. split; [exact E|]. split; rewrite Hs; vm_compute; reflexivity.
  - destruct (present_shows 0 card_host card_seen (λ _, O) 0x10000 64 0x20000 0x30000 4 2 0x5000 0 card_placed card_laws
      (le_n 0) ltac:(unfold SPINS; lia) 1 0 1 1 card_start card_driver 0 card_ready) as (e' & d' & i' & E & _ & _ & Hs); [lia..|].
    exists e', d'. split; [exact E|]. rewrite Hs. vm_compute. reflexivity.
Defined.
