(* ===== verification/Nvme.v ===== *)
(** * NVMe disks: [drivers/nvme.rs]

    A controller has an admin queue and one queue for input and output; a
    queue is a ring of commands and a ring of completions in shared memory,
    with a doorbell register for each.  One command is under way at a time.
    The controller is a parameter ([Hw]); the queue is part of the state, so a
    command that fails leaves it moved on.  Fences and log lines are left out,
    but not the register that the message about a timeout reads.  A loop that
    waits has [fuel]; it ends before when the clock runs ([TIMEOUT_MS]). *)
From Stdlib Require Import String.
From stdpp Require Import base numbers list gmap.
From Stdlib Require Import ZArith Lia Bool.
From S2P Require Import Prelude Bytes Str Block Mem Pmm Vmm Fmt Hw Hid Xhci Pci.

Module Nvme.

Definition QSIZE : Z := 16.
Definition TIMEOUT_MS : Z := 5000.

Record Entry := mkEntry { opcode : Z; nsid : Z; prp1 : Z; cdw : list Z }.
(** The 64 bytes of a command: [flags], [cid], [reserved], [mptr] and [prp2]
    are always 0. *)
Definition entry_bytes (e : Entry) : list Z :=
  [opcode e; 0] ++ le_bytes 2 0 ++ le_bytes 4 (nsid e) ++ le_bytes 8 0 ++ le_bytes 8 0 ++ le_bytes 8 (prp1 e) ++ le_bytes 8 0 ++
  concat (map (le_bytes 4) (cdw e)).

Record Completion := mkCompletion { result : Z; c_reserved : Z; sq_head : Z; sq_id : Z; cid : Z; status : Z }.
Definition completion_at (m : memory) (a : Z) : Completion :=
  mkCompletion (read32 m a) (read32 m (a + 4)) (read16 m (a + 8)) (read16 m (a + 10)) (read16 m (a + 12)) (read16 m (a + 14)).

Record Queue := mkQueue { sq : Z; cq : Z; tail : Z; head : Z; phase : Z; doorbell : Z; stride : Z; qid : Z; csts : Z }.
Definition set_tail (t : Z) (q : Queue) : Queue := mkQueue (sq q) (cq q) t (head q) (phase q) (doorbell q) (stride q) (qid q) (csts q).
Definition set_head (h p : Z) (q : Queue) : Queue := mkQueue (sq q) (cq q) (tail q) h p (doorbell q) (stride q) (qid q) (csts q).

Section Controller.
Context {D : Type} `{Hw D} (fuel : nat).
Notation HM := (M (D * Vmm.VState) unit).
Notation QM := (M (D * Vmm.VState * Queue) unit).
Notation ensure := Xhci.ensure.
Notation or_return := Xhci.or_return.

Definition on_hw {A} (m : HM A) : QM A := λ s, let '(r, e) := m s.1 in (r, (e, s.2)).
Definition get_queue : QM Queue := λ s, (Ok s.2, s).
Definition put_queue (q : Queue) : QM unit := λ s, (Ok tt, (s.1, q)).

(** [u64::saturating_sub]. *)
Definition saturating_sub (a b : Z) : Z := Z.max 0 (a - b).

Fixpoint wait_completion (n : nat) (start : Z) : QM Completion :=
  let! q := get_queue in
  let at_ := head q * 16 in
  let! st := on_hw (mem_volatile (λ m, read16 m (cq q + (at_ + 14)))) in
  if Z.land st 1 =? phase q then
    let! c := on_hw (mem_get (λ m, completion_at m (cq q + at_))) in
    let h := (head q + 1) mod QSIZE in
    put_queue (set_head h (if h =? 0 then Z.lxor (phase q) 1 else phase q) q) ;;!
    on_hw (reg_write 4 (doorbell q + stride q) h) ;;!
    if Z.shiftr (status c) 1 =? 0 then ret c else fail tt
  else
    let! t := on_hw now in
    if TIMEOUT_MS <? saturating_sub t start then
      let! _ := on_hw (reg_read 4 (csts q)) in fail tt
    else match n with O => diverge | S n => wait_completion n start end.

Definition submit (e : Entry) : QM Completion :=
  let! q := get_queue in
  on_hw (mem_set (λ m, write_bytes m (sq q + tail q * 64) (entry_bytes e))) ;;!
  let t := (tail q + 1) mod QSIZE in
  put_queue (set_tail t q) ;;!
  on_hw (reg_write 4 (doorbell q) t) ;;!
  let! start := on_hw now in
  wait_completion fuel start.

(** ** Disks *)
Definition no_cdw : list Z := [0; 0; 0; 0; 0; 0].
Definition lba_cdw (lba : Z) : list Z := [wrap32 lba; wrap32 (Z.shiftr lba 32); 0; 0; 0; 0].
Record NvmeDisk := mkDisk { shared : nat; disk_nsid : Z; capacity : Z }.

Notation BM := (M (D * Vmm.VState * Queue) BlockError).
(** [.ok_or(BlockError::BadBuffer)?] *)
Definition or_bad {A} (m : QM A) : BM A := mmap_err (λ _, BadBuffer) m.
Definition on_hw_b {A} (m : HM A) : BM A := or_bad (on_hw m).

(** [data] is the page that the controller's disks share. *)
Definition nvme_read_sector (data : Z) (disk : NvmeDisk) (lba : Z) : BM (list Z) :=
  if capacity disk <=? lba then fail Block.OutOfRange
  else
    or_bad (submit (mkEntry 2 (disk_nsid disk) data (lba_cdw lba))) ;;!
    on_hw_b (mem_get (λ m, read_bytes m data 512)).

Definition nvme_write_sector (data : Z) (disk : NvmeDisk) (lba : Z) (data_in : list Z) : BM unit :=
  if capacity disk <=? lba then fail Block.OutOfRange
  else
    on_hw_b (mem_set (λ m, write_bytes m data data_in)) ;;!
    or_bad (submit (mkEntry 1 (disk_nsid disk) data (lba_cdw lba))) ;;!
    ret tt.

Definition nvme_flush (disk : NvmeDisk) : BM unit :=
  or_bad (submit (mkEntry 0 (disk_nsid disk) 0 no_cdw)) ;;! ret tt.

(** ** Bringing a controller up *)
Definition dma : HM Z :=
  let! o := on_pmm (alloc_contiguous 1) in
  let! p := or_return o in
  mem_set (λ m, fill_bytes m p 0 4096) ;;! ret p.

Fixpoint ready_loop (n : nat) (reg : Z) (want : bool) (start : Z) : HM bool :=
  let! v := reg_read 4 reg in
  if Bool.eqb (negb (Z.land v 1 =? 0)) want then ret true
  else
    let! t := now in
    if TIMEOUT_MS <? saturating_sub t start then ret false
    else match n with O => diverge | S n => ready_loop n reg want start end.
Definition wait_ready (reg : Z) (want : bool) : HM bool := let! start := now in ready_loop fuel reg want start.

(** [.is_some()] of a submitted command. *)
Definition succeeds {A} (m : QM A) : QM bool := let! r := catch m in ret (match r with inl _ => true | inr _ => false end).

(** The namespaces with sectors of 512 bytes and no metadata. *)
Definition namespace_of (raw : list Z) : option Z :=
  let cap := le_value (take 8 raw) in
  let flbas := Z.land (nth 26 raw 0) 0xf in
  let format := (128 + Z.to_nat flbas * 4)%nat in
  if (0 <? cap) && (nth (format + 2) raw 0 =? 9) && (le_value [nth format raw 0; nth (format + 1) raw 0] =? 0) then Some cap else None.

Fixpoint probe_namespaces (nsdata : Z) (ids : list Z) : QM (list (Z * Z)) :=
  match ids with
  | [] => ret []
  | i :: ids =>
      let! ok := succeeds (submit (mkEntry 6 i nsdata no_cdw)) in
      let! found := (if (ok : bool) then let! raw := on_hw (mem_get (λ m, read_bytes m nsdata 4096)) in ret (namespace_of raw) else ret None) in
      let! rest := probe_namespaces nsdata ids in
      ret (match found with Some cap => (i, cap) :: rest | None => rest end)
  end.

(** The part of [controller] on the admin queue: the queue for input and
    output, and the namespaces. *)
Definition admin_setup (mm admin_data strd sts : Z) : QM (Queue * list (Z * Z)) :=
  let! _ := submit (mkEntry 6 0 admin_data [1; 0; 0; 0; 0; 0]) in
  let! nn := on_hw (mem_volatile (λ m, read32 m (admin_data + 516))) in
  ensure (negb (nn =? 0)) ;;!
  let! _ := submit (mkEntry 9 0 0 [7; 0; 0; 0; 0; 0]) in
  let! io_sq := on_hw dma in
  let! io_cq := on_hw dma in
  let db1 := mm + (0x1000 + 2 * strd) in
  let! _ := submit (mkEntry 5 0 io_cq [Z.lor (Z.shiftl (QSIZE - 1) 16) 1; 1; 0; 0; 0; 0]) in
  let! _ := submit (mkEntry 1 0 io_sq [Z.lor (Z.shiftl (QSIZE - 1) 16) 1; Z.lor (Z.shiftl 1 16) 1; 0; 0; 0; 0]) in
  let q := mkQueue io_sq io_cq 0 0 1 db1 strd 1 sts in
  let! nsdata := on_hw dma in
  let! namespaces := probe_namespaces nsdata (seqZ 1 (Z.min nn 32)) in
  ret (q, namespaces).

(** The queue, the page of data and the namespaces of a controller. *)
Definition controller (base : Z) : HM (Queue * Z * list (Z * Z)) :=
  let! mm := on_vmm (Vmm.map_mmio base 0x1000) in
  let! cap := reg_read 8 mm in
  let! mqes := (if wrap16 cap + 1 <=? u16_max then ret (wrap16 cap + 1) else panic) in
  ensure (negb (mqes <? QSIZE)) ;;!
  let dstrd := Z.land (Z.shiftr cap 32) 0xf in
  let strd := Z.shiftl 4 dstrd in
  let! _ := on_vmm (Vmm.map_mmio base (0x1000 + 4 * strd)) in
  let cc := mm + 0x14 in
  let sts := mm + 0x1c in
  let! v := reg_read 4 cc in
  reg_write 4 cc (andnot v 1) ;;!
  let! ok := wait_ready sts false in
  (if (ok : bool) then ret tt else let! _ := reg_read 4 cc in let! _ := reg_read 4 sts in fail tt) ;;!
  let! asq := dma in
  let! acq := dma in
  let! admin_data := dma in
  reg_write 4 (mm + 0x24) (Z.lor (Z.shiftl (QSIZE - 1) 16) (QSIZE - 1)) ;;!
  reg_write 8 (mm + 0x28) asq ;;!
  reg_write 8 (mm + 0x30) acq ;;!
  reg_write 4 cc (Z.lor (Z.lor (Z.shiftl 6 16) (Z.shiftl 4 20)) 1) ;;!
  let! ok := wait_ready sts true in
  (if (ok : bool) then ret tt else let! _ := reg_read 4 cc in let! _ := reg_read 4 sts in fail tt) ;;!
  let admin := mkQueue asq acq 0 0 1 (mm + 0x1000) strd 0 sts in
  let! r := (λ e, let '(r, (e, _)) := admin_setup mm admin_data strd sts (e, admin) in (r, e)) in
  ensure (negb (match r.2 with [] => true | _ => false end)) ;;!
  let! data := dma in
  ret (r.1, data, r.2).

(** ** Finding controllers *)
Definition nvme_function (loc : Pci.PciLocation) : HM (option (Pci.PciLocation * Z)) :=
  let! id := Pci.read_config32 loc 0 in
  if wrap16 id =? 0xffff then ret None
  else
    let! class := Pci.read_config32 loc 8 in
    if negb (Z.land (Z.shiftr class 8) 0x00ffffff =? 0x010802) then ret None
    else
      let! bar := Pci.read_config32 loc 0x10 in
      if negb (Z.land bar 1 =? 0) || negb (Z.land (Z.shiftr bar 1) 3 =? 2) then ret None
      else
        let! high := Pci.read_config32 loc 0x14 in
        let base := Z.lor (andnot bar 0xf) (Z.shiftl high 32) in
        if base =? 0 then ret None
        else
          let! v := Pci.read_config32 loc 4 in
          Pci.write_config16 loc 4 (Z.lor (wrap16 v) 6) ;;!
          ret (Some (loc, base)).

Fixpoint nvme_functions (b d : Z) (fs : list Z) : HM (list (Pci.PciLocation * Z)) :=
  match fs with
  | [] => ret []
  | f :: fs =>
      let! o := nvme_function (Pci.mkLoc b d f) in
      let! rest := nvme_functions b d fs in
      ret (match o with Some c => c :: rest | None => rest end)
  end.

Fixpoint nvme_slots (slots : list (Z * Z)) : HM (list (Pci.PciLocation * Z)) :=
  match slots with
  | [] => ret []
  | (b, d) :: slots =>
      let z := Pci.mkLoc b d 0 in
      let! id := Pci.read_config32 z 0 in
      let! found := (if wrap16 id =? 0xffff then ret []
                     else let! h := Pci.read_config32 z 0x0c in
                          nvme_functions b d (seqZ 0 (if negb (Z.land h (Z.shiftl 1 23) =? 0) then 8 else 1))) in
      let! rest := nvme_slots slots in
      ret (found ++ rest)
  end.
Definition controllers : HM (list (Pci.PciLocation * Z)) := nvme_slots Pci.slots.

(** ** The disks that are registered *)
Record Disks := mkDisks { shareds : list (Queue * Z); devices : list (RegisteredDevice NvmeDisk) }.
Notation T := (M (D * Vmm.VState * Disks) unit).

Definition disk_name (id nsid : Z) : str := lit "nvme" ++ fmt_dec id ++ lit "n" ++ fmt_dec nsid.

Definition register_namespaces (id : Z) (k : nat) (namespaces : list (Z * Z)) (ds : list (RegisteredDevice NvmeDisk)) : list (RegisteredDevice NvmeDisk) :=
  foldl (λ ds '(nsid, cap), register_device (disk_name id nsid) (mkDisk k nsid cap) ds) ds namespaces.

Fixpoint init_controllers (found : list (Pci.PciLocation * Z)) (id : Z) : T unit :=
  match found with
  | [] => ret tt
  | (_, base) :: found => λ s,
      match controller base s.1 with
      | (Ok (q, data, namespaces), e) =>
          let k := length (shareds s.2) in
          init_controllers found (id + 1) (e, mkDisks (shareds s.2 ++ [(q, data)]) (register_namespaces id k namespaces (devices s.2)))
      | (Err _, e) => init_controllers found id (e, s.2)
      | (Panic, e) => (Panic, (e, s.2))
      | (Diverge, e) => (Diverge, (e, s.2))
      end
  end.

Definition nvme_init : T unit := λ s,
  match controllers s.1 with
  | (Ok found, e) => init_controllers found 0 (e, s.2)
  | (Err x, e) => (Err x, (e, s.2))
  | (Panic, e) => (Panic, (e, s.2))
  | (Diverge, e) => (Diverge, (e, s.2))
  end.
End Controller.
End Nvme.
