(* ===== verification/NvmeInv.v ===== *)
(** * An NVMe disk is a disk

    The controller's side of a queue, as the NVMe specification describes it,
    and one command from the driver's write of it to its completion. *)
From stdpp Require Import base numbers list gmap.
From Stdlib Require Import ZArith Lia Bool ZifyNat.
From S2P Require Import Prelude Bytes Block Mem Pmm Vmm Hw Nvme.
Import Nvme.

(** ** The controller *)

(** The sectors of each namespace, the next command to take, the tail it was
    told, the next completion to write, and its phase. *)
Record Ctl := mkCtl { disk : Z → Z → list Z; taken : Z; dtail : Z; posted : Z; cphase : Z }.

Definition part (bs : list Z) (at_ n : nat) : Z := le_value (take n (drop at_ bs)).

(** Commands 2, 1 and 0 read, write and flush; one sector ([cdw12] is the count
    less one).  Others are not described. *)
Definition run_command (bs : list Z) (m : memory) (d : Z → Z → list Z) : option (memory * (Z → Z → list Z)) :=
  let op := part bs 0 1 in let ns := part bs 4 4 in let p := part bs 24 8 in
  let lba := part bs 40 4 + part bs 44 4 * 2^32 in
  if negb (part bs 48 4 =? 0) then None
  else if op =? 2 then Some (write_bytes m p (d ns lba), d)
  else if op =? 1 then Some (m, λ ns' l, if bool_decide (ns' = ns ∧ l = lba) then read_bytes m p 512 else d ns' l)
  else if op =? 0 then Some (m, d)
  else None.

Definition complete (S C : Z) (m : memory) (c : Ctl) : option (memory * Ctl) :=
  '(m, d) ← run_command (read_bytes m (S + taken c * 64) 64) m (disk c);
  let t := (taken c + 1) mod 16 in
  let p := (posted c + 1) mod 16 in
  Some (write_bytes m (C + posted c * 16) (le_bytes 4 0 ++ le_bytes 4 0 ++ le_bytes 2 t ++ le_bytes 2 1 ++ le_bytes 2 0 ++ le_bytes 2 (cphase c)),
        mkCtl d t (dtail c) p (if p =? 0 then 1 - cphase c else cphase c)).

Section Laws.
Context {D : Type} {hw : Hw D}.
Context (ctl : D → Ctl) (delay : D → nat) (clock deadline : D → Z).
(** The rings, the page of data, and the doorbell with its stride. *)
Context (S C P DB STR : Z).
Notation Env := (D * Vmm.VState)%type.

(** Each command is answered within [limit] looks and before the timeout. *)
Record nvme_laws (limit : nat) : Prop := {
  law_tail : ∀ v (e : Env), let e' := hw_write 4 DB v e in
    e'.2 = e.2 ∧ ctl e'.1 = mkCtl (disk (ctl e.1)) (taken (ctl e.1)) v (posted (ctl e.1)) (cphase (ctl e.1)) ∧
    (delay e'.1 ≤ limit)%nat ∧ clock e'.1 ≤ deadline e'.1 ≤ clock e'.1 + TIMEOUT_MS;
  law_head : ∀ v (e : Env), let e' := hw_write 4 (DB + STR) v e in e'.2 = e.2 ∧ ctl e'.1 = ctl e.1;
  law_time : ∀ e : Env, let '(t, e') := hw_time e in
    t = clock e.1 ∧ e'.2 = e.2 ∧ ctl e'.1 = ctl e.1 ∧ delay e'.1 = delay e.1 ∧ clock e'.1 = clock e.1 ∧ deadline e'.1 = deadline e.1;
  law_wait : ∀ (e : Env) k, taken (ctl e.1) ≠ dtail (ctl e.1) → delay e.1 = Datatypes.S k → clock e.1 ≤ deadline e.1 →
    let e' := hw_run e in e'.2 = e.2 ∧ ctl e'.1 = ctl e.1 ∧ delay e'.1 = k ∧ deadline e'.1 = deadline e.1 ∧ clock e'.1 ≤ deadline e.1;
  law_complete : ∀ (e : Env) m c, taken (ctl e.1) ≠ dtail (ctl e.1) → delay e.1 = O →
    complete S C (memory_of e) (ctl e.1) = Some (m, c) →
    let e' := hw_run e in e'.2 = (set_memory m e).2 ∧ ctl e'.1 = c
}.

(** The rings and the page are apart. *)
Record apart : Prop := {
  ap_sc : S + 4096 ≤ C ∨ C + 4096 ≤ S;
  ap_sp : S + 4096 ≤ P ∨ P + 4096 ≤ S;
  ap_cp : C + 4096 ≤ P ∨ P + 4096 ≤ C;
  ap_p : 0 ≤ P < 2^64
}.

(** The status of completion [k] in memory. *)
Definition phase_bit (m : memory) (k : Z) : Z := Z.land (read16 m (C + (k * 16 + 14))) 1.

(** Between two commands. *)
Record idle (e : Env) (q : Queue) : Prop := {
  id_rings : sq q = S ∧ cq q = C ∧ doorbell q = DB ∧ stride q = STR;
  id_head : 0 ≤ head q < 16;
  id_tail : tail q = head q;
  id_ctl : taken (ctl e.1) = head q ∧ dtail (ctl e.1) = head q ∧ posted (ctl e.1) = head q ∧ cphase (ctl e.1) = phase q;
  id_phase : phase q = 0 ∨ phase q = 1;
  id_bits : ∀ k, 0 ≤ k < 16 → phase_bit (memory_of e) k = if k <? head q then phase q else 1 - phase q
}.
End Laws.

(** ** A command in memory *)
Lemma entry_length op ns p c0 c1 : length (entry_bytes (mkEntry op ns p [c0; c1; 0; 0; 0; 0])) = 64%nat.
Proof. done. Qed.

Lemma entry_parts op ns p lba : 0 ≤ op < 256 → 0 ≤ ns < 2^32 → 0 ≤ p < 2^64 → 0 ≤ lba < 2^64 →
  let bs := entry_bytes (mkEntry op ns p (lba_cdw lba)) in
  part bs 0 1 = op ∧ part bs 4 4 = ns ∧ part bs 24 8 = p ∧ part bs 40 4 + part bs 44 4 * 2^32 = lba ∧ part bs 48 4 = 0.
Proof.
  intros Ho Hn Hp Hl. cbv zeta. unfold part.
  change (take 1 (drop 0 (entry_bytes (mkEntry op ns p (lba_cdw lba))))) with [op].
  change (take 4 (drop 4 (entry_bytes (mkEntry op ns p (lba_cdw lba))))) with (le_bytes 4 ns).
  change (take 8 (drop 24 (entry_bytes (mkEntry op ns p (lba_cdw lba))))) with (le_bytes 8 p).
  change (take 4 (drop 40 (entry_bytes (mkEntry op ns p (lba_cdw lba))))) with (le_bytes 4 (wrap32 lba)).
  change (take 4 (drop 44 (entry_bytes (mkEntry op ns p (lba_cdw lba))))) with (le_bytes 4 (wrap32 (Z.shiftr lba 32))).
  change (take 4 (drop 48 (entry_bytes (mkEntry op ns p (lba_cdw lba))))) with (le_bytes 4 0).
  assert (H1 : 0 ≤ wrap32 lba < 2^32) by (apply Z.mod_pos_bound; lia).
  assert (H2 : Z.shiftr lba 32 = lba / 2^32) by (apply Z.shiftr_div_pow2; lia).
  assert (H3 : 0 ≤ lba / 2^32 < 2^32) by (split; [apply Z.div_pos; lia|apply Z.div_lt_upper_bound; lia]).
  assert (H4 : wrap32 (Z.shiftr lba 32) = lba / 2^32) by (rewrite H2; unfold wrap32; by apply Z.mod_small).
  rewrite !le_value_bytes by (rewrite ?H4; lia). split_and!; try done; [cbn; lia|]. rewrite H4. unfold wrap32. pose proof (Z.div_mod lba (2^32)). lia.
Qed.
