(* ===== verification/NvmeRefine.v ===== *)
(** * Operations on an NVMe disk refine those on an array of sectors *)
From stdpp Require Import base numbers list gmap.
From Stdlib Require Import ZArith Lia Bool ZifyNat.
From S2P Require Import Prelude Bytes Block Mem Pmm Vmm Hw Nvme NvmeInv.
Import Nvme.

Section Refine.
Context {D : Type} {hw : Hw D} (fuel : nat).
Context (ctl : D → Ctl) (delay : D → nat) (clock deadline : D → Z).
Context (Sq Cq P DB STR : Z) (limit : nat).
Context (A : apart Sq Cq P) (L : nvme_laws ctl delay clock deadline Sq Cq DB STR limit) (Hfuel : (limit ≤ fuel)%nat).
Notation Env := (D * Vmm.VState)%type.
Notation idle := (idle ctl Sq Cq DB STR).

Lemma env_memory m (e e' : Env) : e'.2 = (set_memory m e).2 → memory_of e' = m.
Proof. unfold memory_of. by intros ->. Qed.
Lemma env_same (e e' : Env) : e'.2 = e.2 → memory_of e' = memory_of e.
Proof. unfold memory_of. by intros ->. Qed.

(** ** One completion *)

(** Nothing but the page of data changes. *)
Definition page_only (m m' : memory) : Prop := ∀ a, a < P ∨ P + 4096 ≤ a → read8 m' a = read8 m a.

Definition completion_bytes (t ph : Z) : list Z := le_bytes 4 0 ++ le_bytes 4 0 ++ le_bytes 2 t ++ le_bytes 2 1 ++ le_bytes 2 0 ++ le_bytes 2 ph.

Lemma status_at m a t ph : 0 ≤ ph < 65536 → read16 (write_bytes m a (completion_bytes t ph)) (a + 14) = ph.
Proof.
  intros Hp. unfold read16. replace (read_bytes (write_bytes m a (completion_bytes t ph)) (a + 14) 2) with (le_bytes 2 ph); [by apply le_value_bytes|].
  apply list_eq. intros i. destruct (decide (i < 2)%nat) as [Hi|Hi].
  - rewrite lookup_read_bytes, read8_write_bytes by done. change (length (completion_bytes t ph)) with 16%nat. rewrite decide_True by lia.
    replace (Z.to_nat (a + 14 + Z.of_nat i - a)) with (14 + i)%nat by lia. destruct i as [|[|i]]; [reflexivity..|lia].
  - rewrite !lookup_ge_None_2; [done|rewrite length_read_bytes; lia|rewrite length_le_bytes; lia].
Qed.

Lemma phase_bit_same m m' k : (∀ a, Cq ≤ a < Cq + 4096 → a < Cq + k * 16 + 16 → Cq + k * 16 ≤ a → read8 m' a = read8 m a) → 0 ≤ k < 16 →
  phase_bit Cq m' k = phase_bit Cq m k.
Proof. intros Hm Hk. unfold phase_bit, read16. do 2 f_equal. apply read_bytes_ext. intros a Ha. apply Hm; lia. Qed.

(** The memory after the command [bs] was written, run and answered. *)
Record done_mem (bs : list Z) (h ph : Z) (m0 m2 m3 : memory) : Prop := {
  dm_status : read16 m3 (Cq + (h * 16 + 14)) = ph;
  dm_bit : phase_bit Cq m3 h = ph;
  dm_other : ∀ k, 0 ≤ k < 16 → k ≠ h → phase_bit Cq m3 k = phase_bit Cq m0 k;
  dm_data : read_bytes m3 P 512 = read_bytes m2 P 512
}.

Lemma complete_done bs m0 m2 c d' : length bs = 64%nat → 0 ≤ posted c < 16 → taken c = posted c → cphase c = 0 ∨ cphase c = 1 →
  let m1 := write_bytes m0 (Sq + posted c * 64) bs in
  run_command bs m1 (disk c) = Some (m2, d') → page_only m1 m2 →
  ∃ m3, complete Sq Cq m1 c = Some (m3, mkCtl d' ((posted c + 1) mod 16) (dtail c) ((posted c + 1) mod 16)
      (if (posted c + 1) mod 16 =? 0 then 1 - cphase c else cphase c)) ∧ done_mem bs (posted c) (cphase c) m0 m2 m3.
Proof.
  intros Hl Hp Ht Hph m1 Hrun Hpage. destruct A as [Hsc Hsp Hcp _]. unfold complete. rewrite Ht.
  pose proof (read_write_bytes_eq m0 (Sq + posted c * 64) bs) as Hbs. rewrite Hl in Hbs. fold m1 in Hbs. rewrite Hbs, Hrun. cbn [mbind option_bind].
  eexists. split; [reflexivity|]. fold (completion_bytes ((posted c + 1) mod 16) (cphase c)). set (m3 := write_bytes m2 _ _).
  assert (Hst : read16 m3 (Cq + (posted c * 16 + 14)) = cphase c).
  { unfold m3. replace (Cq + (posted c * 16 + 14)) with (Cq + posted c * 16 + 14) by lia. apply status_at. lia. }
  split; [done| | |].
  - unfold phase_bit. rewrite Hst. by destruct Hph as [-> | ->].
  - intros k Hk Hne. apply phase_bit_same; [|done]. intros a Ha Ha1 Ha2. unfold m3. rewrite read8_write_bytes.
    change (length (completion_bytes _ _)) with 16%nat. rewrite decide_False by lia. rewrite Hpage by lia. unfold m1. rewrite read8_write_bytes, decide_False by lia. done.
  - unfold m3. apply read_write_bytes_ne. change (length (completion_bytes _ _)) with 16%nat. lia.
Qed.

(** ** Waiting for it *)
Lemma wait_done k : ∀ n start (e : Env) q m3 c', (k ≤ n)%nat → delay e.1 = k → clock e.1 ≤ deadline e.1 ≤ start + TIMEOUT_MS →
  cq q = Cq → doorbell q = DB → stride q = STR → 0 ≤ head q < 16 → phase q = 0 ∨ phase q = 1 →
  taken (ctl e.1) ≠ dtail (ctl e.1) → complete Sq Cq (memory_of e) (ctl e.1) = Some (m3, c') →
  phase_bit Cq (memory_of e) (head q) = 1 - phase q → read16 m3 (Cq + (head q * 16 + 14)) = phase q →
  let h := (head q + 1) mod QSIZE in
  ∃ e' r, wait_completion n start (e, q) = (Ok r, (e', set_head h (if h =? 0 then Z.lxor (phase q) 1 else phase q) q)) ∧
    memory_of e' = m3 ∧ ctl e'.1 = c'.
Proof.
  induction k as [|k IH]; intros n start e q m3 c' Hn Hd Hdl Hcq Hdb Hst Hh Hph Hpend Hc Hbit Hst3 h.
  - destruct (law_complete _ _ _ _ _ _ _ _ _ L e m3 c' Hpend Hd Hc) as [E2 Ec]. pose proof (env_memory m3 e _ E2) as Em.
    destruct (law_head _ _ _ _ _ _ _ _ _ L h (hw_run e)) as [Eh2 Ehc].
    exists (hw_write 4 (DB + STR) h (hw_run e)), (completion_at m3 (Cq + head q * 16)). split; [|split; [by rewrite (env_same _ _ Eh2)|by rewrite Ehc]].
    assert (Est : status (completion_at m3 (Cq + head q * 16)) = phase q).
    { unfold completion_at. cbn [status]. rewrite <- Hst3. f_equal. lia. }
    destruct n as [|n]; cbn [wait_completion]; unfold bind at 1, get_queue at 1; cbn [snd]; unfold bind at 1, on_hw at 1, mem_volatile at 1; cbn [fst snd];
      rewrite Em, Hcq, Hst3; (replace (Z.land (phase q) 1 =? phase q) with true by (by destruct Hph as [-> | ->]));
      unfold bind at 1, on_hw at 1, mem_get at 1; cbn [fst snd]; rewrite Em; unfold bind at 1, put_queue; cbn [fst snd]; rewrite Hdb, Hst; fold h;
      unfold bind at 1, on_hw at 1, reg_write; cbn [fst snd]; rewrite Est; (replace (Z.shiftr (phase q) 1 =? 0) with true by (by destruct Hph as [-> | ->])); done.
  - destruct n as [|n]; [lia|]. destruct (law_wait _ _ _ _ _ _ _ _ _ L e k Hpend Hd (proj1 Hdl)) as (E2 & Ec & Ed & Edl & Ecl). set (e1 := hw_run e) in *.
    pose proof (law_time _ _ _ _ _ _ _ _ _ L e1) as Ht. destruct (hw_time e1) as [t e2] eqn:Et. destruct Ht as (-> & T2 & Tc & Td & Tcl & Tdl).
    pose proof (env_same _ _ E2) as Em1. pose proof (env_same _ _ T2) as Em2.
    destruct (IH n start e2 q m3 c') as (e' & r & Ew & Hm & Hcc); rewrite ?Em2, ?Em1, ?Tc, ?Ec, ?Tdl, ?Edl, ?Tcl; try done; try lia.
    exists e', r. split; [|done]. cbn [wait_completion]. unfold bind at 1, get_queue at 1. cbn [snd]. unfold bind at 1, on_hw at 1, mem_volatile at 1. cbn [fst snd]. fold e1.
    rewrite Em1, Hcq. fold (phase_bit Cq (memory_of e) (head q)). rewrite Hbit. replace (1 - phase q =? phase q) with false by (by destruct Hph as [-> | ->]).
    unfold bind at 1, on_hw at 1, now. cbn [fst snd]. rewrite Et. cbn [fst snd]. unfold saturating_sub.
    replace (TIMEOUT_MS <? Z.max 0 (clock e1.1 - start)) with false by (symmetry; apply Z.ltb_ge; unfold TIMEOUT_MS in *; lia). exact Ew.
Qed.

Lemma submit_done en m2 d' (e : Env) q : idle e q → length (entry_bytes en) = 64%nat →
  let m1 := write_bytes (memory_of e) (Sq + head q * 64) (entry_bytes en) in
  run_command (entry_bytes en) m1 (disk (ctl e.1)) = Some (m2, d') → page_only m1 m2 →
  ∃ e' q' r, submit fuel en (e, q) = (Ok r, (e', q')) ∧ idle e' q' ∧ disk (ctl e'.1) = d' ∧ read_bytes (memory_of e') P 512 = read_bytes m2 P 512.
Proof.
  intros [(Hsq & Hcq & Hdb & Hst) Hh Ht (Ctk & Ctl_ & Cpo & Cph) Hph Hbits] Hlen m1 Hrun Hpage. unfold submit.
  unfold bind at 1, get_queue at 1. cbn [snd]. unfold bind at 1, on_hw at 1, mem_set at 1. cbn [fst snd]. rewrite Hsq, Ht. fold m1.
  unfold bind at 1, put_queue at 1. cbn [fst snd]. set (h := (head q + 1) mod QSIZE). unfold bind at 1, on_hw at 1, reg_write at 1. cbn [fst snd]. rewrite Hdb.
  destruct (law_tail _ _ _ _ _ _ _ _ _ L h (set_memory m1 e)) as (E2 & Ec & Edel & Edl). set (e1 := hw_write 4 DB h (set_memory m1 e)) in *.
  pose proof (env_memory m1 e e1 E2) as Em. cbn [set_memory fst] in Ec.
  unfold bind at 1, on_hw at 1, now at 1. cbn [fst snd]. pose proof (law_time _ _ _ _ _ _ _ _ _ L e1) as HT. destruct (hw_time e1) as [t e2] eqn:Et.
  destruct HT as (-> & T2 & Tc & Td & Tcl & Tdl). cbn [fst snd]. pose proof (env_same _ _ T2) as Em2.
  assert (Hh16 : h ≠ head q ∧ 0 ≤ h < 16). { unfold h, QSIZE. destruct (decide (head q = 15)) as [->|]; [done|]. rewrite Z.mod_small by lia. lia. }
  rewrite Ec in Tc.
  set (c1 := mkCtl (disk (ctl e.1)) (taken (ctl e.1)) h (posted (ctl e.1)) (cphase (ctl e.1))) in *.
  destruct (complete_done (entry_bytes en) (memory_of e) m2 c1 d') as (m3 & Hc & [Dst Dbit Doth Ddat]); cbn [c1 posted taken cphase disk]; rewrite ?Cpo, ?Ctk, ?Cph; try done.
  cbn [c1 posted taken cphase disk dtail] in *. rewrite Cpo, Cph in *.
  destruct (wait_done (delay e2.1) fuel (clock e1.1) e2 (set_tail h q) m3 (mkCtl d' ((head q + 1) mod 16) h ((head q + 1) mod 16) (if (head q + 1) mod 16 =? 0 then 1 - phase q else phase q)))
    as (e' & r & Ew & Hm & Hctl); cbn [set_tail cq doorbell stride head phase]; rewrite ?Em2, ?Em, ?Tc; cbn [taken dtail]; try done; try lia.
  { cbn [c1 taken dtail]. rewrite Ctk. lia. }
  { rewrite (phase_bit_same (memory_of e) m1) by (try done; intros a Ha _ _; unfold m1; rewrite read8_write_bytes, Hlen; apply decide_False; destruct A; lia).
    rewrite Hbits by done. by rewrite Z.ltb_irrefl. }
  eexists e', _, r. split; [exact Ew|]. cbn [set_tail phase head] in *. change ((head q + 1) mod 16) with h in *. change ((head q + 1) mod QSIZE) with h.
  assert (Hlx : Z.lxor (phase q) 1 = 1 - phase q) by (by destruct Hph as [-> | ->]). rewrite Hlx. split_and!.
  - split; cbn [set_head set_tail sq cq doorbell stride head tail phase]; rewrite ?Hctl, ?Hm; cbn [taken dtail posted cphase]; try done.
    + lia.
    + destruct (h =? 0); destruct Hph; lia.
    + intros k Hk. destruct (decide (k = head q)) as [->|Hne].
      * rewrite Dbit. destruct (Z.eqb_spec h 0) as [E0|E0].
        -- rewrite E0. rewrite (proj2 (Z.ltb_ge (head q) 0)) by lia. lia.
        -- rewrite (proj2 (Z.ltb_lt (head q) h)); [done|]. unfold h, QSIZE in *. destruct (decide (head q = 15)) as [E15|]; [rewrite E15 in E0; done|]. rewrite Z.mod_small by lia. lia.
      * rewrite Doth, Hbits by done. destruct (Z.eqb_spec h 0) as [E0|E0].
        -- assert (head q = 15) as E15 by (unfold h, QSIZE in E0; destruct (decide (head q = 15)); [done|]; rewrite Z.mod_small in E0; lia).
           rewrite E0, (proj2 (Z.ltb_lt k (head q))), (proj2 (Z.ltb_ge k 0)) by lia. lia.
        -- assert (h = head q + 1) as Eh1 by (unfold h, QSIZE in *; destruct (decide (head q = 15)) as [E15|]; [rewrite E15 in E0; done|]; apply Z.mod_small; lia).
           rewrite Eh1. destruct (Z.ltb_spec k (head q)), (Z.ltb_spec k (head q + 1)); (done || lia).
  - by rewrite Hctl.
  - by rewrite Hm.
Qed.

(** ** Operations *)
Inductive op := ORead (lba : Z) | OWrite (lba : Z) (bs : list Z) | OFlush.

Definition unit_result {S} (r : res BlockError unit * S) : res BlockError (list Z) * S :=
  (match r.1 with Ok _ => Ok [] | Err x => Err x | Panic => Panic | Diverge => Diverge end, r.2).
Definition do_op (dsk : NvmeDisk) (o : op) (s : Env * Queue) : res BlockError (list Z) * (Env * Queue) :=
  match o with
  | ORead lba => nvme_read_sector fuel P dsk lba s
  | OWrite lba bs => unit_result (nvme_write_sector fuel P dsk lba bs s)
  | OFlush => unit_result (nvme_flush fuel dsk s)
  end.
Fixpoint run_ops (dsk : NvmeDisk) (os : list op) (s : Env * Queue) : list (res BlockError (list Z)) * (Env * Queue) :=
  match os with
  | [] => ([], s)
  | o :: os => let '(r, s) := do_op dsk o s in let '(rs, s) := run_ops dsk os s in (r :: rs, s)
  end.

(** An array of sectors. *)
Definition array_op (cap : Z) (o : op) (f : Z → list Z) : res BlockError (list Z) * (Z → list Z) :=
  match o with
  | ORead lba => (if cap <=? lba then Err Block.OutOfRange else Ok (f lba), f)
  | OWrite lba bs => if cap <=? lba then (Err Block.OutOfRange, f) else (Ok [], λ l, if decide (l = lba) then bs else f l)
  | OFlush => (Ok [], f)
  end.
Fixpoint array_run (cap : Z) (os : list op) (f : Z → list Z) : list (res BlockError (list Z)) * (Z → list Z) :=
  match os with
  | [] => ([], f)
  | o :: os => let '(r, f) := array_op cap o f in let '(rs, f) := array_run cap os f in (r :: rs, f)
  end.

Definition op_ok (o : op) : Prop :=
  match o with ORead lba => 0 ≤ lba | OWrite lba bs => 0 ≤ lba ∧ sector_ok bs | OFlush => True end.

(** The namespace holds the array. *)
Definition holds (ns cap : Z) (e : Env) (f : Z → list Z) : Prop := ∀ l, 0 ≤ l < cap → disk (ctl e.1) ns l = f l ∧ sector_ok (f l).
Definition others_kept (ns : Z) (e e' : Env) : Prop := ∀ ns' l, ns' ≠ ns → disk (ctl e'.1) ns' l = disk (ctl e.1) ns' l.

(** One command of an operation; [m] is memory with the page filled. *)
Lemma command_done opc ns lba p m2 d' (e : Env) q : idle e q → 0 ≤ opc < 256 → 0 ≤ ns < 2^32 → 0 ≤ p < 2^64 → 0 ≤ lba < 2^64 →
  let m1 := write_bytes (memory_of e) (Sq + head q * 64) (entry_bytes (mkEntry opc ns p (lba_cdw lba))) in
  (if opc =? 2 then Some (write_bytes m1 p (disk (ctl e.1) ns lba), disk (ctl e.1))
   else if opc =? 1 then Some (m1, λ ns' l, if bool_decide (ns' = ns ∧ l = lba) then read_bytes m1 p 512 else disk (ctl e.1) ns' l)
   else if opc =? 0 then Some (m1, disk (ctl e.1)) else None) = Some (m2, d') → page_only m1 m2 →
  ∃ e' q' r, submit fuel (mkEntry opc ns p (lba_cdw lba)) (e, q) = (Ok r, (e', q')) ∧ idle e' q' ∧ disk (ctl e'.1) = d' ∧ read_bytes (memory_of e') P 512 = read_bytes m2 P 512.
Proof.
  intros Hi Ho Hn Hp Hl m1 Hrun Hpage. apply (submit_done _ m2 d'); [done|done| |done].
  destruct (entry_parts opc ns p lba Ho Hn Hp Hl) as (E1 & E2 & E3 & E4 & E5). unfold run_command. rewrite E1, E2, E3, E4, E5. exact Hrun.
Qed.

Lemma sent_page m a bs : length bs = 64%nat → (∃ k, 0 ≤ k < 16 ∧ a = Sq + k * 64) → read_bytes (write_bytes m a bs) P 512 = read_bytes m P 512.
Proof. intros Hl (k & Hk & ->). apply read_write_bytes_ne. rewrite Hl. destruct A. lia. Qed.

Lemma read_op k ns cap lba (e : Env) q f : idle e q → holds ns cap e f → 0 ≤ ns < 2^32 → cap ≤ 2^64 → 0 ≤ lba < cap →
  ∃ e' q', nvme_read_sector fuel P (mkDisk k ns cap) lba (e, q) = (Ok (f lba), (e', q')) ∧ idle e' q' ∧ disk (ctl e'.1) = disk (ctl e.1).
Proof.
  intros Hi Hf Hn Hc Hl. destruct (Hf lba Hl) as [Ef [Hlen _]]. unfold nvme_read_sector. cbn [capacity disk_nsid]. rewrite (proj2 (Z.leb_gt cap lba)) by lia.
  destruct (command_done 2 ns lba P (write_bytes (write_bytes (memory_of e) (Sq + head q * 64) (entry_bytes (mkEntry 2 ns P (lba_cdw lba)))) P (f lba)) (disk (ctl e.1)) e q)
    as (e' & q' & r & E & Hi' & Hd & Hm); try done; try lia; [destruct A; lia|cbv zeta; by rewrite Ef|intros a Ha; rewrite read8_write_bytes, Hlen; apply decide_False; lia|].
  exists e', q'. split; [|done]. unfold or_bad, bind, mmap_err. rewrite E. cbn [map_err fst snd]. unfold on_hw_b, or_bad, mmap_err, on_hw, mem_get. cbn [fst snd map_err].
  rewrite Hm. pose proof (read_write_bytes_eq (write_bytes (memory_of e) (Sq + head q * 64) (entry_bytes (mkEntry 2 ns P (lba_cdw lba)))) P (f lba)) as Er. rewrite Hlen in Er. by rewrite Er.
Qed.

Lemma write_op k ns cap lba bs (e : Env) q : idle e q → 0 ≤ ns < 2^32 → cap ≤ 2^64 → 0 ≤ lba < cap → sector_ok bs →
  ∃ e' q', nvme_write_sector fuel P (mkDisk k ns cap) lba bs (e, q) = (Ok tt, (e', q')) ∧ idle e' q' ∧
    disk (ctl e'.1) = λ ns' l, if bool_decide (ns' = ns ∧ l = lba) then bs else disk (ctl e.1) ns' l.
Proof.
  intros Hi Hn Hc Hl [Hlen _]. unfold nvme_write_sector. cbn [capacity disk_nsid]. rewrite (proj2 (Z.leb_gt cap lba)) by lia.
  unfold bind at 1, on_hw_b, or_bad at 1, mmap_err at 1, on_hw, mem_set. cbn [fst snd map_err]. set (e0 := set_memory (write_bytes (memory_of e) P bs) e).
  assert (Hi0 : idle e0 q).
  { destruct Hi as [H1 H2 H3 H4 H5 H6]. split; try done. intros j Hj. rewrite <- H6 by done. apply phase_bit_same; [|done]. intros a Ha _ _. unfold e0. rewrite memory_of_set, read8_write_bytes, Hlen. apply decide_False. destruct A. lia. }
  pose proof (id_head _ _ _ _ _ _ _ Hi0) as Hh.
  destruct (command_done 1 ns lba P (write_bytes (memory_of e0) (Sq + head q * 64) (entry_bytes (mkEntry 1 ns P (lba_cdw lba))))
    (λ ns' l, if bool_decide (ns' = ns ∧ l = lba) then bs else disk (ctl e.1) ns' l) e0 q) as (e' & q' & r & E & Hi' & Hd & _); try done; try lia; [destruct A; lia| |].
  { cbv zeta. rewrite sent_page by (done || by exists (head q)). unfold e0. rewrite memory_of_set. pose proof (read_write_bytes_eq (memory_of e) P bs) as Er. rewrite Hlen in Er. by rewrite Er. }
  exists e', q'. split; [|done]. unfold or_bad, bind, mmap_err. by rewrite E.
Qed.

Lemma flush_op k ns cap (e : Env) q : idle e q → 0 ≤ ns < 2^32 →
  ∃ e' q', nvme_flush fuel (mkDisk k ns cap) (e, q) = (Ok tt, (e', q')) ∧ idle e' q' ∧ disk (ctl e'.1) = disk (ctl e.1).
Proof.
  intros Hi Hn. unfold nvme_flush. cbn [disk_nsid]. change no_cdw with (lba_cdw 0).
  destruct (command_done 0 ns 0 0 (write_bytes (memory_of e) (Sq + head q * 64) (entry_bytes (mkEntry 0 ns 0 (lba_cdw 0)))) (disk (ctl e.1)) e q)
    as (e' & q' & r & E & Hi' & Hd & _); try done; try lia.
  exists e', q'. split; [|done]. unfold or_bad, bind, mmap_err. by rewrite E.
Qed.

Lemma op_refines k ns cap o (e : Env) q f : idle e q → holds ns cap e f → 0 ≤ ns < 2^32 → cap ≤ 2^64 → op_ok o →
  ∃ e' q', do_op (mkDisk k ns cap) o (e, q) = ((array_op cap o f).1, (e', q')) ∧ idle e' q' ∧ holds ns cap e' (array_op cap o f).2 ∧ others_kept ns e e'.
Proof.
  intros Hi Hf Hn Hc Ho. destruct o as [lba|lba bs|]; cbn [do_op array_op].
  - destruct (Z.leb_spec cap lba) as [Hr|Hr].
    + exists e, q. unfold nvme_read_sector. cbn [capacity]. by rewrite (proj2 (Z.leb_le cap lba)).
    + destruct (read_op k ns cap lba e q f Hi Hf Hn Hc) as (e' & q' & E & Hi' & Hd); [cbn in Ho; lia|].
      exists e', q'. split; [done|]. split; [done|]. split; [intros l Hl; rewrite Hd; by apply Hf|intros ns' l _; by rewrite Hd].
  - destruct Ho as [Hl Hs]. destruct (Z.leb_spec cap lba) as [Hr|Hr].
    + exists e, q. unfold nvme_write_sector. cbn [capacity]. by rewrite (proj2 (Z.leb_le cap lba)).
    + destruct (write_op k ns cap lba bs e q Hi Hn Hc) as (e' & q' & E & Hi' & Hd); [lia|done|].
      exists e', q'. split; [by rewrite E|]. split; [done|]. split.
      * intros l Hl'. rewrite Hd. cbn [snd]. destruct (decide (l = lba)) as [->|Hne]; [by rewrite bool_decide_eq_true_2|]. rewrite bool_decide_eq_false_2 by naive_solver. by apply Hf.
      * intros ns' l Hns. rewrite Hd. by rewrite bool_decide_eq_false_2 by naive_solver.
  - destruct (flush_op k ns cap e q Hi Hn) as (e' & q' & E & Hi' & Hd). exists e', q'. split; [by rewrite E|]. split; [done|].
    split; [intros l Hl; rewrite Hd; by apply Hf|intros ns' l _; by rewrite Hd].
Qed.

Lemma ops_refine k ns cap os : Forall op_ok os → 0 ≤ ns < 2^32 → cap ≤ 2^64 → ∀ (e : Env) q f, idle e q → holds ns cap e f →
  ∃ e' q', run_ops (mkDisk k ns cap) os (e, q) = ((array_run cap os f).1, (e', q')) ∧ idle e' q' ∧ holds ns cap e' (array_run cap os f).2 ∧ others_kept ns e e'.
Proof.
  intros Hos Hn Hc. induction Hos as [|o os Ho Hos IH]; intros e q f Hi Hf; [by exists e, q|].
  destruct (op_refines k ns cap o e q f Hi Hf Hn Hc Ho) as (e1 & q1 & E1 & Hi1 & Hf1 & Hk1). cbn [run_ops array_run]. rewrite E1.
  destruct (array_op cap o f) as [r f1]. cbn [fst snd] in *. destruct (IH e1 q1 f1 Hi1 Hf1) as (e2 & q2 & E2 & Hi2 & Hf2 & Hk2). rewrite E2.
  destruct (array_run cap os f1) as [rs f2]. exists e2, q2. split_and!; try done. intros ns' l Hns. by rewrite Hk2, Hk1.
Qed.

(** A queue as [controller] makes it, on zeroed rings. *)
Definition fresh (e : Env) (q : Queue) : Prop :=
  (∃ i st, q = mkQueue Sq Cq 0 0 1 DB STR i st) ∧ (∀ a, Cq ≤ a < Cq + 4096 → read8 (memory_of e) a = 0) ∧
  taken (ctl e.1) = 0 ∧ dtail (ctl e.1) = 0 ∧ posted (ctl e.1) = 0 ∧ cphase (ctl e.1) = 1.

Lemma fresh_idle e q : fresh e q → idle e q.
Proof.
  intros ((i & st & ->) & Hz & H1 & H2 & H3 & H4). split; try done; cbn; [by right|]. intros k Hk. rewrite (proj2 (Z.ltb_ge k 0)) by lia.
  unfold phase_bit, read16. rewrite (read_bytes_ext (memory_of e) ∅); [|intros a Ha; rewrite Hz by lia; done]. reflexivity.
Qed.

(** C21: from the queue that [controller] makes, and for every sequence of
    reads, writes and flushes of one disk, an NVMe disk answers exactly as an
    array of sectors does: a read gives what was written last, or what was
    there, an operation past the capacity fails without touching the disk, and
    none waits longer than the controller takes.  Both rings go round as often
    as needed.  The sectors of other namespaces stay as they are. *)
Theorem nvme_is_disk k ns cap os (e : Env) q f : fresh e q → holds ns cap e f → Forall op_ok os → 0 ≤ ns < 2^32 → cap ≤ 2^64 →
  ∃ e' q', run_ops (mkDisk k ns cap) os (e, q) = ((array_run cap os f).1, (e', q')) ∧ holds ns cap e' (array_run cap os f).2 ∧ others_kept ns e e'.
Proof.
  intros Hfr Hf Hos Hn Hc. destruct (ops_refine k ns cap os Hos Hn Hc e q f (fresh_idle e q Hfr) Hf) as (e' & q' & E & _ & Hh & Hk). by exists e', q'.
Qed.
End Refine.

(** ** A drive that answers at once *)
Definition drive_run (e : Ctl * Vmm.VState) : Ctl * Vmm.VState :=
  if taken e.1 =? dtail e.1 then e
  else match complete 0x1000 0x2000 (memory_of e) e.1 with
       | Some (m, c) => (c, (set_memory m e).2)
       | None => e
       end.

#[export] Instance drive_hw : Hw Ctl := {
  hw_read := λ _ _ e, (0, e);
  hw_write := λ _ a v e, if a =? 0x9008 then (mkCtl (disk e.1) (taken e.1) v (posted e.1) (cphase e.1), e.2) else e;
  hw_in := λ _ _ e, (0, e); hw_out := λ _ _ _ e, e;
  hw_run := drive_run; hw_time := λ e, (0, e); hw_yield := λ e, e
}.

Lemma drive_laws : nvme_laws (λ c : Ctl, c) (λ _, O) (λ _, 0) (λ _, 0) 0x1000 0x2000 0x9008 4 0.
Proof.
  split.
  - intros v e. split; [reflexivity|]. split; [reflexivity|]. unfold TIMEOUT_MS. lia.
  - intros v e. split; reflexivity.
  - intros e. cbn. split_and!; reflexivity.
  - intros e k _ E. discriminate E.
  - intros e m c Hp _ Hc. cbv zeta. unfold hw_run, drive_hw, drive_run. rewrite (proj2 (Z.eqb_neq _ _) Hp), Hc. split; reflexivity.
Qed.

Lemma drive_apart : apart 0x1000 0x2000 0x3000.
Proof. split; lia. Qed.

Definition drive_start : Ctl * Vmm.VState := (mkCtl (λ _ _, replicate 512 0) 0 0 0 1, Vmm.mkV (mkPState ∅ None 0) None 0 0 0 0).
Definition drive_queue : Queue := mkQueue 0x1000 0x2000 0 0 1 0x9008 4 1 0x901c.

(** Nine sectors are written and read back: 18 commands, so both rings go
    round; then a read past the end. *)
Definition drive_ops : list op :=
  concat (map (λ i, [OWrite i (replicate 512 (i + 1)); ORead i]) (seqZ 0 9)) ++ [OFlush; ORead 100].

Lemma nvme_is_disk_witness : (run_ops 0 0x3000 (mkDisk 0 1 100) drive_ops (drive_start, drive_queue)).1 =
  concat (map (λ i, [Ok []; Ok (replicate 512 (i + 1))]) (seqZ 0 9)) ++ [Ok []; Err Block.OutOfRange].
Proof.
  destruct (nvme_is_disk 0 (λ c : Ctl, c) (λ _, O) (λ _, 0) (λ _, 0) 0x1000 0x2000 0x3000 0x9008 4 0 drive_apart drive_laws (le_n 0)
    0 1 100 drive_ops drive_start drive_queue (λ _, replicate 512 0)) as (e' & q' & E & _).
  - split; [exists 1, 0x901c; reflexivity|]. split_and!; reflexivity.
  - intros l Hl. split; [reflexivity|]. split; [reflexivity|]. apply Forall_replicate. unfold is_byte. lia.
  - unfold drive_ops. apply Forall_app_2; [|repeat apply Forall_cons_2; try apply Forall_nil_2; cbn; (exact I || lia)].
    apply Forall_concat, Forall_fmap, Forall_seqZ. intros i Hi. repeat apply Forall_cons_2; try apply Forall_nil_2; cbn [op_ok compose]; [|lia].
    split; [lia|]. split; [reflexivity|]. apply Forall_replicate. unfold is_byte. lia.
  - lia.
  - lia.
  - rewrite E. vm_compute. reflexivity.
Defined.
