(* ===== verification/Ahci.v ===== *)
(** * SATA disks: [drivers/ahci.rs]

    A port of an AHCI controller with one command slot: the command list, the
    received FIS area, one command table and one page of data, each in its own
    frame.  The driver reads single sectors.  The controller is a parameter
    ([Hw]); fences, the lock around a transfer and log lines are left out. *)
From Stdlib Require Import String.
From stdpp Require Import base numbers list gmap.
From Stdlib Require Import ZArith Lia Bool.
From S2P Require Import Prelude Bytes Str Block Mem Pmm Vmm Fmt Hw Hid Xhci Pci.

Module Ahci.

Definition PORT_BASE : Z := 0x100.
Definition PORT_STRIDE : Z := 0x80.
Definition TIMEOUT_MS : Z := 3000.

Record AhciDisk := mkDisk { port : Z; cl : Z; fis_area : Z; table : Z; data : Z; sectors : Z }.

(** The 20 bytes of the command FIS. *)
Definition command_fis (command lba count : Z) : list Z :=
  if command =? 0x25 then
    [0x27; 0x80; command; 0; wrap8 lba; wrap8 (Z.shiftr lba 8); wrap8 (Z.shiftr lba 16); Z.shiftl 1 6;
     wrap8 (Z.shiftr lba 24); wrap8 (Z.shiftr lba 32); wrap8 (Z.shiftr lba 40); 0] ++ le_bytes 2 count ++ [0; 0; 0; 0; 0; 0]
  else [0x27; 0x80; command] ++ replicate 17 0.

Section Driver.
Context {D : Type} `{Hw D} (fuel : nat).
Notation HM := (M (D * Vmm.VState) unit).
Notation ensure := Xhci.ensure.
Notation or_return := Xhci.or_return.

Definition rd (p off : Z) : HM Z := reg_read 4 (p + off).
Definition wr (p off v : Z) : HM unit := reg_write 4 (p + off) v.

(** The predicate is looked at while there is time, and once more after. *)
Fixpoint spin_loop (n : nat) (start timeout : Z) (predicate : HM bool) : HM bool :=
  let! t := now in
  if Z.max 0 (t - start) <? timeout then
    let! ok := predicate in
    if (ok : bool) then ret true
    else match n with O => diverge | S n => spin_loop n start timeout predicate end
  else predicate.
Definition spin_until (start timeout : Z) (predicate : HM bool) : HM bool := spin_loop fuel start timeout predicate.

(** Whether some bits of a register are all 0. *)
Definition clear (p off mask : Z) : HM bool := let! v := rd p off in ret (Z.land v mask =? 0).
Definition set_ (p off mask : Z) : HM bool := let! v := rd p off in ret (negb (Z.land v mask =? 0)).

(** Each of the four structures takes one frame. *)
Definition dma_mem (size : Z) : HM Z :=
  let! o := on_pmm (alloc_contiguous ((size + 4095) / 4096)) in
  let! phys := or_return o in
  mem_set (λ m, fill_bytes m phys 0 size) ;;! ret phys.

Definition transfer (d : AhciDisk) (command lba count : Z) : HM (option (list Z)) :=
  let p := port d in
  let! tfd := rd p 0x20 in
  if negb (Z.land tfd 0x88 =? 0) then ret None
  else
    mem_set (λ m, fill_bytes m (data d) 0 4096) ;;!
    mem_set (λ m, write_bytes m (table d) (command_fis command lba count)) ;;!
    wr p 0x30 0xffffffff ;;!
    wr p 0x38 1 ;;!
    let! start := now in
    let! completed := spin_until start TIMEOUT_MS
      (let! ci := rd p 0x38 in
       if Z.land ci 1 =? 0 then ret true else set_ p 0x10 1) in
    let! status := rd p 0x10 in
    if negb completed || negb (Z.land status 1 =? 0) then ret None
    else let! out := mem_get (λ m, read_bytes m (data d) 512) in ret (Some out).

Definition wait (p off mask : Z) (want_clear : bool) : HM unit :=
  let! start := now in
  let! ok := spin_until start TIMEOUT_MS (if want_clear then clear p off mask else set_ p off mask) in
  ensure ok.

Definition new (p : Z) (supports_64bit_dma : bool) : HM AhciDisk :=
  let! cl := dma_mem 1024 in
  let! fis := dma_mem 256 in
  let! table := dma_mem 512 in
  let! data := dma_mem 4096 in
  ensure (negb (negb supports_64bit_dma && existsb (λ a, 2^32 <=? a) [cl; fis; table; data])) ;;!
  let! cmd := rd p 0x18 in
  wr p 0x18 (andnot cmd 1) ;;!
  wait p 0x18 (Z.shiftl 1 15) true ;;!
  let! cmd := rd p 0x18 in
  wr p 0x18 (andnot cmd (Z.shiftl 1 4)) ;;!
  wait p 0x18 (Z.shiftl 1 14) true ;;!
  wr p 0x00 (wrap32 cl) ;;!
  wr p 0x04 (wrap32 (Z.shiftr cl 32)) ;;!
  wr p 0x08 (wrap32 fis) ;;!
  wr p 0x0c (wrap32 (Z.shiftr fis 32)) ;;!
  mem_set (λ m, write_bytes m cl (le_bytes 2 5 ++ le_bytes 2 1)) ;;!
  mem_set (λ m, write_bytes m (cl + 8) (le_bytes 8 table)) ;;!
  mem_set (λ m, write_bytes m (table + 0x80) (le_bytes 8 data)) ;;!
  mem_set (λ m, write_bytes m (table + 0x8c) (le_bytes 4 (Z.lor (SECTOR_SIZE - 1) (Z.shiftl 1 31)))) ;;!
  wr p 0x10 0xffffffff ;;!
  wr p 0x14 0xffffffff ;;!
  wr p 0x30 0xffffffff ;;!
  let! cmd := rd p 0x18 in
  wr p 0x18 (Z.lor cmd (Z.shiftl 1 4)) ;;!
  wait p 0x18 (Z.shiftl 1 14) false ;;!
  wr p 0x18 (Z.lor (Z.lor cmd (Z.shiftl 1 4)) 1) ;;!
  let disk := mkDisk p cl fis table data 0 in
  let! o := transfer disk 0xec 0 1 in
  let! identify := or_return o in
  let n := le_value (take 8 (drop 200 identify)) in
  ensure (negb (n =? 0)) ;;!
  ret (mkDisk p cl fis table data n).

Definition ahci_read_sector (d : AhciDisk) (lba : Z) : M (D * Vmm.VState) BlockError (list Z) :=
  if sectors d <=? lba then fail Block.OutOfRange
  else
    let! o := mmap_err (λ _ : unit, BadBuffer) (transfer d 0x25 lba 1) in
    match o with Some out => ret out | None => fail BadBuffer end.

(** ** Finding controllers *)
Definition ahci_function (loc : Pci.PciLocation) : HM (option (Pci.PciLocation * Z)) :=
  let! id := Pci.read_config32 loc 0 in
  if wrap16 id =? 0xffff then ret None
  else
    let! class := Pci.read_config32 loc 8 in
    if negb (Z.land (Z.shiftr class 8) 0x00ffffff =? 0x010601) then ret None
    else
      let! bar := Pci.read_config32 loc 0x24 in
      if negb (Z.land bar 1 =? 0) then ret None
      else
        let low := andnot bar 0xf in
        let! base := (if Z.land (Z.shiftr bar 1) 3 =? 2
                      then let! high := Pci.read_config32 loc 0x28 in ret (Z.lor low (Z.shiftl high 32)) else ret low) in
        if base =? 0 then ret None
        else
          let! v := Pci.read_config32 loc 4 in
          Pci.write_config16 loc 4 (Z.lor (wrap16 v) 0x6) ;;!
          ret (Some (loc, base)).

Fixpoint ahci_functions (b d : Z) (fs : list Z) : HM (list (Pci.PciLocation * Z)) :=
  match fs with
  | [] => ret []
  | f :: fs =>
      let! o := ahci_function (Pci.mkLoc b d f) in
      let! rest := ahci_functions b d fs in
      ret (match o with Some c => c :: rest | None => rest end)
  end.

Fixpoint ahci_slots (slots : list (Z * Z)) : HM (list (Pci.PciLocation * Z)) :=
  match slots with
  | [] => ret []
  | (b, d) :: slots =>
      let l := Pci.mkLoc b d 0 in
      let! id := Pci.read_config32 l 0 in
      let! found := (if wrap16 id =? 0xffff then ret []
                     else let! h := Pci.read_config32 l 0x0c in
                          ahci_functions b d (seqZ 0 (if negb (Z.land (Z.shiftr h 23) 1 =? 0) then 8 else 1))) in
      let! rest := ahci_slots slots in
      ret (found ++ rest)
  end.
Definition pci_ahci_controllers : HM (list (Pci.PciLocation * Z)) := ahci_slots Pci.slots.

(** ** Registering *)
Definition Registry : Type := list (RegisteredDevice AhciDisk).
Notation T := (M (D * Vmm.VState * (Registry * Z)) unit).
Definition on_hw {A} (m : HM A) : T A := λ s, let '(r, e) := m s.1 in (r, (e, s.2)).

(** [sda], [sdb], ...: the letter is a byte, [index] as one too. *)
Definition disk_letter (index : Z) : T Z := if 97 + wrap8 index <=? u8_max then ret (97 + wrap8 index) else panic.

Definition probe_port (hba pi : Z) (dma64 : bool) (port_index : Z) : T unit :=
  if Z.land pi (Z.shiftl 1 port_index) =? 0 then ret tt
  else
    let p := hba + (PORT_BASE + PORT_STRIDE * port_index) in
    let! ssts := on_hw (rd p 0x28) in
    let! sig := on_hw (rd p 0x24) in
    if negb (Z.land ssts 0xf =? 3) || negb (Z.land (Z.shiftr ssts 8) 0xf =? 1) || negb (sig =? 0x00000101) then ret tt
    else
      let! r := on_hw (catch (new p dma64)) in
      match r with
      | inr _ => ret tt
      | inl disk =>
          let! s := (λ s, (Ok s.2, s)) in
          let! letter := disk_letter s.2 in
          λ s, (Ok tt, (s.1, (register_device (lit "sd" ++ [letter]) disk s.2.1, s.2.2 + 1)))
      end.

Definition probe_hba (c : Pci.PciLocation * Z) : T unit :=
  let! hba := on_hw (on_vmm (Vmm.map_mmio c.2 0x1100)) in
  let! caps := on_hw (reg_read 4 hba) in
  let dma64 := negb (Z.land caps (Z.shiftl 1 31) =? 0) in
  let! g := on_hw (reg_read 4 (hba + 4)) in
  on_hw (reg_write 4 (hba + 4) (Z.lor g (Z.shiftl 1 31))) ;;!
  let! pi := on_hw (reg_read 4 (hba + 0x0c)) in
  mfor (seqZ 0 32) (probe_port hba pi dma64).

Definition ahci_init : T unit :=
  let! found := on_hw pci_ahci_controllers in
  mfor found probe_hba.
End Driver.

(** ** Completion, as the AHCI specification has it

    Bit 0 of PxIS says that the device's register FIS has arrived, which ends
    every successful DMA read. *)
Section Completion.
Context {D : Type} `{Hw D} (fuel : nat).

(** If the interrupt status is set when the wait is over, whatever the wait
    found, the transfer is taken as failed: the data page is not looked at. *)
Lemma transfer_status_set d command lba count (e : D * Vmm.VState) r e' :
  (∀ e1 : D * Vmm.VState, Z.testbit (hw_read 4 (port d + 0x10) e1).1 0 = true) →
  transfer fuel d command lba count e = (Ok r, e') → r = None.
Proof.
  intros Hs. unfold transfer, bind at 1, rd at 1, reg_read. destruct (hw_read 4 (port d + 0x20) e) as [tfd e0]. cbv iota beta.
  destruct (negb (Z.land tfd 0x88 =? 0)); [by intros [= <- _]|].
  unfold bind at 1 2 3 4 5, mem_set, wr, reg_write. cbv iota beta. unfold now at 1. destruct (hw_time _) as [start e1]. cbv iota beta.
  unfold bind at 1. destruct (spin_until _ _ _ _ _) as [[completed| | |] e2]; try discriminate. unfold bind at 1, rd, reg_read.
  specialize (Hs e2). destruct (hw_read 4 (port d + 0x10) e2) as [status e3]. cbn [fst] in Hs. cbv iota beta.
  replace (Z.land status 1 =? 0) with false; [rewrite orb_true_r; by intros [= <- _]|].
  symmetry. apply Z.eqb_neq. intros E. apply (f_equal (λ z, Z.testbit z 0)) in E. cbv beta in E. rewrite Z.land_spec, Hs in E. discriminate E.
Qed.
End Completion.
End Ahci.
